(* ===== verification/_CoqProject ===== *)
-Q . S2P
Prelude.v
Errcode.v
Strconv.v
Identity.v
Json.v
Store.v
PgStore.v
MemStore.v
Conv.v
Conc.v
RateLimit.v
MemberCache.v
World.v
OnlineStore.v
ConvPage.v
MessageSvc.v
GroupSvc.v
ConversationSvc.v
UserSvc.v
DbInv.v
History.v
WorldInv.v
TxInv.v
UserMap.v
MessageInv.v
Deliver.v
GroupInv.v
Paging.v
MemThms.v
ConversationInv.v
UserInv.v
System.v
Scenario.v
SendThms.v
AccessThms.v
DeliveryThms.v
AccountThms.v
Cache.v
CacheDrivers.v
Sha256.v
Auth.v
AuthThms.v
SendQueue.v
GatewayThms.v
Lifecycle.v
LifecycleInv.v
PresenceRows.v
ConnSlots.v
LifecycleThms.v
RedisOnline.v
BusNode.v
BusDrivers.v
BusThms.v
Heap.v
Presence.v
PresenceQueue.v
PresenceInv.v
PresenceCore.v
PresenceSteps.v
PresenceThms.v
PresenceEvents.v
Http.v
NexoConfig.v
ConfigThms.v
AccessLog.v
GormStore.v
GormThms.v
Suites.v
Assembly.v
Api.v
Frames.v
Front.v
FrontThms.v
FrontScenario.v
SdkClient.v
SdkThms.v
MsgBody.v
LoadTool.v
LoadThms.v
Admission.v
