(* ===== verification/Prelude.v ===== *)
(** * Nexo: a verification of the instant-messaging server

    Nexo ([src/]) is an instant-messaging server in Go: any number of stateless nodes answer requests
    over one SQL database, push events to each other over a bus, and keep WebSocket connections. This
    library models its services, their storage and authentication, and proves what the server
    promises about message histories, access, delivery, accounts and resource bounds.

    ** The program and the model

    A request of a service is a sequence of store calls, transactions, limiter calls and publishes. [Conc]
    models it as a [prog] over a shared world: every such call is one atomic step, and between two steps of a
    request any steps of other requests, on any node, can run. [World] holds the database, the memory of
    every node (per-sender limiter, roster cache, push workers), the bus log and the pushes handed to the
    webhook. Clocks, generated ids and faults come from an arbitrary environment ([Env]): clocks may run
    backwards or disagree, ids may collide, a call may fail without effect, and a transaction may fail before
    or after its commit. [System] collects the requests ([Request], [handle]) and defines the
    [reachable] pools of interleaved requests from the empty database; the theorems about the services
    hold in all of them. [Scenario] plays twenty requests and gives the concrete pools of the witnesses.

    Files, in order, and the code they model:
    - [Prelude], [Errcode] ([errcode/errcode.go], [internal/api/webx/response.go]), [Strconv] and
      [Json] (the parts of the Go standard library in use), [Identity] ([internal/identity]);
    - [Store] (rows and tables of [internal/store/store.go] and [pgstore/gen/models.go]), [PgStore] (every statement
      of [pgstore/gen] and every method of [internal/store/pgstore]);
    - [Conv], [ConvPage] ([internal/service/conv]), [RateLimit] ([internal/ratelimit]), [MemberCache]
      ([internal/service/message/members.go]), [OnlineStore] ([internal/onlinestore/db]), [World] (DTOs,
      [internal/bus], [internal/offlinepush] types, [WithTx]);
    - the services: [MessageSvc] ([internal/service/message]), [GroupSvc] ([internal/service/group]),
      [ConversationSvc] ([internal/service/conversation]), [UserSvc] ([internal/service/user]);
    - [DbInv] (the database invariant [DbOk] and the order [DbLe] on states), [History], [WorldInv] (the invariant
      and guarantee of the world, proof rules), [TxInv] (one lemma per transaction), [MessageInv], [GroupInv],
      [Paging], [ConversationInv], [UserInv] (the requests under interleaving);
    - theorems about the system: [SendThms], [AccessThms], [DeliveryThms], [AccountThms];
    - [Cache] ([internal/cache], with [internal/cache/local] as an instance), [CacheDrivers] ([internal/cache/pg], [internal/cache/redis]: two others), [Sha256], [Auth] ([internal/auth],
      [internal/tokenstore], login and logout), [AuthThms];
    - the in-memory store: [MemStore] ([internal/store/storetest/mem*.go]) and its equivalence with [PgStore], [MemThms]; the GORM
      store: [GormStore] ([internal/store/gormstore]) and its equivalence with [PgStore], [GormThms];
    - the gateway ([internal/gateway]): [UserMap] ([usermap.go]), [Deliver] ([push.go]), [SendQueue] and [GatewayThms] (budget, queues,
      writer, kicks, draining), [Lifecycle] ([upgrade.go], [gateway.go], [kick.go], [work.go], [shutdown.go] and the rest of a connection's life:
      reservations, registration, presence rows, work group, shutdown) with its proofs in [LifecycleInv] (refinement of
      [SendQueue]), [PresenceRows], [ConnSlots] and [LifecycleThms], [RedisOnline] ([internal/onlinestore/redis]), [BusNode] ([subscribe.go], [pool.go]: the bus
      consumer and the delivery shards), [BusDrivers] ([internal/bus]) and [BusThms], [Heap] ([container/heap]), [Presence] to [PresenceThms] ([presence.go]: [PresenceQueue] orders the
      refresh queue, [PresenceInv], [PresenceCore] and [PresenceSteps] prove the invariant), [PresenceEvents]
      ([presence_events.go]), [Admission] ([handle.go]: limits on frames; [kick.go]: token rechecks; [conn.go] and the read loop);
    - [NexoConfig], [ConfigThms] ([internal/config]); [AccessLog] (tracing and access log of [internal/api/middleware]); [Assembly] ([internal/app], [server]: what a node opens and closes);
    - the transports: [Http] ([internal/api/webx], [internal/api/middleware]), [Api] (handlers and routes of [internal/api], provider chain of
      [internal/app]), [Frames] (handshake and request frames of [internal/gateway]), [Front] (simulation), [FrontThms], and
      [FrontScenario], which plays a run;
    - around the server: [SdkClient] and [SdkThms] ([sdk]: the Go client against the routes), [MsgBody] ([msgbody], the webhook of
      [internal/offlinepush]), [LoadTool] and [LoadThms] ([deploy/load]: the load test);
    - the conformance suites of the repository as programs over the interfaces: [Suites], with the modules [CacheSuite] ([internal/cache/cachetest]),
      [StoreSuite] ([internal/store/storetest]) and [OnlineSuite] ([internal/onlinestore/onlinetest]).

    ** What the theorems show

    - Histories: in every reachable pool the seqs of a conversation are 1..max_seq in commit order, ids and client
      ids are keys, send times do not go back, an acknowledged send is committed, a retry gets the same
      answer, and a later send gets a larger seq ([SendThms]).
    - Access: a pull returns exactly the visible part of the request, nobody gains access to messages that existed
      before, group posts and reads need membership, kicks need the role, read cursors stay in range and
      only advance, and paging the conversation list is complete ([AccessThms]).
    - Delivery: events on the bus are true, a push payload rebuilds the committed message, offline pushes reach only
      users who may see the message and did not mute it, and a node's memory is bounded ([DeliveryThms]).
    - Accounts and authentication: registration, upsert and presence ([AccountThms]); over any cache that keeps the
      laws of the interface, failing calls included, the token store refines a map of sessions, nonces work once,
      platform identities are valid, the provider chain reports the right verdict ([AuthThms]).
    - Codecs: user ids, conversation ids and page cursors ([Identity], [Conv]).
    - Transports: every run of the HTTP and WebSocket front is a run of [System] in which each call is made for an accepted identity;
      identities are valid and routes that act for a user are behind an authenticator; answers report the error of
      the service with its code and status ([FrontThms]).
    - Connections: the registry's counters, limits, routing and draining ([UserMap]); delivery to exactly the connections that may see
      a message ([DeliveryThms]); the send budget is exact, frames are written in order, draining flushes and no channel is
      closed twice ([GatewayThms]); a connection's handlers, violations and token rechecks ([Admission]); all for every
      interleaving. Every reserved upgrade slot is held by exactly one upgrade, session or connection in close, the presence row
      of a removed connection is not written again, and a shutdown that completes leaves no presence row of the
      node ([LifecycleThms]).
    - The bus: no publication on the local bus is lost without a count, the network drivers lose events only before a reconnection, after
      which clients are asked to pull, and a node delivers a conversation's pushes in order, one at a time ([BusThms]).
    - Presence: the status read from Redis is exact to a second ([RedisOnline]); subscriptions are counted exactly, no live one is forgotten, reads are bounded, a pass of the dispatcher ends and a
      sleeping dispatcher will be woken, snapshots never go back ([PresenceThms]); events fit the bus ([PresenceEvents]).
    - The in-memory store of the tests answers like the PostgreSQL store ([MemThms]), and so does the GORM store over every
      connection it opens ([GormThms]).
    - The checks of the configuration accept exactly the rules of [config_ok] ([ConfigThms]). A node opens what its configuration asks for and
      releases it once, in reverse, however it fails to start or is stopped ([Assembly]).
    - What the Go SDK signs the middleware accepts, each of its methods makes the service call it stands for, and it reports the node's
      answers ([SdkThms]); previews of messages are well-formed and bounded, a push is posted at most once ([MsgBody]). The bodies of logins
      and sends are not in the access log, and a request keeps the trace id it came with ([AccessLog]).
    - A load test passes only when every planned message was acknowledged and both of its users were served it once, in order and as it was
      acknowledged ([load_passed] in [LoadThms]).
    - Every cache that keeps the laws passes the suite of the caches, whatever the delays ([CacheSuite]); the models of the stores and of the
      connection registries pass theirs, each with the exceptions its driver declares ([StoreSuite], [OnlineSuite]).

    ** Assumptions and bounds

    - A store call or transaction is one step: the transactions lock the conversation row first and touch only
      rows of that conversation. Text is compared bytewise. Driver errors other than the mapped ones are [EOther].
    - Requests enter the system with valid user ids ([arrives]); the transports discharge this ([client_calls_authenticated]) when a native
      token that the secret verifies was issued for a valid user ([genuine]). The database
      holds fewer than 2^63-1 messages ([bnd]), so that a seq does not overflow; [i64] and [i32] write out the
      wrap-around. Page maxima are below 2^31-1, since the store passes [int32(limit)] and the configuration does not
      bound them.
    - [golang.org/x/time/rate], bcrypt and the JWT library are class parameters with their documented laws,
      instantiated in the witnesses; GORM is a record of calls with the laws [GormLaws], instantiated for both databases; SHA-256 and HMAC are written out and checked on published vectors. The bus
      log holds decoded payloads. [w_past] is a history variable: the states the database has been in.
    - Fuel: [ListPage_complete] follows the cursors for as many pages as the user has rows, which is enough
      because a page that has a next one is not empty; the JSON validator recurses on its input's length. The heap's [up] and [down] have the
      length of the heap as fuel, the dispatcher's loop the length of the queue, since every round takes one connection out.
    - JSON decoding of bodies and frames, the client address, [ParseCIDR] and [ParseDSN] are parameters. Go's order of ranging over
      a map is open ([GoRange], [RangeClients]). The in-memory store agrees with PostgreSQL on calls that are [usable], as those of
      the services are. Each function under the mutex of the online subscriptions is one step, and the outcome of queueing a
      snapshot is an input. [l_ids], [started] and [sent] are history variables.
    - In [BusDrivers] a server passes a payload to the connections that listen when it is published, and Redis confirms a new
      subscription before its messages; what entered a channel, what was published and the calls made are history variables.
    - [RedisOnline] has one clock, and the commands of a pipeline for a connection run back to back. The laws of the cache allow a driver
      to keep a value up to a millisecond longer ([until_law]), as Redis does, for the lifetimes it can keep ([span]): PostgreSQL those of
      whole seconds ([PgInterval]), Redis those of whole milliseconds.
    - In [Assembly] calls of the host are made one after the other; whether a server can be reached is an environment. In [SdkThms] the node
      decodes bodies and queries to what was encoded ([delivered]), and [net/http] trims header values.
    - In [Lifecycle] a call of the online store is one step, and a failed call had its effect by then or never has it; deadlines
      and the cases of a [select] are choices; [Shutdown] is called once. [lf_purged] and [ex_gone] are
      history variables.
    - In [LoadTool] a function under a pair's mutex is one step, and the verification of a pair, which touches only the pair's records, too;
      the fuel of a view is the number of its messages and two, since every page but the last moves on ([verifyPair_total]). In the suites,
      calls that a test makes at once run in a given order.

    ** Not modelled

    Log lines other than the access log's, the counters of [Stats], migrations, flags and the reading of configuration files are calls of
    libraries without decisions of the program; the suite of the buses and the smoke test drive running servers. Of the WebSocket library,
    writes and deadlines are outcomes in [SendQueue]. The database schema is what [Store] and the statements of [PgStore] say. *)

From stdpp Require Export base tactics option list list_numbers strings sets gmap fin_maps relations sorting.
From Stdlib Require Export ZArith Lia Ascii.
From Stdlib Require String.

(** ** Automation shared by the development *)

Create HintDb nexo discriminated.

(** [inv_ok] turns an equation between two returned values into equations
    between their components and substitutes them. *)
Ltac inv_ok :=
  repeat match goal with
  | H : (_, _) = (_, _) |- _ => injection H as; subst
  | H : Some _ = Some _ |- _ => injection H as; subst
  | H : Some _ = None |- _ => discriminate H
  | H : None = Some _ |- _ => discriminate H
  end.

(** [case_if H] splits on the condition of the first [if] in [H]. *)
Ltac case_if_in H :=
  match type of H with
  | context [ if ?b then _ else _ ] => destruct b eqn:?
  end.

(** [bool_prop] turns boolean comparisons of integers into propositions. *)
Ltac bool_prop :=
  repeat match goal with
  | H : (_ && _)%bool = true |- _ => apply andb_true_iff in H; destruct H
  | H : (_ || _)%bool = false |- _ => apply orb_false_iff in H; destruct H
  | H : negb _ = true |- _ => apply negb_true_iff in H
  | H : negb _ = false |- _ => apply negb_false_iff in H
  | H : (_ <? _)%Z = true |- _ => apply Z.ltb_lt in H
  | H : (_ <? _)%Z = false |- _ => apply Z.ltb_ge in H
  | H : (_ <=? _)%Z = true |- _ => apply Z.leb_le in H
  | H : (_ <=? _)%Z = false |- _ => apply Z.leb_gt in H
  | H : (_ =? _)%Z = true |- _ => apply Z.eqb_eq in H
  | H : (_ =? _)%Z = false |- _ => apply Z.eqb_neq in H
  | H : (_ =? _)%string = true |- _ => apply String.eqb_eq in H
  | H : (_ =? _)%string = false |- _ => apply String.eqb_neq in H
  | H : bool_decide _ = true |- _ => apply bool_decide_eq_true in H
  | H : bool_decide _ = false |- _ => apply bool_decide_eq_false in H
  end.

(** ** Machine integers

    Go's [int64] (and [int] on the 64-bit targets) and [int32] are integers with
    two's-complement wrap-around, written out here. *)

Definition wrap (bits : Z) (x : Z) : Z :=
  ((x + 2 ^ (bits - 1)) mod 2 ^ bits - 2 ^ (bits - 1))%Z.

Definition i64 (x : Z) : Z := wrap 64 x.

Definition i32 (x : Z) : Z := wrap 32 x.

Definition maxInt64 : Z := (2 ^ 63 - 1)%Z.

Definition minInt64 : Z := (- 2 ^ 63)%Z.

Lemma wrap_id bits x :
  (0 < bits)%Z → (- 2 ^ (bits - 1) ≤ x < 2 ^ (bits - 1))%Z → wrap bits x = x.
Proof.
  intros Hb Hx. unfold wrap.
  assert (2 ^ bits = 2 * 2 ^ (bits - 1))%Z as E.
  { rewrite <- Z.pow_succ_r by lia. f_equal. lia. }
  rewrite Z.mod_small; lia.
Qed.

Lemma i64_id x : (minInt64 ≤ x ≤ maxInt64)%Z → i64 x = x.
Proof. unfold minInt64, maxInt64. intros. apply wrap_id; simpl; lia. Qed.

Lemma i32_id x : (- 2 ^ 31 ≤ x < 2 ^ 31)%Z → i32 x = x.
Proof. intros. apply wrap_id; simpl; lia. Qed.

(** ** Time

    [time.Time] is an instant in nanoseconds since the Unix epoch and
    [time.Duration] a number of nanoseconds; the zero [time.Time] is January 1 of
    year 1. Both are used only through comparison, addition and [UnixMilli]. *)

Definition zeroTime : Z := (-62135596800 * 1000000000)%Z.

Definition Millisecond : Z := 1000000%Z.

Definition Second : Z := 1000000000%Z.

Definition UnixMilli (t : Z) : Z := (t / Millisecond)%Z.

Definition UnixMilli_of (ms : Z) : Z := (ms * Millisecond)%Z.

Definition After (a b : Z) : bool := (b <? a)%Z.

Definition Before (a b : Z) : bool := (a <? b)%Z.

Lemma UnixMilli_roundtrip ms : UnixMilli (UnixMilli_of ms) = ms.
Proof. unfold UnixMilli, UnixMilli_of, Millisecond. apply Z.div_mul. lia. Qed.

(** ** Helpers of the [lo], [slices] and [cmp] packages the code calls *)

Definition Ternary {A} (c : bool) (a b : A) : A := if c then a else b.

(** [lo.FromPtrOr]: a [nil] pointer is [None]. *)
Definition FromPtrOr {A} (p : option A) (d : A) : A := default d p.

(** [lo.Uniq]: keeps the first occurrence of each element, in order. *)
Fixpoint Uniq_from (seen l : list string) : list string :=
  match l with
  | [] => []
  | x :: l' => if bool_decide (x ∈ seen) then Uniq_from seen l' else x :: Uniq_from (x :: seen) l'
  end.

Definition Uniq (l : list string) : list string := Uniq_from [] l.

(** [slices.Chunk]: consecutive sub-slices of at most [n] elements. *)
Fixpoint Chunk_fuel {A} (fuel n : nat) (l : list A) : list (list A) :=
  match fuel with
  | O => []
  | S f => match l with [] => [] | _ => take n l :: Chunk_fuel f n (drop n l) end
  end.

Definition Chunk {A} (n : nat) (l : list A) : list (list A) := Chunk_fuel (length l) n l.

Lemma elem_of_Uniq_from seen l x : x ∈ Uniq_from seen l ↔ x ∈ l ∧ x ∉ seen.
Proof.
  revert seen. induction l as [|y l IH]; intros seen; simpl; [set_solver|].
  case_bool_decide as Hy; [rewrite IH; set_solver|].
  rewrite !elem_of_cons, IH, elem_of_cons. destruct (decide (x = y)); naive_solver.
Qed.

Lemma elem_of_Uniq l x : x ∈ Uniq l ↔ x ∈ l.
Proof. unfold Uniq. rewrite elem_of_Uniq_from. set_solver. Qed.

Lemma NoDup_Uniq l : NoDup (Uniq l).
Proof.
  unfold Uniq. generalize (@nil string) as seen.
  induction l as [|y l IH]; intros seen; simpl; [constructor|].
  case_bool_decide; [done|]. constructor; [|done].
  rewrite elem_of_Uniq_from. set_solver.
Qed.

Lemma concat_Chunk {A} n (l : list A) : 0 < n → concat (Chunk n l) = l.
Proof.
  intros Hn. unfold Chunk.
  assert (∀ fuel (k : list A), length k ≤ fuel → concat (Chunk_fuel fuel n k) = k) as H; [|by apply H].
  induction fuel as [|f IH]; intros k Hk; destruct k as [|x k]; simpl in *; try done; [lia|].
  destruct n as [|n]; [lia|]. simpl. f_equal.
  rewrite IH; [apply take_drop|]. rewrite length_drop. lia.
Qed.

Lemma Chunk_length {A} n (l : list A) c : c ∈ Chunk n l → length c ≤ n.
Proof.
  unfold Chunk. generalize (length l) as fuel. intros fuel. revert l.
  induction fuel as [|f IH]; intros l; simpl; [set_solver|].
  destruct l; [set_solver|]. rewrite elem_of_cons. intros [->|H]; [|by eapply IH].
  rewrite length_take. lia.
Qed.

#[export] Hint Resolve NoDup_Uniq : nexo.
