(* ===== verification/Errcode.v ===== *)
(** * Errors

    [errcode/errcode.go] and the Go error values the services pass around. A Go
    [error] is a tree of wrapped errors; the values compared with [errors.Is] are the
    package-level sentinels of [internal/store], [internal/service/message] and
    [internal/auth]. A function that returns [(T, error)] returns a [result T]. *)

From S2P Require Import Prelude.

Local Open Scope Z_scope.

(** ** Error values *)

Inductive sentinel : Set :=
| store_ErrNotFound | store_ErrDuplicate | store_ErrNestedTx
| gorm_ErrRecordNotFound | gorm_ErrDuplicatedKey
| message_errRollback
| identity_ErrInvalidUserId
| auth_ErrTokenInvalid | auth_ErrTokenExpired | auth_ErrUnavailable
| auth_ErrServiceNotAllowed | auth_ErrClockSkew | auth_ErrBadSignature | auth_ErrNonceReplayed.

#[export] Instance sentinel_eq_dec : EqDecision sentinel.
Proof. solve_decision. Defined.

(** [EOther] stands for every error of a driver or library; [EWrap m e] for
    [fmt.Errorf] with one [%w] verb and [EWrap2 e1 e2] for two of them. *)
Inductive error : Type :=
| ESentinel (s : sentinel)
| EOther (msg : string)
| ECode (Code : Z) (Message : string) (cause : option error)
| EWrap (msg : string) (e : error)
| EWrap2 (e1 e2 : error).

Inductive result (A : Type) : Type :=
| Ok (a : A)
| Err (e : error).
Arguments Ok {A} a.
Arguments Err {A} e.

Definition is_Ok {A} (r : result A) : bool := match r with Ok _ => true | Err _ => false end.

(** An [error] return value alone: [nil] is [None]. *)
Abbreviation err := (option error).

(** ** The [errors] package *)

(** [errors.Is(e, target)] for a sentinel target: equality, then the wrapped errors,
    depth first. [*errcode.Error] has an [Is] method that only matches [*Error]. *)
Fixpoint Is (e : error) (t : sentinel) : bool :=
  match e with
  | ESentinel s => bool_decide (s = t)
  | EOther _ => false
  | ECode _ _ None => false
  | ECode _ _ (Some c) => Is c t
  | EWrap _ e => Is e t
  | EWrap2 e1 e2 => Is e1 t || Is e2 t
  end.

(** [errors.Is(e, target)] for an [*errcode.Error] target: its [Is] method compares codes. *)
Fixpoint IsCode (e : error) (code : Z) : bool :=
  match e with
  | ESentinel _ | EOther _ => false
  | ECode c _ None => c =? code
  | ECode c _ (Some e) => (c =? code) || IsCode e code
  | EWrap _ e => IsCode e code
  | EWrap2 e1 e2 => IsCode e1 code || IsCode e2 code
  end.

(** [errors.AsType[*Error]]: the first [*errcode.Error] of the tree. *)
Fixpoint AsType (e : error) : option (Z * string * option error) :=
  match e with
  | ESentinel _ | EOther _ => None
  | ECode c m cause => Some (c, m, cause)
  | EWrap _ e => AsType e
  | EWrap2 e1 e2 => match AsType e1 with Some r => Some r | None => AsType e2 end
  end.

(** ** [errcode.Error] *)

(** [New] panics on a malformed code: [None]. *)
Definition New (code : Z) (message : string) : option error :=
  if (code <? 10000) || (29999 <? code) || (Z.rem code 100 =? 0) then None
  else Some (ECode code message None).

Definition Wrap (e : error) (cause : err) : error :=
  match cause with
  | None => e
  | Some c => match e with ECode code m _ => ECode code m (Some c) | _ => e end
  end.

Definition WithMessage (e : error) (message : string) : error :=
  match e with ECode c _ cause => ECode c message cause | _ => e end.

Definition Class_of (code : Z) : Z := Z.quot code 10000.

Definition Business : Z := 1.

Definition System : Z := 2.

Definition IsSystem_code (code : Z) : bool := Class_of code =? System.

(** ** The codes *)

Definition ErrInvalidParam := ECode 10001 "invalid parameter" None.
Definition ErrUnauthorized := ECode 10002 "unauthorized" None.
Definition ErrForbidden := ECode 10003 "forbidden" None.
Definition ErrNotFound := ECode 10004 "not found" None.
Definition ErrTooManyRequests := ECode 10005 "too many requests" None.
Definition ErrNoPermission := ECode 10006 "no permission to access this resource" None.
Definition ErrInternal := ECode 20001 "internal server error" None.
Definition ErrStoreFailed := ECode 20002 "storage unavailable" None.
Definition ErrBusFailed := ECode 20003 "event bus unavailable" None.
Definition ErrTimeout := ECode 20004 "request timed out" None.
Definition ErrTokenInvalid := ECode 10101 "token invalid" None.
Definition ErrTokenExpired := ECode 10102 "token expired" None.
Definition ErrTokenMissing := ECode 10103 "token missing" None.
Definition ErrTokenMismatch := ECode 10104 "token user mismatch" None.
Definition ErrLoginFailed := ECode 10105 "login failed" None.
Definition ErrPasswordWrong := ECode 10106 "password wrong" None.
Definition ErrProviderDisabled := ECode 10107 "auth provider disabled" None.
Definition ErrAuthUnavailable := ECode 20101 "authentication temporarily unavailable" None.
Definition ErrUserNotFound := ECode 10201 "user not found" None.
Definition ErrUserExists := ECode 10202 "user already exists" None.
Definition ErrGroupNotFound := ECode 10301 "group not found" None.
Definition ErrGroupDismissed := ECode 10302 "group has been dismissed" None.
Definition ErrNotGroupMember := ECode 10303 "not a group member" None.
Definition ErrMemberNotActive := ECode 10304 "member not active" None.
Definition ErrAlreadyGroupMember := ECode 10305 "already a group member" None.
Definition ErrNotGroupOwner := ECode 10306 "not group owner" None.
Definition ErrNotGroupAdmin := ECode 10307 "not group admin" None.
Definition ErrCannotKickOwner := ECode 10308 "cannot kick group owner" None.
Definition ErrGroupFull := ECode 10309 "group member limit reached" None.
Definition ErrMessageNotFound := ECode 10401 "message not found" None.
Definition ErrMessageDuplicate := ECode 10402 "duplicate message" None.
Definition ErrMessageContentTooLong := ECode 10403 "message content too large" None.
Definition ErrSeqAllocFailed := ECode 20401 "seq allocation failed" None.
Definition ErrMessageSendFailed := ECode 20402 "message send failed" None.
Definition ErrMessagePullFailed := ECode 20403 "message pull failed" None.
Definition ErrConversationNotFound := ECode 10501 "conversation not found" None.
Definition ErrConnOverLimit := ECode 10601 "connection over max limit" None.
Definition ErrConnClosed := ECode 10602 "connection closed" None.
Definition ErrInvalidProtocol := ECode 10603 "invalid protocol" None.
Definition ErrNodeDraining := ECode 10604 "node is shutting down" None.
Definition ErrPushFailed := ECode 20601 "push message failed" None.

Definition all_codes : list error :=
  [ErrInvalidParam; ErrUnauthorized; ErrForbidden; ErrNotFound; ErrTooManyRequests; ErrNoPermission;
   ErrInternal; ErrStoreFailed; ErrBusFailed; ErrTimeout;
   ErrTokenInvalid; ErrTokenExpired; ErrTokenMissing; ErrTokenMismatch; ErrLoginFailed; ErrPasswordWrong;
   ErrProviderDisabled; ErrAuthUnavailable; ErrUserNotFound; ErrUserExists;
   ErrGroupNotFound; ErrGroupDismissed; ErrNotGroupMember; ErrMemberNotActive; ErrAlreadyGroupMember;
   ErrNotGroupOwner; ErrNotGroupAdmin; ErrCannotKickOwner; ErrGroupFull;
   ErrMessageNotFound; ErrMessageDuplicate; ErrMessageContentTooLong;
   ErrSeqAllocFailed; ErrMessageSendFailed; ErrMessagePullFailed; ErrConversationNotFound;
   ErrConnOverLimit; ErrConnClosed; ErrInvalidProtocol; ErrNodeDraining; ErrPushFailed].

(** ** [From], [Or] and [IsSystem] *)

(** [From(nil)] is [nil]; an error with an [*Error] in its tree yields that one. *)
Definition From_err (e : err) : option (Z * string * option error) :=
  match e with
  | None => None
  | Some e =>
      match AsType e with
      | Some r => Some r
      | None => Some (20001, "internal server error", Some e)
      end
  end.

Definition Or (e : error) (fallback : error) : error :=
  match AsType e with Some _ => e | None => Wrap fallback (Some e) end.

Definition IsSystem (e : err) : bool :=
  match From_err e with None => false | Some (c, _, _) => IsSystem_code c end.

(** The code the client sees. *)
Definition code_of (e : error) : Z := match From_err (Some e) with Some (c, _, _) => c | None => 0 end.

(** ** HTTP status ([internal/api/webx/response.go]) *)

Definition HttpStatus (code : Z) : Z :=
  if (code =? 10002) || (code =? 10101) || (code =? 10102) || (code =? 10103) then 401
  else if (code =? 10003) || (code =? 10006) then 403
  else if code =? 20101 then 503
  else if code =? 10005 then 429
  else if code =? 20004 then 504
  else if IsSystem_code code then 500
  else 200.

(** [AuthErr] maps a verification failure onto the errcode the client sees. *)
Definition AuthErr (e : error) : error :=
  if Is e auth_ErrTokenExpired then Wrap ErrTokenExpired (Some e)
  else if Is e auth_ErrUnavailable then Wrap ErrAuthUnavailable (Some e)
  else Wrap ErrTokenInvalid (Some e).

(** ** Lemmas *)

Lemma error_ind' (P : error → Prop) :
  (∀ s, P (ESentinel s)) → (∀ m, P (EOther m)) → (∀ c m, P (ECode c m None)) →
  (∀ c m e, P e → P (ECode c m (Some e))) → (∀ m e, P e → P (EWrap m e)) →
  (∀ e1 e2, P e1 → P e2 → P (EWrap2 e1 e2)) → ∀ e, P e.
Proof.
  intros Hs Ho Hn Hc Hw Hw2. fix IH 1. intros [s|m|c m [e|]|m e|e1 e2].
  - apply Hs.
  - apply Ho.
  - apply Hc, IH.
  - apply Hn.
  - apply Hw, IH.
  - apply Hw2; apply IH.
Qed.

Lemma Or_code e fallback c m cause :
  fallback = ECode c m cause →
  code_of (Or e fallback) = match AsType e with Some (c', _, _) => c' | None => c end.
Proof.
  intros ->. unfold Or, code_of. simpl.
  destruct (AsType e) as [[[c' m'] cause']|] eqn:E; [by rewrite E|done].
Qed.

Lemma quot_10000 c q : 0 ≤ c → q * 10000 ≤ c < (q + 1) * 10000 → Z.quot c 10000 = q.
Proof. intros H0 Hq. rewrite Z.quot_div_nonneg by lia. symmetry. apply Z.div_unique with (c - q * 10000); lia. Qed.

Lemma IsSystem_code_range c : 10000 ≤ c ≤ 29999 → IsSystem_code c = (20000 <=? c).
Proof.
  intros H. unfold IsSystem_code, Class_of, System.
  destruct (Z.leb_spec 20000 c); [rewrite (quot_10000 c 2) by lia|rewrite (quot_10000 c 1) by lia]; done.
Qed.
