(* ===== verification/Strconv.v ===== *)
(** * Text: the string functions of the Go standard library the code calls

    A Go string is a sequence of bytes, a Rocq [string] of 8-bit [ascii]. This file holds
    [strconv.FormatInt]/[ParseInt] in base 10 at 64 bits, [base64.RawURLEncoding], and the
    functions of [strings] and [unicode] used by the services, with their round trips. *)

From S2P Require Import Prelude.

Local Open Scope Z_scope.

Abbreviation to_list := String.list_ascii_of_string.
Abbreviation of_list := String.string_of_list_ascii.

Definition byte_Z (c : ascii) : Z := Z.of_N (N_of_ascii c).

Definition Z_byte (z : Z) : ascii := ascii_of_N (Z.to_N z).

(** [len(s)] counts bytes. *)
Definition len (s : string) : Z := Z.of_nat (String.length s).

(** ** strconv *)

Definition digit_char (d : Z) : ascii := Z_byte (48 + d).

Fixpoint format_digits (fuel : nat) (n : Z) (acc : list ascii) : list ascii :=
  match fuel with
  | O => acc
  | S f =>
      let acc' := digit_char (n mod 10) :: acc in
      if n <? 10 then acc' else format_digits f (n / 10) acc'
  end.

(** [strconv.FormatInt(n, 10)]; an [int64] has at most 19 digits. *)
Definition FormatInt (n : Z) : string :=
  if n <? 0 then of_list ("-"%char :: format_digits 20 (- n) [])
  else of_list (format_digits 20 n []).

Definition digit_val (c : ascii) : option Z :=
  let d := byte_Z c - 48 in
  if (0 <=? d) && (d <? 10) then Some d else None.

Fixpoint parse_digits (acc : Z) (l : list ascii) : option Z :=
  match l with
  | [] => Some acc
  | c :: l' => match digit_val c with Some d => parse_digits (acc * 10 + d) l' | None => None end
  end.

(** [strconv.ParseUint(s, 10, 64)] without its range check, which [ParseInt] subsumes. *)
Definition parse_uint (l : list ascii) : option Z :=
  match l with [] => None | _ => parse_digits 0 l end.

(** [strconv.ParseInt(s, 10, 64)]: [None] for a syntax or a range error. *)
Definition ParseInt (s : string) : option Z :=
  match to_list s with
  | [] => None
  | c :: l =>
      let neg := bool_decide (c = "-"%char) in
      let body := if neg || bool_decide (c = "+"%char) then l else c :: l in
      match parse_uint body with
      | None => None
      | Some un =>
          if neg then if un <=? 2 ^ 63 then Some (- un) else None
          else if un <? 2 ^ 63 then Some un else None
      end
  end.

(** ** base64.RawURLEncoding *)

Definition b64_alphabet : list ascii :=
  to_list "ABCDEFGHIJKLMNOPQRSTUVWXYZabcdefghijklmnopqrstuvwxyz0123456789-_".

Definition b64_char (v : Z) : ascii := nth (Z.to_nat v) b64_alphabet "A"%char.

Fixpoint find_index (c : ascii) (l : list ascii) (i : Z) : option Z :=
  match l with
  | [] => None
  | x :: l' => if bool_decide (x = c) then Some i else find_index c l' (i + 1)
  end.

Definition b64_val (c : ascii) : option Z := find_index c b64_alphabet 0.

Fixpoint b64_encode (l : list ascii) : list ascii :=
  match l with
  | [] => []
  | [a] =>
      let v := byte_Z a * 65536 in
      [b64_char (v / 262144); b64_char (v / 4096 mod 64)]
  | [a; b] =>
      let v := byte_Z a * 65536 + byte_Z b * 256 in
      [b64_char (v / 262144); b64_char (v / 4096 mod 64); b64_char (v / 64 mod 64)]
  | a :: b :: c :: l' =>
      let v := byte_Z a * 65536 + byte_Z b * 256 + byte_Z c in
      b64_char (v / 262144) :: b64_char (v / 4096 mod 64) :: b64_char (v / 64 mod 64)
        :: b64_char (v mod 64) :: b64_encode l'
  end.

(** [RawURLEncoding.EncodeToString]. *)
Definition EncodeToString (s : string) : string := of_list (b64_encode (to_list s)).

Fixpoint b64_decode_vals (l : list Z) : option (list ascii) :=
  match l with
  | [] => Some []
  | [_] => None
  | [a; b] =>
      let v := a * 262144 + b * 4096 in
      Some [Z_byte (v / 65536)]
  | [a; b; c] =>
      let v := a * 262144 + b * 4096 + c * 64 in
      Some [Z_byte (v / 65536); Z_byte (v / 256 mod 256)]
  | a :: b :: c :: d :: l' =>
      let v := a * 262144 + b * 4096 + c * 64 + d in
      match b64_decode_vals l' with
      | Some r => Some (Z_byte (v / 65536) :: Z_byte (v / 256 mod 256) :: Z_byte (v mod 256) :: r)
      | None => None
      end
  end.

Definition is_newline (c : ascii) : bool :=
  bool_decide (c = "010"%char) || bool_decide (c = "013"%char).

(** [RawURLEncoding.DecodeString]: newlines are skipped, any other byte outside the
    alphabet is an error, and the unused trailing bits are not checked. *)
Definition DecodeString (s : string) : option string :=
  match mapM b64_val (List.filter (fun c => negb (is_newline c)) (to_list s)) with
  | Some vals => match b64_decode_vals vals with Some l => Some (of_list l) | None => None end
  | None => None
  end.

(** ** strings *)

(** [strings.Cut(s, sep)] for a one-byte separator. *)
Fixpoint Cut (s : string) (sep : ascii) : option (string * string) :=
  match s with
  | String.EmptyString => None
  | String.String c s' =>
      if bool_decide (c = sep) then Some (""%string, s')
      else match Cut s' sep with Some (a, b) => Some (String.String c a, b) | None => None end
  end.

Definition HasPrefix (s p : string) : bool := String.prefix p s.

(** [s[:n]] and [s[n:]] within bounds. *)
Definition slice_to (s : string) (n : nat) : string := String.substring 0 n s.

Definition slice_from (s : string) (n : nat) : string :=
  String.substring n (String.length s - n) s.

(** [strings.ContainsRune(s, r)] for an ASCII rune. *)
Fixpoint ContainsRune (s : string) (r : ascii) : bool :=
  match s with
  | String.EmptyString => false
  | String.String c s' => bool_decide (c = r) || ContainsRune s' r
  end.

(** Go's [a < b] on strings: lexicographic on bytes. *)
Definition str_ltb (a b : string) : bool := String.ltb a b.

(** [unicode.IsSpace] of the last rune of a byte sequence given in reverse order: the
    number of bytes of that rune when it is a space, 0 otherwise. The white-space code
    points are U+0009..U+000D, U+0020, U+0085, U+00A0, U+1680, U+2000..U+200A, U+2028,
    U+2029, U+202F, U+205F and U+3000; an ill-formed tail decodes to U+FFFD, no space. *)
Definition space_suffix (rev : list Z) : nat :=
  match rev with
  | [] => O
  | b0 :: r =>
      if ((9 <=? b0) && (b0 <=? 13)) || (b0 =? 32) then 1%nat
      else match r with
      | [] => O
      | b1 :: r' =>
          if (b1 =? 194) && ((b0 =? 133) || (b0 =? 160)) then 2%nat
          else match r' with
          | [] => O
          | b2 :: _ =>
              if (b2 =? 225) && (b1 =? 154) && (b0 =? 128) then 3%nat
              else if (b2 =? 226) && (b1 =? 128) &&
                      (((128 <=? b0) && (b0 <=? 138)) || (b0 =? 168) || (b0 =? 169) || (b0 =? 175)) then 3%nat
              else if (b2 =? 226) && (b1 =? 129) && (b0 =? 159) then 3%nat
              else if (b2 =? 227) && (b1 =? 128) && (b0 =? 128) then 3%nat
              else O
          end
      end
  end.

Fixpoint trim_rev (fuel : nat) (rev : list Z) : list Z :=
  match fuel with
  | O => rev
  | S f => match space_suffix rev with O => rev | n => trim_rev f (drop n rev) end
  end.

(** [strings.TrimRightFunc(s, unicode.IsSpace)]. *)
Definition TrimRightSpace (s : string) : string :=
  let rev := reverse (map byte_Z (to_list s)) in
  of_list (map Z_byte (reverse (trim_rev (length rev) rev))).

(** ** Bytes and digits *)

Lemma byte_Z_range c : 0 ≤ byte_Z c < 256.
Proof. unfold byte_Z. pose proof (N_ascii_bounded c). lia. Qed.

Lemma Z_byte_Z c : Z_byte (byte_Z c) = c.
Proof. unfold Z_byte, byte_Z. rewrite N2Z.id. apply ascii_N_embedding. Qed.

Lemma byte_Z_byte z : 0 ≤ z < 256 → byte_Z (Z_byte z) = z.
Proof. intros. unfold Z_byte, byte_Z. rewrite N_ascii_embedding; lia. Qed.

Lemma digit_val_char d : 0 ≤ d < 10 → digit_val (digit_char d) = Some d.
Proof.
  intros. unfold digit_val, digit_char. rewrite byte_Z_byte by lia.
  replace (48 + d - 48) with d by lia.
  replace ((0 <=? d) && (d <? 10)) with true by (symmetry; lia). done.
Qed.

Lemma to_of_list l : to_list (of_list l) = l.
Proof. apply String.list_ascii_of_string_of_list_ascii. Qed.

Lemma of_to_list s : of_list (to_list s) = s.
Proof. apply String.string_of_list_ascii_of_string. Qed.

Lemma parse_digits_app l1 l2 acc :
  parse_digits acc (l1 ++ l2) = match parse_digits acc l1 with Some a => parse_digits a l2 | None => None end.
Proof.
  revert acc. induction l1 as [|c l1 IH]; intros acc; simpl; [done|].
  destruct (digit_val c); [apply IH|done].
Qed.

(** The digits of [n], as produced, read back as [n]. *)
Lemma format_digits_spec fuel n acc :
  0 ≤ n < 10 ^ Z.of_nat fuel → (fuel ≠ 0)%nat →
  ∃ l, format_digits fuel n acc = l ++ acc ∧ l ≠ [] ∧ parse_digits 0 l = Some n ∧
    Forall (λ c, is_Some (digit_val c)) l.
Proof.
  revert n acc. induction fuel as [|f IH]; intros n acc Hn Hf; [done|].
  assert (0 ≤ n mod 10 < 10) as Hm by (apply Z.mod_pos_bound; lia).
  cbn [format_digits]. destruct (Z.ltb_spec n 10) as [Hlt|Hge].
  - exists [digit_char (n mod 10)]. rewrite Z.mod_small by lia. simpl.
    rewrite digit_val_char by lia. repeat split; try done.
    constructor; [rewrite digit_val_char by lia; eauto|constructor].
  - rewrite Nat2Z.inj_succ, Z.pow_succ_r in Hn by lia.
    assert (1 ≤ n / 10 < 10 ^ Z.of_nat f) as Hd.
    { split; [apply Z.div_le_lower_bound; lia|apply Z.div_lt_upper_bound; lia]. }
    destruct f as [|f]; [simpl in Hd; lia|].
    destruct (IH (n / 10) (digit_char (n mod 10) :: acc)) as (l & -> & Hne & Hp & Hall); [lia|done|].
    exists (l ++ [digit_char (n mod 10)]). rewrite <- app_assoc. repeat split.
    + by destruct l.
    + rewrite parse_digits_app, Hp. simpl. rewrite digit_val_char by lia. f_equal.
      pose proof (Z.div_mod n 10). lia.
    + apply Forall_app. split; [done|]. constructor; [rewrite digit_val_char by lia; eauto|constructor].
Qed.

Lemma digit_not_sign c : is_Some (digit_val c) → c ≠ "-"%char ∧ c ≠ "+"%char ∧ c ≠ ":"%char.
Proof. intros [d Hd]. repeat split; intros ->; vm_compute in Hd; discriminate Hd. Qed.

Lemma parse_uint_cons c l : parse_uint (c :: l) = parse_digits 0 (c :: l).
Proof. done. Qed.

(** [strconv.ParseInt] reads back what [strconv.FormatInt] writes. *)
Lemma ParseInt_FormatInt n : minInt64 ≤ n ≤ maxInt64 → ParseInt (FormatInt n) = Some n.
Proof.
  unfold minInt64, maxInt64. intros Hn. unfold FormatInt, ParseInt.
  destruct (Z.ltb_spec n 0) as [Hneg|Hpos].
  - destruct (format_digits_spec 20 (- n) []) as (l & -> & Hne & Hp & _); [simpl; lia|done|].
    rewrite app_nil_r, to_of_list. rewrite bool_decide_true by done. cbn [orb].
    destruct l as [|c l]; [done|]. rewrite parse_uint_cons, Hp.
    replace (- n <=? 2 ^ 63) with true by (symmetry; lia). f_equal. lia.
  - destruct (format_digits_spec 20 n []) as (l & -> & Hne & Hp & Hall); [simpl; lia|done|].
    rewrite app_nil_r, to_of_list. destruct l as [|c l]; [done|].
    apply Forall_cons in Hall as [Hc _]. apply digit_not_sign in Hc as (? & ? & _).
    rewrite !bool_decide_false by done. cbn [orb]. rewrite parse_uint_cons, Hp.
    replace (n <? 2 ^ 63) with true by (symmetry; lia). done.
Qed.

Lemma ParseInt_range s n : ParseInt s = Some n → minInt64 ≤ n ≤ maxInt64.
Proof.
  unfold ParseInt, minInt64, maxInt64. destruct (to_list s) as [|c l]; [done|].
  destruct (parse_uint _) as [un|] eqn:E; [|done].
  assert (0 ≤ un) as Hun.
  { revert E. generalize (if bool_decide (c = "-"%char) || bool_decide (c = "+"%char) then l else c :: l) as k.
    clear. intros k E. assert (parse_digits 0 k = Some un) as E' by (by destruct k). revert E'. clear E.
    assert (∀ acc, 0 ≤ acc → parse_digits acc k = Some un → 0 ≤ un) as H; [|intros; by apply (H 0)].
    induction k as [|x k IH]; intros acc Hacc; simpl; [by intros [= <-]|].
    unfold digit_val. destruct ((_ <=? _) && _) eqn:Ed; [|done]. bool_prop. apply IH. lia. }
  destruct (bool_decide (c = "-"%char)).
  - destruct (Z.leb_spec un (2 ^ 63)); [|done]. intros [= <-]. lia.
  - destruct (Z.ltb_spec un (2 ^ 63)); [|done]. intros [= <-]. lia.
Qed.

Lemma FormatInt_inj n m :
  minInt64 ≤ n ≤ maxInt64 → minInt64 ≤ m ≤ maxInt64 → FormatInt n = FormatInt m → n = m.
Proof. intros Hn Hm E. apply ParseInt_FormatInt in Hn, Hm. rewrite E in Hn. congruence. Qed.

(** ** base64 round trip *)

Lemma b64_val_char v : 0 ≤ v < 64 → b64_val (b64_char v) = Some v ∧ is_newline (b64_char v) = false.
Proof.
  intros Hv.
  assert (forallb (λ n, bool_decide (b64_val (b64_char (Z.of_nat n)) = Some (Z.of_nat n))
            && negb (is_newline (b64_char (Z.of_nat n)))) (seq 0 64) = true) as H by (vm_compute; done).
  rewrite forallb_forall in H. specialize (H (Z.to_nat v)).
  rewrite Z2Nat.id in H by lia. specialize (H ltac:(apply in_seq; lia)). bool_prop. done.
Qed.

Lemma div_range a b c : 0 < b → 0 ≤ a < b * c → 0 ≤ a / b < c.
Proof. intros. split; [apply Z.div_pos; lia|apply Z.div_lt_upper_bound; lia]. Qed.

Lemma Z_byte_eq a z : z = byte_Z a → Z_byte z = a.
Proof. intros ->. apply Z_byte_Z. Qed.

Lemma b64_roundtrip_list l :
  mapM b64_val (b64_encode l) ≫= b64_decode_vals = Some l ∧
  List.filter (λ c, negb (is_newline c)) (b64_encode l) = b64_encode l.
Proof.
  induction l as [l IH] using (induction_ltof1 _ (@length ascii)). unfold ltof in IH.
  destruct l as [|a [|b [|c l]]]; [done|..];
    (pose proof (byte_Z_range a) as Ha); try (pose proof (byte_Z_range b) as Hb);
    try (pose proof (byte_Z_range c) as Hc).
  - destruct (b64_val_char (byte_Z a * 65536 / 262144)) as [V1 N1]; [apply div_range; lia|].
    destruct (b64_val_char (byte_Z a * 65536 / 4096 mod 64)) as [V2 N2]; [apply Z.mod_pos_bound; lia|].
    simpl. rewrite V1, V2, N1, N2. simpl. split; [|done]. f_equal. f_equal. apply Z_byte_eq.
    Z.to_euclidean_division_equations; lia.
  - set (v := byte_Z a * 65536 + byte_Z b * 256) in *.
    destruct (b64_val_char (v / 262144)) as [V1 N1]; [apply div_range; lia|].
    destruct (b64_val_char (v / 4096 mod 64)) as [V2 N2]; [apply Z.mod_pos_bound; lia|].
    destruct (b64_val_char (v / 64 mod 64)) as [V3 N3]; [apply Z.mod_pos_bound; lia|].
    cbn [b64_encode]. fold v. simpl. rewrite V1, V2, V3, N1, N2, N3. simpl. split; [|done].
    f_equal. f_equal; [|f_equal]; apply Z_byte_eq; subst v; Z.to_euclidean_division_equations; lia.
  - set (v := byte_Z a * 65536 + byte_Z b * 256 + byte_Z c) in *.
    destruct (b64_val_char (v / 262144)) as [V1 N1]; [apply div_range; lia|].
    destruct (b64_val_char (v / 4096 mod 64)) as [V2 N2]; [apply Z.mod_pos_bound; lia|].
    destruct (b64_val_char (v / 64 mod 64)) as [V3 N3]; [apply Z.mod_pos_bound; lia|].
    destruct (b64_val_char (v mod 64)) as [V4 N4]; [apply Z.mod_pos_bound; lia|].
    destruct (IH l) as [IH1 IH2]; [simpl; lia|].
    cbn [b64_encode]. fold v. simpl. rewrite V1, V2, V3, V4, N1, N2, N3, N4. simpl. rewrite IH2.
    split; [|done]. destruct (mapM b64_val (b64_encode l)) as [vals|]; simpl in *; [|done].
    rewrite IH1. f_equal. f_equal; [|f_equal; [|f_equal]]; apply Z_byte_eq; subst v;
      Z.to_euclidean_division_equations; lia.
Qed.

(** base64: decoding an encoded string gives it back. *)
Lemma DecodeString_EncodeToString s : DecodeString (EncodeToString s) = Some s.
Proof.
  unfold DecodeString, EncodeToString. rewrite to_of_list.
  destruct (b64_roundtrip_list (to_list s)) as [H1 H2]. rewrite H2.
  destruct (mapM b64_val (b64_encode (to_list s))) as [vals|]; simpl in *; [|done].
  rewrite H1. by rewrite of_to_list.
Qed.

Lemma EncodeToString_nonempty s : s ≠ ""%string → EncodeToString s ≠ ""%string.
Proof.
  intros Hs E. pose proof (DecodeString_EncodeToString s) as H. rewrite E in H.
  vm_compute in H. congruence.
Qed.

(** ** Cut, prefixes and separators *)

Lemma ContainsRune_app a b r : ContainsRune (a +:+ b) r = ContainsRune a r || ContainsRune b r.
Proof. induction a as [|c a IH]; simpl; [done|]. by rewrite IH, orb_assoc. Qed.

Lemma Cut_app a b sep : ContainsRune a sep = false → Cut (a +:+ String.String sep b) sep = Some (a, b).
Proof.
  induction a as [|c a IH]; simpl.
  - intros _. by rewrite bool_decide_true.
  - intros [Hc Ha]%orb_false_iff. rewrite Hc, IH by done. done.
Qed.

Lemma ContainsRune_of_list l r : ContainsRune (of_list l) r = existsb (λ c, bool_decide (c = r)) l.
Proof. induction l as [|c l IH]; simpl; [done|]. by rewrite IH. Qed.

Lemma FormatInt_no_colon n : minInt64 ≤ n ≤ maxInt64 → ContainsRune (FormatInt n) ":"%char = false.
Proof.
  unfold minInt64, maxInt64. intros Hn.
  assert (∀ l, Forall (λ c, is_Some (digit_val c)) l → existsb (λ c, bool_decide (c = ":"%char)) l = false) as H.
  { induction 1 as [|c l Hc _ IH]; [done|]. simpl. rewrite IH, bool_decide_false; [done|].
    by apply digit_not_sign in Hc as (_ & _ & ?). }
  unfold FormatInt. destruct (Z.ltb_spec n 0); rewrite ContainsRune_of_list.
  - destruct (format_digits_spec 20 (- n) []) as (l & -> & _ & _ & Hall); [simpl; lia|done|].
    rewrite app_nil_r. simpl. by apply H.
  - destruct (format_digits_spec 20 n []) as (l & -> & _ & _ & Hall); [simpl; lia|done|].
    rewrite app_nil_r. by apply H.
Qed.

Lemma slice_to_app a b : slice_to (a +:+ b) (String.length a) = a.
Proof. unfold slice_to. induction a as [|c a IH]; simpl; [by destruct b|by rewrite IH]. Qed.

Lemma substring_full s : String.substring 0 (String.length s) s = s.
Proof. induction s as [|c s IH]; simpl; [done|by rewrite IH]. Qed.

Lemma slice_from_app a b : slice_from (a +:+ b) (String.length a) = b.
Proof.
  unfold slice_from. induction a as [|c a IH]; simpl.
  - rewrite Nat.sub_0_r. apply substring_full.
  - apply IH.
Qed.

Lemma slice_split s n : (n ≤ String.length s)%nat → slice_to s n +:+ slice_from s n = s.
Proof.
  unfold slice_to, slice_from. revert n. induction s as [|c s IH]; intros [|n] Hn; simpl in *; try done; try lia.
  - by rewrite substring_full.
  - change (String.String c (String.substring 0 n s +:+ String.substring n (String.length s - n) s)
            = String.String c s). f_equal. apply IH. lia.
Qed.

Lemma string_app_length a b : String.length (a +:+ b) = (String.length a + String.length b)%nat.
Proof. induction a as [|c a IH]; simpl; [done|by rewrite IH]. Qed.

Lemma len_nonneg s : 0 ≤ len s.
Proof. unfold len. lia. Qed.

#[export] Hint Resolve len_nonneg : nexo.
