(* ===== verification/Identity.v ===== *)
(** * User ids ([internal/identity/identity.go])

    A user id is [u___{int64}], [ag__{int64}] or [nx__{uuid}]. Only the canonical spelling
    is valid, so a user has one id; the separator of conversation ids never occurs in one. *)

From S2P Require Import Prelude Errcode Strconv.

Local Open Scope Z_scope.

Definition PrefixLength : nat := 4.
Definition PrefixUser : string := "u___".
Definition PrefixAgent : string := "ag__".
Definition PrefixNative : string := "nx__".

Definition RoleUser : string := "user".
Definition RoleAgent : string := "agent".

Record Actor := mkActor { Actor_Id : Z; Actor_Role : string }.

Definition Actor_UserId (a : Actor) : result string :=
  if (Actor_Role a =? RoleUser)%string then Ok (PrefixUser +:+ FormatInt (Actor_Id a))
  else if (Actor_Role a =? RoleAgent)%string then Ok (PrefixAgent +:+ FormatInt (Actor_Id a))
  else Err (EOther ("identity: unknown role " +:+ Actor_Role a)).

Definition invalidUserId (userId : string) : error := EWrap userId (ESentinel identity_ErrInvalidUserId).

Definition ParseActor (userId : string) : result Actor :=
  if (String.length userId <=? PrefixLength)%nat then Err (invalidUserId userId)
  else
    let role :=
      if (slice_to userId PrefixLength =? PrefixUser)%string then Some RoleUser
      else if (slice_to userId PrefixLength =? PrefixAgent)%string then Some RoleAgent
      else None in
    match role with
    | None => Err (invalidUserId userId)
    | Some role =>
        let digits := slice_from userId PrefixLength in
        match ParseInt digits with
        | None => Err (invalidUserId userId)
        | Some id =>
            if (id <=? 0) || negb (FormatInt id =? digits)%string then Err (invalidUserId userId)
            else Ok (mkActor id role)
        end
    end.

Definition NativeUserId (uuid : string) : string := PrefixNative +:+ uuid.

Definition IsNative (userId : string) : bool := HasPrefix userId PrefixNative.

Definition lower_hex (c : ascii) : bool :=
  let b := byte_Z c in ((48 <=? b) && (b <=? 57)) || ((97 <=? b) && (b <=? 102)).

(** [u, err := uuid.Parse(s); err == nil && u.String() == s]: [String] writes the 36-byte
    lower-case form, and [Parse] accepts it, so [s] is that form. *)
Definition uuid_canonical (s : string) : bool :=
  let l := to_list s in
  (length l =? 36)%nat &&
  forallb (λ '(i, c),
    if bool_decide (i ∈ [8; 13; 18; 23]%nat) then bool_decide (c = "-"%char) else lower_hex c)
    (combine (seq 0 36) l).

Definition Valid (userId : string) : bool :=
  if (String.length userId <=? PrefixLength)%nat || ContainsRune userId ":"%char then false
  else if (slice_to userId PrefixLength =? PrefixUser)%string
       || (slice_to userId PrefixLength =? PrefixAgent)%string then is_Ok (ParseActor userId)
  else if (slice_to userId PrefixLength =? PrefixNative)%string then
    uuid_canonical (slice_from userId PrefixLength)
  else false.

(** ** Lemmas *)

Lemma slice_prefix_app p s : String.length p = PrefixLength → slice_to (p +:+ s) PrefixLength = p ∧ slice_from (p +:+ s) PrefixLength = s.
Proof. intros <-. split; [apply slice_to_app|apply slice_from_app]. Qed.

Lemma FormatInt_nonempty n : minInt64 ≤ n ≤ maxInt64 → (0 < String.length (FormatInt n))%nat.
Proof.
  intros Hn. apply ParseInt_FormatInt in Hn. destruct (FormatInt n) as [|c s]; simpl; [|lia].
  vm_compute in Hn. done.
Qed.

(** Every prefixed decimal of a positive [int64] parses to its actor. *)
Lemma ParseActor_format p role n :
  (p, role) ∈ [(PrefixUser, RoleUser); (PrefixAgent, RoleAgent)] → 0 < n ≤ maxInt64 →
  ParseActor (p +:+ FormatInt n) = Ok (mkActor n role).
Proof.
  intros Hp Hn. assert (minInt64 ≤ n ≤ maxInt64) as Hr by (unfold minInt64, maxInt64 in *; lia).
  pose proof (FormatInt_nonempty n Hr) as Hne.
  assert (String.length p = PrefixLength) as Hl by (set_unfold in Hp; naive_solver).
  destruct (slice_prefix_app p (FormatInt n) Hl) as [E1 E2].
  unfold ParseActor. rewrite E1, E2, (ParseInt_FormatInt n Hr), String.eqb_refl.
  replace (String.length (p +:+ FormatInt n) <=? PrefixLength)%nat with false
    by (symmetry; apply Nat.leb_gt; rewrite string_app_length; unfold PrefixLength in *; lia).
  replace (n <=? 0) with false by (symmetry; lia).
  set_unfold in Hp. destruct Hp as [[= -> ->]|[[= -> ->]|[]]]; done.
Qed.

Lemma ParseActor_inv s a :
  ParseActor s = Ok a →
  0 < Actor_Id a ≤ maxInt64 ∧
  ((Actor_Role a = RoleUser ∧ s = PrefixUser +:+ FormatInt (Actor_Id a)) ∨
   (Actor_Role a = RoleAgent ∧ s = PrefixAgent +:+ FormatInt (Actor_Id a))).
Proof.
  unfold ParseActor. destruct (Nat.leb_spec (String.length s) PrefixLength) as [|Hl]; [done|].
  assert (s = slice_to s PrefixLength +:+ slice_from s PrefixLength) as Hs by (symmetry; apply slice_split; lia).
  set (p := slice_to s PrefixLength) in *. set (d := slice_from s PrefixLength) in *.
  destruct (p =? PrefixUser)%string eqn:Eu; [|destruct (p =? PrefixAgent)%string eqn:Ea; [|done]];
    bool_prop; rewrite ?Eu, ?Ea in Hs; (destruct (ParseInt d) as [id|] eqn:Ep; [|done]);
    apply ParseInt_range in Ep; (destruct (Z.leb_spec id 0); [done|]);
    (destruct (FormatInt id =? d)%string eqn:Ef; [|done]);
    bool_prop; simpl; intros [= <-]; simpl; (split; [lia|]); [left|right]; by rewrite Ef, <- Hs.
Qed.

Lemma ParseActor_of_UserId a s : 0 < Actor_Id a ≤ maxInt64 → Actor_UserId a = Ok s → ParseActor s = Ok a.
Proof.
  destruct a as [n r]. intros Hn. unfold Actor_UserId. simpl in *.
  destruct (r =? RoleUser)%string eqn:Eu; [|destruct (r =? RoleAgent)%string eqn:Ea; [|done]];
    bool_prop; subst r; intros [= <-]; apply ParseActor_format; set_solver.
Qed.

(** The actor parsed from a user id prints back to that id, and an actor with a
    positive id prints to an id that parses back: [ParseActor] and [Actor.UserId] are
    inverse bijections between canonical ids and actors. *)
Lemma ParseActor_UserId_roundtrip :
  (∀ s a, ParseActor s = Ok a → Actor_UserId a = Ok s) ∧
  (∀ a s, 0 < Actor_Id a ≤ maxInt64 → Actor_UserId a = Ok s → ParseActor s = Ok a).
Proof.
  split; [|apply ParseActor_of_UserId].
  intros s a H. apply ParseActor_inv in H as [_ [[Hr ->]|[Hr ->]]]; unfold Actor_UserId; by rewrite Hr.
Qed.

Lemma Valid_no_colon s : Valid s = true → ContainsRune s ":"%char = false.
Proof. unfold Valid. by destruct (ContainsRune s ":"%char); rewrite ?orb_true_r. Qed.

Lemma Valid_nonempty s : Valid s = true → s ≠ ""%string.
Proof. by intros H ->. Qed.

Lemma Valid_ParseActor s a : ParseActor s = Ok a → Valid s = true.
Proof.
  intros H. pose proof H as H'. apply ParseActor_inv in H' as [Hn Hs].
  assert (minInt64 ≤ Actor_Id a ≤ maxInt64) as Hr by (unfold minInt64, maxInt64 in *; lia).
  pose proof (FormatInt_no_colon _ Hr) as Hc. pose proof (FormatInt_nonempty _ Hr) as Hne.
  assert (ContainsRune s ":"%char = false) as Hcs.
  { destruct Hs as [[_ ->]|[_ ->]]; rewrite ContainsRune_app, Hc; done. }
  unfold Valid. rewrite Hcs, H. unfold ParseActor in H.
  destruct (String.length s <=? PrefixLength)%nat; [done|]. simpl.
  destruct (slice_to s PrefixLength =? PrefixUser)%string; [done|].
  by destruct (slice_to s PrefixLength =? PrefixAgent)%string.
Qed.

#[export] Hint Resolve Valid_no_colon Valid_nonempty : nexo.
