(* ===== verification/Json.v ===== *)
(** * JSON text ([encoding/json/v2] and [encoding/json/jsontext], as the code uses them)

    [quote] and the object writers give the bytes [json.Marshal] produces for the payload
    structs: members in field order, no white space, strings escaped minimally, invalid UTF-8 an
    error. [IsValid] is [jsontext.Value.IsValid] with default options: one JSON value surrounded by
    white space, well-formed UTF-8, no unpaired surrogate escape, no duplicate member name, at
    most 10000 levels deep. *)

From S2P Require Import Prelude Strconv.

Local Open Scope Z_scope.

Abbreviation bytes := (list Z).

Definition string_bytes (s : string) : bytes := map byte_Z (to_list s).

Definition bytes_string (l : bytes) : string := of_list (map Z_byte l).

(** ** UTF-8 *)

Definition cont (b : Z) : bool := (128 <=? b) && (b <=? 191).

(** The length of the well-formed encoding at the head of [l], 0 if there is none. *)
Definition rune_len (l : bytes) : nat :=
  match l with
  | [] => 0%nat
  | b0 :: r =>
      if b0 <=? 127 then 1%nat
      else match r with
      | [] => 0%nat
      | b1 :: r1 =>
          if (194 <=? b0) && (b0 <=? 223) then if cont b1 then 2%nat else 0%nat
          else match r1 with
          | [] => 0%nat
          | b2 :: r2 =>
              if (224 <=? b0) && (b0 <=? 239) then
                let lo := if b0 =? 224 then 160 else 128 in
                let hi := if b0 =? 237 then 159 else 191 in
                if (lo <=? b1) && (b1 <=? hi) && cont b2 then 3%nat else 0%nat
              else match r2 with
              | [] => 0%nat
              | b3 :: _ =>
                  if (240 <=? b0) && (b0 <=? 244) then
                    let lo := if b0 =? 240 then 144 else 128 in
                    let hi := if b0 =? 244 then 143 else 191 in
                    if (lo <=? b1) && (b1 <=? hi) && cont b2 && cont b3 then 4%nat else 0%nat
                  else 0%nat
              end
          end
      end
  end.

Fixpoint utf8_fuel (fuel : nat) (l : bytes) : bool :=
  match l, fuel with
  | [], _ => true
  | _, O => false
  | _, S f => match rune_len l with O => false | n => utf8_fuel f (drop n l) end
  end.

Definition ValidUtf8 (s : string) : bool := let l := string_bytes s in utf8_fuel (length l) l.

(** ** Writing *)

Definition hexdigit (d : Z) : ascii := if d <? 10 then Z_byte (48 + d) else Z_byte (87 + d).

Definition escape (c : ascii) : list ascii :=
  let b := byte_Z c in
  if b =? 34 then ["\"; "034"]%char
  else if b =? 92 then ["\"; "\"]%char
  else if b =? 8 then ["\"; "b"]%char
  else if b =? 12 then ["\"; "f"]%char
  else if b =? 10 then ["\"; "n"]%char
  else if b =? 13 then ["\"; "r"]%char
  else if b =? 9 then ["\"; "t"]%char
  else if b <? 32 then ["\"%char; "u"%char; "0"%char; "0"%char; hexdigit (b / 16); hexdigit (b mod 16)]
  else [c].

Definition dquote : ascii := "034"%char.

(** The quoted string; [None] when it is not well-formed UTF-8. *)
Definition quote (s : string) : option string :=
  if ValidUtf8 s then Some (of_list (dquote :: flat_map escape (to_list s) ++ [dquote])) else None.

Definition write_bool (b : bool) : string := if b then "true" else "false".

(** An object from its members; a member is its name and its written value. *)
Definition write_member (m : string * string) : string :=
  of_list (dquote :: to_list m.1 ++ [dquote]) +:+ ":" +:+ m.2.

Fixpoint write_members (ms : list (string * string)) : string :=
  match ms with
  | [] => ""
  | [m] => write_member m
  | m :: ms' => write_member m +:+ "," +:+ write_members ms'
  end.

Definition write_object (ms : list (string * string)) : string := "{" +:+ write_members ms +:+ "}".

(** One field of a struct: [None] is a failed encoding, [Some []] an omitted member. *)
Definition field_string (name v : string) : option (list (string * string)) :=
  match quote v with Some q => Some [(name, q)] | None => None end.

(** [omitempty] drops the empty string. *)
Definition field_string_omitempty (name v : string) : option (list (string * string)) :=
  if (v =? "")%string then Some [] else field_string name v.

Definition field_int (name : string) (v : Z) : option (list (string * string)) := Some [(name, FormatInt v)].

Definition fields (fs : list (option (list (string * string)))) : option string :=
  match mapM id fs with Some l => Some (write_object (concat l)) | None => None end.

(** ** Validation *)

Definition skip_ws : bytes → bytes := fix go l :=
  match l with
  | b :: l' => if (b =? 32) || (b =? 9) || (b =? 10) || (b =? 13) then go l' else l
  | [] => []
  end.

Definition hex_val (b : Z) : option Z :=
  if (48 <=? b) && (b <=? 57) then Some (b - 48)
  else if (97 <=? b) && (b <=? 102) then Some (b - 87)
  else if (65 <=? b) && (b <=? 70) then Some (b - 55)
  else None.

Definition hex4 (l : bytes) : option (Z * bytes) :=
  match l with
  | a :: b :: c :: d :: r =>
      match hex_val a, hex_val b, hex_val c, hex_val d with
      | Some a, Some b, Some c, Some d => Some (a * 4096 + b * 256 + c * 16 + d, r)
      | _, _, _, _ => None
      end
  | _ => None
  end.

(** The UTF-8 bytes of a code point. *)
Definition utf8_encode (r : Z) : bytes :=
  if r <=? 127 then [r]
  else if r <=? 2047 then [192 + r / 64; 128 + r mod 64]
  else if r <=? 65535 then [224 + r / 4096; 128 + r / 64 mod 64; 128 + r mod 64]
  else [240 + r / 262144; 128 + r / 4096 mod 64; 128 + r / 64 mod 64; 128 + r mod 64].

(** The escape after a backslash: the bytes it stands for and the rest. *)
Definition read_escape (l : bytes) : option (bytes * bytes) :=
  match l with
  | b :: r =>
      if (b =? 34) || (b =? 92) || (b =? 47) then Some ([b], r)
      else if b =? 98 then Some ([8], r)
      else if b =? 102 then Some ([12], r)
      else if b =? 110 then Some ([10], r)
      else if b =? 114 then Some ([13], r)
      else if b =? 116 then Some ([9], r)
      else if b =? 117 then
        match hex4 r with
        | None => None
        | Some (v, r1) =>
            if (55296 <=? v) && (v <=? 56319) then
              match r1 with
              | b1 :: b2 :: r2 =>
                  if (b1 =? 92) && (b2 =? 117) then
                    match hex4 r2 with
                    | Some (v2, r3) =>
                        if (56320 <=? v2) && (v2 <=? 57343)
                        then Some (utf8_encode (65536 + (v - 55296) * 1024 + (v2 - 56320)), r3) else None
                    | None => None
                    end
                  else None
              | _ => None
              end
            else if (56320 <=? v) && (v <=? 57343) then None
            else Some (utf8_encode v, r1)
        end
      else None
  | [] => None
  end.

(** The contents of a string after its opening quote, unescaped, and the rest. *)
Fixpoint read_string (fuel : nat) (l : bytes) (acc : bytes) : option (bytes * bytes) :=
  match fuel with
  | O => None
  | S f =>
      match l with
      | [] => None
      | b :: r =>
          if b =? 34 then Some (reverse acc, r)
          else if b =? 92 then
            match read_escape r with
            | Some (bs, r') => read_string f r' (reverse bs ++ acc)
            | None => None
            end
          else if b <? 32 then None
          else match rune_len l with
               | O => None
               | n => read_string f (drop n l) (reverse (take n l) ++ acc)
               end
      end
  end.

Definition is_digit (b : Z) : bool := (48 <=? b) && (b <=? 57).

Definition skip_digits : bytes → bytes := fix go l :=
  match l with b :: l' => if is_digit b then go l' else l | [] => [] end.

(** At least one digit. *)
Definition read_digits (l : bytes) : option bytes :=
  match l with b :: l' => if is_digit b then Some (skip_digits l') else None | [] => None end.

Definition read_exponent (l : bytes) : option bytes :=
  match l with
  | b :: r =>
      if (b =? 101) || (b =? 69) then
        match r with
        | s :: r' => if (s =? 43) || (s =? 45) then read_digits r' else read_digits r
        | [] => None
        end
      else Some l
  | [] => Some []
  end.

Definition read_fraction (l : bytes) : option bytes :=
  match l with
  | b :: r => if b =? 46 then match read_digits r with Some r' => read_exponent r' | None => None end else read_exponent l
  | [] => Some []
  end.

Definition read_number (l : bytes) : option bytes :=
  let l1 := match l with b :: r => if b =? 45 then r else l | [] => [] end in
  match l1 with
  | b :: r => if b =? 48 then read_fraction r else if is_digit b then read_fraction (skip_digits r) else None
  | [] => None
  end.

Definition read_literal (lit l : bytes) : option bytes :=
  if bool_decide (take (length lit) l = lit) then Some (drop (length lit) l) else None.

Definition maxNestingDepth : Z := 10000.

(** [read_value] reads one value; [read_elems] the elements of an array after the first position,
    [read_mems] the members of an object, [names] being those already seen. *)
Fixpoint read_value (fuel : nat) (depth : Z) (l : bytes) : option bytes :=
  match fuel with
  | O => None
  | S f =>
      match l with
      | [] => None
      | b :: r =>
          if b =? 34 then match read_string (S (length r)) r [] with Some (_, r') => Some r' | None => None end
          else if b =? 123 then
            if maxNestingDepth <=? depth then None
            else match skip_ws r with
                 | c :: r' => if c =? 125 then Some r' else read_mems f (depth + 1) [] (c :: r')
                 | [] => None
                 end
          else if b =? 91 then
            if maxNestingDepth <=? depth then None
            else match skip_ws r with
                 | c :: r' => if c =? 93 then Some r' else read_elems f (depth + 1) (c :: r')
                 | [] => None
                 end
          else if b =? 116 then read_literal [116; 114; 117; 101] l
          else if b =? 102 then read_literal [102; 97; 108; 115; 101] l
          else if b =? 110 then read_literal [110; 117; 108; 108] l
          else read_number l
      end
  end
with read_elems (fuel : nat) (depth : Z) (l : bytes) : option bytes :=
  match fuel with
  | O => None
  | S f =>
      match read_value f depth (skip_ws l) with
      | None => None
      | Some r =>
          match skip_ws r with
          | c :: r' => if c =? 93 then Some r' else if c =? 44 then read_elems f depth r' else None
          | [] => None
          end
      end
  end
with read_mems (fuel : nat) (depth : Z) (names : list bytes) (l : bytes) : option bytes :=
  match fuel with
  | O => None
  | S f =>
      match skip_ws l with
      | b :: r =>
          if b =? 34 then
            match read_string (S (length r)) r [] with
            | None => None
            | Some (name, r1) =>
                if bool_decide (name ∈ names) then None
                else match skip_ws r1 with
                     | c :: r2 =>
                         if c =? 58 then
                           match read_value f depth (skip_ws r2) with
                           | None => None
                           | Some r3 =>
                               match skip_ws r3 with
                               | e :: r4 =>
                                   if e =? 125 then Some r4
                                   else if e =? 44 then read_mems f depth (name :: names) r4 else None
                               | [] => None
                               end
                           end
                         else None
                     | [] => None
                     end
            end
          else None
      | [] => None
      end
  end.

(** Each call of [read_value], [read_elems] and [read_mems] consumes at least one byte or hands over
    to one that does, so twice the length of the text is enough fuel. *)
Definition IsValid (s : string) : bool :=
  let l := string_bytes s in
  match read_value (S (2 * length l)) 0 (skip_ws l) with
  | Some r => match skip_ws r with [] => true | _ => false end
  | None => false
  end.

Example IsValid_accepts :
  map IsValid ["{}"; " [1, -0.5e+3, true, null] "; of_list ["{"; dquote; "a"; dquote; ":"; "[";"]"; "}"]%char]%string
  = [true; true; true].
Proof. vm_compute. reflexivity. Qed.

Example IsValid_rejects :
  map IsValid [""; "01"; "[1,]"; "nul"; "{} x"; of_list [dquote; "255"%char; dquote];
    of_list ["{"; dquote; "a"; dquote; ":"; "1"; ","; dquote; "a"; dquote; ":"; "2"; "}"]%char]%string
  = [false; false; false; false; false; false; false].
Proof. vm_compute. reflexivity. Qed.
