(* ===== verification/Store.v ===== *)
(** * The storage model ([internal/store/store.go], [internal/store/pgstore/gen/models.go])

    The rows of the tables as records, the tables as finite maps on their primary keys (the
    [messages] table as the list of its rows in insertion order), and the database [Db] that
    holds them. Timestamps are nanoseconds since the epoch, integers keep Go's width. *)

From S2P Require Import Prelude Errcode Strconv.

Local Open Scope Z_scope.

Definition MaxExtraBytes : Z := 65535.

(** [NowMs]: [time.Now().Truncate(time.Millisecond)]. *)
Definition NowMs (now : Z) : Z := now - now mod Millisecond.

Definition GroupStatusNormal : Z := 0.
Definition GroupStatusDismissed : Z := 1.
Definition RoleMember : Z := 1.
Definition RoleAdmin : Z := 2.
Definition RoleOwner : Z := 3.
Definition ConversationSingle : Z := 1.
Definition ConversationGroup : Z := 2.

Record User := mkUser {
  User_Id : string; User_Username : string; User_PasswordHash : string; User_Nickname : string;
  User_Avatar : string; User_Extra : string; User_CreatedAt : Z; User_UpdatedAt : Z }.

Record Group := mkGroup {
  Group_Id : string; Group_Name : string; Group_Avatar : string; Group_Introduction : string;
  Group_OwnerId : string; Group_Status : Z; Group_Extra : string; Group_CreatedAt : Z; Group_UpdatedAt : Z }.

Record GroupMember := mkGroupMember {
  GM_GroupId : string; GM_UserId : string; GM_Role : Z; GM_Nickname : string;
  GM_InviterUserId : string; GM_JoinedAt : Z }.

Record Conversation := mkConversation {
  Conv_ConversationId : string; Conv_Type : Z; Conv_GroupId : string; Conv_MaxSeq : Z;
  Conv_CreatedAt : Z; Conv_UpdatedAt : Z }.

(** [UC_MaxSeq = 0] means no upper bound. *)
Record UserConversation := mkUC {
  UC_OwnerId : string; UC_ConversationId : string; UC_Type : Z; UC_PeerUserId : string;
  UC_GroupId : string; UC_MinSeq : Z; UC_MaxSeq : Z; UC_ReadSeq : Z; UC_RecvMsgOpt : Z;
  UC_IsPinned : bool; UC_Extra : string; UC_UpdatedAt : Z; UC_CreatedAt : Z }.

Record OnlineConn := mkOnlineConn {
  OC_ConnId : string; OC_UserId : string; OC_PlatformId : Z; OC_NodeId : string; OC_HeartbeatAt : Z }.

Record Message := mkMessage {
  Msg_ConversationId : string; Msg_Seq : Z; Msg_ServerMsgId : string; Msg_ClientMsgId : string;
  Msg_SenderId : string; Msg_RecvId : string; Msg_GroupId : string; Msg_SessionType : Z;
  Msg_ContentType : Z; Msg_Content : string; Msg_SendTime : Z; Msg_CreatedAt : Z }.

Record MessageKey := mkMessageKey { MK_ConversationId : string; MK_Seq : Z }.

Record UserConversationRow := mkUCRow { Row_UC : UserConversation; Row_ConvMaxSeq : Z }.

Record ListCursor := mkListCursor { LC_UpdatedAt : Z; LC_ConversationId : string }.

(** [time.Date(9999, 1, 1, 0, 0, 0, 0, time.UTC)]. *)
Definition FirstPage : ListCursor := mkListCursor (253370764800 * Second) "".

#[export] Instance MessageKey_eq_dec : EqDecision MessageKey.
Proof. solve_decision. Defined.

#[export] Instance GroupMember_eq_dec : EqDecision GroupMember.
Proof. solve_decision. Defined.

#[export] Instance Message_eq_dec : EqDecision Message.
Proof. solve_decision. Defined.

Abbreviation key := (string * string)%type.

Record Db := mkDb {
  users : gmap string User;
  groups : gmap string Group;
  members : gmap key GroupMember;
  convs : gmap string Conversation;
  userConvs : gmap key UserConversation;
  messages : list Message;
  online : gmap string OnlineConn }.

Definition emptyDb : Db := mkDb ∅ ∅ ∅ ∅ ∅ [] ∅.

Definition with_users (d : Db) x := mkDb x (groups d) (members d) (convs d) (userConvs d) (messages d) (online d).
Definition with_groups (d : Db) x := mkDb (users d) x (members d) (convs d) (userConvs d) (messages d) (online d).
Definition with_members (d : Db) x := mkDb (users d) (groups d) x (convs d) (userConvs d) (messages d) (online d).
Definition with_convs (d : Db) x := mkDb (users d) (groups d) (members d) x (userConvs d) (messages d) (online d).
Definition with_userConvs (d : Db) x := mkDb (users d) (groups d) (members d) (convs d) x (messages d) (online d).
Definition with_messages (d : Db) x := mkDb (users d) (groups d) (members d) (convs d) (userConvs d) x (online d).
Definition with_online (d : Db) x := mkDb (users d) (groups d) (members d) (convs d) (userConvs d) (messages d) x.

(** Updates of one row. *)
Definition UC_set_seqs (uc : UserConversation) (minSeq maxSeq readSeq updatedAt : Z) : UserConversation :=
  mkUC (UC_OwnerId uc) (UC_ConversationId uc) (UC_Type uc) (UC_PeerUserId uc) (UC_GroupId uc) minSeq maxSeq readSeq
    (UC_RecvMsgOpt uc) (UC_IsPinned uc) (UC_Extra uc) updatedAt (UC_CreatedAt uc).

Definition UC_set_MaxSeq (uc : UserConversation) (maxSeq : Z) : UserConversation :=
  UC_set_seqs uc (UC_MinSeq uc) maxSeq (UC_ReadSeq uc) (UC_UpdatedAt uc).

Definition UC_set_ReadSeq (uc : UserConversation) (readSeq : Z) : UserConversation :=
  UC_set_seqs uc (UC_MinSeq uc) (UC_MaxSeq uc) readSeq (UC_UpdatedAt uc).

Definition UC_set_UpdatedAt (uc : UserConversation) (updatedAt : Z) : UserConversation :=
  UC_set_seqs uc (UC_MinSeq uc) (UC_MaxSeq uc) (UC_ReadSeq uc) updatedAt.

Definition UC_set_opt (uc : UserConversation) (recvMsgOpt : Z) (isPinned : bool) : UserConversation :=
  mkUC (UC_OwnerId uc) (UC_ConversationId uc) (UC_Type uc) (UC_PeerUserId uc) (UC_GroupId uc) (UC_MinSeq uc)
    (UC_MaxSeq uc) (UC_ReadSeq uc) recvMsgOpt isPinned (UC_Extra uc) (UC_UpdatedAt uc) (UC_CreatedAt uc).

Definition UC_set_CreatedAt (uc : UserConversation) (createdAt : Z) : UserConversation :=
  mkUC (UC_OwnerId uc) (UC_ConversationId uc) (UC_Type uc) (UC_PeerUserId uc) (UC_GroupId uc) (UC_MinSeq uc)
    (UC_MaxSeq uc) (UC_ReadSeq uc) (UC_RecvMsgOpt uc) (UC_IsPinned uc) (UC_Extra uc) (UC_UpdatedAt uc) createdAt.

(** A store operation reads and updates the database. *)
Definition Op (A : Type) : Type := Db → result A * Db.

(** The rows of a table in no particular order. *)
Definition rows {K A} `{Countable K} (m : gmap K A) : list A := (map_to_list m).*2.

Lemma elem_of_rows {K A} `{Countable K} (m : gmap K A) x : x ∈ rows m ↔ ∃ k, m !! k = Some x.
Proof.
  unfold rows. rewrite list_elem_of_fmap. split.
  - intros ([k y] & -> & Hk%elem_of_map_to_list). by exists k.
  - intros [k Hk]. exists (k, x). by rewrite elem_of_map_to_list.
Qed.

Lemma NowMs_UnixMilli t : UnixMilli_of (UnixMilli (NowMs t)) = NowMs t.
Proof.
  unfold UnixMilli_of, UnixMilli, NowMs, Millisecond.
  pose proof (Z.div_mod t 1000000). replace (t - t mod 1000000) with (t / 1000000 * 1000000) by lia.
  rewrite Z.div_mul; lia.
Qed.
