(* ===== verification/PgStore.v ===== *)
(** * The PostgreSQL store ([internal/store/pgstore])

    [Module Gen] gives the meaning of each SQL statement of [pgstore/gen] on the tables;
    the rest of the file is the [Store] methods of [pgstore], which call them and map driver
    errors with [wrap]. A unique-key violation is SQLSTATE 23505, an empty [:one] query is
    [pgx.ErrNoRows], a negative [LIMIT] is SQLSTATE 2201W; [RowLimit] is [int32(limit)]. Text is
    compared bytewise. Rows come back in [ORDER BY] order, otherwise in no particular order. *)

From S2P Require Import Prelude Errcode Strconv Store.

Local Open Scope Z_scope.

Inductive qerr : Set := ErrNoRows | PgError (code : string).

Definition qres (A : Type) : Type := A + qerr.

Definition wrap_err (e : qerr) : error :=
  match e with
  | ErrNoRows => ESentinel store_ErrNotFound
  | PgError code => if (code =? "23505")%string then ESentinel store_ErrDuplicate else EOther ("SQLSTATE " +:+ code)
  end.

Definition wrapq {A} (r : qres A) : result A :=
  match r with inl a => Ok a | inr e => Err (wrap_err e) end.

Definition one {A} (o : option A) : qres A := match o with Some a => inl a | None => inr ErrNoRows end.

Definition UniqueViolation : qerr := PgError "23505".

(** [GREATEST] and [COALESCE]. *)
Definition GREATEST (a b : Z) : Z := Z.max a b.

Definition COALESCE {A} (p : option A) (cur : A) : A := default cur p.

Definition LIMIT {A} (n : Z) (l : list A) : qres (list A) :=
  if n <? 0 then inr (PgError "2201W") else inl (take (Z.to_nat n) l).

(** ORDER BY keys. *)
Definition member_leb (a b : GroupMember) : bool :=
  (GM_JoinedAt a <? GM_JoinedAt b) || ((GM_JoinedAt a =? GM_JoinedAt b) && String.leb (GM_UserId a) (GM_UserId b)).

Definition seq_leb (a b : Message) : bool := Msg_Seq a <=? Msg_Seq b.

(** [(updated_at, conversation_id) < (u, c)], the row comparison of the page cursor. *)
Definition cursor_ltb (u1 : Z) (c1 : string) (u2 : Z) (c2 : string) : bool :=
  (u1 <? u2) || ((u1 =? u2) && String.ltb c1 c2).

(** ORDER BY updated_at DESC, conversation_id DESC. *)
Definition row_leb (a b : UserConversationRow) : bool :=
  let x := Row_UC a in let y := Row_UC b in
  (UC_UpdatedAt y <? UC_UpdatedAt x)
  || ((UC_UpdatedAt y =? UC_UpdatedAt x) && String.leb (UC_ConversationId y) (UC_ConversationId x)).

Definition sortBy {A} (leb : A → A → bool) (l : list A) : list A := merge_sort (λ x y, Is_true (leb x y)) l.

Definition keep {A} (f : A → bool) (l : list A) : list A := List.filter f l.

Definition in_list (x : string) (l : list string) : bool := bool_decide (x ∈ l).

Module Gen.

Definition GetUser (id : string) (d : Db) : qres User := one (users d !! id).

Definition GetUsers (ids : list string) (d : Db) : qres (list User) :=
  inl (keep (λ u, in_list (User_Id u) ids) (rows (users d))).

Definition GetUserByUsername (username : string) (d : Db) : qres User :=
  one (head (keep (λ u, (User_Username u =? username)%string) (rows (users d)))).

Definition CreateUser (u : User) (d : Db) : qres unit * Db :=
  match users d !! User_Id u with
  | Some _ => (inr UniqueViolation, d)
  | None => (inl tt, with_users d (<[User_Id u := u]> (users d)))
  end.

Definition UpdateUserProfile (id : string) (nickname avatar extra : option string) (updatedAt : Z) (d : Db) : qres Z * Db :=
  match users d !! id with
  | None => (inl 0, d)
  | Some u =>
      let u' := mkUser (User_Id u) (User_Username u) (User_PasswordHash u) (COALESCE nickname (User_Nickname u))
                  (COALESCE avatar (User_Avatar u)) (COALESCE extra (User_Extra u)) (User_CreatedAt u) updatedAt in
      (inl 1, with_users d (<[id := u']> (users d)))
  end.

Definition UpsertUser (id nickname avatar extra : string) (createdAt : Z) (d : Db) : qres unit * Db :=
  let u' :=
    match users d !! id with
    | None => mkUser id "" "" nickname avatar extra createdAt createdAt
    | Some u => mkUser (User_Id u) (User_Username u) (User_PasswordHash u) nickname avatar extra (User_CreatedAt u) createdAt
    end in
  (inl tt, with_users d (<[id := u']> (users d))).

Definition CreateGroup (g : Group) (d : Db) : qres unit * Db :=
  match groups d !! Group_Id g with
  | Some _ => (inr UniqueViolation, d)
  | None => (inl tt, with_groups d (<[Group_Id g := g]> (groups d)))
  end.

Definition AddGroupMember (m : GroupMember) (d : Db) : qres unit * Db :=
  match members d !! (GM_GroupId m, GM_UserId m) with
  | Some _ => (inr UniqueViolation, d)
  | None => (inl tt, with_members d (<[(GM_GroupId m, GM_UserId m) := m]> (members d)))
  end.

(** COPY: all rows or none. *)
Fixpoint copy_members (ms : list GroupMember) (t : gmap key GroupMember) : option (gmap key GroupMember) :=
  match ms with
  | [] => Some t
  | m :: ms' =>
      match t !! (GM_GroupId m, GM_UserId m) with
      | Some _ => None
      | None => copy_members ms' (<[(GM_GroupId m, GM_UserId m) := m]> t)
      end
  end.

Definition AddGroupMembers (ms : list GroupMember) (d : Db) : qres Z * Db :=
  match copy_members ms (members d) with
  | None => (inr UniqueViolation, d)
  | Some t => (inl (Z.of_nat (length ms)), with_members d t)
  end.

Definition GetGroup (id : string) (d : Db) : qres Group := one (groups d !! id).

Definition RemoveGroupMember (groupId userId : string) (d : Db) : qres Z * Db :=
  match members d !! (groupId, userId) with
  | None => (inl 0, d)
  | Some _ => (inl 1, with_members d (delete (groupId, userId) (members d)))
  end.

Definition GetGroupMember (groupId userId : string) (d : Db) : qres GroupMember := one (members d !! (groupId, userId)).

Definition ListGroupMembers (groupId : string) (d : Db) : qres (list GroupMember) :=
  inl (sortBy member_leb (keep (λ m, (GM_GroupId m =? groupId)%string) (rows (members d)))).

Definition CountGroupMembers (groupId : string) (d : Db) : qres Z :=
  inl (Z.of_nat (length (keep (λ m, (GM_GroupId m =? groupId)%string) (rows (members d))))).

Definition ListUserGroupIds (userId : string) (d : Db) : qres (list string) :=
  inl (map GM_GroupId (sortBy (λ a b, GM_JoinedAt a <=? GM_JoinedAt b)
    (keep (λ m, (GM_UserId m =? userId)%string) (rows (members d))))).

Definition InsertConversationIfMissing (id : string) (typ : Z) (groupId : string) (createdAt : Z) (d : Db) : qres unit * Db :=
  match convs d !! id with
  | Some _ => (inl tt, d)
  | None => (inl tt, with_convs d (<[id := mkConversation id typ groupId 0 createdAt createdAt]> (convs d)))
  end.

(** SELECT ... FOR UPDATE. *)
Definition LockConversation (id : string) (d : Db) : qres Conversation := one (convs d !! id).

Definition GetConversation (id : string) (d : Db) : qres Conversation := one (convs d !! id).

Definition GetUserConversation (ownerId conversationId : string) (d : Db) : qres UserConversation :=
  one (userConvs d !! (ownerId, conversationId)).

Definition GetUserConversationRow (ownerId conversationId : string) (d : Db) : qres UserConversationRow :=
  match userConvs d !! (ownerId, conversationId), convs d !! conversationId with
  | Some uc, Some c => inl (mkUCRow uc (Conv_MaxSeq c))
  | _, _ => inr ErrNoRows
  end.

Definition UpsertUserConversation (uc : UserConversation) (d : Db) : qres unit * Db :=
  let k := (UC_OwnerId uc, UC_ConversationId uc) in
  let row :=
    match userConvs d !! k with
    | None => UC_set_CreatedAt uc (UC_UpdatedAt uc)
    | Some cur => UC_set_seqs cur (UC_MinSeq uc) (UC_MaxSeq uc) (UC_ReadSeq uc) (UC_UpdatedAt uc)
    end in
  (inl tt, with_userConvs d (<[k := row]> (userConvs d))).

Fixpoint copy_userConvs (ucs : list UserConversation) (t : gmap key UserConversation) : option (gmap key UserConversation) :=
  match ucs with
  | [] => Some t
  | uc :: ucs' =>
      match t !! (UC_OwnerId uc, UC_ConversationId uc) with
      | Some _ => None
      | None => copy_userConvs ucs' (<[(UC_OwnerId uc, UC_ConversationId uc) := uc]> t)
      end
  end.

Definition CreateUserConversations (ucs : list UserConversation) (d : Db) : qres Z * Db :=
  match copy_userConvs ucs (userConvs d) with
  | None => (inr UniqueViolation, d)
  | Some t => (inl (Z.of_nat (length ucs)), with_userConvs d t)
  end.

Definition SetUserConversationMaxSeq (ownerId conversationId : string) (maxSeq : Z) (d : Db) : qres unit * Db :=
  (inl tt, with_userConvs d (alter (λ uc, UC_set_MaxSeq uc maxSeq) (ownerId, conversationId) (userConvs d))).

Definition DeleteUserConversation (ownerId conversationId : string) (d : Db) : qres unit * Db :=
  (inl tt, with_userConvs d (delete (ownerId, conversationId) (userConvs d))).

Definition SetUserConversationOpt (ownerId conversationId : string) (recvMsgOpt : option Z) (isPinned : option bool) (d : Db) : qres Z * Db :=
  match userConvs d !! (ownerId, conversationId) with
  | None => (inl 0, d)
  | Some uc =>
      (inl 1, with_userConvs d (<[(ownerId, conversationId) :=
         UC_set_opt uc (COALESCE recvMsgOpt (UC_RecvMsgOpt uc)) (COALESCE isPinned (UC_IsPinned uc))]> (userConvs d)))
  end.

Definition VisibleOwners (conversationId : string) (ownerIds : list string) (seq : Z) (d : Db) : qres (list string) :=
  inl (map UC_OwnerId (keep (λ uc,
    (UC_ConversationId uc =? conversationId)%string && in_list (UC_OwnerId uc) ownerIds
    && (UC_MinSeq uc <=? seq) && ((UC_MaxSeq uc =? 0) || (seq <=? UC_MaxSeq uc))) (rows (userConvs d)))).

Definition MutedOwners (conversationId : string) (ownerIds : list string) (d : Db) : qres (list string) :=
  inl (map UC_OwnerId (keep (λ uc,
    (UC_ConversationId uc =? conversationId)%string && in_list (UC_OwnerId uc) ownerIds
    && negb (UC_RecvMsgOpt uc =? 0)) (rows (userConvs d)))).

Definition GetMessageByClientId (conversationId senderId clientMsgId : string) (d : Db) : qres Message :=
  one (head (keep (λ m, (Msg_ConversationId m =? conversationId)%string && (Msg_SenderId m =? senderId)%string
                        && (Msg_ClientMsgId m =? clientMsgId)%string) (messages d))).

(** The row [m] collides with [cur] on one of the three unique keys of [messages]. *)
Definition conflicts (m cur : Message) : bool :=
  (Msg_ServerMsgId cur =? Msg_ServerMsgId m)%string
  || ((Msg_ConversationId cur =? Msg_ConversationId m)%string &&
      ((Msg_Seq cur =? Msg_Seq m)
       || ((Msg_SenderId cur =? Msg_SenderId m)%string && (Msg_ClientMsgId cur =? Msg_ClientMsgId m)%string))).

(** ON CONFLICT DO NOTHING; the count of inserted rows. *)
Definition InsertMessage (m : Message) (d : Db) : qres Z * Db :=
  if existsb (conflicts m) (messages d) then (inl 0, d) else (inl 1, with_messages d (messages d ++ [m])).

Definition SetConversationMaxSeq (id : string) (maxSeq updatedAt : Z) (d : Db) : qres unit * Db :=
  (inl tt, with_convs d (alter (λ c, mkConversation (Conv_ConversationId c) (Conv_Type c) (Conv_GroupId c) maxSeq
                                        (Conv_CreatedAt c) updatedAt) id (convs d))).

Definition ListMessages (conversationId : string) (beginSeq endSeq rowLimit : Z) (d : Db) : qres (list Message) :=
  LIMIT rowLimit (sortBy seq_leb (keep (λ m,
    (Msg_ConversationId m =? conversationId)%string && (beginSeq <=? Msg_Seq m) && (Msg_Seq m <=? endSeq)) (messages d))).

(** JOIN with the unnested keys: one row per matching pair. *)
Definition GetMessages (keys : list (string * Z)) (d : Db) : qres (list Message) :=
  inl (flat_map (λ m, map (λ _, m) (keep (λ '(c, s), (c =? Msg_ConversationId m)%string && (s =? Msg_Seq m)) keys)) (messages d)).

Definition TouchUserConversation (uc : UserConversation) (readSeq : Z) (d : Db) : qres unit * Db :=
  let k := (UC_OwnerId uc, UC_ConversationId uc) in
  let row :=
    match userConvs d !! k with
    | None => mkUC (UC_OwnerId uc) (UC_ConversationId uc) (UC_Type uc) (UC_PeerUserId uc) (UC_GroupId uc)
                1 0 readSeq 0 false "" (UC_UpdatedAt uc) (UC_UpdatedAt uc)
    | Some cur => UC_set_seqs cur (UC_MinSeq cur) (UC_MaxSeq cur) (GREATEST (UC_ReadSeq cur) readSeq)
                    (GREATEST (UC_UpdatedAt cur) (UC_UpdatedAt uc))
    end in
  (inl tt, with_userConvs d (<[k := row]> (userConvs d))).

Definition TouchConversationMembers (conversationId : string) (updatedAt : Z) (d : Db) : qres unit * Db :=
  (inl tt, with_userConvs d ((λ uc : UserConversation,
     if (UC_ConversationId uc =? conversationId)%string && (UC_MaxSeq uc =? 0)
     then UC_set_UpdatedAt uc (GREATEST (UC_UpdatedAt uc) updatedAt) else uc) <$> userConvs d)).

Definition AdvanceReadSeq (ownerId conversationId : string) (readSeq : Z) (d : Db) : qres unit * Db :=
  (inl tt, with_userConvs d (alter (λ uc, UC_set_ReadSeq uc (GREATEST (UC_ReadSeq uc) readSeq))
                               (ownerId, conversationId) (userConvs d))).

(** The inner join of user_conversations and conversations. *)
Definition joined (d : Db) (uc : UserConversation) : list UserConversationRow :=
  match convs d !! UC_ConversationId uc with
  | Some c => [mkUCRow uc (Conv_MaxSeq c)]
  | None => []
  end.

Definition ListUserConversations (ownerId : string) (cursor : ListCursor) (rowLimit : Z) (d : Db) : qres (list UserConversationRow) :=
  LIMIT rowLimit (sortBy row_leb (flat_map (joined d) (keep (λ uc,
    (UC_OwnerId uc =? ownerId)%string
    && cursor_ltb (UC_UpdatedAt uc) (UC_ConversationId uc) (LC_UpdatedAt cursor) (LC_ConversationId cursor))
    (rows (userConvs d))))).

Definition UpsertOnlineConn (c : OnlineConn) (d : Db) : qres unit * Db :=
  (inl tt, with_online d (<[OC_ConnId c := c]> (online d))).

Definition DeleteOnlineConn (connId : string) (d : Db) : qres unit * Db :=
  (inl tt, with_online d (delete connId (online d))).

Definition DeleteOnlineConnsByNode (nodeId : string) (d : Db) : qres unit * Db :=
  (inl tt, with_online d (filter (λ kc, OC_NodeId kc.2 ≠ nodeId) (online d))).

Definition ListOnlineConns (userIds : list string) (since : Z) (d : Db) : qres (list OnlineConn) :=
  inl (keep (λ c, in_list (OC_UserId c) userIds && (since <? OC_HeartbeatAt c)) (rows (online d))).

Definition RenewOnlineConns (heartbeatAt : Z) (nodeId : string) (connIds : list string) (d : Db) : qres unit * Db :=
  (inl tt, with_online d ((λ c : OnlineConn,
     if (OC_NodeId c =? nodeId)%string && in_list (OC_ConnId c) connIds
     then mkOnlineConn (OC_ConnId c) (OC_UserId c) (OC_PlatformId c) (OC_NodeId c) heartbeatAt else c) <$> online d)).

End Gen.

(** ** The [Store] methods *)

Definition reading {A} (q : Db → qres A) : Op A := λ d, (wrapq (q d), d).

Definition executing {A} (q : Db → qres A * Db) : Op A := λ d, let '(r, d') := q d in (wrapq r, d').

Definition GetUser (id : string) : Op User := reading (Gen.GetUser id).

Definition GetUsers (ids : list string) : Op (list User) := reading (Gen.GetUsers ids).

Definition GetUserByUsername (username : string) : Op User := reading (Gen.GetUserByUsername username).

Definition CreateUser (u : User) : Op unit := executing (Gen.CreateUser u).

Definition UpdateUserProfile (id : string) (nickname avatar extra : option string) (now : Z) : Op unit := λ d,
  match Gen.UpdateUserProfile id nickname avatar extra now d with
  | (inl n, d') => (if n =? 0 then Err (ESentinel store_ErrNotFound) else Ok tt, d')
  | (inr e, d') => (Err (wrap_err e), d')
  end.

(** [CreatedAt: u.UpdatedAt]: the one timestamp argument of the query. *)
Definition UpsertUser (u : User) : Op unit :=
  executing (Gen.UpsertUser (User_Id u) (User_Nickname u) (User_Avatar u) (User_Extra u) (User_UpdatedAt u)).

Definition CreateGroup (g : Group) (ms : list GroupMember) : Op unit := λ d,
  match Gen.CreateGroup g d with
  | (inr e, d1) => (Err (wrap_err e), d1)
  | (inl _, d1) =>
      match Gen.AddGroupMembers ms d1 with
      | (inr e, d2) => (Err (wrap_err e), d2)
      | (inl _, d2) => (Ok tt, d2)
      end
  end.

Definition GetGroup (id : string) : Op Group := reading (Gen.GetGroup id).

Definition AddGroupMember (m : GroupMember) : Op unit := executing (Gen.AddGroupMember m).

Definition RemoveGroupMember (groupId userId : string) : Op bool := λ d,
  match Gen.RemoveGroupMember groupId userId d with
  | (inl n, d') => (Ok (0 <? n), d')
  | (inr e, d') => (Err (wrap_err e), d')
  end.

Definition GetGroupMember (groupId userId : string) : Op GroupMember := reading (Gen.GetGroupMember groupId userId).

Definition ListGroupMembers (groupId : string) : Op (list GroupMember) := reading (Gen.ListGroupMembers groupId).

Definition CountGroupMembers (groupId : string) : Op Z := reading (Gen.CountGroupMembers groupId).

Definition ListUserGroupIds (userId : string) : Op (list string) := reading (Gen.ListUserGroupIds userId).

Definition LockConversation (id : string) (typ : Z) (groupId : string) (now : Z) : Op Conversation := λ d,
  match Gen.InsertConversationIfMissing id typ groupId now d with
  | (inr e, d1) => (Err (wrap_err e), d1)
  | (inl _, d1) => (wrapq (Gen.LockConversation id d1), d1)
  end.

Definition GetConversation (id : string) : Op Conversation := reading (Gen.GetConversation id).

Definition GetUserConversation (ownerId conversationId : string) : Op UserConversation :=
  reading (Gen.GetUserConversation ownerId conversationId).

Definition GetUserConversationRow (ownerId conversationId : string) : Op UserConversationRow :=
  reading (Gen.GetUserConversationRow ownerId conversationId).

Definition UpsertUserConversation (uc : UserConversation) : Op unit := executing (Gen.UpsertUserConversation uc).

Definition SetUserConversationMaxSeq (ownerId conversationId : string) (maxSeq : Z) : Op unit :=
  executing (Gen.SetUserConversationMaxSeq ownerId conversationId maxSeq).

Definition DeleteUserConversation (ownerId conversationId : string) : Op unit :=
  executing (Gen.DeleteUserConversation ownerId conversationId).

Definition VisibleOwners (conversationId : string) (ownerIds : list string) (seq : Z) : Op (list string) :=
  if (length ownerIds =? 0)%nat then λ d, (Ok [], d) else reading (Gen.VisibleOwners conversationId ownerIds seq).

Definition MutedOwners (conversationId : string) (ownerIds : list string) : Op (list string) :=
  if (length ownerIds =? 0)%nat then λ d, (Ok [], d) else reading (Gen.MutedOwners conversationId ownerIds).

Definition SetUserConversationOpt (ownerId conversationId : string) (recvMsgOpt : option Z) (isPinned : option bool) : Op unit := λ d,
  match Gen.SetUserConversationOpt ownerId conversationId recvMsgOpt isPinned d with
  | (inl n, d') => (if n =? 0 then Err (ESentinel store_ErrNotFound) else Ok tt, d')
  | (inr e, d') => (Err (wrap_err e), d')
  end.

Definition CreateUserConversations (ucs : list UserConversation) : Op unit :=
  if (length ucs =? 0)%nat then λ d, (Ok tt, d) else λ d,
  match Gen.CreateUserConversations (map (λ uc, UC_set_CreatedAt uc (UC_UpdatedAt uc)) ucs) d with
  | (inl _, d') => (Ok tt, d')
  | (inr e, d') => (Err (wrap_err e), d')
  end.

Definition GetMessageByClientId (conversationId senderId clientMsgId : string) : Op Message :=
  reading (Gen.GetMessageByClientId conversationId senderId clientMsgId).

Definition InsertMessage (m : Message) : Op bool := λ d,
  match Gen.InsertMessage m d with
  | (inl n, d') => (Ok (0 <? n), d')
  | (inr e, d') => (Err (wrap_err e), d')
  end.

Definition SetConversationMaxSeq (conversationId : string) (maxSeq now : Z) : Op unit :=
  executing (Gen.SetConversationMaxSeq conversationId maxSeq now).

Definition ListMessages (conversationId : string) (beginSeq endSeq limit : Z) : Op (list Message) :=
  reading (Gen.ListMessages conversationId beginSeq endSeq (i32 limit)).

Definition GetMessages (keys : list MessageKey) : Op (list Message) :=
  if (length keys =? 0)%nat then λ d, (Ok [], d)
  else reading (Gen.GetMessages (combine (map MK_ConversationId keys) (map MK_Seq keys))).

Definition TouchUserConversation (uc : UserConversation) (readSeq : Z) : Op unit :=
  executing (Gen.TouchUserConversation uc readSeq).

Definition TouchConversationMembers (conversationId : string) (now : Z) : Op unit :=
  executing (Gen.TouchConversationMembers conversationId now).

Definition AdvanceReadSeq (ownerId conversationId : string) (readSeq : Z) : Op unit :=
  executing (Gen.AdvanceReadSeq ownerId conversationId readSeq).

Definition ListUserConversations (ownerId : string) (cursor : ListCursor) (limit : Z) : Op (list UserConversationRow) :=
  reading (Gen.ListUserConversations ownerId cursor (i32 limit)).

Definition UpsertOnlineConn (c : OnlineConn) : Op unit := executing (Gen.UpsertOnlineConn c).

Definition DeleteOnlineConn (connId : string) : Op unit := executing (Gen.DeleteOnlineConn connId).

Definition RenewOnlineConns (nodeId : string) (connIds : list string) (now : Z) : Op unit :=
  if (length connIds =? 0)%nat then λ d, (Ok tt, d) else executing (Gen.RenewOnlineConns now nodeId connIds).

Definition ListOnlineConns (userIds : list string) (since : Z) : Op (list OnlineConn) :=
  if (length userIds =? 0)%nat then λ d, (Ok [], d) else reading (Gen.ListOnlineConns userIds since).

Definition DeleteOnlineConnsByNode (nodeId : string) : Op unit := executing (Gen.DeleteOnlineConnsByNode nodeId).
