(* ===== verification/MemStore.v ===== *)
(** * The in-memory store ([internal/store/storetest/mem*.go])

    The store the service tests run on: the same tables as maps of one process, every method under a mutex. A page size that
    would slice below zero panics ([None]). What the two drivers have in common is proved in [MemThms]. *)

From S2P Require Import Prelude Errcode Strconv Store PgStore.

Local Open Scope Z_scope.

(** ** Iteration and sorting

    [range] over a map visits its values in an order the language leaves open. *)

Class GoRange := {
  range {K A} `{Countable K} : gmap K A → list A;
  range_perm {K A} `{Countable K} (m : gmap K A) : range m ≡ₚ rows m }.

(** [slices.SortFunc]: sorted by the comparison, elements that compare equal in no particular order. *)
Definition SortFunc {A} (cmp : A → A → Z) (l : list A) : list A := sortBy (λ x y, cmp x y <=? 0) l.

(** [time.Time.Compare] and [strings.Compare]. *)
Definition Compare (a b : Z) : Z := if a <? b then -1 else if b <? a then 1 else 0.

Definition strings_Compare (a b : string) : Z := if String.ltb a b then -1 else if String.ltb b a then 1 else 0.

(** [out[:min(len(out), limit)]]; a negative bound panics. *)
Definition upto {A} (limit : Z) (l : list A) : option (list A) :=
  let n := Z.min (Z.of_nat (length l)) limit in
  if n <? 0 then None else Some (take (Z.to_nat n) l).

(** A method: [None] is a panic. *)
Definition MemOp (A : Type) : Type := Db → option (result A) * Db.

Definition ret {A} (r : result A) (d : Db) : option (result A) * Db := (Some r, d).

Definition found {A} (o : option A) (d : Db) : option (result A) * Db :=
  match o with Some a => ret (Ok a) d | None => ret (Err (ESentinel store_ErrNotFound)) d end.

Module Mem.
Section Mem.
Context `{GR : GoRange}.

Definition GetUser (id : string) : MemOp User := λ m, found (users m !! id) m.

Definition GetUsers (ids : list string) : MemOp (list User) := λ m, ret (Ok (omap (λ id, users m !! id) ids)) m.

Definition GetUserByUsername (username : string) : MemOp User := λ m,
  found (List.find (λ u, (User_Username u =? username)%string) (range (users m))) m.

Definition CreateUser (u : User) : MemOp unit := λ m,
  match users m !! User_Id u with
  | Some _ => ret (Err (ESentinel store_ErrDuplicate)) m
  | None => ret (Ok tt) (with_users m (<[User_Id u := u]> (users m)))
  end.

Definition UpdateUserProfile (id : string) (nickname avatar extra : option string) (now : Z) : MemOp unit := λ m,
  match users m !! id with
  | None => ret (Err (ESentinel store_ErrNotFound)) m
  | Some cur =>
      ret (Ok tt) (with_users m (<[id := mkUser (User_Id cur) (User_Username cur) (User_PasswordHash cur)
        (default (User_Nickname cur) nickname) (default (User_Avatar cur) avatar) (default (User_Extra cur) extra)
        (User_CreatedAt cur) now]> (users m)))
  end.

Definition UpsertUser (u : User) : MemOp unit := λ m,
  let cur := match users m !! User_Id u with Some cur => cur | None => mkUser (User_Id u) "" "" "" "" "" (User_UpdatedAt u) zeroTime end in
  ret (Ok tt) (with_users m (<[User_Id u := mkUser (User_Id cur) (User_Username cur) (User_PasswordHash cur) (User_Nickname u)
    (User_Avatar u) (User_Extra u) (User_CreatedAt cur) (User_UpdatedAt u)]> (users m))).

Definition put_member (t : gmap key GroupMember) (gm : GroupMember) : gmap key GroupMember := <[(GM_GroupId gm, GM_UserId gm) := gm]> t.

Definition CreateGroup (g : Group) (ms : list GroupMember) : MemOp unit := λ m,
  match groups m !! Group_Id g with
  | Some _ => ret (Err (ESentinel store_ErrDuplicate)) m
  | None => let m := with_groups m (<[Group_Id g := g]> (groups m)) in ret (Ok tt) (with_members m (foldl put_member (members m) ms))
  end.

Definition GetGroup (id : string) : MemOp Group := λ m, found (groups m !! id) m.

Definition AddGroupMember (gm : GroupMember) : MemOp unit := λ m,
  match members m !! (GM_GroupId gm, GM_UserId gm) with
  | Some _ => ret (Err (ESentinel store_ErrDuplicate)) m
  | None => ret (Ok tt) (with_members m (put_member (members m) gm))
  end.

Definition RemoveGroupMember (groupId userId : string) : MemOp bool := λ m,
  let k := (groupId, userId) in
  ret (Ok (match members m !! k with Some _ => true | None => false end)) (with_members m (delete k (members m))).

Definition GetGroupMember (groupId userId : string) : MemOp GroupMember := λ m, found (members m !! (groupId, userId)) m.

Definition sortedMembers (pred : GroupMember → bool) (m : Db) : list GroupMember :=
  SortFunc (λ a b, let order := Compare (GM_JoinedAt a) (GM_JoinedAt b) in
                   if negb (order =? 0) then order else strings_Compare (GM_UserId a) (GM_UserId b))
    (keep pred (range (members m))).

Definition ListGroupMembers (groupId : string) : MemOp (list GroupMember) := λ m,
  ret (Ok (sortedMembers (λ gm, (GM_GroupId gm =? groupId)%string) m)) m.

Definition CountGroupMembers (groupId : string) : MemOp Z := λ m,
  ret (Ok (foldl (λ count gm, if (GM_GroupId gm =? groupId)%string then count + 1 else count) 0 (range (members m)))) m.

Definition ListUserGroupIds (userId : string) : MemOp (list string) := λ m,
  ret (Ok (map GM_GroupId (sortedMembers (λ gm, (GM_UserId gm =? userId)%string) m))) m.

Definition LockConversation (id : string) (typ : Z) (groupId : string) (now : Z) : MemOp Conversation := λ m,
  match convs m !! id with
  | Some c => ret (Ok c) m
  | None => let c := mkConversation id typ groupId 0 now now in ret (Ok c) (with_convs m (<[id := c]> (convs m)))
  end.

Definition GetConversation (id : string) : MemOp Conversation := λ m, found (convs m !! id) m.

Definition GetUserConversation (ownerId conversationId : string) : MemOp UserConversation := λ m,
  found (userConvs m !! (ownerId, conversationId)) m.

Definition GetUserConversationRow (ownerId conversationId : string) : MemOp UserConversationRow := λ m,
  match userConvs m !! (ownerId, conversationId) with
  | None => ret (Err (ESentinel store_ErrNotFound)) m
  | Some uc =>
      match convs m !! conversationId with
      | None => ret (Err (ESentinel store_ErrNotFound)) m
      | Some c => ret (Ok (mkUCRow uc (Conv_MaxSeq c))) m
      end
  end.

Definition UpsertUserConversation (uc : UserConversation) : MemOp unit := λ m,
  let k := (UC_OwnerId uc, UC_ConversationId uc) in
  let cur := match userConvs m !! k with Some cur => cur | None => UC_set_CreatedAt uc (UC_UpdatedAt uc) end in
  ret (Ok tt) (with_userConvs m (<[k := UC_set_seqs cur (UC_MinSeq uc) (UC_MaxSeq uc) (UC_ReadSeq uc) (UC_UpdatedAt uc)]> (userConvs m))).

Definition DeleteUserConversation (ownerId conversationId : string) : MemOp unit := λ m,
  ret (Ok tt) (with_userConvs m (delete (ownerId, conversationId) (userConvs m))).

Definition VisibleOwners (conversationId : string) (ownerIds : list string) (seq : Z) : MemOp (list string) := λ m,
  ret (Ok (keep (λ id, match userConvs m !! (id, conversationId) with
                       | Some uc => (UC_MinSeq uc <=? seq) && ((UC_MaxSeq uc =? 0) || (seq <=? UC_MaxSeq uc))
                       | None => false
                       end) ownerIds)) m.

Definition MutedOwners (conversationId : string) (ownerIds : list string) : MemOp (list string) := λ m,
  ret (Ok (keep (λ id, match userConvs m !! (id, conversationId) with
                       | Some uc => negb (UC_RecvMsgOpt uc =? 0)
                       | None => false
                       end) ownerIds)) m.

Definition SetUserConversationMaxSeq (ownerId conversationId : string) (maxSeq : Z) : MemOp unit := λ m,
  let k := (ownerId, conversationId) in
  match userConvs m !! k with
  | None => ret (Ok tt) m
  | Some uc => ret (Ok tt) (with_userConvs m (<[k := UC_set_MaxSeq uc maxSeq]> (userConvs m)))
  end.

Definition SetUserConversationOpt (ownerId conversationId : string) (recvMsgOpt : option Z) (isPinned : option bool) : MemOp unit := λ m,
  let k := (ownerId, conversationId) in
  match userConvs m !! k with
  | None => ret (Err (ESentinel store_ErrNotFound)) m
  | Some uc =>
      ret (Ok tt) (with_userConvs m (<[k := UC_set_opt uc (default (UC_RecvMsgOpt uc) recvMsgOpt) (default (UC_IsPinned uc) isPinned)]> (userConvs m)))
  end.

(** The first loop of [CreateUserConversations]: a row that exists or comes twice. *)
Fixpoint duplicate (ucs : list UserConversation) (t : gmap key UserConversation) (seen : gset key) : bool :=
  match ucs with
  | [] => false
  | uc :: rest =>
      let k := (UC_OwnerId uc, UC_ConversationId uc) in
      match t !! k with
      | Some _ => true
      | None => if bool_decide (k ∈ seen) then true else duplicate rest t ({[k]} ∪ seen)
      end
  end.

Definition put_uc (t : gmap key UserConversation) (uc : UserConversation) : gmap key UserConversation :=
  <[(UC_OwnerId uc, UC_ConversationId uc) := UC_set_CreatedAt uc (UC_UpdatedAt uc)]> t.

Definition CreateUserConversations (ucs : list UserConversation) : MemOp unit := λ m,
  if duplicate ucs (userConvs m) ∅ then ret (Err (ESentinel store_ErrDuplicate)) m
  else ret (Ok tt) (with_userConvs m (foldl put_uc (userConvs m) ucs)).

Definition GetMessageByClientId (conversationId senderId clientMsgId : string) : MemOp Message := λ m,
  found (List.find (λ msg, (Msg_ConversationId msg =? conversationId)%string && (Msg_SenderId msg =? senderId)%string
                           && (Msg_ClientMsgId msg =? clientMsgId)%string) (messages m)) m.

Definition InsertMessage (msg : Message) : MemOp bool := λ m,
  if existsb (λ cur, (Msg_ServerMsgId cur =? Msg_ServerMsgId msg)%string
       || ((Msg_ConversationId cur =? Msg_ConversationId msg)%string
           && ((Msg_Seq cur =? Msg_Seq msg)
               || ((Msg_SenderId cur =? Msg_SenderId msg)%string && (Msg_ClientMsgId cur =? Msg_ClientMsgId msg)%string)))) (messages m)
  then ret (Ok false) m
  else ret (Ok true) (with_messages m (messages m ++ [msg])).

(** A missing row reads as the zero value. *)
Definition SetConversationMaxSeq (conversationId : string) (maxSeq now : Z) : MemOp unit := λ m,
  let c := default (mkConversation "" 0 "" 0 zeroTime zeroTime) (convs m !! conversationId) in
  ret (Ok tt) (with_convs m (<[conversationId := mkConversation (Conv_ConversationId c) (Conv_Type c) (Conv_GroupId c) maxSeq (Conv_CreatedAt c) now]> (convs m))).

Definition ListMessages (conversationId : string) (beginSeq endSeq limit : Z) : MemOp (list Message) := λ m,
  let out := SortFunc (λ a b, i64 (Msg_Seq a - Msg_Seq b)) (keep (λ msg,
    (Msg_ConversationId msg =? conversationId)%string && (beginSeq <=? Msg_Seq msg) && (Msg_Seq msg <=? endSeq)) (messages m)) in
  (Ok <$> upto limit out, m).

Definition GetMessages (keys : list MessageKey) : MemOp (list Message) := λ m,
  ret (Ok (keep (λ msg, bool_decide (mkMessageKey (Msg_ConversationId msg) (Msg_Seq msg) ∈ keys)) (messages m))) m.

Definition TouchUserConversation (uc : UserConversation) (readSeq : Z) : MemOp unit := λ m,
  let k := (UC_OwnerId uc, UC_ConversationId uc) in
  let cur := match userConvs m !! k with
             | Some cur => cur
             | None => UC_set_CreatedAt (UC_set_seqs uc 1 0 (UC_ReadSeq uc) (UC_UpdatedAt uc)) (UC_UpdatedAt uc)
             end in
  let updatedAt := if After (UC_UpdatedAt cur) (UC_UpdatedAt uc) then UC_UpdatedAt cur else UC_UpdatedAt uc in
  ret (Ok tt) (with_userConvs m (<[k := UC_set_seqs cur (UC_MinSeq cur) (UC_MaxSeq cur) (Z.max (UC_ReadSeq cur) readSeq) updatedAt]> (userConvs m))).

Definition TouchConversationMembers (conversationId : string) (now : Z) : MemOp unit := λ m,
  ret (Ok tt) (with_userConvs m ((λ uc : UserConversation,
    if (UC_ConversationId uc =? conversationId)%string && (UC_MaxSeq uc =? 0) && After now (UC_UpdatedAt uc)
    then UC_set_UpdatedAt uc now else uc) <$> userConvs m)).

Definition AdvanceReadSeq (ownerId conversationId : string) (readSeq : Z) : MemOp unit := λ m,
  let k := (ownerId, conversationId) in
  match userConvs m !! k with
  | Some uc => ret (Ok tt) (with_userConvs m (<[k := UC_set_ReadSeq uc (Z.max (UC_ReadSeq uc) readSeq)]> (userConvs m)))
  | None => ret (Ok tt) m
  end.

Definition ListUserConversations (ownerId : string) (cursor : ListCursor) (limit : Z) : MemOp (list UserConversationRow) := λ m,
  let out := SortFunc (λ a b, let order := Compare (UC_UpdatedAt (Row_UC b)) (UC_UpdatedAt (Row_UC a)) in
                if negb (order =? 0) then order else strings_Compare (UC_ConversationId (Row_UC b)) (UC_ConversationId (Row_UC a)))
    (map (λ uc, mkUCRow uc (match convs m !! UC_ConversationId uc with Some c => Conv_MaxSeq c | None => 0 end))
      (keep (λ uc, (UC_OwnerId uc =? ownerId)%string
                   && (Before (UC_UpdatedAt uc) (LC_UpdatedAt cursor)
                       || ((UC_UpdatedAt uc =? LC_UpdatedAt cursor) && String.ltb (UC_ConversationId uc) (LC_ConversationId cursor))))
        (range (userConvs m)))) in
  (Ok <$> upto limit out, m).

Definition UpsertOnlineConn (c : OnlineConn) : MemOp unit := λ m, ret (Ok tt) (with_online m (<[OC_ConnId c := c]> (online m))).

Definition DeleteOnlineConn (connId : string) : MemOp unit := λ m, ret (Ok tt) (with_online m (delete connId (online m))).

Definition RenewOnlineConns (nodeId : string) (connIds : list string) (now : Z) : MemOp unit := λ m,
  ret (Ok tt) (with_online m ((λ c : OnlineConn,
    if (OC_NodeId c =? nodeId)%string && in_list (OC_ConnId c) connIds
    then mkOnlineConn (OC_ConnId c) (OC_UserId c) (OC_PlatformId c) (OC_NodeId c) now else c) <$> online m)).

Definition ListOnlineConns (userIds : list string) (since : Z) : MemOp (list OnlineConn) := λ m,
  ret (Ok (keep (λ c, in_list (OC_UserId c) userIds && After (OC_HeartbeatAt c) since) (range (online m)))) m.

Definition DeleteOnlineConnsByNode (nodeId : string) : MemOp unit := λ m,
  ret (Ok tt) (with_online m (filter (λ kc, OC_NodeId kc.2 ≠ nodeId) (online m))).

(** The hooks of the tests. *)
Definition SetConversation (c : Conversation) (m : Db) : Db := with_convs m (<[Conv_ConversationId c := c]> (convs m)).

Definition SetGroupMember (gm : GroupMember) (m : Db) : Db := with_members m (<[(GM_GroupId gm, GM_UserId gm) := gm]> (members m)).

Definition SetGroup (g : Group) (m : Db) : Db := with_groups m (<[Group_Id g := g]> (groups m)).

Definition NewMem : Db := emptyDb.
End Mem.
End Mem.

(** ** Sorting does not depend on the driver *)

Section Sorting.
Context {A : Type} (P : A → Prop) (leb1 leb2 : A → A → bool).
Hypothesis Heq : ∀ x y, P x → P y → leb1 x y = leb2 x y.

Abbreviation R1 := (λ x y, Is_true (leb1 x y)).
Abbreviation R2 := (λ x y, Is_true (leb2 x y)).

Definition stack_all (st : list (option (list A))) : Prop := Forall (λ o, match o with Some l => Forall P l | None => True end) st.

Lemma list_merge_ext l1 l2 : Forall P l1 → Forall P l2 → list_merge R1 l1 l2 = list_merge R2 l1 l2.
Proof.
  intros H1. revert l2. induction H1 as [|x l1 Hx H1 IH]; intros l2 H2; [by destruct l2|].
  induction H2 as [|y l2 Hy H2 IH2]; [done|]. simpl.
  assert (leb1 x y = leb2 x y) as E by auto.
  destruct (decide (Is_true (leb1 x y))) as [H|H], (decide (Is_true (leb2 x y))) as [H'|H']; rewrite E in H; try done.
  - f_equal. by apply IH; constructor.
  - f_equal. exact IH2.
Qed.

Lemma list_merge_all (R : relation A) `{∀ x y, Decision (R x y)} l1 l2 : Forall P l1 → Forall P l2 → Forall P (list_merge R l1 l2).
Proof. intros H1 H2. rewrite merge_Permutation. by apply Forall_app. Qed.

Lemma merge_stack_ext st : stack_all st → merge_stack R1 st = merge_stack R2 st ∧ Forall P (merge_stack R1 st).
Proof.
  induction 1 as [|[l|] st Hl _ [IH1 IH2]]; simpl; [done| |done]. rewrite <- IH1. split; [by apply list_merge_ext|by apply list_merge_all].
Qed.

Lemma merge_list_to_stack_ext st l :
  stack_all st → Forall P l → merge_list_to_stack R1 st l = merge_list_to_stack R2 st l ∧ stack_all (merge_list_to_stack R1 st l).
Proof.
  intros Hs. revert l. induction Hs as [|[l'|] st Hl' Hs IH]; intros l Hl; simpl; [split; [done|by constructor]| |split; [done|by constructor]].
  rewrite <- list_merge_ext by done. destruct (IH (list_merge R1 l' l)) as [-> H]; [by apply list_merge_all|]. split; [done|]. constructor; [done|].
  destruct (IH (list_merge R1 l' l)) as [<- ?]; [by apply list_merge_all|]. done.
Qed.

Lemma sortBy_ext l : Forall P l → sortBy leb1 l = sortBy leb2 l.
Proof.
  unfold sortBy, merge_sort. assert (∀ st, stack_all st → Forall P l → merge_sort_aux R1 st l = merge_sort_aux R2 st l) as H; [|apply H; constructor].
  intros st Hs Hl. revert st Hs. induction Hl as [|x l Hx _ IH]; intros st Hs; simpl; [by apply merge_stack_ext|].
  destruct (merge_list_to_stack_ext st [x]) as [<- ?]; [done|by constructor|]. by apply IH.
Qed.
End Sorting.

(** Permutations of a list sort to the same list when no two of its elements compare equal. *)
Lemma sortBy_perm {A} (leb : A → A → bool) `{!Transitive (λ x y, Is_true (leb x y)), !Total (λ x y, Is_true (leb x y))} l l' :
  (∀ x y, x ∈ l → y ∈ l → Is_true (leb x y) → Is_true (leb y x) → x = y) → l ≡ₚ l' → sortBy leb l = sortBy leb l'.
Proof.
  intros Ha Hp. unfold sortBy. apply (StronglySorted_unique_strong (λ x y, Is_true (leb x y))).
  - intros x y Hx Hy. rewrite merge_sort_Permutation in Hx, Hy. rewrite <- Hp in Hy. by apply Ha.
  - apply StronglySorted_merge_sort; apply _.
  - apply StronglySorted_merge_sort; apply _.
  - by rewrite !merge_sort_Permutation.
Qed.
