(* ===== verification/Conv.v ===== *)
(** * Conversation ids, page cursors and visible ranges ([internal/service/conv]) *)

From S2P Require Import Prelude Errcode Strconv Identity Store.

Local Open Scope Z_scope.

(** ** Ids ([convid.go]) *)

Definition Single (a b : string) : string :=
  let '(a, b) := if String.ltb b a then (b, a) else (a, b) in
  "si_" +:+ a +:+ ":" +:+ b.

Definition GroupConv (groupId : string) : string := "sg_" +:+ groupId.

(** ** Cursors ([cursor.go]) *)

Definition EncodeCursor (c : ListCursor) : string :=
  EncodeToString (FormatInt (UnixMilli (LC_UpdatedAt c)) +:+ ":" +:+ LC_ConversationId c).

Definition DecodeCursor (s : string) : option ListCursor :=
  if (s =? "")%string then Some FirstPage
  else
    match DecodeString s with
    | None => None
    | Some raw =>
        match Cut raw ":"%char with
        | None => None
        | Some (ms, id) =>
            if (id =? "")%string then None
            else match ParseInt ms with
                 | None => None
                 | Some n => Some (mkListCursor (UnixMilli_of n) id)
                 end
        end
    end.

Definition VisibleMax (uc : UserConversation) (convMax : Z) : Z :=
  if 0 <? UC_MaxSeq uc then Z.min (UC_MaxSeq uc) convMax else convMax.

Definition VisibleRange (uc : UserConversation) (convMax begin end_ : Z) : Z * Z :=
  (Z.max begin (UC_MinSeq uc), Z.min end_ (VisibleMax uc convMax)).

(** The seqs of a conversation a row gives access to (design §5.3). *)
Definition visible_seq (uc : UserConversation) (convMax s : Z) : Prop :=
  UC_MinSeq uc ≤ s ≤ convMax ∧ (UC_MaxSeq uc = 0 ∨ s ≤ UC_MaxSeq uc).

(** ** Lemmas *)

Lemma ltb_swap a b : String.ltb b a = false → String.ltb a b = false → a = b.
Proof.
  unfold String.ltb. rewrite (String.compare_antisym b a). destruct (String.compare a b) eqn:E; try done.
  intros _ _. by apply String.compare_eq_iff.
Qed.

Lemma ltb_asym a b : String.ltb a b = true → String.ltb b a = false.
Proof. unfold String.ltb. rewrite (String.compare_antisym b a). by destruct (String.compare a b). Qed.

Lemma append_inj_l (p a b : string) : p +:+ a = p +:+ b → a = b.
Proof. induction p as [|c p IH]; simpl; [done|]. intros [= E]. by apply IH. Qed.

(** The two parts of a single-chat id are determined by it. *)
Lemma si_inj a b c d :
  ContainsRune a ":"%char = false → ContainsRune c ":"%char = false →
  "si_" +:+ a +:+ ":" +:+ b = "si_" +:+ c +:+ ":" +:+ d → a = c ∧ b = d.
Proof.
  intros Ha Hc E. apply append_inj_l in E. apply (f_equal (λ s, Cut s ":"%char)) in E.
  change (":" +:+ b) with (String.String ":"%char b) in E. change (":" +:+ d) with (String.String ":"%char d) in E.
  rewrite !Cut_app in E by done. by injection E.
Qed.

Lemma Single_sorted a b :
  ∃ x y, Single a b = "si_" +:+ x +:+ ":" +:+ y ∧ ((x = a ∧ y = b) ∨ (x = b ∧ y = a)).
Proof. unfold Single. destruct (String.ltb b a); eauto 10. Qed.

Lemma Single_comm a b : Single a b = Single b a.
Proof.
  unfold Single. destruct (String.ltb b a) eqn:E1, (String.ltb a b) eqn:E2; try done.
  - apply ltb_asym in E1. congruence.
  - by rewrite (ltb_swap _ _ E1 E2).
Qed.

(** A single conversation has exactly two parties. *)
Lemma Single_inj a b c d :
  ContainsRune a ":"%char = false → ContainsRune b ":"%char = false →
  ContainsRune c ":"%char = false → ContainsRune d ":"%char = false →
  Single a b = Single c d → (a = c ∧ b = d) ∨ (a = d ∧ b = c).
Proof.
  intros Ha Hb Hc Hd E.
  destruct (Single_sorted a b) as (x & y & Exy & Hxy), (Single_sorted c d) as (z & w & Ezw & Hzw).
  rewrite Exy, Ezw in E.
  apply si_inj in E as [-> ->]; [|naive_solver..]. naive_solver.
Qed.

Lemma GroupConv_inj g h : GroupConv g = GroupConv h → g = h.
Proof. apply append_inj_l. Qed.

Lemma Single_not_Group a b g : Single a b ≠ GroupConv g.
Proof. destruct (Single_sorted a b) as (x & y & -> & _). done. Qed.

(** Two single-chat conversation ids built from valid user ids are equal exactly when the
    unordered pairs of users are, and never equal to a group conversation id; group ids
    determine their conversation ids: no two chats share a seq space. *)
Lemma conversation_ids_distinct a b c d g h :
  Valid a = true → Valid b = true → Valid c = true → Valid d = true →
  (Single a b = Single c d ↔ (a = c ∧ b = d) ∨ (a = d ∧ b = c)) ∧
  Single a b ≠ GroupConv g ∧ (GroupConv g = GroupConv h ↔ g = h).
Proof.
  intros. repeat split.
  - intros. apply Single_inj; auto using Valid_no_colon.
  - intros [[-> ->]|[-> ->]]; [done|apply Single_comm].
  - apply Single_not_Group.
  - apply GroupConv_inj.
  - by intros ->.
Qed.

Lemma conversation_ids_distinct_witness :
  Valid "u___1" = true ∧ (Single "u___1" "ag__2" = Single "ag__2" "u___1" ↔
    ("u___1" = "ag__2" ∧ "ag__2" = "u___1") ∨ ("u___1" = "u___1" ∧ "ag__2" = "ag__2"))%string.
Proof.
  split; [vm_compute; done|].
  apply (conversation_ids_distinct "u___1" "ag__2" "ag__2" "u___1" "g" "g"); vm_compute; done.
Defined.

Lemma DecodeCursor_EncodeCursor c :
  UnixMilli_of (UnixMilli (LC_UpdatedAt c)) = LC_UpdatedAt c →
  minInt64 ≤ UnixMilli (LC_UpdatedAt c) ≤ maxInt64 →
  LC_ConversationId c ≠ ""%string →
  DecodeCursor (EncodeCursor c) = Some c.
Proof.
  intros Hms Hr Hid. destruct c as [t id]. simpl in *. unfold DecodeCursor, EncodeCursor. simpl.
  set (raw := FormatInt (UnixMilli t) +:+ ":" +:+ id).
  assert (raw ≠ ""%string) as Hraw.
  { intros E. apply (f_equal String.length) in E. unfold raw in E. rewrite !string_app_length in E. simpl in E. lia. }
  replace (EncodeToString raw =? "")%string with false
    by (symmetry; apply String.eqb_neq; by apply EncodeToString_nonempty).
  rewrite DecodeString_EncodeToString. unfold raw.
  change (":" +:+ id) with (String.String ":"%char id).
  rewrite Cut_app by (by apply FormatInt_no_colon).
  replace (id =? "")%string with false by (symmetry; by apply String.eqb_neq).
  rewrite ParseInt_FormatInt by done. by rewrite Hms.
Qed.

(** Cursors survive the wire: decoding the encoding of a cursor made of a millisecond-exact
    time and a non-empty conversation id gives the same cursor back, two different cursors never have one encoding, and the empty
    string is the first page. *)
Lemma cursor_roundtrip c c' :
  UnixMilli_of (UnixMilli (LC_UpdatedAt c)) = LC_UpdatedAt c → UnixMilli_of (UnixMilli (LC_UpdatedAt c')) = LC_UpdatedAt c' →
  minInt64 ≤ UnixMilli (LC_UpdatedAt c) ≤ maxInt64 → minInt64 ≤ UnixMilli (LC_UpdatedAt c') ≤ maxInt64 →
  LC_ConversationId c ≠ ""%string → LC_ConversationId c' ≠ ""%string →
  DecodeCursor (EncodeCursor c) = Some c ∧ (EncodeCursor c = EncodeCursor c' → c = c') ∧ DecodeCursor "" = Some FirstPage.
Proof.
  intros. split_and!; [by apply DecodeCursor_EncodeCursor| |done]. intros E. apply (f_equal DecodeCursor) in E.
  rewrite !DecodeCursor_EncodeCursor in E by done. congruence.
Qed.

Lemma cursor_roundtrip_witness :
  DecodeCursor (EncodeCursor (mkListCursor (UnixMilli_of 1700000000123) "si_u___1:u___2"))
  = Some (mkListCursor (UnixMilli_of 1700000000123) "si_u___1:u___2").
Proof.
  apply (cursor_roundtrip (mkListCursor (UnixMilli_of 1700000000123) "si_u___1:u___2") (mkListCursor (UnixMilli_of 5) "sg_g"));
    vm_compute; try done; split; intros H; discriminate H.
Defined.

(** The range [VisibleRange] clips to contains a seq exactly when the request does and the
    row gives access to it. *)
Lemma VisibleRange_spec uc convMax b e s :
  0 ≤ UC_MaxSeq uc →
  ((VisibleRange uc convMax b e).1 ≤ s ≤ (VisibleRange uc convMax b e).2
   ↔ b ≤ s ≤ e ∧ visible_seq uc convMax s).
Proof.
  intros H0. unfold VisibleRange, VisibleMax, visible_seq. simpl.
  destruct (Z.ltb_spec 0 (UC_MaxSeq uc)); lia.
Qed.

Lemma VisibleRange_spec_witness :
  let uc := mkUC "u___1" "sg_g" 2 "" "g" 6 9 0 0 false "" 0 0 in
  6 ≤ 7 ≤ 9 ↔ 1 ≤ 7 ≤ 100 ∧ visible_seq uc 20 7.
Proof. intros uc. apply (VisibleRange_spec uc 20 1 100 7). vm_compute. done. Defined.

Lemma VisibleMax_le uc c : VisibleMax uc c ≤ c.
Proof. unfold VisibleMax. destruct (0 <? UC_MaxSeq uc); lia. Qed.
