(* ===== verification/Conc.v ===== *)
(** * Requests that interleave

    A request is a sequence of atomic actions on the shared world: one store call, one whole
    transaction, one limiter call, one publish. Between two of its actions any number of
    actions of other requests, on any node, can run. [prog] is such a sequence, [pool_step] the
    interleaving semantics of a set of requests, and [wp] a rely/guarantee assertion about one
    request that holds whatever the others do; [pool_safe] joins the two. *)

From S2P Require Import Prelude.

(** ** Programs *)

Inductive prog (W A : Type) : Type :=
| Ret (a : A)
| Act {B : Type} (f : W → B * W) (k : B → prog W A).
Arguments Ret {W A} a.
Arguments Act {W A B} f k.

Fixpoint pbind {W A B} (p : prog W A) (k : A → prog W B) : prog W B :=
  match p with
  | Ret a => k a
  | Act f j => Act f (λ b, pbind (j b) k)
  end.

#[export] Instance prog_mret {W} : MRet (prog W) := @Ret W.
#[export] Instance prog_mbind {W} : MBind (prog W) := λ A B k p, pbind p k.

Definition act {W B} (f : W → B * W) : prog W B := Act f Ret.

(** A run with nothing in between, for evaluation on concrete inputs. *)
Fixpoint run {W A} (p : prog W A) (w : W) : A * W :=
  match p with
  | Ret a => (a, w)
  | Act f k => let '(b, w') := f w in run (k b) w'
  end.

Lemma run_bind {W A B} (p : prog W A) (k : A → prog W B) w :
  run (pbind p k) w = let '(a, w') := run p w in run (k a) w'.
Proof.
  revert w. induction p as [a|C f j IH]; intros w; simpl; [done|].
  destruct (f w) as [b w']. apply IH.
Qed.

(** ** Rely/guarantee *)

Section RelyGuarantee.
Context {W : Type}.
Variables (bnd inv : W → Prop) (rely : W → W → Prop).
Context `{!PreOrder rely}.

(** [wp p Q w]: started in [w], with interference that keeps [inv] and moves along [rely], every
    action of [p] keeps [inv], moves along [rely], and the result satisfies [Q]. Runs that leave
    the capacity bound [bnd] are not considered. *)
Fixpoint wp {A} (p : prog W A) (Q : A → W → Prop) (w : W) : Prop :=
  match p with
  | Ret a => Q a w
  | Act f k =>
      ∀ w1, rely w w1 → inv w1 →
        let '(b, w') := f w1 in
        bnd w' → inv w' ∧ rely w1 w' ∧ wp (k b) Q w'
  end.

Lemma wp_mono {A} (p : prog W A) (P Q : A → W → Prop) w :
  (∀ a w', P a w' → Q a w') → wp p P w → wp p Q w.
Proof.
  revert w. induction p as [a|B f k IH]; intros w HPQ; simpl; [by apply HPQ|].
  intros H w1 Hr Hi. specialize (H w1 Hr Hi). destruct (f w1) as [b w']. intros Hb.
  destruct (H Hb) as (? & ? & ?). repeat split; try done. by apply IH.
Qed.

Lemma wp_bind {A B} (p : prog W A) (k : A → prog W B) Q w :
  wp p (λ a w', wp (k a) Q w') w → wp (pbind p k) Q w.
Proof.
  revert w. induction p as [a|C f j IH]; intros w; simpl; [done|].
  intros H w1 Hr Hi. specialize (H w1 Hr Hi). destruct (f w1) as [b w']. intros Hb.
  destruct (H Hb) as (? & ? & ?). repeat split; try done. by apply IH.
Qed.

(** The world of the answer comes after the world of the start. *)
Lemma wp_from {A} (p : prog W A) (Q : A → W → Prop) w : wp p Q w → wp p (λ a w', rely w w' ∧ Q a w') w.
Proof.
  assert (∀ w0, rely w0 w → wp p Q w → wp p (λ a w', rely w0 w' ∧ Q a w') w) as H; [|apply H; reflexivity].
  revert w. induction p as [a|B f k IH]; intros w w0 H0; simpl; [done|].
  intros H w1 Hr Hi. specialize (H w1 Hr Hi). destruct (f w1) as [b w']. intros Hb.
  destruct (H Hb) as (? & ? & ?). split_and!; try done. apply IH; [|done].
  transitivity w; [done|]. by transitivity w1.
Qed.

(** The rule for one action, the shape every component lemma has. *)
Lemma wp_act {B} (f : W → B * W) (Q : B → W → Prop) w :
  (∀ w1 b w', rely w w1 → inv w1 → f w1 = (b, w') → bnd w' → inv w' ∧ rely w1 w' ∧ Q b w') →
  wp (act f) Q w.
Proof.
  intros H w1 Hr Hi. destruct (f w1) as [b w'] eqn:E. intros Hb. by apply H.
Qed.

(** ** Pools *)

(** A request, the world it arrived in, and what is left of it. *)
Record thread (R A : Type) := mkThread { th_req : R; th_start : W; th_prog : prog W A }.

Context {R A : Type} (handle : R → prog W A) (arrives : R → W → Prop).

Inductive pool_step : list (thread R A) * W → list (thread R A) * W → Prop :=
| step_arrive ts w r :
    arrives r w → pool_step (ts, w) (ts ++ [mkThread R A r w (handle r)], w)
| step_act ts1 ts2 w r w0 B (f : W → B * W) k b w' :
    f w = (b, w') → bnd w' →
    pool_step (ts1 ++ mkThread R A r w0 (Act f k) :: ts2, w) (ts1 ++ mkThread R A r w0 (k b) :: ts2, w').

Variable Post : R → W → A → W → Prop.
Hypothesis Post_stable : ∀ r w0 a w w', rely w w' → Post r w0 a w → Post r w0 a w'.

Lemma wp_rely {C} (p : prog W C) (Q : C → W → Prop) w w' :
  (∀ a w1 w2, rely w1 w2 → Q a w1 → Q a w2) → rely w w' → wp p Q w → wp p Q w'.
Proof.
  intros HQ Hr. destruct p as [a|B f k]; simpl; [by apply HQ|].
  intros H w1 Hr1 Hi. apply H; [by transitivity w'|done].
Qed.

Definition thread_ok (w : W) (t : thread R A) : Prop :=
  rely (th_start _ _ t) w ∧ wp (th_prog _ _ t) (Post (th_req _ _ t) (th_start _ _ t)) w.

Definition pool_ok (p : list (thread R A) * W) : Prop := inv p.2 ∧ Forall (thread_ok p.2) p.1.

Lemma pool_ok_rely ts w w' : rely w w' → Forall (thread_ok w) ts → Forall (thread_ok w') ts.
Proof.
  intros Hr H. eapply Forall_impl; [exact H|]. intros t [H1 H2]. split; [by transitivity w|].
  eapply wp_rely; [|done|done]. intros. eapply Post_stable; eauto.
Qed.

Lemma pool_step_ok p q :
  (∀ r w, arrives r w → inv w → wp (handle r) (Post r w) w) → pool_ok p → pool_step p q → pool_ok q.
Proof.
  intros Hh [Hi Hts] Hs. destruct Hs as [ts w r Ha|ts1 ts2 w r w0 B f k b w' Hf Hb]; simpl in *.
  - split; [done|]. apply Forall_app. split; [done|]. constructor; [|constructor].
    split; simpl; [reflexivity|by apply Hh].
  - rewrite Forall_app, Forall_cons in Hts. destruct Hts as (H1 & [Hr0 Hwp] & H2). simpl in *.
    specialize (Hwp w ltac:(reflexivity) Hi). rewrite Hf in Hwp. destruct (Hwp Hb) as (Hi' & Hr' & Hwp').
    split; [done|]. simpl. rewrite Forall_app, Forall_cons. repeat split.
    + by eapply pool_ok_rely.
    + simpl. by transitivity w.
    + done.
    + by eapply pool_ok_rely.
Qed.

(** Every reachable pool keeps the invariant, and every answered request its postcondition. *)
Lemma pool_safe w0 ts w :
  (∀ r w, arrives r w → inv w → wp (handle r) (Post r w) w) → inv w0 →
  rtc pool_step ([], w0) (ts, w) →
  inv w ∧ ∀ r ws a, mkThread R A r ws (Ret a) ∈ ts → rely ws w ∧ Post r ws a w.
Proof.
  intros Hh Hi Hrtc.
  assert (pool_ok (ts, w)) as [Hi' Hok].
  { assert (∀ p q, rtc pool_step p q → pool_ok p → pool_ok q) as Hind.
    { induction 1; eauto using pool_step_ok. }
    apply (Hind ([], w0)); [done|]. split; [done|constructor]. }
  split; [done|]. intros r ws a Hin. rewrite Forall_forall in Hok. by apply (Hok _ Hin).
Qed.

End RelyGuarantee.

#[global] Arguments wp {W} bnd inv rely {A} p Q w : simpl never.
