(* ===== verification/RateLimit.v ===== *)
(** * Keyed rate limiting ([internal/ratelimit/keyed.go])

    One token bucket per key. The bucket itself is [golang.org/x/time/rate], a parameter here;
    the code hands out pointers to buckets and calls them after releasing its lock, so buckets
    live in a heap and a [Keyed] maps keys to addresses. *)

From S2P Require Import Prelude.
From Stdlib Require Import QArith.

Local Open Scope Z_scope.

(** [rate.Limiter]: [NewLimiter(r, b)] and [AllowN(t, n)], which updates the bucket. *)
Class RateLib := {
  Limiter : Type;
  NewLimiter : Q → Z → Limiter;
  AllowN : Limiter → Z → Z → bool * Limiter }.

Definition IdleTtl : Z := 300 * Second.

Section Keyed.
Context `{RL : RateLib}.

Record entry := mkEntry { e_lim : nat; e_seen : Z }.

(** [k_heap] holds every bucket ever created, [k_overflow] and [e_lim] are addresses in it. The
    mutex makes each of the two halves of [Allow] one atomic step. *)
Record Keyed := mkKeyed {
  k_rate : Q; k_burst : Z; k_max : Z;
  k_entries : gmap string entry; k_overflow : nat; k_swept : Z; k_heap : list Limiter }.

Definition NewKeyed (perSec : Q) (burst max now : Z) : Keyed :=
  mkKeyed perSec burst max ∅ 0 now [NewLimiter perSec burst].

Definition k_with (k : Keyed) (es : gmap string entry) (swept : Z) (h : list Limiter) : Keyed :=
  mkKeyed (k_rate k) (k_burst k) (k_max k) es (k_overflow k) swept h.

(** [sweep]: [maps.DeleteFunc] of the entries idle for longer than [IdleTtl]. *)
Definition sweep (k : Keyed) (now : Z) : Keyed :=
  k_with k (filter (λ ke : string * entry, ¬ (IdleTtl < now - e_seen ke.2)) (k_entries k)) now (k_heap k).

Definition limiterFor (k : Keyed) (key : string) (now : Z) : nat * Keyed :=
  match k_entries k !! key with
  | Some e => (e_lim e, k_with k (<[key := mkEntry (e_lim e) now]> (k_entries k)) (k_swept k) (k_heap k))
  | None =>
      if k_max k <=? Z.of_nat (size (k_entries k)) then (k_overflow k, k)
      else
        let a := length (k_heap k) in
        (a, k_with k (<[key := mkEntry a now]> (k_entries k)) (k_swept k) (k_heap k ++ [NewLimiter (k_rate k) (k_burst k)]))
  end.

(** The locked half of [Allow]: [None] when the limit is off. *)
Definition Allow_find (k : Keyed) (key : string) (now : Z) : option nat * Keyed :=
  if Qle_bool (k_rate k) 0 then (None, k)
  else
    let k1 := if IdleTtl <? now - k_swept k then sweep k now else k in
    let '(a, k2) := limiterFor k1 key now in (Some a, k2).

(** The call of the bucket, after the lock is released. *)
Definition Allow_take (k : Keyed) (a : option nat) (now : Z) : bool * Keyed :=
  match a with
  | None => (true, k)
  | Some a =>
      match k_heap k !! a with
      | None => (true, k)
      | Some l => let '(ok, l') := AllowN l now 1 in (ok, k_with k (k_entries k) (k_swept k) (<[a := l']> (k_heap k)))
      end
  end.

Definition Allow (k : Keyed) (key : string) (now : Z) : bool * Keyed :=
  let '(a, k1) := Allow_find k key now in Allow_take k1 a now.

(** ** Invariant *)

(** Addresses are valid, no two keys share a bucket, none uses the overflow bucket, and the map
    stays within its cap. *)
Record Keyed_ok (k : Keyed) : Prop := {
  ko_overflow : (k_overflow k < length (k_heap k))%nat;
  ko_valid : ∀ key e, k_entries k !! key = Some e → (e_lim e < length (k_heap k))%nat;
  ko_own : ∀ key e, k_entries k !! key = Some e → e_lim e ≠ k_overflow k;
  ko_inj : ∀ k1 k2 e1 e2, k_entries k !! k1 = Some e1 → k_entries k !! k2 = Some e2 → e_lim e1 = e_lim e2 → k1 = k2;
  ko_cap : Z.of_nat (size (k_entries k)) ≤ Z.max 0 (k_max k) }.

Lemma NewKeyed_ok r b m now : Keyed_ok (NewKeyed r b m now).
Proof. split; simpl; try (intros; simplify_map_eq); try lia. rewrite map_size_empty. lia. Qed.

Lemma sweep_ok k now : Keyed_ok k → Keyed_ok (sweep k now).
Proof.
  intros [H1 H2 H3 H4 H5]. split; simpl; try done.
  - intros key e [He _]%map_lookup_filter_Some. eauto.
  - intros key e [He _]%map_lookup_filter_Some. eauto.
  - intros k1 k2 e1 e2 [He1 _]%map_lookup_filter_Some [He2 _]%map_lookup_filter_Some. eauto.
  - pose proof (map_size_filter (λ ke : string * entry, ¬ (IdleTtl < now - e_seen ke.2)) (k_entries k)). lia.
Qed.

Lemma limiterFor_ok k key now a k' :
  Keyed_ok k → limiterFor k key now = (a, k') →
  Keyed_ok k' ∧ (a < length (k_heap k'))%nat ∧ k_max k' = k_max k ∧
  (∀ b, (b < length (k_heap k))%nat → k_heap k' !! b = k_heap k !! b) ∧
  (∀ key', key' ≠ key → k_entries k' !! key' = k_entries k !! key') ∧
  (∀ key' e, key' ≠ key → k_entries k !! key' = Some e → e_lim e ≠ a).
Proof.
  intros [H1 H2 H3 H4 H5]. unfold limiterFor. destruct (k_entries k !! key) as [e|] eqn:Ek.
  - intros [= <- <-]. simpl. split_and!; [split; simpl| | | | |]; try done; eauto.
    + intros key' e' [[<- <-]|[_ ?]]%lookup_insert_Some; simpl; eauto.
    + intros key' e' [[<- <-]|[_ ?]]%lookup_insert_Some; simpl; eauto.
    + intros k1 k2 e1 e2 [[<- <-]|[_ ?]]%lookup_insert_Some [[<- <-]|[_ ?]]%lookup_insert_Some; simpl; eauto.
    + rewrite map_size_insert_Some by eauto. done.
    + intros key' Hne. by rewrite lookup_insert_ne.
  - destruct (Z.leb_spec (k_max k) (Z.of_nat (size (k_entries k)))) as [Hfull|Hroom].
    + intros [= <- <-]. split_and!; done || eauto.
    + intros [= <- <-]. simpl. rewrite length_app. simpl. split_and!; try lia; [split; simpl|..].
      * rewrite length_app. simpl. lia.
      * intros key' e' [[<- <-]|[_ He%H2]]%lookup_insert_Some; rewrite length_app; simpl; lia.
      * intros key' e' [[<- <-]|[_ He%H3]]%lookup_insert_Some; simpl; [lia|done].
      * intros k1 k2 e1 e2 [[<- <-]|[? He1]]%lookup_insert_Some [[<- <-]|[? He2]]%lookup_insert_Some; simpl; eauto;
          intros E; [apply H2 in He2|apply H2 in He1]; lia.
      * rewrite map_size_insert_None by done. lia.
      * intros b Hb. by rewrite lookup_app_l.
      * intros key' Hne. by rewrite lookup_insert_ne.
      * intros key' e' Hne He'%H2. lia.
Qed.

Lemma Allow_find_ok k key now a k' :
  Keyed_ok k → Allow_find k key now = (a, k') → Keyed_ok k' ∧ k_max k' = k_max k.
Proof.
  intros Hk. unfold Allow_find. destruct (Qle_bool _ 0); [by intros [= <- <-]|].
  set (k1 := if IdleTtl <? now - k_swept k then sweep k now else k).
  assert (Keyed_ok k1 ∧ k_max k1 = k_max k) as [Hk1 Hm].
  { subst k1. case_match; [split; [by apply sweep_ok|done]|done]. }
  destruct (limiterFor k1 key now) as [a' k2] eqn:E. intros [= <- <-].
  apply limiterFor_ok in E as (? & _ & ? & _); [split; congruence|done].
Qed.

Lemma Allow_take_ok k a now b k' :
  Keyed_ok k → Allow_take k a now = (b, k') →
  Keyed_ok k' ∧ k_max k' = k_max k ∧ k_entries k' = k_entries k ∧
  ∀ c, Some c ≠ a → k_heap k' !! c = k_heap k !! c.
Proof.
  intros Hk. pose proof Hk as [H1 H2 H3 H4 H5]. unfold Allow_take.
  destruct a as [a|]; [|by intros [= <- <-]].
  destruct (k_heap k !! a) as [l|] eqn:El; [|by intros [= <- <-]].
  destruct (AllowN l now 1) as [ok l']. intros [= <- <-]. simpl. split_and!; try done.
  - split; simpl; rewrite ?length_insert; eauto.
  - intros c Hc. apply list_lookup_insert_ne. congruence.
Qed.

Lemma Allow_ok k key now b k' : Keyed_ok k → Allow k key now = (b, k') → Keyed_ok k' ∧ k_max k' = k_max k.
Proof.
  intros Hk. unfold Allow. destruct (Allow_find k key now) as [a k1] eqn:E.
  apply Allow_find_ok in E as [Hk1 Hm]; [|done]. intros E. apply Allow_take_ok in E as (? & ? & _); [split; congruence|done].
Qed.

Fixpoint Allow_all (k : Keyed) (calls : list (string * Z)) : list bool * Keyed :=
  match calls with
  | [] => ([], k)
  | (key, now) :: calls' =>
      let '(b, k1) := Allow k key now in
      let '(bs, k2) := Allow_all k1 calls' in (b :: bs, k2)
  end.

Lemma Allow_all_ok k calls bs k' : Keyed_ok k → Allow_all k calls = (bs, k') → Keyed_ok k' ∧ k_max k' = k_max k.
Proof.
  revert k bs k'. induction calls as [|[key now] calls IH]; intros k bs k' Hk; simpl; [by intros [= <- <-]|].
  destruct (Allow k key now) as [b k1] eqn:E1. apply Allow_ok in E1 as [Hk1 Hm]; [|done].
  destruct (Allow_all k1 calls) as [bs' k2] eqn:E2. intros [= <- <-].
  apply IH in E2 as [? ?]; [split; congruence|done].
Qed.

(** However many distinct keys call, and whatever the clock does, a limiter tracks at most
    [max] of them, and no two tracked keys share a bucket. *)
Lemma Keyed_bounded_and_separate r burst max t0 calls bs k :
  0 ≤ max → Allow_all (NewKeyed r burst max t0) calls = (bs, k) →
  Z.of_nat (size (k_entries k)) ≤ max ∧
  ∀ k1 k2 e1 e2, k_entries k !! k1 = Some e1 → k_entries k !! k2 = Some e2 → e_lim e1 = e_lim e2 → k1 = k2.
Proof.
  intros Hmax E. apply Allow_all_ok in E as [[_ _ _ H4 H5] Hm]; [|apply NewKeyed_ok].
  rewrite Hm in H5. simpl in H5. split; [lia|done].
Qed.

(** A call for one key leaves the bucket of every other tracked key as it was, so one sender
    cannot use up another's quota. *)
Lemma Keyed_isolated k key key' e now b k' :
  Keyed_ok k → key' ≠ key → k_entries k !! key' = Some e → Allow k key now = (b, k') →
  k_heap k' !! e_lim e = k_heap k !! e_lim e ∧
  (now - e_seen e ≤ IdleTtl → k_entries k' !! key' = Some e).
Proof.
  intros Hk Hne He. unfold Allow, Allow_find. destruct (Qle_bool _ 0); [by intros [= <- <-]|].
  set (k1 := if IdleTtl <? now - k_swept k then sweep k now else k).
  assert (Keyed_ok k1) as Hk1 by (subst k1; case_match; [by apply sweep_ok|done]).
  assert (k_heap k1 = k_heap k) as Hh by (subst k1; by case_match).
  assert (k_entries k1 !! key' = Some e ∨ (k_entries k1 !! key' = None ∧ IdleTtl < now - e_seen e)) as Hk1e.
  { subst k1. case_match; [|by left]. simpl. destruct (decide (IdleTtl < now - e_seen e)).
    - right. split; [|done]. apply map_lookup_filter_None. right. intros x Hx. simplify_eq. naive_solver.
    - left. by apply map_lookup_filter_Some. }
  destruct (limiterFor k1 key now) as [a k2] eqn:E. pose proof E as Ea.
  apply limiterFor_ok in E as (Hk2 & Hlt & _ & Hheap & Hent & Hother); [|done].
  intros Et. apply Allow_take_ok in Et as (_ & _ & He' & Hc); [|done].
  rewrite Hh in Hheap. pose proof (ko_valid k Hk _ _ He) as Hv.
  assert (e_lim e ≠ a) as Hane.
  { destruct Hk1e as [H1|[_ _]]; [by eapply Hother|]. clear -Ea He Hk Hne Hh Hv k1. 
    revert Ea. unfold limiterFor. fold k1. destruct (k_entries k1 !! key) as [e2|] eqn:E2.
    - intros [= <- _]. intros Heq. apply Hne. eapply (ko_inj k Hk); [done| |done].
      subst k1. destruct (IdleTtl <? now - k_swept k); [|done]. by apply map_lookup_filter_Some in E2 as [? _].
    - case_match; intros [= <- _].
      + replace (k_overflow k1) with (k_overflow k) by (subst k1; by case_match). by eapply (ko_own k Hk).
      + rewrite Hh. lia. }
  rewrite Hc, Hheap by (try congruence; done). split; [done|].
  intros Hidle. rewrite He', Hent by done. destruct Hk1e as [?|[_ ?]]; [done|lia].
Qed.
End Keyed.

(** ** A concrete bucket: [burst] tokens and no refill *)

Definition countingLib : RateLib :=
  {| Limiter := Z; NewLimiter := λ _ b, b; AllowN := λ l _ n, if n <=? l then (true, l - n) else (false, l) |}.

Definition three_calls : list bool * @Keyed countingLib :=
  Allow_all (RL := countingLib) (NewKeyed 1 1 1 0) [("a"%string, 1); ("b"%string, 2); ("a"%string, 3)].

Lemma Keyed_bounded_and_separate_witness :
  three_calls.1 = [true; true; false] ∧ Z.of_nat (size (k_entries three_calls.2)) ≤ 1.
Proof.
  split; [vm_compute; done|].
  apply (Keyed_bounded_and_separate (RL := countingLib) 1 1 1 0 [("a"%string, 1); ("b"%string, 2); ("a"%string, 3)] three_calls.1);
    [lia|vm_compute; reflexivity].
Defined.

Lemma Keyed_isolated_witness :
  let k := (Allow (RL := countingLib) (NewKeyed 1 5 9 0) "a" 1).2 in
  k_heap (Allow k "b" 2).2 !! 1%nat = k_heap k !! 1%nat.
Proof.
  intros k. 
  apply (Keyed_isolated (RL := countingLib) k "b" "a" (mkEntry 1 1) 2 (Allow k "b" 2).1 (Allow k "b" 2).2).
  - subst k. destruct (Allow (NewKeyed 1 5 9 0) "a" 1) as [b k'] eqn:E. simpl.
    apply (Allow_ok (NewKeyed 1 5 9 0) "a" 1 b k'); [apply NewKeyed_ok|done].
  - done.
  - vm_compute. reflexivity.
  - vm_compute. reflexivity.
Defined.
