(* ===== verification/MemberCache.v ===== *)
(** * The roster cache of the message service ([internal/service/message/members.go])

    A per-node cache of group rosters with a time to live and a size cap. Each method runs under
    the cache's mutex, so it is one atomic step; the slices it stores and returns are clones. *)

From S2P Require Import Prelude.

Local Open Scope Z_scope.

Definition memberCacheMax : Z := 10000.

Record memberEntry := mkMemberEntry { me_ids : list string; me_expires : Z }.

Record memberCache := mkMemberCache { mc_ttl : Z; mc_entries : gmap string memberEntry }.

Definition newMemberCache (ttl : Z) : memberCache := mkMemberCache ttl ∅.

Definition mc_with (c : memberCache) es := mkMemberCache (mc_ttl c) es.

Definition mc_get (c : memberCache) (groupId : string) (now : Z) : option (list string) * memberCache :=
  if mc_ttl c <=? 0 then (None, c)
  else
    match mc_entries c !! groupId with
    | Some e =>
        if After now (me_expires e) then (None, mc_with c (delete groupId (mc_entries c)))
        else (Some (me_ids e), c)
    | None => (None, mc_with c (delete groupId (mc_entries c)))
    end.

(** [now1] is the clock of the eviction, [now2] the one of the new entry's expiry. *)
Definition mc_set (c : memberCache) (groupId : string) (ids : list string) (now1 now2 : Z) : memberCache :=
  if mc_ttl c <=? 0 then c
  else
    let es :=
      if memberCacheMax <=? Z.of_nat (size (mc_entries c)) then
        let live := filter (λ ke : string * memberEntry, ¬ (me_expires ke.2 < now1)) (mc_entries c) in
        if memberCacheMax <=? Z.of_nat (size live) then ∅ else live
      else mc_entries c in
    mc_with c (<[groupId := mkMemberEntry ids (now2 + mc_ttl c)]> es).

Definition mc_invalidate (c : memberCache) (groupId : string) : memberCache :=
  mc_with c (delete groupId (mc_entries c)).

Inductive mc_op : Type :=
| McGet (groupId : string) (now : Z)
| McSet (groupId : string) (ids : list string) (now1 now2 : Z)
| McInvalidate (groupId : string).

Definition mc_step (c : memberCache) (o : mc_op) : memberCache :=
  match o with
  | McGet g now => (mc_get c g now).2
  | McSet g ids n1 n2 => mc_set c g ids n1 n2
  | McInvalidate g => mc_invalidate c g
  end.

Definition mc_ok (c : memberCache) : Prop := Z.of_nat (size (mc_entries c)) ≤ memberCacheMax.

Lemma mc_delete_size (c : memberCache) g : (size (delete g (mc_entries c)) ≤ size (mc_entries c))%nat.
Proof. apply map_subseteq_size, delete_subseteq. Qed.

Lemma mc_step_ok c o : mc_ok c → mc_ok (mc_step c o).
Proof.
  unfold mc_ok. intros H. destruct o as [g now|g ids n1 n2|g]; simpl.
  - unfold mc_get. destruct (mc_ttl c <=? 0); [done|].
    destruct (mc_entries c !! g) as [e|]; [destruct (After now (me_expires e)); [|done]|]; simpl;
      pose proof (mc_delete_size c g); lia.
  - unfold mc_set. destruct (mc_ttl c <=? 0); [done|]. unfold mc_with. cbn [mc_entries].
    assert (∀ es : gmap string memberEntry, Z.of_nat (size es) < memberCacheMax →
      Z.of_nat (size (<[g := mkMemberEntry ids (n2 + mc_ttl c)]> es)) ≤ memberCacheMax) as Hi.
    { intros es Hes. rewrite map_size_insert. case_match; cbn [id]; lia. }
    destruct (Z.leb_spec memberCacheMax (Z.of_nat (size (mc_entries c)))); [|by apply Hi].
    destruct (Z.leb_spec memberCacheMax (Z.of_nat (size (filter (λ ke : string * memberEntry, ¬ (me_expires ke.2 < n1)) (mc_entries c)))));
      apply Hi; [|done]. by rewrite map_size_empty.
  - pose proof (mc_delete_size c g). unfold mc_invalidate. simpl. lia.
Qed.

(** The roster cache never holds more than 10000 groups, whatever sequence of calls it sees. *)
Lemma memberCache_bounded ttl ops :
  Z.of_nat (size (mc_entries (foldl mc_step (newMemberCache ttl) ops))) ≤ memberCacheMax.
Proof.
  assert (∀ c, mc_ok c → mc_ok (foldl mc_step c ops)) as H.
  { induction ops as [|o ops IH]; intros c Hc; simpl; [done|]. apply IH. by apply mc_step_ok. }
  apply H. unfold mc_ok. simpl. by rewrite map_size_empty.
Qed.

(** After [set], [get] returns the roster until the time to live has passed since the set,
    and nothing afterwards or after [invalidate]. *)
Lemma memberCache_get_set c g ids n1 n2 now :
  0 < mc_ttl c →
  (now ≤ n2 + mc_ttl c → (mc_get (mc_set c g ids n1 n2) g now).1 = Some ids) ∧
  (n2 + mc_ttl c < now → (mc_get (mc_set c g ids n1 n2) g now).1 = None) ∧
  (mc_get (mc_invalidate (mc_set c g ids n1 n2) g) g now).1 = None.
Proof.
  intros Ht. unfold mc_get, mc_invalidate, mc_set, After.
  replace (mc_ttl c <=? 0) with false by (symmetry; lia). simpl.
  replace (mc_ttl c <=? 0) with false by (symmetry; lia).
  rewrite lookup_insert_eq, lookup_delete_eq. simpl.
  split_and!; [intros H; by replace (n2 + mc_ttl c <? now) with false by (symmetry; lia)
              |intros H; by replace (n2 + mc_ttl c <? now) with true by (symmetry; lia)|done].
Qed.

Lemma memberCache_get_set_witness :
  (mc_get (mc_set (newMemberCache 30) "g" ["u___1"; "u___2"]%string 0 5) "g" 20).1 = Some ["u___1"; "u___2"]%string.
Proof. apply (memberCache_get_set (newMemberCache 30) "g" ["u___1"; "u___2"]%string 0 5 20); simpl; lia. Defined.
