(* ===== verification/World.v ===== *)
(** * The shared world of the nodes: DTOs, bus events, clocks, faults and transactions

    Any number of nodes serve requests over one database and one event bus. The world holds the
    database, the state each node keeps in memory, the events published on the bus and the offline
    pushes handed to the webhook. A tick counts the effects so far and indexes the clocks, fresh
    ids and faults of the environment [Env], all arbitrary: clocks may go backwards or
    differ between nodes, ids may collide, and any store call, commit or publish may fail before or
    after it took effect. *)

From S2P Require Import Prelude Errcode Strconv Identity Json Store PgStore Conv Conc RateLimit MemberCache.

Local Open Scope Z_scope.

(** ** DTOs ([internal/service/dto/message.go]) *)

Record DtoMessage := mkDtoMessage {
  D_ServerMsgId : string; D_ClientMsgId : string; D_ConversationId : string; D_Seq : Z; D_SessionType : Z;
  D_SenderId : string; D_RecvId : string; D_GroupId : string; D_ContentType : Z; D_Content : string; D_SendTime : Z }.

Definition MessageFromStore (m : Message) : DtoMessage :=
  mkDtoMessage (Msg_ServerMsgId m) (Msg_ClientMsgId m) (Msg_ConversationId m) (Msg_Seq m) (Msg_SessionType m)
    (Msg_SenderId m) (Msg_RecvId m) (Msg_GroupId m) (Msg_ContentType m) (Msg_Content m) (UnixMilli (Msg_SendTime m)).

Record SendRequest := mkSendRequest {
  SR_ClientMsgId : string; SR_SessionType : Z; SR_RecvId : string; SR_GroupId : string;
  SR_ContentType : Z; SR_Content : string; SR_SenderRead : option bool }.

Definition SenderReadFor (r : SendRequest) (internal : bool) : bool :=
  match SR_SenderRead r with Some b => b | None => negb internal end.

(** ** Events *)

(** [message.PushEvent]. *)
Record PushEvent := mkPushEvent {
  PE_ConversationId : string; PE_SessionType : Z; PE_SenderId : string; PE_SenderConnId : string;
  PE_RecvId : string; PE_GroupId : string; PE_Message : DtoMessage }.

(** [message.PushPayload]; [PP_Msg = None] is the nil pointer of a reference. *)
Record PushPayload := mkPushPayload {
  PP_ConversationId : string; PP_Seq : Z; PP_SessionType : Z; PP_SenderId : string; PP_SenderConnId : string;
  PP_RecvId : string; PP_GroupId : string; PP_Ref : bool; PP_Msg : option DtoMessage }.

(** [conversation.ReadEvent]. *)
Record ReadEvent := mkReadEvent {
  RE_UserId : string; RE_ReaderConnId : string; RE_ConversationId : string; RE_ReadSeq : Z }.

(** [bus.Event] with its payload decoded. *)
Inductive BusPayload : Type :=
| TypePush (p : PushPayload)
| TypeKick (UserId : string) (PlatformId : Z) (KeepTokenId : string)
| TypeGroupChanged (GroupId : string)
| TypeConvRead (e : ReadEvent)
| TypePresenceChanged (UserIds : list string).

Record BusEvent := mkBusEvent { BE_NodeId : string; BE_Payload : BusPayload }.

Definition MaxPayloadBytes : Z := 7500.

(** [json.Marshal] of the two structs. *)
Definition marshal_message (m : DtoMessage) : option string :=
  fields [field_string "server_msg_id" (D_ServerMsgId m); field_string "client_msg_id" (D_ClientMsgId m);
    field_string "conversation_id" (D_ConversationId m); field_int "seq" (D_Seq m);
    field_int "session_type" (D_SessionType m); field_string "sender_id" (D_SenderId m);
    field_string_omitempty "recv_id" (D_RecvId m); field_string_omitempty "group_id" (D_GroupId m);
    field_int "content_type" (D_ContentType m); field_string "content" (D_Content m); field_int "send_time" (D_SendTime m)].

Definition marshal_push (p : PushPayload) : option string :=
  fields [field_string "conversation_id" (PP_ConversationId p); field_int "seq" (PP_Seq p);
    field_int "session_type" (PP_SessionType p); field_string "sender_id" (PP_SenderId p);
    field_string_omitempty "sender_conn_id" (PP_SenderConnId p); field_string_omitempty "recv_id" (PP_RecvId p);
    field_string_omitempty "group_id" (PP_GroupId p);
    (if PP_Ref p then Some [("ref", write_bool true)] else Some []);
    match PP_Msg p with
    | None => Some []
    | Some m => match marshal_message m with Some s => Some [("msg"%string, s)] | None => None end
    end].

(** [offlinepush.Notification]. *)
Record Notification := mkNotification {
  N_ConversationId : string; N_Seq : Z; N_SessionType : Z; N_SenderId : string; N_GroupId : string;
  N_ContentType : Z; N_Content : string; N_SendTime : Z }.

Definition EventId (n : Notification) : string := N_ConversationId n +:+ ":" +:+ FormatInt (N_Seq n).

(** ** Environment *)

Inductive Fault : Type := NoFault | FailBefore (msg : string) | FailAfter (msg : string).

Class Env := {
  clock : nat → Z;
  newV7 : nat → string;
  shortId : nat → string;
  fault : nat → Fault }.

(** [message.Config], [group.New]'s limit and the wiring of the services. *)
Record Config := mkConfig {
  MaxContentBytes : Z; MemberCacheTtl : Z; SendPerMin : Z; maxMembers : Z;
  hasOnline : bool; onlineTtl : Z; hasPusher : bool }.

(** ** The world *)

Section World.
Context `{RL : RateLib}.

(** What the message service of one node keeps: limiter, roster cache, the offline-push worker
    tokens in use, the pushes waiting for or running on a worker, and two counters. *)
Record Node := mkNode {
  n_sendLimit : Keyed; n_members : memberCache; n_pushSem : nat; n_pushJobs : list PushEvent;
  n_pushDropped : Z; n_republished : Z }.

(** [w_past] is a history variable: the states the database went through, oldest first. *)
Record World := mkWorld {
  w_db : Db; w_tick : nat; w_nodes : string → Node; w_bus : list BusEvent;
  w_pushes : list (list string * Notification); w_past : list Db }.

Definition w_set_db (w : World) (d : Db) (t : nat) : World :=
  mkWorld d t (w_nodes w) (w_bus w) (w_pushes w) (w_past w ++ [d]).
Definition w_set_tick (w : World) (t : nat) : World :=
  mkWorld (w_db w) t (w_nodes w) (w_bus w) (w_pushes w) (w_past w).
Definition w_set_node (w : World) (nd : string) (n : Node) : World :=
  mkWorld (w_db w) (S (w_tick w)) (λ x, if bool_decide (x = nd) then n else w_nodes w x) (w_bus w) (w_pushes w) (w_past w).
Definition w_add_bus (w : World) (e : BusEvent) : World :=
  mkWorld (w_db w) (S (w_tick w)) (w_nodes w) (w_bus w ++ [e]) (w_pushes w) (w_past w).
Definition w_add_push (w : World) (p : list string * Notification) : World :=
  mkWorld (w_db w) (S (w_tick w)) (w_nodes w) (w_bus w) (w_pushes w ++ [p]) (w_past w).

Definition n_set_limit (n : Node) k := mkNode k (n_members n) (n_pushSem n) (n_pushJobs n) (n_pushDropped n) (n_republished n).
Definition n_set_members (n : Node) c := mkNode (n_sendLimit n) c (n_pushSem n) (n_pushJobs n) (n_pushDropped n) (n_republished n).
Definition n_set_push (n : Node) s j := mkNode (n_sendLimit n) (n_members n) s j (n_pushDropped n) (n_republished n).
Definition n_set_dropped (n : Node) x := mkNode (n_sendLimit n) (n_members n) (n_pushSem n) (n_pushJobs n) x (n_republished n).
Definition n_set_republished (n : Node) x := mkNode (n_sendLimit n) (n_members n) (n_pushSem n) (n_pushJobs n) (n_pushDropped n) x.

Abbreviation M := (prog World).

Context `{EN : Env}.

(** [time.Now()]. *)
Definition getNow : M Z := act (λ w, (clock (w_tick w), w_set_tick w (S (w_tick w)))).

(** [store.NowMs()]. *)
Definition getNowMs : M Z := act (λ w, (NowMs (clock (w_tick w)), w_set_tick w (S (w_tick w)))).

Definition genV7 : M string := act (λ w, (newV7 (w_tick w), w_set_tick w (S (w_tick w)))).

Definition genShortId : M string := act (λ w, (shortId (w_tick w), w_set_tick w (S (w_tick w)))).

(** A store call outside a transaction is one statement. *)
Definition call_step {A} (op : Op A) (w : World) : result A * World :=
  match fault (w_tick w) with
  | NoFault => let '(r, d) := op (w_db w) in (r, w_set_db w d (S (w_tick w)))
  | FailBefore m => (Err (EOther m), w_set_tick w (S (w_tick w)))
  | FailAfter m => (Err (EOther m), w_set_db w (op (w_db w)).2 (S (w_tick w)))
  end.

Definition call {A} (op : Op A) : M (result A) := act (call_step op).

(** A step on the state of one node. *)
Definition node_step {A} (nd : string) (f : Node → A * Node) : M A :=
  act (λ w, let '(a, n) := f (w_nodes w nd) in (a, w_set_node w nd n)).

(** [bus.Publish]: the error says nothing about delivery. *)
Definition bus_step (e : BusEvent) (w : World) : err * World :=
  match fault (w_tick w) with
  | NoFault => (None, w_add_bus w e)
  | FailBefore m => (Some (EOther m), w_set_tick w (S (w_tick w)))
  | FailAfter m => (Some (EOther m), w_add_bus w e)
  end.

Definition busPublish (e : BusEvent) : M err := act (bus_step e).

(** [Pusher.Push], the offline-push webhook. *)
Definition push_step (ids : list string) (n : Notification) (w : World) : err * World :=
  match fault (w_tick w) with
  | NoFault => (None, w_add_push w (ids, n))
  | FailBefore m => (Some (EOther m), w_set_tick w (S (w_tick w)))
  | FailAfter m => (Some (EOther m), w_add_push w (ids, n))
  end.

Definition pusherPush (ids : list string) (n : Notification) : M err := act (push_step ids n).

(** ** Transactions

    The body of a transaction runs on a snapshot [tx_db]; [tx_cap] holds the variables the closure
    captures, which keep their values when the transaction rolls back. *)

Record TxState (C : Type) := mkTx { tx_db : Db; tx_tick : nat; tx_cap : C }.
Arguments mkTx {C}. Arguments tx_db {C}. Arguments tx_tick {C}. Arguments tx_cap {C}.

Definition TxM (C A : Type) : Type := TxState C → result A * TxState C.

Definition tx_ret {C A} (a : A) : TxM C A := λ s, (Ok a, s).

Definition tx_fail {C A} (e : error) : TxM C A := λ s, (Err e, s).

Definition tx_bind {C A B} (m : TxM C A) (k : A → TxM C B) : TxM C B := λ s,
  match m s with
  | (Ok a, s') => k a s'
  | (Err e, s') => (Err e, s')
  end.

(** One statement; an error is an answer, not a stop. *)
Definition stmt {C A} (op : Op A) : TxM C (result A) := λ s,
  match fault (tx_tick s) with
  | NoFault => let '(r, d) := op (tx_db s) in (Ok r, mkTx d (S (tx_tick s)) (tx_cap s))
  | FailBefore m | FailAfter m => (Ok (Err (EOther m)), mkTx (tx_db s) (S (tx_tick s)) (tx_cap s))
  end.

(** [if err != nil { return err }]. *)
Definition tx_check {C A} (r : result A) : TxM C A := match r with Ok a => tx_ret a | Err e => tx_fail e end.

Definition exec {C A} (op : Op A) : TxM C A := tx_bind (stmt op) tx_check.

Definition tx_set {C} (c : C) : TxM C unit := λ s, (Ok tt, mkTx (tx_db s) (tx_tick s) c).

(** [Store.WithTx] ([pgstore/store.go]): begin, the body, commit on success, roll back on error. A
    commit that fails after it took effect reports an error all the same. The transactions of this
    program lock the conversation row first and touch only rows of that conversation,
    so a committed transaction is one atomic step of the world. *)
Definition tx_step {C} (c0 : C) (body : TxM C unit) (w : World) : (C * err) * World :=
  match fault (w_tick w) with
  | FailBefore m | FailAfter m => ((c0, Some (EWrap "pgstore: begin" (EOther m))), w_set_tick w (S (w_tick w)))
  | NoFault =>
      let '(r, s) := body (mkTx (w_db w) (S (w_tick w)) c0) in
      match r with
      | Err e => ((tx_cap s, Some e), w_set_tick w (S (tx_tick s)))
      | Ok _ =>
          match fault (tx_tick s) with
          | NoFault => ((tx_cap s, None), w_set_db w (tx_db s) (S (tx_tick s)))
          | FailBefore m => ((tx_cap s, Some (EOther m)), w_set_tick w (S (tx_tick s)))
          | FailAfter m => ((tx_cap s, Some (EOther m)), w_set_db w (tx_db s) (S (tx_tick s)))
          end
      end
  end.

Definition WithTx {C} (c0 : C) (body : TxM C unit) : M (C * err) := act (tx_step c0 body).

(** ** Transaction lemmas *)

(** What a committed transaction did: its body ran to the end on the database of that moment. *)
Lemma tx_step_inv {C} (c0 : C) body w c e w' :
  tx_step c0 body w = ((c, e), w') →
  (∃ t x, w' = w_set_tick w t ∧ e = Some x) ∨
  (∃ s t, body (mkTx (w_db w) (S (w_tick w)) c0) = (Ok tt, s) ∧ c = tx_cap s ∧
        w' = w_set_db w (tx_db s) t ∧ (e = None ∨ ∃ m, e = Some (EOther m))).
Proof.
  unfold tx_step. destruct (fault (w_tick w)); [|intros [= <- <- <-]; left; eauto..].
  destruct (body _) as [[[]|x] s] eqn:Eb.
  - destruct (fault (tx_tick s)); intros [= <- <- <-]; [right|left|right]; simpl; eauto 10.
  - intros [= <- <- <-]. left. simpl. eauto.
Qed.

Lemma stmt_inv {C A} (op : Op A) (s : TxState C) r s' :
  stmt op s = (r, s') →
  tx_cap s' = tx_cap s ∧
  ((r = Ok (op (tx_db s)).1 ∧ tx_db s' = (op (tx_db s)).2) ∨
   (∃ m, r = Ok (Err (EOther m)) ∧ tx_db s' = tx_db s)).
Proof.
  unfold stmt. destruct (fault (tx_tick s)); [|intros [= <- <-]; simpl; split; [done|]; right; eauto..].
  destruct (op (tx_db s)) as [r0 d]. intros [= <- <-]. simpl. eauto.
Qed.

(** A statement whose error ends the transaction, and that went through. *)
Lemma exec_Ok {C A} (op : Op A) (s : TxState C) a s' :
  exec op s = (Ok a, s') → op (tx_db s) = (Ok a, tx_db s') ∧ tx_cap s' = tx_cap s.
Proof.
  unfold exec, tx_bind. destruct (stmt op s) as [r s1] eqn:E. apply stmt_inv in E as [Hc E].
  destruct E as [[-> Hd]|(m & -> & Hd)].
  - destruct (op (tx_db s)) as [[a'|e] d]; simpl in *; intros [= -> ->]; by subst.
  - by intros [=].
Qed.

Lemma tx_bind_Ok {C A B} (m : TxM C A) (k : A → TxM C B) s b s' :
  tx_bind m k s = (Ok b, s') → ∃ a s1, m s = (Ok a, s1) ∧ k a s1 = (Ok b, s').
Proof. unfold tx_bind. destruct (m s) as [[a|e] s1]; [eauto|by intros [=]]. Qed.

Lemma call_step_inv {A} (op : Op A) w r w' :
  call_step op w = (r, w') →
  (∃ t, r = (op (w_db w)).1 ∧ w' = w_set_db w (op (w_db w)).2 t) ∨
  (∃ t m, r = Err (EOther m) ∧ (w' = w_set_tick w t ∨ w' = w_set_db w (op (w_db w)).2 t)).
Proof.
  unfold call_step. destruct (fault (w_tick w)).
  - destruct (op (w_db w)) as [r0 d]. intros [= <- <-]. simpl. eauto 10.
  - intros [= <- <-]. simpl. eauto 10.
  - intros [= <- <-]. simpl. eauto 10.
Qed.
End World.

Arguments mkTx {C}. Arguments tx_db {C}. Arguments tx_tick {C}. Arguments tx_cap {C}.

Declare Scope tx_scope.
Delimit Scope tx_scope with tx.
Notation "x <- m ;; k" := (tx_bind m (λ x, k)) (at level 100, m at next level, right associativity) : tx_scope.
Notation "m ;; k" := (tx_bind m (λ _, k)) (at level 100, right associativity) : tx_scope.
