(* ===== verification/OnlineStore.v ===== *)
(** * The connection registry ([internal/onlinestore], driver [internal/onlinestore/db])

    Rows of [online_conns] with a heartbeat; a row older than the time to live does not count. *)

From S2P Require Import Prelude Errcode Strconv Store PgStore Conc RateLimit World.

Local Open Scope Z_scope.

Record ConnRef := mkConnRef { CR_UserId : string; CR_PlatformId : Z; CR_ConnId : string }.

(** A slice of a map of slices: absent is nil. *)
Definition platforms (byUser : gmap string (list Z)) (id : string) : list Z := default [] (byUser !! id).

(** One row of [Online]: the platform is added once. *)
Definition addPlatform (out : gmap string (list Z)) (r : OnlineConn) : gmap string (list Z) :=
  if bool_decide (OC_PlatformId r ∈ platforms out (OC_UserId r)) then out
  else <[OC_UserId r := platforms out (OC_UserId r) ++ [OC_PlatformId r]]> out.

Definition renewChunk : nat := 500.

Section OnlineDb.
Context `{RL : RateLib} `{EN : Env}.
Variable cfg : Config.

Definition OnlineAdd (nodeId : string) (c : ConnRef) : prog World err :=
  now ← getNowMs;
  r ← call (UpsertOnlineConn (mkOnlineConn (CR_ConnId c) (CR_UserId c) (i32 (CR_PlatformId c)) nodeId now));
  mret (match r with Ok _ => None | Err e => Some e end).

Definition OnlineRemove (c : ConnRef) : prog World err :=
  r ← call (DeleteOnlineConn (CR_ConnId c));
  mret (match r with Ok _ => None | Err e => Some e end).

Fixpoint renewChunks (nodeId : string) (now : Z) (chunks : list (list string)) : prog World err :=
  match chunks with
  | [] => mret None
  | chunk :: rest =>
      r ← call (RenewOnlineConns nodeId chunk now);
      match r with
      | Err e => mret (Some e)
      | Ok _ => renewChunks nodeId now rest
      end
  end.

(** The revived connections are always none for this driver. *)
Definition OnlineRenew (nodeId : string) (conns : list ConnRef) : prog World (result (list ConnRef)) :=
  now ← getNowMs;
  e ← renewChunks nodeId now (Chunk renewChunk (map CR_ConnId conns));
  mret (match e with Some e => Err e | None => Ok [] end).

Definition Online (userIds : list string) : prog World (result (gmap string (list Z))) :=
  now ← getNowMs;
  r ← call (ListOnlineConns userIds (now - onlineTtl cfg));
  mret (match r with Ok cs => Ok (foldl addPlatform ∅ cs) | Err e => Err e end).

Definition PurgeNode (nodeId : string) : prog World err :=
  r ← call (DeleteOnlineConnsByNode nodeId);
  mret (match r with Ok _ => None | Err e => Some e end).
End OnlineDb.

(** The platforms of a user are those of its live rows, each once. *)
Lemma platforms_spec cs out id :
  (∀ u, NoDup (platforms out u)) →
  NoDup (platforms (foldl addPlatform out cs) id) ∧
  ∀ p, p ∈ platforms (foldl addPlatform out cs) id ↔
    p ∈ platforms out id ∨ ∃ r, r ∈ cs ∧ OC_UserId r = id ∧ OC_PlatformId r = p.
Proof.
  revert out. induction cs as [|r cs IH]; intros out Hnd; simpl; [split; [done|]; set_solver|].
  assert (∀ u, NoDup (platforms (addPlatform out r) u) ∧ ∀ p, p ∈ platforms (addPlatform out r) u ↔
    p ∈ platforms out u ∨ OC_UserId r = u ∧ OC_PlatformId r = p) as H1.
  { intros u. unfold addPlatform. case_bool_decide as Hin; [split; [done|]; intros p; naive_solver|].
    unfold platforms at 1 3. destruct (decide (OC_UserId r = u)) as [<-|Hne].
    - rewrite lookup_insert_eq. simpl. split; [|intros p; rewrite elem_of_app, list_elem_of_singleton; naive_solver].
      apply NoDup_app. split_and!; [done| |apply NoDup_singleton]. intros x Hx Hx'. apply list_elem_of_singleton in Hx'. by subst.
    - rewrite lookup_insert_ne by done. split; [apply Hnd|]. unfold platforms. naive_solver. }
  destruct (IH (addPlatform out r)) as [Hn Hp]; [intros u; apply H1|]. split; [done|]. intros p. rewrite Hp.
  destruct (H1 id) as [_ H]. rewrite H. setoid_rewrite elem_of_cons. naive_solver.
Qed.
