(* ===== verification/ConvPage.v ===== *)
(** * Paging the conversation list ([internal/service/conv/page.go]) *)

From S2P Require Import Prelude Errcode Strconv Identity Json Store PgStore Conv Conc RateLimit MemberCache World.

Local Open Scope Z_scope.

Definition InvalidParam (m : string) : error := WithMessage ErrInvalidParam m.

(** The page size asked for, within [1 .. max(pageMax, 1)]. *)
Definition clampLimit (limit pageMax : Z) : Z :=
  let pageMax := Z.max pageMax 1 in
  if (limit <=? 0) || (pageMax <? limit) then pageMax else limit.

Section ListPage.
Context `{RL : RateLib} `{EN : Env}.

Definition ListPage (userId cursor : string) (limit pageMax : Z)
  : prog World (result (list UserConversationRow * string * bool)) :=
  match DecodeCursor cursor with
  | None => mret (Err (InvalidParam "bad cursor"))
  | Some cur =>
      let limit := clampLimit limit pageMax in
      r ← call (ListUserConversations userId cur (i64 (limit + 1)));
      mret (match r with
      | Err e => Err (Wrap ErrStoreFailed (Some e))
      | Ok rows =>
          if Z.of_nat (length rows) <=? limit then Ok (rows, ""%string, false)
          else
            let rows := take (Z.to_nat limit) rows in
            match last rows with
            | Some l =>
                Ok (rows, EncodeCursor (mkListCursor (UC_UpdatedAt (Row_UC l)) (UC_ConversationId (Row_UC l))), true)
            | None => Ok (rows, ""%string, false)
            end
      end)
  end.
End ListPage.

Lemma clampLimit_range limit pageMax : 1 ≤ clampLimit limit pageMax ≤ Z.max pageMax 1.
Proof. unfold clampLimit. destruct (Z.leb_spec limit 0), (Z.ltb_spec (Z.max pageMax 1) limit); simpl; lia. Qed.
