(* ===== verification/MessageSvc.v ===== *)
(** * The message service ([internal/service/message])

    Sending with per-conversation sequence numbers and idempotent retries, pulling history,
    recipients of a push, and background offline pushes. *)

From S2P Require Import Prelude Errcode Strconv Identity Json Store PgStore Conv Conc RateLimit MemberCache World OnlineStore ConvPage.

Local Open Scope Z_scope.

(** ** msgbody content types ([msgbody/msgbody.go]) *)

Definition ValidType (t : Z) : bool :=
  (t =? 1) || (t =? 2) || (t =? 3) || (t =? 4) || (t =? 5) || (t =? 100).

Definition offlinePushWorkers : nat := 64.

Definition maxTrackedSenders : Z := 100000.

Record Ack := mkAck { Ack_ServerMsgId : string; Ack_ConversationId : string; Ack_Seq : Z; Ack_SendTime : Z }.

Record SendInput := mkSendInput {
  SI_SenderId : string; SI_SenderConnId : string; SI_ClientMsgId : string; SI_SessionType : Z;
  SI_RecvId : string; SI_GroupId : string; SI_ContentType : Z; SI_Content : string;
  SI_SenderRead : bool; SI_Unlimited : bool }.

Definition SI_set_dest (i : SendInput) (recvId groupId : string) : SendInput :=
  mkSendInput (SI_SenderId i) (SI_SenderConnId i) (SI_ClientMsgId i) (SI_SessionType i) recvId groupId
    (SI_ContentType i) (SI_Content i) (SI_SenderRead i) (SI_Unlimited i).

Definition ack (m : Message) : Ack :=
  mkAck (Msg_ServerMsgId m) (Msg_ConversationId m) (Msg_Seq m) (UnixMilli (Msg_SendTime m)).

Definition validate (maxContent : Z) (i : SendInput) : err :=
  if (SI_ClientMsgId i =? "")%string || (64 <? len (SI_ClientMsgId i)) then
    Some (InvalidParam "client_msg_id: 1-64 bytes")
  else if negb (TrimRightSpace (SI_ClientMsgId i) =? SI_ClientMsgId i)%string then
    Some (InvalidParam "client_msg_id must not end in whitespace")
  else if (SI_SessionType i =? ConversationSingle) && negb (Valid (SI_RecvId i)) then
    Some (InvalidParam "recv_id is required for single chat")
  else if (SI_SessionType i =? ConversationSingle) && (SI_RecvId i =? SI_SenderId i)%string then
    Some (InvalidParam "cannot message yourself")
  else if (SI_SessionType i =? ConversationGroup) && (SI_GroupId i =? "")%string then
    Some (InvalidParam "group_id is required for group chat")
  else if negb (SI_SessionType i =? ConversationSingle) && negb (SI_SessionType i =? ConversationGroup) then
    Some (InvalidParam "session_type must be 1 or 2")
  else if negb (ValidType (SI_ContentType i)) then Some (InvalidParam "unknown content_type")
  else if maxContent <? len (SI_Content i) then Some ErrMessageContentTooLong
  else if negb (IsValid (SI_Content i)) then Some (InvalidParam "content must be a JSON value")
  else None.

(** [checkGroupSend] runs on the store or on a transaction: [getMember] is the lookup of either. *)
Definition checkGroupSend {F : Type → Type} `{!MRet F, !MBind F}
    (getMember : string → string → F (result GroupMember)) (g : Group) (userId : string) : F err :=
  if Group_Status g =? GroupStatusDismissed then mret (Some ErrGroupDismissed)
  else
    r ← getMember (Group_Id g) userId;
    mret (match r with
    | Ok _ => None
    | Err e => if Is e store_ErrNotFound then Some ErrNotGroupMember else Some e
    end).

#[export] Instance TxM_mret {C} : MRet (TxM C) := λ A, tx_ret.
#[export] Instance TxM_mbind {C} : MBind (TxM C) := λ A B k m, tx_bind m k.

(** [if err := ...; err != nil { return err }] in a transaction. *)
Definition tx_err {C} (e : err) : TxM C unit := match e with None => tx_ret tt | Some e => tx_fail e end.

Section Message.
Context `{RL : RateLib} `{EN : Env}.
Variable cfg : Config.

(** [message.New]. *)
Definition newNode (now : Z) : Node :=
  mkNode (NewKeyed (QArith_base.Qmake (SendPerMin cfg) 60) (SendPerMin cfg) maxTrackedSenders now)
    (newMemberCache (MemberCacheTtl cfg)) 0 [] 0 0.

(** The transaction of [Send]. *)

Definition checkMembership {C} (groupId userId : string) : TxM C unit := (
  g <- exec (GetGroup groupId) ;;
  e <- checkGroupSend (λ g u, stmt (GetGroupMember g u)) g userId ;;
  tx_err e)%tx.

Definition touchConversations {C} (i : SendInput) (conv : string) (seq now : Z) : TxM C unit :=
  let senderRead := Ternary (SI_SenderRead i) seq 0 in
  if SI_SessionType i =? ConversationSingle then (
    exec (TouchUserConversation (mkUC (SI_SenderId i) conv (SI_SessionType i) (SI_RecvId i) "" 0 0 0 0 false "" now zeroTime) senderRead) ;;
    exec (TouchUserConversation (mkUC (SI_RecvId i) conv (SI_SessionType i) (SI_SenderId i) "" 0 0 0 0 false "" now zeroTime) 0))%tx
  else (
    exec (TouchConversationMembers conv now) ;;
    if senderRead =? 0 then tx_ret tt else exec (AdvanceReadSeq (SI_SenderId i) conv senderRead))%tx.

Definition Msg_set (m : Message) (seq sendTime : Z) : Message :=
  mkMessage (Msg_ConversationId m) seq (Msg_ServerMsgId m) (Msg_ClientMsgId m) (Msg_SenderId m) (Msg_RecvId m)
    (Msg_GroupId m) (Msg_SessionType m) (Msg_ContentType m) (Msg_Content m) sendTime sendTime.

(** The message before its seq and time are known. *)
Definition draft (i : SendInput) (conversationId serverMsgId : string) : Message :=
  mkMessage conversationId 0 serverMsgId (SI_ClientMsgId i) (SI_SenderId i) (SI_RecvId i) (SI_GroupId i)
    (SI_SessionType i) (SI_ContentType i) (SI_Content i) zeroTime zeroTime.

(** The closure captures [duplicate] and [msg]. *)
Definition sendTx (i : SendInput) (conversationId : string) (now : Z) (msg : Message) : TxM (bool * Message) unit := (
  c <- exec (LockConversation conversationId (SI_SessionType i) (SI_GroupId i) now) ;;
  (if SI_SessionType i =? ConversationGroup then checkMembership (SI_GroupId i) (SI_SenderId i) else tx_ret tt) ;;
  let now := Ternary (After (Conv_UpdatedAt c) now) (Conv_UpdatedAt c) now in
  let msg := Msg_set msg (i64 (Conv_MaxSeq c + 1)) now in
  tx_set (false, msg) ;;
  inserted <- exec (InsertMessage msg) ;;
  if negb inserted then (tx_set (true, msg) ;; tx_fail (ESentinel message_errRollback))
  else (
    exec (SetConversationMaxSeq conversationId (Msg_Seq msg) now) ;;
    touchConversations i conversationId (Msg_Seq msg) now))%tx.

Variable nd : string.

(** [busPublisher.Publish]: inline when the payload fits the bus, by reference otherwise. *)
Definition pushPayload (ev : PushEvent) : option PushPayload :=
  let p := mkPushPayload (PE_ConversationId ev) (D_Seq (PE_Message ev)) (PE_SessionType ev) (PE_SenderId ev)
             (PE_SenderConnId ev) (PE_RecvId ev) (PE_GroupId ev) false (Some (PE_Message ev)) in
  match marshal_push p with
  | None => None
  | Some raw =>
      if MaxPayloadBytes <? len raw then
        let p' := mkPushPayload (PP_ConversationId p) (PP_Seq p) (PP_SessionType p) (PP_SenderId p)
                    (PP_SenderConnId p) (PP_RecvId p) (PP_GroupId p) true None in
        match marshal_push p' with Some _ => Some p' | None => None end
      else Some p
  end.

Definition Publish (ev : PushEvent) : prog World unit :=
  match pushPayload ev with
  | Some p => _ ← busPublish (mkBusEvent nd (TypePush p)); mret tt
  | None => mret tt
  end.

Definition pushEvent (msg : Message) (senderConnId : string) : PushEvent :=
  mkPushEvent (Msg_ConversationId msg) (Msg_SessionType msg) (Msg_SenderId msg) senderConnId
    (Msg_RecvId msg) (Msg_GroupId msg) (MessageFromStore msg).

Definition publish (msg : Message) (senderConnId : string) : prog World PushEvent :=
  let ev := pushEvent msg senderConnId in
  _ ← Publish ev; mret ev.

Definition republish (msg : Message) (senderConnId : string) : prog World unit :=
  _ ← node_step nd (λ n, (tt, n_set_republished n (i64 (n_republished n + 1))));
  _ ← publish msg senderConnId; mret tt.

Definition storeGetMember (g u : string) : prog World (result GroupMember) := call (GetGroupMember g u).

(** [g] is the group row [normalizeDestination] read, nil for a single chat. *)
Definition republishAllowed (i : SendInput) (g : option Group) : prog World bool :=
  if negb (SI_SessionType i =? ConversationGroup) then mret true
  else match g with
  | None => mret false
  | Some g => e ← checkGroupSend storeGetMember g (SI_SenderId i);
              mret (match e with None => true | Some _ => false end)
  end.

(** [sendLimit.Allow]. *)
Definition sendAllow (key : string) (now : Z) : prog World bool :=
  a ← node_step nd (λ n, let '(a, k) := Allow_find (n_sendLimit n) key now in (a, n_set_limit n k));
  node_step nd (λ n, let '(b, k) := Allow_take (n_sendLimit n) a now in (b, n_set_limit n k)).

(** The conversation, the group row and the input with the stored spelling. *)
Definition normalizeDestination (i : SendInput) : prog World (result (string * option Group * SendInput)) :=
  if SI_SessionType i =? ConversationSingle then
    r ← call (GetUser (SI_RecvId i));
    mret (match r with
    | Err e => if Is e store_ErrNotFound then Err ErrUserNotFound else Err (Wrap ErrStoreFailed (Some e))
    | Ok u => let i := SI_set_dest i (User_Id u) "" in Ok (Single (SI_SenderId i) (SI_RecvId i), None, i)
    end)
  else
    r ← call (GetGroup (SI_GroupId i));
    mret (match r with
    | Err e => if Is e store_ErrNotFound then Err ErrGroupNotFound else Err (Wrap ErrStoreFailed (Some e))
    | Ok g => let i := SI_set_dest i "" (Group_Id g) in Ok (GroupConv (SI_GroupId i), Some g, i)
    end).

(** [spawnOfflinePush]: a token of the semaphore or nothing. *)
Definition spawnOfflinePush (ev : PushEvent) : prog World unit :=
  node_step nd (λ n,
    (tt, if (n_pushSem n <? offlinePushWorkers)%nat then n_set_push n (S (n_pushSem n)) (n_pushJobs n ++ [ev])
         else n_set_dropped n (i64 (n_pushDropped n + 1)))).

Definition republishRetry (i : SendInput) (group : option Group) (m : Message) : prog World unit :=
  ok ← republishAllowed i group;
  if ok : bool then
    allowed ← (if SI_Unlimited i then mret true else now ← getNowMs; sendAllow (SI_SenderId i) now);
    if allowed : bool then republish m (SI_SenderConnId i) else mret tt
  else mret tt.

(** After the transaction: [duplicate], [msg] and its error. *)
Definition sendFinish (i : SendInput) (conversationId : string) (duplicate : bool) (msg : Message) (e : err) : prog World (result Ack) :=
  if duplicate then
    r ← call (GetMessageByClientId conversationId (SI_SenderId i) (SI_ClientMsgId i));
    match r with
    | Err e => mret (if Is e store_ErrNotFound then Err (Wrap ErrSeqAllocFailed (Some e)) else Err (Wrap ErrStoreFailed (Some e)))
    | Ok m => _ ← republish m (SI_SenderConnId i); mret (Ok (ack m))
    end
  else match e with
  | Some e => mret (Err (Or e ErrMessageSendFailed))
  | None =>
      ev ← publish msg (SI_SenderConnId i);
      _ ← (if hasPusher cfg then spawnOfflinePush ev else mret tt);
      mret (Ok (ack msg))
  end.

(** The transaction of a send and what follows it. *)
Definition sendCommit (i : SendInput) (conversationId : string) (now : Z) : prog World (result Ack) :=
  id ← genV7;
  let msg := draft i conversationId id in
  r ← WithTx (false, msg) (sendTx i conversationId now msg);
  let '((duplicate, msg), e) := r in sendFinish i conversationId duplicate msg e.

(** The send proper, after the idempotency lookup found nothing. *)
Definition sendNew (i : SendInput) (conversationId : string) : prog World (result Ack) :=
  now ← getNowMs;
  allowed ← (if SI_Unlimited i then mret true else sendAllow (SI_SenderId i) now);
  if negb allowed then mret (Err (WithMessage ErrTooManyRequests "message send rate limit"))
  else sendCommit i conversationId now.

Definition Send (i : SendInput) : prog World (result Ack) :=
  match validate (MaxContentBytes cfg) i with
  | Some e => mret (Err e)
  | None =>
      r ← normalizeDestination i;
      match r with
      | Err e => mret (Err e)
      | Ok (conversationId, group, i) =>
          r ← call (GetMessageByClientId conversationId (SI_SenderId i) (SI_ClientMsgId i));
          match r with
          | Ok m => _ ← republishRetry i group m; mret (Ok (ack m))
          | Err e =>
              if Is e store_ErrNotFound then sendNew i conversationId
              else mret (Err (Wrap ErrStoreFailed (Some e)))
          end
      end
  end.

(** ** Reading *)

Record PullInput := mkPullInput {
  PI_UserId : string; PI_ConversationId : string; PI_BeginSeq : Z; PI_EndSeq : Z; PI_Limit : Z }.

Record PullResult := mkPullResult { PR_Messages : list DtoMessage; PR_HasMore : bool }.

Definition Pull (i : PullInput) (pageMax : Z) : prog World (result PullResult) :=
  if (PI_BeginSeq i <? 1) || (PI_EndSeq i <? PI_BeginSeq i) then
    mret (Err (InvalidParam "need 1 <= begin_seq <= end_seq"))
  else
    let limit := clampLimit (PI_Limit i) pageMax in
    r ← call (GetUserConversationRow (PI_UserId i) (PI_ConversationId i));
    match r with
    | Err e => mret (if Is e store_ErrNotFound then Err ErrNoPermission else Err (Wrap ErrStoreFailed (Some e)))
    | Ok uc =>
        let '(begin, end_) := VisibleRange (Row_UC uc) (Row_ConvMaxSeq uc) (PI_BeginSeq i) (PI_EndSeq i) in
        if end_ <? begin then mret (Ok (mkPullResult [] false))
        else
          r ← call (ListMessages (PI_ConversationId i) begin end_ (i64 (limit + 1)));
          mret (match r with
          | Err e => Err (Wrap ErrMessagePullFailed (Some e))
          | Ok rows =>
              Ok (mkPullResult (map MessageFromStore (take (Z.to_nat (Z.min (Z.of_nat (length rows)) limit)) rows))
                    (limit <? Z.of_nat (length rows)))
          end)
    end.

Record MaxSeqItem := mkMaxSeqItem { MS_ConversationId : string; MS_MaxSeq : Z; MS_MinSeq : Z; MS_ReadSeq : Z }.

Record MaxSeqsResult := mkMaxSeqsResult { MSR_Items : list MaxSeqItem; MSR_NextCursor : string; MSR_HasMore : bool }.

Definition MaxSeqs (userId cursor : string) (limit pageMax : Z) : prog World (result MaxSeqsResult) :=
  r ← ListPage userId cursor limit pageMax;
  mret (match r with
  | Err e => Err e
  | Ok (rows, next, hasMore) =>
      Ok (mkMaxSeqsResult
            (map (λ r, mkMaxSeqItem (UC_ConversationId (Row_UC r)) (VisibleMax (Row_UC r) (Row_ConvMaxSeq r))
                         (UC_MinSeq (Row_UC r)) (UC_ReadSeq (Row_UC r))) rows) next hasMore)
  end).

(** ** Push candidates and authorization *)

Definition Recipients (ev : PushEvent) : prog World (result (list string)) :=
  if PE_SessionType ev =? ConversationSingle then mret (Ok [PE_SenderId ev; PE_RecvId ev])
  else
    now ← getNow;
    hit ← node_step nd (λ n, let '(r, c) := mc_get (n_members n) (PE_GroupId ev) now in (r, n_set_members n c));
    match hit with
    | Some ids => mret (Ok ids)
    | None =>
        r ← call (ListGroupMembers (PE_GroupId ev));
        match r with
        | Err e => mret (Err (Wrap ErrStoreFailed (Some e)))
        | Ok ms =>
            let ids := map GM_UserId ms in
            n1 ← getNow;
            n2 ← getNow;
            _ ← node_step nd (λ n, (tt, n_set_members n (mc_set (n_members n) (PE_GroupId ev) ids n1 n2)));
            mret (Ok ids)
        end
    end.

Definition VisibleTo (conversationId : string) (userIds : list string) (seq : Z) : prog World (result (list string)) :=
  r ← call (VisibleOwners conversationId userIds seq);
  mret (match r with Ok ids => Ok ids | Err e => Err (Wrap ErrStoreFailed (Some e)) end).

(** [InvalidateGroup]. *)
Definition InvalidateGroup (groupId : string) : prog World unit :=
  node_step nd (λ n, (tt, n_set_members n (mc_invalidate (n_members n) groupId))).

Definition ResolvePush (p : PushPayload) : prog World (result PushEvent) :=
  let out m := mkPushEvent (PP_ConversationId p) (PP_SessionType p) (PP_SenderId p) (PP_SenderConnId p)
                 (PP_RecvId p) (PP_GroupId p) m in
  match PP_Msg p with
  | Some m => mret (Ok (out m))
  | None =>
      r ← call (GetMessages [mkMessageKey (PP_ConversationId p) (PP_Seq p)]);
      mret (match r with
      | Err e => Err (Wrap ErrStoreFailed (Some e))
      | Ok [] => Err (Wrap ErrMessageNotFound (Some (EOther "push ref not found")))
      | Ok (m :: _) => Ok (out (MessageFromStore m))
      end)
  end.

(** ** Offline push ([offline.go]) *)

Definition notification (ev : PushEvent) : Notification :=
  let m := PE_Message ev in
  mkNotification (PE_ConversationId ev) (D_Seq m) (PE_SessionType ev) (PE_SenderId ev) (PE_GroupId ev)
    (D_ContentType m) (D_Content m) (D_SendTime m).

(** [slices.DeleteFunc]. *)
Definition DeleteFunc (del : string → bool) (l : list string) : list string := List.filter (λ x, negb (del x)) l.

Definition pushOffline (ev : PushEvent) (offline : list string) : prog World unit :=
  if (length offline =? 0)%nat then mret tt
  else _ ← pusherPush offline (notification ev); mret tt.

Definition offlinePush (ev : PushEvent) : prog World unit :=
  if negb (hasPusher cfg) then mret tt else
  r ← Recipients ev;
  match r with
  | Err _ => mret tt
  | Ok targets =>
      let targets := DeleteFunc (λ id, (id =? PE_SenderId ev)%string) targets in
      if (length targets =? 0)%nat then mret tt else
      r ← call (MutedOwners (PE_ConversationId ev) targets);
      match r with
      | Err _ => mret tt
      | Ok muted =>
          let targets := DeleteFunc (λ id, in_list id muted) targets in
          if (length targets =? 0)%nat then mret tt else
          r ← VisibleTo (PE_ConversationId ev) targets (D_Seq (PE_Message ev));
          match r with
          | Err _ => mret tt
          | Ok targets =>
              if (length targets =? 0)%nat then mret tt
              else if negb (hasOnline cfg) then pushOffline ev targets
              else
                r ← Online cfg targets;
                match r with
                | Err _ => mret tt
                | Ok on => pushOffline ev (DeleteFunc (λ id, (0 <? length (platforms on id))%nat) targets)
                end
          end
      end
  end.

(** One worker: the next job, if any, and the release of its token. *)
Definition pushWorker : prog World unit :=
  job ← node_step nd (λ n, match n_pushJobs n with
                           | ev :: js => (Some ev, n_set_push n (n_pushSem n) js)
                           | [] => (None, n)
                           end);
  match job with
  | None => mret tt
  | Some ev =>
      _ ← offlinePush ev;
      node_step nd (λ n, (tt, n_set_push n (pred (n_pushSem n)) (n_pushJobs n)))
  end.
End Message.
