(* ===== verification/GroupSvc.v ===== *)
(** * The group service ([internal/service/group/group.go]) *)

From S2P Require Import Prelude Errcode Strconv Identity Json Store PgStore Conv Conc RateLimit MemberCache World ConvPage MessageSvc.

Local Open Scope Z_scope.

Record GroupInfo := mkGroupInfo {
  GI_Id : string; GI_Name : string; GI_Avatar : string; GI_Introduction : string; GI_OwnerId : string;
  GI_Status : Z; GI_Extra : string; GI_MemberCount : Z; GI_CreatedAt : Z; GI_UpdatedAt : Z }.

Record MemberInfo := mkMemberInfo {
  MI_UserId : string; MI_Role : Z; MI_Nickname : string; MI_InviterUserId : string; MI_JoinedAt : Z }.

Record CreateInput := mkCreateInput {
  CI_Name : string; CI_Avatar : string; CI_Introduction : string; CI_Extra : string; CI_MemberIds : list string }.

Definition maxName : Z := 255.
Definition maxAvatar : Z := 1024.
Definition maxIntroduction : Z := 1024.

Definition toInfo (g : Group) (n : Z) : GroupInfo :=
  mkGroupInfo (Group_Id g) (Group_Name g) (Group_Avatar g) (Group_Introduction g) (Group_OwnerId g)
    (Group_Status g) (Group_Extra g) n (UnixMilli (Group_CreatedAt g)) (UnixMilli (Group_UpdatedAt g)).

Definition validateCreate (i : CreateInput) : err :=
  if (CI_Name i =? "")%string then Some (InvalidParam "name is required")
  else if maxName <? len (CI_Name i) then Some (InvalidParam "name: at most 255 bytes")
  else if maxAvatar <? len (CI_Avatar i) then Some (InvalidParam "avatar: at most 1024 bytes")
  else if maxIntroduction <? len (CI_Introduction i) then Some (InvalidParam "introduction: at most 1024 bytes")
  else if MaxExtraBytes <? len (CI_Extra i) then Some (InvalidParam "extra: at most 65535 bytes")
  else None.

(** [member], on the store or on a transaction. *)
Definition member {F : Type → Type} `{!MRet F, !MBind F}
    (getMember : string → string → F (result GroupMember)) (groupId userId : string) : F (result GroupMember) :=
  r ← getMember groupId userId;
  mret (match r with
  | Ok m => Ok m
  | Err e => if Is e store_ErrNotFound then Err ErrNotGroupMember else Err (Wrap ErrStoreFailed (Some e))
  end).

Section Group.
Context `{RL : RateLib} `{EN : Env}.
Variable cfg : Config.
Variable nd : string.

(** [notifyChanged]: the bus error is only logged. *)
Definition notifyChanged (groupId : string) : prog World unit :=
  _ ← busPublish (mkBusEvent nd (TypeGroupChanged groupId)); mret tt.

Definition group (groupId : string) : prog World (result Group) :=
  r ← call (GetGroup groupId);
  mret (match r with
  | Ok g => Ok g
  | Err e => if Is e store_ErrNotFound then Err ErrGroupNotFound else Err (Wrap ErrStoreFailed (Some e))
  end).

Definition activeGroup (groupId : string) : prog World (result Group) :=
  r ← group groupId;
  mret (match r with
  | Ok g => if Group_Status g =? GroupStatusDismissed then Err ErrGroupDismissed else Ok g
  | Err e => Err e
  end).

Definition newMember (gid ownerId : string) (now : Z) (id : string) : GroupMember :=
  mkGroupMember gid id (Ternary (id =? ownerId)%string RoleOwner RoleMember) ""
    (Ternary (id =? ownerId)%string ""%string ownerId) now.

Definition newUC (gid : string) (now : Z) (id : string) : UserConversation :=
  mkUC id (GroupConv gid) ConversationGroup "" gid 1 0 0 0 false "" now zeroTime.

Definition createTx (g : Group) (ids : list string) (now : Z) : TxM unit unit := (
  exec (CreateGroup g (map (newMember (Group_Id g) (Group_OwnerId g) now) ids)) ;;
  exec (LockConversation (GroupConv (Group_Id g)) ConversationGroup (Group_Id g) now) ;;
  exec (CreateUserConversations (map (newUC (Group_Id g) now) ids)))%tx.

Definition Create (ownerId : string) (i : CreateInput) : prog World (result GroupInfo) :=
  match validateCreate i with
  | Some e => mret (Err e)
  | None =>
      let ids := Uniq (ownerId :: CI_MemberIds i) in
      if negb (forallb Valid ids) then mret (Err (InvalidParam "invalid member id"))
      else if maxMembers cfg <? Z.of_nat (length ids) then mret (Err ErrGroupFull)
      else
        r ← call (GetUsers ids);
        match r with
        | Err e => mret (Err (Wrap ErrStoreFailed (Some e)))
        | Ok existing =>
            if negb (length existing =? length ids)%nat then mret (Err ErrUserNotFound)
            else
              now ← getNowMs;
              gid ← genShortId;
              let g := mkGroup gid (CI_Name i) (CI_Avatar i) (CI_Introduction i) ownerId GroupStatusNormal (CI_Extra i) now now in
              r ← WithTx tt (createTx g ids now);
              match r.2 with
              | Some e => mret (Err (Wrap ErrStoreFailed (Some e)))
              | None => _ ← notifyChanged gid; mret (Ok (toInfo g (Z.of_nat (length ids))))
              end
        end
  end.

Definition joinTx (g : Group) (userId : string) (now : Z) : TxM unit unit := (
  c <- exec (LockConversation (GroupConv (Group_Id g)) ConversationGroup (Group_Id g) now) ;;
  r <- stmt (GetGroupMember (Group_Id g) userId) ;;
  match r with
  | Ok _ => tx_fail ErrAlreadyGroupMember
  | Err e =>
      if negb (Is e store_ErrNotFound) then tx_fail e
      else (
        n <- exec (CountGroupMembers (Group_Id g)) ;;
        if maxMembers cfg <=? n then tx_fail ErrGroupFull
        else (
          exec (AddGroupMember (mkGroupMember (Group_Id g) userId RoleMember "" "" now)) ;;
          exec (UpsertUserConversation (mkUC userId (GroupConv (Group_Id g)) ConversationGroup "" (Group_Id g)
                  (i64 (Conv_MaxSeq c + 1)) 0 (Conv_MaxSeq c) 0 false "" now zeroTime))))
  end)%tx.

Definition Join (groupId userId : string) : prog World err :=
  r ← activeGroup groupId;
  match r with
  | Err e => mret (Some e)
  | Ok g =>
      r ← call (GetUser userId);
      match r with
      | Err e => mret (if Is e store_ErrNotFound then Some ErrUserNotFound else Some (Wrap ErrStoreFailed (Some e)))
      | Ok _ =>
          now ← getNowMs;
          r ← WithTx tt (joinTx g userId now);
          match r.2 with
          | Some e => mret (Some (Or e ErrStoreFailed))
          | None => _ ← notifyChanged (Group_Id g); mret None
          end
      end
  end.

Definition txGetMember {C} (g u : string) : TxM C (result GroupMember) := stmt (GetGroupMember g u).

(** The checks of a kick; the stored spelling of the target. *)
Definition kickChecks (g : Group) (operatorId userId : string) : TxM unit string := (
  r <- member txGetMember (Group_Id g) operatorId ;;
  op <- tx_check r ;;
  if GM_Role op <? RoleAdmin then tx_fail ErrNotGroupAdmin
  else (
    r <- member txGetMember (Group_Id g) userId ;;
    target <- tx_check r ;;
    if (GM_UserId target =? Group_OwnerId g)%string then tx_fail ErrCannotKickOwner
    else if (GM_Role op =? RoleAdmin) && (RoleAdmin <=? GM_Role target) then tx_fail ErrNoPermission
    else tx_ret (GM_UserId target)))%tx.

Definition removeTx (g : Group) (operatorId userId : string) (now : Z) : TxM unit unit := (
  c <- exec (LockConversation (GroupConv (Group_Id g)) ConversationGroup (Group_Id g) now) ;;
  userId <- (if negb (operatorId =? userId)%string then kickChecks g operatorId userId else tx_ret userId) ;;
  removed <- exec (RemoveGroupMember (Group_Id g) userId) ;;
  if negb removed then tx_fail ErrNotGroupMember
  else if Conv_MaxSeq c =? 0 then exec (DeleteUserConversation userId (GroupConv (Group_Id g)))
  else exec (SetUserConversationMaxSeq userId (GroupConv (Group_Id g)) (Conv_MaxSeq c)))%tx.

Definition remove (g : Group) (operatorId userId : string) : prog World err :=
  now ← getNowMs;
  r ← WithTx tt (removeTx g operatorId userId now);
  match r.2 with
  | Some e => mret (Some (Or e ErrStoreFailed))
  | None => _ ← notifyChanged (Group_Id g); mret None
  end.

Definition Quit (groupId userId : string) : prog World err :=
  r ← activeGroup groupId;
  match r with
  | Err e => mret (Some e)
  | Ok g =>
      if (Group_OwnerId g =? userId)%string then mret (Some (InvalidParam "owner cannot quit the group"))
      else remove g userId userId
  end.

Definition Kick (groupId operatorId targetId : string) : prog World err :=
  r ← activeGroup groupId;
  match r with
  | Err e => mret (Some e)
  | Ok g =>
      if negb (Valid targetId) then mret (Some (InvalidParam ("invalid user id: " +:+ targetId)))
      else if (targetId =? Group_OwnerId g)%string then mret (Some ErrCannotKickOwner)
      else if (operatorId =? targetId)%string then mret (Some (InvalidParam "use quit to leave the group"))
      else remove g operatorId targetId
  end.

Definition Get (groupId userId : string) : prog World (result GroupInfo) :=
  r ← group groupId;
  match r with
  | Err e => mret (Err e)
  | Ok g =>
      r ← member storeGetMember (Group_Id g) userId;
      match r with
      | Err e => mret (Err e)
      | Ok _ =>
          r ← call (CountGroupMembers (Group_Id g));
          mret (match r with Err e => Err (Wrap ErrStoreFailed (Some e)) | Ok n => Ok (toInfo g n) end)
      end
  end.

Definition Members (groupId userId : string) : prog World (result (list MemberInfo)) :=
  r ← group groupId;
  match r with
  | Err e => mret (Err e)
  | Ok g =>
      r ← member storeGetMember (Group_Id g) userId;
      match r with
      | Err e => mret (Err e)
      | Ok _ =>
          r ← call (ListGroupMembers (Group_Id g));
          mret (match r with
          | Err e => Err (Wrap ErrStoreFailed (Some e))
          | Ok ms => Ok (map (λ m, mkMemberInfo (GM_UserId m) (GM_Role m) (GM_Nickname m) (GM_InviterUserId m)
                                     (UnixMilli (GM_JoinedAt m))) ms)
          end)
      end
  end.
End Group.
