(* ===== verification/ConversationSvc.v ===== *)
(** * The conversation service ([internal/service/conversation/conversation.go]) *)

From S2P Require Import Prelude Errcode Strconv Identity Json Store PgStore Conv Conc RateLimit MemberCache World ConvPage.

Local Open Scope Z_scope.

Record Item := mkItem {
  It_ConversationId : string; It_Type : Z; It_PeerUserId : string; It_GroupId : string; It_MinSeq : Z;
  It_MaxSeq : Z; It_ReadSeq : Z; It_Unread : Z; It_RecvMsgOpt : Z; It_IsPinned : bool; It_Extra : string;
  It_UpdatedAt : Z; It_LastMessage : option DtoMessage }.

Definition It_set_LastMessage (i : Item) (m : option DtoMessage) : Item :=
  mkItem (It_ConversationId i) (It_Type i) (It_PeerUserId i) (It_GroupId i) (It_MinSeq i) (It_MaxSeq i) (It_ReadSeq i)
    (It_Unread i) (It_RecvMsgOpt i) (It_IsPinned i) (It_Extra i) (It_UpdatedAt i) m.

Record ListResult := mkListResult { LR_Conversations : list Item; LR_NextCursor : string; LR_HasMore : bool }.

Definition itemFromRow (r : UserConversationRow) : Item :=
  let uc := Row_UC r in
  let visibleMax := VisibleMax uc (Row_ConvMaxSeq r) in
  mkItem (UC_ConversationId uc) (UC_Type uc) (UC_PeerUserId uc) (UC_GroupId uc) (UC_MinSeq uc) visibleMax (UC_ReadSeq uc)
    (Z.max (i64 (visibleMax - UC_ReadSeq uc)) 0) (UC_RecvMsgOpt uc) (UC_IsPinned uc) (UC_Extra uc)
    (UnixMilli (UC_UpdatedAt uc)) None.

Definition lastMessageKey (i : Item) : option MessageKey :=
  if It_MaxSeq i <? It_MinSeq i then None else Some (mkMessageKey (It_ConversationId i) (It_MaxSeq i)).

Record GetKey := mkGetKey { GK_ConversationId : string; GK_PeerUserId : string; GK_GroupId : string }.

Definition isSet (s : string) : bool := negb (s =? "")%string.

Definition resolve (k : GetKey) (userId : string) : result string :=
  if negb (length (List.filter id [isSet (GK_ConversationId k); isSet (GK_PeerUserId k); isSet (GK_GroupId k)]) =? 1)%nat then
    Err (InvalidParam "exactly one of conversation_id, peer_user_id or group_id is required")
  else if isSet (GK_ConversationId k) then Ok (GK_ConversationId k)
  else if isSet (GK_GroupId k) then Ok (GroupConv (GK_GroupId k))
  else if (GK_PeerUserId k =? userId)%string then Err (InvalidParam "peer_user_id must not be the caller")
  else Ok (Single userId (GK_PeerUserId k)).

(** [lo.SliceToMap]: the last message of each conversation wins. *)
Definition byConv (msgs : list Message) : gmap string Message :=
  foldl (λ acc m, <[Msg_ConversationId m := m]> acc) ∅ msgs.

Section Conversation.
Context `{RL : RateLib} `{EN : Env}.
Variable nd : string.

Definition MarkRead (userId readerConnId conversationId : string) (readSeq : Z) : prog World (result Z) :=
  if readSeq <? 1 then mret (Err (InvalidParam "read_seq must be >= 1"))
  else
    r ← call (GetUserConversationRow userId conversationId);
    match r with
    | Err e => mret (if Is e store_ErrNotFound then Err ErrNoPermission else Err (Wrap ErrStoreFailed (Some e)))
    | Ok row =>
        let conversationId := UC_ConversationId (Row_UC row) in
        let target := Z.min readSeq (VisibleMax (Row_UC row) (Row_ConvMaxSeq row)) in
        if target <=? UC_ReadSeq (Row_UC row) then mret (Ok (UC_ReadSeq (Row_UC row)))
        else
          r ← call (AdvanceReadSeq userId conversationId target);
          match r with
          | Err e => mret (Err (Wrap ErrStoreFailed (Some e)))
          | Ok _ =>
              _ ← busPublish (mkBusEvent nd (TypeConvRead (mkReadEvent userId readerConnId conversationId target)));
              mret (Ok target)
          end
    end.

Definition GetConv (userId : string) (key : GetKey) (withLastMessage : bool) : prog World (result Item) :=
  match resolve key userId with
  | Err e => mret (Err e)
  | Ok conversationId =>
      r ← call (GetUserConversationRow userId conversationId);
      match r with
      | Err e => mret (if Is e store_ErrNotFound then Err ErrConversationNotFound else Err (Wrap ErrStoreFailed (Some e)))
      | Ok row =>
          let item := itemFromRow row in
          match (if withLastMessage then lastMessageKey item else None) with
          | None => mret (Ok item)
          | Some k =>
              r ← call (GetMessages [k]);
              mret (match r with
              | Err e => Err (Wrap ErrStoreFailed (Some e))
              | Ok [] => Ok item
              | Ok (m :: _) => Ok (It_set_LastMessage item (Some (MessageFromStore m)))
              end)
          end
      end
  end.

Definition setLast (latest : gmap string Message) (i : Item) : Item :=
  match latest !! It_ConversationId i with
  | Some m => It_set_LastMessage i (Some (MessageFromStore m))
  | None => i
  end.

Definition ListConvs (userId cursor : string) (limit pageMax : Z) (withLastMessage : bool) : prog World (result ListResult) :=
  r ← ListPage userId cursor limit pageMax;
  match r with
  | Err e => mret (Err e)
  | Ok (rows, next, hasMore) =>
      let items := map itemFromRow rows in
      let keys := if withLastMessage then omap lastMessageKey items else [] in
      if (0 <? length keys)%nat then
        r ← call (GetMessages keys);
        mret (match r with
        | Err e => Err (Wrap ErrStoreFailed (Some e))
        | Ok msgs => Ok (mkListResult (map (setLast (byConv msgs)) items) next hasMore)
        end)
      else mret (Ok (mkListResult items next hasMore))
  end.

Definition SetOpt (userId conversationId : string) (recvMsgOpt : option Z) (isPinned : option bool) : prog World err :=
  if match recvMsgOpt with Some v => negb (v =? 0) && negb (v =? 1) | None => false end then
    mret (Some (InvalidParam "recv_msg_opt must be 0 or 1"))
  else
    r ← call (SetUserConversationOpt userId conversationId recvMsgOpt isPinned);
    mret (match r with
    | Ok _ => None
    | Err e => if Is e store_ErrNotFound then Some ErrNoPermission else Some (Wrap ErrStoreFailed (Some e))
    end).
End Conversation.
