(* ===== verification/UserSvc.v ===== *)
(** * The user service ([internal/service/user/user.go])

    Registration, profiles, platform upserts and presence queries. [bcrypt] is a class
    parameter; [nativeOn] says whether the native provider is configured. Login and logout are in
    [Auth]. *)

From S2P Require Import Prelude Errcode Strconv Identity Store PgStore Conc RateLimit World OnlineStore ConvPage.

Local Open Scope Z_scope.

(** [golang.org/x/crypto/bcrypt]: hashing is salted (by the tick), and a hash accepts its password. *)
Class Bcrypt := {
  GenerateFromPassword : nat → string → result string;
  CompareHashAndPassword : string → string → bool;
  bcrypt_ok : ∀ salt pw h, GenerateFromPassword salt pw = Ok h → CompareHashAndPassword h pw = true }.

Record OnlineStatusItem := mkOnlineStatus { OS_UserId : string; OS_Online : bool; OS_Platforms : list Z }.

Record Profile := mkProfile {
  Pr_Id : string; Pr_Nickname : string; Pr_Avatar : string; Pr_Extra : string; Pr_CreatedAt : Z; Pr_UpdatedAt : Z }.

Definition toProfile (u : User) : Profile :=
  mkProfile (User_Id u) (User_Nickname u) (User_Avatar u) (User_Extra u) (UnixMilli (User_CreatedAt u)) (UnixMilli (User_UpdatedAt u)).

Definition maxUsername : Z := 64.
Definition minPassword : Z := 6.
Definition maxPassword : Z := 72.
Definition maxNickname : Z := 255.
Definition maxAvatar : Z := 1024.

(** [p != nil && len( *p ) > n]. *)
Definition longer (p : option string) (n : Z) : bool := match p with Some s => n <? Z.of_nat (String.length s) | None => false end.

Definition validateProfile (nickname avatar extra : option string) : err :=
  if longer nickname maxNickname then Some (InvalidParam "nickname: at most 255 bytes")
  else if longer avatar maxAvatar then Some (InvalidParam "avatar: at most 1024 bytes")
  else if longer extra MaxExtraBytes then Some (InvalidParam "extra: at most 65535 bytes")
  else None.

Record Update := mkUpdate { Up_Nickname : option string; Up_Avatar : option string; Up_Extra : option string }.

(** The answer of [OnlineStatus] from what the online store said. *)
Definition statusItems (byUser : gmap string (list Z)) (userIds : list string) : list OnlineStatusItem :=
  map (λ id, mkOnlineStatus id (0 <? length (platforms byUser id))%nat (platforms byUser id)) userIds.

Section User.
Context `{RL : RateLib} `{EN : Env} `{BC : Bcrypt}.
Variable cfg : Config.
Variable nativeOn : bool.

Definition OnlineStatus (userIds : list string) : prog World (result (list OnlineStatusItem)) :=
  r ← (if hasOnline cfg then Online cfg userIds else mret (Ok ∅));
  mret (match r with
  | Err e => Err (Wrap ErrStoreFailed (Some e))
  | Ok byUser => Ok (statusItems byUser userIds)
  end).

Definition requireNative : err :=
  if nativeOn then None else Some (WithMessage ErrProviderDisabled "native auth provider is disabled").

Definition UserGet (userId : string) : prog World (result Profile) :=
  r ← call (GetUser userId);
  mret (match r with
  | Ok u => Ok (toProfile u)
  | Err e => if Is e store_ErrNotFound then Err ErrUserNotFound else Err (Wrap ErrStoreFailed (Some e))
  end).

Definition GetMany (userIds : list string) : prog World (result (list Profile)) :=
  r ← call (GetUsers userIds);
  mret (match r with Ok us => Ok (map toProfile us) | Err e => Err (Wrap ErrStoreFailed (Some e)) end).

Definition genHash (password : string) : prog World (result string) :=
  act (λ w, (GenerateFromPassword (w_tick w) password, w_set_tick w (S (w_tick w)))).

Definition Register (username password nickname : string) : prog World (result Profile) :=
  match requireNative with
  | Some e => mret (Err e)
  | None =>
      let n := Z.of_nat (String.length username) in
      let p := Z.of_nat (String.length password) in
      if (n =? 0) || (maxUsername <? n) || (p <? minPassword) || (maxPassword <? p) then
        mret (Err (InvalidParam "username 1-64 chars, password 6-72 chars"))
      else
        match validateProfile (Some nickname) None None with
        | Some e => mret (Err e)
        | None =>
            r ← call (GetUserByUsername username);
            match r with
            | Ok _ => mret (Err ErrUserExists)
            | Err e =>
                if negb (Is e store_ErrNotFound) then mret (Err (Wrap ErrStoreFailed (Some e)))
                else
                  h ← genHash password;
                  match h with
                  | Err e => mret (Err (Wrap ErrInternal (Some e)))
                  | Ok hash =>
                      now ← getNowMs;
                      id ← genV7;
                      let u := mkUser (NativeUserId id) username hash nickname "" "" now now in
                      r ← call (CreateUser u);
                      mret (match r with Ok _ => Ok (toProfile u) | Err e => Err (Wrap ErrStoreFailed (Some e)) end)
                  end
            end
        end
  end.

Definition UserUpdate (userId : string) (i : Update) : prog World (result Profile) :=
  match validateProfile (Up_Nickname i) (Up_Avatar i) (Up_Extra i) with
  | Some e => mret (Err e)
  | None =>
      now ← getNowMs;
      r ← call (UpdateUserProfile userId (Up_Nickname i) (Up_Avatar i) (Up_Extra i) now);
      match r with
      | Ok _ => UserGet userId
      | Err e => mret (if Is e store_ErrNotFound then Err ErrUserNotFound else Err (Wrap ErrStoreFailed (Some (EWrap "update user" e))))
      end
  end.

Definition Upsert (id nickname avatar extra : string) : prog World (result Profile) :=
  match ParseActor id with
  | Err _ => mret (Err (InvalidParam "id must be a platform user id"))
  | Ok _ =>
      match validateProfile (Some nickname) (Some avatar) (Some extra) with
      | Some e => mret (Err e)
      | None =>
          now ← getNowMs;
          r ← call (UpsertUser (mkUser id "" "" nickname avatar extra zeroTime now));
          match r with
          | Ok _ => UserGet id
          | Err e => mret (Err (Wrap ErrStoreFailed (Some e)))
          end
      end
  end.
End User.
