(* ===== verification/DbInv.v ===== *)
(** * The database invariant and the order on database states

    [DbOk] is what every committed state of the database satisfies: sequence numbers of a
    conversation are exactly [1 .. max_seq] in commit order, the unique keys hold, rows refer to rows
    that exist, membership and open visible ranges agree, read cursors stay inside the visible
    range, and send times never decrease along a conversation. [DbLe] is how states may evolve: the
    history only grows, cursors only move forward and nobody gains access to old messages. *)

From S2P Require Import Prelude Errcode Strconv Identity Store PgStore Conv.

Local Open Scope Z_scope.

Definition conv_max (d : Db) (c : string) : Z := match convs d !! c with Some cv => Conv_MaxSeq cv | None => 0 end.

Definition conv_msgs (c : string) (ms : list Message) : list Message :=
  keep (λ m, (Msg_ConversationId m =? c)%string) ms.

Definition seqs_of (d : Db) (c : string) : list Z := map Msg_Seq (conv_msgs c (messages d)).

Definition client_key (m : Message) : string * string * string :=
  (Msg_ConversationId m, Msg_SenderId m, Msg_ClientMsgId m).

(** A millisecond-exact instant. *)
Definition ms_exact (t : Z) : Prop := UnixMilli_of (UnixMilli t) = t.

(** Upper end of the visible range of [o] in [c], and its read cursor; 0 without a row. *)
Definition vmax (d : Db) (o c : string) : Z :=
  match userConvs d !! (o, c) with Some uc => VisibleMax uc (conv_max d c) | None => 0 end.

Definition rseq (d : Db) (o c : string) : Z :=
  match userConvs d !! (o, c) with Some uc => UC_ReadSeq uc | None => 0 end.

(** [o] may read message [s] of conversation [c]. *)
Definition visible (d : Db) (o c : string) (s : Z) : Prop :=
  ∃ uc, userConvs d !! (o, c) = Some uc ∧ visible_seq uc (conv_max d c) s.

Definition uc_ok (d : Db) (o c : string) (uc : UserConversation) : Prop :=
  UC_OwnerId uc = o ∧ UC_ConversationId uc = c ∧ is_Some (convs d !! c) ∧
  1 ≤ UC_MinSeq uc ≤ conv_max d c + 1 ∧ 0 ≤ UC_MaxSeq uc ≤ conv_max d c ∧
  0 ≤ UC_ReadSeq uc ≤ VisibleMax uc (conv_max d c) ∧ ms_exact (UC_UpdatedAt uc).

Definition conv_ok (d : Db) (c : string) (cv : Conversation) : Prop :=
  Conv_ConversationId cv = c ∧ ms_exact (Conv_UpdatedAt cv) ∧
  ((Conv_Type cv = ConversationGroup ∧ c = GroupConv (Conv_GroupId cv) ∧ is_Some (groups d !! Conv_GroupId cv)) ∨
   (Conv_Type cv = ConversationSingle ∧ ∃ a b, Valid a = true ∧ Valid b = true ∧ c = Single a b)).

(** A message is routed by its own conversation id. *)
Definition msg_ok (m : Message) : Prop :=
  (Msg_SessionType m = ConversationSingle ∧ Msg_GroupId m = ""%string ∧ Valid (Msg_SenderId m) = true ∧
     Valid (Msg_RecvId m) = true ∧ Msg_ConversationId m = Single (Msg_SenderId m) (Msg_RecvId m)) ∨
  (Msg_SessionType m = ConversationGroup ∧ Msg_RecvId m = ""%string ∧ Msg_ConversationId m = GroupConv (Msg_GroupId m)).

Record DbOk (d : Db) : Prop := {
  ok_users : ∀ id u, users d !! id = Some u → User_Id u = id;
  ok_groups : ∀ id g, groups d !! id = Some g → Group_Id g = id;
  ok_members : ∀ g u m, members d !! (g, u) = Some m → GM_GroupId m = g ∧ GM_UserId m = u ∧ is_Some (groups d !! g);
  ok_convs : ∀ c cv, convs d !! c = Some cv → conv_ok d c cv;
  ok_uc : ∀ o c uc, userConvs d !! (o, c) = Some uc → uc_ok d o c uc;
  ok_member_uc : ∀ g u, is_Some (members d !! (g, u)) ↔
    ∃ uc, userConvs d !! (u, GroupConv g) = Some uc ∧ UC_MaxSeq uc = 0;
  ok_single : ∀ a b o uc, Valid a = true → Valid b = true → userConvs d !! (o, Single a b) = Some uc →
    (o = a ∨ o = b) ∧ UC_MinSeq uc = 1 ∧ UC_MaxSeq uc = 0;
  ok_single_rows : ∀ a b, Valid a = true → Valid b = true → 0 < conv_max d (Single a b) →
    is_Some (userConvs d !! (a, Single a b)) ∧ is_Some (userConvs d !! (b, Single a b));
  ok_seqs : ∀ c, 0 ≤ conv_max d c ∧ seqs_of d c = seqZ 1 (conv_max d c);
  ok_msgs : Forall msg_ok (messages d);
  ok_client : NoDup (map client_key (messages d));
  ok_server : NoDup (map Msg_ServerMsgId (messages d));
  ok_times : ∀ c, StronglySorted Z.le (map Msg_SendTime (conv_msgs c (messages d)));
  ok_last : ∀ m cv, m ∈ messages d → convs d !! Msg_ConversationId m = Some cv → Msg_SendTime m ≤ Conv_UpdatedAt cv }.

Record DbLe (d d' : Db) : Prop := {
  le_users : ∀ id, is_Some (users d !! id) → is_Some (users d' !! id);
  le_groups : groups d ⊆ groups d';
  le_convs : ∀ c cv, convs d !! c = Some cv → ∃ cv', convs d' !! c = Some cv' ∧
    Conv_Type cv' = Conv_Type cv ∧ Conv_GroupId cv' = Conv_GroupId cv ∧
    Conv_MaxSeq cv ≤ Conv_MaxSeq cv' ∧ Conv_UpdatedAt cv ≤ Conv_UpdatedAt cv';
  le_max : ∀ c, conv_max d c ≤ conv_max d' c;
  le_msgs : messages d `prefix_of` messages d';
  le_visible : ∀ o c s, visible d' o c s → s ≤ conv_max d c → visible d o c s;
  le_vmax : ∀ o c, vmax d o c ≤ vmax d' o c;
  le_read : ∀ o c, rseq d o c ≤ rseq d' o c }.

#[export] Instance DbLe_preorder : PreOrder DbLe.
Proof.
  split.
  - intros d. split; eauto; try done; try reflexivity. intros c cv ->. exists cv. split_and!; try done; lia.
  - intros d1 d2 d3 [U1 G1 C1 M1 P1 V1 X1 R1] [U2 G2 C2 M2 P2 V2 X2 R2]. split.
    + eauto.
    + by transitivity (groups d2).
    + intros c cv (cv2 & Hc2 & ? & ? & ? & ?)%C1. apply C2 in Hc2 as (cv3 & ? & ? & ? & ? & ?).
      exists cv3. split_and!; try congruence; lia.
    + intros c. specialize (M1 c). specialize (M2 c). lia.
    + by transitivity (messages d2).
    + intros o c s H3 Hs. apply V1; [|done]. apply V2; [done|]. specialize (M1 c). lia.
    + intros o c. specialize (X1 o c). specialize (X2 o c). lia.
    + intros o c. specialize (R1 o c). specialize (R2 o c). lia.
Qed.

Lemma emptyDb_ok : DbOk emptyDb.
Proof.
  assert (∀ g u, members emptyDb !! (g, u) = None) as Hm by (intros; apply lookup_empty).
  assert (∀ o c, userConvs emptyDb !! (o, c) = None) as Hu by (intros; apply lookup_empty).
  assert (∀ c, convs emptyDb !! c = None) as Hc by (intros; apply lookup_empty).
  split; try (intros; simpl in *; rewrite ?Hm, ?Hu, ?Hc in *; simplify_map_eq; done).
  - intros g u. rewrite Hm. split; [by intros []|]. intros (uc & Huc & _). by rewrite Hu in Huc.
  - constructor.
  - constructor.
  - constructor.
Qed.

(** ** Consequences *)

Section Facts.
Context {d : Db} (Hd : DbOk d).

Lemma conv_max_nonneg c : 0 ≤ conv_max d c.
Proof. apply (ok_seqs d Hd). Qed.

Lemma vmax_nonneg o c : 0 ≤ vmax d o c.
Proof.
  unfold vmax. destruct (userConvs d !! (o, c)) as [uc|] eqn:E; [|lia].
  destruct (ok_uc d Hd o c uc E) as (_ & _ & _ & _ & ? & ? & _). lia.
Qed.

Lemma rseq_le_vmax o c : 0 ≤ rseq d o c ≤ vmax d o c.
Proof.
  unfold rseq, vmax. destruct (userConvs d !! (o, c)) as [uc|] eqn:E; [|lia].
  by destruct (ok_uc d Hd o c uc E) as (_ & _ & _ & _ & _ & ? & _).
Qed.

Lemma vmax_le o c : vmax d o c ≤ conv_max d c.
Proof.
  unfold vmax. destruct (userConvs d !! (o, c)); [apply VisibleMax_le|apply conv_max_nonneg].
Qed.

Lemma elem_of_conv_msgs c m : m ∈ conv_msgs c (messages d) ↔ m ∈ messages d ∧ Msg_ConversationId m = c.
Proof.
  unfold conv_msgs, keep. rewrite !list_elem_of_In, filter_In, String.eqb_eq. done.
Qed.

(** Every number of the range is the seq of a message, and every message has one. *)
Lemma seq_range c s : (∃ m, m ∈ messages d ∧ Msg_ConversationId m = c ∧ Msg_Seq m = s) ↔ 1 ≤ s ≤ conv_max d c.
Proof.
  destruct (ok_seqs d Hd c) as [H0 Hs]. split.
  - intros (m & Hm & Hc & <-). assert (Msg_Seq m ∈ seqs_of d c) as Hin.
    { unfold seqs_of. apply list_elem_of_fmap_2, elem_of_conv_msgs. done. }
    rewrite Hs, elem_of_seqZ in Hin. lia.
  - intros H. assert (s ∈ seqs_of d c) as Hin by (rewrite Hs, elem_of_seqZ; lia).
    apply list_elem_of_fmap in Hin as (m & -> & Hm). apply elem_of_conv_msgs in Hm as [? ?]. eauto.
Qed.
End Facts.

(** ** Updates that keep the invariant

    Each lemma below is one kind of change a transaction makes, on any database that satisfies the
    invariant. *)

Definition preserves (d d' : Db) : Prop := DbOk d' ∧ DbLe d d'.

Lemma preserves_refl d : DbOk d → preserves d d.
Proof. intros. split; [done|reflexivity]. Qed.

Lemma preserves_trans d1 d2 d3 : preserves d1 d2 → preserves d2 d3 → preserves d1 d3.
Proof. intros [_ ?] [? ?]. split; [done|by transitivity d2]. Qed.

Lemma DbLe_same_history d d' :
  (∀ id, is_Some (users d !! id) → is_Some (users d' !! id)) → groups d ⊆ groups d' → convs d' = convs d →
  messages d' = messages d →
  (∀ o c s, visible d' o c s → s ≤ conv_max d c → visible d o c s) →
  (∀ o c, vmax d o c ≤ vmax d' o c) → (∀ o c, rseq d o c ≤ rseq d' o c) → DbLe d d'.
Proof.
  intros Hu Hg Hc Hm Hv Hx Hr.
  assert (∀ c, conv_max d' c = conv_max d c) as Hmax by (intros; unfold conv_max; by rewrite Hc).
  split; try done.
  - intros c cv Hcv. exists cv. rewrite Hc. split_and!; try done; lia.
  - intros c. rewrite Hmax. lia.
  - by rewrite Hm.
Qed.

(** Rows keep their range; the read cursor moves forward inside it. *)
Definition row_le (convMax : Z) (uc uc' : UserConversation) : Prop :=
  UC_OwnerId uc' = UC_OwnerId uc ∧ UC_ConversationId uc' = UC_ConversationId uc ∧
  UC_MinSeq uc' = UC_MinSeq uc ∧ UC_MaxSeq uc' = UC_MaxSeq uc ∧
  UC_ReadSeq uc ≤ UC_ReadSeq uc' ≤ VisibleMax uc convMax ∧ ms_exact (UC_UpdatedAt uc').

Definition rows_le (d : Db) (t : gmap key UserConversation) : Prop :=
  ∀ o c, match userConvs d !! (o, c), t !! (o, c) with
         | None, None => True
         | Some uc, Some uc' => row_le (conv_max d c) uc uc'
         | _, _ => False
         end.

Lemma VisibleMax_ext uc uc' m : UC_MaxSeq uc' = UC_MaxSeq uc → VisibleMax uc' m = VisibleMax uc m.
Proof. unfold VisibleMax. by intros ->. Qed.

Lemma rows_update_ok d t : DbOk d → rows_le d t → preserves d (with_userConvs d t).
Proof.
  intros Hd Ht.
  assert (∀ o c uc', t !! (o, c) = Some uc' → ∃ uc, userConvs d !! (o, c) = Some uc ∧ row_le (conv_max d c) uc uc') as Hback.
  { intros o c uc' E. specialize (Ht o c). rewrite E in Ht. destruct (userConvs d !! (o, c)) as [uc|]; [eauto|done]. }
  assert (∀ o c uc, userConvs d !! (o, c) = Some uc → ∃ uc', t !! (o, c) = Some uc' ∧ row_le (conv_max d c) uc uc') as Hforw.
  { intros o c uc E. specialize (Ht o c). rewrite E in Ht. destruct (t !! (o, c)) as [uc'|]; [eauto|done]. }
  split.
  - destruct Hd. split; simpl; try done.
    + intros o c uc' (uc & Huc & R)%Hback. destruct R as (E1 & E2 & E3 & E4 & E5 & E6).
      destruct (ok_uc0 o c uc Huc) as (? & ? & ? & ? & ? & ? & ?). unfold uc_ok, conv_max in *. simpl.
      rewrite (VisibleMax_ext uc uc') by done. split_and!; try congruence; try done; lia.
    + intros g u. rewrite ok_member_uc0. split.
      * intros (uc & Huc & H0). apply Hforw in Huc as (uc' & ? & R). exists uc'. destruct R as (_ & _ & _ & ? & _). split; congruence.
      * intros (uc' & Huc & H0). apply Hback in Huc as (uc & ? & R). exists uc. destruct R as (_ & _ & _ & ? & _). split; congruence.
    + intros a b o uc' Ha Hb (uc & Huc & R)%Hback. destruct R as (_ & _ & E3 & E4 & _).
      destruct (ok_single0 a b o uc Ha Hb Huc) as (? & ? & ?). split_and!; congruence.
    + intros a b Ha Hb Hmax. destruct (ok_single_rows0 a b Ha Hb Hmax) as [[x Hx] [y Hy]].
      apply Hforw in Hx as (? & ? & _), Hy as (? & ? & _). eauto.
  - apply DbLe_same_history; simpl; try done.
    + intros o c s (uc' & Huc & Hv) _. apply Hback in Huc as (uc & ? & R). destruct R as (_ & _ & E3 & E4 & _).
      exists uc. split; [done|]. unfold visible_seq, conv_max in *. simpl in *. rewrite E3, E4 in Hv. done.
    + intros o c. unfold vmax, conv_max in *. simpl. destruct (userConvs d !! (o, c)) as [uc|] eqn:E.
      * destruct (Hforw _ _ _ E) as (uc' & -> & R). destruct R as (_ & _ & _ & E4 & _).
        rewrite (VisibleMax_ext uc uc') by done. lia.
      * destruct (t !! (o, c)) as [uc'|] eqn:E'; [|lia]. apply Hback in E' as (? & ? & _). congruence.
    + intros o c. unfold rseq. simpl. destruct (userConvs d !! (o, c)) as [uc|] eqn:E.
      * destruct (Hforw _ _ _ E) as (uc' & -> & R). destruct R as (_ & _ & _ & _ & ? & _). lia.
      * destruct (t !! (o, c)) as [uc'|] eqn:E'; [|lia]. apply Hback in E' as (? & ? & _). congruence.
Qed.

Lemma row_le_refl d o c uc : DbOk d → userConvs d !! (o, c) = Some uc → row_le (conv_max d c) uc uc.
Proof.
  intros Hd H. destruct (ok_uc d Hd o c uc H) as (_ & _ & _ & _ & _ & ? & ?).
  unfold row_le. split_and!; try done; lia.
Qed.

Lemma rows_le_single d o c uc uc' :
  DbOk d → userConvs d !! (o, c) = Some uc → row_le (conv_max d c) uc uc' → rows_le d (<[(o, c) := uc']> (userConvs d)).
Proof.
  intros Hd Huc R o' c'. destruct (decide ((o', c') = (o, c))) as [[= -> ->]|Hne].
  - by rewrite Huc, lookup_insert_eq.
  - rewrite lookup_insert_ne by congruence. destruct (userConvs d !! (o', c')) as [x|] eqn:E; [|done].
    by eapply row_le_refl.
Qed.

(** [AdvanceReadSeq] to a point inside the visible range. *)
Lemma advance_ok d o c t :
  DbOk d → t ≤ vmax d o c →
  preserves d (Gen.AdvanceReadSeq o c t d).2.
Proof.
  intros Hd Ht. simpl. destruct (userConvs d !! (o, c)) as [uc|] eqn:E.
  - apply rows_update_ok; [done|]. intros o' c'. destruct (decide ((o', c') = (o, c))) as [[= -> ->]|Hne].
    + rewrite lookup_alter_eq, E. simpl. unfold vmax in Ht. rewrite E in Ht.
      destruct (ok_uc d Hd o c uc E) as (_ & _ & _ & _ & _ & ? & ?).
      unfold row_le, GREATEST. simpl. split_and!; try done; lia.
    + rewrite lookup_alter_ne by congruence. destruct (userConvs d !! (o', c')) as [x|] eqn:E'; [|done]. by eapply row_le_refl.
  - assert (alter (λ uc, UC_set_ReadSeq uc (GREATEST (UC_ReadSeq uc) t)) (o, c) (userConvs d) = userConvs d) as ->.
    { apply map_eq. intros k. destruct (decide (k = (o, c))) as [->|]; [by rewrite lookup_alter_eq, E|by rewrite lookup_alter_ne]. }
    destruct d. by apply preserves_refl.
Qed.

(** [TouchConversationMembers]. *)
Lemma touch_members_ok d c now : DbOk d → ms_exact now → preserves d (Gen.TouchConversationMembers c now d).2.
Proof.
  intros Hd Hnow. simpl. apply rows_update_ok; [done|]. intros o' c'. rewrite lookup_fmap.
  destruct (userConvs d !! (o', c')) as [uc|] eqn:E; simpl; [|done].
  destruct (ok_uc d Hd o' c' uc E) as (_ & _ & _ & _ & _ & ? & ?).
  case_match; [|by eapply row_le_refl]. unfold row_le, GREATEST. simpl. split_and!; try done; try lia.
  destruct (Z.max_spec (UC_UpdatedAt uc) now) as [[_ ->]|[_ ->]]; done.
Qed.

(** [SetUserConversationOpt]. *)
Lemma set_opt_ok d o c r p : DbOk d → preserves d (Gen.SetUserConversationOpt o c r p d).2.
Proof.
  intros Hd. unfold Gen.SetUserConversationOpt. destruct (userConvs d !! (o, c)) as [uc|] eqn:E; simpl; [|by apply preserves_refl].
  apply rows_update_ok; [done|]. eapply rows_le_single; [done|done|].
  destruct (ok_uc d Hd o c uc E) as (_ & _ & _ & _ & _ & ? & ?). unfold row_le. simpl. split_and!; try done; lia.
Qed.

(** ** Users *)

Lemma users_ok d t :
  DbOk d → (∀ id u, t !! id = Some u → User_Id u = id) → (∀ id, is_Some (users d !! id) → is_Some (t !! id)) →
  preserves d (with_users d t).
Proof.
  intros Hd Ht Hle. split.
  - destruct Hd. split; done.
  - apply DbLe_same_history; try done.
Qed.

Lemma online_ok d t : DbOk d → preserves d (with_online d t).
Proof. intros Hd. split; [destruct Hd; by split|by apply DbLe_same_history]. Qed.

(** ** Conversations *)

Lemma conv_max_insert d c cv c' :
  conv_max (with_convs d (<[c := cv]> (convs d))) c' = if bool_decide (c' = c) then Conv_MaxSeq cv else conv_max d c'.
Proof.
  unfold conv_max. simpl. case_bool_decide as H.
  - subst. by rewrite lookup_insert_eq.
  - by rewrite lookup_insert_ne.
Qed.

(** A new, empty conversation. *)
Lemma lock_ok d c typ gid now :
  DbOk d → convs d !! c = None → conv_ok d c (mkConversation c typ gid 0 now now) →
  preserves d (with_convs d (<[c := mkConversation c typ gid 0 now now]> (convs d))).
Proof.
  intros Hd Hc Hk. set (d' := with_convs _ _).
  assert (∀ c', conv_max d' c' = conv_max d c') as Hmax.
  { intros c'. unfold d'. rewrite conv_max_insert. case_bool_decide; [|done]. subst. unfold conv_max. by rewrite Hc. }
  assert (∀ c' cv, convs d !! c' = Some cv → convs d' !! c' = Some cv) as Hkeep.
  { intros c' cv H. unfold d'. simpl. rewrite lookup_insert_ne; [done|]. congruence. }
  split.
  - destruct Hd. split; try done.
    + intros c' cv Hcv. unfold d' in Hcv. simpl in Hcv.
      apply lookup_insert_Some in Hcv as [[<- <-]|[_ H]]; [done|]. by apply (ok_convs0 c' cv).
    + intros o c' uc Huc. destruct (ok_uc0 o c' uc Huc) as (H1 & H2 & [cv H3] & Hrest).
      unfold uc_ok. rewrite Hmax. split_and!; try done; [|apply Hrest..]. eauto.
    + intros a b Ha Hb. rewrite Hmax. by apply ok_single_rows0.
    + intros c'. rewrite Hmax. apply ok_seqs0.
    + intros m cv Hm Hcv. unfold d' in Hcv. simpl in Hcv.
      apply lookup_insert_Some in Hcv as [[Hcm <-]|[_ H]]; [|by eapply ok_last0].
      exfalso. assert (1 ≤ Msg_Seq m ≤ conv_max d (Msg_ConversationId m)) as Hr.
      { apply seq_range; [by split|eauto]. }
      rewrite <- Hcm in Hr. unfold conv_max in Hr. rewrite Hc in Hr. lia.
  - split; try done.
    + intros c' cv H. exists cv. split_and!; try done; eauto; lia.
    + intros c'. rewrite Hmax. lia.
    + intros o c' s (uc & Huc & Hv) _. exists uc. by rewrite Hmax in Hv.
    + intros o c'. unfold vmax. rewrite Hmax. done.
Qed.

Lemma single_missing_row d a b o :
  DbOk d → Valid a = true → Valid b = true → o = a ∨ o = b → userConvs d !! (o, Single a b) = None →
  conv_max d (Single a b) = 0.
Proof.
  intros Hd Ha Hb Ho Hnone. pose proof (conv_max_nonneg Hd (Single a b)) as H0.
  destruct (decide (0 < conv_max d (Single a b))) as [Hpos|]; [|lia].
  destruct (ok_single_rows d Hd a b Ha Hb Hpos) as [[x Hx] [y Hy]]. destruct Ho as [-> | ->]; congruence.
Qed.

(** The row of a party of a single chat that has none yet. *)
Lemma new_single_row_ok d a b o uc :
  DbOk d → Valid a = true → Valid b = true → o = a ∨ o = b → userConvs d !! (o, Single a b) = None →
  is_Some (convs d !! Single a b) → UC_OwnerId uc = o → UC_ConversationId uc = Single a b →
  UC_MinSeq uc = 1 → UC_MaxSeq uc = 0 → UC_ReadSeq uc = 0 → ms_exact (UC_UpdatedAt uc) →
  preserves d (with_userConvs d (<[(o, Single a b) := uc]> (userConvs d))).
Proof.
  intros Hd Ha Hb Ho Hnone Hconv E1 E2 E3 E4 E5 E6. pose proof (single_missing_row d a b o Hd Ha Hb Ho Hnone) as Hmax0.
  assert (VisibleMax uc 0 = 0) as Hvm by (unfold VisibleMax; by rewrite E4).
  split.
  - destruct Hd. split; simpl; try done.
    + intros o' c' uc' [[[= <- <-] <-]|[Hne H]]%lookup_insert_Some; [|by apply (ok_uc0 o' c' uc')].
      unfold uc_ok. change (conv_max (with_userConvs d _)) with (conv_max d). rewrite Hmax0, Hvm.
      split_and!; try done; lia.
    + intros g u. rewrite ok_member_uc0. rewrite lookup_insert_ne; [done|]. intros [= _ H]. by apply Single_not_Group in H.
    + intros a' b' o' uc' Ha' Hb' [[[= <- HS] <-]|[Hne H]]%lookup_insert_Some; [|by eapply ok_single0].
      split; [|done]. apply Single_inj in HS; auto using Valid_no_colon. naive_solver.
    + intros a' b' Ha' Hb' Hpos. destruct (ok_single_rows0 a' b' Ha' Hb' Hpos) as [Hx Hy].
      split; (rewrite lookup_insert_is_Some'; by right).
  - apply DbLe_same_history; simpl; try done.
    + intros o' c' s (uc' & Huc' & Hv) Hs. simpl in Huc'. change (conv_max (with_userConvs d _)) with (conv_max d) in Hv.
      apply lookup_insert_Some in Huc' as [[[= <- <-] <-]|[Hne H]]; [|by exists uc'].
      unfold visible_seq in Hv. lia.
    + intros o' c'. unfold vmax. simpl. change (conv_max (with_userConvs d _)) with (conv_max d).
      destruct (decide ((o', c') = (o, Single a b))) as [[= -> ->]|Hne].
      * rewrite Hnone, lookup_insert_eq, Hmax0, Hvm. lia.
      * by rewrite lookup_insert_ne.
    + intros o' c'. unfold rseq. simpl. destruct (decide ((o', c') = (o, Single a b))) as [[= -> ->]|Hne].
      * rewrite Hnone, lookup_insert_eq. lia.
      * by rewrite lookup_insert_ne.
Qed.

(** ** Appending a message *)

Definition bump (cv : Conversation) (seq now : Z) : Conversation :=
  mkConversation (Conv_ConversationId cv) (Conv_Type cv) (Conv_GroupId cv) seq (Conv_CreatedAt cv) now.

(** [InsertMessage] and [SetConversationMaxSeq] together. *)
Definition append_msg (d : Db) (cv : Conversation) (m : Message) : Db :=
  with_convs (with_messages d (messages d ++ [m]))
    (<[Msg_ConversationId m := bump cv (Msg_Seq m) (Msg_SendTime m)]> (convs d)).

Lemma conv_msgs_app c ms m :
  conv_msgs c (ms ++ [m]) = conv_msgs c ms ++ (if (Msg_ConversationId m =? c)%string then [m] else []).
Proof. unfold conv_msgs, keep. rewrite List.filter_app. simpl. by destruct (Msg_ConversationId m =? c)%string. Qed.

Lemma StronglySorted_snoc (l : list Z) x : StronglySorted Z.le l → Forall (λ y, y ≤ x) l → StronglySorted Z.le (l ++ [x]).
Proof.
  induction 1 as [|y l Hs IH Hy]; intros Hall; simpl; [repeat constructor|].
  apply Forall_cons in Hall as [? ?]. constructor; [by apply IH|]. apply Forall_app. split; [done|by repeat constructor].
Qed.

Lemma seqZ_snoc n : 0 ≤ n → seqZ 1 (n + 1) = seqZ 1 n ++ [n + 1].
Proof. intros. rewrite seqZ_app by lia. f_equal. replace (1 + n) with (n + 1) by lia. done. Qed.

Record can_append (d : Db) (cv : Conversation) (m : Message) : Prop := {
  ca_conv : convs d !! Msg_ConversationId m = Some cv;
  ca_seq : Msg_Seq m = Conv_MaxSeq cv + 1;
  ca_msg : msg_ok m;
  ca_time : Conv_UpdatedAt cv ≤ Msg_SendTime m;
  ca_ms : ms_exact (Msg_SendTime m);
  ca_fresh : existsb (Gen.conflicts m) (messages d) = false;
  ca_rows : ∀ a b, Valid a = true → Valid b = true → Msg_ConversationId m = Single a b →
    is_Some (userConvs d !! (a, Single a b)) ∧ is_Some (userConvs d !! (b, Single a b)) }.

Lemma fresh_keys m ms :
  existsb (Gen.conflicts m) ms = false →
  client_key m ∉ map client_key ms ∧ Msg_ServerMsgId m ∉ map Msg_ServerMsgId ms.
Proof.
  intros H.
  assert (∀ x, x ∈ ms → Gen.conflicts m x = false) as Hx.
  { intros x Hin. apply not_true_iff_false. intros Hc. rewrite list_elem_of_In in Hin.
    assert (existsb (Gen.conflicts m) ms = true); [|congruence]. apply existsb_exists. eauto. }
  split; intros (x & Heq & Hin)%list_elem_of_fmap; specialize (Hx x Hin); unfold Gen.conflicts in Hx.
  - unfold client_key in Heq. simplify_eq. rewrite H0, H1, H2, !String.eqb_refl, !orb_true_r in Hx. done.
  - rewrite Heq, String.eqb_refl in Hx. done.
Qed.

Lemma append_ok d cv m : DbOk d → can_append d cv m → preserves d (append_msg d cv m).
Proof.
  intros Hd [Hconv Hseq Hmsg Htime Hms Hfresh Hrows]. set (c := Msg_ConversationId m) in *.
  pose proof (conv_max_nonneg Hd c) as H0.
  assert (conv_max d c = Conv_MaxSeq cv) as Hcm by (unfold conv_max; by rewrite Hconv).
  assert (∀ c', conv_max (append_msg d cv m) c' = if bool_decide (c' = c) then conv_max d c + 1 else conv_max d c') as Hmax.
  { intros c'. unfold append_msg, conv_max. simpl. fold c. case_bool_decide.
    - subst. rewrite lookup_insert_eq. simpl. rewrite Hconv. lia.
    - by rewrite lookup_insert_ne. }
  assert (∀ c', conv_max d c' ≤ conv_max (append_msg d cv m) c') as Hge.
  { intros c'. rewrite Hmax. case_bool_decide; subst; lia. }
  assert (∀ uc c', VisibleMax uc (conv_max d c') ≤ VisibleMax uc (conv_max (append_msg d cv m) c')) as Hvge.
  { intros uc c'. specialize (Hge c'). unfold VisibleMax. case_match; lia. }
  destruct (fresh_keys _ _ Hfresh) as [Hfc Hfs].
  split.
  - pose proof Hd as Hd'. destruct Hd. split; simpl; try done.
    + intros c' cv' [[<- <-]|[_ H]]%lookup_insert_Some; [|by apply (ok_convs0 c' cv')].
      by destruct (ok_convs0 _ _ Hconv) as (? & ? & ?).
    + intros o c' uc Huc. destruct (ok_uc0 o c' uc Huc) as (? & ? & ? & ? & ? & ? & ?).
      specialize (Hge c'). specialize (Hvge uc c'). unfold uc_ok.
      split_and!; try done; try lia. simpl. fold c. rewrite lookup_insert_is_Some'. by right.
    + intros a b Ha Hb Hpos. rewrite Hmax in Hpos. case_bool_decide as Hab; [by apply Hrows|by apply ok_single_rows0].
    + intros c'. destruct (ok_seqs0 c') as [Hn Hs]. rewrite Hmax. unfold seqs_of. simpl. rewrite conv_msgs_app, map_app.
      fold c. case_bool_decide as Hc'.
      * subst c'. rewrite String.eqb_refl. simpl. split; [lia|]. rewrite seqZ_snoc by done.
        unfold seqs_of in Hs. rewrite Hs, Hseq. by rewrite Hcm.
      * replace (c =? c')%string with false by (symmetry; by apply String.eqb_neq). by rewrite app_nil_r.
    + apply Forall_app. split; [done|]. constructor; [done|constructor].
    + rewrite map_app. apply NoDup_app. split_and!; [done| |apply NoDup_singleton].
      intros x Hx ->%list_elem_of_singleton. done.
    + rewrite map_app. apply NoDup_app. split_and!; [done| |apply NoDup_singleton].
      intros x Hx ->%list_elem_of_singleton. done.
    + intros c'. rewrite conv_msgs_app, map_app. fold c. destruct (c =? c')%string eqn:Ec; simpl; [|by rewrite app_nil_r].
      bool_prop. subst c'. apply StronglySorted_snoc; [done|]. apply Forall_fmap, Forall_forall. intros x Hx. simpl.
      apply (elem_of_conv_msgs (d := d)) in Hx as [Hx Hxc]. rewrite <- Hxc in Hconv. pose proof (ok_last0 x cv Hx Hconv). lia.
    + intros x cv' Hx Hcv'. apply elem_of_app in Hx as [Hx|Hx%list_elem_of_singleton].
      * apply lookup_insert_Some in Hcv' as [[Hc <-]|[_ H]]; [|by eapply ok_last0]. simpl. fold c in Hc.
        rewrite Hc in Hconv. pose proof (ok_last0 x cv Hx Hconv). lia.
      * subst x. rewrite lookup_insert_eq in Hcv'. simplify_eq. simpl. lia.
  - split; try done.
    + intros c' cv' H. simpl. fold c. destruct (decide (c' = c)) as [->|Hne].
      * rewrite lookup_insert_eq. simplify_eq. eexists. split; [done|]. simpl. split_and!; try done; lia.
      * rewrite lookup_insert_ne by done. exists cv'. split_and!; try done; lia.
    + simpl. by eexists.
    + intros o c' s (uc & Huc & Hv) Hs. exists uc. split; [done|]. unfold visible_seq in *. lia.
    + intros o c'. unfold vmax. simpl. destruct (userConvs d !! (o, c')); [apply Hvge|done].
Qed.

(** ** Membership *)

(** The membership row and the conversation row of [u] in group [g] become [om] and [oru]. *)
Definition change_member (d : Db) (g u : string) (om : option GroupMember) (oru : option UserConversation) : Db :=
  with_userConvs (with_members d (partial_alter (λ _, om) (g, u) (members d)))
    (partial_alter (λ _, oru) (u, GroupConv g) (userConvs d)).

Record can_change (d : Db) (g u : string) (om : option GroupMember) (oru : option UserConversation) : Prop := {
  cc_group : is_Some (groups d !! g);
  cc_member : ∀ m, om = Some m → GM_GroupId m = g ∧ GM_UserId m = u;
  cc_row : ∀ uc, oru = Some uc → uc_ok d u (GroupConv g) uc;
  cc_iff : is_Some om ↔ ∃ uc, oru = Some uc ∧ UC_MaxSeq uc = 0;
  cc_visible : ∀ uc s, oru = Some uc → visible_seq uc (conv_max d (GroupConv g)) s → visible d u (GroupConv g) s;
  cc_vmax : vmax d u (GroupConv g) ≤ match oru with Some uc => VisibleMax uc (conv_max d (GroupConv g)) | None => 0 end;
  cc_read : rseq d u (GroupConv g) ≤ match oru with Some uc => UC_ReadSeq uc | None => 0 end }.

Lemma lookup_change {A} (t : gmap key A) k k' (x : option A) :
  partial_alter (λ _, x) k t !! k' = if bool_decide (k' = k) then x else t !! k'.
Proof.
  case_bool_decide as H; [subst; by rewrite lookup_partial_alter_eq|by rewrite lookup_partial_alter_ne].
Qed.

Lemma change_member_ok d g u om oru : DbOk d → can_change d g u om oru → preserves d (change_member d g u om oru).
Proof.
  intros Hd [Hg Hm Hrow Hiff Hvis Hvm Hrd]. set (d' := change_member d g u om oru).
  assert (∀ o c, userConvs d' !! (o, c) = if bool_decide ((o, c) = (u, GroupConv g)) then oru else userConvs d !! (o, c)) as Hu'
    by (intros; apply lookup_change).
  assert (∀ g' u', members d' !! (g', u') = if bool_decide ((g', u') = (g, u)) then om else members d !! (g', u')) as Hm'
    by (intros; apply lookup_change).
  split.
  - destruct Hd. split; try done.
    + intros g' u' m. rewrite Hm'. case_bool_decide as H; [simplify_eq; intros Hom; by apply Hm in Hom as [? ?]|apply ok_members0].
    + intros o c uc. rewrite Hu'. case_bool_decide as H; [simplify_eq; apply Hrow|apply ok_uc0].
    + intros g' u'. rewrite Hm', Hu'.
      destruct (decide (g' = g ∧ u' = u)) as [[-> ->]|Hne]; [by rewrite !bool_decide_true|].
      rewrite !bool_decide_false; [done|intros [=]; naive_solver..].
    + intros a b o uc Ha Hb. rewrite Hu'. rewrite bool_decide_false by (intros [= _ H]; by apply Single_not_Group in H). by apply ok_single0.
    + intros a b Ha Hb Hpos. rewrite !Hu'. rewrite !bool_decide_false by (intros [= _ H]; by apply Single_not_Group in H). by apply ok_single_rows0.
  - apply DbLe_same_history; try done.
    + intros o c s (uc & Huc & Hv) Hs. rewrite Hu' in Huc. case_bool_decide as H; [simplify_eq; by eapply Hvis|by exists uc].
    + intros o c. unfold vmax at 2. rewrite Hu'. change (conv_max d') with (conv_max d).
      case_bool_decide as H; [by simplify_eq|done].
    + intros o c. unfold rseq at 2. rewrite Hu'. case_bool_decide as H; [by simplify_eq|done].
Qed.

(** A member joins: it sees what comes after the current maximum. *)
Lemma join_can d g u m uc :
  DbOk d → is_Some (groups d !! g) → is_Some (convs d !! GroupConv g) →
  GM_GroupId m = g → GM_UserId m = u →
  UC_OwnerId uc = u → UC_ConversationId uc = GroupConv g → UC_MinSeq uc = conv_max d (GroupConv g) + 1 →
  UC_MaxSeq uc = 0 → UC_ReadSeq uc = conv_max d (GroupConv g) → ms_exact (UC_UpdatedAt uc) →
  can_change d g u (Some m) (Some uc).
Proof.
  intros Hd Hg Hc Hm1 Hm2 E1 E2 E3 E4 E5 E6. pose proof (conv_max_nonneg Hd (GroupConv g)) as H0.
  assert (VisibleMax uc (conv_max d (GroupConv g)) = conv_max d (GroupConv g)) as Hvm by (unfold VisibleMax; by rewrite E4).
  split; try done.
  - by intros ? [= <-].
  - intros ? [= <-]. unfold uc_ok. rewrite Hvm. split_and!; try done; lia.
  - split; eauto.
  - intros ? s [= <-] [? _]. lia.
  - rewrite Hvm. by apply vmax_le.
  - rewrite E5. pose proof (rseq_le_vmax Hd u (GroupConv g)). pose proof (vmax_le Hd u (GroupConv g)). lia.
Qed.

(** A member leaves a group with messages: its range is frozen at the current maximum. *)
Lemma leave_can d g u m uc :
  DbOk d → members d !! (g, u) = Some m → userConvs d !! (u, GroupConv g) = Some uc →
  0 < conv_max d (GroupConv g) →
  can_change d g u None (Some (UC_set_MaxSeq uc (conv_max d (GroupConv g)))).
Proof.
  intros Hd Hm Huc Hpos. destruct (ok_members d Hd g u m Hm) as (_ & _ & Hg).
  destruct (ok_uc d Hd _ _ _ Huc) as (? & ? & ? & ? & ? & Hr & ?).
  destruct (proj1 (ok_member_uc d Hd g u)) as (uc' & Huc' & Hmax0); [by eexists|]. simplify_eq.
  assert (VisibleMax uc (conv_max d (GroupConv g)) = conv_max d (GroupConv g)) as Hvm by (unfold VisibleMax; by rewrite Hmax0).
  assert (VisibleMax (UC_set_MaxSeq uc (conv_max d (GroupConv g))) (conv_max d (GroupConv g)) = conv_max d (GroupConv g)) as Hvm'.
  { unfold VisibleMax. simpl. case_match; lia. }
  split; try done.
  - intros ? [= <-]. unfold uc_ok. rewrite Hvm'. simpl. split_and!; try done; lia.
  - split; [by intros []|]. intros (? & [= <-] & H'). simpl in H'. lia.
  - intros ? s [= <-] [Hs1 Hs2]. exists uc. split; [done|]. simpl in *. split; [done|by left].
  - rewrite Hvm'. by apply vmax_le.
  - unfold rseq. rewrite Huc. simpl. lia.
Qed.

(** A member leaves a group that never had a message: its row goes. *)
Lemma leave_empty_can d g u m :
  DbOk d → members d !! (g, u) = Some m → conv_max d (GroupConv g) = 0 → can_change d g u None None.
Proof.
  intros Hd Hm H0. destruct (ok_members d Hd g u m Hm) as (_ & _ & Hg).
  pose proof (vmax_le Hd u (GroupConv g)). pose proof (rseq_le_vmax Hd u (GroupConv g)).
  split; try done; try lia. split; [by intros []|by intros (? & ? & _)].
Qed.

(** A group with no conversation and no members yet. *)
Lemma new_group_ok d g :
  DbOk d → groups d !! Group_Id g = None → preserves d (with_groups d (<[Group_Id g := g]> (groups d))).
Proof.
  intros Hd Hnone.
  assert (∀ x, is_Some (groups d !! x) → is_Some (<[Group_Id g := g]> (groups d) !! x)) as Hkeep
    by (intros x Hx; rewrite lookup_insert_is_Some'; by right).
  split.
  - destruct Hd. split; simpl; try done.
    + intros id g' [[<- <-]|[_ H]]%lookup_insert_Some; [done|by apply ok_groups0].
    + intros g' u m Hm. destruct (ok_members0 g' u m Hm) as (? & ? & ?). split_and!; try done. by apply Hkeep.
    + intros c cv Hc. destruct (ok_convs0 c cv Hc) as (? & ? & [(? & ? & ?)|?]); split_and!; try done; [left|by right].
      split_and!; try done. by apply Hkeep.
  - apply DbLe_same_history; try done. simpl. by apply insert_subseteq.
Qed.

(** The initial members of a group, added by the two bulk inserts. *)
Lemma create_members_ok g (mk : string → GroupMember) (uk : string → UserConversation) ids d t t' :
  (∀ id, GM_GroupId (mk id) = g ∧ GM_UserId (mk id) = id) →
  (∀ id, UC_OwnerId (uk id) = id ∧ UC_ConversationId (uk id) = GroupConv g ∧ UC_MinSeq (uk id) = 1 ∧
         UC_MaxSeq (uk id) = 0 ∧ UC_ReadSeq (uk id) = 0 ∧ ms_exact (UC_UpdatedAt (uk id))) →
  DbOk d → is_Some (groups d !! g) → is_Some (convs d !! GroupConv g) → conv_max d (GroupConv g) = 0 →
  Gen.copy_members (map mk ids) (members d) = Some t →
  Gen.copy_userConvs (map uk ids) (userConvs d) = Some t' →
  preserves d (with_userConvs (with_members d t) t').
Proof.
  intros Hmk Huk. revert d t t'. induction ids as [|id ids IH]; intros d t t' Hd Hg Hc H0; simpl.
  - intros [= <-] [= <-]. destruct d. by apply preserves_refl.
  - destruct (Hmk id) as [E1 E2]. destruct (Huk id) as (F1 & F2 & F3 & F4 & F5 & F6). rewrite E1, E2, F1, F2.
    destruct (members d !! (g, id)) eqn:Em; [done|]. destruct (userConvs d !! (id, GroupConv g)) eqn:Eu; [done|].
    intros Ht Ht'.
    assert (preserves d (change_member d g id (Some (mk id)) (Some (uk id)))) as Hp.
    { apply change_member_ok; [done|]. apply join_can; try done; lia. }
    eapply preserves_trans; [exact Hp|]. destruct Hp as [Hok _].
    apply (IH (change_member d g id (Some (mk id)) (Some (uk id))) t t'); done.
Qed.

#[export] Hint Resolve preserves_refl : nexo.
