(* ===== verification/History.v ===== *)
(** * Reading the history of a conversation

    What the [messages] queries return on a database that satisfies the invariant: a range of seqs
    inside [1 .. max_seq] is answered completely, in order, and answers do not change when later
    messages are added. *)

From S2P Require Import Prelude Errcode Strconv Identity Store PgStore Conv DbInv.

Local Open Scope Z_scope.

Definition in_range (b e : Z) (m : Message) : bool := (b <=? Msg_Seq m) && (Msg_Seq m <=? e).

Definition range_msgs (d : Db) (c : string) (b e : Z) : list Message := keep (in_range b e) (conv_msgs c (messages d)).

Lemma keep_app {A} (f : A → bool) l k : keep f (l ++ k) = keep f l ++ keep f k.
Proof. apply List.filter_app. Qed.

Lemma keep_keep {A} (f g : A → bool) l : keep f (keep g l) = keep (λ x, g x && f x) l.
Proof.
  unfold keep. induction l as [|x l IH]; simpl; [done|]. destruct (g x) eqn:Eg; simpl; [|done].
  by destruct (f x); simpl; rewrite IH.
Qed.

Lemma keep_all {A} (f : A → bool) l : (∀ x, x ∈ l → f x = true) → keep f l = l.
Proof.
  unfold keep. induction l as [|x l IH]; intros H; simpl; [done|]. rewrite (H x) by set_solver. f_equal. apply IH. set_solver.
Qed.

Lemma keep_none {A} (f : A → bool) l : (∀ x, x ∈ l → f x = false) → keep f l = [].
Proof.
  unfold keep. induction l as [|x l IH]; intros H; simpl; [done|]. rewrite (H x) by set_solver. apply IH. set_solver.
Qed.

Lemma elem_of_keep {A} (f : A → bool) l x : x ∈ keep f l ↔ x ∈ l ∧ f x = true.
Proof. unfold keep. rewrite !list_elem_of_In, filter_In. done. Qed.

Lemma map_keep {A B} (f : B → bool) (g : A → B) l : map g (keep (λ x, f (g x)) l) = keep f (map g l).
Proof. unfold keep. induction l as [|x l IH]; simpl; [done|]. destruct (f (g x)); simpl; by rewrite IH. Qed.

Lemma keep_seqZ b e n : 1 ≤ b → b ≤ e + 1 → e ≤ n → keep (λ s, (b <=? s) && (s <=? e)) (seqZ 1 n) = seqZ b (e - b + 1).
Proof.
  intros Hb He Hn.
  replace (seqZ 1 n) with (seqZ 1 (b - 1) ++ seqZ b (e - b + 1) ++ seqZ (e + 1) (n - e)).
  - rewrite !keep_app, (keep_none _ (seqZ 1 (b - 1))), (keep_none _ (seqZ (e + 1) (n - e))), keep_all, app_nil_r; [done|..];
      intros x Hx%elem_of_seqZ; lia.
  - transitivity (seqZ 1 ((b - 1) + ((e - b + 1) + (n - e)))); [|f_equal; lia].
    rewrite (seqZ_app 1 (b - 1) ((e - b + 1) + (n - e))) by lia. f_equal.
    replace (1 + (b - 1)) with b by lia. rewrite (seqZ_app b (e - b + 1) (n - e)) by lia.
    by replace (b + (e - b + 1)) with (e + 1) by lia.
Qed.

(** A range inside the conversation holds each of its seqs exactly once, in order. *)
Lemma range_seqs d c b e :
  DbOk d → 1 ≤ b → b ≤ e + 1 → e ≤ conv_max d c → map Msg_Seq (range_msgs d c b e) = seqZ b (e - b + 1).
Proof.
  intros Hd Hb Hbe He. unfold range_msgs. destruct (ok_seqs d Hd c) as [H0 Hs].
  rewrite <- (keep_seqZ b e (conv_max d c)) by done. rewrite <- Hs. unfold seqs_of.
  apply (map_keep (λ s, (b <=? s) && (s <=? e)) Msg_Seq).
Qed.

Lemma seqZ_sorted s n : StronglySorted Z.lt (seqZ s n).
Proof.
  unfold seqZ. generalize (Z.to_nat n) as k. intros k.
  assert (∀ i, StronglySorted Z.lt ((λ i : nat, Z.of_nat i + s) <$> seq i k)) as H; [|apply H].
  induction k as [|k IH]; intros i; simpl; [constructor|]. constructor; [apply IH|].
  apply Forall_fmap, Forall_forall. intros j Hj%elem_of_seq. simpl. lia.
Qed.

Lemma StronglySorted_map {A B} (R : relation B) (f : A → B) l :
  StronglySorted R (map f l) → StronglySorted (λ x y, R (f x) (f y)) l.
Proof.
  induction l as [|x l IH]; simpl; [constructor|]. intros H. inversion H as [|? ? Hs Hf]; subst.
  constructor; [by apply IH|]. apply Forall_forall. intros y Hy. rewrite Forall_forall in Hf. apply Hf. by apply list_elem_of_fmap_2.
Qed.

Lemma StronglySorted_keep {A} (R : relation A) f l : StronglySorted R l → StronglySorted R (keep f l).
Proof.
  unfold keep. induction 1 as [|x l Hs IH Hx]; simpl; [constructor|]. destruct (f x); [|done]. constructor; [done|].
  rewrite Forall_forall in *. intros y Hy. apply Hx. by apply elem_of_keep in Hy as [? _].
Qed.

(** The messages of a conversation are already in seq order. *)
Lemma conv_msgs_sorted d c : DbOk d → StronglySorted (λ x y, Msg_Seq x < Msg_Seq y) (conv_msgs c (messages d)).
Proof.
  intros Hd. destruct (ok_seqs d Hd c) as [_ Hs]. apply (StronglySorted_map Z.lt Msg_Seq).
  change (map Msg_Seq (conv_msgs c (messages d))) with (seqs_of d c). rewrite Hs. apply seqZ_sorted.
Qed.

Lemma sorted_unique_seq l x y : StronglySorted (λ x y, Msg_Seq x < Msg_Seq y) l → x ∈ l → y ∈ l → Msg_Seq x = Msg_Seq y → x = y.
Proof.
  induction 1 as [|z l Hs IH Hz]; [by intros ?%not_elem_of_nil|]. rewrite Forall_forall in Hz.
  rewrite !elem_of_cons. intros [->|Hx] [->|Hy] E; try done.
  - specialize (Hz y Hy). lia.
  - specialize (Hz x Hx). lia.
  - by apply IH.
Qed.

#[export] Instance seq_leb_total : Total (λ x y, Is_true (seq_leb x y)).
Proof. intros x y. unfold seq_leb. rewrite !Is_true_true, !Z.leb_le. lia. Qed.
#[export] Instance seq_leb_trans : Transitive (λ x y, Is_true (seq_leb x y)).
Proof. intros x y z. unfold seq_leb. rewrite !Is_true_true, !Z.leb_le. lia. Qed.

(** Sorting by seq leaves a list in strict seq order as it is. *)
Lemma sort_seq_id l : StronglySorted (λ x y, Msg_Seq x < Msg_Seq y) l → sortBy seq_leb l = l.
Proof.
  intros Hl. unfold sortBy. apply (StronglySorted_unique_strong (λ x y, Is_true (seq_leb x y))).
  - intros x y Hx Hy H1 H2. unfold seq_leb in *. rewrite Is_true_true, Z.leb_le in H1, H2.
    rewrite merge_sort_Permutation in Hx. eapply sorted_unique_seq; eauto. lia.
  - apply StronglySorted_merge_sort; apply _.
  - clear -Hl. induction Hl as [|x l Hs IH Hx]; constructor; [done|]. eapply Forall_impl; [exact Hx|].
    intros y Hy. unfold seq_leb. apply Is_true_true, Z.leb_le. simpl in Hy. lia.
  - apply merge_sort_Permutation.
Qed.

Lemma ListMessages_range d c b e lim :
  DbOk d → Gen.ListMessages c b e lim d = LIMIT lim (range_msgs d c b e).
Proof.
  intros Hd. unfold Gen.ListMessages, range_msgs, conv_msgs. rewrite keep_keep. f_equal.
  rewrite <- sort_seq_id with (l := keep (λ x, (Msg_ConversationId x =? c)%string && in_range b e x) (messages d)).
  - f_equal. unfold keep. apply filter_ext. intros m. unfold in_range. by rewrite andb_assoc.
  - rewrite <- keep_keep. by apply StronglySorted_keep, conv_msgs_sorted.
Qed.

(** Later messages do not change the answer for a range that was complete. *)
Lemma range_msgs_stable d d' c b e :
  DbOk d → DbOk d' → DbLe d d' → e ≤ conv_max d c → range_msgs d' c b e = range_msgs d c b e.
Proof.
  intros Hd Hd' Hle He. destruct (le_msgs _ _ Hle) as [l Hl]. unfold range_msgs. rewrite Hl.
  unfold conv_msgs. rewrite keep_app, keep_app. rewrite (keep_none (in_range b e) (keep _ l)), app_nil_r; [done|].
  intros m Hm. unfold in_range.
  destruct (ok_seqs d Hd c) as [H0 Hs]. destruct (ok_seqs d' Hd' c) as [H0' Hs']. unfold seqs_of in *.
  rewrite Hl in Hs'. unfold conv_msgs in *. rewrite keep_app, map_app, Hs in Hs'.
  pose proof (le_max _ _ Hle c) as Hmax.
  replace (conv_max d' c) with (conv_max d c + (conv_max d' c - conv_max d c)) in Hs' by lia.
  rewrite seqZ_app in Hs' by lia. apply app_inv_head in Hs'.
  assert (Msg_Seq m ∈ seqZ (1 + conv_max d c) (conv_max d' c - conv_max d c)) as Hin.
  { rewrite <- Hs'. by apply list_elem_of_fmap_2. }
  apply elem_of_seqZ in Hin. replace (Msg_Seq m <=? e) with false by (symmetry; lia). by rewrite andb_false_r.
Qed.

(** The message of a seq. *)
Lemma GetMessages_one d c s :
  DbOk d → Gen.GetMessages [(c, s)] d = inl (range_msgs d c s s).
Proof.
  intros Hd. unfold Gen.GetMessages, range_msgs, conv_msgs. rewrite keep_keep. f_equal.
  generalize (messages d) as ms. induction ms as [|m ms IH]; [done|]. simpl in IH |- *. rewrite IH. unfold in_range.
  destruct (c =? Msg_ConversationId m)%string eqn:E1; destruct (Msg_ConversationId m =? c)%string eqn:E2;
    bool_prop; try congruence; simpl; [|done].
  destruct (s =? Msg_Seq m) eqn:E3; simpl.
  - apply Z.eqb_eq in E3. by replace ((s <=? Msg_Seq m) && (Msg_Seq m <=? s)) with true by (symmetry; lia).
  - apply Z.eqb_neq in E3. by replace ((s <=? Msg_Seq m) && (Msg_Seq m <=? s)) with false by (symmetry; lia).
Qed.

(** ** Push authorization *)

Definition covers (d : Db) (o c : string) (s : Z) : Prop :=
  ∃ uc, userConvs d !! (o, c) = Some uc ∧ UC_MinSeq uc ≤ s ∧ (UC_MaxSeq uc = 0 ∨ s ≤ UC_MaxSeq uc).

Definition muted (d : Db) (o c : string) : Prop :=
  ∃ uc, userConvs d !! (o, c) = Some uc ∧ UC_RecvMsgOpt uc ≠ 0.

(** The owners a filter on the rows of a conversation keeps. *)
Lemma owners_of d c ids (p : UserConversation → bool) x :
  DbOk d →
  x ∈ map UC_OwnerId (keep (λ uc, (UC_ConversationId uc =? c)%string && in_list (UC_OwnerId uc) ids && p uc) (rows (userConvs d))) ↔
  x ∈ ids ∧ ∃ uc, userConvs d !! (x, c) = Some uc ∧ p uc = true.
Proof.
  intros Hd. rewrite list_elem_of_fmap. split.
  - intros (uc & -> & Hin). apply elem_of_keep in Hin as [[[o c'] Hk]%elem_of_rows Hp].
    destruct (ok_uc d Hd o c' uc Hk) as (Eo & Ec & _). unfold in_list in Hp. bool_prop. subst o c'.
    split; [done|]. exists uc. split; [congruence|done].
  - intros [Hx (uc & Huc & Hp)]. destruct (ok_uc d Hd x c uc Huc) as (Eo & Ec & _). exists uc. split; [done|].
    apply elem_of_keep. split; [apply elem_of_rows; eauto|]. unfold in_list.
    rewrite Ec, Eo, String.eqb_refl, Hp. by rewrite bool_decide_true.
Qed.

Lemma VisibleOwners_spec d c ids s out d' :
  DbOk d → VisibleOwners c ids s d = (Ok out, d') → d' = d ∧ ∀ x, x ∈ out ↔ x ∈ ids ∧ covers d x c s.
Proof.
  intros Hd. unfold VisibleOwners. destruct ids as [|i0 ids0]; [intros [= <- <-]; set_solver|]. simpl.
  intros [= <- <-]. split; [done|]. intros x.
  replace (map UC_OwnerId (keep _ _)) with (map UC_OwnerId (keep (λ uc, (UC_ConversationId uc =? c)%string
    && in_list (UC_OwnerId uc) (i0 :: ids0) && ((UC_MinSeq uc <=? s) && ((UC_MaxSeq uc =? 0) || (s <=? UC_MaxSeq uc)))) (rows (userConvs d)))).
  - rewrite owners_of by done. unfold covers. split; intros [Hx (uc & Huc & Hp)]; (split; [done|]); exists uc; (split; [done|]).
    + apply andb_true_iff in Hp as [Hmin Hp]. apply orb_true_iff in Hp. lia.
    + apply andb_true_iff. split; [lia|]. apply orb_true_iff. lia.
  - f_equal. unfold keep. apply filter_ext. intros uc. by rewrite !andb_assoc.
Qed.

Lemma MutedOwners_spec d c ids out d' :
  DbOk d → MutedOwners c ids d = (Ok out, d') → d' = d ∧ ∀ x, x ∈ out ↔ x ∈ ids ∧ muted d x c.
Proof.
  intros Hd. unfold MutedOwners. destruct ids as [|i0 ids0]; [intros [= <- <-]; set_solver|]. simpl.
  intros [= <- <-]. split; [done|]. intros x. rewrite owners_of by done. unfold muted.
  split; intros [Hx (uc & Huc & Hp)]; (split; [done|]); exists uc; (split; [done|]); [bool_prop; done|].
  apply negb_true_iff. by apply Z.eqb_neq.
Qed.

Lemma VisibleOwners_reads c ids s d : (VisibleOwners c ids s d).2 = d.
Proof. unfold VisibleOwners. by destruct (length ids =? 0)%nat. Qed.

Lemma MutedOwners_reads c ids d : (MutedOwners c ids d).2 = d.
Proof. unfold MutedOwners. by destruct (length ids =? 0)%nat. Qed.
