(* ===== verification/WorldInv.v ===== *)
(** * The invariant of the world and how it may evolve

    [winv] extends the database invariant to the bus, the offline pushes and the state of
    every node; [wrely] is the guarantee of each step and so what a request may rely on
    between its own steps. The rules [wp_call], [wp_tx], ... reduce a step of a request to the
    facts about the database proved in [DbInv]. *)

From S2P Require Import Prelude Errcode Strconv Identity Json Store PgStore Conv DbInv Conc RateLimit MemberCache World MessageSvc History.

Local Open Scope Z_scope.

(** The capacity bound: fewer than [2^63 - 1] messages. *)
Definition db_bnd (d : Db) : Prop := Z.of_nat (length (messages d)) < maxInt64.

Section WorldInv.
Context `{RL : RateLib} `{EN : Env}.

Definition bnd (w : World) : Prop := db_bnd (w_db w).

(** An event for a committed message. *)
Definition event_of (d : Db) (ev : PushEvent) : Prop :=
  ∃ m conn, m ∈ messages d ∧ ev = pushEvent m conn.

Definition bus_event_ok (d : Db) (e : BusEvent) : Prop :=
  match BE_Payload e with
  | TypePush p => ∃ ev, event_of d ev ∧ pushPayload ev = Some p
  | TypeGroupChanged g => is_Some (groups d !! g)
  | TypeConvRead e => 1 ≤ RE_ReadSeq e ≤ rseq d (RE_UserId e) (RE_ConversationId e)
  | _ => True
  end.

(** An offline push goes to users other than the sender whose row covered the message. *)
Definition push_ok (w : World) (p : list string * Notification) : Prop :=
  (∃ ev, event_of (w_db w) ev ∧ p.2 = notification ev) ∧
  ∀ id, id ∈ p.1 → id ≠ N_SenderId p.2 ∧
    (∃ d, d ∈ w_past w ∧ covers d id (N_ConversationId p.2) (N_Seq p.2)) ∧
    (∃ d, d ∈ w_past w ∧ ¬ muted d id (N_ConversationId p.2)).

(** A group message is sent by a member of a group that is not dismissed. *)
Definition sendable (d : Db) (m : Message) : Prop :=
  Msg_SessionType m = ConversationGroup →
  is_Some (members d !! (Msg_GroupId m, Msg_SenderId m)) ∧
  ∃ g, groups d !! Msg_GroupId m = Some g ∧ Group_Status g ≠ GroupStatusDismissed.

(** A change that posts only messages their senders may send. *)
Definition posts (d d' : Db) : Prop := ∀ m, m ∈ messages d' → m ∈ messages d ∨ sendable d m.

Definition quiet (d d' : Db) : Prop := preserves d d' ∧ messages d' = messages d.

Record node_ok (d : Db) (n : Node) : Prop := {
  no_limit : Keyed_ok (n_sendLimit n);
  no_max : k_max (n_sendLimit n) = maxTrackedSenders;
  no_cache : mc_ok (n_members n);
  no_sem : (n_pushSem n ≤ offlinePushWorkers)%nat;
  no_jobs : Forall (event_of d) (n_pushJobs n) }.

Record winv (w : World) : Prop := {
  wi_db : DbOk (w_db w);
  wi_bus : Forall (bus_event_ok (w_db w)) (w_bus w);
  wi_push : Forall (push_ok w) (w_pushes w);
  wi_nodes : ∀ nd, node_ok (w_db w) (w_nodes w nd);
  wi_sent : ∀ m, m ∈ messages (w_db w) → ∃ d, d ∈ w_past w ∧ sendable d m;
  wi_past : last (w_past w) = Some (w_db w) }.

Record wrely (w w' : World) : Prop := {
  wr_db : DbLe (w_db w) (w_db w');
  wr_bus : w_bus w `prefix_of` w_bus w';
  wr_push : w_pushes w `prefix_of` w_pushes w';
  wr_past : w_past w `prefix_of` w_past w' }.

#[global] Instance wrely_preorder : PreOrder wrely.
Proof.
  split.
  - intros w. split; reflexivity.
  - intros w1 w2 w3 [A1 B1 C1 D1] [A2 B2 C2 D2]. split; [by transitivity (w_db w2)|by transitivity (w_bus w2)
      |by transitivity (w_pushes w2)|by transitivity (w_past w2)].
Qed.

(** [d] is a state the database had between [w0] and [w]. *)
Definition during (w0 w : World) (d : Db) : Prop :=
  d = w_db w0 ∨ ∃ l, w_past w = w_past w0 ++ l ∧ d ∈ l.

Lemma past_last w : winv w → w_db w ∈ w_past w.
Proof. intros [_ _ _ _ _ H]. apply last_Some in H as [l ->]. apply elem_of_app. right. by apply list_elem_of_singleton. Qed.

Lemma during_now w0 w : winv w0 → winv w → wrely w0 w → during w0 w (w_db w).
Proof.
  intros H0 H [_ _ _ [l Hl]]. pose proof (wi_past _ H0) as E0. pose proof (wi_past _ H) as E. rewrite Hl in E.
  destruct l as [|x l].
  - rewrite app_nil_r in E. left. congruence.
  - right. exists (x :: l). split; [done|]. rewrite last_app in E. destruct (last (x :: l)) as [y|] eqn:Ey.
    + injection E as ->. apply last_Some in Ey as [l' ->]. apply elem_of_app. right. by apply list_elem_of_singleton.
    + by apply last_None in Ey.
Qed.

Lemma during_mono w0 w w' d : wrely w w' → during w0 w d → during w0 w' d.
Proof.
  intros [_ _ _ [l' Hl']] [->|(l & Hl & Hd)]; [by left|]. right. exists (l ++ l').
  rewrite Hl', Hl, app_assoc. split; [done|]. apply elem_of_app. by left.
Qed.

(** ** Facts that stay true *)

Lemma event_of_mono d d' ev : DbLe d d' → event_of d ev → event_of d' ev.
Proof.
  intros Hle (m & conn & Hm & ->). exists m, conn. split; [|done].
  destruct (le_msgs d d' Hle) as [l ->]. apply elem_of_app. by left.
Qed.

Lemma bus_event_mono d d' e : DbLe d d' → bus_event_ok d e → bus_event_ok d' e.
Proof.
  intros Hle. unfold bus_event_ok. destruct (BE_Payload e); try done.
  - intros (ev & ? & ?). exists ev. split; [by eapply event_of_mono|done].
  - intros [g Hg]. exists g. eapply lookup_weaken; [done|]. apply (le_groups d d' Hle).
  - intros ?. pose proof (le_read d d' Hle (RE_UserId e0) (RE_ConversationId e0)). lia.
Qed.

Lemma push_ok_mono w w' p : wrely w w' → push_ok w p → push_ok w' p.
Proof.
  intros [Hle _ _ [l Hl]] [(ev & Hev & Hp) Hids]. split.
  - exists ev. split; [by eapply event_of_mono|done].
  - intros id Hid. destruct (Hids id Hid) as (Hne & (d & Hd & Hc) & (d2 & Hd2 & Hm)). split; [done|].
    split; [exists d|exists d2]; (split; [rewrite Hl; apply elem_of_app; by left|done]).
Qed.

Lemma node_ok_mono d d' n : DbLe d d' → node_ok d n → node_ok d' n.
Proof.
  intros Hle [H1 H2 H3 H4 H5]. split; try done. eapply Forall_impl; [exact H5|]. intros. by eapply event_of_mono.
Qed.

(** ** Steps *)

Lemma set_tick_ok w t : winv w → winv (w_set_tick w t) ∧ wrely w (w_set_tick w t).
Proof. intros [H1 H2 H3 H4 H6 H5]. split; [by split|]. split; reflexivity. Qed.

Lemma set_db_ok w d t : winv w → preserves (w_db w) d → posts (w_db w) d → winv (w_set_db w d t) ∧ wrely w (w_set_db w d t).
Proof.
  intros [H1 H2 H3 H4 H6 H5] [Hd Hle] Hposts.
  assert (wrely w (w_set_db w d t)) as Hr.
  { split; simpl; try done. by eexists. }
  split; [|done]. split; simpl; try done.
  - eapply Forall_impl; [exact H2|]. intros. by eapply bus_event_mono.
  - eapply Forall_impl; [exact H3|]. intros. by eapply push_ok_mono.
  - intros nd. by eapply node_ok_mono.
  - intros m Hm. destruct (Hposts m Hm) as [Hold|Hnew].
    + destruct (H6 m Hold) as (d0 & Hd0 & Hs). exists d0. split; [apply elem_of_app; by left|done].
    + exists (w_db w). split; [|done]. apply elem_of_app. left. by apply past_last.
  - by rewrite last_snoc.
Qed.

Lemma set_node_ok w nd n : winv w → node_ok (w_db w) n → winv (w_set_node w nd n) ∧ wrely w (w_set_node w nd n).
Proof.
  intros [H1 H2 H3 H4 H6 H5] Hn. split; [|split; reflexivity]. split; try done.
  intros nd'. simpl. by case_bool_decide.
Qed.

Lemma add_bus_ok w e : winv w → bus_event_ok (w_db w) e → winv (w_add_bus w e) ∧ wrely w (w_add_bus w e).
Proof.
  intros [H1 H2 H3 H4 H6 H5] He. split.
  - split; simpl; try done. apply Forall_app. split; [done|]. constructor; [done|constructor].
  - split; simpl; try reflexivity. by eexists.
Qed.

Lemma add_push_ok w p : winv w → push_ok w p → winv (w_add_push w p) ∧ wrely w (w_add_push w p).
Proof.
  intros [H1 H2 H3 H4 H6 H5] Hp. split.
  - split; simpl; try done. apply Forall_app. split; [done|]. constructor; [done|constructor].
  - split; simpl; try reflexivity. by eexists.
Qed.

(** ** Rules for the steps of a request *)

Abbreviation WP := (wp bnd winv wrely).

Lemma wp_mbind {A B} (p : prog World A) (k : A → prog World B) Q w :
  WP p (λ a w', WP (k a) Q w') w → WP (mbind k p) Q w.
Proof. apply wp_bind. Qed.

Lemma wp_mret {A} (a : A) (Q : A → World → Prop) w : Q a w → WP (mret a) Q w.
Proof. done. Qed.

Lemma wp_tick {A} (f : nat → A) (Q : A → World → Prop) w :
  (∀ w1 t, wrely w (w_set_tick w1 t) → winv (w_set_tick w1 t) → Q (f (w_tick w1)) (w_set_tick w1 t)) →
  WP (act (λ w, (f (w_tick w), w_set_tick w (S (w_tick w))))) Q w.
Proof.
  intros H. apply wp_act. intros w1 b w' Hr Hi [= <- <-] _.
  destruct (set_tick_ok w1 (S (w_tick w1)) Hi) as [Hi' Hr']. split_and!; try done.
  apply H; [by transitivity w1|done].
Qed.

(** A statement outside a transaction that keeps the invariant when it takes effect; [w1] is the
    world it took effect in. *)
Lemma wp_call {A} (op : Op A) (Q : result A → World → Prop) w :
  (∀ w1, wrely w w1 → winv w1 → quiet (w_db w1) (op (w_db w1)).2) →
  (∀ w1 r w', wrely w w1 → winv w1 → winv w' → wrely w1 w' →
     (r = (op (w_db w1)).1 ∧ w_db w' = (op (w_db w1)).2 ∨ ∃ m, r = Err (EOther m)) → Q r w') →
  WP (call op) Q w.
Proof.
  intros Hp HQ. apply wp_act. intros w1 r w' Hr Hi E _. destruct (Hp w1 Hr Hi) as [Hpr Hq].
  assert (posts (w_db w1) (op (w_db w1)).2) as Hpo by (intros m Hm; left; by rewrite <- Hq).
  apply call_step_inv in E as [(t & -> & ->)|(t & m & -> & [-> | ->])].
  - destruct (set_db_ok w1 _ t Hi Hpr Hpo) as [Hi' Hr']. split_and!; try done. eapply HQ; eauto.
  - destruct (set_tick_ok w1 t Hi) as [Hi' Hr']. split_and!; try done. eapply HQ; eauto.
  - destruct (set_db_ok w1 _ t Hi Hpr Hpo) as [Hi' Hr']. split_and!; try done. eapply HQ; eauto.
Qed.

(** A query: the answer is that of some state of the database during the call, or an error. *)
Lemma wp_read {A} (q : Db → qres A) (Q : result A → World → Prop) w :
  (∀ w1 r w', wrely w w1 → winv w1 → winv w' → wrely w1 w' → w_db w1 ∈ w_past w' →
     (r = wrapq (q (w_db w1)) ∨ ∃ m, r = Err (EOther m)) → Q r w') →
  WP (call (reading q)) Q w.
Proof.
  intros HQ. apply wp_call.
  - intros w1 _ Hi. simpl. split; [apply preserves_refl, Hi|done].
  - intros w1 r w' Hr Hi Hi' Hr' Hc. eapply HQ; eauto.
    + destruct (wr_past _ _ Hr') as [l ->]. apply elem_of_app. left. by apply past_last.
    + destruct Hc as [[-> _]|?]; [by left|by right].
Qed.

(** The same for a method that answers some inputs without a query. *)
Lemma wp_query {A} (op : Op A) (Q : result A → World → Prop) w :
  (∀ d, (op d).2 = d) →
  (∀ w1 r w', wrely w w1 → winv w1 → winv w' → wrely w1 w' → w_db w1 ∈ w_past w' →
     (r = (op (w_db w1)).1 ∨ ∃ m, r = Err (EOther m)) → Q r w') →
  WP (call op) Q w.
Proof.
  intros Hop HQ. apply wp_call.
  - intros w1 _ Hi. rewrite !Hop. split; [apply preserves_refl, Hi|done].
  - intros w1 r w' Hr Hi Hi' Hr' Hc. eapply HQ; eauto.
    + destruct (wr_past _ _ Hr') as [l ->]. apply elem_of_app. left. by apply past_last.
    + destruct Hc as [[-> _]|?]; [by left|by right].
Qed.

Lemma wp_node {A} nd (f : Node → A * Node) (Q : A → World → Prop) w :
  (∀ w1 a n, wrely w w1 → winv w1 → f (w_nodes w1 nd) = (a, n) → node_ok (w_db w1) n) →
  (∀ w1 w' a n, wrely w w1 → winv w1 → winv w' → wrely w1 w' → w_db w' = w_db w1 →
     f (w_nodes w1 nd) = (a, n) → Q a w') →
  WP (node_step nd f) Q w.
Proof.
  intros Hf HQ. apply wp_act. intros w1 a w' Hr Hi E _. destruct (f (w_nodes w1 nd)) as [a' n] eqn:Ef.
  injection E as <- <-. destruct (set_node_ok w1 nd n Hi) as [Hi' Hr']; [by eapply Hf|].
  split_and!; try done. eapply HQ; eauto.
Qed.

Lemma wp_bus e (Q : err → World → Prop) w :
  (∀ w1, wrely w w1 → winv w1 → bus_event_ok (w_db w1) e) →
  (∀ r w', wrely w w' → winv w' → Q r w') →
  WP (busPublish e) Q w.
Proof.
  intros He HQ. apply wp_act. intros w1 r w' Hr Hi E _. specialize (He w1 Hr Hi). unfold bus_step in E.
  destruct (add_bus_ok w1 e Hi He) as [Hi1 Hr1]. destruct (set_tick_ok w1 (S (w_tick w1)) Hi) as [Hi2 Hr2].
  destruct (fault (w_tick w1)); injection E as <- <-; split_and!; try done; apply HQ; try done; by transitivity w1.
Qed.

Lemma wp_push ids n (Q : err → World → Prop) w :
  (∀ w1, wrely w w1 → winv w1 → push_ok w1 (ids, n)) →
  (∀ r w', wrely w w' → winv w' → Q r w') →
  WP (pusherPush ids n) Q w.
Proof.
  intros He HQ. apply wp_act. intros w1 r w' Hr Hi E _. specialize (He w1 Hr Hi). unfold push_step in E.
  destruct (add_push_ok w1 (ids, n) Hi He) as [Hi1 Hr1]. destruct (set_tick_ok w1 (S (w_tick w1)) Hi) as [Hi2 Hr2].
  destruct (fault (w_tick w1)); injection E as <- <-; split_and!; try done; apply HQ; try done; by transitivity w1.
Qed.

(** A transaction whose body, when it runs to the end, keeps the invariant. *)
Lemma wp_tx {C} (c0 : C) body (Q : C * err → World → Prop) w :
  (∀ w1 s, wrely w w1 → winv w1 → body (mkTx (w_db w1) (S (w_tick w1)) c0) = (Ok tt, s) → db_bnd (tx_db s) →
     preserves (w_db w1) (tx_db s) ∧ posts (w_db w1) (tx_db s)) →
  (∀ w1 c x w', wrely w w1 → winv w' → wrely w1 w' → Q (c, Some x) w') →
  (∀ w1 s w' e, wrely w w1 → winv w1 → winv w' → wrely w1 w' →
     body (mkTx (w_db w1) (S (w_tick w1)) c0) = (Ok tt, s) → db_bnd (tx_db s) → w_db w' = tx_db s → Q (tx_cap s, e) w') →
  WP (WithTx c0 body) Q w.
Proof.
  intros Hp Hfail Hok. apply wp_act. intros w1 [c e] w' Hr Hi E Hb.
  apply tx_step_inv in E as [(t & x & -> & ->)|(s & t & Es & -> & -> & He)].
  - destruct (set_tick_ok w1 t Hi) as [Hi' Hr']. split_and!; try done. by eapply Hfail.
  - destruct (Hp w1 s Hr Hi Es Hb) as [Hpr Hpo]. destruct (set_db_ok w1 (tx_db s) t Hi Hpr Hpo) as [Hi' Hr']. split_and!; try done. by eapply Hok.
Qed.
End WorldInv.
