(* ===== verification/TxInv.v ===== *)
(** * The transactions keep the invariant

    One lemma per transaction of the services: what its body did when it ran to the end. *)

From S2P Require Import Prelude Errcode Strconv Identity Json Store PgStore Conv DbInv Conc RateLimit MemberCache World OnlineStore ConvPage MessageSvc GroupSvc WorldInv.

Local Open Scope Z_scope.

Lemma conv_max_le_messages d c : DbOk d → conv_max d c ≤ Z.of_nat (length (messages d)).
Proof.
  intros Hd. destruct (ok_seqs d Hd c) as [H0 Hs]. apply (f_equal length) in Hs.
  unfold seqs_of in Hs. rewrite length_map, length_seqZ in Hs. unfold conv_msgs, keep in Hs.
  pose proof (List.filter_length_le (λ m, (Msg_ConversationId m =? c)%string) (messages d)). lia.
Qed.

Lemma next_seq d c : DbOk d → db_bnd d → i64 (conv_max d c + 1) = conv_max d c + 1.
Proof.
  intros Hd Hb. unfold db_bnd in Hb. pose proof (conv_max_le_messages d c Hd). pose proof (conv_max_nonneg Hd c).
  apply i64_id. unfold minInt64, maxInt64 in *. lia.
Qed.

(** [LockConversation] returns the row, creating it when missing. *)
Lemma lock_spec id typ gid now d c d' :
  LockConversation id typ gid now d = (Ok c, d') →
  convs d' !! id = Some c ∧
  ((convs d !! id = Some c ∧ d' = d) ∨
   (convs d !! id = None ∧ c = mkConversation id typ gid 0 now now ∧ d' = with_convs d (<[id := c]> (convs d)))).
Proof.
  unfold LockConversation, Gen.InsertConversationIfMissing, Gen.LockConversation.
  destruct (convs d !! id) as [cv|] eqn:E.
  - rewrite E. intros [= <- <-]. eauto.
  - simpl. rewrite lookup_insert_eq. intros [= <- <-]. simpl. rewrite lookup_insert_eq. eauto 10.
Qed.

Lemma lock_preserves id typ gid now d c d' :
  DbOk d → LockConversation id typ gid now d = (Ok c, d') → conv_ok d id (mkConversation id typ gid 0 now now) →
  preserves d d' ∧ convs d' !! id = Some c ∧ conv_max d' id = Conv_MaxSeq c ∧ conv_max d id = Conv_MaxSeq c ∧
  messages d' = messages d ∧ userConvs d' = userConvs d ∧ members d' = members d ∧ groups d' = groups d ∧ users d' = users d.
Proof.
  intros Hd E Hk. apply lock_spec in E as [Hc [[Hc0 ->]|(Hnone & -> & ->)]].
  - assert (conv_max d id = Conv_MaxSeq c) as Hm by (unfold conv_max; by rewrite Hc0).
    split_and!; done || by apply preserves_refl.
  - split_and!; try done.
    + by apply lock_ok.
    + unfold conv_max. simpl. by rewrite lookup_insert_eq.
    + unfold conv_max. by rewrite Hnone.
Qed.

Section Tx.
Context `{RL : RateLib} `{EN : Env}.
Variable cfg : Config.

Lemma exec_frame {C A} (op : Op A) (s : TxState C) a s' :
  exec op s = (Ok a, s') → tx_cap s' = tx_cap s.
Proof. intros H. by apply exec_Ok in H as [_ ?]. Qed.

(** A group send is allowed only to a current member of a group that is not dismissed. *)
Lemma checkMembership_Ok {C} gid uid (s : TxState C) s' :
  checkMembership gid uid s = (Ok tt, s') →
  tx_db s' = tx_db s ∧ tx_cap s' = tx_cap s ∧
  ∃ g, groups (tx_db s) !! gid = Some g ∧ Group_Status g ≠ GroupStatusDismissed ∧
       is_Some (members (tx_db s) !! (Group_Id g, uid)).
Proof.
  unfold checkMembership. intros H. apply tx_bind_Ok in H as (g & s1 & Hs & H).
  apply tx_bind_Ok in H as (e & s2 & Hs0 & H). apply exec_Ok in Hs as [Hg Hc1]. unfold GetGroup, reading, Gen.GetGroup in Hg.
  destruct (groups (tx_db s) !! gid) as [g'|] eqn:Eg; [|done]. injection Hg as -> Hd1.
  unfold checkGroupSend in Hs0. destruct (Z.eqb_spec (Group_Status g) GroupStatusDismissed) as [|Hst].
  { injection Hs0 as <- <-. done. }
  unfold mbind, TxM_mbind in Hs0. apply tx_bind_Ok in Hs0 as (r & s3 & Hr & Hret). injection Hret as Hret1 Hret2.
  subst e s3. apply stmt_inv in Hr as [Hc2 [[Er Hd2]|(m & Er & Hd2)]]; injection Er as ->; [|done].
  unfold GetGroupMember, reading, Gen.GetGroupMember in *. simpl in Hd2.
  destruct (members (tx_db s1) !! (Group_Id g, uid)) as [m|] eqn:Em; [|done].
  injection H as ->. split_and!; try congruence. exists g. split_and!; try done. rewrite Hd1. by eexists.
Qed.

(** ** Send *)

(** Where a normalized input goes. *)
Definition send_dest (i : SendInput) (cid : string) : Prop :=
  (SI_SessionType i = ConversationSingle ∧ SI_GroupId i = ""%string ∧ Valid (SI_SenderId i) = true ∧
     Valid (SI_RecvId i) = true ∧ SI_SenderId i ≠ SI_RecvId i ∧ cid = Single (SI_SenderId i) (SI_RecvId i)) ∨
  (SI_SessionType i = ConversationGroup ∧ SI_RecvId i = ""%string ∧ cid = GroupConv (SI_GroupId i)).

Definition touch_tbl (uc : UserConversation) (readSeq : Z) (d : Db) : gmap key UserConversation :=
  userConvs (Gen.TouchUserConversation uc readSeq d).2.

(** A touch that leaves the read cursor alone keeps the invariant. *)
Lemma touch_ok d a b o uc :
  DbOk d → Valid a = true → Valid b = true → o = a ∨ o = b → is_Some (convs d !! Single a b) →
  UC_OwnerId uc = o → UC_ConversationId uc = Single a b → ms_exact (UC_UpdatedAt uc) →
  preserves d (Gen.TouchUserConversation uc 0 d).2.
Proof.
  intros Hd Ha Hb Ho Hc <- E Hms. unfold Gen.TouchUserConversation. rewrite E. simpl.
  destruct (userConvs d !! (UC_OwnerId uc, Single a b)) as [cur|] eqn:Er.
  - apply rows_update_ok; [done|]. eapply rows_le_single; [done|done|].
    destruct (ok_uc d Hd _ _ _ Er) as (? & ? & ? & ? & ? & ? & ?). unfold row_le, GREATEST. simpl.
    split_and!; try done; try lia. by destruct (Z.max_spec (UC_UpdatedAt cur) (UC_UpdatedAt uc)) as [[_ ->]|[_ ->]].
  - by apply new_single_row_ok.
Qed.

Lemma touch_is_Some uc r d : is_Some (touch_tbl uc r d !! (UC_OwnerId uc, UC_ConversationId uc)).
Proof. unfold touch_tbl, Gen.TouchUserConversation. simpl. rewrite lookup_insert_eq. eauto. Qed.

Lemma touch_keeps uc r d k : is_Some (userConvs d !! k) → is_Some (touch_tbl uc r d !! k).
Proof. intros. unfold touch_tbl, Gen.TouchUserConversation. simpl. rewrite lookup_insert_is_Some'. by right. Qed.

(** A touch with a read cursor is a touch and then [AdvanceReadSeq]. *)
Lemma touch_read uc r d :
  DbOk d → 0 ≤ r →
  touch_tbl uc r d = alter (λ x, UC_set_ReadSeq x (GREATEST (UC_ReadSeq x) r)) (UC_OwnerId uc, UC_ConversationId uc) (touch_tbl uc 0 d).
Proof.
  intros Hd Hr. unfold touch_tbl, Gen.TouchUserConversation. simpl.
  rewrite alter_insert_eq. f_equal.
  destruct (userConvs d !! (UC_OwnerId uc, UC_ConversationId uc)) as [cur|] eqn:Er; unfold UC_set_ReadSeq, UC_set_seqs; simpl.
  - destruct (ok_uc d Hd _ _ _ Er) as (_ & _ & _ & _ & _ & ? & _). f_equal. unfold GREATEST. lia.
  - f_equal. unfold GREATEST. lia.
Qed.

Lemma alter_Some_insert {A} (f : A → A) (k : string) (m : gmap string A) x :
  m !! k = Some x → alter f k m = <[k := f x]> m.
Proof.
  intros H. apply map_eq. intros k'. destruct (decide (k = k')) as [->|Hne].
  - by rewrite lookup_alter_eq, lookup_insert_eq, H.
  - by rewrite lookup_alter_ne, lookup_insert_ne.
Qed.

(** The two touches of a single chat, around the append they come after. *)
Lemma send_single_ok d cv m us ur sr :
  DbOk d → Valid (UC_OwnerId us) = true → Valid (UC_OwnerId ur) = true → UC_OwnerId us ≠ UC_OwnerId ur →
  let cid := Single (UC_OwnerId us) (UC_OwnerId ur) in
  UC_ConversationId us = cid → UC_ConversationId ur = cid → ms_exact (UC_UpdatedAt us) → ms_exact (UC_UpdatedAt ur) →
  Msg_ConversationId m = cid → convs d !! cid = Some cv → Msg_Seq m = Conv_MaxSeq cv + 1 → msg_ok m →
  Conv_UpdatedAt cv ≤ Msg_SendTime m → ms_exact (Msg_SendTime m) → existsb (Gen.conflicts m) (messages d) = false →
  sr = 0 ∨ sr = Msg_Seq m →
  preserves d (Gen.TouchUserConversation ur 0 (Gen.TouchUserConversation us sr (append_msg d cv m)).2).2.
Proof.
  intros Hd Hs Hr Hne cid Es Er Hms Hmr Em Hcv Hseq Hmsg Htime Hmt Hfresh Hsr.
  pose proof (conv_max_nonneg Hd cid) as H0. assert (conv_max d cid = Conv_MaxSeq cv) as Hcm by (unfold conv_max; by rewrite Hcv).
  set (d1 := (Gen.TouchUserConversation us 0 d).2).
  assert (preserves d d1) as P1 by (apply (touch_ok d (UC_OwnerId us) (UC_OwnerId ur) (UC_OwnerId us)); eauto).
  set (d2 := (Gen.TouchUserConversation ur 0 d1).2).
  assert (preserves d1 d2) as P2 
    by (apply (touch_ok d1 (UC_OwnerId us) (UC_OwnerId ur) (UC_OwnerId ur)); eauto; apply P1).
  assert (is_Some (userConvs d2 !! (UC_OwnerId us, cid)) ∧ is_Some (userConvs d2 !! (UC_OwnerId ur, cid))) as [Rs Rr].
  { split; [apply touch_keeps; rewrite <- Es; apply touch_is_Some|rewrite <- Er; apply touch_is_Some]. }
  assert (preserves d2 (append_msg d2 cv m)) as P3.
  { apply append_ok; [apply P2|]. split; rewrite ?Em; try done.
    intros a b Ha Hb HS. unfold cid in HS.
    apply Single_inj in HS as [[<- <-]|[<- <-]]; auto using Valid_no_colon. rewrite Single_comm. done. }
  assert (preserves (append_msg d2 cv m) (Gen.AdvanceReadSeq (UC_OwnerId us) cid sr (append_msg d2 cv m)).2) as P4.
  { apply advance_ok; [apply P3|]. pose proof (vmax_nonneg (proj1 P3) (UC_OwnerId us) cid).
    destruct Hsr as [-> | ->]; [done|]. destruct Rs as [uc Huc].
    destruct (ok_single d2 (proj1 P2) _ _ _ uc Hs Hr Huc) as (_ & _ & Hmax0).
    unfold vmax. change (userConvs (append_msg d2 cv m)) with (userConvs d2). rewrite Huc. unfold VisibleMax. rewrite Hmax0.
    unfold conv_max, append_msg. simpl. rewrite Em, lookup_insert_eq. simpl. lia. }
  assert ((Gen.TouchUserConversation ur 0 (Gen.TouchUserConversation us sr (append_msg d cv m)).2).2
          = (Gen.AdvanceReadSeq (UC_OwnerId us) cid sr (append_msg d2 cv m)).2) as ->.
  { simpl. unfold with_userConvs, append_msg, with_convs, with_messages. simpl. f_equal.
    assert (sr = 0 ∨ 0 ≤ sr) as Hsr0 by lia.
    pose proof (touch_read us sr d Hd ltac:(lia)) as Ht. rewrite Es in Ht.
    assert (∀ D T, userConvs D = T → touch_tbl ur 0 D = touch_tbl ur 0 (with_userConvs d T)) as Hext.
    { intros D T <-. done. }
    change (touch_tbl ur 0 (with_userConvs d (touch_tbl us sr d)) = 
      alter (λ x, UC_set_ReadSeq x (GREATEST (UC_ReadSeq x) sr)) (UC_OwnerId us, cid) (touch_tbl ur 0 (with_userConvs d (touch_tbl us 0 d)))).
    rewrite Ht. unfold touch_tbl at 1 3, Gen.TouchUserConversation. simpl. rewrite Er.
    rewrite alter_insert_ne by congruence. rewrite lookup_alter_ne by congruence. done. }
  eauto using preserves_trans.
Qed.

Lemma insert_Ok m d d' b :
  InsertMessage m d = (Ok b, d') → negb b = false →
  existsb (Gen.conflicts m) (messages d) = false ∧ d' = with_messages d (messages d ++ [m]).
Proof.
  unfold InsertMessage, Gen.InsertMessage. destruct (existsb _ _); intros [= <- <-]; [done|eauto].
Qed.

(** A successful execution of a write. *)
Lemma executing_Ok {A} (q : Db → qres A * Db) d a d' : executing q d = (Ok a, d') → d' = (q d).2.
Proof. unfold executing. destruct (q d) as [[x|e] d0]; simpl; [by intros [= _ <-]|done]. Qed.

Lemma touchConversations_single {C} i cid seq now (s : TxState C) s' :
  SI_SessionType i = ConversationSingle → touchConversations i cid seq now s = (Ok tt, s') →
  ∃ us ur, UC_OwnerId us = SI_SenderId i ∧ UC_OwnerId ur = SI_RecvId i ∧ UC_ConversationId us = cid ∧
    UC_ConversationId ur = cid ∧ UC_UpdatedAt us = now ∧ UC_UpdatedAt ur = now ∧ tx_cap s' = tx_cap s ∧
    tx_db s' = (Gen.TouchUserConversation ur 0
                  (Gen.TouchUserConversation us (Ternary (SI_SenderRead i) seq 0) (tx_db s)).2).2.
Proof.
  unfold touchConversations. intros -> H. rewrite Z.eqb_refl in H. apply tx_bind_Ok in H as (a & s1 & H1 & H2).
  apply exec_Ok in H1 as [H1 C1], H2 as [H2 C2]. apply executing_Ok in H1, H2.
  rewrite H1 in H2. eexists _, _. split_and!; [..|exact H2]; try done. by rewrite C2.
Qed.

Lemma touchConversations_group {C} i cid seq now (s : TxState C) s' :
  SI_SessionType i = ConversationGroup → touchConversations i cid seq now s = (Ok tt, s') →
  tx_cap s' = tx_cap s ∧
  let d1 := (Gen.TouchConversationMembers cid now (tx_db s)).2 in
  let sr := Ternary (SI_SenderRead i) seq 0 in
  tx_db s' = d1 ∨ tx_db s' = (Gen.AdvanceReadSeq (SI_SenderId i) cid sr d1).2.
Proof.
  unfold touchConversations. intros -> H. change (ConversationGroup =? ConversationSingle) with false in H. cbv iota in H.
  apply tx_bind_Ok in H as (a & s1 & H1 & H2). apply exec_Ok in H1 as [H1 C1]. apply executing_Ok in H1.
  destruct (Ternary (SI_SenderRead i) seq 0 =? 0).
  - injection H2 as <-. split; [done|]. by left.
  - apply exec_Ok in H2 as [H2 C2]. apply executing_Ok in H2. split; [congruence|]. right. rewrite H2. by rewrite H1.
Qed.

Definition sent (i : SendInput) (cid id : string) (d : Db) (t : Z) : Message :=
  Msg_set (draft i cid id) (conv_max d cid + 1) t.

(** What a committed send did. *)
Record sent_in (i : SendInput) (cid id : string) (now : Z) (d d' : Db) (m : Message) : Prop := {
  si_msg : ∃ t, now ≤ t ∧ m = sent i cid id d t;
  si_messages : messages d' = messages d ++ [m];
  si_max : conv_max d' cid = conv_max d cid + 1;
  si_member : SI_SessionType i = ConversationGroup →
    ∃ g, groups d !! SI_GroupId i = Some g ∧ Group_Status g ≠ GroupStatusDismissed ∧
         is_Some (members d !! (SI_GroupId i, SI_SenderId i)) }.

Lemma sendTx_split i cid now id s s' :
  DbOk (tx_db s) → send_dest i cid → ms_exact now →
  sendTx i cid now (draft i cid id) s = (Ok tt, s') →
  ∃ c d1 t s2,
    preserves (tx_db s) d1 ∧ convs d1 !! cid = Some c ∧ conv_max (tx_db s) cid = Conv_MaxSeq c ∧
    messages d1 = messages (tx_db s) ∧ members d1 = members (tx_db s) ∧ t = Z.max now (Conv_UpdatedAt c) ∧ ms_exact t ∧
    (SI_SessionType i = ConversationGroup →
      ∃ g, groups (tx_db s) !! SI_GroupId i = Some g ∧ Group_Status g ≠ GroupStatusDismissed ∧
           is_Some (members (tx_db s) !! (SI_GroupId i, SI_SenderId i))) ∧
    let m := Msg_set (draft i cid id) (i64 (Conv_MaxSeq c + 1)) t in
    existsb (Gen.conflicts m) (messages d1) = false ∧
    tx_db s2 = append_msg d1 c m ∧ tx_cap s2 = (false, m) ∧
    touchConversations i cid (Msg_Seq m) t s2 = (Ok tt, s').
Proof.
  intros Hd Hdest Hnow H. unfold sendTx in H.
  apply tx_bind_Ok in H as (c & s1 & Hlock & H). apply exec_Ok in Hlock as [Hlock Hc1].
  apply tx_bind_Ok in H as ([] & s2 & Hmem & H). apply tx_bind_Ok in H as ([] & s3 & Hset & H).
  apply tx_bind_Ok in H as (ins & s4 & Hins & H). injection Hset as <-.
  destruct (negb ins) eqn:Eins; [by apply tx_bind_Ok in H as (? & ? & _ & [=])|].
  apply tx_bind_Ok in H as ([] & s5 & Hmax & H). apply exec_Ok in Hins as [Hins Hc4], Hmax as [Hmax Hc5]. simpl in *.
  apply insert_Ok in Hins as [Hfresh Hd4]; [|done]. apply executing_Ok in Hmax.
  pose proof (lock_spec _ _ _ _ _ _ _ Hlock) as [Hcv Hls].
  assert (groups (tx_db s1) = groups (tx_db s) ∧ members (tx_db s1) = members (tx_db s)) as [Hg1 Hm1].
  { by destruct Hls as [[_ ->]|(_ & _ & ->)]. }
  assert (tx_db s2 = tx_db s1 ∧ (SI_SessionType i = ConversationGroup →
      ∃ g, groups (tx_db s) !! SI_GroupId i = Some g ∧ Group_Status g ≠ GroupStatusDismissed ∧
           is_Some (members (tx_db s) !! (SI_GroupId i, SI_SenderId i)))) as [Hd2 Hmember].
  { destruct (Z.eqb_spec (SI_SessionType i) ConversationGroup).
    - apply checkMembership_Ok in Hmem as (Hdb & _ & g & Hg & Hst & Hm). split; [done|]. intros _.
      rewrite Hg1 in Hg. rewrite Hm1 in Hm. exists g. split_and!; try done. by rewrite <- (ok_groups _ Hd _ _ Hg).
    - injection Hmem as <-. split; [done|lia]. }
  assert (conv_ok (tx_db s) cid (mkConversation cid (SI_SessionType i) (SI_GroupId i) 0 now now)) as Hk.
  { destruct Hdest as [(E1 & E2 & Ev1 & Ev2 & _ & ->)|(E1 & _ & ->)]; unfold conv_ok; simpl; split_and!; try done.
    - right. split; [done|]. eauto.
    - left. destruct (Hmember E1) as (g & Hg & _). eauto. }
  destruct (lock_preserves _ _ _ _ _ _ _ Hd Hlock Hk) as (Hp & _ & _ & Hcm & Hmsgs & _).
  assert (Ternary (After (Conv_UpdatedAt c) now) (Conv_UpdatedAt c) now = Z.max now (Conv_UpdatedAt c)) as Ht.
  { unfold Ternary, After. destruct (Z.ltb_spec now (Conv_UpdatedAt c)); lia. }
  rewrite Ht in *.
  exists c, (tx_db s1), (Z.max now (Conv_UpdatedAt c)), s5. rewrite Hd2 in *. split_and!; try done.
  - destruct (ok_convs _ (proj1 Hp) _ _ Hcv) as (_ & Hms & _).
    by destruct (Z.max_spec now (Conv_UpdatedAt c)) as [[_ ->]|[_ ->]].
  - rewrite Hmax, Hd4. simpl. unfold append_msg. simpl. by rewrite (alter_Some_insert _ _ _ c).
  - by rewrite Hc5, Hc4.
Qed.

(** The touches of a group send, after the append; the sender's range is open, so it reaches the
    new message. *)
Lemma send_group_ok d c m g u sr :
  DbOk d → can_append d c m → Msg_ConversationId m = GroupConv g → is_Some (members d !! (g, u)) →
  sr = 0 ∨ sr = Msg_Seq m →
  let d1 := (Gen.TouchConversationMembers (GroupConv g) (Msg_SendTime m) (append_msg d c m)).2 in
  preserves d d1 ∧ preserves d (Gen.AdvanceReadSeq u (GroupConv g) sr d1).2.
Proof.
  intros Hd Hca Ec Hm Hsr d1. pose proof (append_ok d c m Hd Hca) as P1.
  assert (preserves (append_msg d c m) d1) as P2 by (apply touch_members_ok; [apply P1|apply Hca]).
  assert (preserves d d1) as P by (by eapply preserves_trans). split; [done|].
  eapply preserves_trans; [exact P|]. apply advance_ok; [apply P|].
  pose proof (vmax_nonneg (proj1 P) u (GroupConv g)) as H0. destruct Hsr as [-> | ->]; [done|].
  destruct (proj1 (ok_member_uc d1 (proj1 P) g u) Hm) as (uc & Huc & Hmax0). unfold vmax. rewrite Huc.
  unfold VisibleMax. rewrite Hmax0. unfold conv_max, d1, append_msg. simpl. rewrite Ec, lookup_insert_eq. simpl. lia.
Qed.

Lemma touchConversations_frame {C} i cid seq now (s : TxState C) s' :
  send_dest i cid → touchConversations i cid seq now s = (Ok tt, s') →
  messages (tx_db s') = messages (tx_db s) ∧ convs (tx_db s') = convs (tx_db s) ∧ tx_cap s' = tx_cap s.
Proof.
  intros [(E1 & _)|(E1 & _)] H.
  - apply touchConversations_single in H as (? & ? & _ & _ & _ & _ & _ & _ & ? & ->); done.
  - apply touchConversations_group in H as [? [-> | ->]]; done.
Qed.

Lemma sendTx_Ok i cid now id s s' :
  DbOk (tx_db s) → send_dest i cid → ms_exact now →
  sendTx i cid now (draft i cid id) s = (Ok tt, s') → db_bnd (tx_db s') →
  preserves (tx_db s) (tx_db s') ∧
  ∃ m, tx_cap s' = (false, m) ∧ sent_in i cid id now (tx_db s) (tx_db s') m.
Proof.
  intros Hd Hdest Hnow H Hb.
  apply sendTx_split in H as (c & d1 & t & s2 & Hp & Hcv & Hcm & Hmsgs & Hmem1 & Ht & Hmt & Hmember & Hfresh & Hd2 & Hcap & Htouch); try done.
  assert (conv_max d1 cid = Conv_MaxSeq c) as Hcm1 by (unfold conv_max; by rewrite Hcv).
  set (m := Msg_set (draft i cid id) (i64 (Conv_MaxSeq c + 1)) t) in *.
  destruct (touchConversations_frame _ _ _ _ _ _ Hdest Htouch) as (Hms' & Hcs' & Hcap').
  assert (i64 (Conv_MaxSeq c + 1) = Conv_MaxSeq c + 1) as Hi64.
  { rewrite <- Hcm1. apply next_seq; [apply Hp|]. unfold db_bnd in *. rewrite Hms', Hd2 in Hb. simpl in Hb.
    rewrite length_app in Hb. simpl in Hb. lia. }
  assert (Msg_Seq m = Conv_MaxSeq c + 1) as Hseq by done.
  assert (Ternary (SI_SenderRead i) (Msg_Seq m) 0 = 0 ∨ Ternary (SI_SenderRead i) (Msg_Seq m) 0 = Msg_Seq m) as Hsr
    by (unfold Ternary; destruct (SI_SenderRead i); auto).
  assert (preserves d1 (tx_db s')) as Hp2.
  { destruct Hdest as [(E1 & E2 & Ev1 & Ev2 & Hne & Ecid)|(E1 & E2 & Ecid)].
    - apply touchConversations_single in Htouch as (us & ur & Eus & Eur & Cus & Cur & Tus & Tur & _ & ->); [|done].
      rewrite Hd2. apply send_single_ok; rewrite ?Eus, ?Eur, ?Tus, ?Tur; try done; try congruence; try (simpl; lia).
      + apply Hp.
      + left. split_and!; done || congruence.
    - apply touchConversations_group in Htouch as [_ Hdb]; [|done]. rewrite Hd2 in Hdb. subst cid.
      destruct (Hmember E1) as (g & _ & _ & Hm). rewrite <- Hmem1 in Hm.
      destruct (send_group_ok d1 c m (SI_GroupId i) (SI_SenderId i) (Ternary (SI_SenderRead i) (Msg_Seq m) 0)) as [P1 P2]; try done.
      + apply Hp.
      + split; try done; simpl; [right; done|lia|].
        intros a b _ _ HS. symmetry in HS. by apply Single_not_Group in HS.
      + by destruct Hdb as [-> | ->]. }
  split; [by eapply preserves_trans|]. exists m. split; [congruence|]. split; try done.
  - exists t. split; [lia|]. unfold sent, m. by rewrite Hi64, Hcm.
  - rewrite Hms', Hd2. simpl. by rewrite Hmsgs.
  - unfold conv_max at 1. rewrite Hcs', Hd2. simpl. rewrite lookup_insert_eq. simpl. lia.
Qed.

(** ** Groups *)

Lemma CreateUserConversations_Ok ucs d d' :
  CreateUserConversations ucs d = (Ok tt, d') →
  ∃ t, Gen.copy_userConvs (map (λ uc, UC_set_CreatedAt uc (UC_UpdatedAt uc)) ucs) (userConvs d) = Some t ∧ d' = with_userConvs d t.
Proof.
  unfold CreateUserConversations, Gen.CreateUserConversations. destruct (length ucs =? 0)%nat eqn:E.
  - intros [= <-]. apply Nat.eqb_eq, length_zero_iff_nil in E as ->. simpl. exists (userConvs d). by destruct d.
  - destruct (Gen.copy_userConvs _ _) as [t|]; intros [= <-]; eauto.
Qed.

Lemma CreateGroup_Ok g ms d d' :
  CreateGroup g ms d = (Ok tt, d') →
  groups d !! Group_Id g = None ∧
  ∃ t, Gen.copy_members ms (members d) = Some t ∧ d' = with_members (with_groups d (<[Group_Id g := g]> (groups d))) t.
Proof.
  unfold CreateGroup, Gen.CreateGroup, Gen.AddGroupMembers. destruct (groups d !! Group_Id g); [done|]. simpl.
  destruct (Gen.copy_members ms (members d)) as [t|]; intros [= <-]; eauto.
Qed.

(** What a bulk insert of members leaves in the table. *)
Lemma copy_members_lookup gid (mk : string → GroupMember) ids t t' u :
  (∀ id, GM_GroupId (mk id) = gid ∧ GM_UserId (mk id) = id) → Gen.copy_members (map mk ids) t = Some t' →
  t' !! (gid, u) = if decide (u ∈ ids) then Some (mk u) else t !! (gid, u).
Proof.
  intros Hmk. revert t. induction ids as [|id ids IH]; intros t; simpl; [by intros [= <-]|]. destruct (Hmk id) as [-> ->].
  destruct (t !! (gid, id)); [done|]. intros H. rewrite (IH _ H). repeat case_decide; try set_solver.
  - assert (u = id) as -> by set_solver. by rewrite lookup_insert_eq.
  - rewrite lookup_insert_ne; [done|]. intros [= ->]. set_solver.
Qed.

(** The rows of a new group: its members are the given users. *)
Definition created_in (gid o : string) (ids : list string) (d d' : Db) : Prop :=
  groups d !! gid = None ∧ (∃ g, groups d' !! gid = Some g ∧ Group_OwnerId g = o ∧ Group_Status g = GroupStatusNormal) ∧
  ∀ u, match members d' !! (gid, u) with
       | Some m => u ∈ ids ∧ GM_Role m = (if (u =? o)%string then RoleOwner else RoleMember)
       | None => u ∉ ids
       end.

(** A committed creation: the group is there, with exactly the given members. *)
Lemma createTx_Ok g ids now s s' :
  DbOk (tx_db s) → ms_exact now → createTx g ids now s = (Ok tt, s') →
  preserves (tx_db s) (tx_db s') ∧ groups (tx_db s') !! Group_Id g = Some g ∧
  (Group_Status g = GroupStatusNormal → created_in (Group_Id g) (Group_OwnerId g) ids (tx_db s) (tx_db s')).
Proof.
  intros Hd Hnow H. unfold createTx in H. apply tx_bind_Ok in H as ([] & s1 & Hcg & H).
  apply tx_bind_Ok in H as (c & s2 & Hlock & H). apply exec_Ok in Hcg as [Hcg _], Hlock as [Hlock _], H as [H _].
  apply CreateGroup_Ok in Hcg as (Hnone & t & Ht & Hd1). apply CreateUserConversations_Ok in H as (t' & Ht' & Hd3).
  set (d := tx_db s) in *. set (dg := with_groups d (<[Group_Id g := g]> (groups d))).
  pose proof (new_group_ok d g Hd Hnone) as Pg. fold dg in Pg.
  assert (groups dg !! Group_Id g = Some g) as Hg by (unfold dg; simpl; by rewrite lookup_insert_eq).
  (* the conversation is new as well: an existing one would belong to an existing group *)
  assert (convs d !! GroupConv (Group_Id g) = None) as Hcnone.
  { destruct (convs d !! GroupConv (Group_Id g)) as [cv|] eqn:E; [|done]. exfalso.
    destruct (ok_convs d Hd _ _ E) as (_ & _ & [(_ & E' & [x Hx])|(_ & a & b & _ & _ & E')]).
    - apply GroupConv_inj in E'. congruence.
    - symmetry in E'. by apply Single_not_Group in E'. }
  set (cv := mkConversation (GroupConv (Group_Id g)) ConversationGroup (Group_Id g) 0 now now).
  apply lock_spec in Hlock as [_ [[Hc _]|(_ & -> & Hd2)]]; [rewrite Hd1 in Hc; simpl in Hc; congruence|].
  set (dc := with_convs dg (<[GroupConv (Group_Id g) := cv]> (convs dg))).
  assert (preserves dg dc) as Pc.
  { apply lock_ok; [apply Pg|done|]. unfold conv_ok. simpl. split_and!; try done. left. split_and!; done. }
  assert (tx_db s' = with_userConvs (with_members dc t) t') as Hfin.
  { rewrite Hd3, Hd2, Hd1. done. }
  rewrite Hd2, Hd1 in Ht'. simpl in Ht'. rewrite map_map in Ht'. rewrite Hfin. split_and!; try done.
  - eapply preserves_trans; [exact Pg|]. eapply preserves_trans; [exact Pc|].
    eapply (create_members_ok (Group_Id g)); [| |apply Pc| | | |exact Ht|exact Ht']; try done.
    all: unfold dc, conv_max; simpl; rewrite ?lookup_insert_eq; eauto.
  - intros Hst. split; [done|]. split; [eauto|]. intros u. simpl.
    rewrite (copy_members_lookup _ (newMember (Group_Id g) (Group_OwnerId g) now) ids _ _ u (λ _, conj eq_refl eq_refl) Ht). case_decide; [done|].
    destruct (members d !! (Group_Id g, u)) as [x|] eqn:Ex; [|done].
    destruct (ok_members d Hd _ _ _ Ex) as (_ & _ & [y Hy]). congruence.
Qed.

(** A committed join: the joiner was no member, the group was not full, and its range starts
    after the current maximum. *)
Lemma joinTx_Ok g u now s s' :
  DbOk (tx_db s) → is_Some (groups (tx_db s) !! Group_Id g) → ms_exact now → db_bnd (tx_db s') →
  joinTx cfg g u now s = (Ok tt, s') →
  preserves (tx_db s) (tx_db s') ∧ members (tx_db s) !! (Group_Id g, u) = None ∧
  is_Some (members (tx_db s') !! (Group_Id g, u)) ∧
  Z.of_nat (length (keep (λ m, (GM_GroupId m =? Group_Id g)%string) (rows (members (tx_db s))))) < maxMembers cfg ∧
  (∀ k, ¬ visible (tx_db s') u (GroupConv (Group_Id g)) k).
Proof.
  intros Hd Hg Hnow Hb H. unfold joinTx in H. apply tx_bind_Ok in H as (c & s1 & Hlock & H).
  apply tx_bind_Ok in H as (r & s2 & Hget & H). apply exec_Ok in Hlock as [Hlock _].
  destruct (lock_preserves _ _ _ _ _ _ _ Hd Hlock) as (P1 & Hcv & Hcm & Hcm0 & Hmsg & Huc & Hmem & Hgr & _).
  { unfold conv_ok. simpl. eauto 10. }
  apply stmt_inv in Hget as [_ [[Er Hd2]|(m & Er & Hd2)]]; injection Er as ->; [|done].
  unfold GetGroupMember, reading, Gen.GetGroupMember in H, Hd2. simpl in H, Hd2.
  destruct (members (tx_db s1) !! (Group_Id g, u)) as [x|] eqn:Em; [done|]. simpl in H.
  apply tx_bind_Ok in H as (n & s3 & Hn & H). apply exec_Ok in Hn as [Hn _].
  unfold CountGroupMembers, reading, Gen.CountGroupMembers in Hn. simpl in Hn. injection Hn as <- Hd3.
  destruct (Z.leb_spec (maxMembers cfg) (Z.of_nat (length (keep (λ m, (GM_GroupId m =? Group_Id g)%string) (rows (members (tx_db s2))))))) as [|Hroom]; [done|].
  apply tx_bind_Ok in H as ([] & s4 & Hadd & H). apply exec_Ok in Hadd as [Hadd _], H as [Hup _].
  apply executing_Ok in Hadd, Hup. unfold Gen.AddGroupMember in Hadd. simpl in Hadd. rewrite <- Hd3, Hd2, Em in Hadd. simpl in Hadd.
  set (uc0 := mkUC u (GroupConv (Group_Id g)) ConversationGroup "" (Group_Id g) (i64 (Conv_MaxSeq c + 1)) 0 (Conv_MaxSeq c) 0 false "" now zeroTime) in *.
  set (row := match userConvs (tx_db s1) !! (u, GroupConv (Group_Id g)) with
              | None => UC_set_CreatedAt uc0 (UC_UpdatedAt uc0)
              | Some cur => UC_set_seqs cur (UC_MinSeq uc0) (UC_MaxSeq uc0) (UC_ReadSeq uc0) (UC_UpdatedAt uc0) end).
  assert (tx_db s' = change_member (tx_db s1) (Group_Id g) u (Some (mkGroupMember (Group_Id g) u RoleMember "" "" now)) (Some row)) as Hfin.
  { rewrite Hup, Hadd. done. }
  assert (i64 (Conv_MaxSeq c + 1) = Conv_MaxSeq c + 1) as Hi64.
  { rewrite <- Hcm. apply next_seq; [apply P1|]. unfold db_bnd in *. rewrite Hfin in Hb. done. }
  assert (UC_OwnerId row = u ∧ UC_ConversationId row = GroupConv (Group_Id g) ∧ UC_MinSeq row = Conv_MaxSeq c + 1 ∧
          UC_MaxSeq row = 0 ∧ UC_ReadSeq row = Conv_MaxSeq c ∧ UC_UpdatedAt row = now) as (R1 & R2 & R3 & R4 & R5 & R6).
  { unfold row. destruct (userConvs (tx_db s1) !! _) as [cur|] eqn:Ecur; simpl; rewrite Hi64; [|done].
    by destruct (ok_uc _ (proj1 P1) _ _ _ Ecur) as (? & ? & _). }
  assert (preserves (tx_db s1) (tx_db s')) as P2.
  { rewrite Hfin. apply change_member_ok; [apply P1|]. apply join_can; rewrite ?Hcm, ?R6; try done; try apply P1; try (by rewrite Hgr); eauto. }
  split_and!; [by eapply preserves_trans|by rewrite <- Hmem|..].
  - rewrite Hfin. simpl. rewrite lookup_partial_alter_eq. eauto.
  - by rewrite <- Hmem, <- Hd2.
  - intros k (uc & Huc' & Hv). rewrite Hfin in Huc', Hv. simpl in Huc'.
    rewrite lookup_partial_alter_eq in Huc'. injection Huc' as <-. destruct Hv as [Hv _].
    change (conv_max (change_member (tx_db s1) _ _ _ _)) with (conv_max (tx_db s1)) in Hv. lia.
Qed.

(** What the checks of a kick guarantee. *)
Definition kick_allowed (d : Db) (g : Group) (op target : string) : Prop :=
  ∃ mo mt, members d !! (Group_Id g, op) = Some mo ∧ members d !! (Group_Id g, target) = Some mt ∧
    RoleAdmin ≤ GM_Role mo ∧ target ≠ Group_OwnerId g ∧ (GM_Role mo = RoleAdmin → GM_Role mt < RoleAdmin).

Lemma member_tx_Ok {C} gid u (s : TxState C) m s' :
  tx_bind (member txGetMember gid u) tx_check s = (Ok m, s') → tx_db s' = tx_db s ∧ members (tx_db s) !! (gid, u) = Some m.
Proof.
  intros H. apply tx_bind_Ok in H as (r & s1 & Hm & Hc). unfold member, mbind, TxM_mbind in Hm.
  apply tx_bind_Ok in Hm as (r0 & s2 & Hget & Hret). injection Hret as <- <-.
  apply stmt_inv in Hget as [_ [[Er Hd2]|(x & Er & Hd2)]]; injection Er as ->; [|done].
  unfold GetGroupMember, reading, Gen.GetGroupMember in Hc, Hd2. simpl in Hd2.
  destruct (members (tx_db s) !! (gid, u)) as [m'|]; [|done]. injection Hc as -> ->. done.
Qed.

Lemma kickChecks_Ok g op u s t s' :
  DbOk (tx_db s) → kickChecks g op u s = (Ok t, s') → tx_db s' = tx_db s ∧ t = u ∧ kick_allowed (tx_db s) g op u.
Proof.
  intros Hd H. unfold kickChecks in H.
  apply tx_bind_Ok in H as (r1 & s1 & H1 & H). apply tx_bind_Ok in H as (mo & s2 & H2 & H).
  assert (tx_bind (member txGetMember (Group_Id g) op) tx_check s = (Ok mo, s2)) as Ho by (unfold tx_bind; by rewrite H1).
  apply member_tx_Ok in Ho as [Hd2 Hmo]. destruct (Z.ltb_spec (GM_Role mo) RoleAdmin) as [|Hadm]; [done|].
  apply tx_bind_Ok in H as (r3 & s3 & H3 & H). apply tx_bind_Ok in H as (mt & s4 & H4 & H).
  assert (tx_bind (member txGetMember (Group_Id g) u) tx_check s2 = (Ok mt, s4)) as Ht by (unfold tx_bind; by rewrite H3).
  apply member_tx_Ok in Ht as [Hd4 Hmt]. rewrite Hd2 in Hmt.
  destruct (ok_members _ Hd _ _ _ Hmt) as (_ & Eu & _). rewrite Eu in H.
  destruct (u =? Group_OwnerId g)%string eqn:Eo; [done|]. bool_prop.
  destruct ((GM_Role mo =? RoleAdmin) && (RoleAdmin <=? GM_Role mt)) eqn:Er; [done|].
  injection H as <- <-. split_and!; try congruence. exists mo, mt. split_and!; try done.
  intros Hr. apply Z.eqb_eq in Hr. rewrite Hr in Er. bool_prop. lia.
Qed.

(** A committed removal: the target was a member and no longer is, a kick was allowed, and what
    the target could read it still can, frozen at the current maximum. *)
Lemma removeTx_Ok g op u now s s' :
  DbOk (tx_db s) → is_Some (groups (tx_db s) !! Group_Id g) → ms_exact now →
  removeTx g op u now s = (Ok tt, s') →
  preserves (tx_db s) (tx_db s') ∧
  is_Some (members (tx_db s) !! (Group_Id g, u)) ∧ members (tx_db s') !! (Group_Id g, u) = None ∧
  (op ≠ u → kick_allowed (tx_db s) g op u) ∧
  (∀ k, visible (tx_db s') u (GroupConv (Group_Id g)) k ↔ visible (tx_db s) u (GroupConv (Group_Id g)) k).
Proof.
  intros Hd Hg Hnow H. unfold removeTx in H. apply tx_bind_Ok in H as (c & s1 & Hlock & H).
  apply tx_bind_Ok in H as (t & s2 & Hchk & H). apply tx_bind_Ok in H as (rm & s3 & Hrm & H).
  apply exec_Ok in Hlock as [Hlock _], Hrm as [Hrm _].
  destruct (lock_preserves _ _ _ _ _ _ _ Hd Hlock) as (P1 & Hcv & Hcm & Hcm0 & Hmsg & Huc & Hmem & Hgr & _).
  { unfold conv_ok. simpl. eauto 10. }
  assert (tx_db s2 = tx_db s1 ∧ t = u ∧ (op ≠ u → kick_allowed (tx_db s) g op u)) as (Hd2 & -> & Hkick).
  { destruct (op =? u)%string eqn:Eop; simpl in Hchk; bool_prop.
    - injection Hchk as <- <-. done.
    - apply kickChecks_Ok in Hchk as (? & -> & Hk); [|apply P1]. split_and!; try done. intros _.
      unfold kick_allowed in *. by rewrite <- Hmem. }
  unfold RemoveGroupMember, Gen.RemoveGroupMember in Hrm. rewrite Hd2 in Hrm.
  destruct (members (tx_db s1) !! (Group_Id g, u)) as [m|] eqn:Em; injection Hrm as <- Hd3; [|done]. simpl in H.
  destruct (proj1 (ok_member_uc _ (proj1 P1) (Group_Id g) u)) as (uc & Hucr & Hmax0); [by eexists|].
  assert (∃ oru, tx_db s' = change_member (tx_db s1) (Group_Id g) u None oru ∧ can_change (tx_db s1) (Group_Id g) u None oru ∧
    (∀ k, visible (tx_db s1) u (GroupConv (Group_Id g)) k → ∃ x, oru = Some x ∧ visible_seq x (conv_max (tx_db s1) (GroupConv (Group_Id g))) k))
    as (oru & Hfin & Hcan & Hkeep).
  { destruct (Z.eqb_spec (Conv_MaxSeq c) 0) as [E0|Hpos].
    - apply exec_Ok in H as [H _]. apply executing_Ok in H. exists None. split_and!.
      + rewrite H, <- Hd3. done.
      + apply leave_empty_can with m; [apply P1|done|congruence].
      + intros k (x & Hx & Hv). destruct Hv as [Hv _]. destruct (ok_uc _ (proj1 P1) _ _ _ Hx) as (_ & _ & _ & ? & _). lia.
    - apply exec_Ok in H as [H _]. apply executing_Ok in H.
      pose proof (conv_max_nonneg (proj1 P1) (GroupConv (Group_Id g))) as H0.
      exists (Some (UC_set_MaxSeq uc (conv_max (tx_db s1) (GroupConv (Group_Id g))))). split_and!.
      + rewrite H, <- Hd3, Hcm. unfold change_member, Gen.SetUserConversationMaxSeq. simpl. f_equal.
        apply map_eq. intros k'. rewrite lookup_change. case_bool_decide as Hk'; [subst; by rewrite lookup_alter_eq, Hucr|by rewrite lookup_alter_ne].
      + apply leave_can with m; try done; [apply P1|lia].
      + intros k (x & Hx & Hv). eexists. split; [done|]. simplify_eq. destruct Hv as [Hv _]. split; simpl; [done|]. right. lia. }
  pose proof (change_member_ok _ _ _ _ _ (proj1 P1) Hcan) as P2. rewrite <- Hfin in P2.
  split_and!; [by eapply preserves_trans|rewrite <- Hmem, Em; eauto| |done|].
  - rewrite Hfin. simpl. by rewrite lookup_partial_alter_eq.
  - intros k. assert (visible (tx_db s1) u (GroupConv (Group_Id g)) k ↔ visible (tx_db s) u (GroupConv (Group_Id g)) k) as <-.
    { unfold visible. by rewrite Huc, Hcm, Hcm0. }
    rewrite Hfin. split.
    + intros (x & Hx & Hv). simpl in Hx. rewrite lookup_partial_alter_eq in Hx. by eapply (cc_visible _ _ _ _ _ Hcan).
    + intros (x & Hx & Hv)%Hkeep. exists x. simpl. by rewrite lookup_partial_alter_eq.
Qed.

(** ** Transactions that post nothing *)

Definition op_silent {A} (op : Op A) : Prop := ∀ d, messages (op d).2 = messages d.

Definition silent {C A} (m : TxM C A) : Prop := ∀ s, messages (tx_db (m s).2) = messages (tx_db s).

Lemma silent_bind {C A B} (m : TxM C A) (k : A → TxM C B) : silent m → (∀ a, silent (k a)) → silent (tx_bind m k).
Proof.
  intros Hm Hk s. unfold tx_bind. specialize (Hm s). destruct (m s) as [[a|e] s1]; simpl in *; [|done]. by rewrite Hk.
Qed.

Lemma silent_stmt {C A} (op : Op A) : op_silent op → silent (stmt (C := C) op).
Proof. intros Ho s. unfold stmt. specialize (Ho (tx_db s)). destruct (fault (tx_tick s)), (op (tx_db s)); done. Qed.

Lemma silent_check {C A} (r : result A) : silent (tx_check (C := C) r).
Proof. by destruct r. Qed.

Lemma silent_exec {C A} (op : Op A) : op_silent op → silent (exec (C := C) op).
Proof. intros Ho. apply silent_bind; [by apply silent_stmt|apply silent_check]. Qed.

Lemma silent_ret {C A} (a : A) : silent (tx_ret (C := C) a).
Proof. done. Qed.

Lemma silent_fail {C A} (e : error) : silent (tx_fail (C := C) (A := A) e).
Proof. done. Qed.

(** [silence] walks a transaction whose statements leave the history alone. *)
Ltac silence :=
  repeat match goal with
  | |- silent (tx_bind _ _) => apply silent_bind; [|intros ?]
  | |- silent (mbind _ _) => apply silent_bind; [|intros ?]
  | |- silent (exec _) => apply silent_exec
  | |- silent (stmt _) => apply silent_stmt
  | |- silent (tx_check _) => apply silent_check
  | |- silent (tx_ret _) => apply silent_ret
  | |- silent (mret _) => apply silent_ret
  | |- silent (tx_fail _) => apply silent_fail
  | |- silent (match ?x with _ => _ end) => destruct x
  | |- silent (if ?x then _ else _) => destruct x
  | |- op_silent (reading _) => done
  end.

Lemma executing_silent {A} (q : Db → qres A * Db) : (∀ d, messages (q d).2 = messages d) → op_silent (executing q).
Proof. intros H d. unfold executing. specialize (H d). by destruct (q d). Qed.

Lemma lock_silent c t g now : op_silent (LockConversation c t g now).
Proof. intros d. unfold LockConversation, Gen.InsertConversationIfMissing. by destruct (convs d !! c). Qed.

Lemma createTx_silent g ids now : silent (createTx g ids now).
Proof.
  unfold createTx. silence; [|apply lock_silent|].
  - intros d. unfold CreateGroup, Gen.CreateGroup, Gen.AddGroupMembers. destruct (groups d !! Group_Id g); [done|]. simpl.
    by destruct (Gen.copy_members _ _).
  - intros d. unfold CreateUserConversations. destruct (_ =? _)%nat; [done|]. unfold Gen.CreateUserConversations. by destruct (Gen.copy_userConvs _ _).
Qed.

Lemma joinTx_silent g u now : silent (joinTx cfg g u now).
Proof.
  unfold joinTx. silence; try apply lock_silent; try done; apply executing_silent; intros d.
  unfold Gen.AddGroupMember. by destruct (members d !! _).
Qed.

Lemma removeTx_silent g op u now : silent (removeTx g op u now).
Proof.
  unfold removeTx, kickChecks, member, txGetMember. silence; try apply lock_silent; try done; try (apply executing_silent; done).
  all: intros d; unfold RemoveGroupMember, Gen.RemoveGroupMember; by destruct (members d !! _).
Qed.

(** The state a silent transaction leaves holds no new message. *)
Lemma silent_posts {C} (body : TxM C unit) s s' : silent body → body s = (Ok tt, s') → posts (tx_db s) (tx_db s').
Proof. intros Hs E m Hm. left. specialize (Hs s). rewrite E in Hs. simpl in Hs. by rewrite <- Hs. Qed.

Lemma sent_posts i cid id now d d' m : send_dest i cid → sent_in i cid id now d d' m → posts d d'.
Proof.
  intros Hdest [(t & _ & ->) Hms _ Hmem] x Hx. rewrite Hms in Hx. apply elem_of_app in Hx as [Hx|Hx%list_elem_of_singleton]; [by left|right].
  subst x. intros Hg. simpl in *. destruct (Hmem Hg) as (g & Hgr & Hst & Hm). eauto.
Qed.
End Tx.
