(* ===== verification/UserMap.v ===== *)
(** * The connection registry of a node ([internal/gateway/usermap.go])

    Slots are reserved before the WebSocket upgrade and adopted by a client afterwards; counters per
    user, token and address and in total enforce the connection limits. Every method holds the mutex, so
    each is one step. *)

From S2P Require Import Prelude Errcode Strconv.

Local Open Scope Z_scope.

(** The connection limits of [config.LimitsConfig]; 0 is no limit. *)
Record LimitsConfig := mkLimits { WsConnsTotal : Z; WsConnsPerUser : Z; WsConnsPerToken : Z; WsConnsPerIp : Z }.

Record Slot := mkSlot { Slot_UserId : string; Slot_TokenId : string; Slot_Ip : string }.

(** A [*Client]: its address and the fields the registry reads. *)
Record Client := mkClient {
  Cl_ptr : nat; Cl_Id : string; Cl_UserId : string; Cl_PlatformId : Z; Cl_TokenId : string; Cl_Ip : string }.

#[export] Instance Client_eq_dec : EqDecision Client.
Proof. solve_decision. Defined.

#[export] Instance Slot_eq_dec : EqDecision Slot.
Proof. solve_decision. Defined.

Definition slot (c : Client) : Slot := mkSlot (Cl_UserId c) (Cl_TokenId c) (Cl_Ip c).

Record UserMap := mkUserMap {
  um_limits : LimitsConfig; um_byUser : gmap string (list Client); um_byUserN : gmap string Z; um_byToken : gmap string Z;
  um_byIp : gmap string Z; um_total : Z; um_closing : bool }.

Definition NewUserMap (limits : LimitsConfig) : UserMap := mkUserMap limits ∅ ∅ ∅ ∅ 0 false.

(** [m[k]] of a map of counters. *)
Definition at_key (m : gmap string Z) (k : string) : Z := default 0 (m !! k).

Definition over (n limit : Z) : bool := (0 <? limit) && (limit <=? n).

Definition bump (m : gmap string Z) (k : string) : gmap string Z := <[k := at_key m k + 1]> m.

Definition incr (m : gmap string Z) (k : string) : gmap string Z := if (k =? "")%string then m else bump m k.

Definition decr (m : gmap string Z) (k : string) : gmap string Z :=
  if (k =? "")%string then m
  else if at_key m k <=? 1 then delete k m
  else <[k := at_key m k - 1]> m.

Definition reserve (m : UserMap) (s : Slot) : err * UserMap :=
  if um_closing m then (Some ErrNodeDraining, m)
  else if over (um_total m) (WsConnsTotal (um_limits m)) then (Some (WithMessage ErrConnOverLimit "node connection limit reached"), m)
  else if over (at_key (um_byUserN m) (Slot_UserId s)) (WsConnsPerUser (um_limits m)) then
    (Some (WithMessage ErrConnOverLimit "too many connections for this user"), m)
  else if negb (Slot_TokenId s =? "")%string && over (at_key (um_byToken m) (Slot_TokenId s)) (WsConnsPerToken (um_limits m)) then
    (Some (WithMessage ErrConnOverLimit "too many connections for this token"), m)
  else if negb (Slot_Ip s =? "")%string && over (at_key (um_byIp m) (Slot_Ip s)) (WsConnsPerIp (um_limits m)) then
    (Some (WithMessage ErrConnOverLimit "too many connections from this address"), m)
  else (None, mkUserMap (um_limits m) (um_byUser m) (bump (um_byUserN m) (Slot_UserId s)) (incr (um_byToken m) (Slot_TokenId s))
                (incr (um_byIp m) (Slot_Ip s)) (um_total m + 1) (um_closing m)).

Definition release (m : UserMap) (s : Slot) : UserMap :=
  mkUserMap (um_limits m) (um_byUser m) (decr (um_byUserN m) (Slot_UserId s)) (decr (um_byToken m) (Slot_TokenId s))
    (decr (um_byIp m) (Slot_Ip s)) (um_total m - 1) (um_closing m).

(** The connections of a user; absent is nil. *)
Definition conns (m : UserMap) (userId : string) : list Client := default [] (um_byUser m !! userId).

Definition set_byUser (m : UserMap) (x : gmap string (list Client)) : UserMap :=
  mkUserMap (um_limits m) x (um_byUserN m) (um_byToken m) (um_byIp m) (um_total m) (um_closing m).

(** [closed] says whether the client's [closed] channel is closed. *)
Definition adopt (m : UserMap) (c : Client) (closed : bool) : err * UserMap :=
  let e := if closed then Some ErrConnClosed else if um_closing m then Some ErrNodeDraining else None in
  match e with
  | Some e => (Some e, release m (slot c))
  | None => (None, set_byUser m (<[Cl_UserId c := conns m (Cl_UserId c) ++ [c]]> (um_byUser m)))
  end.

Definition Register (m : UserMap) (c : Client) (closed : bool) : err * UserMap :=
  match reserve m (slot c) with
  | (Some e, m') => (Some e, m')
  | (None, m') => adopt m' c closed
  end.

(** [maps.Values] in the order of the model's map. *)
Definition All (m : UserMap) : list Client := concat (map_to_list (um_byUser m)).*2.

Definition Close (m : UserMap) : list Client * UserMap :=
  (All m, mkUserMap (um_limits m) (um_byUser m) (um_byUserN m) (um_byToken m) (um_byIp m) (um_total m) true).

(** [slices.Index] and [slices.Delete] of one element: the first occurrence goes. *)
Fixpoint remove_first (c : Client) (l : list Client) : option (list Client) :=
  match l with
  | [] => None
  | x :: l' => if bool_decide (x = c) then Some l' else match remove_first c l' with Some r => Some (x :: r) | None => None end
  end.

Definition Unregister (m : UserMap) (c : Client) : UserMap :=
  match remove_first c (conns m (Cl_UserId c)) with
  | None => m
  | Some [] => release (set_byUser m (delete (Cl_UserId c) (um_byUser m))) (slot c)
  | Some rest => release (set_byUser m (<[Cl_UserId c := rest]> (um_byUser m))) (slot c)
  end.

Definition Get (m : UserMap) (userId : string) : list Client := conns m userId.

Definition Count (m : UserMap) : Z := um_total m.

Definition OnlineExcept (m : UserMap) (userIds : list string) (exceptConnId : string) : list string :=
  List.filter (λ id, match conns m id with
                     | [] => false
                     | [c] => negb (Cl_Id c =? exceptConnId)%string
                     | _ => true
                     end) userIds.

(** ** Counters *)

(** How many slots of a list have key [k]. *)
Definition cnt (f : Slot → string) (k : string) (l : list Slot) : Z := Z.of_nat (length (List.filter (λ s, (f s =? k)%string) l)).

Lemma cnt_app f k l l' : cnt f k (l ++ l') = cnt f k l + cnt f k l'.
Proof. unfold cnt. rewrite List.filter_app, length_app. lia. Qed.

Lemma cnt_cons f k s l : cnt f k (s :: l) = (if (f s =? k)%string then 1 else 0) + cnt f k l.
Proof. unfold cnt. simpl. destruct (f s =? k)%string; simpl; lia. Qed.

Lemma cnt_nonneg f k l : 0 ≤ cnt f k l.
Proof. unfold cnt. lia. Qed.

Lemma cnt_perm f k l l' : l ≡ₚ l' → cnt f k l = cnt f k l'.
Proof. induction 1; rewrite ?cnt_cons; lia. Qed.

Lemma at_bump m k k' : at_key (bump m k) k' = at_key m k' + (if (k =? k')%string then 1 else 0).
Proof.
  unfold bump, at_key. destruct (String.eqb_spec k k') as [->|Hne]; [by rewrite lookup_insert_eq|].
  rewrite lookup_insert_ne by done. lia.
Qed.

Lemma at_decr m k k' : k ≠ ""%string → 1 ≤ at_key m k → at_key (decr m k) k' = at_key m k' - (if (k =? k')%string then 1 else 0).
Proof.
  intros Hk H1. unfold decr. replace (k =? "")%string with false by (symmetry; by apply String.eqb_neq).
  destruct (Z.leb_spec (at_key m k) 1); unfold at_key in *; destruct (String.eqb_spec k k') as [->|Hne].
  - rewrite lookup_delete_eq. simpl. lia.
  - rewrite lookup_delete_ne by done. lia.
  - by rewrite lookup_insert_eq.
  - rewrite lookup_insert_ne by done. lia.
Qed.

(** The counters of a map that holds the slots [held], and the limits. *)
Record counts_ok (m : UserMap) (held : list Slot) : Prop := {
  co_total : um_total m = Z.of_nat (length held);
  co_user : ∀ k, at_key (um_byUserN m) k = cnt Slot_UserId k held;
  co_token : ∀ k, k ≠ ""%string → at_key (um_byToken m) k = cnt Slot_TokenId k held;
  co_ip : ∀ k, k ≠ ""%string → at_key (um_byIp m) k = cnt Slot_Ip k held;
  co_named : Forall (λ s, Slot_UserId s ≠ ""%string) held;
  co_lim : 0 < WsConnsTotal (um_limits m) → um_total m ≤ WsConnsTotal (um_limits m);
  co_lim_user k : 0 < WsConnsPerUser (um_limits m) → cnt Slot_UserId k held ≤ WsConnsPerUser (um_limits m);
  co_lim_token k : k ≠ ""%string → 0 < WsConnsPerToken (um_limits m) → cnt Slot_TokenId k held ≤ WsConnsPerToken (um_limits m);
  co_lim_ip k : k ≠ ""%string → 0 < WsConnsPerIp (um_limits m) → cnt Slot_Ip k held ≤ WsConnsPerIp (um_limits m) }.

Lemma counts_perm m l l' : l ≡ₚ l' → counts_ok m l → counts_ok m l'.
Proof.
  intros Hp [H1 H2 H3 H4 H5 H6 H7 H8 H9]. assert (∀ f k, cnt f k l' = cnt f k l) as Hc by (intros; by apply cnt_perm).
  split; intros; rewrite ?Hc; eauto; [by rewrite <- Hp|by rewrite <- Hp].
Qed.

Lemma at_incr m k k' : k' ≠ ""%string → at_key (incr m k) k' = at_key m k' + (if (k =? k')%string then 1 else 0).
Proof.
  intros Hk'. unfold incr. destruct (String.eqb_spec k "") as [->|]; [|apply at_bump].
  destruct (String.eqb_spec "" k'); [congruence|lia].
Qed.

Lemma reserve_ok m s m' held :
  Slot_UserId s ≠ ""%string → counts_ok m held → reserve m s = (None, m') →
  counts_ok m' (s :: held) ∧ um_byUser m' = um_byUser m ∧ um_closing m = false ∧ um_closing m' = false ∧ um_limits m' = um_limits m.
Proof.
  intros Hs [H1 H2 H3 H4 H5 H6 H7 H8 H9]. unfold reserve. destruct (um_closing m) eqn:Ec; [done|].
  destruct (over (um_total m) _) eqn:O1; [done|]. destruct (over (at_key (um_byUserN m) _) _) eqn:O2; [done|].
  destruct (_ && over (at_key (um_byToken m) _) _) eqn:O3; [done|]. destruct (_ && over (at_key (um_byIp m) _) _) eqn:O4; [done|].
  intros [= <-]. simpl. split; [|done]. unfold over in *. split; simpl; intros; rewrite ?cnt_cons.
  - lia.
  - rewrite at_bump, H2. destruct (_ =? k)%string; lia.
  - rewrite at_incr, H3 by done. destruct (_ =? k)%string; lia.
  - rewrite at_incr, H4 by done. destruct (_ =? k)%string; lia.
  - by constructor.
  - lia.
  - rewrite H2 in O2. specialize (H7 k ltac:(assumption)). destruct (String.eqb_spec (Slot_UserId s) k) as [<-|]; lia.
  - specialize (H8 k ltac:(assumption) ltac:(assumption)). destruct (String.eqb_spec (Slot_TokenId s) k) as [<-|]; [|lia].
    rewrite H3 in O3 by done. destruct (String.eqb_spec (Slot_TokenId s) ""); [done|]. simpl in O3. lia.
  - specialize (H9 k ltac:(assumption) ltac:(assumption)). destruct (String.eqb_spec (Slot_Ip s) k) as [<-|]; [|lia].
    rewrite H4 in O4 by done. destruct (String.eqb_spec (Slot_Ip s) ""); [done|]. simpl in O4. lia.
Qed.

(** A counter of non-empty keys when a slot goes. *)
Lemma decr_cnt (f : Slot → string) m s l k :
  (∀ k, k ≠ ""%string → at_key m k = cnt f k (s :: l)) → k ≠ ""%string → at_key (decr m (f s)) k = cnt f k l.
Proof.
  intros H Hk. destruct (String.eqb_spec (f s) "") as [E|Hne].
  - unfold decr. rewrite E, String.eqb_refl, H, cnt_cons, E by done. destruct (String.eqb_spec "" k); [congruence|lia].
  - rewrite at_decr; [|done|].
    + rewrite H, cnt_cons by done. destruct (f s =? k)%string; lia.
    + rewrite H, cnt_cons, String.eqb_refl by done. pose proof (cnt_nonneg f (f s) l). lia.
Qed.

Lemma release_ok m s held :
  counts_ok m (s :: held) → counts_ok (release m s) held.
Proof.
  intros [H1 H2 H3 H4 H5 H6 H7 H8 H9]. inversion H5 as [|? ? Hs H5']; subst. simpl in H1.
  split; simpl; intros.
  - lia.
  - destruct (String.eqb_spec k "") as [->|Hk]; [|apply decr_cnt; intros; [apply H2|done]].
    rewrite at_decr; [|done|rewrite H2, cnt_cons, String.eqb_refl; pose proof (cnt_nonneg Slot_UserId (Slot_UserId s) held); lia].
    rewrite H2, cnt_cons. destruct (String.eqb_spec (Slot_UserId s) ""); [congruence|lia].
  - by apply decr_cnt.
  - by apply decr_cnt.
  - done.
  - lia.
  - specialize (H7 k ltac:(assumption)). rewrite cnt_cons in H7. destruct (_ =? k)%string; lia.
  - specialize (H8 k ltac:(assumption) ltac:(assumption)). rewrite cnt_cons in H8. destruct (_ =? k)%string; lia.
  - specialize (H9 k ltac:(assumption) ltac:(assumption)). rewrite cnt_cons in H9. destruct (_ =? k)%string; lia.
Qed.

(** ** The protocol

    A reserved slot is released or adopted once; an adopted client is unregistered when it closes, any number of
    times. [res] are the slots reserved and not yet settled, [ads] the clients adopted and not yet unregistered, in
    order. *)

Record UmState := mkUm { us_map : UserMap; us_res : list Slot; us_ads : list Client }.

Inductive um_step : UmState → UmState → Prop :=
| um_reserve m res ads s m' : Slot_UserId s ≠ ""%string → reserve m s = (None, m') → um_step (mkUm m res ads) (mkUm m' (s :: res) ads)
| um_refused m res ads s e m' : reserve m s = (Some e, m') → um_step (mkUm m res ads) (mkUm m' res ads)
| um_release m res ads s res' : res ≡ₚ s :: res' → um_step (mkUm m res ads) (mkUm (release m s) res' ads)
| um_adopt m res ads c closed res' m' :
    res ≡ₚ slot c :: res' → adopt m c closed = (None, m') → um_step (mkUm m res ads) (mkUm m' res' (ads ++ [c]))
| um_adopt_failed m res ads c closed res' e m' :
    res ≡ₚ slot c :: res' → adopt m c closed = (Some e, m') → um_step (mkUm m res ads) (mkUm m' res' ads)
| um_register m res ads c closed m' :
    Cl_UserId c ≠ ""%string → Register m c closed = (None, m') → um_step (mkUm m res ads) (mkUm m' res (ads ++ [c]))
| um_register_failed m res ads c closed e m' :
    Cl_UserId c ≠ ""%string → Register m c closed = (Some e, m') → um_step (mkUm m res ads) (mkUm m' res ads)
| um_unregister m res ads c : um_step (mkUm m res ads) (mkUm (Unregister m c) res (default ads (remove_first c ads)))
| um_close m res ads : um_step (mkUm m res ads) (mkUm (Close m).2 res ads).

Definition of_user (u : string) (l : list Client) : list Client := List.filter (λ c, (Cl_UserId c =? u)%string) l.

Record um_inv (st : UmState) : Prop := {
  ui_counts : counts_ok (us_map st) (us_res st ++ map slot (us_ads st));
  ui_conns : ∀ u, conns (us_map st) u = of_user u (us_ads st) }.

Lemma of_user_app u l l' : of_user u (l ++ l') = of_user u l ++ of_user u l'.
Proof. apply List.filter_app. Qed.

Lemma reserve_same m s e m' : reserve m s = (Some e, m') → m' = m.
Proof. unfold reserve. by repeat case_match; intros [= _ <-]. Qed.

Lemma conns_insert m c l u : conns (set_byUser m (<[Cl_UserId c := l]> (um_byUser m))) u = if (Cl_UserId c =? u)%string then l else conns m u.
Proof.
  unfold conns. simpl. destruct (String.eqb_spec (Cl_UserId c) u) as [->|Hne]; [by rewrite lookup_insert_eq|by rewrite lookup_insert_ne].
Qed.

(** Adopting a client whose slot is held. *)
Lemma adopt_inv m c closed e m' held ads :
  counts_ok m (slot c :: held ++ map slot ads) → (∀ u, conns m u = of_user u ads) → adopt m c closed = (e, m') →
  match e with
  | None => um_inv (mkUm m' held (ads ++ [c])) ∧ um_closing m = false
  | Some _ => um_inv (mkUm m' held ads)
  end.
Proof.
  intros Hc Hconns. unfold adopt. set (x := if closed then _ else _). destruct x as [x0|] eqn:Ex; intros [= <- <-].
  - split; simpl; [by apply release_ok|done].
  - split; [|by destruct closed, (um_closing m)]. split; simpl.
    + rewrite map_app. simpl. apply (counts_perm _ (slot c :: held ++ map slot ads)); [|by destruct Hc].
      rewrite (app_assoc held). apply Permutation_cons_append.
    + intros u. rewrite conns_insert, of_user_app, <- Hconns. simpl. destruct (String.eqb_spec (Cl_UserId c) u) as [->|]; [done|].
      by rewrite app_nil_r.
Qed.

Lemma remove_first_spec c l :
  match remove_first c l with
  | Some r => ∃ l1 l2, l = l1 ++ c :: l2 ∧ r = l1 ++ l2 ∧ c ∉ l1
  | None => c ∉ l
  end.
Proof.
  induction l as [|x l IH]; simpl; [by apply not_elem_of_nil|]. case_bool_decide as Hx; [subst; exists [], l; split_and!; try done; by apply not_elem_of_nil|].
  destruct (remove_first c l) as [r|]; [|set_solver]. destruct IH as (l1 & l2 & -> & -> & Hn). exists (x :: l1), l2. split_and!; try done. set_solver.
Qed.

(** Removing from the connections of a user and from the list of all clients is the same thing. *)
Lemma remove_first_user c l :
  match remove_first c l with
  | Some r => remove_first c (of_user (Cl_UserId c) l) = Some (of_user (Cl_UserId c) r)
  | None => remove_first c (of_user (Cl_UserId c) l) = None
  end.
Proof.
  induction l as [|x l IH]; simpl; [done|]. case_bool_decide as Hx.
  - subst x. rewrite String.eqb_refl. simpl. by rewrite bool_decide_eq_true_2.
  - destruct (remove_first c l) as [r|]; simpl; destruct (Cl_UserId x =? Cl_UserId c)%string; simpl; rewrite ?bool_decide_eq_false_2 by done;
      by rewrite ?IH.
Qed.

Lemma conns_remove m c l u :
  conns (set_byUser m (match l with [] => delete (Cl_UserId c) (um_byUser m) | _ => <[Cl_UserId c := l]> (um_byUser m) end)) u
  = if (Cl_UserId c =? u)%string then l else conns m u.
Proof.
  destruct l as [|x l]; [|apply (conns_insert m c (x :: l))]. unfold conns. simpl.
  destruct (String.eqb_spec (Cl_UserId c) u) as [->|Hne]; [by rewrite lookup_delete_eq|by rewrite lookup_delete_ne].
Qed.

Lemma Unregister_eq m c :
  Unregister m c =
  match remove_first c (conns m (Cl_UserId c)) with
  | None => m
  | Some rest => release (set_byUser m (match rest with [] => delete (Cl_UserId c) (um_byUser m) | _ => <[Cl_UserId c := rest]> (um_byUser m) end)) (slot c)
  end.
Proof. unfold Unregister. by destruct (remove_first _ _) as [[|? ?]|]. Qed.

Lemma counts_set_byUser m x l : counts_ok m l → counts_ok (set_byUser m x) l.
Proof. by intros []. Qed.

Lemma unregister_inv m res ads c :
  um_inv (mkUm m res ads) → um_inv (mkUm (Unregister m c) res (default ads (remove_first c ads))).
Proof.
  intros [Hc Hn]. simpl in *. rewrite Unregister_eq, Hn. pose proof (remove_first_user c ads) as Hu. pose proof (remove_first_spec c ads) as Hs.
  destruct (remove_first c ads) as [r|]; rewrite Hu; [|by split]. destruct Hs as (l1 & l2 & -> & -> & _). split; simpl.
  - apply release_ok, counts_set_byUser. eapply counts_perm; [|exact Hc]. rewrite !map_app. simpl. rewrite !(app_assoc res). symmetry. apply Permutation_middle.
  - intros u. change (conns (set_byUser m (match of_user (Cl_UserId c) (l1 ++ l2) with [] => delete (Cl_UserId c) (um_byUser m)
      | _ => <[Cl_UserId c := of_user (Cl_UserId c) (l1 ++ l2)]> (um_byUser m) end)) u = of_user u (l1 ++ l2)).
    rewrite conns_remove. destruct (String.eqb_spec (Cl_UserId c) u) as [<-|Hne]; [done|]. rewrite Hn, !of_user_app. simpl.
    by destruct (String.eqb_spec (Cl_UserId c) u).
Qed.

(** A step keeps the limits, and once closing is set it stays set. *)
Definition um_kept (m m' : UserMap) : Prop := um_limits m' = um_limits m ∧ (um_closing m = true → um_closing m' = true).

Lemma adopt_kept m c closed : um_kept m (adopt m c closed).2.
Proof. unfold adopt. by destruct closed, (um_closing m). Qed.

Lemma reserve_kept m s : um_kept m (reserve m s).2.
Proof. unfold reserve, um_kept. by repeat case_match. Qed.

Lemma um_step_inv st st' :
  um_step st st' → um_inv st →
  um_inv st' ∧ um_kept (us_map st) (us_map st') ∧ (um_closing (us_map st) = true → ∀ c, c ∈ us_ads st' → c ∈ us_ads st).
Proof.
  intros Hst [Hc Hn]. inversion Hst as [m res ads s m' Hs Hr|m res ads s e m' Hr|m res ads s res' Hp|m res ads c cl res' m' Hp Ha|m res ads c cl res' e m' Hp Ha
    |m res ads c cl m' Hu Hr|m res ads c cl e m' Hu Hr|m res ads c|m res ads]; subst; simpl in *.
  - pose proof (reserve_kept m s) as Hk. rewrite Hr in Hk. destruct (reserve_ok _ _ _ _ Hs Hc Hr) as (? & Hb & _). split_and!; [|done|done].
    split; simpl; [done|]. intros u. rewrite <- Hn. unfold conns. by rewrite Hb.
  - apply reserve_same in Hr as ->. by split_and!.
  - split_and!; try done. split; simpl; [|done]. apply release_ok. by eapply counts_perm; [|exact Hc]; rewrite Hp.
  - pose proof (adopt_kept m c cl) as Hk. rewrite Ha in Hk. assert (counts_ok m (slot c :: res' ++ map slot ads)) as Hc' by (by eapply counts_perm; [|exact Hc]; rewrite Hp).
    destruct (adopt_inv _ _ _ _ _ _ _ Hc' Hn Ha) as [? E]. split_and!; try done. by rewrite E.
  - pose proof (adopt_kept m c cl) as Hk. rewrite Ha in Hk. assert (counts_ok m (slot c :: res' ++ map slot ads)) as Hc' by (by eapply counts_perm; [|exact Hc]; rewrite Hp).
    pose proof (adopt_inv _ _ _ _ _ _ _ Hc' Hn Ha). by split_and!.
  - unfold Register in Hr. destruct (reserve m (slot c)) as [[e1|] m1] eqn:E1; [done|]. destruct (reserve_ok _ (slot c) _ _ Hu Hc E1) as (Hc1 & Hb & Hcl & _ & Hl).
    assert (∀ u, conns m1 u = of_user u ads) as Hn1 by (intros u; rewrite <- Hn; unfold conns; by rewrite Hb).
    pose proof (adopt_kept m1 c cl) as [Hk1 Hk2]. rewrite Hr in Hk1, Hk2. destruct (adopt_inv _ _ _ _ _ _ _ Hc1 Hn1 Hr) as [? ?].
    split_and!; [done|split; [by rewrite <- Hl|by rewrite Hcl]|by rewrite Hcl].
  - unfold Register in Hr. destruct (reserve m (slot c)) as [[e1|] m1] eqn:E1; [injection Hr as <- <-; apply reserve_same in E1 as ->; by split_and!|].
    destruct (reserve_ok _ (slot c) _ _ Hu Hc E1) as (Hc1 & Hb & Hcl & _ & Hl).
    assert (∀ u, conns m1 u = of_user u ads) as Hn1 by (intros u; rewrite <- Hn; unfold conns; by rewrite Hb).
    pose proof (adopt_kept m1 c cl) as [Hk1 Hk2]. rewrite Hr in Hk1, Hk2. pose proof (adopt_inv _ _ _ _ _ _ _ Hc1 Hn1 Hr).
    split_and!; [done|split; [by rewrite <- Hl|by rewrite Hcl]|by rewrite Hcl].
  - split_and!; [by apply unregister_inv| |].
    + unfold um_kept. rewrite Unregister_eq. destruct (remove_first c (conns m (Cl_UserId c))); split; simpl; auto.
    + intros _ c'. pose proof (remove_first_spec c ads) as Hs. destruct (remove_first c ads) as [r|]; simpl; [|done].
      destruct Hs as (l1 & l2 & -> & -> & _). set_solver.
  - split; [|done]. split; simpl; [by destruct Hc|done].
Qed.

Lemma um_steps_inv st st' :
  rtc um_step st st' → um_inv st →
  um_inv st' ∧ um_kept (us_map st) (us_map st') ∧ (um_closing (us_map st) = true → ∀ c, c ∈ us_ads st' → c ∈ us_ads st).
Proof.
  induction 1 as [|st st1 st2 H1 _ IH]; [done|]. intros Hi. destruct (um_step_inv _ _ H1 Hi) as (Hi1 & [Hl Hc] & Ha).
  destruct (IH Hi1) as (Hi2 & [Hl2 Hc2] & Ha2). split_and!; [done|split; [congruence|auto]|auto].
Qed.

Lemma NewUserMap_inv L : um_inv (mkUm (NewUserMap L) [] []).
Proof. split; [split; simpl; try done; unfold cnt; simpl; lia|done]. Qed.

(** ** What the registry promises *)

(** A counter within a limit, 0 being no limit. *)
Definition within (limit n : Z) : Prop := 0 < limit → n ≤ limit.

(** At every state the registry reaches through reservations, releases, adoptions, registrations, unregistrations
    (repeated ones too) and closing, for every interleaving of connections: [Count] is the number of slots held, reserved
    ones included; the total, and the connections of every user, token and address, stay within their limits; and
    [Get] returns exactly the adopted clients of the user that have not been unregistered, in the order of adoption. *)
Lemma usermap_limits L st :
  rtc um_step (mkUm (NewUserMap L) [] []) st →
  let held := us_res st ++ map slot (us_ads st) in
  Count (us_map st) = Z.of_nat (length held) ∧
  within (WsConnsTotal L) (Count (us_map st)) ∧
  (∀ u, within (WsConnsPerUser L) (cnt Slot_UserId u held)) ∧
  (∀ t, t ≠ ""%string → within (WsConnsPerToken L) (cnt Slot_TokenId t held)) ∧
  (∀ a, a ≠ ""%string → within (WsConnsPerIp L) (cnt Slot_Ip a held)) ∧
  (∀ u, Get (us_map st) u = List.filter (λ c, (Cl_UserId c =? u)%string) (us_ads st)).
Proof.
  intros Hs. destruct (um_steps_inv _ _ Hs (NewUserMap_inv L)) as ([[H1 _ _ _ _ H6 H7 H8 H9] Hn] & [Hl _] & _). simpl in Hl.
  rewrite Hl in *. unfold within, Count, Get, of_user in *. by split_and!.
Qed.

(** Draining is final: once [Close] has run, every client adopted at any later state, whatever registrations race
    with it, was in the list [Close] returned, and every reservation, registration and adoption is refused; the
    lists that [Close] and [All] return hold exactly the adopted clients. *)
Lemma close_final L st st' c closed :
  rtc um_step (mkUm (NewUserMap L) [] []) st →
  rtc um_step (mkUm (Close (us_map st)).2 (us_res st) (us_ads st)) st' →
  (c ∈ All (us_map st) ↔ c ∈ us_ads st) ∧
  (c ∈ us_ads st' → c ∈ (Close (us_map st)).1) ∧
  (reserve (us_map st') (slot c)).1 = Some ErrNodeDraining ∧ (Register (us_map st') c closed).1 = Some ErrNodeDraining ∧
  is_Some (adopt (us_map st') c closed).1.
Proof.
  intros Hs Hs'. destruct (um_steps_inv _ _ Hs (NewUserMap_inv L)) as (Hi & _).
  assert (c ∈ All (us_map st) ↔ c ∈ us_ads st) as Hall.
  { destruct Hi as [_ Hn]. unfold All. rewrite list_elem_of_In, in_concat. split.
    - intros (l & Hl & Hc). apply list_elem_of_In in Hl. apply list_elem_of_fmap in Hl as ([u l'] & -> & Hl). apply elem_of_map_to_list in Hl.
      assert (conns (us_map st) u = l') as E by (unfold conns; by rewrite Hl). rewrite Hn in E. simpl in Hc. rewrite <- E in Hc.
      unfold of_user in Hc. apply filter_In in Hc as [Hc _]. by apply list_elem_of_In.
    - intros Hc. assert (c ∈ conns (us_map st) (Cl_UserId c)) as Hc'.
      { rewrite Hn. apply list_elem_of_In, filter_In. split; [by apply list_elem_of_In|apply String.eqb_refl]. }
      unfold conns in Hc'. destruct (um_byUser (us_map st) !! Cl_UserId c) as [l|] eqn:El; simpl in Hc'; [|by apply not_elem_of_nil in Hc'].
      exists l. rewrite <- !list_elem_of_In. split; [|done]. apply list_elem_of_fmap. exists (Cl_UserId c, l). split; [done|]. by apply elem_of_map_to_list. }
  assert (um_step st (mkUm (Close (us_map st)).2 (us_res st) (us_ads st))) as Hst by (destruct st; constructor).
  destruct (um_step_inv _ _ Hst Hi) as (Hi1 & _). destruct (um_steps_inv _ _ Hs' Hi1) as (_ & [_ Hcl] & Ha). specialize (Hcl eq_refl). specialize (Ha eq_refl).
  split_and!; [done|intros Hc; by apply Hall, Ha| | |].
  - unfold reserve. by rewrite Hcl.
  - unfold Register, reserve. by rewrite Hcl.
  - unfold adopt. rewrite Hcl. by destruct closed.
Qed.

(** A registry with two slots per user: three handshakes race, the third is refused, one client goes, the third comes
    back, the node drains. *)
Definition demoLimits : LimitsConfig := mkLimits 10 2 0 5.
Definition demoClient (n : nat) : Client := mkClient n (if (n =? 0)%nat then "c0" else "c1") "alice" 1 "" "10.0.0.1".

Definition demoState : UmState :=
  let s := slot (demoClient 0) in
  let m1 := (reserve (NewUserMap demoLimits) s).2 in
  let m2 := (reserve m1 s).2 in
  let m3 := (adopt m2 (demoClient 0) false).2 in
  mkUm (Unregister m3 (demoClient 0)) [s] [].

Lemma demo_um_steps : rtc um_step (mkUm (NewUserMap demoLimits) [] []) demoState.
Proof.
  eapply rtc_l; [apply (um_reserve _ _ _ (slot (demoClient 0))); [done|reflexivity]|].
  eapply rtc_l; [apply (um_reserve _ _ _ (slot (demoClient 0))); [done|reflexivity]|].
  eapply rtc_l; [apply (um_refused _ _ _ (slot (demoClient 0)) (WithMessage ErrConnOverLimit "too many connections for this user")); reflexivity|].
  eapply rtc_l; [apply (um_adopt _ _ _ (demoClient 0) false [slot (demoClient 0)]); [done|reflexivity]|].
  eapply rtc_l; [apply (um_unregister _ _ _ (demoClient 0))|]. by vm_compute.
Qed.

Lemma usermap_limits_witness :
  Count (us_map demoState) = 1 ∧ within 2 (cnt Slot_UserId "alice" (us_res demoState)).
Proof. split; [vm_compute; reflexivity|exact (proj1 (proj2 (proj2 (usermap_limits demoLimits demoState demo_um_steps))) "alice"%string)]. Defined.

Lemma close_final_witness : (Register (Close (us_map demoState)).2 (demoClient 1) false).1 = Some ErrNodeDraining.
Proof.
  exact (proj1 (proj2 (proj2 (proj2 (close_final demoLimits demoState _ (demoClient 1) false demo_um_steps (rtc_refl _ _)))))).
Defined.
