(* ===== verification/MessageInv.v ===== *)
(** * The message service under interleaving

    What [Send], [Pull], [MaxSeqs], [Recipients], [ResolvePush] and the offline-push workers do, whatever other
    requests run between their steps and whichever steps fail. *)

From S2P Require Import Prelude Errcode Strconv Identity Json Store PgStore Conv DbInv Conc RateLimit MemberCache World OnlineStore ConvPage MessageSvc GroupSvc WorldInv TxInv History.

Local Open Scope Z_scope.

Lemma ms_exact_NowMs t : ms_exact (NowMs t).
Proof. apply NowMs_UnixMilli. Qed.

Lemma validate_single maxc i :
  validate maxc i = None → SI_SessionType i = ConversationSingle → Valid (SI_RecvId i) = true ∧ SI_RecvId i ≠ SI_SenderId i.
Proof.
  unfold validate. intros H E. repeat (case_if_in H; [done|]). bool_prop.
  rewrite E in *. change (ConversationSingle =? ConversationSingle) with true in *. simpl in *. bool_prop. done.
Qed.

Lemma validate_session maxc i :
  validate maxc i = None → SI_SessionType i = ConversationSingle ∨ SI_SessionType i = ConversationGroup.
Proof.
  unfold validate. intros H. repeat (case_if_in H; [done|]). bool_prop.
  destruct (Z.eqb_spec (SI_SessionType i) ConversationSingle); [by left|].
  destruct (Z.eqb_spec (SI_SessionType i) ConversationGroup); [by right|]. done.
Qed.

Section MessageInv.
Context `{RL : RateLib} `{EN : Env}.
Variable cfg : Config.
Variable nd : string.

Abbreviation WP := (wp bnd winv wrely).

(** [settle] closes a goal about the world after a step from what the steps established. *)
Ltac settle := eauto 10 using (transitivity (R := wrely)).

Lemma getNowMs_wp (Q : Z → World → Prop) w :
  (∀ t w', wrely w w' → winv w' → ms_exact t → Q t w') → WP getNowMs Q w.
Proof.
  intros H. apply (wp_tick (λ t, NowMs (clock t))). intros w1 t Hr Hi. apply H; try done. apply ms_exact_NowMs.
Qed.

Lemma Publish_wp ev (Q : unit → World → Prop) w :
  winv w → event_of (w_db w) ev → (∀ w', wrely w w' → winv w' → Q tt w') → WP (Publish nd ev) Q w.
Proof.
  intros Hi He HQ. unfold Publish. destruct (pushPayload ev) as [p|] eqn:Ep.
  - apply wp_mbind, wp_bus.
    + intros w1 Hr _. exists ev. split; [|done]. eapply event_of_mono; [apply Hr|done].
    + intros r w' Hr Hi'. apply wp_mret. by apply HQ.
  - apply wp_mret, HQ; [reflexivity|done].
Qed.

Lemma publish_wp m conn (Q : PushEvent → World → Prop) w :
  winv w → m ∈ messages (w_db w) → (∀ w', wrely w w' → winv w' → Q (pushEvent m conn) w') → WP (publish nd m conn) Q w.
Proof.
  intros Hi Hm HQ. apply wp_mbind, Publish_wp; [done|by exists m, conn|]. intros w' Hr Hi'. by apply wp_mret, HQ.
Qed.

Lemma republish_wp m conn (Q : unit → World → Prop) w :
  winv w → m ∈ messages (w_db w) → (∀ w', wrely w w' → winv w' → Q tt w') → WP (republish nd m conn) Q w.
Proof.
  intros Hi Hm HQ. apply wp_mbind, wp_node.
  - intros w1 a n Hr Hi1 [= _ <-]. destruct (wi_nodes _ Hi1 nd). by split.
  - intros w1 w' a n Hr1 Hi1 Hi' Hr' Hdb _. apply wp_mbind, publish_wp; [done| |].
    + destruct (le_msgs _ _ (wr_db _ _ Hr1)) as [l Hl]. rewrite Hdb, Hl. apply elem_of_app. by left.
    + intros w2 Hr2 Hi2. apply wp_mret, HQ; [|done]. transitivity w1; [done|]. by transitivity w'.
Qed.

Lemma sendAllow_wp key now (Q : bool → World → Prop) w :
  (∀ b w', wrely w w' → winv w' → Q b w') → WP (sendAllow nd key now) Q w.
Proof.
  intros HQ. apply wp_mbind, wp_node.
  - intros w1 a n Hr Hi1 E. destruct (Allow_find _ key now) as [a' k] eqn:Ek. injection E as _ <-.
    destruct (wi_nodes _ Hi1 nd) as [H1 H2 H3 H4 H5]. apply Allow_find_ok in Ek as [? ?]; [|done]. split; simpl; try done. congruence.
  - intros w1 w' a n Hr1 Hi1 Hi' Hr' Hdb _. apply wp_node.
    + intros w2 b n' Hr2 Hi2 E. destruct (Allow_take _ a now) as [b' k] eqn:Ek. injection E as _ <-.
      destruct (wi_nodes _ Hi2 nd) as [H1 H2 H3 H4 H5]. apply Allow_take_ok in Ek as (? & ? & _); [|done]. split; simpl; try done. congruence.
    + intros w2 w3 b n' Hr2 Hi2 Hi3 Hr3 _ _. apply HQ; [|done].
      transitivity w1; [done|]. transitivity w'; [done|]. by transitivity w2.
Qed.

Lemma republishAllowed_wp i g (Q : bool → World → Prop) w :
  winv w → (∀ b w', wrely w w' → winv w' → Q b w') → WP (republishAllowed i g) Q w.
Proof.
  intros Hi HQ. unfold republishAllowed. destruct (negb _); [apply wp_mret, HQ; [reflexivity|done]|].
  destruct g as [g|]; [|apply wp_mret, HQ; [reflexivity|done]].
  apply wp_mbind. unfold checkGroupSend. destruct (_ =? _).
  - apply wp_mret, wp_mret, HQ; [reflexivity|done].
  - apply wp_mbind, wp_read. intros w1 r w' Hr1 Hi1 Hi' Hr' _ _. apply wp_mret, wp_mret, HQ; [|done]. by transitivity w1.
Qed.

Lemma elem_of_messages_mono w w' m : wrely w w' → m ∈ messages (w_db w) → m ∈ messages (w_db w').
Proof. intros Hr Hm. destruct (le_msgs _ _ (wr_db _ _ Hr)) as [l ->]. apply elem_of_app. by left. Qed.

Lemma republishRetry_wp i g m (Q : unit → World → Prop) w :
  winv w → m ∈ messages (w_db w) → (∀ w', wrely w w' → winv w' → Q tt w') → WP (republishRetry nd i g m) Q w.
Proof.
  intros Hi Hm HQ. apply wp_mbind, republishAllowed_wp; [done|]. intros b w1 Hr1 Hi1.
  destruct b; [|by apply wp_mret, HQ]. apply wp_mbind.
  assert (∀ (b : bool) w2, wrely w1 w2 → winv w2 → WP (if b then republish nd m (SI_SenderConnId i) else mret tt) Q w2) as Hk.
  { intros b w2 Hr2 Hi2. assert (wrely w w2) as Hr by (by transitivity w1).
    destruct b; [|by apply wp_mret, HQ]. apply republish_wp; [done|by eapply elem_of_messages_mono|].
    intros w3 Hr3 Hi3. apply HQ; [by transitivity w2|done]. }
  destruct (SI_Unlimited i); [apply wp_mret, (Hk true); [reflexivity|done]|].
  apply wp_mbind, getNowMs_wp. intros t w2 Hr2 Hi2 _. apply sendAllow_wp. intros b w3 Hr3 Hi3.
  apply Hk; [by transitivity w2|done].
Qed.

(** ** Send *)

(** The conversation an input names. *)
Definition dest (i : SendInput) : string :=
  if SI_SessionType i =? ConversationSingle then Single (SI_SenderId i) (SI_RecvId i) else GroupConv (SI_GroupId i).

(** An ACK is that of a committed message with the key of the request. *)
Definition acked (d : Db) (i : SendInput) (a : Ack) : Prop :=
  ∃ m, m ∈ messages d ∧ a = ack m ∧ client_key m = (dest i, SI_SenderId i, SI_ClientMsgId i).

Lemma acked_mono d d' i a : DbLe d d' → acked d i a → acked d' i a.
Proof.
  intros Hle (m & Hm & ?). exists m. split; [|done]. destruct (le_msgs _ _ Hle) as [l ->]. apply elem_of_app. by left.
Qed.

(** What normalization leaves of the input. *)
Definition normalized (i i' : SendInput) (cid : string) : Prop :=
  send_dest i' cid ∧ cid = dest i ∧ SI_SenderId i' = SI_SenderId i ∧ SI_ClientMsgId i' = SI_ClientMsgId i.

Lemma normalizeDestination_wp i (Q : result (string * option Group * SendInput) → World → Prop) w :
  validate (MaxContentBytes cfg) i = None → Valid (SI_SenderId i) = true →
  (∀ r w', wrely w w' → winv w' → (∀ cid g i', r = Ok (cid, g, i') → normalized i i' cid) → Q r w') →
  WP (normalizeDestination i) Q w.
Proof.
  intros Hv Hs HQ. unfold normalizeDestination. pose proof (validate_session _ _ Hv) as Hty.
  destruct (Z.eqb_spec (SI_SessionType i) ConversationSingle) as [E|Hne]; apply wp_mbind, wp_read;
    intros w1 r w' Hr1 Hi1 Hi' Hr' _ Hres; apply wp_mret, HQ; try done; try (by transitivity w1); intros cid g i' Hok.
  - destruct Hres as [-> |(m & ->)]; [|done]. unfold Gen.GetUser in Hok.
    destruct (users (w_db w1) !! SI_RecvId i) as [u|] eqn:Eu; [|done]. simpl in Hok. injection Hok as <- <- <-.
    rewrite (ok_users _ (wi_db _ Hi1) _ _ Eu). destruct (validate_single _ _ Hv E) as [Hrv Hneq].
    unfold normalized, dest. rewrite E. simpl. split_and!; try done. left. simpl. split_and!; done.
  - destruct Hres as [-> |(m & ->)]; [|done]. unfold Gen.GetGroup in Hok.
    destruct (groups (w_db w1) !! SI_GroupId i) as [gr|] eqn:Eg; [|done]. simpl in Hok. injection Hok as <- <- <-.
    rewrite (ok_groups _ (wi_db _ Hi1) _ _ Eg). unfold normalized, dest.
    replace (SI_SessionType i =? ConversationSingle) with false by (symmetry; by apply Z.eqb_neq).
    split_and!; try done. right. simpl. split_and!; try done. naive_solver.
Qed.

(** The idempotency lookup finds the message of the key, and no other. *)
Lemma lookup_client cid snd cl d m :
  wrapq (Gen.GetMessageByClientId cid snd cl d) = Ok m → m ∈ messages d ∧ client_key m = (cid, snd, cl).
Proof.
  unfold Gen.GetMessageByClientId, keep. destruct (List.filter _ _) as [|x l] eqn:E; [done|]. simpl. intros [= <-].
  assert (In x (x :: l)) as Hin by (by left). rewrite <- E in Hin. apply filter_In in Hin as [Hin Hk].
  rewrite list_elem_of_In. split; [done|]. unfold client_key. bool_prop. congruence.
Qed.

Lemma spawnOfflinePush_wp ev (Q : unit → World → Prop) w :
  event_of (w_db w) ev → (∀ w', wrely w w' → winv w' → Q tt w') → WP (spawnOfflinePush nd ev) Q w.
Proof.
  intros He HQ. apply wp_node.
  - intros w1 a n Hr Hi1 [= _ <-]. destruct (wi_nodes _ Hi1 nd) as [H1 H2 H3 H4 H5].
    destruct (Nat.ltb_spec (n_pushSem (w_nodes w1 nd)) offlinePushWorkers); [|by split].
    split; simpl; try done. apply Forall_app. split; [done|]. constructor; [|constructor].
    eapply event_of_mono; [apply Hr|done].
  - intros w1 w' [] n Hr1 Hi1 Hi' Hr' _ _. apply HQ; [by transitivity w1|done].
Qed.

Lemma sendCommit_wp i cid now (Q : result Ack → World → Prop) w :
  winv w → send_dest i cid → ms_exact now →
  (∀ r w', wrely w w' → winv w' →
     (∀ a, r = Ok a → ∃ m, m ∈ messages (w_db w') ∧ a = ack m ∧ client_key m = (cid, SI_SenderId i, SI_ClientMsgId i)) → Q r w') →
  WP (sendCommit cfg nd i cid now) Q w.
Proof.
  intros Hi Hdest Hnow HQ. apply wp_mbind, wp_tick. intros w0 t Hr0 Hi0. set (w1 := w_set_tick w0 t) in *.
  set (id := newV7 (w_tick w0)). apply wp_mbind.
  assert (∀ m w2 (e : err) (dup : bool), wrely w w2 → winv w2 →
    (dup = false → e = None → m ∈ messages (w_db w2) ∧ client_key m = (cid, SI_SenderId i, SI_ClientMsgId i)) →
    WP (let '((duplicate, msg), e) := ((dup, m), e) in sendFinish cfg nd i cid duplicate msg e) Q w2) as Hk.
  { intros m w2 e dup Hr2 Hi2 Hm. unfold sendFinish. destruct dup.
    - apply wp_mbind, wp_read. intros w3 r w' Hr3 Hi3 Hi' Hr' _ Hres.
      assert (wrely w w') as Hrw by (transitivity w2; [done|]; by transitivity w3).
      destruct r as [m'|e']; [|apply wp_mret, HQ; try done; intros a Ha; by destruct (Is e' _)].
      destruct Hres as [Hres|[? [=]]]. symmetry in Hres. apply lookup_client in Hres as [Hin Hkey].
      apply (elem_of_messages_mono w3 w') in Hin; [|done].
      apply wp_mbind, republish_wp; [done|done|]. intros w4 Hr4 Hi4. apply wp_mret, HQ; [by transitivity w'|done|].
      intros a [= <-]. exists m'. split; [by eapply elem_of_messages_mono|done].
    - destruct e as [e|]; [by apply wp_mret, HQ|]. destruct (Hm eq_refl eq_refl) as [Hin Hkey].
      apply wp_mbind, publish_wp; [done|done|]. intros w3 Hr3 Hi3. apply wp_mbind.
      assert (∀ w4, wrely w3 w4 → winv w4 → WP (mret (Ok (ack m))) Q w4) as Hend.
      { intros w4 Hr4 Hi4. apply wp_mret, HQ; [transitivity w2; [done|]; by transitivity w3|done|].
        intros a [= <-]. exists m. split; [|done]. do 2 (eapply elem_of_messages_mono; [done|]). done. }
      destruct (hasPusher cfg); [|apply wp_mret, Hend; [reflexivity|done]].
      apply spawnOfflinePush_wp; [|done]. exists m, (SI_SenderConnId i). split; [by eapply elem_of_messages_mono|done]. }
  apply wp_tx.
  - intros w2 s Hr2 Hi2 Hb Hbnd. apply sendTx_Ok in Hb as [? (m & _ & Hs)]; try done; [|apply Hi2]. split; [done|by eapply sent_posts].
  - intros w2 [dup m] x w' Hr2 Hi' Hr'. apply Hk; [transitivity w1; [done|]; by transitivity w2|done|done].
  - intros w2 s w' e Hr2 Hi2 Hi' Hr' Hb Hbnd Hdb. apply sendTx_Ok in Hb as [_ (m & -> & Hsent)]; try done; [|apply Hi2].
    apply Hk; [transitivity w1; [done|]; by transitivity w2|done|]. intros _ _. destruct Hsent as [(t' & _ & ->) Hms _ _].
    rewrite Hdb, Hms. split; [|done]. apply elem_of_app. right. by apply list_elem_of_singleton.
Qed.

Lemma sendNew_wp i cid (Q : result Ack → World → Prop) w :
  winv w → send_dest i cid →
  (∀ r w', wrely w w' → winv w' →
     (∀ a, r = Ok a → ∃ m, m ∈ messages (w_db w') ∧ a = ack m ∧ client_key m = (cid, SI_SenderId i, SI_ClientMsgId i)) → Q r w') →
  WP (sendNew cfg nd i cid) Q w.
Proof.
  intros Hi Hdest HQ. apply wp_mbind, getNowMs_wp. intros now w1 Hr1 Hi1 Hnow. apply wp_mbind.
  assert (∀ (b : bool) w2, wrely w w2 → winv w2 → WP (if negb b then mret (Err (WithMessage ErrTooManyRequests "message send rate limit"))
    else sendCommit cfg nd i cid now) Q w2) as Hk.
  { intros b w2 Hr2 Hi2. destruct b; simpl; [|by apply wp_mret, HQ]. apply sendCommit_wp; try done.
    intros r w' Hr' Hi' Ha. apply HQ; [by transitivity w2|done|done]. }
  destruct (SI_Unlimited i); [by apply wp_mret, (Hk true)|]. apply sendAllow_wp. intros b w2 Hr2 Hi2.
  apply Hk; [by transitivity w1|done].
Qed.

(** [Send] answers with the ACK of a committed message of the request, or an error. *)
Lemma Send_wp i w :
  winv w → Valid (SI_SenderId i) = true →
  WP (Send cfg nd i) (λ r w', winv w' ∧ ∀ a, r = Ok a → acked (w_db w') i a) w.
Proof.
  intros Hi Hs. unfold Send. destruct (validate (MaxContentBytes cfg) i) eqn:Hv; [by apply wp_mret|].
  apply wp_mbind, normalizeDestination_wp; [done|done|]. intros [[[cid g] i']|e] w1 Hr1 Hi1 Hn; [|by apply wp_mret].
  destruct (Hn _ _ _ eq_refl) as (Hd & -> & Es & Ec).
  apply wp_mbind, wp_read. intros w2 r w' Hr2 Hi2 Hi' Hr' _ Hres.
  destruct r as [m|e].
  - destruct Hres as [Hres|[? [=]]]. symmetry in Hres. apply lookup_client in Hres as [Hin Hkey].
    apply wp_mbind, republishRetry_wp; [done|by eapply elem_of_messages_mono|]. intros w3 Hr3 Hi3. apply wp_mret.
    split; [done|]. intros a [= <-]. exists m. split_and!; [|done|congruence]. do 2 (eapply elem_of_messages_mono; [done|]). done.
  - destruct (Is e store_ErrNotFound); [|by apply wp_mret]. apply sendNew_wp; [done|done|].
    intros r w3 Hr3 Hi3 Ha. split; [done|]. intros a Ea. destruct (Ha a Ea) as (m & ? & ? & ?). exists m. split_and!; try done. congruence.
Qed.

(** ** Pull *)

(** The row limit of a query fits [int32] when the page limit does. *)
Lemma row_limit limit pageMax :
  pageMax < 2 ^ 31 - 1 → i32 (i64 (clampLimit limit pageMax + 1)) = clampLimit limit pageMax + 1.
Proof.
  intros H. pose proof (clampLimit_range limit pageMax). rewrite i64_id by (unfold minInt64, maxInt64; lia).
  apply i32_id. lia.
Qed.

(** A page of the part of the history the row gives access to. *)
Definition pull_answer (d : Db) (uc : UserConversation) (i : PullInput) (limit : Z) (pr : PullResult) : Prop :=
  let be := VisibleRange uc (conv_max d (PI_ConversationId i)) (PI_BeginSeq i) (PI_EndSeq i) in
  let ms := range_msgs d (PI_ConversationId i) be.1 be.2 in
  PR_Messages pr = map MessageFromStore (take (Z.to_nat limit) ms) ∧ PR_HasMore pr = (limit <? Z.of_nat (length ms)).

Definition pulled (w0 w : World) (i : PullInput) (pageMax : Z) (pr : PullResult) : Prop :=
  ∃ d uc, during w0 w d ∧ DbOk d ∧ DbLe d (w_db w) ∧
    userConvs d !! (PI_UserId i, PI_ConversationId i) = Some uc ∧ pull_answer d uc i (clampLimit (PI_Limit i) pageMax) pr.

Lemma GetRow_Ok o c d row :
  wrapq (Gen.GetUserConversationRow o c d) = Ok row →
  userConvs d !! (o, c) = Some (Row_UC row) ∧ Row_ConvMaxSeq row = conv_max d c ∧ is_Some (convs d !! c).
Proof.
  unfold Gen.GetUserConversationRow, conv_max.
  destruct (userConvs d !! (o, c)) as [uc|]; [|done]. destruct (convs d !! c) as [cv|]; [|done].
  intros [= <-]. simpl. eauto.
Qed.

Lemma page_take {A} (limit : Z) (l : list A) :
  1 ≤ limit → let rows := take (Z.to_nat (limit + 1)) l in
  take (Z.to_nat (Z.min (Z.of_nat (length rows)) limit)) rows = take (Z.to_nat limit) l ∧
  (limit <? Z.of_nat (length rows)) = (limit <? Z.of_nat (length l)).
Proof.
  intros Hl rows. unfold rows. rewrite length_take. split.
  - rewrite take_take. destruct (decide (Z.of_nat (length l) ≤ limit)).
    + rewrite !take_ge by lia. done.
    + f_equal. lia.
  - destruct (Z.ltb_spec limit (Z.of_nat (length l))); [apply Z.ltb_lt|apply Z.ltb_ge]; lia.
Qed.

Lemma Pull_wp i pageMax w :
  winv w →
  WP (Pull i pageMax) (λ r w', winv w' ∧ ∀ pr, r = Ok pr → pageMax < 2 ^ 31 - 1 → pulled w w' i pageMax pr) w.
Proof.
  intros Hi. unfold Pull. destruct (_ || _); [by apply wp_mret|].
  apply wp_mbind, wp_read. intros w1 r w' Hr1 Hi1 Hi' Hr' _ Hres.
  destruct r as [row|e]; [|apply wp_mret; split; [done|]; intros pr; by destruct (Is e _)].
  destruct Hres as [Hres|[? [=]]]. symmetry in Hres. apply GetRow_Ok in Hres as (Huc & Hcm & _).
  pose proof (clampLimit_range (PI_Limit i) pageMax) as Hlim. set (limit := clampLimit (PI_Limit i) pageMax) in *.
  destruct (VisibleRange (Row_UC row) (Row_ConvMaxSeq row) (PI_BeginSeq i) (PI_EndSeq i)) as [b e] eqn:Ebe.
  rewrite Hcm in Ebe. set (d := w_db w1) in *.
  assert (∀ w2 pr, wrely w' w2 → winv w2 →
    (PR_Messages pr = map MessageFromStore (take (Z.to_nat limit) (range_msgs d (PI_ConversationId i) b e)) ∧
     PR_HasMore pr = (limit <? Z.of_nat (length (range_msgs d (PI_ConversationId i) b e)))) → pulled w w2 i pageMax pr) as Hfin.
  { intros w2 pr Hr2 Hi2 Hans. assert (wrely w1 w2) as Hr12 by (by transitivity w'). exists d, (Row_UC row). split_and!; try done.
    - eapply during_mono; [exact Hr12|]. by apply during_now.
    - apply Hi1.
    - apply Hr12.
    - unfold pull_answer. rewrite Ebe. done. }
  destruct (Z.ltb_spec e b) as [Hlt|Hge].
  - apply wp_mret. split; [done|]. intros pr [= <-] _. apply Hfin; [reflexivity|done|]. simpl.
    unfold range_msgs. rewrite keep_none; [rewrite take_nil; split; [done|]; symmetry; apply Z.ltb_ge; simpl; lia|].
    intros m _. unfold in_range. destruct (Z.leb_spec b (Msg_Seq m)), (Z.leb_spec (Msg_Seq m) e); try done. lia.
  - apply wp_mbind, wp_read. intros w2 r w3 Hr2 Hi2 Hi3 Hr3 _ Hres. apply wp_mret. split; [done|]. intros pr Hpr Hpm.
    destruct r as [ms|]; [|done]. destruct Hres as [Hres|[? [=]]]. injection Hpr as <-.
    rewrite (ListMessages_range (w_db w2)) in Hres by apply Hi2. unfold limit in Hres. rewrite row_limit in Hres by done. fold limit in Hres.
    assert (DbLe d (w_db w2)) as Hle by (assert (wrely w1 w2) as Hx by (by transitivity w'); apply Hx).
    assert (e ≤ conv_max d (PI_ConversationId i)) as He.
    { unfold VisibleRange in Ebe. injection Ebe as _ <-. pose proof (VisibleMax_le (Row_UC row) (conv_max d (PI_ConversationId i))). lia. }
    rewrite (range_msgs_stable d) in Hres by (done || apply Hi1 || apply Hi2).
    unfold LIMIT in Hres. replace (limit + 1 <? 0) with false in Hres by (symmetry; lia). injection Hres as ->.
    apply Hfin; [by transitivity w2|done|]. simpl.
    destruct (page_take limit (range_msgs d (PI_ConversationId i) b e)) as [-> ->]; [lia|]. done.
Qed.

(** ** Recipients and offline pushes *)

Lemma getNow_wp (Q : Z → World → Prop) w : (∀ t w', wrely w w' → winv w' → Q t w') → WP getNow Q w.
Proof. intros H. apply (wp_tick clock). intros w1 t Hr Hi. by apply H. Qed.

(** A step on the roster cache. *)
Lemma cache_wp {A} (f : memberCache → A * memberCache) (Q : A → World → Prop) w :
  (∀ c, mc_ok c → mc_ok (f c).2) →
  (∀ a w', wrely w w' → winv w' → Q a w') →
  WP (node_step nd (λ n, let '(a, c) := f (n_members n) in (a, n_set_members n c))) Q w.
Proof.
  intros Hf HQ. apply wp_node.
  - intros w1 a n Hr Hi1 E. destruct (wi_nodes _ Hi1 nd) as [H1 H2 H3 H4 H5]. specialize (Hf _ H3).
    destruct (f (n_members (w_nodes w1 nd))) as [a' c]. injection E as _ <-. by split.
  - intros w1 w' a n Hr1 Hi1 Hi' Hr' _ _. apply HQ; [by transitivity w1|done].
Qed.

Lemma Recipients_wp ev (Q : result (list string) → World → Prop) w :
  winv w → (∀ r w', wrely w w' → winv w' → Q r w') → WP (Recipients nd ev) Q w.
Proof.
  intros Hi HQ. unfold Recipients. destruct (_ =? _); [apply wp_mret, HQ; [reflexivity|done]|].
  apply wp_mbind, getNow_wp. intros t w1 Hr1 Hi1. apply wp_mbind.
  apply (cache_wp (λ c, mc_get c (PE_GroupId ev) t)); [intros c Hc; by apply (mc_step_ok c (McGet (PE_GroupId ev) t))|].
  intros hit w2 Hr2 Hi2. assert (wrely w w2) as Hr02 by (by transitivity w1).
  destruct hit as [ids|]; [by apply wp_mret, HQ|].
  apply wp_mbind, wp_read. intros w3 r w' Hr3 Hi3 Hi' Hr' _ _.
  assert (wrely w w') as Hr0 by (transitivity w2; [done|]; by transitivity w3).
  destruct r as [ms|]; [|by apply wp_mret, HQ].
  apply wp_mbind, getNow_wp. intros n1 w4 Hr4 Hi4. apply wp_mbind, getNow_wp. intros n2 w5 Hr5 Hi5.
  apply wp_mbind. apply (cache_wp (λ c, (tt, mc_set c (PE_GroupId ev) (map GM_UserId ms) n1 n2))).
  { intros c Hc. by apply (mc_step_ok c (McSet (PE_GroupId ev) (map GM_UserId ms) n1 n2)). }
  intros [] w6 Hr6 Hi6. apply wp_mret, HQ; [|done]. transitivity w'; [done|]. transitivity w4; [done|]. by transitivity w5.
Qed.

Lemma VisibleTo_wp c ids s (Q : result (list string) → World → Prop) w :
  (∀ r w', wrely w w' → winv w' →
     (∀ out, r = Ok out → ∃ d, d ∈ w_past w' ∧ ∀ x, x ∈ out ↔ x ∈ ids ∧ covers d x c s) → Q r w') →
  WP (VisibleTo c ids s) Q w.
Proof.
  intros HQ. apply wp_mbind, wp_query; [apply VisibleOwners_reads|]. intros w1 r w' Hr1 Hi1 Hi' Hr' Hpast Hres.
  apply wp_mret, HQ; [by transitivity w1|done|]. intros out Hout. destruct r as [o|]; [|done]. injection Hout as ->.
  destruct Hres as [Hres|[? [=]]]. exists (w_db w1). split; [done|].
  destruct (VisibleOwners c ids s (w_db w1)) as [r' d'] eqn:E. simpl in Hres. subst r'.
  by apply VisibleOwners_spec in E as [_ ?]; [|apply Hi1].
Qed.

Lemma past_mono w w' d : wrely w w' → d ∈ w_past w → d ∈ w_past w'.
Proof. intros [_ _ _ [l ->]] H. apply elem_of_app. by left. Qed.

Lemma elem_of_DeleteFunc f l x : x ∈ DeleteFunc f l ↔ x ∈ l ∧ f x = false.
Proof. unfold DeleteFunc. rewrite !list_elem_of_In, filter_In, negb_true_iff. done. Qed.

(** Users of an offline push: not the sender, with a row that covered the message, not muted. *)
Definition pushable (w : World) (ev : PushEvent) (ids : list string) : Prop :=
  ∀ id, id ∈ ids → id ≠ PE_SenderId ev ∧
    (∃ d, d ∈ w_past w ∧ covers d id (PE_ConversationId ev) (D_Seq (PE_Message ev))) ∧
    (∃ d, d ∈ w_past w ∧ ¬ muted d id (PE_ConversationId ev)).

Lemma pushable_mono w w' ev ids ids' : wrely w w' → (∀ x, x ∈ ids' → x ∈ ids) → pushable w ev ids → pushable w' ev ids'.
Proof.
  intros Hr Hsub Hp id Hid. destruct (Hp id (Hsub id Hid)) as (Hne & (d & Hd & Hc) & (d2 & Hd2 & Hm)).
  split; [done|]. split; [exists d|exists d2]; eauto using past_mono.
Qed.

Lemma pushOffline_wp ev ids (Q : unit → World → Prop) w :
  winv w → event_of (w_db w) ev → pushable w ev ids → (∀ w', wrely w w' → winv w' → Q tt w') → WP (pushOffline ev ids) Q w.
Proof.
  intros Hi He Hp HQ. unfold pushOffline. destruct (_ =? 0)%nat; [apply wp_mret, HQ; [reflexivity|done]|].
  apply wp_mbind, wp_push.
  - intros w1 Hr1 Hi1. split.
    + exists ev. split; [|done]. eapply event_of_mono; [apply Hr1|done].
    + simpl. by apply (pushable_mono w w1 ev ids ids).
  - intros r w' Hr Hi'. by apply wp_mret, HQ.
Qed.

Lemma offlinePush_wp ev (Q : unit → World → Prop) w :
  winv w → event_of (w_db w) ev → (∀ w', wrely w w' → winv w' → Q tt w') → WP (offlinePush cfg nd ev) Q w.
Proof.
  intros Hi He HQ. unfold offlinePush. destruct (negb _); [apply wp_mret, HQ; [reflexivity|done]|].
  apply wp_mbind, Recipients_wp; [done|]. intros [targets|] w1 Hr1 Hi1; [|by apply wp_mret, HQ].
  set (t1 := DeleteFunc _ targets). destruct (length t1 =? 0)%nat; [by apply wp_mret, HQ|].
  apply wp_mbind, wp_query; [apply MutedOwners_reads|]. intros w2 r w3 Hr2 Hi2 Hi3 Hr3 Hpast Hres.
  assert (wrely w w3) as Hr03 by (transitivity w1; [done|]; by transitivity w2).
  destruct r as [mu|]; [|by apply wp_mret, HQ]. destruct Hres as [Hres|[? [=]]].
  destruct (MutedOwners (PE_ConversationId ev) t1 (w_db w2)) as [r' d'] eqn:Emu. simpl in Hres. subst r'.
  apply MutedOwners_spec in Emu as [_ Hmu]; [|apply Hi2].
  set (t2 := DeleteFunc _ t1). destruct (length t2 =? 0)%nat; [by apply wp_mret, HQ|].
  apply wp_mbind, VisibleTo_wp. intros [t3|] w4 Hr4 Hi4 Hvis; [|apply wp_mret, HQ; [by transitivity w3|done]].
  destruct (Hvis t3 eq_refl) as (d & Hd & Ht3). assert (wrely w w4) as Hr04 by (by transitivity w3).
  assert (pushable w4 ev t3) as Hpush.
  { intros id Hid. apply Ht3 in Hid as [Hid Hc]. unfold t2 in Hid. apply elem_of_DeleteFunc in Hid as [Hid Hnm].
    pose proof Hid as Hid1. unfold t1 in Hid1. apply elem_of_DeleteFunc in Hid1 as [_ Hns]. unfold in_list in Hnm. bool_prop.
    split_and!; [done|eauto|]. exists (w_db w2). split; [by apply (past_mono w3 w4)|]. intros Hm. apply Hnm, Hmu. done. }
  assert (event_of (w_db w4) ev) as He4 by (eapply event_of_mono; [apply Hr04|done]).
  destruct (length t3 =? 0)%nat; [by apply wp_mret, HQ|]. destruct (negb (hasOnline cfg)).
  - apply pushOffline_wp; try done. intros w5 Hr5 Hi5. apply HQ; [by transitivity w4|done].
  - apply wp_mbind. unfold Online. apply wp_mbind, getNowMs_wp. intros now w5 Hr5 Hi5 _.
    apply wp_mbind, wp_query; [intros d0; unfold ListOnlineConns; by destruct (_ =? 0)%nat|].
    intros w6 r w7 Hr6 Hi6 Hi7 Hr7 _ _. apply wp_mret.
    assert (wrely w4 w7) as Hr47 by (transitivity w5; [done|]; by transitivity w6).
    assert (wrely w w7) as Hr07 by (by transitivity w4).
    destruct r as [cs|]; [|by apply wp_mret, HQ]. apply pushOffline_wp; [done|eapply event_of_mono; [apply Hr47|done]| |].
    + eapply pushable_mono; [exact Hr47| |exact Hpush]. intros x Hx. by apply elem_of_DeleteFunc in Hx as [? _].
    + intros w8 Hr8 Hi8. apply HQ; [by transitivity w7|done].
Qed.

Lemma pushWorker_wp w : winv w → WP (pushWorker cfg nd) (λ _ w', winv w') w.
Proof.
  intros Hi. apply wp_mbind.
  apply (wp_mono _ _ _ _ (λ job w', winv w' ∧ match job with Some ev => event_of (w_db w') ev | None => True end)).
  - intros [ev|] w1 [Hi1 He]; [|by apply wp_mret]. apply wp_mbind, offlinePush_wp; [done|done|]. intros w2 Hr2 Hi2.
    apply wp_node; [|done]. intros w3 a n Hr3 Hi3 [= _ <-]. destruct (wi_nodes _ Hi3 nd) as [H1 H2 H3 H4 H5]. split; simpl; try done. lia.
  - apply wp_node.
    + intros w1 a n Hr Hi1 E. destruct (wi_nodes _ Hi1 nd) as [H1 H2 H3 H4 H5].
      destruct (n_pushJobs (w_nodes w1 nd)) as [|ev js] eqn:Ej; injection E as _ <-; [by split; rewrite ?Ej|].
      split; simpl; try done. by apply Forall_cons in H5 as [_ ?].
    + intros w1 w' a n Hr1 Hi1 Hi' Hr' Hdb E. split; [done|]. pose proof (no_jobs _ _ (wi_nodes _ Hi1 nd)) as Hj.
      destruct (n_pushJobs (w_nodes w1 nd)) as [|ev js] eqn:Ej; injection E as <- _; [done|].
      apply Forall_cons in Hj as [? _]. by rewrite Hdb.
Qed.

Lemma InvalidateGroup_wp g w : winv w → WP (InvalidateGroup nd g) (λ _ w', winv w') w.
Proof.
  intros Hi. apply (cache_wp (λ c, (tt, mc_invalidate c g))); [|done]. intros c Hc. by apply (mc_step_ok c (McInvalidate g)).
Qed.

(** ** Resolving a push *)

Lemma marshal_inline ev p :
  pushPayload ev = Some p →
  PP_ConversationId p = PE_ConversationId ev ∧ PP_Seq p = D_Seq (PE_Message ev) ∧ PP_SessionType p = PE_SessionType ev ∧
  PP_SenderId p = PE_SenderId ev ∧ PP_SenderConnId p = PE_SenderConnId ev ∧ PP_RecvId p = PE_RecvId ev ∧
  PP_GroupId p = PE_GroupId ev ∧ (PP_Msg p = Some (PE_Message ev) ∨ PP_Msg p = None).
Proof.
  unfold pushPayload. destruct (marshal_push _) as [raw|]; [|done]. destruct (_ <? _).
  - destruct (marshal_push _); [|done]. intros [= <-]. simpl. eauto 10.
  - intros [= <-]. simpl. eauto 10.
Qed.

(** Rebuilding an event from its payload gives the event that was published, whether the
    payload carried the message or a reference to it. *)
Lemma ResolvePush_wp ev p w :
  winv w → event_of (w_db w) ev → pushPayload ev = Some p →
  WP (ResolvePush p) (λ r w', winv w' ∧ ∀ ev', r = Ok ev' → ev' = ev) w.
Proof.
  intros Hi (m & conn & Hm & ->) Hp. apply marshal_inline in Hp as (E1 & E2 & E3 & E4 & E5 & E6 & E7 & E8). simpl in *.
  unfold ResolvePush. rewrite E1, E2, E3, E4, E5, E6, E7. destruct E8 as [-> | ->].
  - apply wp_mret. split; [done|]. by intros ev' [= <-].
  - apply wp_mbind, wp_query; [done|]. intros w1 r w' Hr1 Hi1 Hi' Hr' _ Hres. apply wp_mret. split; [done|]. intros ev' Hev.
    destruct r as [ms|]; [|done]. destruct Hres as [Hres|[? [=]]].
    change (GetMessages [mkMessageKey (Msg_ConversationId m) (Msg_Seq m)] (w_db w1)).1
      with (wrapq (Gen.GetMessages [(Msg_ConversationId m, Msg_Seq m)] (w_db w1))) in Hres.
    rewrite GetMessages_one in Hres by apply Hi1. simpl in Hres. injection Hres as ->.
    assert (∀ x, x ∈ range_msgs (w_db w1) (Msg_ConversationId m) (Msg_Seq m) (Msg_Seq m) → x = m) as Hx.
    { intros x Hx. apply elem_of_keep in Hx as [Hx Hrange]. unfold in_range in Hrange.
      apply (sorted_unique_seq (conv_msgs (Msg_ConversationId m) (messages (w_db w1)))); [by apply conv_msgs_sorted; apply Hi1|done| |lia].
      apply elem_of_conv_msgs. split; [by eapply elem_of_messages_mono|done]. }
    destruct (range_msgs _ _ _ _) as [|x l]; [done|]. injection Hev as <-.
    rewrite (Hx x) by (by left). done.
Qed.
End MessageInv.
