(* ===== verification/Deliver.v ===== *)
(** * Live delivery of pushes ([internal/gateway/push.go])

    A node that receives a push resolves it, finds the recipients that have connections on this node, asks the database which of
    them may see the message, and pushes to their connections. The registry is read twice, once to find local users and once per
    target; [users] and [later] are those readings, taken while other connections come and go. The answer lists the calls
    of [Push]. *)

From S2P Require Import Prelude Errcode Strconv Identity Json Store PgStore Conv DbInv Conc RateLimit MemberCache World OnlineStore ConvPage MessageSvc GroupSvc History WorldInv TxInv MessageInv UserMap.

Local Open Scope Z_scope.

Section Deliver.
Context `{RL : RateLib} `{EN : Env}.
Variable nd : string.

(** The connections [fanout] pushes to. *)
Definition fanout (users : UserMap) (userId exceptConnId : string) : list Client :=
  List.filter (λ c, negb (Cl_Id c =? exceptConnId)%string) (Get users userId).

Definition Deliver (users : UserMap) (later : string → UserMap) (ev : PushEvent) : prog World (result (list (Client * DtoMessage))) :=
  r ← Recipients nd ev;
  match r with
  | Err e => mret (Err e)
  | Ok candidates =>
      let local := OnlineExcept users candidates (PE_SenderConnId ev) in
      if (length local =? 0)%nat then mret (Ok [])
      else
        v ← VisibleTo (PE_ConversationId ev) local (D_Seq (PE_Message ev));
        mret (match v with
        | Err e => Err e
        | Ok targets => Ok (flat_map (λ u, map (λ c, (c, PE_Message ev)) (fanout (later u) u (PE_SenderConnId ev))) targets)
        end)
  end.

Definition deliverOne (users : UserMap) (later : string → UserMap) (p : PushPayload) : prog World (result (list (Client * DtoMessage))) :=
  r ← ResolvePush p;
  match r with
  | Err e => mret (Err e)
  | Ok ev => Deliver users later ev
  end.

(** [ConversationRead]: the reader's other connections on this node. *)
Definition ConversationRead (users : UserMap) (userId readerConnId : string) : list Client := fanout users userId readerConnId.

(** ** Who gets a push *)

(** A user with a connection on the node other than the sending one. *)
Definition reachable_here (users : UserMap) (conn : string) (u : string) : Prop := u ∈ OnlineExcept users [u] conn.

Lemma OnlineExcept_elem users ids conn u : u ∈ OnlineExcept users ids conn ↔ u ∈ ids ∧ reachable_here users conn u.
Proof.
  unfold reachable_here, OnlineExcept. rewrite !list_elem_of_In, !filter_In. simpl. naive_solver.
Qed.

(** The calls of [Push] for an event: the candidates of a direct message are its two users; a candidate reachable on the node
    whose range covered the message in a state of the database during the call gets it on every connection it has, the sending
    one excepted, and nobody else does. *)
Definition delivered (w0 w : World) (users : UserMap) (later : string → UserMap) (ev : PushEvent) (l : list (Client * DtoMessage)) : Prop :=
  ∃ candidates d, during w0 w d ∧
    (PE_SessionType ev = ConversationSingle → candidates = [PE_SenderId ev; PE_RecvId ev]) ∧
    ∀ c m, (c, m) ∈ l ↔ m = PE_Message ev ∧ ∃ u, u ∈ candidates ∧ reachable_here users (PE_SenderConnId ev) u ∧
      covers d u (PE_ConversationId ev) (D_Seq (PE_Message ev)) ∧ c ∈ Get (later u) u ∧ Cl_Id c ≠ PE_SenderConnId ev.

Lemma delivered_mono w0 w w' users later ev l : wrely w w' → delivered w0 w users later ev l → delivered w0 w' users later ev l.
Proof. intros Hr (cs & d & Hd & H). exists cs, d. split; [by eapply during_mono|done]. Qed.

Lemma fanout_elem users u conn c : c ∈ fanout users u conn ↔ c ∈ Get users u ∧ Cl_Id c ≠ conn.
Proof. unfold fanout. rewrite !list_elem_of_In, filter_In, negb_true_iff, String.eqb_neq. done. Qed.

Lemma pushes_elem later ev targets c m :
  (c, m) ∈ flat_map (λ u, map (λ c, (c, PE_Message ev)) (fanout (later u) u (PE_SenderConnId ev))) targets ↔
  m = PE_Message ev ∧ ∃ u, u ∈ targets ∧ c ∈ Get (later u) u ∧ Cl_Id c ≠ PE_SenderConnId ev.
Proof.
  rewrite list_elem_of_In, in_flat_map. setoid_rewrite in_map_iff. split.
  - intros (u & Hu & c' & [= -> <-] & Hc). split; [done|]. exists u. rewrite <- !list_elem_of_In in *. by rewrite <- fanout_elem.
  - intros (-> & u & Hu & Hc). exists u. rewrite <- list_elem_of_In. split; [done|]. exists c. rewrite <- list_elem_of_In. by rewrite fanout_elem.
Qed.

Abbreviation WP := (wp bnd winv wrely).

Lemma Recipients_single_wp ev (Q : result (list string) → World → Prop) w :
  winv w → (∀ r w', wrely w w' → winv w' → (PE_SessionType ev = ConversationSingle → r = Ok [PE_SenderId ev; PE_RecvId ev]) → Q r w') →
  WP (Recipients nd ev) Q w.
Proof.
  intros Hi HQ. destruct (Z.eqb_spec (PE_SessionType ev) ConversationSingle) as [E|Hne].
  - unfold Recipients. rewrite E, Z.eqb_refl. by apply wp_mret, HQ.
  - apply Recipients_wp; [done|]. intros r w' Hr Hi'. apply HQ; [done|done|]. intros E. by destruct (Hne E).
Qed.

Lemma VisibleTo_during_wp c ids s (Q : result (list string) → World → Prop) w0 w :
  winv w0 → wrely w0 w →
  (∀ r w', wrely w w' → winv w' →
     (∀ out, r = Ok out → ∃ d, during w0 w' d ∧ ∀ x, x ∈ out ↔ x ∈ ids ∧ covers d x c s) → Q r w') →
  WP (VisibleTo c ids s) Q w.
Proof.
  intros Hi0 Hr0 HQ. apply wp_mbind, wp_query; [apply VisibleOwners_reads|]. intros w1 r w' Hr1 Hi1 Hi' Hr' _ Hres.
  apply wp_mret, HQ; [by transitivity w1|done|]. intros out Hout. destruct r as [o|]; [|done]. injection Hout as ->.
  destruct Hres as [Hres|[? [=]]]. exists (w_db w1). split; [apply (during_mono _ w1); [done|]; apply during_now; [done|done|by transitivity w]|].
  destruct (VisibleOwners c ids s (w_db w1)) as [r' d'] eqn:E. simpl in Hres. subst r'.
  by apply VisibleOwners_spec in E as [_ ?]; [|apply Hi1].
Qed.

Lemma Deliver_wp users later ev w0 w :
  winv w0 → winv w → wrely w0 w →
  WP (Deliver users later ev) (λ r w', winv w' ∧ ∀ l, r = Ok l → delivered w0 w' users later ev l) w.
Proof.
  intros Hi0 Hi Hr0. apply wp_mbind, Recipients_single_wp; [done|]. intros [cs|e] w1 Hr1 Hi1 Hs; [|by apply wp_mret].
  cbv zeta. set (local := OnlineExcept users cs (PE_SenderConnId ev)). destruct (Nat.eqb_spec (length local) 0) as [E|_].
  - apply wp_mret. split; [done|]. intros l [= <-]. exists cs, (w_db w1). split_and!; [apply during_now; [done|done|by transitivity w]|intros H; specialize (Hs H); congruence|].
    intros c m. split; [by intros ?%not_elem_of_nil|]. intros (_ & u & Hu & Hre & _). exfalso.
    assert (u ∈ local) as Hl by (by apply OnlineExcept_elem). apply length_zero_iff_nil in E. rewrite E in Hl. by apply not_elem_of_nil in Hl.
  - apply wp_mbind, (VisibleTo_during_wp _ _ _ _ w0); [done|by transitivity w|]. intros r w2 Hr2 Hi2 Hv. apply wp_mret. split; [done|]. intros l. destruct r as [ts|]; [|done]. intros [= <-].
    destruct (Hv ts eq_refl) as (d & Hd & Hts). exists cs, d. split_and!; [done|intros H; specialize (Hs H); congruence|].
    intros c m. rewrite pushes_elem. split; [intros (-> & u & [Hu Hc]%Hts & Hg)|intros (-> & u & Hu & Hre & Hc & Hg)]; (split; [done|]); exists u.
    + apply OnlineExcept_elem in Hu as [? ?]. destruct Hg as [? ?]. by split_and!.
    + split; [|done]. apply Hts. split; [|done]. by apply OnlineExcept_elem.
Qed.

Lemma deliverOne_wp users later ev p w :
  winv w → event_of (w_db w) ev → pushPayload ev = Some p →
  WP (deliverOne users later p) (λ r w', winv w' ∧ ∀ l, r = Ok l → delivered w w' users later ev l) w.
Proof.
  intros Hi Hev Hp. apply wp_mbind. eapply wp_mono; [|apply wp_from; [apply _|by apply (ResolvePush_wp ev)]].
  intros [ev'|e] w' (Hr & Hi' & E); [|by apply wp_mret]. rewrite (E ev' eq_refl). by apply Deliver_wp.
Qed.
End Deliver.
