(* ===== verification/GroupInv.v ===== *)
(** * The group service under interleaving *)

From S2P Require Import Prelude Errcode Strconv Identity Json Store PgStore Conv DbInv Conc RateLimit MemberCache World ConvPage MessageSvc GroupSvc History WorldInv TxInv MessageInv.

Local Open Scope Z_scope.

Section GroupInv.
Context `{RL : RateLib} `{EN : Env}.
Variable cfg : Config.
Variable nd : string.

Abbreviation WP := (wp bnd winv wrely).

(** [d'] is a state the database reached during the request, by a change of [d]. *)
Definition committed (w0 w : World) (P : Db → Db → Prop) : Prop :=
  ∃ d d', DbOk d ∧ DbOk d' ∧ DbLe (w_db w0) d ∧ DbLe d d' ∧ DbLe d' (w_db w) ∧ during w0 w d' ∧ P d d'.

Lemma committed_mono w0 w w' P : wrely w w' → committed w0 w P → committed w0 w' P.
Proof.
  intros Hr (d & d' & H1 & H2 & H3 & H4 & H5 & H6 & H7). exists d, d'. split_and!; try done.
  - transitivity (w_db w); [done|apply Hr].
  - by eapply during_mono.
Qed.

Lemma committed_now w0 w1 w (P : Db → Db → Prop) :
  winv w0 → winv w1 → winv w → wrely w0 w1 → wrely w1 w → P (w_db w1) (w_db w) → committed w0 w P.
Proof.
  intros H0 H1 H Hr1 Hr HP. assert (wrely w0 w) by (by transitivity w1).
  exists (w_db w1), (w_db w). split_and!; try done; try (apply H1 || apply H || apply Hr1 || apply Hr).
  by apply during_now.
Qed.

Lemma notifyChanged_wp g (Q : unit → World → Prop) w :
  is_Some (groups (w_db w) !! g) → (∀ w', wrely w w' → winv w' → Q tt w') → WP (notifyChanged nd g) Q w.
Proof.
  intros [x Hg] HQ. apply wp_mbind, wp_bus.
  - intros w1 Hr _. exists x. eapply lookup_weaken; [done|]. apply (le_groups _ _ (wr_db _ _ Hr)).
  - intros r w' Hr Hi. by apply wp_mret, HQ.
Qed.

Lemma group_wp gid (Q : result Group → World → Prop) w :
  (∀ r w', wrely w w' → winv w' → (∀ g, r = Ok g → groups (w_db w') !! gid = Some g ∧ Group_Id g = gid) → Q r w') →
  WP (group gid) Q w.
Proof.
  intros HQ. apply wp_mbind, wp_read. intros w1 r w' Hr1 Hi1 Hi' Hr' _ Hres. apply wp_mret, HQ; [by transitivity w1|done|].
  intros g Hg. destruct r as [g'|e]; [|by destruct (Is e _)]. injection Hg as ->. destruct Hres as [Hres|[? [=]]].
  unfold Gen.GetGroup in Hres. destruct (groups (w_db w1) !! gid) as [x|] eqn:E; [|done]. injection Hres as ->.
  split; [|by apply (ok_groups _ (wi_db _ Hi1))]. eapply lookup_weaken; [exact E|]. apply (le_groups _ _ (wr_db _ _ Hr')).
Qed.

Lemma activeGroup_wp gid (Q : result Group → World → Prop) w :
  (∀ r w', wrely w w' → winv w' →
     (∀ g, r = Ok g → groups (w_db w') !! gid = Some g ∧ Group_Id g = gid ∧ Group_Status g ≠ GroupStatusDismissed) → Q r w') →
  WP (activeGroup gid) Q w.
Proof.
  intros HQ. apply wp_mbind, group_wp. intros r w' Hr Hi Hg. apply wp_mret, HQ; try done.
  intros g E. destruct r as [g'|]; [|done]. destruct (Z.eqb_spec (Group_Status g') GroupStatusDismissed); [done|].
  injection E as ->. by destruct (Hg g eq_refl).
Qed.

Lemma groups_mono w w' gid g : wrely w w' → groups (w_db w) !! gid = Some g → groups (w_db w') !! gid = Some g.
Proof. intros Hr H. eapply lookup_weaken; [exact H|]. apply (le_groups _ _ (wr_db _ _ Hr)). Qed.

(** ** Create *)

Lemma Create_wp o i w :
  winv w →
  WP (Create cfg nd o i) (λ r w', winv w' ∧ ∀ info, r = Ok info →
    committed w w' (created_in (GI_Id info) o (Uniq (o :: CI_MemberIds i)))) w.
Proof.
  intros Hi. unfold Create. destruct (validateCreate i); [by apply wp_mret|]. destruct (negb _); [by apply wp_mret|].
  destruct (_ <? _); [by apply wp_mret|]. set (ids := Uniq _).
  apply wp_mbind, wp_read. intros w1 r w2 Hr1 Hi1 Hi2 Hr2 _ _. destruct r as [us|]; [|by apply wp_mret].
  destruct (negb _); [by apply wp_mret|]. assert (wrely w w2) as Hr02 by (by transitivity w1).
  apply wp_mbind, getNowMs_wp. intros now w3 Hr3 Hi3 Hnow. apply wp_mbind, (wp_tick shortId). intros w4 t Hr4 Hi4.
  set (gid := shortId (w_tick w4)). set (w5 := w_set_tick w4 t) in *.
  set (g := mkGroup gid _ _ _ o _ _ now now). apply wp_mbind, wp_tx.
  - intros w6 s Hr6 Hi6 Hb Hbnd. split; [apply createTx_Ok in Hb as (? & _); done || apply Hi6|].
    eapply silent_posts in Hb; [done|apply createTx_silent].
  - intros w6 c x w' Hr6 Hi' Hr'. by apply wp_mret.
  - intros w6 s w' e Hr6 Hi6 Hi' Hr' Hb Hbnd Hdb. apply createTx_Ok in Hb as (_ & Hg & Hc); [|apply Hi6|done].
    destruct e; [by apply wp_mret|]. rewrite <- Hdb in Hg, Hc. specialize (Hc eq_refl).
    assert (wrely w w6) as Hr06 by (transitivity w2; [done|]; transitivity w3; [done|]; by transitivity w5).
    apply wp_mbind, notifyChanged_wp; [eauto|]. intros w7 Hr7 Hi7. apply wp_mret. split; [done|]. intros info [= <-].
    apply (committed_mono w w'); [done|]. by apply (committed_now w w6).
Qed.

(** ** Join *)

Definition joined_in (gid u : string) (d d' : Db) : Prop :=
  members d !! (gid, u) = None ∧ is_Some (members d' !! (gid, u)) ∧
  Z.of_nat (length (keep (λ m, (GM_GroupId m =? gid)%string) (rows (members d)))) < maxMembers cfg ∧
  ∀ k, ¬ visible d' u (GroupConv gid) k.

Lemma Join_wp gid u w :
  winv w → WP (Join cfg nd gid u) (λ r w', winv w' ∧ (r = None → committed w w' (joined_in gid u))) w.
Proof.
  intros Hi. apply wp_mbind, activeGroup_wp. intros [g|] w1 Hr1 Hi1 Hg; [|by apply wp_mret].
  destruct (Hg g eq_refl) as (Hg1 & <- & _).
  apply wp_mbind, wp_read. intros w2 r w3 Hr2 Hi2 Hi3 Hr3 _ _.
  destruct r as [us|e]; [|apply wp_mret; split; [done|]; by destruct (Is e _)].
  apply wp_mbind, getNowMs_wp. intros now w4 Hr4 Hi4 Hnow.
  assert (wrely w1 w4) as Hr14 by (transitivity w2; [done|]; by transitivity w3).
  assert (wrely w w4) as Hr04 by (by transitivity w1).
  apply wp_mbind, wp_tx.
  - intros w6 s Hr6 Hi6 Hb Hbnd. split; [|eapply silent_posts in Hb; [done|apply joinTx_silent]].
    apply joinTx_Ok in Hb as (? & _); [done|apply Hi6| |done|done].
    simpl. eexists. eapply groups_mono; [|exact Hg1]. by transitivity w4.
  - intros w6 c x w' Hr6 Hi' Hr'. by apply wp_mret.
  - intros w6 s w' e Hr6 Hi6 Hi' Hr' Hb Hbnd Hdb.
    assert (groups (w_db w6) !! Group_Id g = Some g) as Hg6 by (eapply groups_mono; [|exact Hg1]; by transitivity w4).
    apply joinTx_Ok in Hb as (_ & Hj1 & Hj2 & Hj3 & Hj4); [|apply Hi6|simpl; eauto|done|done].
    destruct e; [by apply wp_mret|]. rewrite <- Hdb in Hj2, Hj4. simpl in Hj1, Hj3.
    assert (committed w w' (joined_in (Group_Id g) u)) as Hcom.
    { apply (committed_now w w6 w'); [done|done|done|by transitivity w4|done|]. unfold joined_in. split_and!; done. }
    apply wp_mbind, notifyChanged_wp; [eexists; by eapply groups_mono|]. intros w7 Hr7 Hi7. apply wp_mret. split; [done|]. intros _.
    eapply committed_mono; [exact Hr7|exact Hcom].
Qed.

(** ** Quit and Kick *)

Definition removed_in (gid op u : string) (d d' : Db) : Prop :=
  (∃ g, groups d !! gid = Some g ∧ u ≠ Group_OwnerId g ∧ Group_Status g ≠ GroupStatusDismissed ∧ (op ≠ u → kick_allowed d g op u)) ∧
  is_Some (members d !! (gid, u)) ∧ members d' !! (gid, u) = None ∧
  ∀ k, visible d' u (GroupConv gid) k ↔ visible d u (GroupConv gid) k.

Lemma remove_wp g op u (Q : err → World → Prop) w :
  winv w → groups (w_db w) !! Group_Id g = Some g → u ≠ Group_OwnerId g → Group_Status g ≠ GroupStatusDismissed →
  (∀ r w', wrely w w' → winv w' → (r = None → committed w w' (removed_in (Group_Id g) op u)) → Q r w') →
  WP (remove nd g op u) Q w.
Proof.
  intros Hi Hg Hown Hst HQ. apply wp_mbind, getNowMs_wp. intros now w4 Hr4 Hi4 Hnow. apply wp_mbind, wp_tx.
  - intros w6 s Hr6 Hi6 Hb Hbnd. split; [|eapply silent_posts in Hb; [done|apply removeTx_silent]].
    apply removeTx_Ok in Hb as (? & _); [done|apply Hi6| |done].
    simpl. eexists. eapply groups_mono; [|exact Hg]. by transitivity w4.
  - intros w6 c x w' Hr6 Hi' Hr'. apply wp_mret, HQ; [|done|done]. transitivity w4; [done|]. by transitivity w6.
  - intros w6 s w' e Hr6 Hi6 Hi' Hr' Hb Hbnd Hdb.
    assert (groups (w_db w6) !! Group_Id g = Some g) as Hg6 by (eapply groups_mono; [|exact Hg]; by transitivity w4).
    assert (wrely w w') as Hrw by (transitivity w4; [done|]; by transitivity w6).
    apply removeTx_Ok in Hb as (_ & Hj1 & Hj2 & Hj3 & Hj4); [|apply Hi6|simpl; eauto|done].
    destruct e; [by apply wp_mret, HQ|]. rewrite <- Hdb in Hj2, Hj4. simpl in Hj1, Hj3, Hj4.
    assert (committed w w' (removed_in (Group_Id g) op u)) as Hcom.
    { apply (committed_now w w6 w'); [done|done|done|by transitivity w4|done|]. unfold removed_in. split_and!; eauto 10. }
    apply wp_mbind, notifyChanged_wp; [eexists; by eapply groups_mono|]. intros w7 Hr7 Hi7.
    apply wp_mret, HQ; [by transitivity w'|done|]. intros _. by eapply committed_mono.
Qed.

Lemma committed_from w0 w w' P : winv w0 → winv w → wrely w0 w → wrely w w' → committed w w' P → committed w0 w' P.
Proof.
  intros H0 H Hr Hr' (d & d' & H1 & H2 & H3 & H4 & H5 & H6 & H7). exists d, d'. split_and!; try done.
  - transitivity (w_db w); [apply Hr|done].
  - destruct H6 as [->|(l & Hl & Hd')].
    + eapply during_mono; [exact Hr'|]. by apply during_now.
    + right. destruct (wr_past _ _ Hr) as [l0 Hl0]. exists (l0 ++ l). rewrite app_assoc, <- Hl0. split; [done|].
      apply elem_of_app. by right.
Qed.

Lemma Quit_wp gid u w :
  winv w → WP (Quit nd gid u) (λ r w', winv w' ∧ (r = None → committed w w' (removed_in gid u u))) w.
Proof.
  intros Hi. apply wp_mbind, activeGroup_wp. intros [g|] w1 Hr1 Hi1 Hg; [|by apply wp_mret].
  destruct (Hg g eq_refl) as (Hg1 & <- & Hst). destruct (Group_OwnerId g =? u)%string eqn:Eo; [by apply wp_mret|].
  bool_prop. apply remove_wp; try done. intros r w' Hr' Hi' Hc. split; [done|]. intros E. apply (committed_from w w1 w'); auto.
Qed.

Lemma Kick_wp gid op u w :
  winv w → WP (Kick nd gid op u) (λ r w', winv w' ∧ (r = None → op ≠ u ∧ committed w w' (removed_in gid op u))) w.
Proof.
  intros Hi. apply wp_mbind, activeGroup_wp. intros [g|] w1 Hr1 Hi1 Hg; [|by apply wp_mret].
  destruct (Hg g eq_refl) as (Hg1 & <- & Hst). destruct (negb _); [by apply wp_mret|].
  destruct (u =? Group_OwnerId g)%string eqn:Eo; [by apply wp_mret|]. destruct (op =? u)%string eqn:Eu; [by apply wp_mret|].
  bool_prop. apply remove_wp; try done. intros r w' Hr' Hi' Hc. split; [done|]. intros E. split; [done|]. apply (committed_from w w1 w'); auto.
Qed.

(** ** Get and Members: only for members *)

Definition was_member (w0 w : World) (gid u : string) : Prop := ∃ d, during w0 w d ∧ is_Some (members d !! (gid, u)).

Lemma member_wp gid u (Q : result GroupMember → World → Prop) w w0 :
  winv w0 → wrely w0 w →
  (∀ r w', wrely w w' → winv w' → (∀ m, r = Ok m → was_member w0 w' gid u) → Q r w') →
  WP (member storeGetMember gid u) Q w.
Proof.
  intros H0 Hr0 HQ. apply wp_mbind, wp_read. intros w1 r w' Hr1 Hi1 Hi' Hr' _ Hres. apply wp_mret, HQ; [by transitivity w1|done|].
  intros m Hm. destruct r as [m'|e]; [|by destruct (Is e _)]. destruct Hres as [Hres|[? [=]]].
  unfold Gen.GetGroupMember in Hres. destruct (members (w_db w1) !! (gid, u)) as [x|] eqn:E; [|done].
  assert (wrely w0 w1) as Hr01 by (by transitivity w). exists (w_db w1). split; [|by eexists].
  eapply during_mono; [exact Hr'|]. by apply during_now.
Qed.

Lemma Get_wp gid u w :
  winv w → WP (Get gid u) (λ r w', winv w' ∧ ∀ info, r = Ok info → was_member w w' gid u) w.
Proof.
  intros Hi. apply wp_mbind, group_wp. intros [g|] w1 Hr1 Hi1 Hg; [|by apply wp_mret]. destruct (Hg g eq_refl) as [_ <-].
  apply wp_mbind, (member_wp _ _ _ _ w); [done|done|]. intros [m|] w2 Hr2 Hi2 Hm; [|by apply wp_mret].
  apply wp_mbind, wp_read. intros w3 r w4 Hr3 Hi3 Hi4 Hr4 _ _. apply wp_mret. split; [done|]. intros info _.
  destruct (Hm m eq_refl) as (d & Hd & Hmem). exists d. split; [|done].
  eapply during_mono; [|exact Hd]. by transitivity w3.
Qed.

Lemma Members_wp gid u w :
  winv w → WP (Members gid u) (λ r w', winv w' ∧ ∀ ms, r = Ok ms → was_member w w' gid u) w.
Proof.
  intros Hi. apply wp_mbind, group_wp. intros [g|] w1 Hr1 Hi1 Hg; [|by apply wp_mret]. destruct (Hg g eq_refl) as [_ <-].
  apply wp_mbind, (member_wp _ _ _ _ w); [done|done|]. intros [m|] w2 Hr2 Hi2 Hm; [|by apply wp_mret].
  apply wp_mbind, wp_read. intros w3 r w4 Hr3 Hi3 Hi4 Hr4 _ _. apply wp_mret. split; [done|]. intros ms _.
  destruct (Hm m eq_refl) as (d & Hd & Hmem). exists d. split; [|done].
  eapply during_mono; [|exact Hd]. by transitivity w3.
Qed.
End GroupInv.
