(* ===== verification/Paging.v ===== *)
(** * Following the page cursors of the conversation list

    [ListPage] orders by [(updated_at, conversation_id)] descending and continues after the last
    row of a page. On a database at rest, following the cursors returns every conversation of the
    user exactly once, in order. *)

From S2P Require Import Prelude Errcode Strconv Identity Json Store PgStore Conv DbInv Conc RateLimit MemberCache World ConvPage MessageSvc History WorldInv MessageInv.

Local Open Scope Z_scope.

(** ** The order of the list *)

Definition row_key (r : UserConversationRow) : Z * string := (UC_UpdatedAt (Row_UC r), UC_ConversationId (Row_UC r)).

Definition key_lt (a b : Z * string) : Prop := a.1 < b.1 ∨ (a.1 = b.1 ∧ String.le a.2 b.2 ∧ a.2 ≠ b.2).

Lemma ltb_spec a b : String.ltb a b = true ↔ String.le a b ∧ a ≠ b.
Proof.
  unfold String.ltb, String.le, String.leb. destruct (String.compare a b) eqn:E; simpl.
  - apply String.compare_eq_iff in E. naive_solver.
  - split; [|done]. intros _. split; [done|]. intros ->. pose proof (String.compare_antisym b b) as H. by rewrite E in H.
  - naive_solver.
Qed.

Lemma cursor_ltb_spec u1 c1 u2 c2 : cursor_ltb u1 c1 u2 c2 = true ↔ key_lt (u1, c1) (u2, c2).
Proof.
  unfold cursor_ltb, key_lt. rewrite orb_true_iff, andb_true_iff, Z.ltb_lt, Z.eqb_eq, ltb_spec. done.
Qed.

#[export] Instance key_lt_strict : StrictOrder key_lt.
Proof.
  split.
  - intros [u c] [H|(_ & _ & H)]; simpl in *; [lia|done].
  - intros [u1 c1] [u2 c2] [u3 c3] [H1|(E1 & H1 & N1)] [H2|(E2 & H2 & N2)]; unfold key_lt; simpl in *; try (left; lia).
    right. split_and!; [lia|by transitivity c2|]. intros ->. apply N1. by apply (anti_symm String.le).
Qed.

Lemma key_lt_total a b : key_lt a b ∨ a = b ∨ key_lt b a.
Proof.
  destruct a as [u1 c1], b as [u2 c2]. unfold key_lt. simpl.
  destruct (Z.lt_trichotomy u1 u2) as [?|[->|?]]; [by left; left| |by right; right; left].
  destruct (decide (c1 = c2)) as [->|Hne]; [by right; left|].
  destruct (total String.le c1 c2); [left|right; right]; right; split_and!; done.
Qed.

Lemma row_leb_spec a b : Is_true (row_leb a b) ↔ ¬ key_lt (row_key a) (row_key b).
Proof.
  unfold row_leb, key_lt, row_key. simpl. rewrite Is_true_true, orb_true_iff, andb_true_iff, Z.ltb_lt, Z.eqb_eq.
  rewrite <- Is_true_true. change (Is_true (String.leb ?x ?y)) with (String.le x y).
  set (u1 := UC_UpdatedAt (Row_UC a)). set (u2 := UC_UpdatedAt (Row_UC b)).
  set (c1 := UC_ConversationId (Row_UC a)). set (c2 := UC_ConversationId (Row_UC b)).
  assert (String.le c2 c1 ↔ ¬ (String.le c1 c2 ∧ c1 ≠ c2)) as ->.
  { split.
    - intros H [H1 H2]. apply H2. by apply (anti_symm String.le).
    - intros H. destruct (total String.le c2 c1) as [|H1]; [done|]. destruct (decide (c1 = c2)) as [->|]; [done|naive_solver]. }
  destruct (Z.lt_trichotomy u1 u2) as [?|[?|?]]; intuition lia.
Qed.

#[export] Instance row_leb_total : Total (λ a b, Is_true (row_leb a b)).
Proof.
  intros a b. rewrite !row_leb_spec. destruct (key_lt_total (row_key a) (row_key b)) as [H|[->|H]].
  - right. intros H'. by apply (irreflexivity key_lt (row_key a)); transitivity (row_key b).
  - left. apply irreflexivity, _.
  - left. intros H'. by apply (irreflexivity key_lt (row_key a)); transitivity (row_key b).
Qed.

#[export] Instance row_leb_trans : Transitive (λ a b, Is_true (row_leb a b)).
Proof.
  intros a b c. rewrite !row_leb_spec. intros H1 H2 H3. destruct (key_lt_total (row_key b) (row_key c)) as [H|[E|H]].
  - done.
  - apply H1. by rewrite E.
  - apply H1. by transitivity (row_key c).
Qed.

(** ** The list of a user *)

Definition user_rows (d : Db) (o : string) : list UserConversationRow :=
  sortBy row_leb (flat_map (Gen.joined d) (keep (λ uc, (UC_OwnerId uc =? o)%string) (rows (userConvs d)))).

Definition before (cur : ListCursor) (r : UserConversationRow) : bool :=
  cursor_ltb (UC_UpdatedAt (Row_UC r)) (UC_ConversationId (Row_UC r)) (LC_UpdatedAt cur) (LC_ConversationId cur).

Lemma keep_Permutation {A} (f : A → bool) (l k : list A) : l ≡ₚ k → keep f l ≡ₚ keep f k.
Proof.
  unfold keep. induction 1 as [|x l k _ IH|x y l|l k j _ IH1 _ IH2]; simpl; try done.
  - by destruct (f x); rewrite IH.
  - destruct (f x), (f y); try done. constructor.
  - by rewrite IH1.
Qed.

Lemma joined_filter d (f : UserConversation → bool) l :
  flat_map (Gen.joined d) (keep f l) = keep (λ r, f (Row_UC r)) (flat_map (Gen.joined d) l).
Proof.
  induction l as [|uc l IH]; simpl; [done|]. rewrite keep_app, <- IH. unfold Gen.joined at 1 2.
  destruct (f uc) eqn:E; simpl; destruct (convs d !! UC_ConversationId uc); simpl; by rewrite ?E.
Qed.

Section Rows.
Context {d : Db} (Hd : DbOk d) (o : string).

Lemma user_rows_Permutation :
  user_rows d o ≡ₚ flat_map (Gen.joined d) (keep (λ uc, (UC_OwnerId uc =? o)%string) (rows (userConvs d))).
Proof. apply merge_sort_Permutation. Qed.

Lemma elem_of_user_rows r :
  r ∈ user_rows d o ↔ userConvs d !! (o, UC_ConversationId (Row_UC r)) = Some (Row_UC r) ∧
    Row_ConvMaxSeq r = conv_max d (UC_ConversationId (Row_UC r)).
Proof.
  rewrite user_rows_Permutation, list_elem_of_In, in_flat_map. setoid_rewrite <- list_elem_of_In.
  unfold Gen.joined, conv_max. split.
  - intros (uc & Huc & Hr). apply elem_of_keep in Huc as [[[o' c'] Hk]%elem_of_rows Ho].
    destruct (ok_uc d Hd o' c' uc Hk) as (E1 & E2 & _). bool_prop.
    destruct (convs d !! UC_ConversationId uc) as [cv|] eqn:Ec; [|by apply not_elem_of_nil in Hr].
    apply list_elem_of_singleton in Hr as ->. simpl. rewrite Ec. split; [congruence|done].
  - intros [Hk Hm]. destruct (ok_uc d Hd _ _ _ Hk) as (E1 & E2 & [cv Hcv] & _). exists (Row_UC r). split.
    + apply elem_of_keep. split; [apply elem_of_rows; eauto|]. by apply String.eqb_eq.
    + rewrite Hcv in *. apply list_elem_of_singleton. destruct r as [uc m]. simpl in *. by subst.
Qed.

Lemma user_rows_key_inj r1 r2 :
  r1 ∈ user_rows d o → r2 ∈ user_rows d o → UC_ConversationId (Row_UC r1) = UC_ConversationId (Row_UC r2) → r1 = r2.
Proof.
  rewrite !elem_of_user_rows. intros [H1 M1] [H2 M2] E. rewrite E in H1, M1. destruct r1, r2. simpl in *. congruence.
Qed.

Lemma user_rows_NoDup : NoDup (user_rows d o).
Proof.
  rewrite user_rows_Permutation.
  assert (NoDup (keep (λ uc, (UC_OwnerId uc =? o)%string) (rows (userConvs d)))) as Hnd.
  { unfold keep. apply NoDup_ListNoDup, List.NoDup_filter, NoDup_ListNoDup. unfold rows.
    apply NoDup_fmap_2_strong; [|apply NoDup_map_to_list].
    intros [[o1 c1] u1] [[o2 c2] u2] H1%elem_of_map_to_list H2%elem_of_map_to_list E. simpl in E. subst u2.
    destruct (ok_uc d Hd _ _ _ H1) as (? & ? & _), (ok_uc d Hd _ _ _ H2) as (? & ? & _). congruence. }
  induction Hnd as [|uc l Huc Hnd IH]; simpl; [constructor|]. apply NoDup_app. split_and!; [|..|done].
  - unfold Gen.joined. destruct (convs d !! _); [apply NoDup_singleton|constructor].
  - intros r Hr Hr'. apply Huc. rewrite list_elem_of_In, in_flat_map in Hr'. destruct Hr' as (uc' & Hin & Hr').
    apply list_elem_of_In in Hin. apply list_elem_of_In in Hr'. unfold Gen.joined in Hr, Hr'.
    destruct (convs d !! UC_ConversationId uc); [|by apply not_elem_of_nil in Hr].
    destruct (convs d !! UC_ConversationId uc'); [|by apply not_elem_of_nil in Hr'].
    apply list_elem_of_singleton in Hr as ->. apply list_elem_of_singleton in Hr' as [= ->]. done.
Qed.

(** Strictly descending keys. *)
Lemma user_rows_sorted : StronglySorted (λ a b, key_lt (row_key b) (row_key a)) (user_rows d o).
Proof.
  pose proof user_rows_NoDup as Hnd. pose proof user_rows_key_inj as Hinj.
  assert (StronglySorted (λ a b, Is_true (row_leb a b)) (user_rows d o)) as Hs by (apply StronglySorted_merge_sort; apply _).
  revert Hnd Hinj Hs. generalize (user_rows d o) as l. induction l as [|x l IH]; intros Hnd Hinj Hs; [constructor|].
  inversion Hs as [|? ? Hs' Hf]; subst. inversion Hnd as [|? ? Hx Hnd']; subst.
  constructor; [apply IH; [done|set_solver|done]|]. rewrite Forall_forall in *. intros y Hy. specialize (Hf y Hy).
  apply row_leb_spec in Hf. destruct (key_lt_total (row_key x) (row_key y)) as [|[E|]]; [done| |done].
  exfalso. apply Hx. unfold row_key in E. injection E as _ E. rewrite (Hinj x y); set_solver.
Qed.

(** One page is a filter of the list. *)
Lemma ListUserConversations_rows cur lim :
  Gen.ListUserConversations o cur lim d = LIMIT lim (keep (before cur) (user_rows d o)).
Proof.
  unfold Gen.ListUserConversations. f_equal.
  rewrite (joined_filter d (λ uc, (UC_OwnerId uc =? o)%string && cursor_ltb (UC_UpdatedAt uc) (UC_ConversationId uc)
                                   (LC_UpdatedAt cur) (LC_ConversationId cur))).
  apply (StronglySorted_unique_strong (λ a b, Is_true (row_leb a b))).
  - intros x y Hx Hy H1 H2. unfold sortBy in Hx. rewrite merge_sort_Permutation in Hx.
    apply elem_of_keep in Hy as [Hy _]. apply row_leb_spec in H1, H2.
    destruct (key_lt_total (row_key x) (row_key y)) as [|[E|]]; [done| |done].
    eapply user_rows_key_inj; [|done|by injection E]. rewrite user_rows_Permutation, joined_filter.
    apply elem_of_keep in Hx as [Hx Hb]. apply elem_of_keep. split; [done|]. by apply andb_true_iff in Hb as [? _].
  - apply StronglySorted_merge_sort; apply _.
  - apply StronglySorted_keep, StronglySorted_merge_sort; apply _.
  - unfold sortBy. rewrite merge_sort_Permutation. unfold user_rows, sortBy.
    rewrite (keep_Permutation (before cur) _ _ (merge_sort_Permutation _ _)), joined_filter, keep_keep. done.
Qed.
End Rows.

(** ** Following the cursors *)

Lemma keep_before_suffix d o pre x post :
  DbOk d → user_rows d o = pre ++ x :: post →
  keep (before (mkListCursor (UC_UpdatedAt (Row_UC x)) (UC_ConversationId (Row_UC x)))) (user_rows d o) = post.
Proof.
  intros Hd E. pose proof (user_rows_sorted Hd o) as Hs. rewrite E in *.
  assert (∀ r, before (mkListCursor (UC_UpdatedAt (Row_UC x)) (UC_ConversationId (Row_UC x))) r = true ↔ key_lt (row_key r) (row_key x)) as Hb
    by (intros r; apply cursor_ltb_spec).
  apply StronglySorted_app in Hs as (Hcross & Hpre & Hpost). inversion Hpost as [|? ? _ Hf]; subst. rewrite Forall_forall in Hf.
  rewrite keep_app, (keep_none _ pre); simpl; [replace (before _ x) with false; [apply keep_all|]|].
  - intros r Hr. by apply Hb, Hf.
  - symmetry. apply not_true_iff_false. rewrite Hb. apply irreflexivity, _.
  - intros r Hr. apply not_true_iff_false. rewrite Hb. intros H. apply (irreflexivity key_lt (row_key r)).
    transitivity (row_key x); [done|]. apply Hcross; [done|by left].
Qed.

Section FetchAll.
Context `{RL : RateLib} `{EN : Env}.

(** A client that follows [next_cursor] while [has_more]. *)
Fixpoint fetchAll (fuel : nat) (userId cursor : string) (limit pageMax : Z) : prog World (result (list UserConversationRow)) :=
  match fuel with
  | O => mret (Ok [])
  | S f =>
      r ← ListPage userId cursor limit pageMax;
      match r with
      | Err e => mret (Err e)
      | Ok (rows, next, hasMore) =>
          if hasMore : bool then
            rest ← fetchAll f userId next limit pageMax;
            mret (match rest with Ok rs => Ok (rows ++ rs) | Err e => Err e end)
          else mret (Ok rows)
      end
  end.

Hypothesis no_faults : ∀ t, fault t = NoFault.

(** One page on a database at rest: the rows after the cursor, cut at the limit. *)
Lemma run_ListPage w o cursor cur limit pageMax :
  DbOk (w_db w) → DecodeCursor cursor = Some cur → pageMax < 2 ^ 31 - 1 →
  let lim := clampLimit limit pageMax in
  let rest := keep (before cur) (user_rows (w_db w) o) in
  ∃ w', w_db w' = w_db w ∧
  run (ListPage o cursor limit pageMax) w =
    (if Z.of_nat (length rest) <=? lim then Ok (rest, ""%string, false)
     else match last (take (Z.to_nat lim) rest) with
          | Some l => Ok (take (Z.to_nat lim) rest, EncodeCursor (mkListCursor (UC_UpdatedAt (Row_UC l)) (UC_ConversationId (Row_UC l))), true)
          | None => Ok (take (Z.to_nat lim) rest, ""%string, false)
          end, w').
Proof.
  intros Hd Hcur Hpm lim rest. unfold ListPage. rewrite Hcur. fold lim. pose proof (clampLimit_range limit pageMax) as Hlim. fold lim in Hlim.
  unfold call, act, mbind, prog_mbind. simpl. unfold call_step. rewrite no_faults. unfold ListUserConversations, reading.
  unfold lim. rewrite row_limit by done. fold lim. rewrite (ListUserConversations_rows Hd). fold rest. unfold LIMIT.
  replace (lim + 1 <? 0) with false by (symmetry; lia). simpl. eexists. split; [|f_equal]; [done|].
  clearbody lim rest. rewrite length_take. destruct (Z.leb_spec (Z.of_nat (length rest)) lim).
  - replace (Z.of_nat (Z.to_nat (lim + 1) `min` length rest)%nat <=? lim) with true by (symmetry; apply Z.leb_le; lia). rewrite take_ge by lia. done.
  - replace (Z.of_nat (Z.to_nat (lim + 1) `min` length rest)%nat <=? lim) with false by (symmetry; apply Z.leb_gt; lia).
    rewrite take_take. replace (Z.to_nat lim `min` Z.to_nat (lim + 1))%nat with (Z.to_nat lim) by lia. done.
Qed.

Lemma fetchAll_suffix fuel w o cursor cur pre rest limit pageMax :
  DbOk (w_db w) → pageMax < 2 ^ 31 - 1 →
  (∀ r, r ∈ user_rows (w_db w) o → minInt64 ≤ UnixMilli (UC_UpdatedAt (Row_UC r)) ≤ maxInt64) →
  user_rows (w_db w) o = pre ++ rest → DecodeCursor cursor = Some cur → keep (before cur) (user_rows (w_db w) o) = rest →
  (length rest < fuel)%nat →
  (run (fetchAll fuel o cursor limit pageMax) w).1 = Ok rest.
Proof.
  revert w cursor cur pre rest. induction fuel as [|f IH]; intros w cursor cur pre rest Hd Hpm Hms Hall Hcur Hrest Hf; [lia|].
  cbn [fetchAll]. unfold mbind, prog_mbind. rewrite run_bind.
  destruct (run_ListPage w o cursor cur limit pageMax Hd Hcur Hpm) as (w' & Hdb & ->). rewrite Hrest.
  pose proof (clampLimit_range limit pageMax) as Hlim. set (lim := clampLimit limit pageMax) in *.
  destruct (Z.leb_spec (Z.of_nat (length rest)) lim) as [|Hmore]; [done|].
  destruct (last (take (Z.to_nat lim) rest)) as [x|] eqn:El.
  2: { apply last_None in El. apply (f_equal length) in El. rewrite length_take in El. simpl in El. lia. }
  apply last_Some in El as [p' Ep]. rewrite Ep.
  assert (user_rows (w_db w) o = (pre ++ p') ++ x :: drop (Z.to_nat lim) rest) as Hall'.
  { rewrite Hall. rewrite <- (take_drop (Z.to_nat lim) rest) at 1. rewrite Ep, <- !app_assoc. done. }
  assert (x ∈ user_rows (w_db w) o) as Hx by (rewrite Hall'; set_solver).
  pose proof (Hms x Hx) as Hxms. apply (elem_of_user_rows Hd) in Hx as [Hx _].
  destruct (ok_uc _ Hd _ _ _ Hx) as (_ & _ & [cv Hcv] & _ & _ & _ & Hex).
  rewrite run_bind.
  set (cur' := mkListCursor (UC_UpdatedAt (Row_UC x)) (UC_ConversationId (Row_UC x))).
  pose proof (IH w' (EncodeCursor cur') cur' ((pre ++ p') ++ [x]) (drop (Z.to_nat lim) rest)) as IH'.
  rewrite Hdb in IH'. destruct (run (fetchAll f o (EncodeCursor cur') limit pageMax) w') as [r w2] eqn:Er. simpl in IH'.
  rewrite IH'; simpl; try done.
  - rewrite <- Ep. by rewrite take_drop.
  - rewrite Hall', <- !app_assoc. done.
  - apply DecodeCursor_EncodeCursor; try done. simpl.
    destruct (ok_convs _ Hd _ _ Hcv) as (_ & _ & [(_ & -> & _)|(_ & a & b & _ & _ & ->)]); [done|].
    by destruct (Single_sorted a b) as (y & z & -> & _).
  - by eapply keep_before_suffix.
  - rewrite length_drop. lia.
Qed.

(** C11: following the cursors from the first page, on a database at rest, returns every
    conversation of the user exactly once, newest first. *)
Theorem ListPage_complete w o limit pageMax :
  DbOk (w_db w) → pageMax < 2 ^ 31 - 1 →
  (∀ c uc, userConvs (w_db w) !! (o, c) = Some uc →
     minInt64 ≤ UnixMilli (UC_UpdatedAt uc) ≤ maxInt64 ∧ UC_UpdatedAt uc < LC_UpdatedAt FirstPage) →
  (run (fetchAll (S (length (user_rows (w_db w) o))) o "" limit pageMax) w).1 = Ok (user_rows (w_db w) o) ∧
  NoDup (map (λ r, UC_ConversationId (Row_UC r)) (user_rows (w_db w) o)) ∧
  ∀ c, is_Some (userConvs (w_db w) !! (o, c)) ↔ c ∈ map (λ r, UC_ConversationId (Row_UC r)) (user_rows (w_db w) o).
Proof.
  intros Hd Hpm Hms. split_and!.
  - apply (fetchAll_suffix _ w o "" FirstPage []); try done; try lia.
    + intros r [Hr _]%(elem_of_user_rows Hd). by apply (Hms _ _ Hr).
    + apply keep_all. intros r [Hr _]%(elem_of_user_rows Hd). destruct (Hms _ _ Hr) as [_ H].
      apply cursor_ltb_spec. by left.
  - apply NoDup_fmap_2_strong; [|by apply user_rows_NoDup]. intros r1 r2 H1 H2. by apply (user_rows_key_inj Hd o).
  - intros c. rewrite list_elem_of_fmap. split.
    + intros [uc Huc]. destruct (ok_uc _ Hd _ _ _ Huc) as (_ & Ec & _). exists (mkUCRow uc (conv_max (w_db w) c)). split; [done|].
      apply (elem_of_user_rows Hd). simpl. by rewrite Ec.
    + intros (r & -> & [Hr _]%(elem_of_user_rows Hd)). eauto.
Qed.
End FetchAll.
