(* ===== verification/MemThms.v ===== *)
(** * The in-memory store agrees with the PostgreSQL store

    On a well-formed store and calls like those of the services, every method of the two drivers leaves the same tables and gives
    the same answer (up to order where neither promises one), and so does every sequence of calls. *)

From S2P Require Import Prelude Errcode Strconv Identity Json Store PgStore Conv DbInv Conc RateLimit MemberCache World ConvPage MessageSvc History WorldInv MessageInv Paging MemStore.

Local Open Scope Z_scope.

(** ** The interface *)

(** The methods of [store.Store] that read or change tables. *)
Inductive StoreOp : Type → Type :=
| OGetUser (id : string) : StoreOp User
| OGetUsers (ids : list string) : StoreOp (list User)
| OGetUserByUsername (username : string) : StoreOp User
| OCreateUser (u : User) : StoreOp unit
| OUpdateUserProfile (id : string) (nickname avatar extra : option string) (now : Z) : StoreOp unit
| OUpsertUser (u : User) : StoreOp unit
| OCreateGroup (g : Group) (ms : list GroupMember) : StoreOp unit
| OGetGroup (id : string) : StoreOp Group
| OAddGroupMember (m : GroupMember) : StoreOp unit
| ORemoveGroupMember (g u : string) : StoreOp bool
| OGetGroupMember (g u : string) : StoreOp GroupMember
| OListGroupMembers (g : string) : StoreOp (list GroupMember)
| OCountGroupMembers (g : string) : StoreOp Z
| OListUserGroupIds (u : string) : StoreOp (list string)
| OLockConversation (id : string) (typ : Z) (g : string) (now : Z) : StoreOp Conversation
| OGetConversation (id : string) : StoreOp Conversation
| OGetUserConversation (o c : string) : StoreOp UserConversation
| OGetUserConversationRow (o c : string) : StoreOp UserConversationRow
| OUpsertUserConversation (uc : UserConversation) : StoreOp unit
| ODeleteUserConversation (o c : string) : StoreOp unit
| OVisibleOwners (c : string) (ids : list string) (s : Z) : StoreOp (list string)
| OMutedOwners (c : string) (ids : list string) : StoreOp (list string)
| OSetUserConversationMaxSeq (o c : string) (s : Z) : StoreOp unit
| OSetUserConversationOpt (o c : string) (opt : option Z) (pin : option bool) : StoreOp unit
| OCreateUserConversations (ucs : list UserConversation) : StoreOp unit
| OGetMessageByClientId (c s m : string) : StoreOp Message
| OInsertMessage (m : Message) : StoreOp bool
| OSetConversationMaxSeq (c : string) (s now : Z) : StoreOp unit
| OListMessages (c : string) (b e limit : Z) : StoreOp (list Message)
| OGetMessages (keys : list MessageKey) : StoreOp (list Message)
| OTouchUserConversation (uc : UserConversation) (readSeq : Z) : StoreOp unit
| OTouchConversationMembers (c : string) (now : Z) : StoreOp unit
| OAdvanceReadSeq (o c : string) (s : Z) : StoreOp unit
| OListUserConversations (o : string) (cursor : ListCursor) (limit : Z) : StoreOp (list UserConversationRow)
| OUpsertOnlineConn (c : OnlineConn) : StoreOp unit
| ODeleteOnlineConn (id : string) : StoreOp unit
| ORenewOnlineConns (nd : string) (ids : list string) (now : Z) : StoreOp unit
| OListOnlineConns (ids : list string) (since : Z) : StoreOp (list OnlineConn)
| ODeleteOnlineConnsByNode (nd : string) : StoreOp unit.

Definition pg {A} (o : StoreOp A) : Op A :=
  match o with
  | OGetUser id => PgStore.GetUser id
  | OGetUsers ids => PgStore.GetUsers ids
  | OGetUserByUsername n => PgStore.GetUserByUsername n
  | OCreateUser u => PgStore.CreateUser u
  | OUpdateUserProfile id n a e now => PgStore.UpdateUserProfile id n a e now
  | OUpsertUser u => PgStore.UpsertUser u
  | OCreateGroup g ms => PgStore.CreateGroup g ms
  | OGetGroup id => PgStore.GetGroup id
  | OAddGroupMember m => PgStore.AddGroupMember m
  | ORemoveGroupMember g u => PgStore.RemoveGroupMember g u
  | OGetGroupMember g u => PgStore.GetGroupMember g u
  | OListGroupMembers g => PgStore.ListGroupMembers g
  | OCountGroupMembers g => PgStore.CountGroupMembers g
  | OListUserGroupIds u => PgStore.ListUserGroupIds u
  | OLockConversation id t g now => PgStore.LockConversation id t g now
  | OGetConversation id => PgStore.GetConversation id
  | OGetUserConversation o c => PgStore.GetUserConversation o c
  | OGetUserConversationRow o c => PgStore.GetUserConversationRow o c
  | OUpsertUserConversation uc => PgStore.UpsertUserConversation uc
  | ODeleteUserConversation o c => PgStore.DeleteUserConversation o c
  | OVisibleOwners c ids s => PgStore.VisibleOwners c ids s
  | OMutedOwners c ids => PgStore.MutedOwners c ids
  | OSetUserConversationMaxSeq o c s => PgStore.SetUserConversationMaxSeq o c s
  | OSetUserConversationOpt o c opt pin => PgStore.SetUserConversationOpt o c opt pin
  | OCreateUserConversations ucs => PgStore.CreateUserConversations ucs
  | OGetMessageByClientId c s m => PgStore.GetMessageByClientId c s m
  | OInsertMessage m => PgStore.InsertMessage m
  | OSetConversationMaxSeq c s now => PgStore.SetConversationMaxSeq c s now
  | OListMessages c b e l => PgStore.ListMessages c b e l
  | OGetMessages ks => PgStore.GetMessages ks
  | OTouchUserConversation uc s => PgStore.TouchUserConversation uc s
  | OTouchConversationMembers c now => PgStore.TouchConversationMembers c now
  | OAdvanceReadSeq o c s => PgStore.AdvanceReadSeq o c s
  | OListUserConversations o cur l => PgStore.ListUserConversations o cur l
  | OUpsertOnlineConn c => PgStore.UpsertOnlineConn c
  | ODeleteOnlineConn id => PgStore.DeleteOnlineConn id
  | ORenewOnlineConns nd ids now => PgStore.RenewOnlineConns nd ids now
  | OListOnlineConns ids since => PgStore.ListOnlineConns ids since
  | ODeleteOnlineConnsByNode nd => PgStore.DeleteOnlineConnsByNode nd
  end.

Section Mem.
Context `{GR : GoRange}.

Definition mem {A} (o : StoreOp A) : MemOp A :=
  match o with
  | OGetUser id => Mem.GetUser id
  | OGetUsers ids => Mem.GetUsers ids
  | OGetUserByUsername n => Mem.GetUserByUsername n
  | OCreateUser u => Mem.CreateUser u
  | OUpdateUserProfile id n a e now => Mem.UpdateUserProfile id n a e now
  | OUpsertUser u => Mem.UpsertUser u
  | OCreateGroup g ms => Mem.CreateGroup g ms
  | OGetGroup id => Mem.GetGroup id
  | OAddGroupMember m => Mem.AddGroupMember m
  | ORemoveGroupMember g u => Mem.RemoveGroupMember g u
  | OGetGroupMember g u => Mem.GetGroupMember g u
  | OListGroupMembers g => Mem.ListGroupMembers g
  | OCountGroupMembers g => Mem.CountGroupMembers g
  | OListUserGroupIds u => Mem.ListUserGroupIds u
  | OLockConversation id t g now => Mem.LockConversation id t g now
  | OGetConversation id => Mem.GetConversation id
  | OGetUserConversation o c => Mem.GetUserConversation o c
  | OGetUserConversationRow o c => Mem.GetUserConversationRow o c
  | OUpsertUserConversation uc => Mem.UpsertUserConversation uc
  | ODeleteUserConversation o c => Mem.DeleteUserConversation o c
  | OVisibleOwners c ids s => Mem.VisibleOwners c ids s
  | OMutedOwners c ids => Mem.MutedOwners c ids
  | OSetUserConversationMaxSeq o c s => Mem.SetUserConversationMaxSeq o c s
  | OSetUserConversationOpt o c opt pin => Mem.SetUserConversationOpt o c opt pin
  | OCreateUserConversations ucs => Mem.CreateUserConversations ucs
  | OGetMessageByClientId c s m => Mem.GetMessageByClientId c s m
  | OInsertMessage m => Mem.InsertMessage m
  | OSetConversationMaxSeq c s now => Mem.SetConversationMaxSeq c s now
  | OListMessages c b e l => Mem.ListMessages c b e l
  | OGetMessages ks => Mem.GetMessages ks
  | OTouchUserConversation uc s => Mem.TouchUserConversation uc s
  | OTouchConversationMembers c now => Mem.TouchConversationMembers c now
  | OAdvanceReadSeq o c s => Mem.AdvanceReadSeq o c s
  | OListUserConversations o cur l => Mem.ListUserConversations o cur l
  | OUpsertOnlineConn c => Mem.UpsertOnlineConn c
  | ODeleteOnlineConn id => Mem.DeleteOnlineConn id
  | ORenewOnlineConns nd ids now => Mem.RenewOnlineConns nd ids now
  | OListOnlineConns ids since => Mem.ListOnlineConns ids since
  | ODeleteOnlineConnsByNode nd => Mem.DeleteOnlineConnsByNode nd
  end.
End Mem.

(** ** Answers, stores and calls *)

(** Lists in no promised order agree up to permutation, every other answer is the same. *)
Definition same_list {A} (r : result (list A)) (r' : option (result (list A))) : Prop :=
  match r, r' with Ok l, Some (Ok l') => l ≡ₚ l' | Err e, Some (Err e') => e = e' | _, _ => False end.

Definition same_answer {A} (o : StoreOp A) : result A → option (result A) → Prop :=
  match o with
  | OGetUsers _ | OListUserGroupIds _ | OVisibleOwners _ _ _ | OMutedOwners _ _ | OGetMessages _ | OListOnlineConns _ _ => same_list
  | _ => λ r r', r' = Some r
  end.

(** Rows are stored under their keys; messages have distinct seqs in the range of [int64]. *)
Record store_wf (d : Db) : Prop := {
  sw_users : ∀ id u, users d !! id = Some u → User_Id u = id;
  sw_members : ∀ g u m, members d !! (g, u) = Some m → GM_GroupId m = g ∧ GM_UserId m = u;
  sw_ucs : ∀ o c uc, userConvs d !! (o, c) = Some uc → UC_OwnerId uc = o ∧ UC_ConversationId uc = c;
  sw_keys : NoDup (map (λ m, mkMessageKey (Msg_ConversationId m) (Msg_Seq m)) (messages d));
  sw_seqs : Forall (λ m, 0 ≤ Msg_Seq m ≤ maxInt64) (messages d) }.

(** What the services keep to when they call the store. *)
Definition usable {A} (o : StoreOp A) (d : Db) : Prop :=
  match o with
  | OGetUsers ids | OVisibleOwners _ ids _ | OMutedOwners _ ids => NoDup ids
  | OGetUserByUsername n => ∀ i j u v, users d !! i = Some u → users d !! j = Some v → User_Username u = n → User_Username v = n → i = j
  | OCreateGroup g ms => NoDup (map (λ m, (GM_GroupId m, GM_UserId m)) ms) ∧ ∀ m, m ∈ ms → members d !! (GM_GroupId m, GM_UserId m) = None
  | OInsertMessage m => 0 ≤ Msg_Seq m ≤ maxInt64
  | OSetConversationMaxSeq c _ _ => is_Some (convs d !! c)
  | OListMessages _ _ _ limit => 0 ≤ limit < 2 ^ 31
  | OListUserConversations o _ limit => 0 ≤ limit < 2 ^ 31 ∧ ∀ c uc, userConvs d !! (o, c) = Some uc → is_Some (convs d !! c)
  | OGetMessages ks => NoDup ks
  | OTouchUserConversation uc s =>
      is_Some (userConvs d !! (UC_OwnerId uc, UC_ConversationId uc)) ∨
      UC_RecvMsgOpt uc = 0 ∧ UC_IsPinned uc = false ∧ UC_Extra uc = ""%string ∧ UC_ReadSeq uc ≤ s
  | _ => True
  end.

(** ** Lemmas *)

Lemma find_head {A} (f : A → bool) l : List.find f l = head (keep f l).
Proof. induction l as [|x l IH]; simpl; [done|]. by destruct (f x). Qed.

Lemma count_loop {A} (f : A → bool) l n : foldl (λ c x, if f x then c + 1 else c) n l = n + Z.of_nat (length (keep f l)).
Proof. revert n. induction l as [|x l IH]; intros n; simpl; [lia|]. rewrite IH. destruct (f x); simpl; lia. Qed.

(** Lists without duplicates that have the same elements. *)
Lemma perm_of_elems {A} (l l' : list A) : NoDup l → NoDup l' → (∀ x, x ∈ l ↔ x ∈ l') → l ≡ₚ l'.
Proof. apply NoDup_Permutation. Qed.


(** The rows of a table whose rows know their keys. *)
Lemma rows_NoDup {K A} `{Countable K} (m : gmap K A) : (∀ i j x, m !! i = Some x → m !! j = Some x → i = j) → NoDup (rows m).
Proof.
  intros Hk. unfold rows. apply NoDup_fmap_2_strong; [|apply NoDup_map_to_list].
  intros [i x] [j y] Hi%elem_of_map_to_list Hj%elem_of_map_to_list E. simpl in E. subst y. f_equal. eauto.
Qed.

Lemma keep_NoDup {A} (f : A → bool) l : NoDup l → NoDup (keep f l).
Proof. intros H. apply NoDup_ListNoDup, List.NoDup_filter. by apply NoDup_ListNoDup. Qed.

(** The comparisons of the two drivers. *)
Lemma strings_Compare_leb a b : (strings_Compare a b <=? 0) = String.leb a b.
Proof.
  unfold strings_Compare. unfold String.ltb, String.leb. rewrite (String.compare_antisym b a). by destruct (String.compare a b).
Qed.

Lemma by_time_then_text t t' a b :
  ((let order := Compare t t' in if negb (order =? 0) then order else strings_Compare a b) <=? 0) = (t <? t') || ((t =? t') && String.leb a b).
Proof.
  unfold Compare. destruct (Z.ltb_spec t t'); simpl; [done|]. destruct (Z.ltb_spec t' t); simpl.
  - destruct (Z.eqb_spec t t'); [lia|done].
  - destruct (Z.eqb_spec t t'); [|lia]. simpl. apply strings_Compare_leb.
Qed.

#[export] Instance member_leb_total : Total (λ a b, Is_true (member_leb a b)).
Proof.
  intros a b. unfold member_leb. rewrite !Is_true_true, !orb_true_iff, !andb_true_iff, !Z.ltb_lt, !Z.eqb_eq, <- !Is_true_true.
  destruct (total String.le (GM_UserId a) (GM_UserId b)) as [H|H]; unfold String.le in H; destruct (Z.lt_trichotomy (GM_JoinedAt a) (GM_JoinedAt b)) as [|[|]]; auto.
Qed.

#[export] Instance member_leb_trans : Transitive (λ a b, Is_true (member_leb a b)).
Proof.
  intros a b c. unfold member_leb. rewrite !Is_true_true, !orb_true_iff, !andb_true_iff, !Z.ltb_lt, !Z.eqb_eq, <- !Is_true_true.
  intros [?|[? H1]] [?|[? H2]]; try (left; lia). right. split; [lia|]. change (String.le (GM_UserId a) (GM_UserId c)). by transitivity (GM_UserId b).
Qed.

Lemma member_leb_anti a b : Is_true (member_leb a b) → Is_true (member_leb b a) → GM_UserId a = GM_UserId b.
Proof.
  unfold member_leb. rewrite !Is_true_true, !orb_true_iff, !andb_true_iff, !Z.ltb_lt, !Z.eqb_eq, <- !Is_true_true.
  intros [?|[? H1]] [?|[? H2]]; try lia. by apply (anti_symm String.le).
Qed.

Lemma omap_NoDup {A B} (f : A → option B) l :
  (∀ x y z, f x = Some z → f y = Some z → x = y) → NoDup l → NoDup (omap f l).
Proof.
  intros Hf. induction 1 as [|x l Hx _ IH]; simpl; [constructor|]. destruct (f x) as [z|] eqn:E; [|done]. constructor; [|done].
  rewrite list_elem_of_omap. intros (y & Hy & Ey). by rewrite (Hf x y z E Ey) in Hx.
Qed.

Lemma copy_members_fold ms : ∀ t,
  NoDup (map (λ m, (GM_GroupId m, GM_UserId m)) ms) → (∀ m, m ∈ ms → t !! (GM_GroupId m, GM_UserId m) = None) →
  Gen.copy_members ms t = Some (foldl Mem.put_member t ms).
Proof.
  induction ms as [|m ms IH]; intros t Hnd Hn; simpl; [done|]. apply NoDup_cons in Hnd as [Hm Hnd]. rewrite Hn by set_solver.
  apply IH; [done|]. intros m' Hm'. unfold Mem.put_member. rewrite lookup_insert_ne; [apply Hn; set_solver|]. intros E. apply Hm. rewrite E.
  apply (list_elem_of_fmap_2 (λ m, (GM_GroupId m, GM_UserId m)) ms m' Hm').
Qed.

Lemma copy_userConvs_fold ucs : ∀ t t0 seen,
  (∀ k, t !! k = None ↔ t0 !! k = None ∧ k ∉ seen) →
  Gen.copy_userConvs (map (λ uc, UC_set_CreatedAt uc (UC_UpdatedAt uc)) ucs) t =
    if Mem.duplicate ucs t0 seen then None else Some (foldl Mem.put_uc t ucs).
Proof.
  induction ucs as [|uc ucs IH]; intros t t0 seen Ht; simpl; [done|]. set (k := (UC_OwnerId uc, UC_ConversationId uc)). pose proof (Ht k) as Hk.
  destruct (t0 !! k) as [x|] eqn:E0; [destruct (t !! k); [done|]; destruct Hk as [Hk _]; by destruct (Hk eq_refl)|].
  case_bool_decide as Hs.
  - destruct (t !! k); [done|]. destruct Hk as [Hk _]. by destruct (Hk eq_refl).
  - replace (t !! k) with (@None UserConversation) by (symmetry; by apply Hk). apply IH. intros k'. unfold Mem.put_uc. simpl. fold k. destruct (decide (k' = k)) as [->|Hne].
    + rewrite lookup_insert_eq. set_solver.
    + rewrite lookup_insert_ne by done. rewrite Ht. set_solver.
Qed.

Lemma set_UpdatedAt_same uc : UC_set_UpdatedAt uc (UC_UpdatedAt uc) = uc.
Proof. by destruct uc. Qed.

Lemma LIMIT_upto {A} limit (l l' : list A) :
  0 ≤ limit < 2 ^ 31 → l = l' → Ok <$> upto limit l' = Some (wrapq (LIMIT (i32 limit) l)).
Proof.
  intros Hl <-. unfold LIMIT, upto. replace (i32 limit) with limit.
  - replace (limit <? 0) with false by lia. cbv zeta. replace (Z.min (Z.of_nat (length l)) limit <? 0) with false by (symmetry; apply Z.ltb_ge, Z.min_glb; lia). simpl. do 2 f_equal.
    destruct (Z.le_gt_cases limit (Z.of_nat (length l))); [by rewrite Z.min_r|]. rewrite Z.min_l by lia. by rewrite !take_ge by lia.
  - unfold i32, wrap. simpl (32 - 1). rewrite Z.mod_small; lia.
Qed.

Lemma sorted_messages d c b e :
  store_wf d →
  let l := keep (λ m, (Msg_ConversationId m =? c)%string && (b <=? Msg_Seq m) && (Msg_Seq m <=? e)) (messages d) in
  sortBy seq_leb l = SortFunc (λ x y, i64 (Msg_Seq x - Msg_Seq y)) l.
Proof.
  intros Hw l. unfold SortFunc. apply (sortBy_ext (λ m, 0 ≤ Msg_Seq m ≤ maxInt64)).
  - intros x y Hx Hy. unfold seq_leb. rewrite i64_id by (unfold minInt64, maxInt64 in *; lia). destruct (Z.leb_spec (Msg_Seq x) (Msg_Seq y)), (Z.leb_spec (Msg_Seq x - Msg_Seq y) 0); lia || done.
  - apply Forall_forall. intros m [Hm _]%elem_of_keep. pose proof (sw_seqs d Hw) as Hs. rewrite Forall_forall in Hs. by apply Hs.
Qed.

Lemma messages_by_keys d ks :
  NoDup ks → store_wf d →
  keep (λ m, bool_decide (mkMessageKey (Msg_ConversationId m) (Msg_Seq m) ∈ ks)) (messages d) =
  flat_map (λ m, map (λ _, m) (keep (λ '(c, s), (c =? Msg_ConversationId m)%string && (s =? Msg_Seq m)) (combine (map MK_ConversationId ks) (map MK_Seq ks)))) (messages d).
Proof.
  intros Hnd _. unfold keep. induction (messages d) as [|m l IH]; [done|]. cbn [List.filter flat_map].
  assert (map (λ _, m) (List.filter (λ '(c, s), (c =? Msg_ConversationId m)%string && (s =? Msg_Seq m)) (combine (map MK_ConversationId ks) (map MK_Seq ks)))
    = if bool_decide (mkMessageKey (Msg_ConversationId m) (Msg_Seq m) ∈ ks) then [m] else []) as ->; [|rewrite <- IH; by case_bool_decide].
  clear IH. induction Hnd as [|[c s] ks Hk _ IH]; [done|]. cbn [combine map List.filter MK_ConversationId MK_Seq].
  destruct (String.eqb_spec c (Msg_ConversationId m)) as [->|Hc]; [destruct (Z.eqb_spec s (Msg_Seq m)) as [->|Hs]|]; cbn [andb map].
  - rewrite IH, bool_decide_eq_false_2 by done. by rewrite bool_decide_eq_true_2 by set_solver.
  - rewrite IH. repeat case_bool_decide; set_solver.
  - rewrite IH. repeat case_bool_decide; set_solver.
Qed.

(** ** A call keeps the store well-formed *)

(** A table whose rows are stored under their own keys. *)
Definition keyed {K A} `{Countable K} (key_of : A → K) (m : gmap K A) : Prop := map_Forall (λ k x, key_of x = k) m.

Definition log_ok (l : list Message) : Prop :=
  NoDup (map (λ m, mkMessageKey (Msg_ConversationId m) (Msg_Seq m)) l) ∧ Forall (λ m, 0 ≤ Msg_Seq m ≤ maxInt64) l.

Lemma store_wf_keyed d :
  store_wf d ↔ keyed User_Id (users d) ∧ keyed (λ m, (GM_GroupId m, GM_UserId m)) (members d)
             ∧ keyed (λ uc, (UC_OwnerId uc, UC_ConversationId uc)) (userConvs d) ∧ log_ok (messages d).
Proof.
  split.
  - intros [H1 H2 H3 H4 H5]. split_and!; [exact H1| | |done].
    + intros [g u] m [<- <-]%H2. done.
    + intros [o c] uc [<- <-]%H3. done.
  - intros (H1 & H2 & H3 & H4 & H5). split; [exact H1| | |done|done].
    + intros g u m [= <- <-]%H2. done.
    + intros o c uc [= <- <-]%H3. done.
Qed.

Section Keyed.
Context {K A} `{Countable K} (key_of : A → K).
Implicit Types m : gmap K A.

Lemma keyed_insert m k x : key_of x = k → keyed key_of m → keyed key_of (<[k := x]> m).
Proof. intros ? ?. by apply map_Forall_insert_2. Qed.

Lemma keyed_delete m k : keyed key_of m → keyed key_of (delete k m).
Proof. apply map_Forall_delete. Qed.

Lemma keyed_alter m f k : (∀ x, key_of (f x) = key_of x) → keyed key_of m → keyed key_of (alter f k m).
Proof. intros Hf Hm i x. rewrite lookup_alter_Some. intros [(-> & y & Hy & ->)|[_ Hi]]; [rewrite Hf|]; by apply Hm. Qed.

Lemma keyed_fmap m f : (∀ x, key_of (f x) = key_of x) → keyed key_of m → keyed key_of (f <$> m).
Proof. intros Hf Hm i x. rewrite lookup_fmap_Some. intros (y & <- & Hy). rewrite Hf. by apply Hm. Qed.
End Keyed.

Create HintDb keyed.
#[export] Hint Resolve keyed_insert keyed_delete keyed_alter keyed_fmap : keyed.

Lemma copy_members_keyed ms : ∀ t t',
  Gen.copy_members ms t = Some t' → keyed (λ m, (GM_GroupId m, GM_UserId m)) t → keyed (λ m, (GM_GroupId m, GM_UserId m)) t'.
Proof. induction ms as [|m ms IH]; simpl; intros t t'; [by intros [= ->]|]. destruct (t !! _); [done|]. intros E Ht. eauto with keyed. Qed.

Lemma copy_userConvs_keyed ucs : ∀ t t',
  Gen.copy_userConvs ucs t = Some t' →
  keyed (λ uc, (UC_OwnerId uc, UC_ConversationId uc)) t → keyed (λ uc, (UC_OwnerId uc, UC_ConversationId uc)) t'.
Proof. induction ucs as [|uc ucs IH]; simpl; intros t t'; [by intros [= ->]|]. destruct (t !! _); [done|]. intros E Ht. eauto with keyed. Qed.

Lemma log_ok_append m l :
  0 ≤ Msg_Seq m ≤ maxInt64 → existsb (Gen.conflicts m) l = false → log_ok l → log_ok (l ++ [m]).
Proof.
  intros Hm Hc [H1 H2]. split.
  - rewrite map_app. apply NoDup_app. split_and!; [done| |apply NoDup_singleton]. intros k Hk ->%list_elem_of_singleton.
    apply list_elem_of_fmap in Hk as (x & [= Ec Es] & Hx). apply not_true_iff_false in Hc. apply Hc, existsb_exists. exists x.
    split; [by apply list_elem_of_In|]. unfold Gen.conflicts. by rewrite <- Ec, <- Es, String.eqb_refl, Z.eqb_refl, orb_true_r.
  - apply Forall_app. auto.
Qed.

Ltac tables d Hw :=
  apply store_wf_keyed; apply store_wf_keyed in Hw as (? & ? & ? & ?); destruct d; simpl in *; split_and!; eauto with keyed.

Lemma pg_wf {A} (o : StoreOp A) d : store_wf d → usable o d → store_wf (pg o d).2.
Proof.
  intros Hw Hu. destruct o; cbn [pg]; try exact Hw.
  - unfold CreateUser, executing, Gen.CreateUser. destruct (users d !! User_Id u); [done|]. tables d Hw.
  - unfold UpdateUserProfile, Gen.UpdateUserProfile. destruct (users d !! id) as [u|] eqn:E; [|done]. pose proof (sw_users d Hw _ _ E). tables d Hw.
  - unfold UpsertUser, executing, Gen.UpsertUser. destruct (users d !! User_Id u) as [u'|] eqn:E; [pose proof (sw_users d Hw _ _ E)|]; tables d Hw.
  - unfold CreateGroup, Gen.CreateGroup. destruct (groups d !! Group_Id g); [done|]. unfold Gen.AddGroupMembers. simpl.
    destruct (Gen.copy_members ms (members d)) as [t|] eqn:E; [pose proof (copy_members_keyed ms _ _ E)|]; tables d Hw.
  - unfold AddGroupMember, executing, Gen.AddGroupMember. destruct (members d !! _); [done|]. tables d Hw.
  - unfold RemoveGroupMember, Gen.RemoveGroupMember. destruct (members d !! _); [|done]. tables d Hw.
  - unfold LockConversation, Gen.InsertConversationIfMissing. destruct (convs d !! id) eqn:E; simpl; [done|]. tables d Hw.
  - unfold UpsertUserConversation, executing, Gen.UpsertUserConversation. destruct (userConvs d !! _) as [cur|] eqn:E.
    + destruct (sw_ucs d Hw _ _ _ E) as [<- <-]. tables d Hw.
    + tables d Hw.
  - tables d Hw.
  - unfold VisibleOwners. by destruct (length ids =? 0)%nat.
  - unfold MutedOwners. by destruct (length ids =? 0)%nat.
  - tables d Hw.
  - unfold SetUserConversationOpt, Gen.SetUserConversationOpt. destruct (userConvs d !! (o, c)) as [uc|] eqn:E; [|done].
    destruct (sw_ucs d Hw _ _ _ E) as [<- <-]. tables d Hw.
  - unfold CreateUserConversations, Gen.CreateUserConversations. destruct (length ucs =? 0)%nat; [done|].
    destruct (Gen.copy_userConvs _ (userConvs d)) as [t|] eqn:E; [|done]. pose proof (copy_userConvs_keyed _ _ _ E). tables d Hw.
  - unfold InsertMessage, Gen.InsertMessage. destruct (existsb _ _) eqn:E; [done|]. pose proof (log_ok_append _ _ Hu E). tables d Hw.
  - tables d Hw.
  - unfold GetMessages. by destruct (length keys =? 0)%nat.
  - unfold TouchUserConversation, executing, Gen.TouchUserConversation. destruct (userConvs d !! _) as [cur|] eqn:E.
    + destruct (sw_ucs d Hw _ _ _ E) as [<- <-]. tables d Hw.
    + tables d Hw.
  - tables d Hw. apply keyed_fmap; [|done]. intros uc. by destruct (_ && _).
  - tables d Hw.
  - tables d Hw.
  - tables d Hw.
  - unfold RenewOnlineConns. destruct (length ids =? 0)%nat; [done|]. tables d Hw.
  - unfold ListOnlineConns. by destruct (length ids =? 0)%nat.
  - tables d Hw.
Qed.

Section Equivalence.
Context `{GR : GoRange}.

Lemma owners_agree d c ids (p : UserConversation → bool) :
  store_wf d → NoDup ids →
  map UC_OwnerId (keep (λ uc, (UC_ConversationId uc =? c)%string && in_list (UC_OwnerId uc) ids && p uc) (rows (userConvs d))) ≡ₚ
  keep (λ id, match userConvs d !! (id, c) with Some uc => p uc | None => false end) ids.
Proof.
  intros Hw Hnd. apply perm_of_elems; [|by apply keep_NoDup|].
  - apply NoDup_fmap_2_strong.
    + intros x y [[[o1 c1] Hx]%elem_of_rows Px]%elem_of_keep [[[o2 c2] Hy]%elem_of_rows Py]%elem_of_keep E. bool_prop.
      destruct (sw_ucs d Hw _ _ _ Hx), (sw_ucs d Hw _ _ _ Hy). congruence.
    + apply keep_NoDup, rows_NoDup. intros [o1 c1] [o2 c2] x Hx Hy. destruct (sw_ucs d Hw _ _ _ Hx), (sw_ucs d Hw _ _ _ Hy). congruence.
  - intros x. rewrite elem_of_keep, list_elem_of_fmap. split.
    + intros (uc & -> & [[[o c'] Hk]%elem_of_rows Hp]%elem_of_keep). destruct (sw_ucs d Hw _ _ _ Hk) as [Eo Ec]. unfold in_list in Hp. bool_prop.
      subst. split; [done|]. by rewrite Hk.
    + intros [Hx Hp]. destruct (userConvs d !! (x, c)) as [uc|] eqn:E; [|done]. destruct (sw_ucs d Hw _ _ _ E) as [Eo Ec].
      exists uc. split; [done|]. apply elem_of_keep. split; [apply elem_of_rows; eauto|]. unfold in_list.
      by rewrite Ec, String.eqb_refl, Hp, Eo, bool_decide_eq_true_2.
Qed.

Lemma members_agree d g :
  store_wf d → sortBy member_leb (keep (λ m, (GM_GroupId m =? g)%string) (rows (members d))) = Mem.sortedMembers (λ m, (GM_GroupId m =? g)%string) d.
Proof.
  intros Hw. unfold Mem.sortedMembers, SortFunc.
  etransitivity; [|apply (sortBy_ext (λ _, True) member_leb); [intros x y _ _; symmetry; apply by_time_then_text|by apply Forall_forall]].
  apply (sortBy_perm member_leb); [|apply keep_Permutation; symmetry; apply range_perm].
  intros x y [[[g1 u1] Hx]%elem_of_rows Px]%elem_of_keep [[[g2 u2] Hy]%elem_of_rows Py]%elem_of_keep H1 H2.
  pose proof (member_leb_anti _ _ H1 H2). bool_prop. destruct (sw_members d Hw _ _ _ Hx), (sw_members d Hw _ _ _ Hy).
  assert (g1 = g2) by congruence. assert (u1 = u2) by congruence. congruence.
Qed.

Lemma username_agree d n :
  usable (OGetUserByUsername n) d →
  head (keep (λ u, (User_Username u =? n)%string) (rows (users d))) = List.find (λ u, (User_Username u =? n)%string) (range (users d)).
Proof.
  intros Hu. rewrite find_head. pose proof (keep_Permutation (λ u, (User_Username u =? n)%string) _ _ (range_perm (users d))) as Hp.
  assert (∀ u v, u ∈ keep (λ u, (User_Username u =? n)%string) (rows (users d)) → v ∈ keep (λ u, (User_Username u =? n)%string) (rows (users d)) → u = v) as Hone.
  { intros u v [[i Hi]%elem_of_rows Ei]%elem_of_keep [[j Hj]%elem_of_rows Ej]%elem_of_keep. bool_prop. assert (i = j) by (eapply Hu; eauto). congruence. }
  revert Hp Hone. generalize (keep (λ u, (User_Username u =? n)%string) (rows (users d))) (keep (λ u, (User_Username u =? n)%string) (range (users d))).
  intros [|x l] k Hp Hone; [by apply Permutation_nil_r in Hp as ->|]. destruct k as [|y k]; [by apply Permutation_nil_cons in Hp|]. simpl. f_equal.
  apply Hone; [left|]. rewrite <- Hp. left.
Qed.

Lemma rows_agree d o cur :
  store_wf d → (∀ c uc, userConvs d !! (o, c) = Some uc → is_Some (convs d !! c)) →
  sortBy row_leb (flat_map (Gen.joined d) (keep (λ uc, (UC_OwnerId uc =? o)%string
     && cursor_ltb (UC_UpdatedAt uc) (UC_ConversationId uc) (LC_UpdatedAt cur) (LC_ConversationId cur)) (rows (userConvs d)))) =
  SortFunc (λ a b, let order := Compare (UC_UpdatedAt (Row_UC b)) (UC_UpdatedAt (Row_UC a)) in
                if negb (order =? 0) then order else strings_Compare (UC_ConversationId (Row_UC b)) (UC_ConversationId (Row_UC a)))
    (map (λ uc, mkUCRow uc (match convs d !! UC_ConversationId uc with Some c => Conv_MaxSeq c | None => 0 end))
      (keep (λ uc, (UC_OwnerId uc =? o)%string
                   && (Before (UC_UpdatedAt uc) (LC_UpdatedAt cur)
                       || ((UC_UpdatedAt uc =? LC_UpdatedAt cur) && String.ltb (UC_ConversationId uc) (LC_ConversationId cur))))
        (range (userConvs d)))).
Proof.
  intros Hw Hc. unfold SortFunc. etransitivity; [|apply (sortBy_ext (λ _, True) row_leb); [intros x y _ _; symmetry; apply by_time_then_text|by apply Forall_forall]].
  set (f := λ uc, (UC_OwnerId uc =? o)%string && cursor_ltb (UC_UpdatedAt uc) (UC_ConversationId uc) (LC_UpdatedAt cur) (LC_ConversationId cur)).
  change (keep (λ uc, (UC_OwnerId uc =? o)%string && (Before _ _ || _)) (range (userConvs d))) with (keep f (range (userConvs d))).
  set (h := λ uc, mkUCRow uc (match convs d !! UC_ConversationId uc with Some c => Conv_MaxSeq c | None => 0 end)).
  assert (∀ uc, uc ∈ keep f (rows (userConvs d)) → userConvs d !! (o, UC_ConversationId uc) = Some uc) as Hrow.
  { intros uc [[[o' c] Hk]%elem_of_rows Hf]%elem_of_keep. unfold f in Hf. bool_prop. destruct (sw_ucs d Hw _ _ _ Hk) as [<- <-]. by rewrite <- H. }
  assert (flat_map (Gen.joined d) (keep f (rows (userConvs d))) = map h (keep f (rows (userConvs d)))) as ->.
  { revert Hrow. generalize (keep f (rows (userConvs d))). induction l as [|uc l IH]; intros Hrow; simpl; [done|]. rewrite IH by set_solver.
    unfold Gen.joined, h. destruct (Hc _ _ (Hrow uc ltac:(set_solver))) as [c ->]. done. }
  apply (sortBy_perm row_leb); [|apply (fmap_Permutation h), keep_Permutation; symmetry; apply range_perm].
  intros x y Hx Hy H1 H2. apply list_elem_of_fmap in Hx as (u & -> & Hu). apply list_elem_of_fmap in Hy as (v & -> & Hv).
  f_equal. apply Hrow in Hu, Hv. assert (UC_ConversationId u = UC_ConversationId v) as E; [|rewrite E in Hu; congruence].
  revert H1 H2. unfold row_leb. simpl. rewrite !Is_true_true, !orb_true_iff, !andb_true_iff, !Z.ltb_lt, !Z.eqb_eq, <- !Is_true_true.
  intros [?|[? H1]] [?|[? H2]]; try lia. by apply (anti_symm String.le).
Qed.

Lemma alter_insert_row {K V} `{Countable K} (f : V → V) (m : gmap K V) k x : m !! k = Some x → alter f k m = <[k := f x]> m.
Proof.
  intros E. apply map_eq. intros j. destruct (decide (j = k)) as [->|Hne]; [by rewrite lookup_alter_eq, lookup_insert_eq, E|].
  by rewrite lookup_alter_ne, lookup_insert_ne.
Qed.

(** One method: the same answer and the same tables. *)
Lemma mem_agrees {A} (o : StoreOp A) d :
  store_wf d → usable o d → same_answer o (pg o d).1 (mem o d).1 ∧ (mem o d).2 = (pg o d).2.
Proof.
  intros Hw Hu. destruct o; cbn [pg mem same_answer].
  - unfold GetUser, Mem.GetUser, reading, found, Gen.GetUser. by destruct (users d !! id).
  - split; [|done]. simpl. apply perm_of_elems; [apply keep_NoDup, rows_NoDup| |].
    + intros i j x Hi Hj. by rewrite <- (sw_users d Hw _ _ Hi), <- (sw_users d Hw _ _ Hj).
    + apply omap_NoDup; [|exact Hu]. intros x y z Hx Hy. by rewrite <- (sw_users d Hw _ _ Hx), <- (sw_users d Hw _ _ Hy).
    + intros u. rewrite elem_of_keep, elem_of_rows, list_elem_of_omap. unfold in_list. split.
      * intros [[i Hi] Hin]. bool_prop. rewrite (sw_users d Hw _ _ Hi) in Hin. eauto.
      * intros (i & Hi & E). split; [eauto|]. rewrite (sw_users d Hw _ _ E). by apply bool_decide_eq_true_2.
  - unfold GetUserByUsername, Mem.GetUserByUsername, reading, found, Gen.GetUserByUsername. rewrite (username_agree d username Hu).
    by destruct (List.find _ _).
  - unfold CreateUser, Mem.CreateUser, executing, Gen.CreateUser. by destruct (users d !! User_Id u).
  - unfold UpdateUserProfile, Mem.UpdateUserProfile, Gen.UpdateUserProfile. by destruct (users d !! id).
  - unfold UpsertUser, Mem.UpsertUser, executing, Gen.UpsertUser. by destruct (users d !! User_Id u).
  - unfold CreateGroup, Mem.CreateGroup, Gen.CreateGroup. destruct (groups d !! Group_Id g); [done|]. destruct Hu as [H1 H2].
    unfold Gen.AddGroupMembers. simpl. by rewrite (copy_members_fold ms (members d) H1 H2).
  - unfold GetGroup, Mem.GetGroup, reading, found, Gen.GetGroup. by destruct (groups d !! id).
  - unfold AddGroupMember, Mem.AddGroupMember, executing, Gen.AddGroupMember. by destruct (members d !! _).
  - unfold RemoveGroupMember, Mem.RemoveGroupMember, Gen.RemoveGroupMember. destruct (members d !! (g, u)) eqn:E; [done|].
    split; [done|]. simpl. rewrite delete_id by done. by destruct d.
  - unfold GetGroupMember, Mem.GetGroupMember, reading, found, Gen.GetGroupMember. by destruct (members d !! (g, u)).
  - split; [|done]. simpl. by rewrite (members_agree d g Hw).
  - split; [|done]. unfold Mem.CountGroupMembers. simpl. rewrite count_loop, Z.add_0_l. do 3 f_equal.
    apply Permutation_length, keep_Permutation, range_perm.
  - split; [|done]. simpl. apply (fmap_Permutation GM_GroupId). unfold Mem.sortedMembers, SortFunc, sortBy. rewrite !merge_sort_Permutation.
    apply keep_Permutation. symmetry. apply range_perm.
  - unfold LockConversation, Mem.LockConversation, Gen.InsertConversationIfMissing, Gen.LockConversation. destruct (convs d !! id) eqn:E; simpl.
    + by rewrite E.
    + by rewrite lookup_insert_eq.
  - unfold GetConversation, Mem.GetConversation, reading, found, Gen.GetConversation. by destruct (convs d !! id).
  - unfold GetUserConversation, Mem.GetUserConversation, reading, found, Gen.GetUserConversation. by destruct (userConvs d !! (o, c)).
  - unfold GetUserConversationRow, Mem.GetUserConversationRow, reading, Gen.GetUserConversationRow.
    destruct (userConvs d !! (o, c)), (convs d !! c); done.
  - unfold UpsertUserConversation, Mem.UpsertUserConversation, executing, Gen.UpsertUserConversation. by destruct (userConvs d !! _).
  - done.
  - unfold VisibleOwners, Mem.VisibleOwners. destruct ids as [|i0 ids]; [by split; [simpl|]|]. split; [|done]. unfold reading. cbn -[bool_decide in_list keep].
    rewrite <- (owners_agree d c (i0 :: ids) (λ uc, (UC_MinSeq uc <=? s) && ((UC_MaxSeq uc =? 0) || (s <=? UC_MaxSeq uc))) Hw Hu).
    unfold keep. erewrite filter_ext; [reflexivity|]. intros uc. simpl. by rewrite !andb_assoc.
  - unfold MutedOwners, Mem.MutedOwners. destruct ids as [|i0 ids]; [by split; [simpl|]|]. split; [|done].
    exact (owners_agree d c (i0 :: ids) (λ uc, negb (UC_RecvMsgOpt uc =? 0)) Hw Hu).
  - unfold SetUserConversationMaxSeq, Mem.SetUserConversationMaxSeq, executing, Gen.SetUserConversationMaxSeq. simpl.
    destruct (userConvs d !! (o, c)) as [uc|] eqn:E; (split; [done|]); simpl.
    + by rewrite (alter_insert_row _ _ _ uc).
    + rewrite alter_id by (intros ? [=]; congruence). by destruct d.
  - unfold SetUserConversationOpt, Mem.SetUserConversationOpt, Gen.SetUserConversationOpt. by destruct (userConvs d !! (o, c)).
  - unfold CreateUserConversations, Mem.CreateUserConversations, Gen.CreateUserConversations.
    destruct ucs as [|uc ucs]; [simpl; split; [done|by destruct d]|]. simpl (length _ =? 0)%nat. cbv iota.
    cbv beta. rewrite (copy_userConvs_fold (uc :: ucs) (userConvs d) (userConvs d) ∅) by set_solver. by destruct (Mem.duplicate _ _ _).
  - unfold GetMessageByClientId, Mem.GetMessageByClientId, reading, found, Gen.GetMessageByClientId. rewrite find_head. by destruct (head _).
  - unfold InsertMessage, Mem.InsertMessage, Gen.InsertMessage. change (existsb (λ cur, _) (messages d)) with (existsb (Gen.conflicts m) (messages d)).
    by destruct (existsb _ _).
  - unfold SetConversationMaxSeq, Mem.SetConversationMaxSeq, executing, Gen.SetConversationMaxSeq. destruct Hu as [cv E]. simpl. rewrite E. split; [done|].
    simpl. by rewrite (alter_insert_row _ _ _ cv).
  - split; [|done]. simpl. apply LIMIT_upto; [exact Hu|]. by apply sorted_messages.
  - split; [|unfold GetMessages; by destruct (length keys =? 0)%nat]. unfold GetMessages, Mem.GetMessages.
    destruct (Nat.eqb_spec (length keys) 0) as [E|_]; simpl.
    + apply length_zero_iff_nil in E as ->. by induction (messages d).
    + by rewrite (messages_by_keys d keys Hu Hw).
  - unfold TouchUserConversation, Mem.TouchUserConversation, executing, Gen.TouchUserConversation. split; [done|]. simpl. unfold GREATEST, After.
    destruct (userConvs d !! (UC_OwnerId uc, UC_ConversationId uc)) as [cur|] eqn:E; simpl.
    + do 3 f_equal. destruct (Z.ltb_spec (UC_UpdatedAt uc) (UC_UpdatedAt cur)); lia.
    + destruct Hu as [[x Hx]|(E1 & E2 & E3 & E4)]; [congruence|]. do 2 f_equal. rewrite Z.ltb_irrefl. unfold UC_set_seqs. simpl. rewrite E1, E2, E3, Z.max_r by lia. done.
  - unfold TouchConversationMembers, Mem.TouchConversationMembers, executing, Gen.TouchConversationMembers. split; [done|]. simpl. f_equal.
    apply map_fmap_ext. intros k uc _. unfold GREATEST, After. destruct (_ && (UC_MaxSeq uc =? 0)); simpl; [|done].
    destruct (Z.ltb_spec (UC_UpdatedAt uc) now); [by rewrite Z.max_r by lia|]. by rewrite Z.max_l, set_UpdatedAt_same by lia.
  - unfold AdvanceReadSeq, Mem.AdvanceReadSeq, executing, Gen.AdvanceReadSeq. simpl.
    destruct (userConvs d !! (o, c)) as [uc|] eqn:E; (split; [done|]); simpl.
    + by rewrite (alter_insert_row _ _ _ uc).
    + rewrite alter_id by (intros ? [=]; congruence). by destruct d.
  - split; [|done]. destruct Hu as [Hl Hc]. simpl. apply LIMIT_upto; [exact Hl|]. by apply rows_agree.
  - done.
  - done.
  - unfold RenewOnlineConns, Mem.RenewOnlineConns. destruct ids as [|i0 ids]; [|done]. split; [done|]. cbn -[in_list].
    rewrite (map_fmap_ext _ id), map_fmap_id; [by destruct d|]. intros i c _. unfold in_list. rewrite bool_decide_eq_false_2, andb_false_r by set_solver. done.
  - unfold ListOnlineConns, Mem.ListOnlineConns. destruct ids as [|i0 ids]; cbn -[in_list keep]; (split; [|done]).
    + rewrite keep_none; [done|]. intros c _. unfold in_list. by rewrite bool_decide_eq_false_2 by set_solver.
    + apply keep_Permutation. symmetry. apply range_perm.
  - done.
Qed.
End Equivalence.

(** ** Sequences of calls *)

Lemma dec_iff (P Q : Prop) : Decision P → (P ↔ Q) → Decision Q.
Proof. intros [H|H] E; [left|right]; tauto. Defined.


Inductive Call : Type :=
| call {A} (o : StoreOp A).

Definition pg_state (c : Call) (d : Db) : Db := match c with call o => (pg o d).2 end.

Fixpoint usable_all (cs : list Call) (d : Db) : Prop :=
  match cs with
  | [] => True
  | call o :: cs' => usable o d ∧ usable_all cs' (pg o d).2
  end.

(** The conditions are decidable. *)
#[export] Instance usable_dec {A} (o : StoreOp A) d : Decision (usable o d).
Proof.
  destruct o; try apply _; simpl.
  - apply (dec_iff (map_Forall (λ i u, map_Forall (λ j v, User_Username u = username → User_Username v = username → i = j) (users d)) (users d))); [apply _|].
    unfold map_Forall. naive_solver.
  - apply and_dec; [apply _|]. apply (dec_iff (Forall (λ m, members d !! (GM_GroupId m, GM_UserId m) = None) ms)); [apply _|]. by rewrite Forall_forall.
  - apply and_dec; [apply _|]. apply (dec_iff (map_Forall (λ k _, k.1 = o → is_Some (convs d !! k.2)) (userConvs d))); [apply _|].
    unfold map_Forall. split; [intros H c uc E; by apply (H (o, c) uc)|intros H [o' c] uc E]; simpl. intros ->. eauto.
Defined.

#[export] Instance usable_all_dec cs : ∀ d, Decision (usable_all cs d).
Proof. induction cs as [|[A o] cs IH]; intros d; simpl; apply _. Defined.

Section Runs.
Context `{GR : GoRange}.

(** The two stores run the calls side by side and give the same answers; at the end their tables are the same. *)
Fixpoint alike (cs : list Call) (d m : Db) : Prop :=
  match cs with
  | [] => m = d
  | call o :: cs' => same_answer o (pg o d).1 (mem o m).1 ∧ alike cs' (pg o d).2 (mem o m).2
  end.

Lemma alike_of_usable cs : ∀ d, store_wf d → usable_all cs d → alike cs d d.
Proof.
  induction cs as [|[A o] cs IH]; intros d Hw; [done|]. intros [Hu Hcs]. destruct (mem_agrees o d Hw Hu) as [Ha Hs].
  split; [done|]. rewrite Hs. apply IH; [by apply pg_wf|done].
Qed.
End Runs.


#[local] Instance some_order : GoRange := {| range := λ K A _ _ m, reverse (rows m); range_perm := λ K A _ _ m, reverse_Permutation (rows m) |}.

Definition calls : list Call :=
  let uc o := mkUC o "sg_g" 2 "" "g" 1 0 0 0 false "" 5 5 in
  [call (OCreateUser (mkUser "u1" "ann" "h" "Ann" "" "" 1 1)); call (OCreateUser (mkUser "u1" "bob" "h" "Bob" "" "" 2 2));
   call (OCreateGroup (mkGroup "g" "team" "" "" "u1" 0 "" 3 3) [mkGroupMember "g" "u1" 3 "" "" 3; mkGroupMember "g" "u2" 1 "" "" 3]);
   call (OListGroupMembers "g"); call (OCountGroupMembers "g"); call (OLockConversation "sg_g" 2 "g" 4);
   call (OCreateUserConversations [uc "u1"; uc "u2"]); call (OCreateUserConversations [uc "u2"]);
   call (OInsertMessage (mkMessage "sg_g" 1 "s1" "c1" "u1" "" "g" 2 1 "hi" 6 6)); call (OSetConversationMaxSeq "sg_g" 1 6);
   call (OTouchConversationMembers "sg_g" 6); call (OListMessages "sg_g" 1 10 20); call (OVisibleOwners "sg_g" ["u2"; "u1"; "u3"] 1);
   call (OGetUserByUsername "ann"); call (OListUserConversations "u2" FirstPage 10); call (OGetUser "u9")].

Lemma emptyDb_wf : store_wf emptyDb.
Proof. apply store_wf_keyed. split_and!; [by apply map_Forall_empty..|]. split; constructor. Qed.

