(* ===== verification/ConversationInv.v ===== *)
(** * The conversation service under interleaving *)

From S2P Require Import Prelude Errcode Strconv Identity Json Store PgStore Conv DbInv Conc RateLimit MemberCache World ConvPage MessageSvc ConversationSvc History WorldInv MessageInv Paging.

Local Open Scope Z_scope.

(** ** What an item says *)

(** The item of a row, its last message apart. *)
Definition item_of (d : Db) (o : string) (i : Item) : Prop :=
  ∃ uc, userConvs d !! (o, It_ConversationId i) = Some uc ∧
    i = It_set_LastMessage (itemFromRow (mkUCRow uc (conv_max d (It_ConversationId i)))) (It_LastMessage i).

(** The last message is the one at the visible maximum. *)
Definition last_ok (d : Db) (i : Item) : Prop :=
  match It_LastMessage i with
  | None => True
  | Some dto => It_MinSeq i ≤ It_MaxSeq i ∧
      ∃ m, m ∈ messages d ∧ dto = MessageFromStore m ∧ Msg_ConversationId m = It_ConversationId i ∧ Msg_Seq m = It_MaxSeq i
  end.

(** Unread is the distance from the read cursor to the visible maximum. *)
Lemma item_unread d o i :
  DbOk d → db_bnd d → item_of d o i →
  It_Unread i = vmax d o (It_ConversationId i) - rseq d o (It_ConversationId i) ∧ It_MaxSeq i = vmax d o (It_ConversationId i).
Proof.
  intros Hd Hb (uc & Huc & E). destruct (ok_uc d Hd _ _ _ Huc) as (_ & _ & _ & _ & _ & Hr & _).
  pose proof (VisibleMax_le uc (conv_max d (It_ConversationId i))) as Hle.
  assert (conv_max d (It_ConversationId i) ≤ Z.of_nat (length (messages d))) as Hcm.
  { destruct (ok_seqs d Hd (It_ConversationId i)) as [H0 Hs]. apply (f_equal length) in Hs. unfold seqs_of in Hs.
    rewrite length_map, length_seqZ in Hs. unfold conv_msgs, keep in Hs.
    pose proof (List.filter_length_le (λ m, (Msg_ConversationId m =? It_ConversationId i)%string) (messages d)). lia. }
  unfold db_bnd in Hb. unfold vmax, rseq. rewrite Huc.
  pose proof (f_equal It_Unread E) as Eu. pose proof (f_equal It_MaxSeq E) as Em. simpl in Eu, Em. rewrite Eu, Em.
  rewrite i64_id by (unfold minInt64, maxInt64 in *; lia). split; [lia|done].
Qed.

Lemma elem_of_GetMessages d keys m :
  m ∈ flat_map (λ m, map (λ _, m) (keep (λ '(c, s), (c =? Msg_ConversationId m)%string && (s =? Msg_Seq m)) keys)) (messages d) ↔
  m ∈ messages d ∧ (Msg_ConversationId m, Msg_Seq m) ∈ keys.
Proof.
  rewrite list_elem_of_In, in_flat_map. split.
  - intros (m' & Hm' & Hin). apply in_map_iff in Hin as ([c s] & <- & Hk). apply list_elem_of_In in Hk.
    apply elem_of_keep in Hk as [Hk Hb]. bool_prop. subst. by rewrite list_elem_of_In.
  - intros [Hm Hk]. exists m. rewrite <- list_elem_of_In. split; [done|]. apply in_map_iff.
    exists (Msg_ConversationId m, Msg_Seq m). split; [done|]. apply list_elem_of_In, elem_of_keep. split; [done|].
    by rewrite String.eqb_refl, Z.eqb_refl.
Qed.

Lemma combine_keys (keys : list MessageKey) :
  combine (map MK_ConversationId keys) (map MK_Seq keys) = map (λ k, (MK_ConversationId k, MK_Seq k)) keys.
Proof. induction keys as [|k keys IH]; simpl; [done|]. by rewrite IH. Qed.

Lemma GetMessages_spec keys d ms d' :
  GetMessages keys d = (Ok ms, d') → ∀ m, m ∈ ms ↔ m ∈ messages d ∧ mkMessageKey (Msg_ConversationId m) (Msg_Seq m) ∈ keys.
Proof.
  unfold GetMessages. destruct keys as [|k0 keys0]; [intros [= <- <-]; set_solver|]. remember (k0 :: keys0) as keys.
  replace (length keys =? 0)%nat with false by (by subst). intros [= <- <-] m. rewrite elem_of_GetMessages, combine_keys.
  rewrite list_elem_of_fmap. split; intros [Hm Hk]; (split; [done|]).
  - destruct Hk as ([c s] & [= -> ->] & ?). done.
  - eexists. split; [|exact Hk]. done.
Qed.

Lemma GetMessages_reads keys d : (GetMessages keys d).2 = d.
Proof. unfold GetMessages. by destruct (length keys =? 0)%nat. Qed.

Lemma byConv_spec msgs c :
  match byConv msgs !! c with
  | Some m => m ∈ msgs ∧ Msg_ConversationId m = c
  | None => ∀ m, m ∈ msgs → Msg_ConversationId m ≠ c
  end.
Proof.
  unfold byConv. induction msgs as [|m msgs IH] using rev_ind; simpl.
  - rewrite lookup_empty. intros m Hm. by apply not_elem_of_nil in Hm.
  - rewrite foldl_app. simpl. destruct (decide (Msg_ConversationId m = c)) as [<-|Hne].
    + rewrite lookup_insert_eq. set_solver.
    + rewrite lookup_insert_ne by done. destruct (foldl _ _ msgs !! c) as [x|]; [set_solver|].
      intros y Hy. apply elem_of_app in Hy as [Hy|Hy%list_elem_of_singleton]; [by apply IH|congruence].
Qed.

Section ConversationInv.
Context `{RL : RateLib} `{EN : Env}.
Variable nd : string.

Abbreviation WP := (wp bnd winv wrely).

(** ** MarkRead *)

(** The answer is the old cursor or the requested one clipped to the visible range, whichever is
    larger, and the stored cursor is at least that. *)
Definition read_marked (w0 w : World) (u c : string) (n t : Z) : Prop :=
  ∃ d, during w0 w d ∧ DbOk d ∧ DbLe d (w_db w) ∧ is_Some (userConvs d !! (u, c)) ∧
    t = Z.max (rseq d u c) (Z.min n (vmax d u c)) ∧ t ≤ rseq (w_db w) u c.

Lemma vmax_pos_row d u c : DbOk d → 0 < vmax d u c → is_Some (userConvs d !! (u, c)).
Proof. unfold vmax. destruct (userConvs d !! (u, c)); [eauto|lia]. Qed.

Lemma MarkRead_wp u conn c n w :
  winv w → WP (MarkRead nd u conn c n) (λ r w', winv w' ∧ ∀ t, r = Ok t → read_marked w w' u c n t) w.
Proof.
  intros Hi. unfold MarkRead. destruct (Z.ltb_spec n 1) as [|Hn]; [by apply wp_mret|].
  apply wp_mbind, wp_read. intros w1 r w' Hr1 Hi1 Hi' Hr' _ Hres.
  destruct r as [row|e]; [|apply wp_mret; split; [done|]; intros t; by destruct (Is e _)].
  destruct Hres as [Hres|[? [=]]]. symmetry in Hres. apply GetRow_Ok in Hres as (Huc & Hcm & _). set (d := w_db w1) in *.
  destruct (ok_uc d (wi_db _ Hi1) _ _ _ Huc) as (_ & Ec & _). rewrite Ec.
  assert (VisibleMax (Row_UC row) (Row_ConvMaxSeq row) = vmax d u c) as -> by (unfold vmax; by rewrite Huc, Hcm).
  assert (UC_ReadSeq (Row_UC row) = rseq d u c) as -> by (unfold rseq; by rewrite Huc).
  assert (∀ w2, wrely w' w2 → winv w2 → Z.max (rseq d u c) (Z.min n (vmax d u c)) ≤ rseq (w_db w2) u c →
    read_marked w w2 u c n (Z.max (rseq d u c) (Z.min n (vmax d u c)))) as Hfin.
  { intros w2 Hr2 Hi2 Hle. assert (wrely w1 w2) as Hr12 by (by transitivity w'). exists d. split_and!; try done.
    - eapply during_mono; [exact Hr12|]. by apply during_now.
    - apply Hi1.
    - apply Hr12. }
  destruct (Z.leb_spec (Z.min n (vmax d u c)) (rseq d u c)) as [Hle|Hgt].
  - apply wp_mret. split; [done|]. intros t [= <-].
    replace (rseq d u c) with (Z.max (rseq d u c) (Z.min n (vmax d u c))) at 1 by lia.
    apply Hfin; [reflexivity|done|]. pose proof (le_read _ _ (wr_db _ _ Hr') u c). fold d in H. lia.
  - set (target := Z.min n (vmax d u c)) in *. pose proof (rseq_le_vmax (wi_db _ Hi1) u c) as H0. fold d in H0.
    assert (∀ w2, wrely w' w2 → winv w2 → target ≤ vmax (w_db w2) u c) as Hvm.
    { intros w2 Hr2 Hi2. assert (wrely w1 w2) as Hr12 by (by transitivity w').
      pose proof (le_vmax _ _ (wr_db _ _ Hr12) u c) as Hx. fold d in Hx. lia. }
    apply wp_mbind, wp_call.
    + intros w2 Hr2 Hi2. split; [|done]. apply (advance_ok (w_db w2) u c target); [apply Hi2|by apply Hvm].
    + intros w2 r w3 Hr2 Hi2 Hi3 Hr3 Hres. assert (wrely w' w3) as Hr'3 by (by transitivity w2).
      destruct r as [x|e]; [|by apply wp_mret]. destruct Hres as [[_ Hdb]|[? [=]]].
      assert (target ≤ rseq (w_db w3) u c) as Hread.
      { rewrite Hdb. unfold rseq. simpl. destruct (vmax_pos_row (w_db w2) u c (wi_db _ Hi2)) as [uc2 Huc2].
        { specialize (Hvm w2 Hr2 Hi2). lia. }
        rewrite lookup_alter_eq, Huc2. simpl. unfold GREATEST. lia. }
      apply wp_mbind, wp_bus.
      * intros w4 Hr4 Hi4. unfold bus_event_ok. simpl. pose proof (le_read _ _ (wr_db _ _ Hr4) u c). lia.
      * intros r w4 Hr4 Hi4. apply wp_mret. split; [done|]. intros t [= <-].
        replace target with (Z.max (rseq d u c) (Z.min n (vmax d u c))) by lia.
        apply Hfin; [by transitivity w3|done|]. pose proof (le_read _ _ (wr_db _ _ Hr4) u c). lia.
Qed.

(** ** SetOpt *)

Definition opt_set (w0 w : World) (u c : string) (r : option Z) (p : option bool) : Prop :=
  (∀ v, r = Some v → v = 0 ∨ v = 1) ∧
  ∃ d, during w0 w d ∧ ∃ uc, userConvs d !! (u, c) = Some uc ∧
    UC_RecvMsgOpt uc = default (UC_RecvMsgOpt uc) r ∧ UC_IsPinned uc = default (UC_IsPinned uc) p.

Lemma SetOpt_wp u c r p w :
  winv w → WP (SetOpt u c r p) (λ e w', winv w' ∧ (e = None → opt_set w w' u c r p)) w.
Proof.
  intros Hi. unfold SetOpt.
  destruct (match r with Some v => negb (v =? 0) && negb (v =? 1) | None => false end) eqn:Ev; [by apply wp_mret|].
  assert (∀ v, r = Some v → v = 0 ∨ v = 1) as Hv.
  { intros v ->. apply andb_false_iff in Ev as [E|E]; bool_prop; auto. }
  apply wp_mbind, wp_call.
  - intros w1 Hr1 Hi1. unfold SetUserConversationOpt. pose proof (set_opt_ok (w_db w1) u c r p (wi_db _ Hi1)) as H.
    unfold Gen.SetUserConversationOpt in *. by destruct (userConvs (w_db w1) !! (u, c)).
  - intros w1 res w' Hr1 Hi1 Hi' Hr' Hres. apply wp_mret. split; [done|]. intros E. split; [done|].
    destruct res as [x|e]; [|by destruct (Is e _)]. destruct Hres as [[Hres Hdb]|[? [=]]].
    unfold SetUserConversationOpt, Gen.SetUserConversationOpt in *.
    destruct (userConvs (w_db w1) !! (u, c)) as [uc|] eqn:Euc; [|done]. simpl in Hdb.
    assert (wrely w w') as Hrw by (by transitivity w1). exists (w_db w'). split; [by apply during_now|].
    eexists. rewrite Hdb. simpl. rewrite lookup_insert_eq. split; [done|]. simpl. by destruct r, p.
Qed.

(** ** Get *)

(** The item describes the row at some moment of the request; the last message, asked for, is
    there whenever the visible range is not empty. *)
Definition item_answer (w0 w : World) (u : string) (withLast : bool) (i : Item) : Prop :=
  ∃ d, during w0 w d ∧ DbOk d ∧ DbLe d (w_db w) ∧ item_of d u i ∧ last_ok (w_db w) i ∧
    (It_LastMessage i = None → withLast = true → It_MaxSeq i < It_MinSeq i).

Lemma db_bnd_le d d' : DbLe d d' → db_bnd d' → db_bnd d.
Proof. intros Hle. unfold db_bnd. destruct (le_msgs _ _ Hle) as [l ->]. rewrite length_app. lia. Qed.

Lemma item_of_row d o c uc m :
  DbOk d → userConvs d !! (o, c) = Some uc → item_of d o (It_set_LastMessage (itemFromRow (mkUCRow uc (conv_max d c))) m).
Proof.
  intros Hd Huc. destruct (ok_uc d Hd _ _ _ Huc) as (_ & Ec & _). exists uc. simpl. rewrite Ec. done.
Qed.

(** The key of an item's last message names a message of the history. *)
Lemma lastMessageKey_found d o c uc k :
  DbOk d → userConvs d !! (o, c) = Some uc → lastMessageKey (itemFromRow (mkUCRow uc (conv_max d c))) = Some k →
  k = mkMessageKey c (VisibleMax uc (conv_max d c)) ∧ UC_MinSeq uc ≤ VisibleMax uc (conv_max d c) ∧
  ∃ m, m ∈ messages d ∧ Msg_ConversationId m = c ∧ Msg_Seq m = VisibleMax uc (conv_max d c).
Proof.
  intros Hd Huc. destruct (ok_uc d Hd _ _ _ Huc) as (_ & Ec & _ & Hmin & _). unfold lastMessageKey. simpl.
  destruct (Z.ltb_spec (VisibleMax uc (conv_max d c)) (UC_MinSeq uc)); [done|]. intros [= <-]. rewrite Ec. split_and!; try done.
  apply (seq_range Hd). pose proof (VisibleMax_le uc (conv_max d c)). lia.
Qed.

Lemma GetConv_wp u key withLast w :
  winv w → WP (GetConv u key withLast) (λ r w', winv w' ∧ ∀ i, r = Ok i → item_answer w w' u withLast i) w.
Proof.
  intros Hi. unfold GetConv. destruct (resolve key u) as [c|]; [|by apply wp_mret].
  apply wp_mbind, wp_read. intros w1 r w' Hr1 Hi1 Hi' Hr' _ Hres.
  destruct r as [row|e]; [|apply wp_mret; split; [done|]; intros t; by destruct (Is e _)].
  destruct Hres as [Hres|[? [=]]]. symmetry in Hres. apply GetRow_Ok in Hres as (Huc & Hcm & _). set (d := w_db w1) in *.
  destruct row as [uc m0]. simpl in Huc, Hcm. subst m0. pose proof (wi_db _ Hi1) as Hd. fold d in Hd.
  assert (∀ w2 mo, wrely w' w2 → winv w2 →
    let i := It_set_LastMessage (itemFromRow (mkUCRow uc (conv_max d c))) mo in
    last_ok (w_db w2) i → (mo = None → withLast = true → It_MaxSeq i < It_MinSeq i) → item_answer w w2 u withLast i) as Hfin.
  { intros w2 mo Hr2 Hi2 i Hlast Hnone. assert (wrely w1 w2) as Hr12 by (by transitivity w'). exists d. split_and!; try done.
    - eapply during_mono; [exact Hr12|]. by apply during_now.
    - apply Hr12.
    - by apply item_of_row. }
  destruct (if withLast then lastMessageKey (itemFromRow (mkUCRow uc (conv_max d c))) else None) as [k|] eqn:Ek.
  - destruct withLast; [|done]. destruct (lastMessageKey_found d u c uc k Hd Huc Ek) as (-> & Hmin & m & Hm & Hmc & Hms).
    destruct (ok_uc d Hd _ _ _ Huc) as (_ & Ec & _).
    apply wp_mbind, wp_query; [apply GetMessages_reads|]. intros w2 r w3 Hr2 Hi2 Hi3 Hr3 _ Hres. apply wp_mret. split; [done|].
    intros i Hok. destruct r as [ms|]; [|done]. destruct Hres as [Hres|[? [=]]].
    destruct (GetMessages [mkMessageKey c (VisibleMax uc (conv_max d c))] (w_db w2)) as [r' d'] eqn:Eg. simpl in Hres. subst r'.
    pose proof (GetMessages_spec _ _ _ _ Eg) as Hspec. assert (wrely w' w3) as Hr'3 by (by transitivity w2).
    assert (m ∈ ms) as Hin.
    { apply Hspec. rewrite Hmc, Hms. split; [|by apply list_elem_of_singleton].
      apply (elem_of_messages_mono w1 w2); [by transitivity w'|done]. }
    destruct ms as [|x ms]; [by apply not_elem_of_nil in Hin|]. injection Hok as <-.
    apply Hfin; try done. unfold last_ok. simpl. split; [done|]. exists x.
    destruct (proj1 (Hspec x)) as [Hx Hk]; [by left|]. apply list_elem_of_singleton in Hk as [= Hk1 Hk2].
    split_and!; first [done | by apply (elem_of_messages_mono w2 w3) | simpl in *; congruence].
  - apply wp_mret. split; [done|]. intros i [= <-]. apply (Hfin w' None); try done.
    intros _ ->. unfold lastMessageKey in Ek. destruct (Z.ltb_spec (It_MaxSeq (itemFromRow (mkUCRow uc (conv_max d c)))) (It_MinSeq (itemFromRow (mkUCRow uc (conv_max d c))))); done.
Qed.

(** ** Pages *)

Definition page_answer (d : Db) (o : string) (cur : ListCursor) (lim : Z) (a : list UserConversationRow * string * bool) : Prop :=
  let rest := keep (before cur) (user_rows d o) in
  a = (if Z.of_nat (length rest) <=? lim then (rest, ""%string, false)
       else match last (take (Z.to_nat lim) rest) with
            | Some l => (take (Z.to_nat lim) rest, EncodeCursor (mkListCursor (UC_UpdatedAt (Row_UC l)) (UC_ConversationId (Row_UC l))), true)
            | None => (take (Z.to_nat lim) rest, ""%string, false)
            end).

(** A page of the list as it was at some moment of the request. *)
Definition paged (w0 w : World) (u cursor : string) (limit pageMax : Z) (a : list UserConversationRow * string * bool) : Prop :=
  ∃ d cur, during w0 w d ∧ DbOk d ∧ DbLe d (w_db w) ∧ DecodeCursor cursor = Some cur ∧
    page_answer d u cur (clampLimit limit pageMax) a.

Lemma ListPage_wp u cursor limit pageMax w (Q : result (list UserConversationRow * string * bool) → World → Prop) :
  winv w →
  (∀ r w', wrely w w' → winv w' → (∀ a, r = Ok a → pageMax < 2 ^ 31 - 1 → paged w w' u cursor limit pageMax a) → Q r w') →
  WP (ListPage u cursor limit pageMax) Q w.
Proof.
  intros Hi HQ. unfold ListPage. destruct (DecodeCursor cursor) as [cur|] eqn:Ec; [|apply wp_mret, HQ; [reflexivity|done|done]].
  pose proof (clampLimit_range limit pageMax) as Hlim. set (lim := clampLimit limit pageMax) in *.
  apply wp_mbind, wp_read. intros w1 r w' Hr1 Hi1 Hi' Hr' _ Hres. apply wp_mret, HQ; [by transitivity w1|done|].
  intros a Ha Hpm. destruct r as [rows|]; [|done]. destruct Hres as [Hres|[? [=]]].
  unfold lim in Hres. rewrite row_limit in Hres by done. fold lim in Hres.
  rewrite (ListUserConversations_rows (wi_db _ Hi1)) in Hres. set (rest := keep (before cur) _) in Hres.
  unfold LIMIT in Hres. replace (lim + 1 <? 0) with false in Hres by (symmetry; lia). injection Hres as ->.
  exists (w_db w1), cur. split_and!; try done; [|apply Hi1|apply Hr'|].
  - eapply during_mono; [exact Hr'|]. by apply during_now.
  - unfold page_answer. fold lim rest. clearbody lim rest. rewrite length_take in Ha. destruct (Z.leb_spec (Z.of_nat (length rest)) lim).
    + replace (Z.of_nat (Z.to_nat (lim + 1) `min` length rest)%nat <=? lim) with true in Ha by (symmetry; apply Z.leb_le; lia).
      rewrite take_ge in Ha by lia. by injection Ha.
    + replace (Z.of_nat (Z.to_nat (lim + 1) `min` length rest)%nat <=? lim) with false in Ha by (symmetry; apply Z.leb_gt; lia).
      rewrite take_take in Ha. replace (Z.to_nat lim `min` Z.to_nat (lim + 1))%nat with (Z.to_nat lim) in Ha by lia.
      destruct (last (take (Z.to_nat lim) rest)); by injection Ha.
Qed.

Lemma page_rows d o cur lim rows next more :
  page_answer d o cur lim (rows, next, more) → ∀ row, row ∈ rows → row ∈ user_rows d o.
Proof.
  unfold page_answer. set (rest := keep (before cur) _). intros Hans row Hrow.
  assert (row ∈ rest) as Hrest.
  { destruct (_ <=? _); [by injection Hans as -> _ _|].
    assert (rows = take (Z.to_nat lim) rest) as -> by (destruct (last _); by injection Hans).
    rewrite <- (take_drop (Z.to_nat lim) rest). apply elem_of_app. by left. }
  unfold rest in Hrest. by apply elem_of_keep in Hrest as [? _].
Qed.

(** Every entry gives the visible maximum and the read cursor of one conversation of the user. *)
Definition counted (w0 w : World) (u : string) (res : MaxSeqsResult) : Prop :=
  ∃ d, during w0 w d ∧ DbOk d ∧ DbLe d (w_db w) ∧ ∀ it, it ∈ MSR_Items res →
    MS_MaxSeq it = vmax d u (MS_ConversationId it) ∧ MS_ReadSeq it = rseq d u (MS_ConversationId it) ∧
    is_Some (userConvs d !! (u, MS_ConversationId it)).

Lemma MaxSeqs_wp u cursor limit pageMax w :
  winv w →
  WP (MaxSeqs u cursor limit pageMax) (λ r w', winv w' ∧ ∀ res, r = Ok res → pageMax < 2 ^ 31 - 1 → counted w w' u res) w.
Proof.
  intros Hi. apply wp_mbind, ListPage_wp; [done|]. intros r w' Hr Hi' Hpg. apply wp_mret. split; [done|].
  intros res Hres Hpm. destruct r as [[[rows next] more]|]; [|done]. injection Hres as <-.
  destruct (Hpg _ eq_refl Hpm) as (d & cur & Hdur & Hd & Hle & _ & Hans). exists d. split_and!; try done.
  intros it Hit. simpl in Hit. apply list_elem_of_fmap in Hit as (row & -> & Hrow). simpl.
  pose proof (page_rows _ _ _ _ _ _ _ Hans row Hrow) as Hin.
  apply (elem_of_user_rows Hd) in Hin as [Huc Hm]. unfold vmax, rseq. rewrite Huc, Hm. eauto.
Qed.
(** ** List *)

Lemma user_row_key d o r :
  DbOk d → r ∈ user_rows d o → ∃ uc, r = mkUCRow uc (conv_max d (UC_ConversationId uc)) ∧ userConvs d !! (o, UC_ConversationId uc) = Some uc.
Proof. intros Hd Hr. apply (elem_of_user_rows Hd) in Hr as [Huc Hm]. exists (Row_UC r). destruct r. simpl in *. by subst. Qed.

(** The messages fetched for a page complete each of its items. *)
Lemma setLast_ok d d1 d2 o rows msgs r :
  DbOk d → (∀ r, r ∈ rows → r ∈ user_rows d o) → r ∈ rows → DbLe d d1 → DbLe d1 d2 →
  (∀ m, m ∈ msgs ↔ m ∈ messages d1 ∧ mkMessageKey (Msg_ConversationId m) (Msg_Seq m) ∈ omap lastMessageKey (map itemFromRow rows)) →
  let i := setLast (byConv msgs) (itemFromRow r) in
  item_of d o i ∧ last_ok d2 i ∧ (It_LastMessage i = None → It_MaxSeq i < It_MinSeq i).
Proof.
  intros Hd Hrows Hr H1 H2 Hmsgs i. destruct (user_row_key d o r Hd (Hrows r Hr)) as (uc & -> & Huc). unfold i, setLast. simpl.
  pose proof (byConv_spec msgs (UC_ConversationId uc)) as Hb. destruct (byConv msgs !! UC_ConversationId uc) as [m|].
  - destruct Hb as [Hm Hc]. split; [by apply item_of_row|]. split; [|done]. simpl.
    apply Hmsgs in Hm as [Hm Hk]. rewrite Hc in Hk.
    apply list_elem_of_omap in Hk as (j & Hj & Hk). apply list_elem_of_fmap in Hj as (r' & -> & Hr').
    destruct (user_row_key d o r' Hd (Hrows r' Hr')) as (uc' & -> & Huc').
    destruct (lastMessageKey_found d o _ uc' _ Hd Huc' Hk) as ([= E1 E2] & Hmin & _). rewrite <- E1, Huc in Huc'. injection Huc' as <-.
    unfold last_ok. simpl. split; [done|]. exists m. split_and!; try done. destruct (le_msgs _ _ H2) as [l ->]. apply elem_of_app. by left.
  - split; [by apply (item_of_row d o _ uc None)|]. split; [done|]. intros _. simpl.
    destruct (Z.lt_ge_cases (VisibleMax uc (conv_max d (UC_ConversationId uc))) (UC_MinSeq uc)) as [|Hge]; [done|].
    destruct (lastMessageKey (itemFromRow (mkUCRow uc (conv_max d (UC_ConversationId uc))))) as [k|] eqn:Ek.
    + destruct (lastMessageKey_found d o _ uc k Hd Huc Ek) as (-> & _ & m & Hm & Hmc & Hms). exfalso. apply (Hb m); [|done].
      apply Hmsgs. split; [destruct (le_msgs _ _ H1) as [l ->]; apply elem_of_app; by left|]. rewrite Hmc, Hms.
      apply list_elem_of_omap. eexists. split; [|exact Ek]. apply list_elem_of_fmap. eauto.
    + unfold lastMessageKey in Ek. simpl in Ek. destruct (Z.ltb_spec (VisibleMax uc (conv_max d (UC_ConversationId uc))) (UC_MinSeq uc)); [lia|done].
Qed.

Lemma setLast_conv latest i : It_ConversationId (setLast latest i) = It_ConversationId i.
Proof. unfold setLast. by destruct (latest !! _). Qed.

Lemma paged_mono w0 w w' u cursor limit pageMax a :
  wrely w w' → paged w0 w u cursor limit pageMax a → paged w0 w' u cursor limit pageMax a.
Proof.
  intros Hr (d & cur & Hdur & Hd & Hle & Hc & Ha). exists d, cur. split_and!; try done.
  - eapply during_mono; [exact Hr|done].
  - transitivity (w_db w); [done|apply Hr].
Qed.

Lemma page_items w w' u cursor limit pageMax rows next more :
  paged w w' u cursor limit pageMax (rows, next, more) →
  ∃ d, during w w' d ∧ DbOk d ∧ DbLe d (w_db w') ∧ ∀ r, r ∈ rows → r ∈ user_rows d u.
Proof. intros (d & cur & Hdur & Hd & Hle & _ & Ha). exists d. split_and!; try done. by eapply page_rows. Qed.

(** A page of the list, an item per row. *)
Definition listed (w0 w : World) (u cursor : string) (limit pageMax : Z) (withLast : bool) (res : ListResult) : Prop :=
  ∃ rows, paged w0 w u cursor limit pageMax (rows, LR_NextCursor res, LR_HasMore res) ∧
    map It_ConversationId (LR_Conversations res) = map (UC_ConversationId ∘ Row_UC) rows ∧
    ∀ i, i ∈ LR_Conversations res → item_answer w0 w u withLast i.

Lemma ListConvs_wp u cursor limit pageMax withLast w :
  winv w →
  WP (ListConvs u cursor limit pageMax withLast) (λ r w', winv w' ∧ ∀ res, r = Ok res → pageMax < 2 ^ 31 - 1 →
    listed w w' u cursor limit pageMax withLast res) w.
Proof.
  intros Hi. apply wp_mbind, ListPage_wp; [done|]. intros r w1 Hr1 Hi1 Hpg.
  destruct r as [[[rows next] more]|]; [|by apply wp_mret]. specialize (Hpg _ eq_refl).
  cbv zeta. destruct (0 <? length (if withLast then omap lastMessageKey (map itemFromRow rows) else []))%nat eqn:Ek.
  - destruct withLast; [|done]. apply wp_mbind, wp_query; [apply GetMessages_reads|].
    intros w2 r w3 Hr2 Hi2 Hi3 Hr3 _ Hres. apply wp_mret. split; [done|].
    intros res Hok Hpm. specialize (Hpg Hpm). destruct r as [ms|]; [|done]. destruct Hres as [Hres|[? [=]]]. injection Hok as <-.
    destruct (GetMessages _ (w_db w2)) as [r' d'] eqn:Eg. simpl in Hres. subst r'. pose proof (GetMessages_spec _ _ _ _ Eg) as Hms.
    assert (wrely w1 w3) as Hr13 by (by transitivity w2). exists rows. simpl. split; [by eapply paged_mono|].
    split. { rewrite map_map. rewrite (map_ext _ _ (setLast_conv _)). by rewrite map_map. }
    intros i Hin. apply list_elem_of_fmap in Hin as (j & -> & Hj). apply list_elem_of_fmap in Hj as (r & -> & Hr).
    apply page_items in Hpg as (d & Hdur & Hd & Hle & Hrows).
    destruct (setLast_ok d (w_db w2) (w_db w3) u rows ms r Hd Hrows Hr) as (H1 & H2 & H3); [|apply Hr3|done|].
    { transitivity (w_db w1); [done|apply Hr2]. }
    assert (DbLe d (w_db w3)) by (transitivity (w_db w1); [done|apply Hr13]).
    exists d. split_and!; try done; [|auto]. eapply during_mono; [exact Hr13|done].
  - apply wp_mret. split; [done|]. intros res [= <-] Hpm. specialize (Hpg Hpm). exists rows. split; [done|].
    split; [simpl; by rewrite map_map|]. simpl. intros i Hin. apply list_elem_of_fmap in Hin as (r & -> & Hr).
    apply page_items in Hpg as (d & Hdur & Hd & Hle & Hrows).
    exists d. split_and!; try done.
    + destruct (user_row_key d u r Hd (Hrows r Hr)) as (uc & -> & Huc). by apply (item_of_row d u _ uc None).
    + intros _ ->. apply Nat.ltb_ge in Ek.
      destruct (lastMessageKey (itemFromRow r)) as [k|] eqn:Elk.
      * assert (k ∈ omap lastMessageKey (map itemFromRow rows)) as Hk.
        { apply list_elem_of_omap. eexists. split; [|exact Elk]. apply list_elem_of_fmap. eauto. }
        destruct (omap _ _); [by apply not_elem_of_nil in Hk|simpl in Ek; lia].
      * unfold lastMessageKey in Elk. destruct (Z.ltb_spec (It_MaxSeq (itemFromRow r)) (It_MinSeq (itemFromRow r))); done.
Qed.
End ConversationInv.
