(* ===== verification/UserInv.v ===== *)
(** * The user service and the connection registry under interleaving *)

From S2P Require Import Prelude Errcode Strconv Identity Json Store PgStore Conv DbInv Conc RateLimit MemberCache World OnlineStore ConvPage UserSvc History WorldInv MessageInv.

Local Open Scope Z_scope.

(** ** Writes of the users and online_conns tables *)

Lemma user_insert_ok d u : DbOk d → preserves d (with_users d (<[User_Id u := u]> (users d))).
Proof.
  intros Hd. apply users_ok; [done| |].
  - intros id x. rewrite lookup_insert_Some. intros [[<- <-]|[_ Hx]]; [done|by eapply ok_users].
  - intros id Hs. destruct (decide (User_Id u = id)) as [<-|]; [rewrite lookup_insert_eq; eauto|by rewrite lookup_insert_ne].
Qed.

Lemma CreateUser_ok u d : DbOk d → quiet d (CreateUser u d).2.
Proof.
  intros Hd. unfold CreateUser, executing, Gen.CreateUser.
  destruct (users d !! User_Id u); simpl; (split; [|done]); [by apply preserves_refl|by apply user_insert_ok].
Qed.

Lemma UpdateUserProfile_ok id n a e t d : DbOk d → quiet d (UpdateUserProfile id n a e t d).2.
Proof.
  intros Hd. unfold UpdateUserProfile, Gen.UpdateUserProfile. destruct (users d !! id) as [u|] eqn:E; simpl; (split; [|done]); [|by apply preserves_refl].
  pose proof (ok_users d Hd id u E) as <-.
  apply (user_insert_ok d (mkUser (User_Id u) (User_Username u) (User_PasswordHash u) (COALESCE n (User_Nickname u))
    (COALESCE a (User_Avatar u)) (COALESCE e (User_Extra u)) (User_CreatedAt u) t)); done.
Qed.

Lemma UpsertUser_ok u d : DbOk d → quiet d (UpsertUser u d).2.
Proof.
  intros Hd. unfold UpsertUser, executing, Gen.UpsertUser. simpl. split; [|done].
  destruct (users d !! User_Id u) as [x|] eqn:E.
  - pose proof (ok_users d Hd _ x E) as Ex. rewrite <- Ex.
    apply (user_insert_ok d (mkUser (User_Id x) _ _ _ _ _ _ _)); done.
  - apply (user_insert_ok d (mkUser (User_Id u) _ _ _ _ _ _ _)); done.
Qed.

Section UserInv.
Context `{RL : RateLib} `{EN : Env} `{BC : Bcrypt}.
Variable cfg : Config.
Variable nativeOn : bool.

Abbreviation WP := (wp bnd winv wrely).

(** The profile is that of a row the user had during the request. *)
Definition profile_of (w0 w : World) (id : string) (p : Profile) : Prop :=
  ∃ d u, during w0 w d ∧ DbOk d ∧ users d !! id = Some u ∧ p = toProfile u.

Lemma UserGet_wp id w0 w :
  winv w0 → wrely w0 w → WP (UserGet id) (λ r w', winv w' ∧ ∀ p, r = Ok p → profile_of w0 w' id p) w.
Proof.
  intros H0 Hr0. apply wp_mbind, wp_read. intros w1 r w' Hr1 Hi1 Hi' Hr' _ Hres. apply wp_mret. split; [done|].
  intros p Hp. destruct r as [u|e]; [|by destruct (Is e _)]. injection Hp as <-. destruct Hres as [Hres|[? [=]]].
  unfold Gen.GetUser in Hres. destruct (users (w_db w1) !! id) as [x|] eqn:E; [|done]. injection Hres as ->.
  exists (w_db w1), x. split_and!; try done; [|apply Hi1]. eapply during_mono; [exact Hr'|]. apply during_now; try done. by transitivity w.
Qed.

Lemma GetMany_wp ids w :
  winv w → WP (GetMany ids) (λ r w', winv w' ∧ ∀ ps, r = Ok ps → ∀ p, p ∈ ps → Pr_Id p ∈ ids ∧ profile_of w w' (Pr_Id p) p) w.
Proof.
  intros Hi. apply wp_mbind, wp_read. intros w1 r w' Hr1 Hi1 Hi' Hr' _ Hres. apply wp_mret. split; [done|].
  intros ps Hps p Hp. destruct r as [us|e]; [|done]. injection Hps as <-. destruct Hres as [Hres|[? [=]]]. injection Hres as ->.
  apply list_elem_of_fmap in Hp as (u & -> & Hu). apply elem_of_keep in Hu as [Hu Hin]. unfold in_list in Hin. bool_prop.
  apply elem_of_rows in Hu as [k Hk]. pose proof (ok_users _ (wi_db _ Hi1) k u Hk) as <-. split; [done|].
  exists (w_db w1), u. split_and!; try done; [|apply Hi1]. eapply during_mono; [exact Hr'|]. by apply during_now.
Qed.

(** A registration: a row that was not there before, with a hash that accepts the password. *)
Definition registered (w0 w : World) (username password nickname : string) (p : Profile) : Prop :=
  users (w_db w0) !! Pr_Id p = None ∧ is_Some (users (w_db w) !! Pr_Id p) ∧
  ∃ d u, during w0 w d ∧ users d !! Pr_Id p = Some u ∧ p = toProfile u ∧ User_Username u = username ∧
    User_Nickname u = nickname ∧ CompareHashAndPassword (User_PasswordHash u) password = true.

Lemma Register_wp username password nickname w :
  winv w →
  WP (Register nativeOn username password nickname) (λ r w', winv w' ∧ ∀ p, r = Ok p → registered w w' username password nickname p) w.
Proof.
  intros Hi. unfold Register. destruct (requireNative _); [by apply wp_mret|]. cbv zeta. destruct (_ || _); [by apply wp_mret|].
  destruct (validateProfile _ _ _); [by apply wp_mret|]. apply wp_mbind, wp_read. intros w1 r w2 Hr1 Hi1 Hi2 Hr2 _ _.
  destruct r as [|e]; [by apply wp_mret|]. destruct (negb _); [by apply wp_mret|].
  apply wp_mbind, (wp_tick (λ t, GenerateFromPassword t password)). intros w3 t Hr3 Hi3.
  destruct (GenerateFromPassword (w_tick w3) password) as [hash|] eqn:Eh; [|by apply wp_mret].
  apply bcrypt_ok in Eh. apply wp_mbind, getNowMs_wp. intros now w4 Hr4 Hi4 _.
  apply wp_mbind, (wp_tick newV7). intros w5 t5 Hr5 Hi5. set (u := mkUser _ username hash nickname _ _ now now).
  apply wp_mbind, wp_call; [intros w6 _ H6; apply CreateUser_ok, H6|]. intros w6 r w' Hr6 Hi6 Hi' Hr' Hres.
  apply wp_mret. split; [done|]. intros p Hp. destruct r as [|]; [|done]. injection Hp as <-. destruct Hres as [[Hr Hdb]|[? [=]]].
  unfold CreateUser, executing, Gen.CreateUser in Hr, Hdb. destruct (users (w_db w6) !! User_Id u) eqn:Eu; [done|]. simpl in Hdb.
  assert (wrely w w6) as Hr06.
  { transitivity w1; [done|]. transitivity w2; [done|]. etransitivity; [exact Hr3|]. transitivity w4; [done|]. by etransitivity. }
  assert (users (w_db w') !! User_Id u = Some u) as Hu by (rewrite Hdb; simpl; apply lookup_insert_eq).
  split_and!; [|eauto|].
  - change (Pr_Id (toProfile u)) with (User_Id u). destruct (users (w_db w) !! User_Id u) eqn:E; [|done].
    destruct (le_users _ _ (wr_db _ _ Hr06) (User_Id u)) as [x Hx]; [eauto|congruence].
  - exists (w_db w'), u. split_and!; try done. apply during_now; try done. by transitivity w6.
Qed.

(** An update: the row had the given fields at some moment of the request. *)
Definition updated (w0 w : World) (id : string) (i : Update) : Prop :=
  ∃ d u, during w0 w d ∧ users d !! id = Some u ∧ User_Nickname u = default (User_Nickname u) (Up_Nickname i) ∧
    User_Avatar u = default (User_Avatar u) (Up_Avatar i) ∧ User_Extra u = default (User_Extra u) (Up_Extra i).

Lemma updated_mono w0 w w' id i : wrely w w' → updated w0 w id i → updated w0 w' id i.
Proof. intros Hr (d & u & Hd & H). exists d, u. split; [by eapply during_mono|done]. Qed.

Lemma profile_of_mono w0 w w' id p : wrely w w' → profile_of w0 w id p → profile_of w0 w' id p.
Proof. intros Hr (d & u & Hd & H). exists d, u. split; [by eapply during_mono|done]. Qed.

Lemma UserUpdate_wp id i w :
  winv w → WP (UserUpdate id i) (λ r w', winv w' ∧ ∀ p, r = Ok p → updated w w' id i ∧ profile_of w w' id p) w.
Proof.
  intros Hi. unfold UserUpdate. destruct (validateProfile _ _ _); [by apply wp_mret|].
  apply wp_mbind, getNowMs_wp. intros now w1 Hr1 Hi1 _.
  apply wp_mbind, wp_call; [intros w2 _ H2; apply UpdateUserProfile_ok, H2|]. intros w2 r w3 Hr2 Hi2 Hi3 Hr3 Hres.
  destruct r as [|e]; [|apply wp_mret; split; [done|]; intros p; by destruct (Is e _)]. destruct Hres as [[Hr Hdb]|[? [=]]].
  assert (wrely w w2) as Hr02 by (by transitivity w1). assert (wrely w w3) as Hr03 by (by transitivity w2).
  unfold UpdateUserProfile, Gen.UpdateUserProfile in Hr, Hdb. destruct (users (w_db w2) !! id) as [u|] eqn:Eu; [|done]. simpl in Hdb.
  assert (updated w w3 id i) as Hup.
  { eexists (w_db w3), _. split; [by apply during_now|]. rewrite Hdb. simpl. rewrite lookup_insert_eq. split; [done|]. simpl.
    unfold COALESCE. by destruct (Up_Nickname i), (Up_Avatar i), (Up_Extra i). }
  eapply wp_mono; [|apply wp_from; [apply _|by apply (UserGet_wp id w)]].
  intros r w4 (Hr4 & Hi4 & H). split; [done|]. intros p Hp. split; [by eapply updated_mono|by apply H].
Qed.

Lemma Upsert_wp id n a e w :
  winv w → WP (Upsert id n a e) (λ r w', winv w' ∧ ∀ p, r = Ok p →
    is_Ok (ParseActor id) = true ∧ updated w w' id (mkUpdate (Some n) (Some a) (Some e)) ∧ profile_of w w' id p) w.
Proof.
  intros Hi. unfold Upsert. destruct (ParseActor id) as [|] eqn:Ea; [|by apply wp_mret].
  destruct (validateProfile _ _ _); [by apply wp_mret|].
  apply wp_mbind, getNowMs_wp. intros now w1 Hr1 Hi1 _. set (u := mkUser id _ _ n a e _ now).
  apply wp_mbind, wp_call; [intros w2 _ H2; apply UpsertUser_ok, H2|]. intros w2 r w3 Hr2 Hi2 Hi3 Hr3 Hres.
  destruct r as [|x]; [|by apply wp_mret]. destruct Hres as [[Hr Hdb]|[? [=]]].
  assert (wrely w w2) as Hr02 by (by transitivity w1). assert (wrely w w3) as Hr03 by (by transitivity w2).
  unfold UpsertUser, executing, Gen.UpsertUser in Hdb. simpl in Hdb.
  assert (updated w w3 id (mkUpdate (Some n) (Some a) (Some e))) as Hup.
  { eexists (w_db w3), _. split; [by apply during_now|]. rewrite Hdb. simpl. rewrite lookup_insert_eq. split; [done|].
    by destruct (users (w_db w2) !! id). }
  eapply wp_mono; [|apply wp_from; [apply _|by apply (UserGet_wp id w)]].
  intros r w4 (Hr4 & Hi4 & H). split; [done|]. intros p Hp. split_and!; [done|by eapply updated_mono|by apply H].
Qed.

(** ** The connection registry *)

(** [o] lists the platforms with a live row in [d], each once. *)
Definition live_status (d : Db) (since : Z) (o : OnlineStatusItem) : Prop :=
  NoDup (OS_Platforms o) ∧ (OS_Online o = true ↔ OS_Platforms o ≠ []) ∧
  ∀ p, p ∈ OS_Platforms o ↔ ∃ k r, online d !! k = Some r ∧ OC_UserId r = OS_UserId o ∧ OC_PlatformId r = p ∧ since < OC_HeartbeatAt r.

Definition status_answer (w0 w : World) (ids : list string) (os : list OnlineStatusItem) : Prop :=
  map OS_UserId os = ids ∧
  if hasOnline cfg then ∃ d now, during w0 w d ∧ Forall (live_status d (now - onlineTtl cfg)) os
  else Forall (λ o, OS_Online o = false ∧ OS_Platforms o = []) os.

Lemma ListOnlineConns_spec ids since d cs :
  (ListOnlineConns ids since d).1 = Ok cs →
  ∀ r, r ∈ cs ↔ (∃ k, online d !! k = Some r) ∧ OC_UserId r ∈ ids ∧ since < OC_HeartbeatAt r.
Proof.
  unfold ListOnlineConns. destruct ids as [|i ids]; simpl.
  - intros [= <-] r. split; [by intros []%not_elem_of_nil|]. by intros (_ & []%not_elem_of_nil & _).
  - intros [= <-] r. rewrite elem_of_keep, elem_of_rows. unfold in_list. rewrite andb_true_iff, bool_decide_eq_true, Z.ltb_lt. done.
Qed.

Lemma live_status_of ids since d cs id :
  (ListOnlineConns ids since d).1 = Ok cs → id ∈ ids →
  let ps := platforms (foldl addPlatform ∅ cs) id in live_status d since (mkOnlineStatus id (0 <? length ps)%nat ps).
Proof.
  intros Hcs Hid ps. destruct (platforms_spec cs ∅ id) as [Hnd Hin].
  { intros u. unfold platforms. rewrite lookup_empty. constructor. }
  fold ps in Hnd, Hin. unfold live_status. simpl. split_and!; [done| |].
  - rewrite Nat.ltb_lt. destruct ps; simpl; split; try done; lia.
  - intros p. rewrite Hin. unfold platforms. rewrite lookup_empty. simpl. pose proof (ListOnlineConns_spec _ _ _ _ Hcs) as H.
    split.
    + intros [[]%not_elem_of_nil|(r & Hr & Hu & Hp)]. apply H in Hr as ([k Hk] & _ & Ht). eauto 10.
    + intros (k & r & Hk & Hu & Hp & Ht). right. exists r. split_and!; try done. apply H. rewrite Hu. eauto.
Qed.

Lemma OnlineStatus_wp ids w :
  winv w → WP (OnlineStatus cfg ids) (λ r w', winv w' ∧ ∀ os, r = Ok os → status_answer w w' ids os) w.
Proof.
  intros Hi. unfold OnlineStatus, status_answer. apply wp_mbind. destruct (hasOnline cfg).
  - apply wp_mbind, getNowMs_wp. intros now w1 Hr1 Hi1 _.
    apply wp_mbind, wp_query; [intros d0; unfold ListOnlineConns; by destruct (_ =? 0)%nat|].
    intros w2 r w3 Hr2 Hi2 Hi3 Hr3 _ Hres. apply wp_mret, wp_mret. split; [done|]. intros os Hos.
    destruct r as [cs|]; [|done]. injection Hos as <-. destruct Hres as [Hres|[? [=]]]. unfold statusItems. rewrite map_map, map_id. split; [done|].
    exists (w_db w2), now. split; [eapply during_mono; [exact Hr3|]; apply during_now; try done; by transitivity w1|].
    apply Forall_forall. intros o Ho. apply list_elem_of_fmap in Ho as (id & -> & Hid). by eapply live_status_of.
  - apply wp_mret, wp_mret. split; [done|]. intros os [= <-]. unfold statusItems. rewrite map_map, map_id. split; [done|].
    apply Forall_forall. intros o Ho. apply list_elem_of_fmap in Ho as (id & -> & Hid). done.
Qed.

Lemma OnlineAdd_wp nodeId c w : winv w → WP (OnlineAdd nodeId c) (λ r w', winv w' ∧ True) w.
Proof.
  intros Hi. apply wp_mbind, getNowMs_wp. intros now w1 Hr1 Hi1 _.
  apply wp_mbind, wp_call; [intros w2 _ H2; split; [apply online_ok, H2|done]|]. intros w2 r w3 _ _ Hi3 _ _. by apply wp_mret.
Qed.

Lemma OnlineRemove_wp c w : winv w → WP (OnlineRemove c) (λ r w', winv w' ∧ True) w.
Proof.
  intros Hi. apply wp_mbind, wp_call; [intros w2 _ H2; split; [apply online_ok, H2|done]|]. intros w2 r w3 _ _ Hi3 _ _. by apply wp_mret.
Qed.

Lemma PurgeNode_wp nodeId w : winv w → WP (PurgeNode nodeId) (λ r w', winv w' ∧ True) w.
Proof.
  intros Hi. apply wp_mbind, wp_call; [intros w2 _ H2; split; [apply online_ok, H2|done]|]. intros w2 r w3 _ _ Hi3 _ _. by apply wp_mret.
Qed.

Lemma OnlineRenew_wp nodeId cs w : winv w → WP (OnlineRenew nodeId cs) (λ r w', winv w' ∧ True) w.
Proof.
  intros Hi. apply wp_mbind, getNowMs_wp. intros now w1 _ Hi1 _. apply wp_mbind.
  assert (∀ chunks w, winv w → WP (renewChunks nodeId now chunks) (λ _ w', winv w') w) as H; [|].
  { induction chunks as [|ch chunks IH]; intros w2 Hi2; [by apply wp_mret|].
    apply wp_mbind, wp_call.
    - intros w3 _ H3. unfold RenewOnlineConns. destruct (_ =? 0)%nat; (split; [|done]); [apply preserves_refl, H3|apply online_ok, H3].
    - intros w3 r w4 _ _ Hi4 _ _. destruct r; [by apply IH|by apply wp_mret]. }
  eapply wp_mono; [|by apply H]. intros e w2 Hi2. by apply wp_mret.
Qed.
End UserInv.
