(* ===== verification/System.v ===== *)
(** * The system: requests of any number of nodes against one database

    A request names the operation, its arguments and the node that runs it. [handle] is the
    operation, [reachable] the pools of interleaved requests a system started on an empty database
    can get into, whatever the clocks, ids and faults of the environment. Every theorem here holds
    in every reachable pool; an answered request is a thread whose program is [Ret]. *)

From S2P Require Import Prelude Errcode Strconv Identity Json Store PgStore Conv DbInv Conc RateLimit MemberCache World OnlineStore ConvPage MessageSvc GroupSvc ConversationSvc UserSvc History WorldInv TxInv MessageInv Deliver GroupInv Paging ConversationInv UserInv.

Local Open Scope Z_scope.

Inductive Request :=
| RSend (nd : string) (i : SendInput)
| RPull (i : PullInput) (pageMax : Z)
| RMaxSeqs (u cursor : string) (limit pageMax : Z)
| RCreate (nd owner : string) (i : CreateInput)
| RJoin (nd gid u : string)
| RQuit (nd gid u : string)
| RKick (nd gid op u : string)
| RGet (gid u : string)
| RMembers (gid u : string)
| RMarkRead (nd u conn c : string) (n : Z)
| RGetConv (u : string) (k : GetKey) (withLast : bool)
| RListConvs (u cursor : string) (limit pageMax : Z) (withLast : bool)
| RSetOpt (u c : string) (opt : option Z) (pin : option bool)
| RPushWorker (nd : string)
| RInvalidate (nd gid : string)
| RResolve (p : PushPayload)
| RDeliver (nd : string) (p : PushPayload) (users : UserMap.UserMap) (later : string → UserMap.UserMap)
| RRegister (username password nickname : string)
| RUserGet (id : string)
| RGetMany (ids : list string)
| RUserUpdate (id : string) (i : Update)
| RUpsert (id nickname avatar extra : string)
| ROnlineStatus (ids : list string)
| RUserByName (username : string)
| ROnlineAdd (nd : string) (c : ConnRef)
| ROnlineRemove (c : ConnRef)
| ROnlineRenew (nd : string) (cs : list ConnRef)
| RPurge (nd : string).

Inductive Response :=
| ASend (r : result Ack)
| APull (r : result PullResult)
| AMaxSeqs (r : result MaxSeqsResult)
| ACreate (r : result GroupInfo)
| ADone (r : err)
| AGet (r : result GroupInfo)
| AMembers (r : result (list MemberInfo))
| AMarkRead (r : result Z)
| AConv (r : result Item)
| AList (r : result ListResult)
| AEvent (r : result PushEvent)
| ADeliver (r : result (list (UserMap.Client * DtoMessage)))
| AProfile (r : result Profile)
| AProfiles (r : result (list Profile))
| AStatus (r : result (list OnlineStatusItem))
| AUser (r : result User)
| ANone.

(** A request of the pool that was answered: it arrived in world [ws] and got answer [x]. *)
Definition answered `{RL : RateLib} (ts : list (@thread World Request Response)) (r : Request) (ws : World) (x : Response) : Prop :=
  mkThread Request Response r ws (Ret x) ∈ ts.

Section System.
Context `{RL : RateLib} `{EN : Env} `{BC : Bcrypt}.
Variable cfg : Config.
Variable nativeOn : bool.

Definition handle (r : Request) : prog World Response :=
  match r with
  | RSend nd i => a ← Send cfg nd i; mret (ASend a)
  | RPull i pm => a ← Pull i pm; mret (APull a)
  | RMaxSeqs u c l pm => a ← MaxSeqs u c l pm; mret (AMaxSeqs a)
  | RCreate nd o i => a ← Create cfg nd o i; mret (ACreate a)
  | RJoin nd g u => a ← Join cfg nd g u; mret (ADone a)
  | RQuit nd g u => a ← Quit nd g u; mret (ADone a)
  | RKick nd g op u => a ← Kick nd g op u; mret (ADone a)
  | RGet g u => a ← Get g u; mret (AGet a)
  | RMembers g u => a ← Members g u; mret (AMembers a)
  | RMarkRead nd u conn c n => a ← MarkRead nd u conn c n; mret (AMarkRead a)
  | RGetConv u k l => a ← GetConv u k l; mret (AConv a)
  | RListConvs u c l pm wl => a ← ListConvs u c l pm wl; mret (AList a)
  | RSetOpt u c o p => a ← SetOpt u c o p; mret (ADone a)
  | RPushWorker nd => _ ← pushWorker cfg nd; mret ANone
  | RInvalidate nd g => _ ← InvalidateGroup nd g; mret ANone
  | RResolve p => a ← ResolvePush p; mret (AEvent a)
  | RDeliver nd p u l => a ← deliverOne nd u l p; mret (ADeliver a)
  | RRegister u p n => a ← Register nativeOn u p n; mret (AProfile a)
  | RUserGet id => a ← UserGet id; mret (AProfile a)
  | RGetMany ids => a ← GetMany ids; mret (AProfiles a)
  | RUserUpdate id i => a ← UserUpdate id i; mret (AProfile a)
  | RUpsert id n av e => a ← Upsert id n av e; mret (AProfile a)
  | ROnlineStatus ids => a ← OnlineStatus cfg ids; mret (AStatus a)
  | RUserByName u => a ← call (GetUserByUsername u); mret (AUser a)
  | ROnlineAdd nd c => a ← OnlineAdd nd c; mret (ADone a)
  | ROnlineRemove c => a ← OnlineRemove c; mret (ADone a)
  | ROnlineRenew nd cs => a ← OnlineRenew nd cs; mret ANone
  | RPurge nd => a ← PurgeNode nd; mret (ADone a)
  end.

(** Senders have passed authentication; a push is resolved after it was published. *)
Definition arrives (r : Request) (w : World) : Prop :=
  match r with
  | RSend _ i => Valid (SI_SenderId i) = true
  | RResolve p | RDeliver _ p _ _ => ∃ e, e ∈ w_bus w ∧ BE_Payload e = TypePush p
  | _ => True
  end.

(** An empty database; every node has its own start time. *)
Definition initWorld (start : string → Z) : World :=
  mkWorld emptyDb 0 (λ nd, newNode cfg (start nd)) [] [] [emptyDb].

Definition pool : Type := list (@thread World Request Response) * World.

Definition reachable (start : string → Z) (p : pool) : Prop :=
  rtc (pool_step bnd handle arrives) ([], initWorld start) p.

(** What the answer to a request says about the world. *)
Definition Post (r : Request) (w0 : World) (a : Response) (w : World) : Prop :=
  match r, a with
  | RSend _ i, ASend (Ok k) => acked (w_db w) i k
  | RPull i pm, APull (Ok pr) => pm < 2 ^ 31 - 1 → pulled w0 w i pm pr
  | RMaxSeqs u c l pm, AMaxSeqs (Ok res) => pm < 2 ^ 31 - 1 → counted w0 w u res
  | RCreate _ o i, ACreate (Ok info) => committed w0 w (created_in (GI_Id info) o (Uniq (o :: CI_MemberIds i)))
  | RJoin _ g u, ADone None => committed w0 w (joined_in cfg g u)
  | RQuit _ g u, ADone None => committed w0 w (removed_in g u u)
  | RKick _ g op u, ADone None => op ≠ u ∧ committed w0 w (removed_in g op u)
  | RGet g u, AGet (Ok _) => was_member w0 w g u
  | RMembers g u, AMembers (Ok _) => was_member w0 w g u
  | RMarkRead _ u _ c n, AMarkRead (Ok t) => read_marked w0 w u c n t
  | RGetConv u _ wl, AConv (Ok i) => item_answer w0 w u wl i
  | RListConvs u c l pm wl, AList (Ok res) => pm < 2 ^ 31 - 1 → listed w0 w u c l pm wl res
  | RSetOpt u c o p, ADone None => opt_set w0 w u c o p
  | RResolve p, AEvent (Ok ev) => event_of (w_db w) ev ∧ pushPayload ev = Some p
  | RDeliver nd p u l, ADeliver (Ok ps) => ∃ ev, event_of (w_db w) ev ∧ pushPayload ev = Some p ∧ delivered w0 w u l ev ps
  | RRegister u p n, AProfile (Ok pr) => registered w0 w u p n pr
  | RUserGet id, AProfile (Ok pr) => profile_of w0 w id pr
  | RGetMany ids, AProfiles (Ok ps) => ∀ p, p ∈ ps → Pr_Id p ∈ ids ∧ profile_of w0 w (Pr_Id p) p
  | RUserUpdate id i, AProfile (Ok pr) => updated w0 w id i ∧ profile_of w0 w id pr
  | RUpsert id n av e, AProfile (Ok pr) =>
      is_Ok (ParseActor id) = true ∧ updated w0 w id (mkUpdate (Some n) (Some av) (Some e)) ∧ profile_of w0 w id pr
  | ROnlineStatus ids, AStatus (Ok os) => status_answer cfg w0 w ids os
  | _, _ => True
  end.

(** ** Answers stay true *)

Lemma pulled_mono w0 w w' i pm pr : wrely w w' → pulled w0 w i pm pr → pulled w0 w' i pm pr.
Proof.
  intros Hr (d & uc & Hdur & Hd & Hle & Huc & Ha). exists d, uc. split_and!; try done; [by eapply during_mono|].
  transitivity (w_db w); [done|apply Hr].
Qed.

Lemma counted_mono w0 w w' u res : wrely w w' → counted w0 w u res → counted w0 w' u res.
Proof.
  intros Hr (d & Hdur & Hd & Hle & Ha). exists d. split_and!; try done; [by eapply during_mono|].
  transitivity (w_db w); [done|apply Hr].
Qed.

Lemma last_ok_mono d d' i : DbLe d d' → last_ok d i → last_ok d' i.
Proof.
  intros Hle. unfold last_ok. destruct (It_LastMessage i); [|done]. intros (Hm & m & Hin & H). split; [done|].
  exists m. split; [|done]. destruct (le_msgs _ _ Hle) as [l ->]. apply elem_of_app. by left.
Qed.

Lemma item_answer_mono w0 w w' u wl i : wrely w w' → item_answer w0 w u wl i → item_answer w0 w' u wl i.
Proof.
  intros Hr (d & Hdur & Hd & Hle & Hi & Hl & Hn). exists d. split_and!; try done; [by eapply during_mono| |].
  - transitivity (w_db w); [done|apply Hr].
  - eapply last_ok_mono; [apply Hr|done].
Qed.

Lemma was_member_mono w0 w w' g u : wrely w w' → was_member w0 w g u → was_member w0 w' g u.
Proof. intros Hr (d & Hdur & Hm). exists d. split; [by eapply during_mono|done]. Qed.

Lemma read_marked_mono w0 w w' u c n t : wrely w w' → read_marked w0 w u c n t → read_marked w0 w' u c n t.
Proof.
  intros Hr (d & Hdur & Hd & Hle & Hs & Ht & Hb). exists d. split_and!; try done; [by eapply during_mono| |].
  - transitivity (w_db w); [done|apply Hr].
  - pose proof (le_read _ _ (wr_db _ _ Hr) u c). lia.
Qed.

Lemma listed_mono w0 w w' u c l pm wl res : wrely w w' → listed w0 w u c l pm wl res → listed w0 w' u c l pm wl res.
Proof.
  intros Hr (rows & Hp & Hm & Hi). exists rows. split_and!; [by eapply paged_mono|done|].
  intros i Hin. eapply item_answer_mono; [done|]. by apply Hi.
Qed.

Lemma opt_set_mono w0 w w' u c o p : wrely w w' → opt_set w0 w u c o p → opt_set w0 w' u c o p.
Proof. intros Hr (Hv & d & Hdur & H). split; [done|]. exists d. split; [by eapply during_mono|done]. Qed.

Lemma registered_mono w0 w w' u p n pr : wrely w w' → registered w0 w u p n pr → registered w0 w' u p n pr.
Proof.
  intros Hr (H1 & H2 & d & x & Hd & H). split_and!; [done|by apply (le_users _ _ (wr_db _ _ Hr))|].
  exists d, x. split; [by eapply during_mono|done].
Qed.

Lemma status_answer_mono w0 w w' ids os : wrely w w' → status_answer cfg w0 w ids os → status_answer cfg w0 w' ids os.
Proof.
  intros Hr [Hm H]. split; [done|]. destruct (hasOnline cfg); [|done]. destruct H as (d & now & Hd & H).
  exists d, now. split; [by eapply during_mono|done].
Qed.

Lemma profiles_mono w0 w w' (ids : list string) (ps : list Profile) :
  wrely w w' → (∀ p, p ∈ ps → Pr_Id p ∈ ids ∧ profile_of w0 w (Pr_Id p) p) →
  ∀ p, p ∈ ps → Pr_Id p ∈ ids ∧ profile_of w0 w' (Pr_Id p) p.
Proof. intros Hr H p Hp. destruct (H p Hp) as [? ?]. split; [done|by eapply profile_of_mono]. Qed.

#[local] Hint Resolve pulled_mono counted_mono item_answer_mono was_member_mono read_marked_mono listed_mono opt_set_mono
  committed_mono acked_mono event_of_mono delivered_mono registered_mono status_answer_mono profiles_mono profile_of_mono updated_mono : stable.

Lemma Post_stable r w0 a w w' : wrely w w' → Post r w0 a w → Post r w0 a w'.
Proof.
  intros Hr. assert (DbLe (w_db w) (w_db w')) as Hle by apply Hr. unfold Post.
  destruct r, a; try done; case_match; try done; repeat match goal with
    | |- _ ∧ _ → _ => intros [? ?] | |- (∃ _, _) → _ => intros [? ?] | H : _ ∧ _ |- _ => destruct H end; eauto 6 with stable.
Qed.

(** ** Every operation keeps the invariant and answers truly *)

Abbreviation WP := (wp bnd winv wrely).

Lemma wp_answer {A} (p : prog World A) (k : A → Response) (P : A → World → Prop) (Q : Response → World → Prop) w :
  WP p (λ a w', winv w' ∧ P a w') w → (∀ a w', P a w' → Q (k a) w') → WP (a ← p; mret (k a)) Q w.
Proof.
  intros H HQ. apply wp_mbind. eapply wp_mono; [|exact H]. intros a w' [_ HP]. apply wp_mret. by apply HQ.
Qed.

Lemma handle_wp r w : arrives r w → winv w → WP (handle r) (Post r w) w.
Proof.
  intros Ha Hi. destruct r; cbn [handle arrives] in *.
  - eapply wp_answer; [by apply Send_wp|]. intros [a|e] w' H; simpl; auto.
  - eapply wp_answer; [by apply Pull_wp|]. intros [a|e] w' H; simpl; auto.
  - eapply wp_answer; [by apply MaxSeqs_wp|]. intros [a|e] w' H; simpl; auto.
  - eapply wp_answer; [by apply Create_wp|]. intros [a|e] w' H; simpl; auto.
  - eapply wp_answer; [by apply Join_wp|]. intros [e|] w' H; simpl; auto.
  - eapply wp_answer; [by apply Quit_wp|]. intros [e|] w' H; simpl; auto.
  - eapply wp_answer; [by apply Kick_wp|]. intros [e|] w' H; simpl; auto.
  - eapply wp_answer; [by apply Get_wp|]. intros [a|e] w' H; simpl; eauto.
  - eapply wp_answer; [by apply Members_wp|]. intros [a|e] w' H; simpl; eauto.
  - eapply wp_answer; [by apply MarkRead_wp|]. intros [a|e] w' H; simpl; auto.
  - eapply wp_answer; [by apply GetConv_wp|]. intros [a|e] w' H; simpl; auto.
  - eapply wp_answer; [by apply ListConvs_wp|]. intros [a|e] w' H; simpl; auto.
  - eapply wp_answer; [by apply SetOpt_wp|]. intros [e|] w' H; simpl; auto.
  - apply wp_mbind. eapply wp_mono; [|by apply pushWorker_wp]. intros [] w' _. by apply wp_mret.
  - apply wp_mbind. eapply wp_mono; [|by apply InvalidateGroup_wp]. intros [] w' _. by apply wp_mret.
  - destruct Ha as (e & He & Ep). pose proof (wi_bus _ Hi) as Hb. rewrite Forall_forall in Hb. apply Hb in He.
    unfold bus_event_ok in He. rewrite Ep in He. destruct He as (ev & Hev & Hp).
    apply wp_mbind. eapply wp_mono; [|apply wp_from; [apply _|by apply (ResolvePush_wp ev)]].
    intros [a|] w' (Hr & _ & H); apply wp_mret; [|done]. simpl. rewrite (H a eq_refl). split; [|done].
    eapply event_of_mono; [apply Hr|done].
  - destruct Ha as (e & He & Ep). pose proof (wi_bus _ Hi) as Hb. rewrite Forall_forall in Hb. apply Hb in He.
    unfold bus_event_ok in He. rewrite Ep in He. destruct He as (ev & Hev & Hp).
    apply wp_mbind. eapply wp_mono; [|apply wp_from; [apply _|by apply (deliverOne_wp nd users later ev)]].
    intros [a|] w' (Hr & _ & H); apply wp_mret; [|done]. simpl. exists ev. split_and!; [|done|by apply H].
    eapply event_of_mono; [apply Hr|done].
  - eapply wp_answer; [by apply Register_wp|]. intros [a|e] w' H; simpl; auto.
  - eapply wp_answer; [by apply (UserGet_wp id w)|]. intros [a|e] w' H; simpl; auto.
  - eapply wp_answer; [by apply GetMany_wp|]. intros [a|e] w' H; simpl; [by apply H|done].
  - eapply wp_answer; [by apply UserUpdate_wp|]. intros [a|e] w' H; simpl; auto.
  - eapply wp_answer; [by apply Upsert_wp|]. intros [a|e] w' H; simpl; auto.
  - eapply wp_answer; [by apply OnlineStatus_wp|]. intros [a|e] w' H; simpl; auto.
  - apply wp_mbind, wp_read. intros w1 a w' _ _ _ _ _ _. by apply wp_mret.
  - eapply (wp_answer _ ADone); [by apply OnlineAdd_wp|]. done.
  - eapply (wp_answer _ ADone); [by apply OnlineRemove_wp|]. done.
  - eapply (wp_answer _ (λ _, ANone)); [by apply OnlineRenew_wp|]. done.
  - eapply (wp_answer _ ADone); [by apply PurgeNode_wp|]. done.
Qed.

Lemma newNode_ok d now : node_ok d (newNode cfg now).
Proof.
  split; simpl; [apply NewKeyed_ok|done| |unfold offlinePushWorkers; lia|constructor].
  unfold mc_ok. simpl. by rewrite map_size_empty.
Qed.

Lemma initWorld_inv start : winv (initWorld start).
Proof. split; simpl; [apply emptyDb_ok|constructor|constructor| |by intros m Hm%not_elem_of_nil|done]. intros nd. apply newNode_ok. Qed.

(** The invariant holds in every reachable pool, and every answer is true. *)
Lemma system_safe start ts w :
  reachable start (ts, w) →
  winv w ∧ ∀ r ws a, mkThread Request Response r ws (Ret a) ∈ ts → wrely ws w ∧ Post r ws a w.
Proof.
  apply (pool_safe bnd winv wrely handle arrives Post Post_stable); [apply handle_wp|apply initWorld_inv].
Qed.

Lemma reachable_bnd start ts w : reachable start (ts, w) → bnd w.
Proof.
  unfold reachable. change w with ((ts, w) : pool).2 at 2. generalize ((ts, w) : pool). intros q H.
  assert (∀ p, rtc (pool_step bnd handle arrives) p q → bnd p.2 → bnd q.2) as Hind.
  { clear H. intros p. induction 1 as [|p p' q Hs _ IH]; [done|]. intros Hb. apply IH. by destruct Hs. }
  apply (Hind _ H). unfold bnd, db_bnd, maxInt64. simpl. lia.
Qed.

(** What a step of the system does to the world. *)
Lemma step_rely p q : pool_step bnd handle arrives p q → winv p.2 → (∀ t, t ∈ p.1 → thread_ok bnd winv wrely Post p.2 t) → wrely p.2 q.2.
Proof.
  intros Hs Hi Hts. destruct Hs as [ts w r Ha|ts1 ts2 w r w0 B f k b w' Hf Hb]; simpl in *; [reflexivity|].
  destruct (Hts (mkThread _ _ r w0 (Act f k))) as [_ Hwp]; [set_solver|]. simpl in Hwp.
  specialize (Hwp w ltac:(reflexivity) Hi). rewrite Hf in Hwp. by destruct (Hwp Hb) as (_ & ? & _).
Qed.

Lemma reachable_ok start p : reachable start p → pool_ok bnd winv wrely Post p.
Proof.
  intros H. assert (∀ p q, rtc (pool_step bnd handle arrives) p q → pool_ok bnd winv wrely Post p → pool_ok bnd winv wrely Post q) as Hind.
  { induction 1 as [|p1 p2 p3 Hs _ IH]; [done|]. intros Hok. apply IH.
    eapply (pool_step_ok bnd winv wrely handle arrives Post Post_stable); [apply handle_wp|done|done]. }
  apply (Hind _ _ H). split; [apply initWorld_inv|constructor].
Qed.

(** The world only moves along [wrely]. *)
Lemma reachable_rely start p q :
  reachable start p → rtc (pool_step bnd handle arrives) p q → wrely p.2 q.2.
Proof.
  intros Hp Hpq. revert Hp. induction Hpq as [|p p' q Hs _ IH]; intros Hp; [reflexivity|].
  transitivity p'.2; [|apply IH; by eapply rtc_r].
  destruct (reachable_ok _ _ Hp) as [Hi Hts]. apply step_rely; try done. by apply Forall_forall.
Qed.
End System.
