(* ===== verification/Scenario.v ===== *)
(** * Concrete runs of the system

    An environment whose clock ticks once a second and whose calls do not fail, and a history of
    requests played one after the other. The pools it produces are reachable, so it gives concrete
    inputs for the theorems about reachable pools. *)

From S2P Require Import Prelude Errcode Strconv Identity Json Store PgStore Conv DbInv Conc RateLimit MemberCache World OnlineStore ConvPage MessageSvc GroupSvc ConversationSvc UserSvc WorldInv System.

Local Open Scope Z_scope.

#[export] Instance DtoMessage_eq_dec : EqDecision DtoMessage.
Proof. solve_decision. Defined.

#[export] Instance PushPayload_eq_dec : EqDecision PushPayload.
Proof. solve_decision. Defined.

Definition demoEnv : Env :=
  {| clock t := Z.of_nat t * Second; newV7 t := "v" +:+ FormatInt (Z.of_nat t); shortId t := "g" +:+ FormatInt (Z.of_nat t);
     fault _ := NoFault |}.

(** Hashes that are the password itself. *)
Definition demoBcrypt : Bcrypt.
Proof.
  refine {| GenerateFromPassword _ pw := Ok pw; CompareHashAndPassword h pw := (h =? pw)%string |}.
  intros _ pw h [= ->]. apply String.eqb_refl.
Defined.

#[local] Existing Instance countingLib.
#[local] Existing Instance demoEnv.
#[local] Existing Instance demoBcrypt.

Definition demoCfg : Config := mkConfig 4096 60000000000 600 100 true 60000000000 true.

(** ** Playing requests in sequence *)

Definition within (w : World) : bool := Z.of_nat (length (messages (w_db w))) <? maxInt64.

Fixpoint run_within {A} (p : prog World A) (w : World) : bool :=
  match p with
  | Ret _ => true
  | Act f k => let '(b, w') := f w in within w' && run_within (k b) w'
  end.

Definition arrivesb (r : Request) (w : World) : bool :=
  match r with
  | RSend _ i => Valid (SI_SenderId i)
  | RResolve p | RDeliver _ p _ _ => existsb (λ e, match BE_Payload e with TypePush q => bool_decide (q = p) | _ => false end) (w_bus w)
  | _ => true
  end.

Definition hdl (r : Request) : prog World Response := handle demoCfg true r.

Definition start : string → Z := λ _, 0.

(** The world after the first [k] requests. *)
Fixpoint play (rs : list Request) (w : World) : World :=
  match rs with
  | [] => w
  | r :: rs => play rs (run (hdl r) w).2
  end.

Fixpoint threads (rs : list Request) (w : World) : list (@thread World Request Response) :=
  match rs with
  | [] => []
  | r :: rs => let '(a, w') := run (hdl r) w in mkThread _ _ r w (Ret a) :: threads rs w'
  end.

Fixpoint playable (rs : list Request) (w : World) : bool :=
  match rs with
  | [] => true
  | r :: rs => arrivesb r w && run_within (hdl r) w && playable rs (run (hdl r) w).2
  end.

Lemma arrivesb_ok r w : arrivesb r w = true → arrives r w.
Proof.
  destruct r; simpl; try done; rewrite existsb_exists; intros (e & He & Hp); exists e; rewrite list_elem_of_In; (split; [done|]);
    destruct (BE_Payload e); try done; by apply bool_decide_eq_true in Hp as ->.
Qed.

Lemma run_reachable ts r ws (p : prog World Response) w :
  run_within p w = true →
  rtc (pool_step bnd (handle demoCfg true) arrives) (ts ++ [mkThread _ _ r ws p], w)
    (ts ++ [mkThread _ _ r ws (Ret (run p w).1)], (run p w).2).
Proof.
  revert w. induction p as [a|B f k IH]; intros w; simpl; [reflexivity|].
  destruct (f w) as [b w'] eqn:Ef. intros [Hw Hk]%andb_true_iff. eapply rtc_l; [|by apply IH].
  apply (step_act bnd (handle demoCfg true) arrives ts [] w r ws B f k b w' Ef). unfold within in Hw. unfold bnd, db_bnd. lia.
Qed.

Lemma play_steps rs ts w :
  playable rs w = true → rtc (pool_step bnd (handle demoCfg true) arrives) (ts, w) (ts ++ threads rs w, play rs w).
Proof.
  revert ts w. induction rs as [|r rs IH]; intros ts w; simpl; [by rewrite app_nil_r|].
  intros [[Ha Hw]%andb_true_iff Hp]%andb_true_iff.
  pose proof (run_reachable ts r w (hdl r) w Hw) as Hrun. destruct (run (hdl r) w) as [x w'] eqn:Er. simpl in *.
  change (mkThread _ _ r w (Ret x) :: threads rs w') with ([mkThread Request Response r w (Ret x)] ++ threads rs w').
  rewrite app_assoc. eapply rtc_l; [apply (step_arrive bnd (handle demoCfg true) arrives ts w r); by apply arrivesb_ok|].
  etransitivity; [exact Hrun|]. by apply IH.
Qed.

Lemma play_reachable rs ts w :
  playable rs w = true → reachable demoCfg true start (ts, w) →
  reachable demoCfg true start (ts ++ threads rs w, play rs w).
Proof. intros Hp Hr. unfold reachable in *. etransitivity; [exact Hr|]. by apply play_steps. Qed.

Definition w0 : World := initWorld demoCfg start.

Lemma threads_lookup rs w k r :
  rs !! k = Some r →
  mkThread Request Response r (play (take k rs) w) (Ret (run (hdl r) (play (take k rs) w)).1) ∈ threads rs w.
Proof.
  revert w k. induction rs as [|r' rs IH]; intros w k; [done|]. simpl. destruct (run (hdl r') w) as [a w'] eqn:E.
  destruct k as [|k]; simpl; intros Hk.
  - injection Hk as ->. rewrite E. by left.
  - right. rewrite E. by apply IH.
Qed.

Lemma threads_head r rs w x : (run (hdl r) w).1 = x → answered (threads (r :: rs) w) r w x.
Proof. intros <-. unfold answered. simpl. destruct (run (hdl r) w). by left. Qed.

Lemma threads_app rs1 rs2 w : threads (rs1 ++ rs2) w = threads rs1 w ++ threads rs2 (play rs1 w).
Proof. revert w. induction rs1 as [|r rs1 IH]; intros w; simpl; [done|]. destruct (run (hdl r) w). simpl. by rewrite IH. Qed.

(** ** A history

    Three platform users; the first creates a group with the second, both post, the third joins, the
    first retries its message on another node, messages the second directly, the second reads
    and leaves, the first removes the third. *)

Definition a : string := "u___1".
Definition b : string := "u___2".
Definition c : string := "u___3".
Definition gid : string := "g11".
Definition gconv : string := GroupConv gid.

Definition textMsg (sender client : string) (session : Z) (recv group : string) : SendInput :=
  mkSendInput sender "conn" client session recv group 1 "{}" true false.

Definition demo : list Request :=
  [ RUpsert a "Ann" "" ""; RUpsert b "Bob" "" ""; RUpsert c "Cy" "" "";
    RCreate "n1" a (mkCreateInput "team" "" "" "" [b]);
    RSend "n1" (textMsg a "m1" ConversationGroup "" gid);
    RSend "n2" (textMsg b "m1" ConversationGroup "" gid);
    RJoin "n1" gid c;
    RSend "n2" (textMsg a "m1" ConversationGroup "" gid);
    RSend "n1" (textMsg a "m2" ConversationSingle b "");
    RPull (mkPullInput b gconv 1 10 10) 100;
    RPull (mkPullInput c gconv 1 10 10) 100;
    RMarkRead "n1" b "conn" gconv 1;
    RPushWorker "n1";
    RQuit "n2" gid b;
    RKick "n1" gid a c;
    RGet gid a; RMembers gid a;
    RGetConv b (mkGetKey gconv "" "") true;
    RListConvs b "" 10 100 true;
    RMaxSeqs b "" 10 100 ].

Definition demoWorld : World := play demo w0.

Definition at_request (k : nat) : World := play (take k demo) w0.

Lemma demo_reachable : reachable demoCfg true start (threads demo w0, demoWorld).
Proof.
  apply (play_reachable demo [] w0); [vm_compute; reflexivity|]. apply rtc_refl.
Qed.

Lemma demo_answered k r x : demo !! k = Some r → (run (hdl r) (at_request k)).1 = x → answered (threads demo w0) r (at_request k) x.
Proof. intros Hk <-. by apply threads_lookup. Qed.

Lemma first_reachable k : playable (take k demo) w0 = true → reachable demoCfg true start (threads (take k demo) w0, at_request k).
Proof. intros H. apply (play_reachable (take k demo) [] w0); [done|]. apply rtc_refl. Qed.
