(* ===== verification/SendThms.v ===== *)
(** * Sending: the history of a conversation and what an ACK promises

    Theorems about every reachable pool of requests: any number of nodes, any interleaving of their
    steps, any clocks, fresh ids and faults. *)

From S2P Require Import Prelude Errcode Strconv Identity Json Store PgStore Conv DbInv Conc RateLimit MemberCache World OnlineStore ConvPage MessageSvc GroupSvc ConversationSvc UserSvc History WorldInv TxInv MessageInv GroupInv Paging ConversationInv UserInv System Scenario.

Local Open Scope Z_scope.

#[local] Existing Instance countingLib.
#[local] Existing Instance demoEnv.
#[local] Existing Instance demoBcrypt.

Section Send.
Context `{RL : RateLib} `{EN : Env} `{BC : Bcrypt}.
Variables (cfg : Config) (nativeOn : bool) (start : string → Z).

Abbreviation Reach := (reachable cfg nativeOn start).

(** ** Shared lemmas *)

Lemma reach_inv ts w : Reach (ts, w) → winv w.
Proof. intros H. by apply system_safe in H as [? _]. Qed.

Lemma reach_post ts w r ws x : Reach (ts, w) → answered ts r ws x → wrely ws w ∧ Post cfg r ws x w.
Proof. intros H Ha. apply system_safe in H as [_ Hp]. by apply Hp. Qed.

(** A key with distinct values in a list names one element. *)
Lemma NoDup_map_inj {A B} (f : A → B) l x y : NoDup (map f l) → x ∈ l → y ∈ l → f x = f y → x = y.
Proof.
  induction l as [|z l IH]; simpl; [by intros _ H%not_elem_of_nil|]. rewrite NoDup_cons, !elem_of_cons.
  intros [Hz Hnd] Hx Hy E. destruct Hx as [->|Hx], Hy as [->|Hy]; try done.
  - destruct Hz. rewrite E. by apply list_elem_of_fmap_2.
  - destruct Hz. rewrite <- E. by apply list_elem_of_fmap_2.
  - by apply IH.
Qed.

Lemma seq_unique d m1 m2 :
  DbOk d → m1 ∈ messages d → m2 ∈ messages d → Msg_ConversationId m1 = Msg_ConversationId m2 → Msg_Seq m1 = Msg_Seq m2 → m1 = m2.
Proof.
  intros Hd H1 H2 Ec Es. apply (sorted_unique_seq (conv_msgs (Msg_ConversationId m1) (messages d))); [by apply conv_msgs_sorted| | |done];
    by apply elem_of_conv_msgs.
Qed.

(** Messages added later have larger seqs. *)
Lemma later_seq d d' m m' :
  DbOk d' → DbLe d d' → m ∈ messages d → m' ∈ messages d' → m' ∉ messages d →
  Msg_ConversationId m = Msg_ConversationId m' → Msg_Seq m < Msg_Seq m'.
Proof.
  intros Hd' Hle Hm Hm' Hnew Ec. destruct (le_msgs _ _ Hle) as [l E]. rewrite E in Hm'. apply elem_of_app in Hm' as [?|Hm']; [done|].
  pose proof (conv_msgs_sorted d' (Msg_ConversationId m) Hd') as Hs. rewrite E in Hs. unfold conv_msgs in Hs. rewrite keep_app in Hs.
  eapply (StronglySorted_app_1_elem_of (λ x y : Message, Msg_Seq x < Msg_Seq y)); [exact Hs| |].
  - apply elem_of_keep. split; [done|apply String.eqb_refl].
  - apply elem_of_keep. rewrite Ec. split; [done|apply String.eqb_refl].
Qed.

(** ** The history *)

(** C1: in every reachable state the sequence numbers of a conversation, in commit order, are exactly
    [1, 2, ..., max_seq]: no gap, no duplicate, no reordering. *)
Theorem seqs_contiguous ts w c :
  Reach (ts, w) → map Msg_Seq (conv_msgs c (messages (w_db w))) = seqZ 1 (conv_max (w_db w) c).
Proof. intros H. apply reach_inv in H. apply (ok_seqs _ (wi_db _ H)). Qed.

(** A message is determined by its server id, by its (conversation, seq), and by its (conversation,
    sender, client message id): each of the three is a key of the history. *)
Lemma messages_keys ts w m1 m2 :
  Reach (ts, w) → m1 ∈ messages (w_db w) → m2 ∈ messages (w_db w) →
  client_key m1 = client_key m2 ∨ Msg_ServerMsgId m1 = Msg_ServerMsgId m2 ∨
    Msg_ConversationId m1 = Msg_ConversationId m2 ∧ Msg_Seq m1 = Msg_Seq m2 →
  m1 = m2.
Proof.
  intros H H1 H2. apply reach_inv in H as [Hd _ _ _ _ _]. intros [E|[E|[Ec Es]]].
  - by eapply (NoDup_map_inj client_key); [apply Hd|..].
  - by eapply (NoDup_map_inj Msg_ServerMsgId); [apply Hd|..].
  - by eapply seq_unique.
Qed.

(** Send times never go backwards along a conversation, even when the clocks of the nodes do. *)
Lemma send_times_monotone ts w m1 m2 :
  Reach (ts, w) → m1 ∈ messages (w_db w) → m2 ∈ messages (w_db w) → Msg_ConversationId m1 = Msg_ConversationId m2 →
  Msg_Seq m1 ≤ Msg_Seq m2 → Msg_SendTime m1 ≤ Msg_SendTime m2.
Proof.
  intros H H1 H2 Ec Hle. apply reach_inv in H as [Hd _ _ _ _ _]. destruct (Z.eq_dec (Msg_Seq m1) (Msg_Seq m2)) as [E|Hne].
  { by rewrite (seq_unique _ m1 m2 Hd H1 H2 Ec E). }
  assert (m1 ∈ conv_msgs (Msg_ConversationId m1) (messages (w_db w))) as I1 by by apply elem_of_conv_msgs.
  assert (m2 ∈ conv_msgs (Msg_ConversationId m1) (messages (w_db w))) as I2 by by apply elem_of_conv_msgs.
  pose proof (conv_msgs_sorted _ (Msg_ConversationId m1) Hd) as Hs. pose proof (ok_times _ Hd (Msg_ConversationId m1)) as Ht.
  apply StronglySorted_map in Ht. revert Hs Ht I1 I2. generalize (conv_msgs (Msg_ConversationId m1) (messages (w_db w))) as l.
  induction l as [|x l IH]; [by intros _ _ ?%not_elem_of_nil|]. intros Hs Ht. apply StronglySorted_inv in Hs as [Hs Fs], Ht as [Ht Ft].
  rewrite Forall_forall in Fs, Ft. rewrite !elem_of_cons. intros [->|I1] [->|I2]; [lia|by apply Ft|apply Fs in I1; lia|by apply IH].
Qed.


(** ** ACKs *)

(** C3: a successful ACK names a committed message with the key of the request, in the conversation the request
    addresses; the message is in the history from then on. *)
Theorem send_ack_committed ts w nd i ws k :
  Reach (ts, w) → answered ts (RSend nd i) ws (ASend (Ok k)) →
  ∃ m, m ∈ messages (w_db w) ∧ Ack_ServerMsgId k = Msg_ServerMsgId m ∧ Ack_Seq k = Msg_Seq m ∧
    Ack_ConversationId k = dest i ∧ Msg_ConversationId m = dest i ∧ Msg_SenderId m = SI_SenderId i ∧
    Msg_ClientMsgId m = SI_ClientMsgId i ∧ 1 ≤ Ack_Seq k ≤ conv_max (w_db w) (dest i).
Proof.
  intros H Ha. destruct (reach_post _ _ _ _ _ H Ha) as [_ (m & Hm & -> & Hk)]. apply reach_inv in H.
  injection Hk as E1 E2 E3. assert (1 ≤ Msg_Seq m ≤ conv_max (w_db w) (dest i)) by (apply (seq_range (wi_db _ H)); eauto).
  exists m. split_and!; simpl; done || lia.
Qed.

(** C2: sends are idempotent: two successful sends of the same client message id to the same destination by the same
    sender, on any nodes and in any interleaving, get the same ACK. *)
Theorem send_idempotent ts w nd1 i1 ws1 k1 nd2 i2 ws2 k2 :
  Reach (ts, w) → answered ts (RSend nd1 i1) ws1 (ASend (Ok k1)) → answered ts (RSend nd2 i2) ws2 (ASend (Ok k2)) →
  dest i1 = dest i2 → SI_SenderId i1 = SI_SenderId i2 → SI_ClientMsgId i1 = SI_ClientMsgId i2 →
  k1 = k2.
Proof.
  intros H H1 H2 Ed Es Ec. destruct (reach_post _ _ _ _ _ H H1) as [_ (m1 & M1 & -> & K1)].
  destruct (reach_post _ _ _ _ _ H H2) as [_ (m2 & M2 & -> & K2)]. apply reach_inv in H.
  rewrite (NoDup_map_inj client_key _ m1 m2 (ok_client _ (wi_db _ H)) M1 M2); [done|congruence].
Qed.

(** C4: sends respect real time: when a message was acknowledged before another send arrived whose key was not yet in the
    history, and both go to one conversation, the later send gets the larger sequence number. *)
Theorem send_order ts1 w1 ts2 w2 ts w nd1 i1 ws1 k1 nd2 i2 k2 :
  Reach (ts1, w1) → answered ts1 (RSend nd1 i1) ws1 (ASend (Ok k1)) →
  rtc (pool_step bnd (handle cfg nativeOn) arrives) (ts1, w1) (ts2, w2) →
  (∀ m, m ∈ messages (w_db w2) → client_key m ≠ (dest i2, SI_SenderId i2, SI_ClientMsgId i2)) →
  rtc (pool_step bnd (handle cfg nativeOn) arrives) (ts2, w2) (ts, w) →
  answered ts (RSend nd2 i2) w2 (ASend (Ok k2)) → dest i1 = dest i2 →
  Ack_Seq k1 < Ack_Seq k2.
Proof.
  intros R1 H1 S12 Hnew S2 H2 Ed. destruct (reach_post _ _ _ _ _ R1 H1) as [_ (m1 & M1 & -> & K1)].
  pose proof (reachable_rely _ _ _ _ _ R1 S12) as Hr. simpl in Hr.
  assert (Reach (ts, w)) as R by (unfold reachable in *; etransitivity; [exact R1|]; by etransitivity).
  destruct (reach_post _ _ _ _ _ R H2) as [Hr2 (m2 & M2 & -> & K2)].
  apply reach_inv in R. apply (later_seq (w_db w2) (w_db w)); [apply R|apply Hr2|by eapply elem_of_messages_mono|done| |].
  - intros Hin. by apply (Hnew m2).
  - injection K1 as K1 _ _. injection K2 as K2 _ _. congruence.
Qed.
End Send.

(** ** The theorems on the concrete history *)

Lemma seqs_contiguous_witness : seqZ 1 2 = map Msg_Seq (conv_msgs gconv (messages (w_db demoWorld))).
Proof. rewrite (seqs_contiguous demoCfg true start (threads demo w0) demoWorld gconv demo_reachable). vm_compute. reflexivity. Defined.

Definition no_message : Message := mkMessage "" 0 "" "" "" "" "" 0 0 "" 0 0.
Definition nth_message (k : nat) : Message := default no_message (messages (w_db demoWorld) !! k).

Lemma messages_keys_witness : nth_message 0 = nth_message 0.
Proof.
  apply (messages_keys demoCfg true start (threads demo w0) demoWorld (nth_message 0) (nth_message 0)).
  - exact demo_reachable.
  - vm_compute. left.
  - vm_compute. left.
  - left. reflexivity.
Defined.

Lemma send_times_monotone_witness : Msg_SendTime (nth_message 0) ≤ Msg_SendTime (nth_message 1).
Proof.
  apply (send_times_monotone demoCfg true start (threads demo w0) demoWorld).
  - exact demo_reachable.
  - vm_compute. left.
  - vm_compute. right. left.
  - vm_compute. reflexivity.
  - vm_compute. discriminate.
Defined.


Definition in1 : SendInput := textMsg a "m1" ConversationGroup "" gid.
Definition in2 : SendInput := textMsg b "m1" ConversationGroup "" gid.
Definition ack1 : Ack := mkAck "v23" gconv 1 20000.
Definition ack2 : Ack := mkAck "v40" gconv 2 37000.

Lemma demo_send1 : answered (threads demo w0) (RSend "n1" in1) (at_request 4) (ASend (Ok ack1)).
Proof. apply demo_answered; [reflexivity|vm_compute; reflexivity]. Qed.

Lemma demo_send2 : answered (threads demo w0) (RSend "n2" in2) (at_request 5) (ASend (Ok ack2)).
Proof. apply demo_answered; [reflexivity|vm_compute; reflexivity]. Qed.

Lemma demo_retry : answered (threads demo w0) (RSend "n2" in1) (at_request 7) (ASend (Ok ack1)).
Proof. apply demo_answered; [reflexivity|vm_compute; reflexivity]. Qed.

Lemma send_ack_committed_witness : ∃ m, m ∈ messages (w_db demoWorld) ∧ "v23"%string = Msg_ServerMsgId m.
Proof.
  destruct (send_ack_committed demoCfg true start (threads demo w0) demoWorld "n1" in1 (at_request 4) ack1 demo_reachable demo_send1)
    as (m & Hm & Hid & _).
  exists m. split; [exact Hm|exact Hid].
Defined.

Lemma send_idempotent_witness : ack1 = ack1.
Proof.
  apply (send_idempotent demoCfg true start (threads demo w0) demoWorld "n1" in1 (at_request 4) ack1 "n2" in1 (at_request 7) ack1).
  - exact demo_reachable.
  - exact demo_send1.
  - exact demo_retry.
  - reflexivity.
  - reflexivity.
  - reflexivity.
Defined.

Definition rest : list Request := drop 6 demo.
Definition next : Request := RSend "n2" in2.

Lemma send_order_witness : Ack_Seq ack1 < Ack_Seq ack2.
Proof.
  apply (send_order demoCfg true start (threads (take 5 demo) w0) (at_request 5) (threads (take 5 demo) w0) (at_request 5)
    (threads (take 5 demo) w0 ++ threads (next :: rest) (at_request 5)) (play (next :: rest) (at_request 5))
    "n1" in1 (at_request 4) ack1 "n2" in2 ack2).
  - apply first_reachable. vm_compute. reflexivity.
  - rewrite (take_S_r demo 4 (RSend "n1" in1)) by reflexivity. rewrite threads_app. apply elem_of_app. right.
    apply threads_head. vm_compute. reflexivity.
  - apply rtc_refl.
  - intros m Hm E. assert (forallb (λ m, negb (Msg_SenderId m =? b)%string) (messages (w_db (at_request 5))) = true) as Hb
      by (vm_compute; reflexivity).
    rewrite forallb_forall in Hb. apply list_elem_of_In in Hm. apply Hb in Hm. injection E as _ E _. rewrite E in Hm. by vm_compute in Hm.
  - apply play_steps. vm_compute. reflexivity.
  - unfold answered. apply elem_of_app. right. apply threads_head. vm_compute. reflexivity.
  - reflexivity.
Defined.
