(* ===== verification/AccessThms.v ===== *)
(** * Reading, membership and visibility

    Who may read what, in every reachable pool of requests. *)

From S2P Require Import Prelude Errcode Strconv Identity Json Store PgStore Conv DbInv Conc RateLimit MemberCache World OnlineStore ConvPage MessageSvc GroupSvc ConversationSvc UserSvc History WorldInv TxInv MessageInv GroupInv Paging ConversationInv UserInv System Scenario SendThms.

Local Open Scope Z_scope.

#[local] Existing Instance countingLib.
#[local] Existing Instance demoEnv.
#[local] Existing Instance demoBcrypt.

Section Access.
Context `{RL : RateLib} `{EN : Env} `{BC : Bcrypt}.
Variables (cfg : Config) (nativeOn : bool) (start : string → Z).

Abbreviation Reach := (reachable cfg nativeOn start).
Abbreviation Steps := (rtc (pool_step bnd (handle cfg nativeOn) arrives)).

(** ** Pulling *)

(** A range of the history, empty or not. *)
Lemma range_seqs_any d c b e : DbOk d → 1 ≤ b → e ≤ conv_max d c → map Msg_Seq (range_msgs d c b e) = seqZ b (e - b + 1).
Proof.
  intros Hd Hb He. destruct (Z.le_gt_cases b (e + 1)) as [|Hgt]; [by apply range_seqs|].
  unfold range_msgs. rewrite keep_none; [by rewrite seqZ_nil by lia|]. intros m _. unfold in_range. lia.
Qed.

Lemma take_seqZ n b k : take n (seqZ b k) = seqZ b (Z.min (Z.of_nat n) k).
Proof.
  destruct (Z.le_gt_cases k 0) as [Hk|Hk]; [rewrite !seqZ_nil by lia; by destruct n|].
  destruct (Z.le_gt_cases k (Z.of_nat n)) as [Hn|Hn].
  - rewrite take_ge; [by rewrite Z.min_r by lia|]. rewrite length_seqZ. lia.
  - rewrite Z.min_l by lia. replace (seqZ b k) with (seqZ b (Z.of_nat n) ++ seqZ (b + Z.of_nat n) (k - Z.of_nat n)).
    + rewrite take_app_length'; [done|]. rewrite length_seqZ. lia.
    + rewrite <- seqZ_app by lia. f_equal. lia.
Qed.

(** C6: a pull answers with exactly the requested part of the visible range, in order and without gaps, cut at the page
    limit, on the state the database had at some moment of the request; [has_more] says whether something was cut. *)
Theorem pull_exact ts w i pageMax ws pr :
  Reach (ts, w) → answered ts (RPull i pageMax) ws (APull (Ok pr)) → pageMax < 2 ^ 31 - 1 →
  ∃ d uc, during ws w d ∧ userConvs d !! (PI_UserId i, PI_ConversationId i) = Some uc ∧
    let b := Z.max (PI_BeginSeq i) (UC_MinSeq uc) in
    let e := Z.min (PI_EndSeq i) (vmax d (PI_UserId i) (PI_ConversationId i)) in
    let limit := clampLimit (PI_Limit i) pageMax in
    map D_Seq (PR_Messages pr) = seqZ b (Z.min limit (e - b + 1)) ∧
    (∀ x, x ∈ PR_Messages pr → ∃ m, m ∈ messages d ∧ x = MessageFromStore m ∧ Msg_ConversationId m = PI_ConversationId i) ∧
    (PR_HasMore pr = true ↔ limit < e - b + 1).
Proof.
  intros H Ha Hpm. destruct (reach_post _ _ _ _ _ _ _ _ H Ha) as [_ Hp].
  destruct (Hp Hpm) as (d & uc & Hdur & Hd & _ & Huc & Hms & Hmore). exists d, uc. split_and!; try done.
  intros b e limit. pose proof (clampLimit_range (PI_Limit i) pageMax) as Hl. fold limit in Hl.
  assert (VisibleRange uc (conv_max d (PI_ConversationId i)) (PI_BeginSeq i) (PI_EndSeq i) = (b, e)) as Hbe.
  { unfold VisibleRange, e, vmax. by rewrite Huc. }
  rewrite Hbe in Hms, Hmore. simpl in Hms, Hmore. fold limit in Hms, Hmore.
  destruct (ok_uc d Hd _ _ _ Huc) as (_ & _ & _ & Hmin & _).
  assert (e ≤ conv_max d (PI_ConversationId i)) as He by (pose proof (vmax_le Hd (PI_UserId i) (PI_ConversationId i)); lia).
  pose proof (range_seqs_any d (PI_ConversationId i) b e Hd ltac:(lia) He) as Hs. split_and!.
  - rewrite Hms, map_map. change (λ x, D_Seq (MessageFromStore x)) with Msg_Seq. rewrite <- firstn_map, Hs.
    change (firstn ?n ?l) with (take n l). rewrite take_seqZ. f_equal. lia.
  - intros x Hx. rewrite Hms in Hx. apply list_elem_of_fmap in Hx as (m & -> & Hm).
    assert (m ∈ range_msgs d (PI_ConversationId i) b e) as Hm2.
    { rewrite <- (take_drop (Z.to_nat limit) (range_msgs _ _ _ _)). apply elem_of_app. by left. }
    apply elem_of_keep in Hm2 as [Hm2 _]. apply elem_of_conv_msgs in Hm2 as [? ?]. eauto.
  - rewrite Hmore, Z.ltb_lt. apply (f_equal length) in Hs. rewrite length_map, length_seqZ in Hs. rewrite Hs. lia.
Qed.

(** ** Visibility *)

(** C7: nobody gains access to the past: a message that existed in some reachable state and is visible to a user in a
    later state was already visible to that user. *)
Theorem no_retroactive_access p q o c s :
  Reach p → Steps p q → s ≤ conv_max (w_db p.2) c → visible (w_db q.2) o c s → visible (w_db p.2) o c s.
Proof.
  intros Hp Hs Hle Hv. pose proof (reachable_rely _ _ _ _ _ Hp Hs) as Hr. by apply (le_visible _ _ (wr_db _ _ Hr)).
Qed.

(** C8: membership and access agree: a user is a member of a group exactly when its row for the group's conversation
    has no upper bound, and then every later message is visible to it. *)
Theorem members_see_new_messages ts w g u :
  Reach (ts, w) →
  (is_Some (members (w_db w) !! (g, u)) ↔ ∃ uc, userConvs (w_db w) !! (u, GroupConv g) = Some uc ∧ UC_MaxSeq uc = 0) ∧
  (is_Some (members (w_db w) !! (g, u)) → ∀ s, visible (w_db w) u (GroupConv g) s ↔
     ∃ uc, userConvs (w_db w) !! (u, GroupConv g) = Some uc ∧ UC_MinSeq uc ≤ s ≤ conv_max (w_db w) (GroupConv g)).
Proof.
  intros H. apply reach_inv in H. pose proof (ok_member_uc _ (wi_db _ H) g u) as Hm. split; [done|].
  intros (uc & Huc & H0)%Hm s. unfold visible, visible_seq. rewrite Huc. split.
  - intros (x & [= <-] & Hx & _). eauto.
  - intros (x & [= <-] & Hx). eauto.
Qed.

(** A join commits one change: the joiner was no member, the group had room, and the joiner sees none of the messages
    sent before. *)
Lemma join_starts_empty ts w nd gid u ws :
  Reach (ts, w) → answered ts (RJoin nd gid u) ws (ADone None) →
  ∃ d d', DbLe (w_db ws) d ∧ DbLe d d' ∧ DbLe d' (w_db w) ∧
    members d !! (gid, u) = None ∧ is_Some (members d' !! (gid, u)) ∧
    Z.of_nat (length (keep (λ m, (GM_GroupId m =? gid)%string) (rows (members d)))) < maxMembers cfg ∧
    ∀ s, ¬ visible d' u (GroupConv gid) s.
Proof.
  intros H Ha. destruct (reach_post _ _ _ _ _ _ _ _ H Ha) as [_ (d & d' & _ & _ & H1 & H2 & H3 & _ & J1 & J2 & J3 & J4)].
  exists d, d'. done.
Qed.

(** C9: a member leaves by its own request or by a kick the roles allow: the target is a member and not the owner, the
    operator is at least an admin, and an admin cannot remove an admin. The change keeps what the user could read. *)
Theorem removal_authorized ts w nd gid op u ws :
  Reach (ts, w) →
  answered ts (RKick nd gid op u) ws (ADone None) ∨ op = u ∧ answered ts (RQuit nd gid u) ws (ADone None) →
  ∃ d d' g, DbLe (w_db ws) d ∧ DbLe d d' ∧ DbLe d' (w_db w) ∧
    groups d !! gid = Some g ∧ u ≠ Group_OwnerId g ∧ (op ≠ u → kick_allowed d g op u) ∧
    is_Some (members d !! (gid, u)) ∧ members d' !! (gid, u) = None ∧
    ∀ s, visible d' u (GroupConv gid) s ↔ visible d u (GroupConv gid) s.
Proof.
  intros H Ha.
  assert (committed ws w (removed_in gid op u)) as (d & d' & _ & _ & H1 & H2 & H3 & _ & (g & G1 & G2 & G3 & G4) & R2 & R3 & R4).
  { destruct Ha as [Ha|[-> Ha]]; destruct (reach_post _ _ _ _ _ _ _ _ H Ha) as [_ Hp]; [apply Hp|done]. }
  exists d, d', g. done.
Qed.

(** A group is created with exactly the given members, the creator as its only owner. *)
Lemma create_members ts w nd o i ws info :
  Reach (ts, w) → answered ts (RCreate nd o i) ws (ACreate (Ok info)) →
  ∃ d d', DbLe (w_db ws) d ∧ DbLe d d' ∧ DbLe d' (w_db w) ∧ groups d !! GI_Id info = None ∧
    (∃ g, groups d' !! GI_Id info = Some g ∧ Group_OwnerId g = o) ∧
    ∀ u, match members d' !! (GI_Id info, u) with
         | Some m => (u = o ∨ u ∈ CI_MemberIds i) ∧ (GM_Role m = RoleOwner ↔ u = o)
         | None => u ≠ o ∧ u ∉ CI_MemberIds i
         end.
Proof.
  intros H Ha. destruct (reach_post _ _ _ _ _ _ _ _ H Ha) as [_ (d & d' & _ & _ & H1 & H2 & H3 & _ & J1 & (g & Hg & Ho & _) & J3)].
  exists d, d'. split_and!; eauto. intros u. specialize (J3 u). destruct (members d' !! _) as [m|].
  - destruct J3 as [Hu Hr]. rewrite elem_of_Uniq, elem_of_cons in Hu. split; [done|]. rewrite Hr.
    destruct (String.eqb_spec u o); [done|]. by split.
  - rewrite elem_of_Uniq, elem_of_cons in J3. naive_solver.
Qed.

(** The details and the member list of a group are answered only to a user that was a member during the request. *)
Lemma group_reads_need_membership ts w gid u ws x :
  Reach (ts, w) →
  (∃ info, answered ts (RGet gid u) ws x ∧ x = AGet (Ok info)) ∨ (∃ ms, answered ts (RMembers gid u) ws x ∧ x = AMembers (Ok ms)) →
  ∃ d, during ws w d ∧ is_Some (members d !! (gid, u)).
Proof.
  intros H [(info & Ha & ->)|(ms & Ha & ->)]; by destruct (reach_post _ _ _ _ _ _ _ _ H Ha) as [_ Hp].
Qed.

(** ** Read cursors *)

(** Read cursors stay inside the visible range and never move back, from any reachable state to any later one. *)
Lemma read_cursors ts w q o c :
  Reach (ts, w) → Steps (ts, w) q →
  0 ≤ rseq (w_db w) o c ≤ vmax (w_db w) o c ∧ vmax (w_db w) o c ≤ conv_max (w_db w) c ∧
  rseq (w_db w) o c ≤ rseq (w_db q.2) o c.
Proof.
  intros H Hs. pose proof (reachable_rely _ _ _ _ _ H Hs) as Hr. apply reach_inv in H as [Hd _ _ _ _ _].
  split_and!; try apply (rseq_le_vmax Hd); [by apply vmax_le|apply (le_read _ _ (wr_db _ _ Hr))].
Qed.

(** C10: marking as read answers with the larger of the old cursor and the requested position clipped to what is
    visible, for a conversation the user has, and the stored cursor is at least the answer from then on. *)
Theorem mark_read_clipped ts w nd u conn c n ws t :
  Reach (ts, w) → answered ts (RMarkRead nd u conn c n) ws (AMarkRead (Ok t)) →
  ∃ d, during ws w d ∧ is_Some (userConvs d !! (u, c)) ∧ t = Z.max (rseq d u c) (Z.min n (vmax d u c)) ∧ t ≤ rseq (w_db w) u c.
Proof.
  intros H Ha. destruct (reach_post _ _ _ _ _ _ _ _ H Ha) as [_ (d & Hdur & _ & _ & Hs & Ht & Hb)]. exists d. done.
Qed.

(** ** Conversation items *)

(** An item of the conversation list or of a single lookup reports, for one state of the database during the request, the
    visible maximum, the read cursor and their distance as the unread count; its last message is the one at
    the visible maximum, and is missing, when asked for, only if nothing is visible. *)
Lemma item_reports_row ts w u ws i withLast :
  Reach (ts, w) →
  (∃ k, answered ts (RGetConv u k withLast) ws (AConv (Ok i))) ∨
  (∃ cursor limit pm res, answered ts (RListConvs u cursor limit pm withLast) ws (AList (Ok res)) ∧ pm < 2 ^ 31 - 1 ∧
     i ∈ LR_Conversations res) →
  ∃ d, during ws w d ∧ It_MaxSeq i = vmax d u (It_ConversationId i) ∧ It_ReadSeq i = rseq d u (It_ConversationId i) ∧
    It_Unread i = It_MaxSeq i - It_ReadSeq i ∧
    match It_LastMessage i with
    | Some x => ∃ m, m ∈ messages (w_db w) ∧ x = MessageFromStore m ∧ Msg_ConversationId m = It_ConversationId i ∧ Msg_Seq m = It_MaxSeq i
    | None => withLast = true → It_MaxSeq i < It_MinSeq i
    end.
Proof.
  intros H Ha. pose proof (reachable_bnd _ _ _ _ _ H) as Hb.
  assert (item_answer ws w u withLast i) as (d & Hdur & Hd & Hle & Hi & Hl & Hn).
  { destruct Ha as [(k & Ha)|(cursor & limit & pm & res & Ha & Hpm & Hin)]; destruct (reach_post _ _ _ _ _ _ _ _ H Ha) as [_ Hp].
    - exact Hp.
    - destruct (Hp Hpm) as (rows & _ & _ & Hit). by apply Hit. }
  destruct (item_unread d u i Hd (db_bnd_le _ _ Hle Hb) Hi) as [Hu Hm]. exists d.
  assert (It_ReadSeq i = rseq d u (It_ConversationId i)) as Hread.
  { destruct Hi as (uc & Huc & E). unfold rseq. rewrite Huc. by apply (f_equal It_ReadSeq) in E. }
  split_and!; try done; [congruence|]. unfold last_ok in Hl. destruct (It_LastMessage i); [|auto]. destruct Hl as [_ Hl]. exact Hl.
Qed.

(** The per-conversation counters of [MaxSeqs] are those of the user's rows in one state of the database during the
    request. *)
Lemma max_seqs_report_rows ts w u cursor limit pm ws res it :
  Reach (ts, w) → answered ts (RMaxSeqs u cursor limit pm) ws (AMaxSeqs (Ok res)) → pm < 2 ^ 31 - 1 → it ∈ MSR_Items res →
  ∃ d, during ws w d ∧ is_Some (userConvs d !! (u, MS_ConversationId it)) ∧
    MS_MaxSeq it = vmax d u (MS_ConversationId it) ∧ MS_ReadSeq it = rseq d u (MS_ConversationId it).
Proof.
  intros H Ha Hpm Hit. destruct (reach_post _ _ _ _ _ _ _ _ H Ha) as [_ Hp]. destruct (Hp Hpm) as (d & Hdur & _ & _ & Hall).
  destruct (Hall it Hit) as (? & ? & ?). exists d. done.
Qed.
End Access.

(** ** The theorems on the concrete history *)

Definition pullB : PullInput := mkPullInput b gconv 1 10 10.
Definition pullResult : PullResult := match (run (hdl (RPull pullB 100)) (at_request 9)).1 with APull (Ok pr) => pr | _ => mkPullResult [] true end.

Lemma demo_pull : answered (threads demo w0) (RPull pullB 100) (at_request 9) (APull (Ok pullResult)).
Proof. apply demo_answered; [reflexivity|vm_compute; reflexivity]. Qed.

Lemma pull_exact_witness :
  map D_Seq (PR_Messages pullResult) = [1; 2] ∧ ∃ d uc, during (at_request 9) demoWorld d ∧ userConvs d !! (b, gconv) = Some uc.
Proof.
  split; [vm_compute; reflexivity|].
  destruct (pull_exact demoCfg true start (threads demo w0) demoWorld pullB 100 (at_request 9) pullResult
    demo_reachable demo_pull) as (d & uc & Hd & Huc & _); [lia|]. exists d, uc. split; [exact Hd|exact Huc].
Defined.

(** In the state after the two group messages, and in the last one. *)
Definition pool5 := (threads (take 6 demo) w0, at_request 6).
Definition pool_end := (threads (take 6 demo) w0 ++ threads (drop 6 demo) (at_request 6), play (drop 6 demo) (at_request 6)).

Lemma pool5_reachable : reachable demoCfg true start pool5.
Proof. apply first_reachable. vm_compute. reflexivity. Qed.

Lemma pool5_steps : rtc (pool_step bnd (handle demoCfg true) arrives) pool5 pool_end.
Proof. apply play_steps. vm_compute. reflexivity. Qed.

Lemma bob_sees_last : visible (w_db pool_end.2) b gconv 2.
Proof.
  eexists. split; [vm_compute; reflexivity|]. unfold visible_seq. vm_compute. split; [split; discriminate|right; discriminate].
Qed.

Lemma no_retroactive_access_witness : visible (w_db pool5.2) b gconv 2.
Proof.
  apply (no_retroactive_access demoCfg true start pool5 pool_end b gconv 2 pool5_reachable pool5_steps).
  - vm_compute. discriminate.
  - exact bob_sees_last.
Defined.

Lemma members_see_new_messages_witness :
  is_Some (members (w_db demoWorld) !! (gid, a)) ↔ ∃ uc, userConvs (w_db demoWorld) !! (a, gconv) = Some uc ∧ UC_MaxSeq uc = 0.
Proof. apply (members_see_new_messages demoCfg true start (threads demo w0) demoWorld gid a demo_reachable). Defined.

Lemma join_starts_empty_witness : ∃ d', DbLe d' (w_db demoWorld) ∧ ∀ s, ¬ visible d' c gconv s.
Proof.
  destruct (join_starts_empty demoCfg true start (threads demo w0) demoWorld "n1" gid c (at_request 6) demo_reachable)
    as (d & d' & _ & _ & H3 & _ & _ & _ & H).
  - apply demo_answered; [reflexivity|vm_compute; reflexivity].
  - exists d'. split; [exact H3|exact H].
Defined.

Lemma removal_authorized_witness : ∃ d d', is_Some (members d !! (gid, c)) ∧ members d' !! (gid, c) = None.
Proof.
  destruct (removal_authorized demoCfg true start (threads demo w0) demoWorld "n1" gid a c (at_request 14) demo_reachable)
    as (d & d' & g & _ & _ & _ & _ & _ & _ & H1 & H2 & _).
  - left. apply demo_answered; [reflexivity|vm_compute; reflexivity].
  - exists d, d'. split; [exact H1|exact H2].
Defined.

Definition team : GroupInfo := mkGroupInfo gid "team" "" "" a 0 "" 2 10000 10000.

Lemma create_members_witness : ∃ d', ∃ g, groups d' !! gid = Some g ∧ Group_OwnerId g = a.
Proof.
  destruct (create_members demoCfg true start (threads demo w0) demoWorld "n1" a (mkCreateInput "team" "" "" "" [b]) (at_request 3) team
    demo_reachable) as (d & d' & _ & _ & _ & _ & H & _).
  - apply demo_answered; [reflexivity|vm_compute; reflexivity].
  - exists d'. exact H.
Defined.

Definition team1 : GroupInfo := mkGroupInfo gid "team" "" "" a 0 "" 1 10000 10000.

Lemma group_reads_need_membership_witness : ∃ d, during (at_request 15) demoWorld d ∧ is_Some (members d !! (gid, a)).
Proof.
  apply (group_reads_need_membership demoCfg true start (threads demo w0) demoWorld gid a (at_request 15) (AGet (Ok team1)) demo_reachable).
  left. exists team1. split; [|reflexivity]. apply demo_answered; [reflexivity|vm_compute; reflexivity].
Defined.

Lemma read_cursors_witness : rseq (w_db pool5.2) a gconv ≤ rseq (w_db pool_end.2) a gconv.
Proof.
  apply (read_cursors demoCfg true start pool5.1 pool5.2 pool_end a gconv pool5_reachable pool5_steps).
Defined.

Lemma mark_read_clipped_witness : 2 ≤ rseq (w_db demoWorld) b gconv.
Proof.
  destruct (mark_read_clipped demoCfg true start (threads demo w0) demoWorld "n1" b "conn" gconv 1 (at_request 11) 2 demo_reachable)
    as (d & _ & _ & _ & H).
  - apply demo_answered; [reflexivity|vm_compute; reflexivity].
  - exact H.
Defined.

Definition bobItem : Item :=
  match (run (hdl (RGetConv b (mkGetKey gconv "" "") true)) (at_request 17)).1 with
  | AConv (Ok i) => i
  | _ => mkItem "" 0 "" "" 0 0 0 0 0 false "" 0 None
  end.

Lemma item_reports_row_witness : It_Unread bobItem = It_MaxSeq bobItem - It_ReadSeq bobItem.
Proof.
  destruct (item_reports_row demoCfg true start (threads demo w0) demoWorld b (at_request 17) bobItem true demo_reachable)
    as (d & _ & _ & _ & H & _).
  - left. exists (mkGetKey gconv "" ""). apply demo_answered; [reflexivity|vm_compute; reflexivity].
  - exact H.
Defined.

Definition bobSeqs : MaxSeqsResult :=
  match (run (hdl (RMaxSeqs b "" 10 100)) (at_request 19)).1 with AMaxSeqs (Ok r) => r | _ => mkMaxSeqsResult [] "" true end.
Definition bobSeq : MaxSeqItem := default (mkMaxSeqItem "" 0 0 0) (head (MSR_Items bobSeqs)).

Lemma max_seqs_report_rows_witness : ∃ d, during (at_request 19) demoWorld d ∧ MS_MaxSeq bobSeq = vmax d b (MS_ConversationId bobSeq).
Proof.
  destruct (max_seqs_report_rows demoCfg true start (threads demo w0) demoWorld b "" 10 100 (at_request 19) bobSeqs bobSeq demo_reachable)
    as (d & Hd & _ & H & _).
  - apply demo_answered; [reflexivity|vm_compute; reflexivity].
  - lia.
  - vm_compute. left.
  - exists d. split; [exact Hd|exact H].
Defined.

(** Bob's two conversations on two pages of one. *)
Definition stamp_ok (kv : key * UserConversation) : bool :=
  (0 <=? UC_UpdatedAt kv.2) && (UC_UpdatedAt kv.2 <=? 1000000 * Second).

Lemma demo_stamps o k uc : userConvs (w_db demoWorld) !! (o, k) = Some uc →
  minInt64 ≤ UnixMilli (UC_UpdatedAt uc) ≤ maxInt64 ∧ UC_UpdatedAt uc < LC_UpdatedAt FirstPage.
Proof.
  intros H. assert (forallb stamp_ok (map_to_list (userConvs (w_db demoWorld))) = true) as Hall by (vm_compute; reflexivity).
  rewrite forallb_forall in Hall. apply elem_of_map_to_list, list_elem_of_In, Hall in H. unfold stamp_ok, Second in H. simpl in H.
  unfold UnixMilli, Millisecond, minInt64, maxInt64, FirstPage, Second. simpl.
  assert (0 ≤ UC_UpdatedAt uc ≤ 1000000 * 1000000000) by lia.
  assert (0 ≤ UC_UpdatedAt uc / 1000000 ≤ UC_UpdatedAt uc) by (split; [apply Z.div_pos; lia|apply Z.div_le_upper_bound; lia]). lia.
Qed.

Lemma ListPage_complete_witness :
  length (user_rows (w_db demoWorld) b) = 2%nat ∧ (run (fetchAll 3 b "" 1 100) demoWorld).1 = Ok (user_rows (w_db demoWorld) b).
Proof.
  assert (length (user_rows (w_db demoWorld) b) = 2%nat) as Hl by (vm_compute; reflexivity). split; [exact Hl|].
  destruct (ListPage_complete (EN := demoEnv) (λ _, eq_refl) demoWorld b 1 100) as [H _].
  - apply (reach_inv demoCfg true start (threads demo w0) demoWorld demo_reachable).
  - lia.
  - intros k uc. apply demo_stamps.
  - rewrite Hl in H. exact H.
Defined.
