(* ===== verification/DeliveryThms.v ===== *)
(** * Delivery: events, offline pushes and the memory of a node

    What reaches the bus and the push webhook, and how much a node keeps, in every reachable pool. *)

From S2P Require Import Prelude Errcode Strconv Identity Json Store PgStore Conv DbInv Conc RateLimit MemberCache World OnlineStore ConvPage MessageSvc GroupSvc ConversationSvc UserSvc History WorldInv TxInv MessageInv Deliver GroupInv Paging ConversationInv UserInv System Scenario SendThms.

Local Open Scope Z_scope.

#[local] Existing Instance countingLib.
#[local] Existing Instance demoEnv.
#[local] Existing Instance demoBcrypt.

Section Delivery.
Context `{RL : RateLib} `{EN : Env} `{BC : Bcrypt}.
Variables (cfg : Config) (nativeOn : bool) (start : string → Z).

Abbreviation Reach := (reachable cfg nativeOn start).

(** C15: nothing is published that did not happen: a push event on the bus is that of a committed message, a group event names a
    group that exists, and a read event carries a position the stored cursor has reached. *)
Theorem published_events_true ts w e :
  Reach (ts, w) → e ∈ w_bus w →
  match BE_Payload e with
  | TypePush p => ∃ m conn, m ∈ messages (w_db w) ∧ pushPayload (pushEvent m conn) = Some p
  | TypeGroupChanged g => is_Some (groups (w_db w) !! g)
  | TypeConvRead r => 1 ≤ RE_ReadSeq r ≤ rseq (w_db w) (RE_UserId r) (RE_ConversationId r)
  | _ => True
  end.
Proof.
  intros H He. apply reach_inv in H. pose proof (wi_bus _ H) as Hb. rewrite Forall_forall in Hb. specialize (Hb e He).
  unfold bus_event_ok in Hb. destruct (BE_Payload e); try done. destruct Hb as (ev & (m & conn & Hm & ->) & Hp). eauto.
Qed.


(** What a node keeps in memory is bounded, whatever the requests: rate-limit entries, cached rosters, and push workers; and
    every push waiting for a worker is that of a committed message. *)
Lemma node_memory_bounded ts w nd :
  Reach (ts, w) →
  Z.of_nat (size (k_entries (n_sendLimit (w_nodes w nd)))) ≤ maxTrackedSenders ∧
  Z.of_nat (size (mc_entries (n_members (w_nodes w nd)))) ≤ memberCacheMax ∧
  (n_pushSem (w_nodes w nd) ≤ offlinePushWorkers)%nat ∧
  ∀ ev, ev ∈ n_pushJobs (w_nodes w nd) → ∃ m conn, m ∈ messages (w_db w) ∧ ev = pushEvent m conn.
Proof.
  intros H. apply reach_inv in H. destruct (wi_nodes _ H nd) as [Hl Hm Hc Hs Hj]. split_and!; try done.
  - pose proof (ko_cap _ Hl) as Hcap. rewrite Hm in Hcap. unfold maxTrackedSenders in *. lia.
  - intros ev He. rewrite Forall_forall in Hj. by apply Hj.
Qed.

(** C16: a node that receives a push rebuilds the event that was published, whether the payload carried the message or, being too
    large, only a reference to it: the event is that of a committed message and has this payload. *)
Theorem resolve_push_faithful ts w p ws ev :
  Reach (ts, w) → answered ts (RResolve p) ws (AEvent (Ok ev)) →
  (∃ m conn, m ∈ messages (w_db w) ∧ ev = pushEvent m conn) ∧ pushPayload ev = Some p.
Proof. intros H Ha. by destruct (reach_post _ _ _ _ _ _ _ _ H Ha) as [_ Hp]. Qed.

End Delivery.

(** ** The theorems on the concrete history *)

Definition first_push : PushPayload :=
  default (mkPushPayload "" 0 0 "" "" "" "" false None)
    (head (omap (λ e, match BE_Payload e with TypePush p => Some p | _ => None end) (w_bus demoWorld))).

Definition push_bus_event : BusEvent := mkBusEvent "n1" (TypePush first_push).

Lemma published_events_true_witness :
  ∃ m conn, m ∈ messages (w_db demoWorld) ∧ pushPayload (pushEvent m conn) = Some first_push.
Proof.
  apply (published_events_true demoCfg true start (threads demo w0) demoWorld push_bus_event demo_reachable).
  vm_compute. right. left.
Defined.

Definition pushed : list string * Notification := default ([], mkNotification "" 0 0 "" "" 0 "" 0) (head (w_pushes demoWorld)).


Lemma node_memory_bounded_witness : (n_pushSem (w_nodes demoWorld "n1") ≤ offlinePushWorkers)%nat.
Proof. apply (node_memory_bounded demoCfg true start (threads demo w0) demoWorld "n1" demo_reachable). Defined.

Definition first_event : PushEvent := pushEvent (nth_message 0) "conn".

Lemma resolve_push_faithful_witness : pushPayload first_event = Some first_push.
Proof.
  apply (resolve_push_faithful demoCfg true start (threads demo w0 ++ threads [RResolve first_push] demoWorld)
    (play [RResolve first_push] demoWorld) first_push demoWorld first_event).
  - apply play_reachable; [vm_compute; reflexivity|exact demo_reachable].
  - apply elem_of_app. right. apply threads_head. vm_compute. reflexivity.
Defined.

(** The first push of the history is delivered on a node where both users are connected, the sender twice. *)
Definition pushUsers : UserMap.UserMap :=
  let reg u i n := (λ m, (UserMap.Register m (UserMap.mkClient n i u 1 "" "10.0.0.1") false).2) in
  reg b "conn-b" 3%nat (reg a "conn-a2" 2%nat (reg a "conn" 1%nat (UserMap.NewUserMap (UserMap.mkLimits 0 0 0 0)))).

Definition deliver_first : Request := RDeliver "n2" first_push pushUsers (λ _, pushUsers).

Definition delivered_first : list (UserMap.Client * DtoMessage) :=
  match (run (hdl deliver_first) demoWorld).1 with ADeliver (Ok l) => l | _ => [] end.

