(* ===== verification/AccountThms.v ===== *)
(** * Accounts and presence *)

From S2P Require Import Prelude Errcode Strconv Identity Json Store PgStore Conv DbInv Conc RateLimit MemberCache World OnlineStore ConvPage MessageSvc GroupSvc ConversationSvc UserSvc History WorldInv TxInv MessageInv GroupInv Paging ConversationInv UserInv System Scenario SendThms.

Local Open Scope Z_scope.

#[local] Existing Instance countingLib.
#[local] Existing Instance demoEnv.
#[local] Existing Instance demoBcrypt.

Section Account.
Context `{RL : RateLib} `{EN : Env} `{BC : Bcrypt}.
Variables (cfg : Config) (nativeOn : bool) (start : string → Z).

Abbreviation Reach := (reachable cfg nativeOn start).

(** A registration creates an account that did not exist, under the given name, whose stored hash accepts the password; the
    account exists from then on. *)
Lemma register_creates_account ts w username password nickname ws p :
  Reach (ts, w) → answered ts (RRegister username password nickname) ws (AProfile (Ok p)) →
  users (w_db ws) !! Pr_Id p = None ∧ is_Some (users (w_db w) !! Pr_Id p) ∧
  ∃ d u, during ws w d ∧ users d !! Pr_Id p = Some u ∧ User_Username u = username ∧ User_Nickname u = nickname ∧
    CompareHashAndPassword (User_PasswordHash u) password = true.
Proof.
  intros H Ha. destruct (reach_post _ _ _ _ _ _ _ _ H Ha) as [_ (H1 & H2 & d & u & H3 & H4 & _ & H5 & H6 & H7)].
  split_and!; try done. exists d, u. done.
Qed.

(** The platform's upsert accepts platform ids only, and the row had the given profile at some moment of the request. *)
Lemma upsert_writes_profile ts w id n av e ws p :
  Reach (ts, w) → answered ts (RUpsert id n av e) ws (AProfile (Ok p)) →
  (∃ x, ParseActor id = Ok x) ∧ Pr_Id p = id ∧
  ∃ d u, during ws w d ∧ users d !! id = Some u ∧ User_Nickname u = n ∧ User_Avatar u = av ∧ User_Extra u = e.
Proof.
  intros H Ha.
  destruct (reach_post _ _ _ _ _ _ _ _ H Ha) as [Hr (H1 & (d & u & H2 & H3 & H4 & H5 & H6) & (d2 & u2 & _ & H7 & H8 & ->))].
  split_and!.
  - destruct (ParseActor id); [eauto|done].
  - simpl. by eapply ok_users.
  - exists d, u. done.
Qed.

(** [OnlineStatus] answers for each requested user, in order, with the platforms of its live connections in one state of the
    registry during the request; without a registry everyone is offline. *)
Lemma online_status_reports ts w ids ws os :
  Reach (ts, w) → answered ts (ROnlineStatus ids) ws (AStatus (Ok os)) →
  map OS_UserId os = ids ∧
  (hasOnline cfg = true → ∃ d now, during ws w d ∧ ∀ o, o ∈ os →
     NoDup (OS_Platforms o) ∧ (OS_Online o = true ↔ OS_Platforms o ≠ []) ∧
     ∀ p, p ∈ OS_Platforms o ↔ ∃ k r, online d !! k = Some r ∧ OC_UserId r = OS_UserId o ∧ OC_PlatformId r = p ∧
       now - onlineTtl cfg < OC_HeartbeatAt r) ∧
  (hasOnline cfg = false → ∀ o, o ∈ os → OS_Online o = false).
Proof.
  intros H Ha. destruct (reach_post _ _ _ _ _ _ _ _ H Ha) as [_ [H1 H2]]. split; [done|]. destruct (hasOnline cfg); (split; [|]); try done.
  - intros _. destruct H2 as (d & now & Hd & Hall). exists d, now. split; [done|]. by apply Forall_forall.
  - intros _ o Ho. rewrite Forall_forall in H2. by apply H2.
Qed.
End Account.

(** ** The theorems on a concrete history *)

Definition more : list Request :=
  [ RRegister "zoe" "secret1" "Zoe"; ROnlineAdd "n1" (mkConnRef a 5 "c1"); ROnlineStatus [a; b] ].

Definition m0 : World := demoWorld.
Definition m2 : World := play (take 2 more) demoWorld.
Definition more_threads : list (@thread World Request Response) := threads demo w0 ++ threads more demoWorld.

Lemma more_reachable : reachable demoCfg true start (more_threads, play more demoWorld).
Proof. apply play_reachable; [vm_compute; reflexivity|exact demo_reachable]. Qed.

Definition zoe : Profile :=
  match (run (hdl (RRegister "zoe" "secret1" "Zoe")) m0).1 with AProfile (Ok p) => p | _ => mkProfile "" "" "" "" 0 0 end.

Lemma register_creates_account_witness : is_Some (users (w_db (play more demoWorld)) !! Pr_Id zoe).
Proof.
  destruct (register_creates_account demoCfg true start more_threads (play more demoWorld) "zoe" "secret1" "Zoe" m0 zoe more_reachable)
    as (_ & H & _).
  - apply elem_of_app. right. apply threads_head. vm_compute. reflexivity.
  - exact H.
Defined.

Lemma upsert_writes_profile_witness : ∃ x, ParseActor a = Ok x.
Proof.
  destruct (upsert_writes_profile demoCfg true start (threads demo w0) demoWorld a "Ann" "" "" (at_request 0) (mkProfile a "Ann" "" "" 0 0)
    demo_reachable) as (H & _).
  - apply demo_answered; [reflexivity|vm_compute; reflexivity].
  - exact H.
Defined.

Definition statuses : list OnlineStatusItem := [mkOnlineStatus a true [5]; mkOnlineStatus b false []].

Lemma online_status_reports_witness : map OS_UserId statuses = [a; b].
Proof.
  apply (online_status_reports demoCfg true start more_threads (play more demoWorld) [a; b] m2 statuses more_reachable).
  apply elem_of_app. right. rewrite (threads_app (take 2 more) (drop 2 more)). apply elem_of_app. right.
  apply threads_head. vm_compute. reflexivity.
Defined.
