(* ===== verification/Cache.v ===== *)
(** * Key-value caches ([internal/cache])

    The interface [cache.Cache] as a class of operations with its laws, stated in terms of the value a
    key has at a time; the in-process driver [internal/cache/local] is an instance, and so is any
    driver behind a network that can fail before or after a call took effect. *)

From S2P Require Import Prelude Errcode Strconv Store Conc RateLimit World.

Local Open Scope Z_scope.

Definition KeyPrefix : string := "nexo:".

(** ** The interface *)

Class Cache (C : Type) := {
  c_Get : Z → string → C → result (string * bool) * C;
  c_Set : Z → string → string → Z → C → result unit * C;
  c_SetNX : Z → string → string → Z → C → result bool * C;
  c_DelIfValue : Z → string → string → C → result unit * C }.

Section Laws.
Context {C : Type} (live : C → Z → string → option string) (until : Z → Z → Z).

(** From time [now] on the two caches answer alike. *)
Definition same (now : Z) (c c' : C) : Prop := ∀ t k, now ≤ t → live c' t k = live c t k.

(** [k] holds [v] until the end of a lifetime of [ttl], for ever when [ttl <= 0]. *)
Definition written (now : Z) (k v : string) (ttl : Z) (c c' : C) : Prop :=
  ∀ t k', now ≤ t →
    live c' t k' = if (k' =? k)%string then (if (ttl <=? 0) || (t <? until now ttl) then Some v else None) else live c t k'.

(** A matching value is gone, everything else stays. *)
Definition deleted (now : Z) (k v : string) (c c' : C) : Prop :=
  ∀ t k', now ≤ t → live c' t k' = if (k' =? k)%string && bool_decide (live c now k = Some v) then None else live c t k'.
End Laws.

(** What the drivers promise; an error says nothing about whether the call took effect. Clocks read
    later than the zero time. [until now ttl] is when a value written at [now] for [ttl] is gone: not before the lifetime is
    over, and at most a millisecond after it for the lifetimes in [span], those the driver can keep. *)
Class CacheOk (C : Type) `{Cache C} := {
  live : C → Z → string → option string;
  span : Z → Prop;
  until : Z → Z → Z;
  until_law now ttl : 0 < ttl → span ttl → now + ttl ≤ until now ttl ≤ now + ttl + Millisecond;
  Get_law now k c r c' : c_Get now k c = (r, c') → zeroTime < now →
    same live now c c' ∧ ∀ v b, r = Ok (v, b) → live c now k = if b : bool then Some v else None;
  Set_law now k v ttl c r c' : c_Set now k v ttl c = (r, c') → zeroTime < now → span ttl →
    written live until now k v ttl c c' ∨ is_Ok r = false ∧ same live now c c';
  SetNX_law now k v ttl c r c' : c_SetNX now k v ttl c = (r, c') → zeroTime < now → span ttl →
    live c now k = None ∧ written live until now k v ttl c c' ∧ r ≠ Ok false ∨
    same live now c c' ∧ r ≠ Ok true ∧ (r = Ok false → is_Some (live c now k));
  Del_law now k v c r c' : c_DelIfValue now k v c = (r, c') → zeroTime < now →
    deleted live now k v c c' ∨ is_Ok r = false ∧ same live now c c' }.

(** ** The local driver ([internal/cache/local/local.go]) *)

Record lentry := mkLEntry { le_val : string; le_exp : Z }.

Definition alive (e : lentry) (now : Z) : bool := (le_exp e =? zeroTime) || After (le_exp e) now.

Abbreviation Local := (gmap string lentry).

Definition expiry (now ttl : Z) : Z := if ttl <=? 0 then zeroTime else now + ttl.

(** [maps.DeleteFunc] over the dead entries. *)
Definition lc_sweep (now : Z) (c : Local) : Local := filter (λ ke : string * lentry, alive ke.2 now = true) c.

Definition lc_get (now : Z) (key : string) (c : Local) : option lentry * Local :=
  match c !! key with
  | None => (None, c)
  | Some e => if negb (alive e now) then (None, delete key c) else (Some e, c)
  end.

Definition lc_Get (now : Z) (key : string) (c : Local) : result (string * bool) * Local :=
  let '(e, c') := lc_get now key c in
  (Ok (match e with Some e => (le_val e, true) | None => (""%string, false) end), c').

Definition lc_Set (now : Z) (key val : string) (ttl : Z) (c : Local) : result unit * Local :=
  (Ok tt, <[key := mkLEntry val (expiry now ttl)]> c).

Definition lc_SetNX (now : Z) (key val : string) (ttl : Z) (c : Local) : result bool * Local :=
  match lc_get now key c with
  | (Some _, c') => (Ok false, c')
  | (None, c') => (Ok true, <[key := mkLEntry val (expiry now ttl)]> c')
  end.

Definition lc_DelIfValue (now : Z) (key expected : string) (c : Local) : result unit * Local :=
  match lc_get now key c with
  | (Some e, c') => (Ok tt, if (le_val e =? expected)%string then delete key c' else c')
  | (None, c') => (Ok tt, c')
  end.

#[export] Instance local_cache : Cache Local :=
  {| c_Get := lc_Get; c_Set := lc_Set; c_SetNX := lc_SetNX; c_DelIfValue := lc_DelIfValue |}.

(** The value of a key at a time. *)
Definition lc_live (c : Local) (t : Z) (k : string) : option string :=
  match c !! k with
  | Some e => if alive e t then Some (le_val e) else None
  | None => None
  end.

Lemma alive_mono e t t' : t ≤ t' → alive e t' = true → alive e t = true.
Proof. unfold alive, After. destruct (le_exp e =? zeroTime); simpl; [done|]. lia. Qed.

Lemma lc_get_spec now k c e c' :
  lc_get now k c = (e, c') → same lc_live now c c' ∧ option_map le_val e = lc_live c now k ∧ (e = None → c' !! k = None).
Proof.
  unfold lc_get, lc_live. destruct (c !! k) as [x|] eqn:E; [destruct (alive x now) eqn:Ea|]; simpl; intros [= <- <-]; split_and!; try done.
  - intros t k' Ht. destruct (decide (k' = k)) as [->|Hne]; [|by rewrite lookup_delete_ne].
    rewrite lookup_delete_eq, E. destruct (alive x t) eqn:Et; [|done]. by rewrite (alive_mono x now t) in Ea.
  - intros _. by rewrite lookup_delete_eq.
Qed.

Lemma insert_written now k v ttl (c0 c : Local) :
  zeroTime < now → same lc_live now c0 c → written lc_live Z.add now k v ttl c0 (<[k := mkLEntry v (expiry now ttl)]> c).
Proof.
  intros Hz Hs t k' Ht. unfold lc_live. destruct (String.eqb_spec k' k) as [->|Hne].
  - rewrite lookup_insert_eq. unfold alive, expiry, After. simpl. destruct (Z.leb_spec ttl 0); [by rewrite Z.eqb_refl|].
    replace (now + ttl =? zeroTime) with false by (symmetry; lia). simpl. by destruct (t <? now + ttl).
  - rewrite lookup_insert_ne by done. exact (Hs t k' Ht).
Qed.

#[export] Instance local_cache_ok : CacheOk Local.
Proof.
  refine {| live := lc_live; span := λ _, True; until := Z.add |}.
  - intros now ttl _ _. unfold Millisecond. lia.
  - intros now k c r c' H Hz. simpl in H. unfold lc_Get in H. destruct (lc_get now k c) as [e c1] eqn:E. injection H as <- <-.
    apply lc_get_spec in E as (Hs & Hl & _). split; [done|]. intros v b [= E']. rewrite <- Hl. destruct e; by injection E' as <- <-.
  - intros now k v ttl c r c' [= <- <-] Hz _. left. by apply insert_written.
  - intros now k v ttl c r c' H Hz _. simpl in H. unfold lc_SetNX in H. destruct (lc_get now k c) as [[e|] c1] eqn:E;
      apply lc_get_spec in E as (Hs & Hl & _); injection H as <- <-; simpl in Hl.
    + right. split_and!; done.
    + left. split_and!; [done|by apply insert_written|done].
  - intros now k v c r c' H Hz. simpl in H. unfold lc_DelIfValue in H. left. destruct (lc_get now k c) as [[e|] c1] eqn:E;
      apply lc_get_spec in E as (Hs & Hl & _); injection H as <- <-; simpl in Hl; intros t k' Ht; rewrite <- Hl.
    + destruct (String.eqb_spec k' k) as [->|Hne]; simpl.
      * destruct (String.eqb_spec (le_val e) v) as [->|Hv].
        -- rewrite bool_decide_eq_true_2 by done. unfold lc_live. by rewrite lookup_delete_eq.
        -- rewrite bool_decide_eq_false_2 by congruence. by apply Hs.
      * destruct (_ =? v)%string; [unfold lc_live; rewrite lookup_delete_ne by done; exact (Hs t k' Ht)|by apply Hs].
    + rewrite bool_decide_eq_false_2 by done. rewrite andb_false_r. by apply Hs.
Defined.

(** The periodic sweep of the local driver changes no answer. *)
Lemma lc_sweep_same now (c : Local) : same lc_live now c (lc_sweep now c).
Proof.
  intros t k Ht. unfold lc_live, lc_sweep. destruct (filter _ c !! k) as [e|] eqn:E.
  - by apply map_lookup_filter_Some in E as [-> _].
  - destruct (c !! k) as [e|] eqn:Ek; [|done]. apply map_lookup_filter_None in E as [E|E]; [congruence|].
    destruct (alive e t) eqn:Ea; [|done]. destruct (E e Ek). simpl. by eapply alive_mono.
Qed.

(** ** A driver over a network

    Any cache whose calls can be lost, or fail after they took effect. *)

Section Remote.
Context `{EN : Env} {C : Type} `{CC : Cache C}.

Abbreviation Remote := (C * nat)%type.

Definition remote {A} (f : C → result A * C) (s : Remote) : result A * Remote :=
  let '(c, n) := s in
  match fault n with
  | NoFault => let '(r, c') := f c in (r, (c', S n))
  | FailBefore m => (Err (EOther m), (c, S n))
  | FailAfter m => (Err (EOther m), ((f c).2, S n))
  end.

#[export] Instance remote_cache : Cache Remote :=
  {| c_Get now k := remote (c_Get now k); c_Set now k v ttl := remote (c_Set now k v ttl);
     c_SetNX now k v ttl := remote (c_SetNX now k v ttl); c_DelIfValue now k v := remote (c_DelIfValue now k v) |}.

Lemma remote_inv {A} (f : C → result A * C) s r s' :
  remote f s = (r, s') → f s.1 = (r, s'.1) ∨ is_Ok r = false ∧ (s'.1 = s.1 ∨ ∃ r0, f s.1 = (r0, s'.1)).
Proof.
  destruct s as [c n]. unfold remote. simpl. destruct (fault n).
  - destruct (f c) as [r0 c0]. intros [= <- <-]. by left.
  - intros [= <- <-]. simpl. auto.
  - intros [= <- <-]. simpl. right. split; [done|]. right. destruct (f c). eauto.
Qed.

#[export] Instance remote_cache_ok `{CO : !CacheOk C} : CacheOk Remote.
Proof.
  refine {| live := λ s t k, live s.1 t k; span := span; until := until |}.
  - apply until_law.
  - intros now k c r c' H Hz. apply remote_inv in H as [H|[Hr [H|[r0 H]]]].
    + by apply (Get_law now k _ r _ H).
    + split; [intros t k' _; by rewrite H|by intros v b ->].
    + split; [by apply (Get_law now k _ r0 _ H)|by intros v b ->].
  - intros now k v ttl c r c' H Hz Hsp. apply remote_inv in H as [H|[Hr [H|[r0 H]]]].
    + by apply (Set_law now k v ttl _ r _ H).
    + right. split; [done|]. intros t k' _. by rewrite H.
    + destruct (Set_law now k v ttl _ r0 _ H Hz Hsp) as [?|[_ ?]]; [by left|by right].
  - intros now k v ttl c r c' H Hz Hsp. apply remote_inv in H as [H|[Hr [H|[r0 H]]]].
    + by apply (SetNX_law now k v ttl _ r _ H).
    + right. split_and!; [intros t k' _; by rewrite H|by destruct r|by destruct r].
    + destruct (SetNX_law now k v ttl _ r0 _ H Hz Hsp) as [(? & ? & _)|(? & _)]; [left|right]; split_and!; try done; by destruct r.
  - intros now k v c r c' H Hz. apply remote_inv in H as [H|[Hr [H|[r0 H]]]].
    + by apply (Del_law now k v _ r _ H).
    + right. split; [done|]. intros t k' _. by rewrite H.
    + destruct (Del_law now k v _ r0 _ H Hz) as [?|[_ ?]]; [by left|by right].
Defined.
End Remote.
