(* ===== verification/CacheDrivers.v ===== *)
(** * The caches over a network ([internal/cache/pg], [internal/cache/redis])

    PostgreSQL: the statements of [pg/gen/cache.sql.go] on a table of rows and the driver over them, which keeps the promises of the interface
    for lifetimes of whole seconds; times are those of the database's clock. Redis: the commands in use on a table of string keys, what
    go-redis sends for a duration, and the driver over them, for lifetimes of whole milliseconds; the server counts time in milliseconds of
    its own clock, and a key is there until that clock is past its expiry. Calls that fail are in [remote]. *)

From S2P Require Import Prelude Errcode Strconv Store PgStore Conc RateLimit World Cache.

Local Open Scope Z_scope.

(** * PostgreSQL *)

Record crow := mkCRow { cr_value : string; cr_expires_at : option Z; cr_updated_at : Z }.

Abbreviation CacheTable := (gmap string crow).

(** [make_interval(secs => d.Seconds())]: a duration through [float8] seconds, kept in microseconds. *)
Class PgInterval := {
  interval : Z → Z;
  interval_seconds n : 0 ≤ n < 2 ^ 53 → interval (n * Second) = n * Second }.

(** [expires_at IS NULL OR expires_at > now()]. *)
Definition unexpired (now : Z) (r : crow) : bool := match cr_expires_at r with None => true | Some e => now <? e end.

Module CacheGen.
Section Statements.
Context `{PI : PgInterval}.

(** [CASE WHEN ttl > 0 THEN now() + make_interval(secs => ttl) END]. *)
Definition expires (now ttlSeconds : Z) : option Z := if 0 <? ttlSeconds then Some (now + interval ttlSeconds) else None.

Definition Get (now : Z) (key : string) (d : CacheTable) : option string :=
  match d !! key with Some r => if unexpired now r then Some (cr_value r) else None | None => None end.

Definition Set_ (now : Z) (key value : string) (ttlSeconds : Z) (d : CacheTable) : CacheTable :=
  <[key := mkCRow value (expires now ttlSeconds) now]> d.

(** The row is written when there is none, or when it has expired; [None] stands for no rows. *)
Definition SetNX (now : Z) (key value : string) (ttlSeconds : Z) (d : CacheTable) : option string * CacheTable :=
  match d !! key with
  | Some r => if unexpired now r then (None, d) else (Some key, Set_ now key value ttlSeconds d)
  | None => (Some key, Set_ now key value ttlSeconds d)
  end.

Definition DelIfValue (now : Z) (key value : string) (d : CacheTable) : CacheTable :=
  match d !! key with Some r => if (cr_value r =? value)%string && unexpired now r then delete key d else d | None => d end.

Definition older (a b : string * crow) : Prop := default 0 (cr_expires_at a.2) ≤ default 0 (cr_expires_at b.2).
#[local] Instance older_dec : RelDecision older.
Proof. intros a b. unfold older. apply _. Defined.

(** The rows that expired first, but for those another cleaner has [locked]; with their number. *)
Definition Cleanup (now : Z) (limitRows : nat) (locked : string → bool) (d : CacheTable) : nat * CacheTable :=
  let expired := merge_sort older (map_to_list (filter (λ kr : string * crow, unexpired now kr.2 = false ∧ locked kr.1 = false) d)) in
  let gone := firstn limitRows expired in
  (length gone, foldl (λ d kr, delete kr.1 d) d gone).
End Statements.
End CacheGen.

Section PgCache.
Context `{PI : PgInterval}.

Definition cleanupBatch : nat := 1000.

(** [max(ttl, 0).Seconds()]; the rounding of [float8] is in [interval]. *)
Definition ttlSeconds (ttl : Z) : Z := Z.max ttl 0.

Definition pc_Get (now : Z) (key : string) (d : CacheTable) : result (string * bool) * CacheTable :=
  (Ok (match CacheGen.Get now key d with Some v => (v, true) | None => (""%string, false) end), d).

Definition pc_Set (now : Z) (key val : string) (ttl : Z) (d : CacheTable) : result unit * CacheTable :=
  (Ok tt, CacheGen.Set_ now key val (ttlSeconds ttl) d).

Definition pc_SetNX (now : Z) (key val : string) (ttl : Z) (d : CacheTable) : result bool * CacheTable :=
  let '(r, d) := CacheGen.SetNX now key val (ttlSeconds ttl) d in (Ok (match r with Some _ => true | None => false end), d).

Definition pc_DelIfValue (now : Z) (key expected : string) (d : CacheTable) : result unit * CacheTable := (Ok tt, CacheGen.DelIfValue now key expected d).

#[export] Instance pg_cache : Cache CacheTable :=
  {| c_Get := pc_Get; c_Set := pc_Set; c_SetNX := pc_SetNX; c_DelIfValue := pc_DelIfValue |}.

(** ** The promises of the interface *)

Definition pc_live (d : CacheTable) (t : Z) (k : string) : option string := CacheGen.Get t k d.

(** The lifetimes PostgreSQL keeps. *)
Definition pc_span (ttl : Z) : Prop := ttl ≤ 0 ∨ interval ttl = ttl.

Lemma unexpired_mono r t t' : t ≤ t' → unexpired t' r = true → unexpired t r = true.
Proof. unfold unexpired. destruct (cr_expires_at r); [lia|done]. Qed.

Lemma Set_written now k v ttl d : pc_span ttl → written pc_live Z.add now k v ttl d (CacheGen.Set_ now k v (ttlSeconds ttl) d).
Proof.
  intros Hs t k' Ht. unfold pc_live, CacheGen.Get, CacheGen.Set_. destruct (String.eqb_spec k' k) as [->|Hne]; [|by rewrite lookup_insert_ne].
  rewrite lookup_insert_eq. unfold unexpired, CacheGen.expires, ttlSeconds. simpl. destruct (Z.leb_spec ttl 0); simpl.
  - by destruct (Z.ltb_spec 0 (Z.max ttl 0)); [lia|].
  - destruct (Z.ltb_spec 0 (Z.max ttl 0)); [|lia]. rewrite Z.max_l by lia. destruct Hs as [?| ->]; [lia|]. done.
Qed.

#[export] Instance pg_cache_ok : CacheOk CacheTable.
Proof.
  refine {| live := pc_live; span := pc_span; until := Z.add |}.
  - intros now ttl _ _. unfold Millisecond. lia.
  - intros now k d r d' [= <- <-] Hz. split; [done|]. intros v b [= E]. unfold pc_live. destruct (CacheGen.Get now k d); by injection E as <- <-.
  - intros now k v ttl d r d' [= <- <-] Hz Hs. left. by apply Set_written.
  - intros now k v ttl d r d' H Hz Hs. simpl in H. unfold pc_SetNX, CacheGen.SetNX in H. unfold pc_live, CacheGen.Get.
    destruct (d !! k) as [x|]; [destruct (unexpired now x)|]; injection H as <- <-; [right|left..]; split_and!; try done; by apply Set_written.
  - intros now k v d r d' [= <- <-] Hz. left. intros t k' Ht. unfold pc_live, CacheGen.DelIfValue, CacheGen.Get.
    destruct (d !! k) as [x|] eqn:E; [|by rewrite bool_decide_eq_false_2, andb_false_r]. destruct (unexpired now x) eqn:Eu; rewrite ?andb_true_r, ?andb_false_r.
    + destruct (String.eqb_spec (cr_value x) v) as [->|Hv].
      * rewrite bool_decide_eq_true_2, andb_true_r by done. destruct (String.eqb_spec k' k) as [->|Hne]; [by rewrite lookup_delete_eq|by rewrite lookup_delete_ne].
      * rewrite bool_decide_eq_false_2, andb_false_r by congruence. done.
    + by rewrite ?bool_decide_eq_false_2, ?andb_false_r by done.
Defined.

(** Hours, minutes and seconds. *)
Lemma seconds_span n : n < 2 ^ 53 → pc_span (n * Second).
Proof. intros Hn. unfold pc_span. destruct (Z.le_gt_cases n 0); [left; unfold Second; lia|right; apply interval_seconds; lia]. Qed.

(** The cleaner changes no answer, whatever it is given to delete. *)
Lemma Cleanup_same now limit locked d : same pc_live now d (CacheGen.Cleanup now limit locked d).2.
Proof.
  unfold CacheGen.Cleanup. simpl. set (gone := firstn _ _).
  assert (∀ k r, (k, r) ∈ gone → d !! k = Some r ∧ unexpired now r = false) as Hg.
  { intros k r Hin. apply (sublist_subseteq _ _ (sublist_take _ _)) in Hin. rewrite merge_sort_Permutation in Hin. apply elem_of_map_to_list, map_lookup_filter_Some in Hin. naive_solver. }
  intros t k Ht. unfold pc_live, CacheGen.Get.
  assert (∀ d', foldl (λ (d : CacheTable) kr, delete kr.1 d) d' gone !! k = if bool_decide (k ∈ map fst gone) then None else d' !! k) as ->.
  { clear Hg. induction gone as [|[k0 r0] gone IH]; intros d'; simpl; [done|]. rewrite IH. destruct (decide (k = k0)) as [->|Hne].
    - rewrite lookup_delete_eq. rewrite (bool_decide_eq_true_2 (k0 ∈ k0 :: _)) by left. by case_bool_decide.
    - rewrite lookup_delete_ne by done. by rewrite (bool_decide_ext (k ∈ k0 :: map fst gone) (k ∈ map fst gone)) by set_solver. }
  case_bool_decide as Hin; [|done]. apply list_elem_of_fmap in Hin as ([k' r] & -> & Hin). destruct (Hg _ _ Hin) as [Hd Hu]. simpl in *. rewrite Hd.
  destruct (unexpired t r) eqn:Eu; [|done]. by rewrite (unexpired_mono r now t Ht Eu) in Hu.
Qed.
End PgCache.

(** Seconds exactly, anything else to the microsecond below. *)
#[local] Instance micros : PgInterval.
Proof.
  refine {| interval d := d / 1000 * 1000 |}. intros n Hn. unfold Second. replace (n * 1000000000) with (n * 1000000 * 1000) by lia. by rewrite Z.div_mul.
Defined.

(** An expired row makes way, a live one does not. *)
Example nx_over_expired :
  let d := (c_Set 5 "k" "a" Second (∅ : CacheTable)).2 in
  (c_SetNX (5 + Second) "k" "b" 0 d).1 = Ok true ∧ (c_SetNX (4 + Second) "k" "b" 0 d).1 = Ok false.
Proof. split; vm_compute; reflexivity. Qed.

(** * Redis *)

(** ** Redis: strings with an expiry in milliseconds *)

Record RString := mkRString { rs_val : string; rs_exp : option Z }.

Abbreviation Strings := (gmap string RString).

Definition unexpired_ms (now : Z) (e : option Z) : bool := match e with Some e => UnixMilli now <=? e | None => true end.

(** A key as the server sees it at a time. *)
Definition GET (now : Z) (k : string) (db : Strings) : option string :=
  match db !! k with Some s => if unexpired_ms now (rs_exp s) then Some (rs_val s) else None | None => None end.

Inductive Expiry := NoExpiry | EX (seconds : Z) | PX (millis : Z).

Definition expiry_ms (now : Z) (e : Expiry) : option Z :=
  match e with NoExpiry => None | EX s => Some (UnixMilli now + s * 1000) | PX ms => Some (UnixMilli now + ms) end.

Definition SET (now : Z) (k v : string) (e : Expiry) (db : Strings) : Strings := <[k := mkRString v (expiry_ms now e)]> db.

(** The value is set when the key is not there; the reply says whether. *)
Definition SET_NX (now : Z) (k v : string) (e : Expiry) (db : Strings) : bool * Strings :=
  match GET now k db with Some _ => (false, db) | None => (true, SET now k v e db) end.

Definition DEL (k : string) (db : Strings) : Strings := delete k db.

(** What go-redis makes of a duration that is not negative: whole seconds go as [EX], anything else as [PX]. *)
Definition usePrecise (d : Z) : bool := (d <? Second) || negb (Z.rem d Second =? 0).

Definition formatMs (d : Z) : Z := if (0 <? d) && (d <? Millisecond) then 1 else Z.quot d Millisecond.

Definition expiration (d : Z) : Expiry := if 0 <? d then if usePrecise d then PX (formatMs d) else EX (Z.quot d Second) else NoExpiry.

(** ** The driver *)

Definition rc_Get (now : Z) (key : string) (db : Strings) : result (string * bool) * Strings :=
  (Ok (match GET now key db with Some v => (v, true) | None => (""%string, false) end), db).

Definition rc_Set (now : Z) (key val : string) (ttl : Z) (db : Strings) : result unit * Strings := (Ok tt, SET now key val (expiration (Z.max ttl 0)) db).

Definition rc_SetNX (now : Z) (key val : string) (ttl : Z) (db : Strings) : result bool * Strings :=
  let '(b, db) := SET_NX now key val (expiration (Z.max ttl 0)) db in (Ok b, db).

(** The script, which the server runs as one command. *)
Definition delIfValue (now : Z) (key expected : string) (db : Strings) : Z * Strings :=
  if bool_decide (GET now key db = Some expected) then (1, DEL key db) else (0, db).

Definition rc_DelIfValue (now : Z) (key expected : string) (db : Strings) : result unit * Strings := (Ok tt, (delIfValue now key expected db).2).

#[export] Instance redis_cache : Cache Strings :=
  {| c_Get := rc_Get; c_Set := rc_Set; c_SetNX := rc_SetNX; c_DelIfValue := rc_DelIfValue |}.

(** ** The promises of the interface *)

Definition rc_live (db : Strings) (t : Z) (k : string) : option string := GET t k db.

Definition rc_span (ttl : Z) : Prop := ttl ≤ 0 ∨ Z.rem ttl Millisecond = 0.

(** The start of the millisecond after the last one. *)
Definition rc_until (now ttl : Z) : Z := (UnixMilli now + Z.quot ttl Millisecond + 1) * Millisecond.

Lemma expiration_ms now ttl : 0 < ttl → rc_span ttl → expiry_ms now (expiration (Z.max ttl 0)) = Some (UnixMilli now + Z.quot ttl Millisecond).
Proof.
  intros Hp [?|Hr]; [lia|]. rewrite Z.max_l by lia. unfold expiration. destruct (Z.ltb_spec 0 ttl); [|lia].
  unfold usePrecise, formatMs, Second, Millisecond in *. destruct (Z.ltb_spec ttl 1000000000); simpl.
  - destruct (Z.ltb_spec 0 ttl), (Z.ltb_spec ttl 1000000); simpl; try lia; [|done..]. exfalso. rewrite Z.rem_small in Hr; lia.
  - destruct (Z.eqb_spec (Z.rem ttl 1000000000) 0) as [E|]; simpl.
    + f_equal. pose proof (Z.quot_rem' ttl 1000000000). pose proof (Z.quot_rem' ttl 1000000). lia.
    + destruct (Z.ltb_spec ttl 1000000); [lia|]. by rewrite andb_false_r.
Qed.

Lemma past_ms t n : (UnixMilli t <=? n) = (t <? (n + 1) * Millisecond).
Proof. apply eq_true_iff_eq. rewrite Z.leb_le, Z.ltb_lt. unfold UnixMilli, Millisecond. pose proof (Z.div_mod t 1000000). pose proof (Z.mod_pos_bound t 1000000). lia. Qed.

Lemma SET_written now k v ttl db : rc_span ttl → written rc_live rc_until now k v ttl db (SET now k v (expiration (Z.max ttl 0)) db).
Proof.
  intros Hs t k' Ht. unfold rc_live, GET, SET. destruct (String.eqb_spec k' k) as [->|Hne]; [|by rewrite lookup_insert_ne]. rewrite lookup_insert_eq. simpl.
  destruct (Z.leb_spec ttl 0); simpl; [by rewrite Z.max_r by lia|]. rewrite expiration_ms by done. simpl. rewrite past_ms. done.
Qed.

Lemma rc_until_law now ttl : 0 < ttl → rc_span ttl → now + ttl ≤ rc_until now ttl ≤ now + ttl + Millisecond.
Proof.
  intros Hp [?|Hr]; [lia|]. unfold rc_until, UnixMilli, Millisecond in *. pose proof (Z.div_mod now 1000000). pose proof (Z.mod_pos_bound now 1000000).
  pose proof (Z.quot_rem' ttl 1000000). lia.
Qed.

#[export] Instance redis_cache_ok : CacheOk Strings.
Proof.
  refine {| live := rc_live; span := rc_span; until := rc_until |}.
  - exact rc_until_law.
  - intros now k db r db' [= <- <-] Hz. split; [done|]. intros v b [= E]. unfold rc_live. destruct (GET now k db); by injection E as <- <-.
  - intros now k v ttl db r db' [= <- <-] Hz Hs. left. by apply SET_written.
  - intros now k v ttl db r db' H Hz Hs. simpl in H. unfold rc_SetNX, SET_NX in H. unfold rc_live.
    destruct (GET now k db) as [x|]; injection H as <- <-; [right|left]; split_and!; try done. by apply SET_written.
  - intros now k v db r db' [= <- <-] Hz. left. intros t k' Ht. unfold delIfValue, rc_live. case_bool_decide as Hb; simpl; [|by rewrite andb_false_r].
    rewrite andb_true_r. unfold DEL, GET. destruct (String.eqb_spec k' k) as [->|Hne]; [by rewrite lookup_delete_eq|by rewrite lookup_delete_ne].
Defined.

(** The lifetimes of the configuration: hours, minutes, seconds and milliseconds. *)
Lemma millis_span n : rc_span (n * Millisecond).
Proof. right. unfold Millisecond. by rewrite Z.rem_mul. Qed.

(** A lifetime of 2.5 s from a time inside a millisecond: there to the end of the last millisecond, then gone; a negative lifetime is for ever. *)
Example redis_expiry :
  let db := (c_Set 1000000500 "k" "v" 2500000000 (∅ : Strings)).2 in
  (c_Get 3500999999 "k" db).1 = Ok ("v", true)%string ∧ (c_Get 3501000000 "k" db).1 = Ok ("", false)%string ∧
  (c_Get (1000 * Second) "k" (c_Set 5 "k" "v" (-1) (∅ : Strings)).2).1 = Ok ("v", true)%string ∧
  (c_SetNX 3500999999 "k" "w" 0 db).1 = Ok false ∧ (c_SetNX 3501000000 "k" "w" 0 db).1 = Ok true.
Proof. split_and!; vm_compute; reflexivity. Qed.
