(* ===== verification/Sha256.v ===== *)
(** * SHA-256, HMAC and hex ([crypto/sha256], [crypto/hmac], [encoding/hex])

    FIPS 180-4 and RFC 2104 on lists of bytes, as the authentication code uses them. Words are
    32-bit integers with their wrap-around written out. *)

From S2P Require Import Prelude Errcode Strconv.

Local Open Scope Z_scope.

Definition w32 (x : Z) : Z := x mod 2 ^ 32.

Definition add32 (a b : Z) : Z := w32 (a + b).

Definition rotr (n x : Z) : Z := Z.lor (Z.shiftr x n) (w32 (Z.shiftl x (32 - n))).

Definition bigSigma0 (x : Z) : Z := Z.lxor (rotr 2 x) (Z.lxor (rotr 13 x) (rotr 22 x)).
Definition bigSigma1 (x : Z) : Z := Z.lxor (rotr 6 x) (Z.lxor (rotr 11 x) (rotr 25 x)).
Definition smallSigma0 (x : Z) : Z := Z.lxor (rotr 7 x) (Z.lxor (rotr 18 x) (Z.shiftr x 3)).
Definition smallSigma1 (x : Z) : Z := Z.lxor (rotr 17 x) (Z.lxor (rotr 19 x) (Z.shiftr x 10)).
Definition Ch (x y z : Z) : Z := Z.lxor (Z.land x y) (Z.land (Z.lxor x (2 ^ 32 - 1)) z).
Definition Maj (x y z : Z) : Z := Z.lxor (Z.land x y) (Z.lxor (Z.land x z) (Z.land y z)).

(** Trial division, and the primes among the numbers from 2 to [n + 1]. *)
Definition prime_b (k : Z) : bool := forallb (λ d, negb (k mod Z.of_nat d =? 0)) (seq 2 (Z.to_nat (Z.sqrt k) - 1)).

Definition primes (n : nat) : list Z := List.filter prime_b (map Z.of_nat (seq 2 n)).

(** The largest [r] below [2 ^ bits] above [acc] with [r ^ 3 <= x], by binary search. *)
Fixpoint cbrt_bits (bits : nat) (x acc : Z) : Z :=
  match bits with
  | O => acc
  | S b => let r := acc + 2 ^ Z.of_nat b in cbrt_bits b x (if r ^ 3 <=? x then r else acc)
  end.

(** The round constants are the first 32 bits of the fractional parts of the cube roots of the first 64 primes, the initial hash
    those of the square roots of the first 8. *)
Definition K256 : list Z := Eval vm_compute in map (λ p, w32 (cbrt_bits 40 (p * 2 ^ 96) 0)) (take 64 (primes 310)).

Definition H256 : list Z := Eval vm_compute in map (λ p, w32 (Z.sqrt (p * 2 ^ 64))) (take 8 (primes 18)).

(** Big-endian bytes of an integer. *)
Definition be_bytes (n : nat) (x : Z) : list Z := map (λ i, Z.shiftr x (8 * Z.of_nat i) mod 256) (rev (seq 0 n)).

Definition be_word (l : list Z) : Z := foldl (λ acc b, acc * 256 + b) 0 l.

(** The message schedule, newest word first. *)
Fixpoint schedule (n : nat) (w : list Z) : list Z :=
  match n with
  | O => w
  | S m =>
      let at_ i := nth i w 0 in
      let x := add32 (add32 (smallSigma1 (at_ 1%nat)) (at_ 6%nat)) (add32 (smallSigma0 (at_ 14%nat)) (at_ 15%nat)) in
      schedule m (x :: w)
  end.

Definition round (s : list Z) (kw : Z * Z) : list Z :=
  match s with
  | [a; b; c; d; e; f; g; h] =>
      let t1 := add32 h (add32 (bigSigma1 e) (add32 (Ch e f g) (add32 kw.1 kw.2))) in
      let t2 := add32 (bigSigma0 a) (Maj a b c) in
      [add32 t1 t2; a; b; c; add32 d t1; e; f; g]
  | _ => s
  end.

Definition compress (h : list Z) (block : list Z) : list Z :=
  let w := rev (schedule 48 (rev (map be_word (Chunk 4 block)))) in
  zip_with add32 h (foldl round h (zip K256 w)).

(** Padding to a multiple of 64 bytes: 0x80, zeros, the bit length. *)
Definition pad (l : list Z) : list Z :=
  let n := length l in
  let zeros := Z.to_nat ((55 - Z.of_nat n) mod 64) in
  l ++ [0x80] ++ replicate zeros 0 ++ be_bytes 8 (8 * Z.of_nat n).

Definition sha256 (l : list Z) : list Z :=
  flat_map (be_bytes 4) (foldl compress H256 (Chunk 64 (pad l))).

(** [hmac.New(sha256.New, key)]. *)
Definition hmac256 (key msg : list Z) : list Z :=
  let key := if (64 <? length key)%nat then sha256 key else key in
  let key := key ++ replicate (64 - length key) 0 in
  sha256 (map (Z.lxor 0x5c) key ++ sha256 (map (Z.lxor 0x36) key ++ msg)).

(** [hex.EncodeToString]. *)
Definition hexchar (d : Z) : ascii := Z_byte (if d <? 10 then 48 + d else 87 + d).

Definition hexString (l : list Z) : string := of_list (flat_map (λ b, [hexchar (b / 16); hexchar (b mod 16)]) l).

Definition bytes_of (s : string) : list Z := map byte_Z (to_list s).

(** The published test vectors. *)
Example sha256_abc :
  hexString (sha256 (bytes_of "abc")) = "ba7816bf8f01cfea414140de5dae2223b00361a396177a9cb410ff61f20015ad"%string.
Proof. vm_compute. reflexivity. Qed.

Example sha256_long :
  hexString (sha256 (bytes_of "abcdbcdecdefdefgefghfghighijhijkijkljklmklmnlmnomnopnopq"))
  = "248d6a61d20638b8e5c026930c3e6039a33ce45964ff2167f6ecedd419db06c1"%string.
Proof. vm_compute. reflexivity. Qed.

Example hmac256_jefe :
  hexString (hmac256 (bytes_of "Jefe") (bytes_of "what do ya want for nothing?"))
  = "5bdcc146bf60754e6a042426089575c75a003f089d2739839dec58b964ec3843"%string.
Proof. vm_compute. reflexivity. Qed.
