(* ===== verification/Auth.v ===== *)
(** * Authentication ([internal/auth], [internal/tokenstore], login and logout of [internal/service/user])

    Native tokens are signed claims whose id must still be the one stored for (user, platform);
    platform tokens are checked against a list of secrets; internal requests carry an HMAC signature, a
    timestamp and a nonce that is stored once. The JWT library is a class parameter, the cache any
    instance of the cache interface. Clock readings are arguments: [now] of the authenticator, [tc] of the
    cache call. *)

From S2P Require Import Prelude Errcode Strconv Identity Store PgStore Conc RateLimit World Cache UserSvc Sha256 ConvPage.

Local Open Scope Z_scope.

Definition MaxPlatformId : Z := 10.

Definition SourceExternal : string := "external".
Definition SourceNative : string := "native".
Definition SourceInternal : string := "internal".

Record Identity := mkIdentity {
  Id_UserId : string; Id_Role : string; Id_PlatformId : Z; Id_TokenId : string; Id_ExpiresAt : Z; Id_Source : string }.

(** ** The token store ([internal/tokenstore/tokenstore.go]) *)

Definition key (userId : string) (platformId : Z) : string :=
  KeyPrefix +:+ "tok:" +:+ userId +:+ ":" +:+ FormatInt platformId.
Arguments key : simpl never.

Section TokenStore.
Context {C : Type} `{CC : Cache C}.

Definition TokenSet (tc : Z) (userId : string) (platformId : Z) (tokenId : string) (ttl : Z) : C → result unit * C :=
  c_Set tc (key userId platformId) tokenId ttl.

Definition TokenCheck (tc : Z) (userId : string) (platformId : Z) (tokenId : string) (c : C) : result bool * C :=
  match c_Get tc (key userId platformId) c with
  | (Ok (cur, found), c') => (Ok (found && (cur =? tokenId)%string), c')
  | (Err e, c') => (Err e, c')
  end.

Definition TokenDelete (tc : Z) (userId : string) (platformId : Z) (tokenId : string) : C → result unit * C :=
  c_DelIfValue tc (key userId platformId) tokenId.
End TokenStore.

(** ** The JWT library *)

(** [jwt.RegisteredClaims] as used; times are instants, [None] a missing claim. *)
Record nativeClaims := mkNativeClaims {
  NC_PlatformId : Z; NC_Subject : string; NC_ID : string; NC_IssuedAt : option Z; NC_ExpiresAt : option Z }.

Record externalClaims := mkExternalClaims { EC_UserId : Z; EC_Role : string; EC_ExpiresAt : option Z }.

Inductive jwtErr := JwtExpired | JwtSignatureInvalid | JwtOther.

(** [NumericDate] keeps whole seconds. *)
Definition NumericDate (t : Z) : Z := t - t mod Second.

(** HS256 signing and parsing with one secret. A token parses under the secret that signed it to the claims it was made from,
    unless the time of expiry is reached; the user id of a platform token is an [int64]. *)
Class Jwt := {
  SignedString : string → nativeClaims → result string;
  ParseNative : string → Z → string → nativeClaims + jwtErr;
  ParseExternal : string → Z → string → externalClaims + jwtErr;
  jwt_roundtrip secret c tok now e : SignedString secret c = Ok tok → NC_ExpiresAt c = Some e → NumericDate e = e →
    ParseNative secret now tok = if now <? e then inl c else inr JwtExpired;
  jwt_int64 secret now tok c : ParseExternal secret now tok = inl c → minInt64 ≤ EC_UserId c ≤ maxInt64 }.

Definition mapJwtErr (e : jwtErr) : error :=
  match e with
  | JwtExpired => ESentinel auth_ErrTokenExpired
  | _ => EWrap2 (ESentinel auth_ErrTokenInvalid) (EOther "jwt")
  end.

(** ** Native tokens ([internal/auth/native.go]) *)

Record Native := mkNative { N_secret : string; N_ttl : Z }.

Section Auth.
Context `{JW : Jwt} {C : Type} `{CC : Cache C}.

Definition unavailable (e : error) : error := EWrap2 (ESentinel auth_ErrUnavailable) e.

Definition issueClaims (n : Native) (now : Z) (jti userId : string) (platformId : Z) : nativeClaims :=
  mkNativeClaims platformId userId jti (Some (NumericDate now)) (Some (NumericDate (now + N_ttl n))).

Definition Issue (n : Native) (now tc : Z) (jti userId : string) (platformId : Z) (c : C) : result (string * Z) * C :=
  let expiresAt := now + N_ttl n in
  match SignedString (N_secret n) (issueClaims n now jti userId platformId) with
  | Err e => (Err (EWrap "auth: sign" e), c)
  | Ok token =>
      match TokenSet tc userId platformId jti (N_ttl n) c with
      | (Ok _, c') => (Ok (token, expiresAt), c')
      | (Err e, c') => (Err (unavailable e), c')
      end
  end.

Definition Revoke (tc : Z) (userId : string) (platformId : Z) (tokenId : string) (c : C) : err * C :=
  match TokenDelete tc userId platformId tokenId c with
  | (Ok _, c') => (None, c')
  | (Err e, c') => (Some (unavailable e), c')
  end.

Definition Check_token (tc : Z) (id : Identity) (c : C) : err * C :=
  match TokenCheck tc (Id_UserId id) (Id_PlatformId id) (Id_TokenId id) c with
  | (Ok ok, c') => (if ok then None else Some (EWrap "superseded" (ESentinel auth_ErrTokenExpired)), c')
  | (Err e, c') => (Some (unavailable e), c')
  end.

Definition nativeIdentity (cl : nativeClaims) (exp : Z) : Identity :=
  mkIdentity (NC_Subject cl) RoleUser (NC_PlatformId cl) (NC_ID cl) (UnixMilli exp) SourceNative.

Definition NativeVerify (n : Native) (now tc : Z) (token : string) (c : C) : result Identity * C :=
  match ParseNative (N_secret n) now token with
  | inr e => (Err (mapJwtErr e), c)
  | inl cl =>
      match NC_ExpiresAt cl with
      | None => (Err (EWrap "malformed native claims" (ESentinel auth_ErrTokenInvalid)), c)
      | Some exp =>
          if (NC_ID cl =? "")%string || negb (IsNative (NC_Subject cl)) || (NC_PlatformId cl <? 1) || (MaxPlatformId <? NC_PlatformId cl) then
            (Err (EWrap "malformed native claims" (ESentinel auth_ErrTokenInvalid)), c)
          else
            let id := nativeIdentity cl exp in
            match Check_token tc id c with
            | (None, c') => (Ok id, c')
            | (Some e, c') => (Err e, c')
            end
      end
  end.

(** ** Login and logout ([internal/service/user/user.go]) *)

Record Session := mkSession { Se_UserId : string; Se_Token : string; Se_ExpiresAt : Z }.

(** [lookup] is the answer of [GetUserByUsername]. *)
Definition Login `{BC : Bcrypt} (native : option Native) (now tc : Z) (jti : string) (lookup : result User) (password : string) (platformId : Z)
    (c : C) : result Session * C :=
  match native with
  | None => (Err (WithMessage ErrProviderDisabled "native auth provider is disabled"), c)
  | Some n =>
      if (platformId <? 1) || (MaxPlatformId <? platformId) then (Err (InvalidParam "platform_id must be 1..10"), c)
      else
        match lookup with
        | Err e => (Err (if Is e store_ErrNotFound then ErrLoginFailed else Wrap ErrStoreFailed (Some e)), c)
        | Ok u =>
            if negb (CompareHashAndPassword (User_PasswordHash u) password) then (Err ErrLoginFailed, c)
            else
              match Issue n now tc jti (User_Id u) platformId c with
              | (Err e, c') => (Err (Wrap ErrInternal (Some e)), c')
              | (Ok (token, exp), c') => (Ok (mkSession (User_Id u) token (UnixMilli exp)), c')
              end
        end
  end.

Definition Logout (native : option Native) (tc : Z) (id : Identity) (c : C) : err * C :=
  match native with
  | None => (Some (WithMessage ErrProviderDisabled "native auth provider is disabled"), c)
  | Some _ =>
      if negb (Id_Source id =? SourceNative)%string then (Some (InvalidParam "logout applies to native tokens only"), c)
      else if (Id_TokenId id =? "")%string then (Some (InvalidParam "token_id is required for logout"), c)
      else
        match Revoke tc (Id_UserId id) (Id_PlatformId id) (Id_TokenId id) c with
        | (Some e, c') => (Some (Wrap ErrInternal (Some e)), c')
        | (None, c') => (None, c')
        end
  end.

(** ** Platform tokens ([internal/auth/external.go]) *)

Record External := mkExternal { E_secrets : list string; E_defaultRole : string }.

(** The loop over the secrets: the first that accepts, or the error that stops it. With no secret the claims stay empty. *)
Fixpoint parseAny (secrets : list string) (now : Z) (token : string) (last : externalClaims + jwtErr) : externalClaims + jwtErr :=
  match secrets with
  | [] => last
  | s :: rest =>
      match ParseExternal s now token with
      | inl cl => inl cl
      | inr JwtSignatureInvalid => parseAny rest now token (inr JwtSignatureInvalid)
      | inr e => inr e
      end
  end.

(** [sha256.Sum256(token)], first 16 bytes, hex. *)
Definition tokenDigest (token : string) : string := hexString (take 16 (sha256 (bytes_of token))).

Definition ExternalVerify (x : External) (now : Z) (token : string) : result Identity :=
  match parseAny (E_secrets x) now token (inl (mkExternalClaims 0 "" None)) with
  | inr e => Err (mapJwtErr e)
  | inl cl =>
      match EC_ExpiresAt cl with
      | None => Err (EWrap "exp or user_id missing" (ESentinel auth_ErrTokenInvalid))
      | Some exp =>
          if EC_UserId cl <=? 0 then Err (EWrap "exp or user_id missing" (ESentinel auth_ErrTokenInvalid))
          else
            let role := if (EC_Role cl =? "")%string then E_defaultRole x else EC_Role cl in
            match Actor_UserId (mkActor (EC_UserId cl) role) with
            | Err e => Err (EWrap2 (ESentinel auth_ErrTokenInvalid) e)
            | Ok userId => Ok (mkIdentity userId role 0 (tokenDigest token) (UnixMilli exp) SourceExternal)
            end
      end
  end.

(** ** The provider chain ([internal/auth/chain.go]) *)

Definition terminal (e : error) : bool := Is e auth_ErrUnavailable || Is e auth_ErrTokenExpired.

Fixpoint chainLoop (providers : list (string → C → result Identity * C)) (token : string) (lastErr : error) (c : C) : result Identity * C :=
  match providers with
  | [] => (Err lastErr, c)
  | p :: rest =>
      match p token c with
      | (Ok id, c') => (Ok id, c')
      | (Err e, c') => chainLoop rest token (if negb (terminal lastErr) || terminal e then e else lastErr) c'
      end
  end.

Definition ChainVerify (providers : list (string → C → result Identity * C)) (token : string) : C → result Identity * C :=
  chainLoop providers token (ESentinel auth_ErrTokenInvalid).

(** ** Internal requests ([internal/auth/internal.go]) *)

Record InternalRequest := mkInternalRequest {
  IR_Service : string; IR_Timestamp : string; IR_Nonce : string; IR_Method : string; IR_RawPath : string; IR_RawQuery : string;
  IR_UserId : string; IR_PlatformId : string; IR_Body : string; IR_Signature : string }.

Definition newline : string := String.String "010"%char "".

(** [strings.Join(fields, newline)]. *)
Fixpoint join_lines (l : list string) : string :=
  match l with
  | [] => ""
  | [x] => x
  | x :: rest => x +:+ newline +:+ join_lines rest
  end.

Definition payload (r : InternalRequest) : string :=
  join_lines [IR_Service r; IR_Timestamp r; IR_Nonce r; IR_Method r; IR_RawPath r; IR_RawQuery r; IR_UserId r; IR_PlatformId r;
              hexString (sha256 (bytes_of (IR_Body r)))].

Definition signPayload (secret p : string) : string := hexString (hmac256 (bytes_of secret) (bytes_of p)).

Definition Sign (secret : string) (r : InternalRequest) : string := signPayload secret (payload r).

Record Internal := mkInternal { I_secrets : list string; I_services : list string; I_skew : Z }.

Definition minNonceLen : Z := 16.

(** [Time.Sub] saturates, and so does [Duration.Abs]. *)
Definition satSub (t u : Z) : Z := Z.max minInt64 (Z.min maxInt64 (t - u)).

Definition durAbs (d : Z) : Z := if d =? minInt64 then maxInt64 else Z.abs d.

Definition nonceKey (service nonce : string) : string := KeyPrefix +:+ "inonce:" +:+ service +:+ ":" +:+ nonce.
Arguments nonceKey : simpl never.

Definition InternalVerify (i : Internal) (now tc : Z) (r : InternalRequest) (c : C) : err * C :=
  if negb (in_list (IR_Service r) (I_services i)) then (Some (EWrap (IR_Service r) (ESentinel auth_ErrServiceNotAllowed)), c)
  else
    match ParseInt (IR_Timestamp r) with
    | None => (Some (EWrap "bad timestamp" (ESentinel auth_ErrClockSkew)), c)
    | Some ts =>
        if I_skew i <? durAbs (satSub now (ts * Second)) then (Some (EWrap "skew" (ESentinel auth_ErrClockSkew)), c)
        else if len (IR_Nonce r) <? minNonceLen then (Some (EWrap "nonce too short" (ESentinel auth_ErrBadSignature)), c)
        else if negb (existsb (λ s, (signPayload s (payload r) =? IR_Signature r)%string) (I_secrets i)) then
          (Some (ESentinel auth_ErrBadSignature), c)
        else
          match c_SetNX tc (nonceKey (IR_Service r) (IR_Nonce r)) "1" (2 * I_skew i) c with
          | (Err e, c') => (Some (EWrap2 (ESentinel auth_ErrUnavailable) (EWrap "nonce store" e)), c')
          | (Ok fresh, c') => (if fresh then None else Some (ESentinel auth_ErrNonceReplayed), c')
          end
    end.
End Auth.
