(* ===== verification/AuthThms.v ===== *)
(** * Authentication: sessions, nonces and provider chains

    The token store over any cache refines a map of sessions: one token per (user, platform) with
    its expiry. Histories are sequences of operations whose cache clock does not go back. *)

From S2P Require Import Prelude Errcode Strconv Identity Store PgStore Conc RateLimit World Cache CacheDrivers UserSvc Sha256 Auth.

Local Open Scope Z_scope.

(** ** Keys *)

Lemma app_colon_inj a b x y :
  ContainsRune x ":"%char = false → ContainsRune y ":"%char = false →
  a +:+ String.String ":" x = b +:+ String.String ":" y → a = b ∧ x = y.
Proof.
  intros Hx Hy. revert b. induction a as [|ch a IH]; intros [|ch' b]; simpl.
  - by intros [= ->].
  - intros [= <- E]. exfalso. rewrite E, ContainsRune_app in Hx. simpl in Hx. rewrite orb_true_r in Hx. done.
  - intros [= -> E]. exfalso. rewrite <- E, ContainsRune_app in Hy. simpl in Hy. rewrite orb_true_r in Hy. done.
  - intros [= <- E]. destruct (IH b E) as [-> ->]. done.
Qed.

Lemma key_inj u p u' p' :
  minInt64 ≤ p ≤ maxInt64 → minInt64 ≤ p' ≤ maxInt64 → key u p = key u' p' → u = u' ∧ p = p'.
Proof.
  intros Hp Hp' E. unfold key in E. simpl in E. injection E as E.
  apply app_colon_inj in E as [-> E]; [|by apply FormatInt_no_colon..]. split; [done|]. by apply FormatInt_inj.
Qed.

Lemma nonce_not_key s n u p : nonceKey s n ≠ key u p.
Proof. unfold nonceKey, key. simpl. discriminate. Qed.

(** ** Histories *)

Inductive AuthOp :=
| OIssue (now tc : Z) (jti u : string) (p : Z)
| ORevoke (tc : Z) (u : string) (p : Z) (tok : string)
| OCheck (tc : Z) (u : string) (p : Z) (tok : string)
| ONonce (now tc : Z) (r : InternalRequest).

Definition op_time (o : AuthOp) : Z :=
  match o with OIssue _ tc _ _ _ => tc | ORevoke tc _ _ _ => tc | OCheck tc _ _ _ => tc | ONonce _ tc _ => tc end.

Definition op_platform (o : AuthOp) : Prop :=
  match o with OIssue _ _ _ _ p | ORevoke _ _ p _ => minInt64 ≤ p ≤ maxInt64 | _ => True end.

Section Histories.
Context `{JW : Jwt} {C : Type} `{CC : Cache C} `{CO : !CacheOk C}.
Variables (n : Native) (i : Internal).
Hypothesis ttl_pos : 0 < N_ttl n.

(** The driver keeps the two lifetimes in use. *)
Hypothesis ttl_span : span (N_ttl n).
Hypothesis skew_span : span (2 * I_skew i).

(** One operation; [None] when the cache or the signer failed it. *)
Definition op_step (o : AuthOp) (c : C) : option C :=
  match o with
  | OIssue now tc jti u p => match Issue n now tc jti u p c with (Ok _, c') => Some c' | (Err _, _) => None end
  | ORevoke tc u p tok => match Revoke tc u p tok c with (None, c') => Some c' | (Some _, _) => None end
  | OCheck tc u p tok => match TokenCheck tc u p tok c with (Ok _, c') => Some c' | (Err _, _) => None end
  | ONonce now tc r => Some (InternalVerify i now tc r c).2
  end.

Fixpoint op_steps (os : list AuthOp) (c : C) : option C :=
  match os with [] => Some c | o :: os => c' ← op_step o c; op_steps os c' end.

(** The clock of the cache does not go back. *)
Fixpoint ordered (t0 : Z) (os : list AuthOp) : Prop :=
  match os with [] => True | o :: os => t0 ≤ op_time o ∧ op_platform o ∧ ordered (op_time o) os end.

Fixpoint end_time (t0 : Z) (os : list AuthOp) : Z := match os with [] => t0 | o :: os => end_time (op_time o) os end.

(** ** The specification: a map of sessions

    A session ends with its token's entry, which the driver keeps for the lifetime or up to a millisecond longer ([until_law]). *)

Abbreviation Sessions := (gmap (string * Z) (string * Z)).

Definition session (S : Sessions) (t : Z) (u : string) (p : Z) : option string :=
  match S !! (u, p) with Some (tok, e) => if t <? e then Some tok else None | None => None end.

Definition spec_step (S : Sessions) (o : AuthOp) : Sessions :=
  match o with
  | OIssue _ tc jti u p => <[(u, p) := (jti, until tc (N_ttl n))]> S
  | ORevoke _ u p tok =>
      match S !! (u, p) with
      | Some (tok', _) => if (tok' =? tok)%string then delete (u, p) S else S
      | None => S
      end
  | _ => S
  end.

Definition refines (now : Z) (c : C) (S : Sessions) : Prop :=
  ∀ t u p, now ≤ t → minInt64 ≤ p ≤ maxInt64 → live c t (key u p) = session S t u p.

Lemma refines_later now now' c S : now ≤ now' → refines now c S → refines now' c S.
Proof. intros Hle H t u p Ht. apply H. lia. Qed.

Lemma refines_same now c c' S : same live now c c' → refines now c S → refines now c' S.
Proof. intros Hs H t u p Ht Hp. rewrite Hs by done. by apply H. Qed.

Lemma InternalVerify_frame now tc r c t k :
  zeroTime < tc → tc ≤ t → k ≠ nonceKey (IR_Service r) (IR_Nonce r) → live (InternalVerify i now tc r c).2 t k = live c t k.
Proof.
  intros Hz Ht Hk. unfold InternalVerify. repeat case_match; try done; simpl;
    match goal with E : c_SetNX _ _ _ _ _ = _ |- _ => destruct (SetNX_law _ _ _ _ _ _ _ E Hz skew_span) as [(_ & Hw & _)|(Hs & _)] end;
    try (by rewrite Hs); rewrite (Hw t k Ht); by apply String.eqb_neq in Hk as ->.
Qed.

Lemma op_refines o c c' S :
  op_step o c = Some c' → zeroTime < op_time o → op_platform o → refines (op_time o) c S → refines (op_time o) c' (spec_step S o).
Proof.
  intros Hs Hz Hp HR. destruct o as [now tc jti u p|tc u p tok|tc u p tok|now tc r]; simpl in *.
  - unfold Issue in Hs. destruct (SignedString _ _); [|done]. destruct (TokenSet _ _ _ _ _ c) as [[[]|] c1] eqn:E; [|done].
    injection Hs as <-. destruct (Set_law _ _ _ _ _ _ _ E Hz ttl_span) as [Hw|[? _]]; [|done]. intros t u' p' Ht Hp'. rewrite (Hw t _ Ht).
    unfold session. replace (N_ttl n <=? 0) with false by (symmetry; lia). cbn [orb]. destruct (String.eqb_spec (key u' p') (key u p)) as [Ek|Ek].
    + apply key_inj in Ek as [-> ->]; try done. by rewrite lookup_insert_eq.
    + rewrite lookup_insert_ne by (intros [= -> ->]; done). by apply HR.
  - unfold Revoke in Hs. destruct (TokenDelete _ _ _ _ c) as [[[]|] c1] eqn:E; [|done]. injection Hs as <-.
    destruct (Del_law _ _ _ _ _ _ E Hz) as [Hd|[? _]]; [|done]. intros t u' p' Ht Hp'. rewrite (Hd t _ Ht), (HR tc u p) by (done || lia).
    destruct (String.eqb_spec (key u' p') (key u p)) as [Ek|Ek]; simpl.
    + apply key_inj in Ek as [-> ->]; try done. rewrite (HR t u p) by done. unfold session.
      destruct (S !! (u, p)) as [[tok' e]|] eqn:Eu; [|by rewrite Eu].
      destruct (String.eqb_spec tok' tok) as [->|Hne].
      * rewrite lookup_delete_eq. case_bool_decide as Hb; [done|]. destruct (Z.ltb_spec tc e); [done|].
        by replace (t <? e) with false by (symmetry; lia).
      * rewrite Eu. rewrite bool_decide_eq_false_2; [done|]. destruct (tc <? e); congruence.
    + rewrite (HR t u' p') by done. unfold session. destruct (S !! (u, p)) as [[tok' e]|]; [|done].
      destruct (tok' =? tok)%string; [|done]. rewrite lookup_delete_ne; [done|]. intros [= -> ->]. done.
  - unfold TokenCheck in Hs. destruct (c_Get _ _ c) as [[[cur f]|] c1] eqn:E; [|done]. injection Hs as <-.
    destruct (Get_law _ _ _ _ _ E Hz) as [Hsame _]. by eapply refines_same.
  - injection Hs as <-. intros t u p Ht Hp'. rewrite InternalVerify_frame; [by apply HR|done|done|]. intros E. by symmetry in E; apply nonce_not_key in E.
Qed.

Lemma ops_refine os t0 c c' S :
  op_steps os c = Some c' → zeroTime < t0 → ordered t0 os → refines t0 c S →
  refines (end_time t0 os) c' (foldl spec_step S os) ∧ t0 ≤ end_time t0 os.
Proof.
  revert t0 c S. induction os as [|o os IH]; intros t0 c S; simpl; [by intros [= <-]|].
  destruct (op_step o c) as [c1|] eqn:E; simpl; [|done]. intros Hs Hz (Ht & Hp & Ho) HR.
  destruct (IH (op_time o) c1 (spec_step S o)) as [H1 H2]; try done; [lia| |split; [done|lia]].
  apply (op_refines o c); try done; [lia|]. by eapply refines_later.
Qed.

Lemma TokenCheck_session now c S t u p tok r c' :
  refines now c S → now ≤ t → zeroTime < t → minInt64 ≤ p ≤ maxInt64 → TokenCheck t u p tok c = (Ok r, c') →
  (r = true ↔ session S t u p = Some tok).
Proof.
  intros HR Ht Hz Hp. unfold TokenCheck. destruct (c_Get t (key u p) c) as [[[cur f]|] c1] eqn:E; [|done]. intros [= <- <-].
  destruct (Get_law _ _ _ _ _ E Hz) as [_ Hl]. rewrite <- (HR t u p) by done. rewrite (Hl cur f eq_refl).
  destruct f; simpl; [|by split]. rewrite String.eqb_eq. split; [by intros ->|by intros [= ->]].
Qed.

(** ** Native tokens *)

Lemma NumericDate_idem t : NumericDate (NumericDate t) = NumericDate t.
Proof.
  unfold NumericDate, Second. pose proof (Z.div_mod t 1000000000). replace (t - t mod 1000000000) with (t / 1000000000 * 1000000000) by lia.
  rewrite Z_mod_mult. lia.
Qed.

Lemma Check_token_session now c S t id r c' :
  refines now c S → now ≤ t → zeroTime < t → minInt64 ≤ Id_PlatformId id ≤ maxInt64 → Check_token t id c = (r, c') →
  (r = None → session S t (Id_UserId id) (Id_PlatformId id) = Some (Id_TokenId id)) ∧
  (session S t (Id_UserId id) (Id_PlatformId id) = Some (Id_TokenId id) → r = None ∨ ∃ e, r = Some e ∧ Is e auth_ErrUnavailable = true).
Proof.
  intros HR Ht Hz Hp. unfold Check_token. destruct (TokenCheck _ _ _ _ c) as [[b|e] c1] eqn:E; intros [= <- <-];
    [|split; [done|]; intros _; right; by eexists].
  pose proof (TokenCheck_session _ _ _ _ _ _ _ _ _ HR Ht Hz Hp E) as Hb. destruct b; split; try done; naive_solver.
Qed.


(** ** Nonces *)

Lemma InternalVerify_None now tc r c c' :
  InternalVerify i now tc r c = (None, c') →
  c_SetNX tc (nonceKey (IR_Service r) (IR_Nonce r)) "1" (2 * I_skew i) c = (Ok true, c').
Proof.
  unfold InternalVerify. destruct (negb _); [done|]. destruct (ParseInt _); [|done]. destruct (_ <? _); [done|]. destruct (_ <? _); [done|].
  destruct (negb _); [done|]. destruct (c_SetNX _ _ _ _ _) as [[[]|] c1]; by intros [= <-].
Qed.

(** While the nonce is stored no operation removes it. *)
Lemma op_keeps_nonce o c c' s nc t :
  op_step o c = Some c' → zeroTime < op_time o → op_time o ≤ t →
  live c (op_time o) (nonceKey s nc) = Some "1"%string → live c t (nonceKey s nc) = Some "1"%string → live c' t (nonceKey s nc) = Some "1"%string.
Proof.
  intros Hs Hz Ht Hnow Hlive. destruct o as [now tc jti u p|tc u p tok|tc u p tok|now tc r]; simpl in *;
    assert (∀ u p, (nonceKey s nc =? key u p)%string = false) as Hk by (intros; apply String.eqb_neq, nonce_not_key).
  - unfold Issue in Hs. destruct (SignedString _ _); [|done]. destruct (TokenSet _ _ _ _ _ c) as [[[]|] c1] eqn:E; [|done].
    injection Hs as <-. destruct (Set_law _ _ _ _ _ _ _ E Hz ttl_span) as [Hw|[? _]]; [|done]. rewrite (Hw t (nonceKey s nc) Ht), (Hk u p). exact Hlive.
  - unfold Revoke in Hs. destruct (TokenDelete _ _ _ _ c) as [[[]|] c1] eqn:E; [|done]. injection Hs as <-.
    destruct (Del_law _ _ _ _ _ _ E Hz) as [Hd|[? _]]; [|done]. rewrite (Hd t (nonceKey s nc) Ht), (Hk u p). exact Hlive.
  - unfold TokenCheck in Hs. destruct (c_Get _ _ c) as [[[cur f]|] c1] eqn:E; [|done]. injection Hs as <-.
    destruct (Get_law _ _ _ _ _ E Hz) as [Hsame _]. by rewrite Hsame.
  - injection Hs as <-. destruct (decide (nonceKey s nc = nonceKey (IR_Service r) (IR_Nonce r))) as [Ek|Ek];
      [|by rewrite InternalVerify_frame].
    unfold InternalVerify. repeat case_match; try done; simpl;
      match goal with E : c_SetNX _ _ _ _ _ = _ |- _ => destruct (SetNX_law _ _ _ _ _ _ _ E Hz skew_span) as [(Hn & _)|(Hsame & _)] end;
      by rewrite Hsame || congruence.
Qed.

Lemma ops_keep_nonce os t0 c c' s nc t :
  op_steps os c = Some c' → zeroTime < t0 → ordered t0 os → end_time t0 os ≤ t →
  (∀ t', t0 ≤ t' ≤ t → live c t' (nonceKey s nc) = Some "1"%string) → live c' t (nonceKey s nc) = Some "1"%string.
Proof.
  revert t0 c. induction os as [|o os IH]; intros t0 c; simpl; [intros [= <-] _ _ Ht H; apply H; lia|].
  destruct (op_step o c) as [c1|] eqn:E; simpl; [|done]. intros Hs Hz (Ht0 & Hp & Ho) Ht H.
  assert (op_time o ≤ t) as Hot.
  { clear - Ht Ho. revert o Ht Ho. induction os as [|o' os IH]; intros o Ht Ho; simpl in *; [done|]. destruct Ho as (? & _ & Ho).
    specialize (IH o' Ht Ho). lia. }
  apply (IH (op_time o) c1); try done; [lia|]. intros t' Ht'.
  apply (op_keeps_nonce o c c1); [done|lia|lia|apply H; lia|apply H; lia].
Qed.

End Histories.

(** ** Platform tokens and the chain *)

Section Chain.
Context `{JW : Jwt} {C : Type}.

Lemma parseAny_int64 secrets now token last cl :
  parseAny secrets now token last = inl cl → (∀ x, last = inl x → minInt64 ≤ EC_UserId x ≤ maxInt64) → minInt64 ≤ EC_UserId cl ≤ maxInt64.
Proof.
  revert last. induction secrets as [|s rest IH]; intros last; simpl; [intros ->; eauto|].
  destruct (ParseExternal s now token) as [x|[]] eqn:E; try done.
  - intros [= <-] _. by eapply jwt_int64.
  - intros H _. by apply (IH (inr JwtSignatureInvalid)).
Qed.

(** An accepted platform token names a platform user: its id is valid, parses to an actor with a positive number, and prints back
    from that actor. *)
Lemma external_identity_valid x now token id :
  ExternalVerify x now token = Ok id →
  Valid (Id_UserId id) = true ∧ Id_Source id = SourceExternal ∧
  ∃ a, ParseActor (Id_UserId id) = Ok a ∧ 0 < Actor_Id a ∧ Actor_UserId a = Ok (Id_UserId id).
Proof.
  unfold ExternalVerify. destruct (parseAny _ _ _ _) as [cl|] eqn:E; [|done].
  apply parseAny_int64 in E; [|intros y [= <-]; by vm_compute]. destruct (EC_ExpiresAt cl); [|done].
  destruct (Z.leb_spec (EC_UserId cl) 0) as [|Hpos]; [done|]. set (role := if (EC_Role cl =? "")%string then E_defaultRole x else EC_Role cl).
  destruct (Actor_UserId (mkActor (EC_UserId cl) role)) as [u|] eqn:Eu; [|done]. intros [= <-]. simpl.
  assert (ParseActor u = Ok (mkActor (EC_UserId cl) role)) as Hp by (apply ParseActor_of_UserId; [simpl; lia|done]).
  split_and!; [by eapply Valid_ParseActor|done|]. eauto.
Qed.

(** The answers of the providers that were asked. *)
Fixpoint outcomes (ps : list (string → C → result Identity * C)) (token : string) (c : C) : list (result Identity) :=
  match ps with
  | [] => []
  | p :: rest => match p token c with (Ok id, _) => [Ok id] | (Err e, c') => Err e :: outcomes rest token c' end
  end.

Definition err_terminal (o : result Identity) : bool := match o with Err e => terminal e | Ok _ => false end.

Definition rejected (o : result Identity) : Prop := is_Ok o = false.

Lemma chainLoop_spec ps token lastErr c :
  match (chainLoop ps token lastErr c).1 with
  | Ok id => ∃ es, outcomes ps token c = es ++ [Ok id] ∧ Forall rejected es
  | Err e => length (outcomes ps token c) = length ps ∧ Forall rejected (outcomes ps token c) ∧
      (terminal e = terminal lastErr || existsb err_terminal (outcomes ps token c)) ∧ (e = lastErr ∨ Err e ∈ outcomes ps token c)
  end.
Proof.
  revert lastErr c. induction ps as [|p ps IH]; intros lastErr c; simpl; [by rewrite orb_false_r; auto|].
  destruct (p token c) as [[id|e] c']; [by exists []|].
  specialize (IH (if negb (terminal lastErr) || terminal e then e else lastErr) c'). destruct (chainLoop ps token _ c') as [[id|e'] c2]; simpl in *.
  - destruct IH as (es & -> & Hes). exists (Err e :: es). split; [done|]. by constructor.
  - destruct IH as (Hl & Hall & Ht & He). split_and!; [by rewrite Hl|by constructor| |].
    + rewrite Ht. destruct (terminal lastErr) eqn:El, (terminal e) eqn:Ee; simpl; rewrite ?El, ?Ee; done.
    + rewrite elem_of_cons. destruct He as [-> |He]; [|by auto]. destruct (negb (terminal lastErr) || terminal e); auto.
Qed.

(** The chain accepts what the first accepting provider accepts. When all reject, the error is one of theirs, and if any of them said
    expired or unavailable so does the chain, so the client is told that code and not that the token is invalid. *)
Lemma chain_verdict ps token c :
  match (ChainVerify ps token c).1 with
  | Ok id => ∃ es, outcomes ps token c = es ++ [Ok id] ∧ Forall rejected es
  | Err e => Forall rejected (outcomes ps token c) ∧ length (outcomes ps token c) = length ps ∧
      (e = ESentinel auth_ErrTokenInvalid ∨ Err e ∈ outcomes ps token c) ∧
      (existsb err_terminal (outcomes ps token c) = true ↔ code_of (AuthErr e) = 10102 ∨ code_of (AuthErr e) = 20101)
  end.
Proof.
  pose proof (chainLoop_spec ps token (ESentinel auth_ErrTokenInvalid) c) as H. unfold ChainVerify.
  destruct (chainLoop _ _ _ c) as [[id|e] c']; simpl in *; [done|]. destruct H as (Hl & Hall & Ht & He). split_and!; try done.
  rewrite <- Ht. unfold terminal, AuthErr. destruct (Is e auth_ErrTokenExpired), (Is e auth_ErrUnavailable); simpl; naive_solver.
Qed.
End Chain.

(** ** Concrete instances

    A token format that writes the secret and the claims in binary, and the local cache. *)

Fixpoint p2s (p : positive) : string :=
  match p with xH => "" | xO p => String.String "0" (p2s p) | xI p => String.String "1" (p2s p) end.

Fixpoint s2p (s : string) : positive :=
  match s with "" => xH | String.String c s => if bool_decide (c = "1"%char) then xI (s2p s) else xO (s2p s) end%string.

Lemma s2p_p2s p : s2p (p2s p) = p.
Proof. induction p as [p IH|p IH|]; simpl; [by rewrite IH..|done]. Qed.

Abbreviation claims_tuple := (Z * string * string * option Z * option Z)%type.

Definition to_tuple (c : nativeClaims) : claims_tuple := (NC_PlatformId c, NC_Subject c, NC_ID c, NC_IssuedAt c, NC_ExpiresAt c).

Definition of_tuple (t : claims_tuple) : nativeClaims := let '(p, s, j, a, e) := t in mkNativeClaims p s j a e.

Definition demoParse (secret : string) (now : Z) (tok : string) : nativeClaims + jwtErr :=
  match decode (A := string * claims_tuple) (s2p tok) with
  | None => inr JwtOther
  | Some (s, t) =>
      if (s =? secret)%string then
        match NC_ExpiresAt (of_tuple t) with
        | Some e => if now <? e then inl (of_tuple t) else inr JwtExpired
        | None => inl (of_tuple t)
        end
      else inr JwtSignatureInvalid
  end.

Definition demoParseExternal (secret : string) (now : Z) (tok : string) : externalClaims + jwtErr :=
  match decode (A := string * (Z * string * option Z)) (s2p tok) with
  | None => inr JwtOther
  | Some (s, (u, r, e)) =>
      if (s =? secret)%string then
        if (minInt64 <=? u) && (u <=? maxInt64) then inl (mkExternalClaims u r e) else inr JwtOther
      else inr JwtSignatureInvalid
  end.

Definition demoJwt : Jwt.
Proof.
  refine {| SignedString secret c := Ok (p2s (encode (secret, to_tuple c))); ParseNative := demoParse; ParseExternal := demoParseExternal |}.
  - intros secret c tok now e [= <-] He _. unfold demoParse. rewrite s2p_p2s, decode_encode, String.eqb_refl. destruct c. simpl in *. by rewrite He.
  - intros secret now tok c. unfold demoParseExternal. destruct (decode _) as [[s [[u r] e]]|]; [|done]. destruct (s =? secret)%string; [|done].
    destruct ((minInt64 <=? u) && (u <=? maxInt64)) eqn:Er; [|done]. intros [= <-]. simpl. lia.
Defined.

#[local] Existing Instance demoJwt.

Definition nat1 : Native := mkNative "secret" (3600 * Second).
Definition int1 : Internal := mkInternal ["k1"; "k2"] ["billing"] (60 * Second).
Definition alice : string := "nx__01890a5d-ac96-774b-bcce-b302099a8057".
Definition at_ (s : Z) : Z := s * Second.

Definition issue1 := Issue nat1 (at_ 100) (at_ 100) "jti1" alice 5 (∅ : gmap string lentry).
Definition token1 : string := match issue1.1 with Ok (t, _) => t | Err _ => ""%string end.

(** The token is accepted before, and not after, a second login on the same platform. *)
Definition login2 : AuthOp := OIssue (at_ 200) (at_ 200) "jti2" alice 5.


Definition signed (r : InternalRequest) : InternalRequest :=
  mkInternalRequest (IR_Service r) (IR_Timestamp r) (IR_Nonce r) (IR_Method r) (IR_RawPath r) (IR_RawQuery r) (IR_UserId r) (IR_PlatformId r)
    (IR_Body r) (Sign "k2" r).

Definition req1 : InternalRequest := signed (mkInternalRequest "billing" "100" "0123456789abcdef" "POST" "/internal/msg" "" "u___1" "5" "{}" "").

(** On Redis. *)
Definition accepted1 := InternalVerify int1 (at_ 110) (at_ 110) req1 (∅ : gmap string RString).


Definition ext1 : External := mkExternal ["old"; "new"] RoleUser.
Definition etoken : string := p2s (encode ("new"%string, (42, ""%string, Some (at_ 500)))).

Lemma external_identity_valid_witness : Valid "u___42" = true.
Proof.
  apply (external_identity_valid ext1 (at_ 100) etoken (mkIdentity "u___42" RoleUser 0 (tokenDigest etoken) 500000 SourceExternal)).
  vm_compute. reflexivity.
Defined.
