(* ===== verification/SendQueue.v ===== *)
(** * Client connections: the send queue, the byte budget, kicks and closing ([internal/gateway])

    [budget.go], [client.go], [kick.go], [frame.go]. Every connection has a bounded queue of outbound frames that one
    writer empties; the bytes queued on a node are charged to a budget that pushes respect and replies do not. A
    task is a goroutine at a program point; its steps are the atomic operations of the code (an atomic counter, a
    section under [sendMu] or [kickMu], a channel operation, a socket write), so the tasks of a node interleave as
    goroutines do. In [write] the section under [sendMu] is two steps, since the budget is read without that lock.
    What closing does to presence is not part of this file. *)

From S2P Require Import Prelude Errcode Strconv Json UserMap.

Local Open Scope Z_scope.

(** ** Frames ([frame.go]) *)

Definition PushMsg : Z := 2001.
Definition KickOnline : Z := 2002.
Definition ConvRead : Z := 2003.
Definition Resync : Z := 2004.

Definition KickNewLogin : string := "new_login".
Definition KickTokenExpired : string := "token_expired".
Definition closeReasonOverCap : string := "send_bytes_over_cap".

(** [pushFrame(reqId, data)] for already encoded data; [opId] is the generated uuid. *)
Definition pushFrame (reqId : Z) (opId data : string) : option string :=
  fields [field_int "req_id" reqId; field_string "op_id" opId; Some [("data", data)]].

(** The frame whose data is [map[string]string{"reason": reason}]. *)
Definition reasonFrame (reqId : Z) (opId reason : string) : option string :=
  match fields [field_string "reason" reason] with Some d => pushFrame reqId opId d | None => None end.

(** ** The budget ([budget.go]) *)

Record sendBudget := mkBudget { b_limit : Z; b_queued : Z; b_slowConsumers : Z; b_dropped : Z }.

Definition newSendBudget (limit : Z) : sendBudget := mkBudget limit 0 0 0.

Definition take (b : sendBudget) (n : Z) : sendBudget := mkBudget (b_limit b) (i64 (b_queued b + n)) (b_slowConsumers b) (b_dropped b).

(** [tryTake] is two operations on the counter when it refuses: the charge that overruns, and taking it back. *)
Definition tryTake (b : sendBudget) (n : Z) : bool * sendBudget :=
  let b' := take b n in
  (negb ((0 <? b_limit b) && (b_limit b <? b_queued b')), b').

Definition tryTake_undo (b : sendBudget) (n : Z) : sendBudget :=
  mkBudget (b_limit b) (i64 (b_queued b - n)) (b_slowConsumers b) (i64 (b_dropped b + 1)).

Definition b_release (b : sendBudget) (n : Z) : sendBudget := mkBudget (b_limit b) (i64 (b_queued b - n)) (b_slowConsumers b) (b_dropped b).

Definition slow (b : sendBudget) : sendBudget := mkBudget (b_limit b) (b_queued b) (i64 (b_slowConsumers b + 1)) (b_dropped b).

(** ** Connections ([client.go]) *)

Inductive Once := Idle | Running | Finished.

(** The fields of [Client] that change. [cn_log], [cn_written] and [cn_last] record the frames accepted, the frames written to the
    socket and the last frame of a drain. *)
Record Conn := mkConn {
  cn_client : Client; cn_cap : nat; cn_send : list string; cn_queued : Z; cn_closing : bool; cn_once : Once; cn_closed : bool;
  cn_cancelled : bool; cn_draining : bool; cn_drain : bool; cn_hard : bool; cn_serving : bool;
  cn_log : list string; cn_written : list string; cn_last : option string }.

Definition newClient (c : Client) (sendQueue : nat) : Conn :=
  mkConn c sendQueue [] 0 false Idle false false false false false false [] [] None.

(** Updates of one field or of the fields of one critical section. *)
Definition set_queue (x : Conn) (send : list string) (queued : Z) (log : list string) : Conn :=
  mkConn (cn_client x) (cn_cap x) send queued (cn_closing x) (cn_once x) (cn_closed x) (cn_cancelled x) (cn_draining x) (cn_drain x)
    (cn_hard x) (cn_serving x) log (cn_written x) (cn_last x).
Definition set_closing (x : Conn) : Conn :=
  mkConn (cn_client x) (cn_cap x) (cn_send x) 0 true (cn_once x) (cn_closed x) (cn_cancelled x) (cn_draining x) (cn_drain x)
    (cn_hard x) (cn_serving x) (cn_log x) (cn_written x) (cn_last x).
Definition set_once (x : Conn) (o : Once) : Conn :=
  mkConn (cn_client x) (cn_cap x) (cn_send x) (cn_queued x) (cn_closing x) o (cn_closed x) true (cn_draining x) (cn_drain x)
    (cn_hard x) (cn_serving x) (cn_log x) (cn_written x) (cn_last x).
Definition set_closed (x : Conn) : Conn :=
  mkConn (cn_client x) (cn_cap x) (cn_send x) (cn_queued x) (cn_closing x) (cn_once x) true (cn_cancelled x) (cn_draining x) (cn_drain x)
    (cn_hard x) (cn_serving x) (cn_log x) (cn_written x) (cn_last x).
Definition set_drain (x : Conn) (draining drain : bool) (last : option string) : Conn :=
  mkConn (cn_client x) (cn_cap x) (cn_send x) (cn_queued x) (cn_closing x) (cn_once x) (cn_closed x) (cn_cancelled x) draining drain
    (cn_hard x) (cn_serving x) (cn_log x) (cn_written x) last.
Definition set_hard (x : Conn) : Conn :=
  mkConn (cn_client x) (cn_cap x) (cn_send x) (cn_queued x) (cn_closing x) (cn_once x) (cn_closed x) (cn_cancelled x) (cn_draining x)
    (cn_drain x) true (cn_serving x) (cn_log x) (cn_written x) (cn_last x).
Definition set_serving (x : Conn) : Conn :=
  mkConn (cn_client x) (cn_cap x) (cn_send x) (cn_queued x) (cn_closing x) (cn_once x) (cn_closed x) (cn_cancelled x) (cn_draining x)
    (cn_drain x) (cn_hard x) true (cn_log x) (cn_written x) (cn_last x).
Definition set_written (x : Conn) (f : string) : Conn :=
  mkConn (cn_client x) (cn_cap x) (cn_send x) (cn_queued x) (cn_closing x) (cn_once x) (cn_closed x) (cn_cancelled x) (cn_draining x)
    (cn_drain x) (cn_hard x) (cn_serving x) (cn_log x) (cn_written x ++ [f]) (cn_last x).

Inductive queued := QClosed | QQueued | QFull.

(** The section of [queueFrame] under [sendMu]. *)
Definition queueFrame (x : Conn) (frame : string) (n : Z) : queued * Conn :=
  if cn_closing x then (QClosed, x)
  else if (length (cn_send x) <? cn_cap x)%nat then
    (QQueued, set_queue x (cn_send x ++ [frame]) (i64 (cn_queued x + n)) (cn_log x ++ [frame]))
  else (QFull, x).

(** The section of [close] under [sendMu]: the bytes still charged, and the connection. *)
Definition close_queue (x : Conn) : Z * Conn := (cn_queued x, set_closing x).

(** [beginDrain], under [kickMu]; [down] says that the context of the gateway, root of all connection contexts, was cancelled. *)
Definition beginDrain (down : bool) (x : Conn) : bool * Conn :=
  if (down || cn_cancelled x) || cn_draining x then (false, x) else (true, set_drain x true (cn_drain x) (cn_last x)).

(** ** The node and its goroutines *)

Record Gw := mkGw { g_budget : sendBudget; g_users : UserMap; g_conns : gmap nat Conn; g_closing : bool; g_down : bool; g_panic : bool }.

Definition set_budget (g : Gw) (b : sendBudget) : Gw := mkGw b (g_users g) (g_conns g) (g_closing g) (g_down g) (g_panic g).
Definition set_conns (g : Gw) (m : gmap nat Conn) : Gw := mkGw (g_budget g) (g_users g) m (g_closing g) (g_down g) (g_panic g).
Definition set_conn (g : Gw) (c : nat) (x : Conn) : Gw := set_conns g (<[c := x]> (g_conns g)).
Definition set_users (g : Gw) (u : UserMap) : Gw := mkGw (g_budget g) u (g_conns g) (g_closing g) (g_down g) (g_panic g).
Definition panic (g : Gw) : Gw := mkGw (g_budget g) (g_users g) (g_conns g) (g_closing g) (g_down g) true.

(** What a goroutine does when the call it is in returns: close the drain channel ([finishDrain]), or go on to the next
    target of [Gateway.kick]. *)
Inductive Kont := KDrain (c : nat) | KKicked (c : nat).

Inductive Task :=
| TRet (k : list Kont)
| TSend (c : nat) (frame : string) (k : list Kont)
| TPush (c : nat) (frame : string) (snapshot : bool) (k : list Kont)
| TUndo (c : nat) (n : Z) (snapshot : bool) (k : list Kont)
| TQueue (c : nat) (frame : string) (k : list Kont)
| TFail (c : nat) (n : Z) (full : bool) (k : list Kont)
| TClose (c : nat) (k : list Kont)
| TCleanup (c : nat) (k : list Kont)
| TCloseQueue (c : nat) (k : list Kont)
| TCloseChan (c : nat) (n : Z) (k : list Kont)
| TGiveBack (c : nat) (n : Z) (k : list Kont)
| TUnregister (c : nat) (k : list Kont)
| TFlush (c : nat) (last : option string) (k : list Kont)
| TFinish (c : nat) (last : option string) (k : list Kont)
| TKick (userId : string) (platformId : Z) (keep : string)
| TSelect (clients : list Client) (platformId : Z) (keep : string)
| TWriter (c : nat) (drain : bool)
| TWrite (c : nat) (frame : string) (drain : bool)
| TWriteRelease (c : nat) (frame : string) (n : Z) (drain : bool)
| TWire (c : nat) (frame : string) (drain : bool).

(** What a step gets from outside: a generated op id, which ready case [select] takes, whether an operation on the socket or
    the context of a kick's source failed. *)
Record Choice := mkChoice { ch_op : string; ch_case : nat; ch_fail : bool }.

(** The targets of [Gateway.kick], taken under [kickMu]. *)
Fixpoint kick_select (down : bool) (conns : gmap nat Conn) (clients : list Client) (platformId : Z) (keep : string) : list nat * gmap nat Conn :=
  match clients with
  | [] => ([], conns)
  | cl :: rest =>
      match conns !! Cl_ptr cl with
      | Some x =>
          if (Cl_PlatformId cl =? platformId) && negb (Cl_TokenId cl =? keep)%string && (beginDrain down x).1 then
            let '(ts, m) := kick_select down (<[Cl_ptr cl := (beginDrain down x).2]> conns) rest platformId keep in (Cl_ptr cl :: ts, m)
          else kick_select down conns rest platformId keep
      | None => kick_select down conns rest platformId keep
      end
  end.

(** The rest of [finishDrain] once the last frame is known: send it, then close the drain channel. *)
Definition finishDrain (c : nat) (last : option string) (k : list Kont) : Task :=
  match last with Some f => TSend c f (KDrain c :: k) | None => TRet (KDrain c :: k) end.

(** One atomic step of a goroutine; [None] when it is blocked or the choice does not apply. *)
Definition task_step (ch : Choice) (g : Gw) (t : Task) : option (Gw * Task) :=
  match t with
  | TRet [] => None
  | TRet (KDrain c :: k) =>
      x ← g_conns g !! c;
      Some (if cn_drain x then panic g else set_conn g c (set_drain x (cn_draining x) true (cn_last x)), TRet k)
  | TRet (KKicked c :: k) => f ← reasonFrame KickOnline (ch_op ch) KickNewLogin; Some (g, TFinish c (Some f) k)
  (* Send *)
  | TSend c f k => Some (set_budget g (take (g_budget g) (len f)), TQueue c f k)
  (* Push, which sends a resync when the budget refuses, and queueOnlineSnapshot, which gives up *)
  | TPush c f snapshot k =>
      let '(ok, b) := tryTake (g_budget g) (len f) in
      Some (set_budget g b, if ok : bool then TQueue c f k else TUndo c (len f) snapshot k)
  | TUndo c n snapshot k =>
      f ← reasonFrame Resync (ch_op ch) closeReasonOverCap;
      Some (set_budget g (tryTake_undo (g_budget g) n), if snapshot then TRet k else TSend c f k)
  (* enqueue and queueFrame *)
  | TQueue c f k =>
      x ← g_conns g !! c;
      let '(r, x') := queueFrame x f (len f) in
      Some (set_conn g c x', match r with QQueued => TRet k | QClosed => TFail c (len f) false k | QFull => TFail c (len f) true k end)
  | TFail c n full k =>
      let b := b_release (g_budget g) n in
      Some (set_budget g (if full then slow b else b), if full then TClose c k else TRet k)
  (* Close: hardClose, then close *)
  | TClose c k => x ← g_conns g !! c; Some (set_conn g c (set_hard x), TCleanup c k)
  | TCleanup c k =>
      x ← g_conns g !! c;
      match cn_once x with
      | Idle => Some (set_conn g c (set_once x Running), TCloseQueue c k)
      | Running => None
      | Finished => Some (g, TRet k)
      end
  | TCloseQueue c k => x ← g_conns g !! c; let '(leaked, x') := close_queue x in Some (set_conn g c x', TCloseChan c leaked k)
  | TCloseChan c n k =>
      x ← g_conns g !! c; Some (if cn_closed x then panic g else set_conn g c (set_closed x), TGiveBack c n k)
  | TGiveBack c n k => Some (set_budget g (b_release (g_budget g) n), TUnregister c k)
  | TUnregister c k =>
      x ← g_conns g !! c; Some (set_users (set_conn g c (set_once x Finished)) (Unregister (g_users g) (cn_client x)), TRet k)
  (* closeAfterFlush and finishDrain *)
  | TFlush c last k =>
      x ← g_conns g !! c;
      let '(started, x') := beginDrain (g_down g) x in
      Some (set_conn g c x', if started then TFinish c last k else TRet k)
  | TFinish c last k =>
      x ← g_conns g !! c;
      Some (set_conn g c (set_drain x (cn_draining x) (cn_drain x) last), finishDrain c last k)
  (* Gateway.kick *)
  | TKick u p keep => Some (g, TSelect (Get (g_users g) u) p keep)
  | TSelect clients p keep =>
      if ch_fail ch || g_closing g then Some (g, TRet [])
      else let '(ts, m) := kick_select (g_down g) (g_conns g) clients p keep in Some (set_conns g m, TRet (map KKicked ts))
  (* writeLoop and write *)
  | TWriter c d =>
      x ← g_conns g !! c;
      match d, ch_case ch, cn_send x with
      | false, O, _ => if cn_closed x then Some (g, TRet []) else None
      | false, 1%nat, f :: rest | true, _, f :: rest => Some (set_conn g c (set_queue x rest (cn_queued x) (cn_log x)), TWrite c f d)
      | false, 2%nat, _ => if cn_drain x then Some (g, TWriter c true) else None
      | false, 3%nat, _ => if ch_fail ch then Some (g, TClose c []) else Some (g, TWriter c false)
      | false, _, _ => None
      | true, _, [] => Some (g, TClose c [])
      end
  | TWrite c f d =>
      x ← g_conns g !! c;
      if cn_closing x then Some (g, TWire c f d)
      else Some (set_conn g c (set_queue x (cn_send x) (i64 (cn_queued x - len f)) (cn_log x)), TWriteRelease c f (len f) d)
  | TWriteRelease c f n d => Some (set_budget g (b_release (g_budget g) n), TWire c f d)
  | TWire c f d =>
      x ← g_conns g !! c;
      if ch_fail ch || cn_hard x then Some (g, TClose c []) else Some (set_conn g c (set_written x f), TWriter c d)
  end.

(** ** The node as a whole *)

(** The calls that start a goroutine or run in one of the code not modelled here: replies and resyncs, pushes, closing (the
    reader, timers, shutdown), [closeAfterFlush] with a kick frame or without, and kicks. *)
Definition entry (t : Task) : bool :=
  match t with
  | TSend _ _ [] | TPush _ _ _ [] | TClose _ [] | TFlush _ _ [] | TKick _ _ _ => true
  | _ => false
  end.

Definition Node : Type := Gw * list Task.

Inductive node_step : Node → Node → Prop :=
| ns_task g ts i t ch g' t' : ts !! i = Some t → task_step ch g t = Some (g', t') → node_step (g, ts) (g', <[i := t']> ts)
| ns_enter g ts t : entry t = true → node_step (g, ts) (g, ts ++ [t])
| ns_new g ts c q : g_conns g !! Cl_ptr c = None → node_step (g, ts) (set_conn g (Cl_ptr c) (newClient c q), ts)
| ns_adopt g ts c x : g_conns g !! c = Some x →
    node_step (g, ts) (set_users g (adopt (g_users g) (cn_client x) (cn_closed x)).2, ts)
| ns_users g ts u : um_limits u = um_limits (g_users g) → um_byUser u = um_byUser (g_users g) → node_step (g, ts) (set_users g u, ts)
| ns_serve g ts c x : g_conns g !! c = Some x → cn_serving x = false → node_step (g, ts) (set_conn g c (set_serving x), ts ++ [TWriter c false])
| ns_shutdown g ts down : node_step (g, ts) (mkGw (g_budget g) (g_users g) (g_conns g) true (g_down g || down) (g_panic g), ts).

Definition newGateway (L : LimitsConfig) (bytesTotal : Z) : Gw := mkGw (newSendBudget bytesTotal) (NewUserMap L) ∅ false false false.

Definition node_reachable (L : LimitsConfig) (bytesTotal : Z) (n : Node) : Prop := rtc node_step (newGateway L bytesTotal, []) n.

(** ** Sums *)

Definition sumT {A} (f : A → Z) (ts : list A) : Z := foldr (λ t a, f t + a) 0 ts.

Lemma sumT_app {A} (f : A → Z) l l' : sumT f (l ++ l') = sumT f l + sumT f l'.
Proof. induction l as [|t l IH]; simpl; lia. Qed.

Lemma sumT_insert {A} (f : A → Z) ts i t t' : ts !! i = Some t → sumT f (<[i := t']> ts) = sumT f ts - f t + f t'.
Proof. revert i. induction ts as [|y ts IH]; intros [|i]; simpl; [done|done|intros [= ->]; lia|]. intros H. rewrite (IH _ H). lia. Qed.

Lemma sumT_ge {A} (f : A → Z) ts i t : (∀ u, 0 ≤ f u) → ts !! i = Some t → f t ≤ sumT f ts.
Proof.
  intros H0. revert i. induction ts as [|y ts IH]; intros [|i]; simpl; try done.
  - intros [= ->]. assert (0 ≤ sumT f ts) by (clear -H0; induction ts as [|u ts IH]; simpl; [done|specialize (H0 u); lia]). lia.
  - intros H. specialize (IH _ H). specialize (H0 y). lia.
Qed.

Lemma sumT_two {A} (f : A → Z) ts i j t u : (∀ v, 0 ≤ f v) → i ≠ j → ts !! i = Some t → ts !! j = Some u → f t + f u ≤ sumT f ts.
Proof.
  intros H0. revert i j. induction ts as [|y ts IH]; intros [|i] [|j] Hij; simpl; try done.
  - intros [= ->] H. pose proof (sumT_ge f ts j u H0 H). lia.
  - intros H [= ->]. pose proof (sumT_ge f ts i t H0 H). lia.
  - intros Hi Hj. specialize (IH i j ltac:(congruence) Hi Hj). specialize (H0 y). lia.
Qed.

Definition sumC (f : Conn → Z) (m : gmap nat Conn) : Z := map_fold (λ _ x a, f x + a) 0 m.

Lemma sumC_fresh f m c x : m !! c = None → sumC f (<[c := x]> m) = f x + sumC f m.
Proof. intros H. unfold sumC. rewrite map_fold_insert_L; [done| |done]. intros. lia. Qed.

Lemma sumC_insert f m c x x' : m !! c = Some x → sumC f (<[c := x']> m) = sumC f m - f x + f x'.
Proof.
  intros H. rewrite <- (insert_delete_id m c x H) at 2. rewrite <- (insert_delete_eq m c x').
  rewrite !sumC_fresh by apply lookup_delete_eq. lia.
Qed.

(** ** Arithmetic at 64 bits *)

Lemma i64_cong x y q : x = y + q * 2 ^ 64 → i64 x = i64 y.
Proof.
  intros ->. unfold i64, wrap. f_equal. replace (y + q * 2 ^ 64 + 2 ^ (64 - 1)) with (y + 2 ^ (64 - 1) + q * 2 ^ 64) by lia.
  apply Z_mod_plus_full.
Qed.

Lemma i64_sub x : ∃ q, i64 x = x + q * 2 ^ 64.
Proof.
  unfold i64, wrap. exists (- ((x + 2 ^ (64 - 1)) / 2 ^ 64)). pose proof (Z.div_mod (x + 2 ^ (64 - 1)) (2 ^ 64) ltac:(lia)). lia.
Qed.

Lemma i64_l x y z : x + y = z → i64 (i64 x + y) = i64 z.
Proof. intros <-. destruct (i64_sub x) as [q ->]. apply (i64_cong _ _ q). lia. Qed.

Lemma i64_r x y z : x + y = z → i64 (x + i64 y) = i64 z.
Proof. intros <-. destruct (i64_sub y) as [q ->]. apply (i64_cong _ _ q). lia. Qed.

(** ** The bytes of the budget *)

(** The bytes of frames waiting in a queue. *)
Definition bytes_len (l : list string) : Z := foldr (λ f a, len f + a) 0 l.

Lemma bytes_len_app l l' : bytes_len (l ++ l') = bytes_len l + bytes_len l'.
Proof. induction l as [|f l IH]; simpl; lia. Qed.

(** Bytes charged and in the hands of a goroutine: not in a queue yet, or to be given back. *)
Definition hand (t : Task) : Z :=
  match t with
  | TQueue _ f _ => len f
  | TUndo _ n _ _ | TFail _ n _ _ | TCloseChan _ n _ | TGiveBack _ n _ | TWriteRelease _ _ n _ => n
  | _ => 0
  end.

(** Bytes of the frame a writer took from the queue of [c] and has not accounted for. *)
Definition owed (c : nat) (t : Task) : Z :=
  match t with TWrite c' f _ => if bool_decide (c' = c) then len f else 0 | _ => 0 end.

Definition conn_queued (ts : list Task) (c : nat) (x : Conn) : Prop :=
  cn_queued x = if cn_closing x then 0 else i64 (bytes_len (cn_send x) + sumT (owed c) ts).

Record bytes_inv (n : Node) : Prop := {
  bi_budget : b_queued (g_budget n.1) = i64 (sumC cn_queued (g_conns n.1) + sumT hand n.2);
  bi_conns c x : g_conns n.1 !! c = Some x → conn_queued n.2 c x;
  bi_fresh c : g_conns n.1 !! c = None → sumT (owed c) n.2 = 0 }.

(** The cases of a step of a goroutine. *)
Ltac step_cases H :=
  repeat match type of H with
  | context [match ?e with _ => _ end] => let E := fresh "E" in destruct e eqn:E; simpl in H; try discriminate H
  end.

(** The counter of the budget after a change by [d]. *)
Definition charged (b b' : sendBudget) (d : Z) : Prop := b_queued b' = i64 (b_queued b + d) ∨ b_queued b' = b_queued b ∧ d = 0.

Lemma charged_sum b b' d S : b_queued b = i64 S → charged b b' d → b_queued b' = i64 (S + d).
Proof. intros Hb [->|[-> ->]]; rewrite Hb; [by apply i64_l|by rewrite Z.add_0_r]. Qed.

Lemma bytes_same g ts i t g' t' d :
  ts !! i = Some t → bytes_inv (g, ts) → g_conns g' = g_conns g → charged (g_budget g) (g_budget g') d → hand t' - hand t = d →
  (∀ c, owed c t' = owed c t ∨ ∃ x, g_conns g !! c = Some x ∧ cn_closing x = true) → bytes_inv (g', <[i := t']> ts).
Proof.
  intros Hi [Hb Hc Hf] Em Hd Ed Ho. split; simpl in *.
  - rewrite Em, (sumT_insert _ _ _ _ _ Hi), (charged_sum _ _ _ _ Hb Hd). f_equal. lia.
  - intros c x Hx. rewrite Em in Hx. specialize (Hc c x Hx). unfold conn_queued in *. rewrite Hc.
    destruct (Ho c) as [E|(x1 & E1 & E2)]; [|rewrite Hx in E1; injection E1 as <-; by rewrite E2].
    by rewrite (sumT_insert _ _ _ _ _ Hi), E, Z.sub_add.
  - intros c. rewrite Em. intros H. rewrite (sumT_insert _ _ _ _ _ Hi), (Hf c H). destruct (Ho c) as [E|(x1 & E1 & _)]; [lia|congruence].
Qed.

Lemma bytes_upd g ts i t g' t' c x x' d q :
  ts !! i = Some t → bytes_inv (g, ts) → g_conns g !! c = Some x → g_conns g' = <[c := x']> (g_conns g) →
  charged (g_budget g) (g_budget g') d → cn_queued x' - cn_queued x + (hand t' - hand t) = d + q * 2 ^ 64 →
  conn_queued (<[i := t']> ts) c x' → (∀ c', c' ≠ c → owed c' t' = owed c' t) → bytes_inv (g', <[i := t']> ts).
Proof.
  intros Hi [Hb Hc Hf] Hx Em Hd Eq Hx' Ho. split; simpl in *.
  - rewrite Em, (sumT_insert _ _ _ _ _ Hi), (sumC_insert _ _ _ _ _ Hx), (charged_sum _ _ _ _ Hb Hd).
    apply (i64_cong _ _ (- q)). lia.
  - intros c' y. rewrite Em. destruct (decide (c' = c)) as [->|Hne]; [by rewrite lookup_insert_eq; intros [= <-]|].
    rewrite lookup_insert_ne by done. intros Hy. specialize (Hc c' y Hy). unfold conn_queued in *.
    by rewrite Hc, (sumT_insert _ _ _ _ _ Hi), (Ho c') by done; rewrite Z.sub_add.
  - intros c'. rewrite Em. destruct (decide (c' = c)) as [->|Hne]; [by rewrite lookup_insert_eq|]. rewrite lookup_insert_ne by done.
    intros H. rewrite (sumT_insert _ _ _ _ _ Hi), (Hf c' H), (Ho c') by done. lia.
Qed.

(** A change of the connection that leaves its queue alone. *)
Lemma bytes_conn g ts i t g' t' c x x' :
  ts !! i = Some t → bytes_inv (g, ts) → g_conns g !! c = Some x → g_conns g' = <[c := x']> (g_conns g) → g_budget g' = g_budget g →
  cn_queued x' = cn_queued x → cn_send x' = cn_send x → cn_closing x' = cn_closing x → hand t' = hand t → (∀ c, owed c t' = owed c t) →
  bytes_inv (g', <[i := t']> ts).
Proof.
  intros Hi HI Hx Em Eb Eq Es Ec Eh Eo. apply (bytes_upd g _ _ t _ _ c x x' 0 0); try done; [rewrite Eb; by right|lia|].
  pose proof (bi_conns _ HI c x Hx) as Hc. unfold conn_queued in *. simpl in *.
  by rewrite Eq, Es, Ec, Hc, (sumT_insert _ _ _ _ _ Hi), (Eo c), Z.sub_add.
Qed.

(** The targets of a kick are the connections whose drain it began, each once. *)
Lemma kick_select_spec down clients p keep : ∀ m ts m', kick_select down m clients p keep = (ts, m') → ∀ c,
  (m' !! c = m !! c ∧ c ∉ ts) ∨
  (∃ x l1 l2, m !! c = Some x ∧ (beginDrain down x).1 = true ∧ m' !! c = Some (beginDrain down x).2 ∧ ts = l1 ++ c :: l2 ∧ c ∉ l1 ∧ c ∉ l2).
Proof.
  induction clients as [|cl rest IH]; intros m ts m'; simpl; [intros [= <- <-] c; left; split; [done|apply not_elem_of_nil]|].
  destruct (m !! Cl_ptr cl) as [x|] eqn:Ex; [|apply IH]. destruct (_ && (beginDrain down x).1) eqn:Eb; [|apply IH].
  destruct (kick_select _ _ rest p keep) as [ts1 m1] eqn:Ek. intros [= <- <-] c. apply andb_true_iff in Eb as [_ Eb].
  destruct (IH _ _ _ Ek c) as [[E Hn]|(y & l1 & l2 & Ey & Eb' & Em & -> & Hn1 & Hn2)].
  - destruct (decide (c = Cl_ptr cl)) as [->|Hne].
    + right. rewrite lookup_insert_eq in E. exists x, [], ts1. split_and!; try done. apply not_elem_of_nil.
    + left. rewrite lookup_insert_ne in E by done. split; [done|]. by apply not_elem_of_cons.
  - right. destruct (decide (c = Cl_ptr cl)) as [->|Hne].
    + rewrite lookup_insert_eq in Ey. injection Ey as <-. exfalso. revert Eb'. unfold beginDrain in *.
      destruct ((down || cn_cancelled x) || cn_draining x); [done|]. simpl. by rewrite orb_true_r.
    + rewrite lookup_insert_ne in Ey by done. exists y, (Cl_ptr cl :: l1), l2. split_and!; try done. by apply not_elem_of_cons.
Qed.

Lemma beginDrain_queue down x : (beginDrain down x).2 = set_drain x (cn_draining (beginDrain down x).2) (cn_drain x) (cn_last x).
Proof. unfold beginDrain. destruct (_ || _); [by destruct x|done]. Qed.

Lemma sumC_ext f m m' : (∀ c, f <$> m !! c = f <$> m' !! c) → sumC f m = sumC f m'.
Proof.
  intros H. assert (∀ m, sumC f m = map_fold (λ _ z a, z + a) 0 (f <$> m)) as E.
  { intros n. unfold sumC. by rewrite map_fold_fmap. }
  rewrite !E. f_equal. apply map_eq. intros c. by rewrite !lookup_fmap.
Qed.

Lemma bytes_select g ts i t down clients p keep l m t' :
  ts !! i = Some t → bytes_inv (g, ts) → kick_select down (g_conns g) clients p keep = (l, m) → hand t' = hand t → (∀ c, owed c t' = owed c t) →
  bytes_inv (set_conns g m, <[i := t']> ts).
Proof.
  intros Hi [Hb Hc Hf] Hk Eh Eo.
  assert (∀ c, m !! c = g_conns g !! c ∨ ∃ x d, g_conns g !! c = Some x ∧ m !! c = Some (set_drain x d (cn_drain x) (cn_last x))) as Hm.
  { intros c. destruct (kick_select_spec _ _ _ _ _ _ _ Hk c) as [[E _]|(x & _ & _ & Ex & _ & Em & _)]; [by left|right].
    exists x. rewrite Em, beginDrain_queue. eauto. }
  split; simpl in *.
  - rewrite Hb, (sumT_insert _ _ _ _ _ Hi), Eh, Z.sub_add. do 2 f_equal. apply sumC_ext. intros c.
    destruct (Hm c) as [->|(x & d & -> & ->)]; done.
  - intros c y Hy. assert (∃ x, g_conns g !! c = Some x ∧ cn_queued y = cn_queued x ∧ cn_closing y = cn_closing x ∧ cn_send y = cn_send x) as (x & Hx & E1 & E2 & E3).
    { destruct (Hm c) as [E|(x & d & E1 & E2)]; [rewrite E in Hy; eauto|]. rewrite E2 in Hy. injection Hy as <-. eauto. }
    pose proof (Hc c x Hx) as Hq. unfold conn_queued in *. by rewrite E1, E2, E3, Hq, (sumT_insert _ _ _ _ _ Hi), Eo, Z.sub_add.
  - intros c Hn. rewrite (sumT_insert _ _ _ _ _ Hi), Eo, Z.sub_add. apply Hf. destruct (Hm c) as [<-|(x & d & _ & E)]; congruence.
Qed.

Lemma queueFrame_spec x f n r x' :
  queueFrame x f n = (r, x') →
  match r with
  | QQueued => cn_closing x = false ∧ x' = set_queue x (cn_send x ++ [f]) (i64 (cn_queued x + n)) (cn_log x ++ [f])
  | QClosed => cn_closing x = true ∧ x' = x
  | QFull => x' = x
  end.
Proof. unfold queueFrame. destruct (cn_closing x) eqn:E; [by intros [= <- <-]|]. by destruct (_ <? _)%nat; intros [= <- <-]. Qed.

(** The writer takes a frame from the queue. *)
Lemma bytes_receive g ts i c d f rest x :
  ts !! i = Some (TWriter c d) → bytes_inv (g, ts) → g_conns g !! c = Some x → cn_send x = f :: rest →
  bytes_inv (set_conn g c (set_queue x rest (cn_queued x) (cn_log x)), <[i := TWrite c f d]> ts).
Proof.
  intros Hi HI Hx Es. pose proof (bi_conns _ HI _ _ Hx) as Hq. unfold conn_queued in Hq. simpl in Hq.
  eapply (bytes_upd g _ _ _ _ _ c x _ 0 0 Hi HI Hx); [reflexivity|by right|simpl; lia| |].
  - unfold conn_queued. simpl. rewrite Hq, (sumT_insert _ _ _ _ _ Hi), Es. simpl. rewrite bool_decide_eq_true_2 by done.
    destruct (cn_closing x); [done|]. f_equal. lia.
  - intros c' Hne. simpl. by rewrite bool_decide_eq_false_2.
Qed.

Ltac bytes_easy Hi HI :=
  match goal with
  | |- bytes_inv (set_budget _ _, _) => eapply (bytes_same _ _ _ _ _ _ _ Hi HI); [done|left; reflexivity|simpl; lia|by left]
  | E : g_conns _ !! ?c = Some ?x |- bytes_inv (set_conn _ ?c _, _) => by eapply (bytes_conn _ _ _ _ _ _ c x _ Hi HI E)
  | |- _ => eapply (bytes_same _ _ _ _ _ _ 0 Hi HI); [done|by right|simpl; lia|by left]
  end.

Lemma bytes_task ch g ts i t g' t' :
  ts !! i = Some t → task_step ch g t = Some (g', t') → bytes_inv (g, ts) → bytes_inv (g', <[i := t']> ts).
Proof.
  intros Hi Hs HI.
  destruct t; simpl in Hs; unfold mbind, option_bind, finishDrain in Hs; step_cases Hs; injection Hs as <- <-; try (bytes_easy Hi HI).
  - apply queueFrame_spec in E0 as [_ ->]. bytes_easy Hi HI.
  - apply queueFrame_spec in E0 as [Ecl ->]. pose proof (bi_conns _ HI _ _ E) as Hq. unfold conn_queued in Hq. simpl in Hq. rewrite Ecl in Hq.
    destruct (i64_sub (cn_queued c0 + len frame)) as [w Hw].
    eapply (bytes_upd g _ _ _ _ _ c c0 _ 0 w Hi HI E); [reflexivity|by right|simpl; lia| |done].
    unfold conn_queued. simpl. rewrite Ecl, Hq, (sumT_insert _ _ _ _ _ Hi), bytes_len_app. simpl. apply i64_l. lia.
  - apply queueFrame_spec in E0 as ->. bytes_easy Hi HI.
  - eapply (bytes_upd g _ _ _ _ _ c c0 _ 0 0 Hi HI E); [reflexivity|by right|simpl; lia|done|done].
  - by eapply (bytes_conn _ _ _ _ _ _ c c0 _ Hi HI E).
  - pose proof (beginDrain_queue (g_down g) c0) as Eq. rewrite E0 in Eq. simpl in Eq. rewrite Eq. bytes_easy Hi HI.
  - pose proof (beginDrain_queue (g_down g) c0) as Eq. rewrite E0 in Eq. simpl in Eq. rewrite Eq. bytes_easy Hi HI.
  - by eapply bytes_select.
  - by eapply bytes_receive.
  - by eapply bytes_receive.
  - eapply (bytes_same _ _ _ _ _ _ 0 Hi HI); [done|by right|done|]. intros c'. simpl. case_bool_decide as Hc; [subst; right; eauto|by left].
  - pose proof (bi_conns _ HI _ _ E) as Hq. unfold conn_queued in Hq. simpl in Hq. rewrite E0 in Hq.
    destruct (i64_sub (cn_queued c0 - len frame)) as [w Hw].
    eapply (bytes_upd g _ _ _ _ _ c c0 _ 0 w Hi HI E); [reflexivity|by right|simpl; lia| |].
    + unfold conn_queued. simpl. rewrite E0, Hq, (sumT_insert _ _ _ _ _ Hi). simpl. rewrite bool_decide_eq_true_2 by done.
      rewrite <- Z.add_opp_r. apply i64_l. lia.
    + intros c' Hne. simpl. by rewrite bool_decide_eq_false_2.
Qed.

Lemma bytes_node n n' : node_step n n' → bytes_inv n → bytes_inv n'.
Proof.
  intros Hs HI. destruct Hs as [g ts i t ch g' t' Hi Ht|g ts t He|g ts c q Hn|g ts c x Hx|g ts u _ _|g ts c x Hx Hv|g ts down].
  - by eapply bytes_task.
  - destruct HI as [Hb Hc Hf]. assert (hand t = 0 ∧ ∀ c, owed c t = 0) as [Eh Eo] by (destruct t; simpl in He; done).
    split; simpl in *; unfold conn_queued in *; intros; rewrite ?sumT_app; simpl; rewrite ?Eh, ?Eo, !Z.add_0_r; eauto.
  - destruct HI as [Hb Hc Hf]. split; simpl in *.
    + rewrite sumC_fresh by done. exact Hb.
    + intros c' x. destruct (decide (c' = Cl_ptr c)) as [->|Hne]; [|rewrite lookup_insert_ne by done; apply Hc].
      rewrite lookup_insert_eq. intros [= <-]. unfold conn_queued. simpl. by rewrite (Hf _ Hn).
    + intros c'. destruct (decide (c' = Cl_ptr c)) as [->|Hne]; [by rewrite lookup_insert_eq|]. rewrite lookup_insert_ne by done. apply Hf.
  - destruct HI; by split.
  - destruct HI; by split.
  - destruct HI as [Hb Hc Hf]. split; simpl in *.
    + rewrite (sumC_insert _ _ _ _ _ Hx), sumT_app. simpl. rewrite Hb. f_equal. lia.
    + intros c' y. unfold conn_queued. rewrite sumT_app. simpl. rewrite !Z.add_0_r.
      destruct (decide (c' = c)) as [->|Hne]; [|rewrite lookup_insert_ne by done; apply Hc].
      rewrite lookup_insert_eq. intros [= <-]. exact (Hc c x Hx).
    + intros c'. rewrite sumT_app. simpl. rewrite Z.add_0_r. destruct (decide (c' = c)) as [->|Hne]; [by rewrite lookup_insert_eq|].
      rewrite lookup_insert_ne by done. apply Hf.
  - destruct HI; by split.
Qed.

Lemma node_invariant (I : Node → Prop) L b n :
  I (newGateway L b, []) → (∀ n n', node_step n n' → I n → I n') → node_reachable L b n → I n.
Proof. intros H0 Hs Hr. unfold node_reachable in Hr. remember (newGateway L b, []) as n0 eqn:E. revert H0. subst. induction Hr; eauto. Qed.

Lemma bytes_reachable L b n : node_reachable L b n → bytes_inv n.
Proof.
  apply node_invariant; [|apply bytes_node]. split; [done| |done]. intros c x. simpl. by rewrite lookup_empty.
Qed.

(** ** Writers, closers and drains

    Each connection has at most one writer, is closed by one goroutine and drained by one. *)

Definition one (c c' : nat) : Z := if bool_decide (c' = c) then 1 else 0.

(** The goroutine is the writer of [c]. *)
Definition writes (c : nat) (t : Task) : Z :=
  match t with TWriter c' _ | TWrite c' _ _ | TWriteRelease c' _ _ _ | TWire c' _ _ => one c c' | _ => 0 end.

(** The frame the writer has taken from the queue and not written yet. *)
Definition taken (t : Task) : list string :=
  match t with TWrite _ f _ | TWriteRelease _ f _ _ | TWire _ f _ => [f] | _ => [] end.

(** The goroutine runs the cleanup of [c]. *)
Definition closes (c : nat) (t : Task) : Z :=
  match t with TCloseQueue c' _ | TCloseChan c' _ _ | TGiveBack c' _ _ | TUnregister c' _ => one c c' | _ => 0 end.

Definition konts (t : Task) : list Kont :=
  match t with
  | TRet k | TSend _ _ k | TPush _ _ _ k | TUndo _ _ _ k | TQueue _ _ k | TFail _ _ _ k | TClose _ k | TCleanup _ k | TCloseQueue _ k
  | TCloseChan _ _ k | TGiveBack _ _ k | TUnregister _ k | TFlush _ _ k | TFinish _ _ k => k
  | _ => []
  end.

Definition kont_drains (c : nat) (k : list Kont) : Z := foldr (λ y a, match y with KDrain c' | KKicked c' => one c c' end + a) 0 k.

(** The drains of [c] the goroutine has begun and will finish. *)
Definition drains (c : nat) (t : Task) : Z := match t with TFinish c' _ _ => one c c' | _ => 0 end + kont_drains c (konts t).

Definition is_kicked (y : Kont) : bool := match y with KKicked _ => true | KDrain _ => false end.

(** The last frame of the drain was accepted, or the connection closes. *)
Definition flushed (x : Conn) : Prop := match cn_last x with Some f => f ∈ cn_log x ∨ cn_closing x = true | None => True end.

(** What holds of a connection at the program point of a goroutine that works on it. *)
Record task_ok (c : nat) (x : Conn) (t : Task) : Prop := {
  to_writes : writes c t = 1 → cn_log x = cn_written x ++ taken t ++ cn_send x;
  to_closes : closes c t = 1 →
    match t with
    | TCloseQueue _ _ => cn_closed x = false
    | TCloseChan _ _ _ => cn_closed x = false ∧ cn_closing x = true
    | _ => cn_closed x = true ∧ cn_closing x = true
    end;
  to_drains k : konts t = KDrain c :: k →
    match t with
    | TSend c' f _ | TQueue c' f _ => c' = c ∧ cn_last x = Some f
    | TFail c' _ full _ => c' = c ∧ (full = false → cn_closing x = true)
    | TClose c' _ | TCleanup c' _ | TCloseQueue c' _ | TCloseChan c' _ _ | TGiveBack c' _ _ | TUnregister c' _ => c' = c
    | TRet _ => flushed x
    | _ => False
    end }.

Record conn_facts (x : Conn) : Prop := {
  cf_prefix : ∃ rest, cn_log x = cn_written x ++ rest;
  cf_new : cn_serving x = false → cn_written x = [] ∧ cn_log x = cn_send x;
  cf_once : match cn_once x with Idle => cn_closed x = false | Running => True | Finished => cn_closed x = true ∧ cn_closing x = true end;
  cf_drain : cn_drain x = true → cn_draining x = true ∧ flushed x }.

Definition running (x : Conn) : Z := match cn_once x with Running => 1 | _ => 0 end.
Definition serving (x : Conn) : Z := if cn_serving x then 1 else 0.
Definition in_drain (x : Conn) : Z := if cn_draining x && negb (cn_drain x) then 1 else 0.

Record conn_ok (ts : list Task) (c : nat) (x : Conn) : Prop := {
  ck_writers : sumT (writes c) ts ≤ serving x;
  ck_closers : sumT (closes c) ts = running x;
  ck_drains : sumT (drains c) ts = in_drain x;
  ck_facts : conn_facts x;
  ck_tasks i t : ts !! i = Some t → task_ok c x t }.

Record life_inv (n : Node) : Prop := {
  li_conns c x : g_conns n.1 !! c = Some x → conn_ok n.2 c x;
  li_fresh c : g_conns n.1 !! c = None → sumT (writes c) n.2 = 0 ∧ sumT (closes c) n.2 = 0 ∧ sumT (drains c) n.2 = 0;
  li_konts i t : n.2 !! i = Some t → Forall (λ y, is_kicked y = true) (tail (konts t));
  li_panic : g_panic n.1 = false }.

Lemma one_nonneg c c' : 0 ≤ one c c'.
Proof. unfold one. case_bool_decide; lia. Qed.

Lemma one_eq c : one c c = 1.
Proof. unfold one. by rewrite bool_decide_eq_true_2. Qed.

Lemma one_ne c c' : c' ≠ c → one c c' = 0.
Proof. intros. unfold one. by rewrite bool_decide_eq_false_2. Qed.

Lemma writes_nonneg c t : 0 ≤ writes c t.
Proof. destruct t; simpl; first [lia|apply one_nonneg]. Qed.

Lemma closes_nonneg c t : 0 ≤ closes c t.
Proof. destruct t; simpl; first [lia|apply one_nonneg]. Qed.

Lemma kont_drains_nonneg c k : 0 ≤ kont_drains c k.
Proof. induction k as [|[c'|c'] k IH]; simpl; [done| |]; pose proof (one_nonneg c c'); lia. Qed.

Lemma drains_nonneg c t : 0 ≤ drains c t.
Proof. unfold drains. pose proof (kont_drains_nonneg c (konts t)). destruct t; simpl in *; try lia. pose proof (one_nonneg c c0). lia. Qed.

#[export] Hint Resolve writes_nonneg closes_nonneg drains_nonneg : nexo.

(** Another goroutine's view of a connection survives a change of it. *)
Lemma task_ok_mono c x x' u :
  task_ok c x u →
  (writes c u = 1 → ∃ l, cn_written x' = cn_written x ∧ cn_send x' = cn_send x ++ l ∧ cn_log x' = cn_log x ++ l) →
  (closes c u = 1 → cn_closed x' = cn_closed x) → (cn_closing x = true → cn_closing x' = true) →
  (drains c u ≠ 0 → cn_last x' = cn_last x) → (∀ f, f ∈ cn_log x → f ∈ cn_log x') →
  task_ok c x' u.
Proof.
  intros [Hw Hc Hd] Mw Mc Mcl Ml Mlog. split.
  - intros E. destruct (Mw E) as (l & -> & -> & ->). rewrite (Hw E), <- !app_assoc. done.
  - intros E. specialize (Hc E). rewrite (Mc E). destruct u; naive_solver.
  - intros k E. specialize (Hd k E).
    assert (cn_last x' = cn_last x) as El.
    { apply Ml. unfold drains. rewrite E. simpl. rewrite one_eq. pose proof (kont_drains_nonneg c k). destruct u; simpl; try lia. }
    assert (flushed x → flushed x') as Hf by (unfold flushed; rewrite El; destruct (cn_last x); naive_solver).
    destruct u; rewrite ?El; naive_solver.
Qed.

(** One goroutine steps from [t] to [t'] and changes its connection from [x] to [x']. *)
Lemma conn_upd ts i t t' c x x' :
  ts !! i = Some t → conn_ok ts c x →
  writes c t' - writes c t ≤ serving x' - serving x → closes c t' - closes c t = running x' - running x →
  drains c t' - drains c t = in_drain x' - in_drain x → conn_facts x' → task_ok c x' t' →
  (writes c t = 1 ∨ ∃ l, cn_written x' = cn_written x ∧ cn_send x' = cn_send x ++ l ∧ cn_log x' = cn_log x ++ l) →
  (closes c t = 1 ∨ cn_closed x' = cn_closed x) → (cn_closing x = true → cn_closing x' = true) →
  (drains c t ≠ 0 ∨ cn_last x' = cn_last x) → (∀ f, f ∈ cn_log x → f ∈ cn_log x') →
  conn_ok (<[i := t']> ts) c x'.
Proof.
  intros Hi [Hw Hc Hd Hf Ht] Ew Ec Ed Hf' Ht' Mw Mc Mcl Ml Mlog.
  assert (∀ b : bool, (if b then 1 else 0) ≤ 1) as Hle by (intros []; lia).
  split; rewrite ?(sumT_insert _ _ _ _ _ Hi); [lia|lia|lia|done|]. intros j u Hj.
  destruct (decide (i = j)) as [<-|Hij].
  { rewrite list_lookup_insert_eq in Hj by (by eapply lookup_lt_Some). by injection Hj as <-. }
  rewrite list_lookup_insert_ne in Hj by done. apply (task_ok_mono c x); [by eapply Ht| | |done| |done].
  - intros E. destruct Mw as [E'|?]; [|done]. pose proof (sumT_two (writes c) ts i j t u ltac:(auto with nexo) Hij Hi Hj).
    unfold serving in Hw. specialize (Hle (cn_serving x)). lia.
  - intros E. destruct Mc as [E'|?]; [|done]. pose proof (sumT_two (closes c) ts i j t u ltac:(auto with nexo) Hij Hi Hj).
    unfold running in Hc. destruct (cn_once x); lia.
  - intros E. destruct Ml as [E'|?]; [|done]. pose proof (sumT_two (drains c) ts i j t u ltac:(auto with nexo) Hij Hi Hj).
    pose proof (drains_nonneg c t). pose proof (drains_nonneg c u). unfold in_drain in Hd. specialize (Hle (cn_draining x && negb (cn_drain x))). lia.
Qed.

(** A step that leaves the connection as it is. *)
Lemma conn_same ts i t t' c x :
  ts !! i = Some t → conn_ok ts c x →
  writes c t' ≤ writes c t → closes c t' = closes c t → drains c t' = drains c t → task_ok c x t' → conn_ok (<[i := t']> ts) c x.
Proof.
  intros Hi Hok Ew Ec Ed Ht'. apply (conn_upd _ _ t _ _ x); try done; try lia; [by destruct Hok|right; exists []; by rewrite !app_nil_r|by right|by right].
Qed.

Lemma life_upd g ts i t g' t' c x x' :
  ts !! i = Some t → life_inv (g, ts) → g_conns g !! c = Some x → g_conns g' = <[c := x']> (g_conns g) → g_panic g' = false →
  conn_ok (<[i := t']> ts) c x' → Forall (λ y, is_kicked y = true) (tail (konts t')) →
  (∀ c' y, c' ≠ c → g_conns g !! c' = Some y → task_ok c' y t') →
  (∀ c', c' ≠ c → writes c' t' ≤ writes c' t ∧ closes c' t' = closes c' t ∧ drains c' t' = drains c' t) →
  life_inv (g', <[i := t']> ts).
Proof.
  intros Hi [Hc Hf Hk Hp] Hx Em Ep Hok Hk' Ht' Hs. split; simpl in *; [| | |done].
  - intros c' y. rewrite Em. destruct (decide (c' = c)) as [->|Hne]; [by rewrite lookup_insert_eq; intros [= <-]|].
    rewrite lookup_insert_ne by done. intros Hy. destruct (Hs c' Hne) as (E1 & E2 & E3). eapply conn_same; eauto.
  - intros c'. rewrite Em. destruct (decide (c' = c)) as [->|Hne]; [by rewrite lookup_insert_eq|]. rewrite lookup_insert_ne by done.
    intros Hn. destruct (Hf c' Hn) as (F1 & F2 & F3), (Hs c' Hne) as (E1 & E2 & E3). rewrite !(sumT_insert _ _ _ _ _ Hi).
    pose proof (sumT_ge (writes c') ts i t ltac:(auto with nexo) Hi). pose proof (writes_nonneg c' t). pose proof (writes_nonneg c' t'). lia.
  - intros j u Hj. destruct (decide (i = j)) as [<-|Hij].
    + rewrite list_lookup_insert_eq in Hj by (by eapply lookup_lt_Some). by injection Hj as <-.
    + rewrite list_lookup_insert_ne in Hj by done. by eapply Hk.
Qed.

Lemma life_same g ts i t g' t' :
  ts !! i = Some t → life_inv (g, ts) → g_conns g' = g_conns g → g_panic g' = false → Forall (λ y, is_kicked y = true) (tail (konts t')) →
  (∀ c y, g_conns g !! c = Some y → task_ok c y t → task_ok c y t') →
  (∀ c, writes c t' ≤ writes c t ∧ closes c t' = closes c t ∧ drains c t' = drains c t) → life_inv (g', <[i := t']> ts).
Proof.
  intros Hi [Hc Hf Hk Hp] Em Ep Hk' Ht' Hs. split; simpl in *; [| | |done].
  - intros c y. rewrite Em. intros Hy. destruct (Hs c) as (E1 & E2 & E3). pose proof (Hc _ _ Hy) as Hok. eapply conn_same; eauto. destruct Hok; eauto.
  - intros c. rewrite Em. intros Hn. destruct (Hf c Hn) as (F1 & F2 & F3), (Hs c) as (E1 & E2 & E3). rewrite !(sumT_insert _ _ _ _ _ Hi).
    pose proof (sumT_ge (writes c) ts i t ltac:(auto with nexo) Hi). pose proof (writes_nonneg c t). pose proof (writes_nonneg c t'). lia.
  - intros j u Hj. destruct (decide (i = j)) as [<-|Hij].
    + rewrite list_lookup_insert_eq in Hj by (by eapply lookup_lt_Some). by injection Hj as <-.
    + rewrite list_lookup_insert_ne in Hj by done. by eapply Hk.
Qed.

Ltac counts :=
  intros; unfold drains; simpl; rewrite ?one_eq; repeat match goal with H : ?a ≠ ?b |- context [one ?a ?b] => rewrite (one_ne a b) by congruence end;
  repeat split;
  repeat match goal with |- context [one ?a ?b] => lazymatch goal with H : 0 ≤ one a b |- _ => fail | _ => pose proof (one_nonneg a b) end end; lia.

(** The program point after a step, from what held at the one before. *)
Ltac point :=
  let A := fresh "A" in let B := fresh "B" in let D := fresh "D" in
  intros; match goal with H : task_ok _ _ _ |- _ => destruct H as [A B D] end; simpl in *;
  split; simpl;
  [intros; try (exfalso; lia); auto|intros; try (exfalso; lia); auto|
   let E := fresh "E" in intros ? E; first [discriminate E|specialize (D _ E); first [naive_solver|idtac]|idtac]].

(** The same for a connection other than the one that changed. *)
Ltac other_point Hi HI :=
  let c' := fresh "c'" in let y := fresh "y" in let Hne := fresh "Hne" in let Hy := fresh "Hy" in
  intros c' y Hne Hy; pose proof (ck_tasks _ _ _ (li_conns _ HI c' y Hy) _ _ Hi);
  point; try (rewrite one_ne in * by done; exfalso; lia).

Ltac upd Hi HI E :=
  match type of E with g_conns _ !! ?c = Some ?x =>
    let K := fresh "K" in let P := fresh "P" in let F := fresh "F" in
    pose proof (li_conns _ HI _ _ E) as K; simpl in K; pose proof (ck_tasks _ _ _ K _ _ Hi) as P; pose proof (ck_facts _ _ _ K) as F;
    eapply (life_upd _ _ _ _ _ _ c x _ Hi HI E);
    [reflexivity|done|eapply (conn_upd _ _ _ _ c x _ Hi K)|try done|try (by other_point Hi HI)|try (by counts)];
    try solve [unfold serving, running, in_drain, drains; simpl; rewrite ?one_eq; lia|right; exists []; simpl; by rewrite !app_nil_r|by right|done
              |destruct F; by split]
  end.

Abbreviation all_kicked := (Forall (λ y, is_kicked y = true)).

Lemma kicked_tail k : all_kicked k → all_kicked (tail k).
Proof. by destruct 1. Qed.

Lemma kicked_point c x k : all_kicked k → task_ok c x (TRet k).
Proof. intros H. split; simpl; [lia|lia|]. intros k' ->. by inversion H. Qed.

(** A goroutine that has to finish a drain finds it begun and not finished. *)
Lemma drains_begun ts i t c x : conn_ok ts c x → ts !! i = Some t → 1 ≤ drains c t → cn_draining x = true ∧ cn_drain x = false.
Proof.
  intros K Hi H. pose proof (ck_drains _ _ _ K) as Kd. pose proof (sumT_ge (drains c) ts i t ltac:(auto with nexo) Hi).
  unfold in_drain in Kd. destruct (cn_draining x), (cn_drain x); simpl in Kd; try lia; done.
Qed.

Lemma drains_ret c l : 1 ≤ drains c (TRet (KDrain c :: l)).
Proof. unfold drains. simpl. rewrite one_eq. pose proof (kont_drains_nonneg c l). lia. Qed.

Lemma drains_finish c f l : 1 ≤ drains c (TFinish c f l).
Proof. unfold drains. simpl. rewrite one_eq. pose proof (kont_drains_nonneg c l). lia. Qed.

Lemma closes_running ts i t c x : conn_ok ts c x → ts !! i = Some t → closes c t = 1 → cn_once x = Running.
Proof.
  intros K Hi H. pose proof (ck_closers _ _ _ K) as Kd. pose proof (sumT_ge (closes c) ts i t ltac:(auto with nexo) Hi).
  unfold running in Kd. destruct (cn_once x); try lia; done.
Qed.

Lemma beginDrain_true down x x' :
  beginDrain down x = (true, x') → cn_draining x = false ∧ x' = set_drain x true (cn_drain x) (cn_last x) ∧ cn_cancelled x = false.
Proof.
  unfold beginDrain. destruct (_ || _) eqn:E; [done|]. intros [= <-]. apply orb_false_iff in E as [E ->]. by apply orb_false_iff in E as [_ ->].
Qed.

Lemma beginDrain_false down x x' : beginDrain down x = (false, x') → x' = x.
Proof. unfold beginDrain. by destruct (_ || _); intros [= <-]. Qed.

(** What remains to be done after [finishDrain] are targets of a kick. *)
Lemma finish_konts g ts i c last k : life_inv (g, ts) → ts !! i = Some (TFinish c last k) → all_kicked k.
Proof.
  intros HI Hi. pose proof (li_konts _ HI _ _ Hi) as Hk. simpl in Hk. destruct k as [|[c'|c'] k]; simpl in Hk; [done| |by constructor].
  exfalso. destruct (g_conns g !! c') as [x|] eqn:Ex.
  - pose proof (ck_tasks _ _ _ (li_conns _ HI _ _ Ex) _ _ Hi) as [_ _ D]. by apply (D k).
  - destruct (li_fresh _ HI c' Ex) as (_ & _ & E). simpl in E. pose proof (sumT_ge (drains c') ts i _ ltac:(auto with nexo) Hi) as G.
    unfold drains in G at 1. simpl in G. rewrite one_eq in G. pose proof (one_nonneg c' c). pose proof (kont_drains_nonneg c' k). lia.
Qed.

Lemma kicked_map l : all_kicked (map KKicked l).
Proof. induction l; by constructor. Qed.

Lemma kicked_drains c l : kont_drains c (map KKicked l) = foldr (λ c' a, one c c' + a) 0 l.
Proof. induction l as [|c' l IH]; simpl; lia. Qed.

Lemma ones_absent c l : c ∉ l → foldr (λ c' a, one c c' + a) 0 l = 0.
Proof.
  induction l as [|c' l IH]; [done|]. intros H. apply not_elem_of_cons in H as [H1 H2]. simpl. rewrite one_ne, IH by congruence. done.
Qed.

Lemma life_select g ts i clients p keep l m :
  ts !! i = Some (TSelect clients p keep) → life_inv (g, ts) → kick_select (g_down g) (g_conns g) clients p keep = (l, m) →
  life_inv (set_conns g m, <[i := TRet (map KKicked l)]> ts).
Proof.
  intros Hi HI Hk. pose proof (kicked_map l) as Hkk.
  assert (∀ c, c ∉ l → drains c (TRet (map KKicked l)) = 0) as Hd0.
  { intros c Hc. unfold drains. simpl. by rewrite kicked_drains, ones_absent. }
  split; simpl; [| | |apply (li_panic _ HI)].
  - intros c y Hy. destruct (kick_select_spec _ _ _ _ _ _ _ Hk c) as [[E Hn]|(x & l1 & l2 & Ex & Eb & Em & -> & Hn1 & Hn2)].
    + rewrite E in Hy. apply (conn_same _ _ _ _ _ _ Hi (li_conns _ HI _ _ Hy)); [done|done|by rewrite Hd0|by apply kicked_point].
    + rewrite Em in Hy. injection Hy as <-. destruct (beginDrain (g_down g) x) as [b x'] eqn:Ebd. simpl in *. subst b.
      destruct (beginDrain_true _ _ _ Ebd) as (Ed & -> & _). pose proof (li_conns _ HI _ _ Ex) as K. pose proof (ck_facts _ _ _ K) as [F1 F2 F3 F4].
      assert (cn_drain x = false) as Edr by (destruct (cn_drain x); [destruct (F4 eq_refl); congruence|done]).
      eapply (conn_upd _ _ _ _ c x _ Hi K); try done; try (unfold serving, running; simpl; lia); [| |by apply kicked_point|right; exists []; simpl; by rewrite !app_nil_r|by right|by right].
      * unfold drains, in_drain. simpl. rewrite kicked_drains, foldr_app. simpl. rewrite ones_absent, one_eq by done.
        rewrite Ed, Edr. simpl. clear - Hn1. induction l1 as [|c1 l1 IH]; simpl; [done|]. apply not_elem_of_cons in Hn1 as [? ?]. rewrite one_ne by congruence. auto.
      * split; simpl; [done|done|done|congruence].
  - intros c Hn. destruct (kick_select_spec _ _ _ _ _ _ _ Hk c) as [[E Hc]|(x & _ & _ & Ex & _ & Em & _)]; [|congruence].
    rewrite E in Hn. destruct (li_fresh _ HI c Hn) as (F1 & F2 & F3). rewrite !(sumT_insert _ _ _ _ _ Hi), (Hd0 c Hc). simpl in *. unfold drains at 2. simpl. lia.
  - intros j u Hj. destruct (decide (i = j)) as [<-|Hij].
    + rewrite list_lookup_insert_eq in Hj by (by eapply lookup_lt_Some). injection Hj as <-. by apply kicked_tail.
    + rewrite list_lookup_insert_ne in Hj by done. by eapply (li_konts _ HI).
Qed.

Lemma writer_serving ts i t c x : conn_ok ts c x → ts !! i = Some t → writes c t = 1 → cn_serving x = true.
Proof.
  intros K Hi H. pose proof (ck_writers _ _ _ K) as Kd. pose proof (sumT_ge (writes c) ts i t ltac:(auto with nexo) Hi).
  unfold serving in Kd. destruct (cn_serving x); [done|lia].
Qed.

Lemma life_receive g ts i c d f rest x :
  ts !! i = Some (TWriter c d) → life_inv (g, ts) → g_conns g !! c = Some x → cn_send x = f :: rest →
  life_inv (set_conn g c (set_queue x rest (cn_queued x) (cn_log x)), <[i := TWrite c f d]> ts).
Proof.
  intros Hi HI E Es. pose proof (li_panic _ HI) as Hp. simpl in Hp.
  pose proof (writer_serving _ _ _ _ _ (li_conns _ HI _ _ E) Hi (one_eq c)) as Hsv. upd Hi HI E.
  - destruct F as [F1 F2 F3 F4]. split; simpl; [done|congruence|done|done].
  - point. rewrite (A (one_eq c)), Es. done.
Qed.

Lemma life_task ch g ts i t g' t' :
  ts !! i = Some t → task_step ch g t = Some (g', t') → life_inv (g, ts) → life_inv (g', <[i := t']> ts).
Proof.
  intros Hi Hs HI. pose proof (li_konts _ HI _ _ Hi) as Hk. pose proof (li_panic _ HI) as Hp. simpl in Hk, Hp.
  destruct t; simpl in Hs; unfold mbind, option_bind, finishDrain in Hs; step_cases Hs; injection Hs as <- <-; simpl in Hk;
    try (apply (life_same _ _ _ _ _ _ Hi HI); [done|done|done|by point|by counts]).
  - destruct (drains_begun _ _ _ _ _ (li_conns _ HI _ _ E1) Hi (drains_ret _ _)). congruence.
  - destruct (drains_begun _ _ _ _ _ (li_conns _ HI _ _ E1) Hi (drains_ret _ _)) as [Ed _].
    upd Hi HI E1; [| | |by apply kicked_tail|by intros; apply kicked_point].
    + unfold drains, in_drain. simpl. rewrite one_eq, E2, Ed. simpl. lia.
    + destruct F, P. split; [done|done|done|]. intros _. split; [done|]. by apply (to_drains0 l).
    + by apply kicked_point.
  - apply (life_same _ _ _ _ _ _ Hi HI); [done|done|by apply kicked_tail| |by counts].
    intros c' y Hy P. split; simpl; [lia|lia|]. intros k' ->. by inversion Hk.
  - apply queueFrame_spec in E0 as [Ecl ->]. upd Hi HI E; by point.
  - apply queueFrame_spec in E0 as [Ecl ->]. upd Hi HI E.
    + destruct F as [[rest F1] F2 F3 F4]. split; simpl; [|intros Hs|done|].
      * exists (rest ++ [frame]). by rewrite F1, app_assoc.
      * destruct (F2 Hs) as [? F]. split; [done|by rewrite F].
      * intros Hd. destruct (F4 Hd) as [? F]. split; [done|]. unfold flushed in *. simpl. destruct (cn_last c0); [|done].
        destruct F; [left; set_solver|by right].
    + point. destruct D as [_ D]. unfold flushed. simpl. rewrite D. left. set_solver.
    + right. simpl. eauto.
    + simpl. set_solver.
  - apply queueFrame_spec in E0 as ->. upd Hi HI E; by point.
  - apply (life_same _ _ _ _ _ _ Hi HI); [done|done|done| |by counts]. point. destruct D as [_ D]. unfold flushed. destruct (cn_last y); [right; auto|done].
  - upd Hi HI E; by point.
  - upd Hi HI E; [by unfold running; simpl; rewrite E0, one_eq|]. point. destruct F as [_ _ F _]. by rewrite E0 in F.
  - apply (life_same _ _ _ _ _ _ Hi HI); [done|done|done| |by counts].
    intros c' y Hy P. point. subst c'. rewrite E in Hy. injection Hy as <-. pose proof (ck_facts _ _ _ (li_conns _ HI _ _ E)) as [_ _ F _].
    rewrite E0 in F. destruct F as [_ F]. unfold flushed. destruct (cn_last c0); [by right|done].
  - upd Hi HI E.
    + destruct F as [F1 F2 F3 F4]. split; simpl; [done|done|by destruct (cn_once c0); naive_solver|].
      intros Hd. destruct (F4 Hd). split; [done|]. unfold flushed. simpl. destruct (cn_last c0); [by right|done].
    + by point.
  - pose proof (ck_tasks _ _ _ (li_conns _ HI _ _ E) _ _ Hi) as [_ P _]. simpl in P. rewrite one_eq in P. destruct (P eq_refl). congruence.
  - pose proof (closes_running _ _ _ _ _ (li_conns _ HI _ _ E) Hi ltac:(simpl; apply one_eq)) as Er.
    upd Hi HI E.
    + destruct F as [F1 F2 F3 F4]. split; simpl; [done|done|by rewrite Er|done].
    + point. split; [done|]. by apply B.
  - pose proof (closes_running _ _ _ _ _ (li_conns _ HI _ _ E) Hi ltac:(simpl; apply one_eq)) as Er.
    assert (cn_closed c0 = true ∧ cn_closing c0 = true) as [Hcd Hcl].
    { pose proof (ck_tasks _ _ _ (li_conns _ HI _ _ E) _ _ Hi) as [_ P _]. apply P. simpl. apply one_eq. }
    upd Hi HI E; [by unfold running; simpl; rewrite Er, one_eq|]. point. unfold flushed. simpl. destruct (cn_last c0); [by right|done].
  - destruct (beginDrain_true _ _ _ E0) as (Ed & -> & Edn). upd Hi HI E.
    + unfold drains, in_drain. simpl. rewrite one_eq, Ed. simpl. destruct (cn_drain c0) eqn:Edr; [|simpl; lia].
      destruct F as [_ _ _ F]. destruct (F Edr). congruence.
    + destruct F as [F1 F2 F3 F4]. split; simpl; [done|done|done|]. intros Hd. by destruct (F4 Hd).
    + by point.
  - apply beginDrain_false in E0 as ->. upd Hi HI E; by point.
  - destruct (drains_begun _ _ _ _ _ (li_conns _ HI _ _ E) Hi (drains_finish _ _ _)) as [_ Edr]. pose proof (finish_konts _ _ _ _ _ _ HI Hi) as Hkk.
    upd Hi HI E.
    + destruct F as [F1 F2 F3 F4]. split; simpl; [done|done|done|congruence].
    + left. pose proof (drains_finish c (Some s) k). lia.
    + intros c' y Hne Hy. split; simpl; [lia|lia|]. intros k' [= E1]. congruence.
  - destruct (drains_begun _ _ _ _ _ (li_conns _ HI _ _ E) Hi (drains_finish _ _ _)) as [_ Edr]. pose proof (finish_konts _ _ _ _ _ _ HI Hi) as Hkk.
    upd Hi HI E.
    + destruct F as [F1 F2 F3 F4]. split; simpl; [done|done|done|congruence].
    + left. pose proof (drains_finish c None k). lia.
    + intros c' y Hne Hy. split; simpl; [lia|lia|]. intros k' [= E1]. congruence.
  - by eapply life_select.
  - by eapply life_receive.
  - by eapply life_receive.
  - upd Hi HI E; by point.
  - pose proof (writer_serving _ _ _ _ _ (li_conns _ HI _ _ E) Hi (one_eq c)) as Hsv. upd Hi HI E.
    + destruct F as [F1 F2 F3 F4]. split; simpl; [|congruence|done|done]. exists (cn_send c0). rewrite <- app_assoc. apply (to_writes _ _ _ P), one_eq.
    + point. rewrite <- app_assoc. apply A, one_eq.
Qed.

Lemma entry_counts t : entry t = true → konts t = [] ∧ ∀ c, writes c t = 0 ∧ closes c t = 0 ∧ drains c t = 0.
Proof. unfold drains. destruct t as [| | | | | | | | | | | | | |? ? ?|? ? ?| | | |]; simpl; try done; destruct k; done. Qed.

Lemma conn_more ts c x t :
  conn_ok ts c x → writes c t ≤ serving x - sumT (writes c) ts → closes c t = 0 → drains c t = 0 → task_ok c x t → conn_ok (ts ++ [t]) c x.
Proof.
  intros [Hw Hc Hd Hf Ht] E1 E2 E3 Hok. split; rewrite ?sumT_app; simpl; try lia; [done|]. intros i u Hi.
  apply lookup_app_Some in Hi as [Hi|[_ Hi]]; [by eapply Ht|]. apply list_lookup_singleton_Some in Hi as [_ <-]. done.
Qed.

Lemma life_node n n' : node_step n n' → life_inv n → life_inv n'.
Proof.
  intros Hs HI. destruct Hs as [g ts i t ch g' t' Hi Ht|g ts t He|g ts c q Hn|g ts c x Hx|g ts u _ _|g ts c x Hx Hv|g ts down].
  - by eapply life_task.
  - destruct (entry_counts t He) as [Ek Ec]. destruct HI as [Hc Hf Hk Hp]. split; simpl in *; [| | |done].
    + intros c x Hx. destruct (Ec c) as (E1 & E2 & E3). pose proof (ck_writers _ _ _ (Hc c x Hx)). apply conn_more; [by apply Hc|lia|done|done|].
      split; [lia|lia|]. by rewrite Ek.
    + intros c Hn. destruct (Ec c) as (E1 & E2 & E3), (Hf c Hn) as (F1 & F2 & F3). rewrite !sumT_app. simpl. lia.
    + intros i u Hi. apply lookup_app_Some in Hi as [Hi|[_ Hi]]; [by eapply Hk|]. apply list_lookup_singleton_Some in Hi as [_ <-]. by rewrite Ek.
  - destruct HI as [Hc Hf Hk Hp]. split; simpl in *; [| |done|done].
    + intros c' x. destruct (decide (c' = Cl_ptr c)) as [->|Hne]; [|rewrite lookup_insert_ne by done; apply Hc].
      rewrite lookup_insert_eq. intros [= <-]. destruct (Hf _ Hn) as (F1 & F2 & F3). split; [unfold serving; simpl; lia|done|done| |].
      * split; simpl; [by exists []|done|done|done].
      * intros i t Hi. pose proof (sumT_ge (writes (Cl_ptr c)) ts i t ltac:(auto with nexo) Hi).
        pose proof (sumT_ge (closes (Cl_ptr c)) ts i t ltac:(auto with nexo) Hi). pose proof (sumT_ge (drains (Cl_ptr c)) ts i t ltac:(auto with nexo) Hi) as Hd.
        split; [lia|lia|]. intros k Ek. exfalso. unfold drains in Hd at 1. rewrite Ek in Hd. simpl in Hd. rewrite one_eq in Hd.
        pose proof (kont_drains_nonneg (Cl_ptr c) k).
        destruct t; simpl in Hd; try lia. pose proof (one_nonneg (Cl_ptr c) c0). lia.
    + intros c'. destruct (decide (c' = Cl_ptr c)) as [->|Hne]; [by rewrite lookup_insert_eq|]. rewrite lookup_insert_ne by done. apply Hf.
  - by destruct HI.
  - by destruct HI.
  - destruct HI as [Hc Hf Hk Hp]. split; simpl in *; [| | |done].
    + intros c' y. destruct (decide (c' = c)) as [->|Hne].
      * rewrite lookup_insert_eq. intros [= <-]. destruct (Hc c x Hx) as [K1 K2 K3 [G1 G2 G3 G4] K5]. unfold serving in K1. rewrite Hv in K1.
        pose proof (sumT_ge (writes c) ts) as Hge.
        apply conn_more; [|unfold serving; simpl; rewrite one_eq; lia|done|done|split; simpl; [|lia|done]; intros _; destruct (G2 Hv) as [-> ->]; done].
        split; [unfold serving; simpl; lia|done|done|split; simpl; done|]. intros i t Hi. specialize (K5 i t Hi). destruct K5. by split.
      * rewrite lookup_insert_ne by done. intros Hy. pose proof (ck_writers _ _ _ (Hc c' y Hy)).
        apply conn_more; [by apply Hc|simpl; rewrite one_ne by congruence; lia|done|done|]. split; simpl; [rewrite one_ne by congruence; lia|lia|done].
    + intros c'. destruct (decide (c' = c)) as [->|Hne]; [by rewrite lookup_insert_eq|]. rewrite lookup_insert_ne by done.
      intros Hn. destruct (Hf c' Hn) as (F1 & F2 & F3). rewrite !sumT_app. simpl. rewrite one_ne by congruence. unfold drains at 2. simpl. lia.
    + intros i u Hi. apply lookup_app_Some in Hi as [Hi|[_ Hi]]; [by eapply Hk|]. apply list_lookup_singleton_Some in Hi as [_ <-]. done.
  - by destruct HI.
Qed.

Lemma life_reachable L b n : node_reachable L b n → life_inv n.
Proof.
  apply node_invariant; [|apply life_node]. split; simpl; [|done| |done]; [intros c x; by rewrite lookup_empty|by intros i t; rewrite lookup_nil].
Qed.

(** A writer that empties the queue before closing was told to: the drain channel is closed. *)
Definition draining_writer (c : nat) (t : Task) : bool :=
  match t with TWriter c' d | TWrite c' _ d | TWriteRelease c' _ _ d | TWire c' _ d => d && bool_decide (c' = c) | _ => false end.

Definition drain_inv (n : Node) : Prop :=
  ∀ i t c, n.2 !! i = Some t → draining_writer c t = true → ∃ x, g_conns n.1 !! c = Some x ∧ cn_drain x = true.

(** Drain channels stay closed. *)
Definition drain_kept (g g' : Gw) : Prop :=
  ∀ c x, g_conns g !! c = Some x → cn_drain x = true → ∃ x', g_conns g' !! c = Some x' ∧ cn_drain x' = true.

Lemma drain_kept_upd g g' c x x' :
  g_conns g !! c = Some x → g_conns g' = <[c := x']> (g_conns g) → (cn_drain x = true → cn_drain x' = true) → drain_kept g g'.
Proof.
  intros Hx Em Hd c' y Hy Hyd. rewrite Em. destruct (decide (c' = c)) as [->|Hne]; [rewrite lookup_insert_eq|rewrite lookup_insert_ne by done; eauto].
  assert (y = x) as -> by congruence. eauto.
Qed.

Lemma drain_kept_same g g' : g_conns g' = g_conns g → drain_kept g g'.
Proof. intros E c x Hx Hd. rewrite E. eauto. Qed.

Lemma task_step_kept ch g t g' t' :
  task_step ch g t = Some (g', t') →
  drain_kept g g' ∧ ∀ c, draining_writer c t' = true → draining_writer c t = true ∨ ∃ x, g_conns g !! c = Some x ∧ cn_drain x = true.
Proof.
  intros Hs. destruct t; simpl in Hs; unfold mbind, option_bind, finishDrain in Hs; step_cases Hs; injection Hs as <- <-;
    (split; [|intros c' Hc'; simpl in *; first [discriminate Hc'|by left|idtac]]);
    try (by apply drain_kept_same);
    try (match goal with E : g_conns g !! ?c = Some ?x |- drain_kept _ _ => by eapply (drain_kept_upd _ _ c x) end).
  - apply queueFrame_spec in E0 as [_ ->]. by eapply drain_kept_upd.
  - apply queueFrame_spec in E0 as [_ ->]. by eapply drain_kept_upd.
  - apply queueFrame_spec in E0 as ->. by eapply drain_kept_upd.
  - apply beginDrain_true in E0 as (_ & -> & _). by eapply drain_kept_upd.
  - apply beginDrain_false in E0 as ->. by eapply drain_kept_upd.
  - intros c x Hx Hd. simpl. destruct (kick_select_spec _ _ _ _ _ _ _ E0 c) as [[-> _]|(y & _ & _ & Ey & _ & Em & _)]; [eauto|].
    rewrite Em. assert (y = x) as -> by congruence. eexists. split; [done|]. by rewrite beginDrain_queue.
  - right. apply bool_decide_eq_true in Hc' as <-. eauto.
Qed.

Lemma drain_node n n' : node_step n n' → drain_inv n → drain_inv n'.
Proof.
  intros Hs HI. destruct Hs as [g ts i t ch g' t' Hi Ht|g ts t He|g ts c q Hn|g ts c x Hx|g ts u _ _|g ts c x Hx Hv|g ts down]; intros j u' c' Hj Hc'; simpl in *.
  - destruct (task_step_kept _ _ _ _ _ Ht) as [Hk Hw]. assert (∃ x, g_conns g !! c' = Some x ∧ cn_drain x = true) as (x & Hx & Hd); [|by eapply Hk].
    destruct (decide (i = j)) as [<-|Hij].
    + rewrite list_lookup_insert_eq in Hj by (by eapply lookup_lt_Some). injection Hj as <-. destruct (Hw c' Hc') as [H|H]; [by eapply HI|done].
    + rewrite list_lookup_insert_ne in Hj by done. by eapply HI.
  - apply lookup_app_Some in Hj as [Hj|[_ Hj]]; [by eapply HI|]. apply list_lookup_singleton_Some in Hj as [_ <-]. by destruct t.
  - destruct (HI j u' c' Hj Hc') as (x & Hx & Hd). exists x. simpl in *. split; [|done]. rewrite lookup_insert_ne; [done|congruence].
  - by eapply HI.
  - by eapply HI.
  - apply lookup_app_Some in Hj as [Hj|[_ Hj]]; [|by apply list_lookup_singleton_Some in Hj as [_ <-]].
    destruct (HI j u' c' Hj Hc') as (y & Hy & Hd). simpl in Hy. destruct (decide (c' = c)) as [->|Hne]; [|exists y; by rewrite lookup_insert_ne].
    exists (set_serving x). rewrite lookup_insert_eq. split; [done|]. simpl. congruence.
  - by eapply HI.
Qed.

Lemma drain_reachable L b n : node_reachable L b n → drain_inv n.
Proof. apply node_invariant; [|apply drain_node]. intros i t c. simpl. by rewrite lookup_nil. Qed.
