(* ===== verification/GatewayThms.v ===== *)
(** * The connections of a node: bytes, order, draining, closing

    Theorems about every reachable state of a node, for every interleaving of its goroutines. *)

From S2P Require Import Prelude Errcode Strconv Json UserMap SendQueue.

Local Open Scope Z_scope.

(** A goroutine outside every call: finished, or a writer waiting for work. *)
Definition at_rest (t : Task) : bool := match t with TRet [] | TWriter _ _ => true | _ => false end.

Lemma at_rest_sums ts : Forall (λ t, at_rest t = true) ts → sumT hand ts = 0 ∧ ∀ c, sumT (owed c) ts = 0.
Proof.
  induction 1 as [|t ts Ht _ [IH1 IH2]]; [done|]. simpl. rewrite IH1. split; [by destruct t|]. intros c. rewrite IH2. by destruct t.
Qed.

Lemma sumC_i64 (f h : Conn → Z) m : (∀ c x, m !! c = Some x → f x = i64 (h x)) → i64 (sumC f m) = i64 (sumC h m).
Proof.
  induction m as [|c x m Hn IH] using map_ind; [done|]. intros H. rewrite !sumC_fresh by done.
  rewrite (H c x) by apply lookup_insert_eq. rewrite (i64_l (h x) (sumC f m) _ eq_refl), <- (i64_r (h x) (sumC f m) _ eq_refl).
  rewrite IH; [by apply i64_r|]. intros c' y Hy. apply (H c' y). rewrite lookup_insert_ne; [done|congruence].
Qed.

(** C21: every byte charged to a node's send budget is given back exactly once. At every moment the budget's counter is the sum (at 64 bits)
    of what the connections have queued and what goroutines hold between charging and queueing or before giving
    back; an open connection's counter is the bytes of its queue plus the frame its writer has just taken, a closing one's
    is 0. When no call is under way the budget is exactly the bytes waiting in the queues of open connections. *)
Theorem budget_exact L bytesTotal g ts :
  node_reachable L bytesTotal (g, ts) →
  b_queued (g_budget g) = i64 (sumC cn_queued (g_conns g) + sumT hand ts) ∧
  (∀ c x, g_conns g !! c = Some x → cn_queued x = if cn_closing x then 0 else i64 (bytes_len (cn_send x) + sumT (owed c) ts)) ∧
  (Forall (λ t, at_rest t = true) ts →
   b_queued (g_budget g) = i64 (sumC (λ x, if cn_closing x then 0 else bytes_len (cn_send x)) (g_conns g))).
Proof.
  intros Hr. destruct (bytes_reachable _ _ _ Hr) as [Hb Hc _]. simpl in *. split_and!; [done|exact Hc|].
  intros Hrest. destruct (at_rest_sums _ Hrest) as [E1 E2]. rewrite Hb, E1, Z.add_0_r. apply sumC_i64. intros c x Hx.
  rewrite (Hc c x Hx), E2, Z.add_0_r. by destruct (cn_closing x).
Qed.

(** C22: frames keep their order and none is dropped silently. What was written to a connection's socket is a prefix of the frames
    accepted for it, it has at most one writer, and while that writer runs every accepted frame has been written, is in the
    writer's hands or waits in the queue, in the order of acceptance. *)
Theorem frames_in_order L bytesTotal g ts c x :
  node_reachable L bytesTotal (g, ts) → g_conns g !! c = Some x →
  (∃ rest, cn_log x = cn_written x ++ rest) ∧ sumT (writes c) ts ≤ 1 ∧
  (∀ i t, ts !! i = Some t → writes c t = 1 → cn_log x = cn_written x ++ taken t ++ cn_send x).
Proof.
  intros Hr Hx. destruct (li_conns _ (life_reachable _ _ _ Hr) c x Hx) as [Hw _ _ [Hp _ _ _] Ht]. simpl in *. split_and!; [done| |].
  - unfold serving in Hw. destruct (cn_serving x); lia.
  - intros i t Hi Hc. by apply (to_writes _ _ _ (Ht i t Hi)).
Qed.

(** A kicked or draining connection is flushed before it is closed. When the writer closes a connection because it was told to drain,
    every accepted frame has been written, and the last frame of the drain (the kick notice) is among them, unless the
    connection was being closed for another reason already. *)
Lemma drain_flushes L bytesTotal g ts i c ch g' k x :
  node_reachable L bytesTotal (g, ts) → ts !! i = Some (TWriter c true) → task_step ch g (TWriter c true) = Some (g', TClose c k) →
  g_conns g !! c = Some x →
  cn_written x = cn_log x ∧ (cn_closing x = false → ∀ f, cn_last x = Some f → f ∈ cn_written x).
Proof.
  intros Hr Hi Hs Hx. destruct (li_conns _ (life_reachable _ _ _ Hr) c x Hx) as [_ _ _ [_ _ _ Hd] Ht]. simpl in *.
  pose proof (to_writes _ _ _ (Ht i _ Hi) (one_eq c)) as Hl. rewrite Hx in Hs. simpl in Hs. destruct (cn_send x) as [|f rest]; [|done].
  simpl in Hl. rewrite app_nil_r in Hl. split; [done|]. intros Hcl f Hf.
  destruct (drain_reachable _ _ _ Hr i _ c Hi ltac:(simpl; by apply bool_decide_eq_true_2)) as (y & Hy & Hdr). simpl in Hy.
  assert (y = x) as -> by congruence. destruct (Hd Hdr) as [_ Hfl]. unfold flushed in Hfl. rewrite Hf in Hfl. rewrite <- Hl. destruct Hfl; congruence.
Qed.

(** No channel is closed twice, so closing never panics, however kicks, timers, slow consumers, readers and shutdown race: a connection is
    cleaned up by at most one goroutine and drained by at most one, and once the cleanup has finished the connection is closed. *)
Lemma no_double_close L bytesTotal g ts :
  node_reachable L bytesTotal (g, ts) →
  g_panic g = false ∧
  ∀ c x, g_conns g !! c = Some x →
    sumT (closes c) ts = (match cn_once x with Running => 1 | _ => 0 end) ∧
    sumT (drains c) ts = (if cn_draining x && negb (cn_drain x) then 1 else 0) ∧
    (cn_once x = Finished → cn_closed x = true ∧ cn_closing x = true ∧ cn_queued x = 0).
Proof.
  intros Hr. pose proof (life_reachable _ _ _ Hr) as HI. split; [apply (li_panic _ HI)|]. intros c x Hx.
  destruct (li_conns _ HI c x Hx) as [_ Hc Hd [_ _ Ho _] _]. simpl in *. split_and!; [done|done|]. intros E. rewrite E in Ho.
  pose proof (bi_conns _ (bytes_reachable _ _ _ Hr) c x Hx) as Hq. unfold conn_queued in Hq. destruct Ho as [Ho1 Ho2]. by rewrite Ho2 in Hq.
Qed.

(** ** A concrete node *)

Inductive Action := ATask (i : nat) (ch : Choice) | AEnter (t : Task) | ANew (c : Client) (q : nat) | AAdopt (c : nat) | AServe (c : nat).

Definition act (a : Action) (n : Node) : option Node :=
  let '(g, ts) := n in
  match a with
  | ATask i ch => t ← ts !! i; '(g', t') ← task_step ch g t; Some (g', <[i := t']> ts)
  | AEnter t => if entry t then Some (g, ts ++ [t]) else None
  | ANew c q => match g_conns g !! Cl_ptr c with None => Some (set_conn g (Cl_ptr c) (newClient c q), ts) | Some _ => None end
  | AAdopt c => x ← g_conns g !! c; Some (set_users g (adopt (g_users g) (cn_client x) (cn_closed x)).2, ts)
  | AServe c => x ← g_conns g !! c; if cn_serving x then None else Some (set_conn g c (set_serving x), ts ++ [TWriter c false])
  end.

Fixpoint acts (l : list Action) (n : Node) : option Node := match l with [] => Some n | a :: l => n' ← act a n; acts l n' end.

Lemma act_step a n n' : act a n = Some n' → node_step n n'.
Proof.
  destruct n as [g ts], a as [i ch|t|c q|c|c]; simpl; unfold mbind, option_bind.
  - destruct (ts !! i) as [t|] eqn:Ei; [|done]. destruct (task_step ch g t) as [[g' t']|] eqn:Et; [|done]. intros [= <-]. by econstructor.
  - destruct (entry t) eqn:E; [|done]. intros [= <-]. by constructor.
  - destruct (g_conns g !! Cl_ptr c) eqn:E; [done|]. intros [= <-]. by constructor.
  - destruct (g_conns g !! c) as [x|] eqn:E; [|done]. intros [= <-]. by eapply ns_adopt.
  - destruct (g_conns g !! c) as [x|] eqn:E; [|done]. destruct (cn_serving x) eqn:Es; [done|]. intros [= <-]. by apply ns_serve.
Qed.

Lemma acts_reachable L b l n n' : node_reachable L b n → acts l n = Some n' → node_reachable L b n'.
Proof.
  revert n. induction l as [|a l IH]; intros n Hr; simpl; [by intros [= <-]|]. unfold mbind, option_bind. destruct (act a n) as [n1|] eqn:E; [|done].
  apply IH. eapply rtc_r; [exact Hr|exact (act_step _ _ _ E)].
Qed.

(** A reply is queued and written, a push is queued behind it, and the user logs in elsewhere: the connection is kicked. *)
Definition demoChoice : Choice := mkChoice "0198c0de-0000-7000-8000-000000000000" 1 false.
Definition drainChoice : Choice := mkChoice "" 2 false.

Definition demoScript : list Action :=
  [ANew (demoClient 0) 4; AAdopt 0; AServe 0; AEnter (TSend 0 "reply" []); ATask 1 demoChoice; ATask 1 demoChoice;
   AEnter (TPush 0 "push" false []); ATask 2 demoChoice; ATask 2 demoChoice;
   AEnter (TKick "alice" 1 "other-token"); ATask 3 demoChoice; ATask 3 demoChoice; ATask 3 demoChoice; ATask 3 demoChoice;
   ATask 3 demoChoice; ATask 3 demoChoice; ATask 3 demoChoice;
   ATask 0 demoChoice; ATask 0 demoChoice; ATask 0 demoChoice; ATask 0 demoChoice; ATask 0 drainChoice].

Definition demoNode : Node := default (newGateway demoLimits 1000, []) (acts demoScript (newGateway demoLimits 1000, [])).

Lemma demo_node_reachable : node_reachable demoLimits 1000 (demoNode.1, demoNode.2).
Proof. eapply (acts_reachable _ _ demoScript); [apply rtc_refl|]. vm_compute. reflexivity. Qed.

Lemma demo_at_rest : Forall (λ t, at_rest t = true) demoNode.2.
Proof. vm_compute. repeat constructor. Qed.

(** The same node when the writer has emptied the queue. *)
Definition demoFlushed : Node := default demoNode (acts (replicate 8 (ATask 0 demoChoice)) (demoNode.1, demoNode.2)).

Lemma demo_flushed_reachable : node_reachable demoLimits 1000 (demoFlushed.1, demoFlushed.2).
Proof. eapply (acts_reachable _ _ (replicate 8 (ATask 0 demoChoice))); [exact demo_node_reachable|]. vm_compute. reflexivity. Qed.

Definition demoConn (n : Node) : Conn := default (newClient (demoClient 0) 0) (g_conns n.1 !! 0%nat).

Lemma budget_exact_witness :
  b_queued (g_budget demoNode.1) = 96 ∧
  b_queued (g_budget demoNode.1) = i64 (sumC (λ x, if cn_closing x then 0 else bytes_len (cn_send x)) (g_conns demoNode.1)).
Proof.
  split; [vm_compute; reflexivity|].
  exact (proj2 (proj2 (budget_exact demoLimits 1000 demoNode.1 demoNode.2 demo_node_reachable)) demo_at_rest).
Defined.

Lemma frames_in_order_witness :
  cn_written (demoConn demoNode) = ["reply"%string] ∧ cn_log (demoConn demoNode) = cn_written (demoConn demoNode) ++ [] ++ cn_send (demoConn demoNode).
Proof.
  split; [vm_compute; reflexivity|].
  exact (proj2 (proj2 (frames_in_order demoLimits 1000 demoNode.1 demoNode.2 0%nat (demoConn demoNode) demo_node_reachable
    ltac:(vm_compute; reflexivity))) 0%nat (TWriter 0 true) ltac:(vm_compute; reflexivity) ltac:(vm_compute; reflexivity)).
Defined.

Lemma drain_flushes_witness :
  length (cn_log (demoConn demoFlushed)) = 3%nat ∧ cn_written (demoConn demoFlushed) = cn_log (demoConn demoFlushed).
Proof.
  split; [vm_compute; reflexivity|].
  exact (proj1 (drain_flushes demoLimits 1000 demoFlushed.1 demoFlushed.2 0%nat 0%nat demoChoice demoFlushed.1 [] (demoConn demoFlushed)
    demo_flushed_reachable ltac:(vm_compute; reflexivity) ltac:(vm_compute; reflexivity) ltac:(vm_compute; reflexivity))).
Defined.

Lemma no_double_close_witness : g_panic demoFlushed.1 = false.
Proof. exact (proj1 (no_double_close demoLimits 1000 demoFlushed.1 demoFlushed.2 demo_flushed_reachable)). Defined.
