(* ===== verification/Lifecycle.v ===== *)
(** * The life of a connection and of the gateway ([internal/gateway])

    [gateway.go] (Handle, presence rows, renewals), [upgrade.go], [work.go], [shutdown.go], [subscribe.go] (Run, renewLoop, publishKick),
    [client.go] (newClient, Serve, Close). The goroutines of this file run beside those of [SendQueue], on the same connections: a call
    that closes, drains or kicks a connection is a task of [SendQueue] that this file starts. A task is a goroutine at a program
    point and a step is one atomic operation: a section under a mutex, an atomic flag, a call of the online store. Whether a deadline has passed when a
    context is looked at, which case of [select] is taken and the outcome of a call are choices of the step. The deadline of
    [Shutdown] is one event, since it is called once. *)

From S2P Require Import Prelude Errcode Strconv Json Store PgStore Conc RateLimit World OnlineStore UserMap SendQueue.

Local Open Scope Z_scope.

(** ** What the gateway asks of the online store ([onlinestore.OnlineStore])

    [regs] are the registrations, as pairs of node and connection id. A call that fails may have had its effect, or part of it. *)

Class OnlineOps (S : Type) := {
  regs : S → gset (string * string);
  ol_add : nat → Z → string → ConnRef → S → bool * S;
  ol_remove : nat → string → ConnRef → S → bool * S;
  ol_renew : nat → Z → string → list ConnRef → S → option (list ConnRef) * S;
  ol_purge : nat → string → S → bool * S }.

Class OnlineLaws (S : Type) `{OL : OnlineOps S} := {
  add_regs fault now node c s x : x ∈ regs (ol_add fault now node c s).2 → x ∈ regs s ∨ x = (node, CR_ConnId c);
  remove_regs fault node c s x : x ∈ regs (ol_remove fault node c s).2 → x ∈ regs s;
  remove_gone fault node c s : (ol_remove fault node c s).1 = true → (node, CR_ConnId c) ∉ regs (ol_remove fault node c s).2;
  renew_regs fault now node cs s x : x ∈ regs (ol_renew fault now node cs s).2 → x ∈ regs s ∨ ∃ c, c ∈ cs ∧ x = (node, CR_ConnId c);
  purge_regs fault node s x : x ∈ regs (ol_purge fault node s).2 → x ∈ regs s;
  purge_gone fault node s c : (ol_purge fault node s).1 = true → (node, c) ∉ regs (ol_purge fault node s).2 }.

(** ** The work group ([work.go]) *)

Record workGroup := mkWork { wk_count : Z; wk_sealed : bool; wk_shut : bool; wk_opsDone : bool }.

Definition newWorkGroup : workGroup := mkWork 0 false false false.

Definition wk_add (w : workGroup) (n : Z) : workGroup := mkWork (wk_count w + n) (wk_sealed w) (wk_shut w) (wk_opsDone w).

Definition begin (w : workGroup) : bool * workGroup := if wk_sealed w then (false, w) else (true, wk_add w 1).

Definition wk_done (w : workGroup) : workGroup := wk_add w (-1).

(** [op]: whether the call was registered; if not, its context is cancelled from the start. [expired] says that the context of
    [Shutdown] has ended. *)
Definition op (w : workGroup) (expired : bool) : bool * workGroup :=
  if wk_sealed w || wk_opsDone w || (wk_shut w && expired) then (false, w) else (true, wk_add w 1).

Definition wk_shutdown (w : workGroup) : workGroup := mkWork (wk_count w) (wk_sealed w) true (wk_opsDone w).
Definition cancelOps (w : workGroup) : workGroup := mkWork (wk_count w) (wk_sealed w) (wk_shut w) true.
Definition seal (w : workGroup) : workGroup := mkWork (wk_count w) true (wk_shut w) (wk_opsDone w).

(** ** Reservations and connections *)

Record upgradeReservation := mkRes { rs_slot : Slot; rs_settled : bool }.

(** What a client adds to the connection of [SendQueue]: [onlineAdded] and the [Once] of [remove]. [ex_gone] records that a call of [Remove] succeeded. *)
Record Extra := mkExtra { ex_added : bool; ex_remove : Once; ex_gone : bool }.

Record Life (S : Type) := mkLife {
  lf_gw : Gw; lf_calls : list Task; lf_work : workGroup; lf_res : gmap nat upgradeReservation; lf_ext : gmap nat Extra; lf_lock : bool;
  lf_cleanup : nat; lf_run : bool; lf_expired : bool; lf_store : S; lf_told : list (list string); lf_purged : bool }.
Arguments mkLife {S}. Arguments lf_gw {S}. Arguments lf_calls {S}. Arguments lf_work {S}. Arguments lf_res {S}. Arguments lf_ext {S}. Arguments lf_lock {S}.
Arguments lf_cleanup {S}. Arguments lf_run {S}. Arguments lf_expired {S}. Arguments lf_store {S}. Arguments lf_told {S}. Arguments lf_purged {S}.

(** Where [release] of a reservation returns to: the watcher, [watchUpgrade] itself, or a failed upgrade. *)
Inductive ResKont := KWatcher | KWatch (r : nat) (platformId : Z) | KFailed.

(** [unit : bool] tells whether the goroutine holds a unit of the work group for its call. *)
Inductive LTask :=
| LEnd
| LDone
(* Handle, after the handshake *)
| LReserve (s : Slot) (platformId : Z)
| LWatch (r : nat) (platformId : Z)
| LSettled (r : nat) (platformId : Z)
| LUpgrade (r : nat) (platformId : Z)
| LClaim (r : nat) (platformId : Z)
| LNew (r : nat) (s : Slot) (platformId : Z)
| LAdopt (r : nat) (c : Client)
| LKick (c : nat)
| LKickPublish (c : nat) (unit : bool)
| LKickEnd (c : nat) (unit : bool)
| LServe (c : nat)
| LServing (c : nat)
| LServed (c : nat)
(* watchUpgrade and release *)
| LWatcher (r : nat)
| LReturn (r : nat) (k : ResKont)
| LGiveBack (s : Slot) (k : ResKont)
(* Close: the call of SendQueue, then remove *)
| LClose (c : nat) (served : bool)
| LClosing (c : nat) (served : bool)
| LRemove (c : nat) (served : bool)
| LCleanup (c : nat) (served : bool)
| LRemoveOp (c : nat) (served : bool)
| LRemoveLock (c : nat)
| LRemoveCall (c : nat)
| LRemoveUnlock (c : nat) (ok : bool)
| LRemovePublish (c : nat)
| LRemoveFree
(* onlineAdd *)
| LAdd (c : nat)
| LAddLock (c : nat) (unit : bool)
| LAddCheck (c : nat) (unit : bool)
| LAddOnline (c : nat) (unit : bool)
| LAddCall (c : nat) (unit : bool)
| LAddUnlock (c : nat) (unit added : bool)
| LAddPublish (c : nat) (unit : bool)
| LAddTell (c : nat) (unit unit2 : bool)
| LAddEnd (c : nat) (unit unit2 : bool)
(* Run, renewLoop and renew *)
| LRun
| LRunPurge
| LLoop
| LRenewLock
| LRenewList
| LRenewRefs (clients todo : list Client) (refs : list ConnRef)
| LRenewCall (clients : list Client) (refs : list ConnRef)
| LRenewAdd (clients : list Client) (changed : list string)
| LRenewPut (c : Client) (rest : list Client) (changed : list string)
| LRenewUnlock (changed : list string)
| LRenewTell (changed : list string)
(* Shutdown *)
| LShutdown
| LShutWork
| LShutRun
| LShutUsers
| LDrain (clients todo : list Client)
| LPoll (clients : list Client)
| LPolled (clients : list Client)
| LHardClose (todo : list Client) (last : bool)
| LCancelOps
| LCancel
| LSeal
| LWait
| LPurge (waited : bool)
| LHard (clients : list Client)
| LHardCancel (clients : list Client).

(** [lc_late]: the deadline of the context has passed, or its cancellation arrived; [lc_go]: which case of a [select] or which outcome of a call outside
    the model; [lc_fault]: the outcome of a store call; [lc_ptr], [lc_id]: a new address and a new connection id. *)
Record LChoice := mkLChoice { lc_late : bool; lc_go : bool; lc_fault : nat; lc_now : Z; lc_ptr : nat; lc_id : string }.

(** ** Updates *)

Section Updates.
Context {S : Type}.
Implicit Types st : Life S.

Definition with_gw st (g : Gw) (calls : list Task) : Life S :=
  mkLife g calls (lf_work st) (lf_res st) (lf_ext st) (lf_lock st) (lf_cleanup st) (lf_run st) (lf_expired st) (lf_store st) (lf_told st) (lf_purged st).
Definition with_work st (w : workGroup) : Life S :=
  mkLife (lf_gw st) (lf_calls st) w (lf_res st) (lf_ext st) (lf_lock st) (lf_cleanup st) (lf_run st) (lf_expired st) (lf_store st) (lf_told st) (lf_purged st).
Definition with_res st (m : gmap nat upgradeReservation) : Life S :=
  mkLife (lf_gw st) (lf_calls st) (lf_work st) m (lf_ext st) (lf_lock st) (lf_cleanup st) (lf_run st) (lf_expired st) (lf_store st) (lf_told st) (lf_purged st).
Definition with_ext st (m : gmap nat Extra) : Life S :=
  mkLife (lf_gw st) (lf_calls st) (lf_work st) (lf_res st) m (lf_lock st) (lf_cleanup st) (lf_run st) (lf_expired st) (lf_store st) (lf_told st) (lf_purged st).
Definition with_lock st (b : bool) : Life S :=
  mkLife (lf_gw st) (lf_calls st) (lf_work st) (lf_res st) (lf_ext st) b (lf_cleanup st) (lf_run st) (lf_expired st) (lf_store st) (lf_told st) (lf_purged st).
Definition with_cleanup st (n : nat) : Life S :=
  mkLife (lf_gw st) (lf_calls st) (lf_work st) (lf_res st) (lf_ext st) (lf_lock st) n (lf_run st) (lf_expired st) (lf_store st) (lf_told st) (lf_purged st).
Definition with_run st : Life S :=
  mkLife (lf_gw st) (lf_calls st) (lf_work st) (lf_res st) (lf_ext st) (lf_lock st) (lf_cleanup st) true (lf_expired st) (lf_store st) (lf_told st) (lf_purged st).
Definition with_expired st : Life S :=
  mkLife (lf_gw st) (lf_calls st) (lf_work st) (lf_res st) (lf_ext st) (lf_lock st) (lf_cleanup st) (lf_run st) true (lf_store st) (lf_told st) (lf_purged st).
Definition with_store st (s : S) : Life S :=
  mkLife (lf_gw st) (lf_calls st) (lf_work st) (lf_res st) (lf_ext st) (lf_lock st) (lf_cleanup st) (lf_run st) (lf_expired st) s (lf_told st) (lf_purged st).
Definition with_told st (users : list string) : Life S :=
  mkLife (lf_gw st) (lf_calls st) (lf_work st) (lf_res st) (lf_ext st) (lf_lock st) (lf_cleanup st) (lf_run st) (lf_expired st) (lf_store st) (lf_told st ++ [users]) (lf_purged st).
Definition with_purged st (b : bool) : Life S :=
  mkLife (lf_gw st) (lf_calls st) (lf_work st) (lf_res st) (lf_ext st) (lf_lock st) (lf_cleanup st) (lf_run st) (lf_expired st) (lf_store st) (lf_told st) (lf_purged st || b).

Definition users st : UserMap := g_users (lf_gw st).
Definition with_users st (u : UserMap) : Life S := with_gw st (set_users (lf_gw st) u) (lf_calls st).
Definition with_call st (t : Task) : Life S := with_gw st (lf_gw st) (lf_calls st ++ [t]).
End Updates.

(** ** Steps *)

Definition ref (c : Client) : ConnRef := mkConnRef (Cl_UserId c) (Cl_PlatformId c) (Cl_Id c).

(** [activeCtx.Err() != nil]: the gateway's context, the connection's, or draining. *)
Definition activeDead (g : Gw) (x : Conn) : bool := g_down g || cn_cancelled x || cn_draining x.

Definition maxCleanup : nat := 64.

(** The connection id is not in use. *)
Definition freshId (m : gmap nat Conn) (id : string) : bool := forallb (λ kx, negb (Cl_Id (cn_client kx.2) =? id)%string) (map_to_list m).

Section Steps.
Context {S : Type} `{OL : OnlineOps S}.
Variables (node : string) (hasOnline hasBus : bool) (sendQueue : nat).
Implicit Types st : Life S.

Definition conn_of st (c : nat) : option Conn := g_conns (lf_gw st) !! c.
Definition set_extra st (c : nat) (e : Extra) : Life S := with_ext st (<[c := e]> (lf_ext st)).
Definition shut_gw st (down : bool) : Life S :=
  let g := lf_gw st in with_gw st (mkGw (g_budget g) (g_users g) (g_conns g) true (g_down g || down) (g_panic g)) (lf_calls st).

Definition after_remove (c : nat) (served : bool) : LTask := if served then LServed c else LEnd.
Definition res_return (k : ResKont) : LTask := match k with KWatcher => LDone | KWatch r pf => LSettled r pf | KFailed => LEnd end.
Definition tell st (ids : list string) : Life S := match ids with [] => st | _ => with_told st ids end.

(** The result of a step: the state, what the goroutine does next, and the goroutines it starts. *)
Definition outcome : Type := Life S * LTask * list LTask.

(** [Handle]. *)
Definition handle_step (ch : LChoice) st (t : LTask) : option outcome :=
  match t with
  | LReserve s pf =>
      match reserve (users st) s, lf_res st !! lc_ptr ch with
      | (Some _, _), _ => Some (st, LEnd, [])
      | (None, u), None => Some (with_res (with_users st u) (<[lc_ptr ch := mkRes s false]> (lf_res st)), LWatch (lc_ptr ch) pf, [])
      | (None, _), Some _ => None
      end
  | LSettled r pf => x ← lf_res st !! r; Some (st, if rs_settled x then LEnd else LUpgrade r pf, [])
  | LUpgrade r pf => Some (st, if lc_go ch then LClaim r pf else LReturn r KFailed, [])
  | LClaim r pf =>
      x ← lf_res st !! r;
      if rs_settled x then Some (st, LEnd, [])
      else Some (with_res st (<[r := mkRes (rs_slot x) true]> (lf_res st)), LNew r (rs_slot x) pf, [])
  | LNew r s pf =>
      let c := mkClient r (lc_id ch) (Slot_UserId s) pf (Slot_TokenId s) (Slot_Ip s) in
      match conn_of st r, freshId (g_conns (lf_gw st)) (lc_id ch) with
      | None, true =>
          Some (set_extra (with_gw st (set_conn (lf_gw st) r (newClient c sendQueue)) (lf_calls st)) r (mkExtra false Idle false), LAdopt r c, [])
      | _, _ => None
      end
  | LAdopt r c =>
      x ← conn_of st r;
      let '(e, u) := adopt (users st) (cn_client x) (cn_closed x) in
      Some (with_users st u, match e with None => LAdd r | Some _ => LClose r false end, [])
  | _ => None
  end.

(** [watchUpgrade] with its watcher, and [release]. *)
Definition upgrade_step (ch : LChoice) st (t : LTask) : option outcome :=
  match t with
  | LWatch r pf =>
      let '(ok, w) := begin (lf_work st) in
      if lf_run st || negb ok then Some (st, LReturn r (KWatch r pf), []) else Some (with_work st w, LSettled r pf, [LWatcher r])
  | LWatcher r =>
      x ← lf_res st !! r;
      if rs_settled x then Some (st, LDone, []) else if lc_go ch || lf_run st then Some (st, LReturn r KWatcher, []) else None
  | LReturn r k =>
      x ← lf_res st !! r;
      if rs_settled x then Some (st, res_return k, [])
      else Some (with_res st (<[r := mkRes (rs_slot x) true]> (lf_res st)), LGiveBack (rs_slot x) k, [])
  | LGiveBack s k => Some (with_users st (release (users st) s), res_return k, [])
  | _ => None
  end.

(** [Serve], whose return waits for the writer, and giving a unit of the work group back. *)
Definition serve_step (ch : LChoice) st (t : LTask) : option outcome :=
  match t with
  | LServe c =>
      x ← conn_of st c;
      let '(ok, w) := begin (lf_work st) in
      if negb ok then Some (st, LClose c false, [])
      else if cn_serving x then None
      else Some (with_gw (with_work st w) (set_conn (lf_gw st) c (set_serving x)) (lf_calls st ++ [TWriter c false]), LServing c, [])
  | LServing c => Some (st, if lc_go ch then LServing c else LClose c true, [])
  | LServed c => if forallb (λ t, writes c t =? 0) (lf_calls st) then Some (st, LDone, []) else None
  | LDone => Some (with_work st (wk_done (lf_work st)), LEnd, [])
  | _ => None
  end.

(** [publishKick]. *)
Definition kick_step (ch : LChoice) st (t : LTask) : option outcome :=
  match t with
  | LKick c =>
      x ← conn_of st c;
      let kick := TKick (Cl_UserId (cn_client x)) (Cl_PlatformId (cn_client x)) (Cl_TokenId (cn_client x)) in
      if activeDead (lf_gw st) x || g_closing (lf_gw st) then Some (st, LServe c, [])
      else if negb hasBus then Some (with_call st kick, LServe c, [])
      else let '(reg, w) := op (lf_work st) (lf_expired st) in Some (with_work st w, LKickPublish c reg, [])
  | LKickPublish c reg =>
      x ← conn_of st c;
      let kick := TKick (Cl_UserId (cn_client x)) (Cl_PlatformId (cn_client x)) (Cl_TokenId (cn_client x)) in
      if negb reg || activeDead (lf_gw st) x || lc_late ch || lc_go ch then Some (st, LKickEnd c reg, [])
      else Some (with_call st kick, LKickEnd c reg, [])
  | LKickEnd c reg => Some (if reg then with_work st (wk_done (lf_work st)) else st, LServe c, [])
  | _ => None
  end.

(** [onlineAdd] and [addOnline]. *)
Definition add_step (ch : LChoice) st (t : LTask) : option outcome :=
  match t with
  | LAdd c =>
      if hasOnline then let '(reg, w) := op (lf_work st) (lf_expired st) in Some (with_work st w, LAddLock c reg, []) else Some (st, LKick c, [])
  | LAddLock c reg =>
      x ← conn_of st c;
      if negb reg || activeDead (lf_gw st) x || lc_late ch then Some (st, LAddEnd c reg false, [])
      else if lf_lock st then None
      else Some (with_lock st true, LAddCheck c reg, [])
  | LAddCheck c reg => x ← conn_of st c; Some (st, if activeDead (lf_gw st) x then LAddUnlock c reg false else LAddOnline c reg, [])
  | LAddOnline c reg =>
      x ← conn_of st c; e ← lf_ext st !! c;
      Some (st, if ex_added e || activeDead (lf_gw st) x then LAddUnlock c reg false else LAddCall c reg, [])
  | LAddCall c reg =>
      x ← conn_of st c; e ← lf_ext st !! c;
      let '(ok, s) := ol_add (lc_fault ch) (lc_now ch) node (ref (cn_client x)) (lf_store st) in
      Some (with_store (if ok : bool then set_extra st c (mkExtra true (ex_remove e) (ex_gone e)) else st) s, LAddUnlock c reg ok, [])
  | LAddUnlock c reg added => Some (with_lock st false, if added then LAddPublish c reg else LAddEnd c reg false, [])
  | LAddPublish c reg => let '(reg2, w) := op (lf_work st) (lf_expired st) in Some (with_work st w, LAddTell c reg reg2, [])
  | LAddTell c reg reg2 => x ← conn_of st c; Some (tell st [Cl_UserId (cn_client x)], LAddEnd c reg reg2, [])
  | LAddEnd c reg true => Some (with_work st (wk_done (lf_work st)), LAddEnd c reg false, [])
  | LAddEnd c true false => Some (with_work st (wk_done (lf_work st)), LAddEnd c false false, [])
  | LAddEnd c false false => Some (st, LKick c, [])
  | _ => None
  end.

(** [Close] after its part in [SendQueue], and [onlineRemove]. *)
Definition remove_step (ch : LChoice) st (t : LTask) : option outcome :=
  match t with
  | LClose c served => Some (with_call st (TClose c []), LClosing c served, [])
  | LClosing c served => x ← conn_of st c; match cn_once x with Finished => Some (st, LRemove c served, []) | _ => None end
  | LRemove c served =>
      e ← lf_ext st !! c;
      match ex_remove e with
      | Idle =>
          if hasOnline then Some (set_extra st c (mkExtra (ex_added e) Running (ex_gone e)), LCleanup c served, [])
          else Some (set_extra st c (mkExtra (ex_added e) Finished (ex_gone e)), after_remove c served, [])
      | Running => None
      | Finished => Some (st, after_remove c served, [])
      end
  | LCleanup c served =>
      e ← lf_ext st !! c;
      if (lf_cleanup st <? maxCleanup)%nat then Some (with_cleanup st (lf_cleanup st + 1)%nat, LRemoveOp c served, [])
      else Some (set_extra st c (mkExtra (ex_added e) Finished (ex_gone e)), after_remove c served, [])
  | LRemoveOp c served =>
      e ← lf_ext st !! c;
      let st1 := set_extra st c (mkExtra (ex_added e) Finished (ex_gone e)) in
      let '(reg, w) := op (lf_work st) (lf_expired st) in
      if negb reg || lc_late ch then Some (with_cleanup st1 (lf_cleanup st - 1)%nat, after_remove c served, [])
      else Some (with_work st1 w, after_remove c served, [LRemoveLock c])
  | LRemoveLock c => if lc_late ch then Some (st, LRemoveFree, []) else if lf_lock st then None else Some (with_lock st true, LRemoveCall c, [])
  | LRemoveCall c =>
      x ← conn_of st c; e ← lf_ext st !! c;
      let '(ok, s) := ol_remove (lc_fault ch) node (ref (cn_client x)) (lf_store st) in
      Some (with_store (if ok : bool then set_extra st c (mkExtra false (ex_remove e) true) else st) s, LRemoveUnlock c ok, [])
  | LRemoveUnlock c ok => Some (with_lock st false, if ok then LRemovePublish c else LRemoveFree, [])
  | LRemovePublish c => x ← conn_of st c; Some (tell st [Cl_UserId (cn_client x)], LRemoveFree, [])
  | LRemoveFree => Some (with_cleanup st (lf_cleanup st - 1)%nat, LDone, [])
  | _ => None
  end.

(** [Run] and [renewLoop]. *)
Definition run_step (ch : LChoice) st (t : LTask) : option outcome :=
  match t with
  | LRun => let '(ok, w) := begin (lf_work st) in Some (with_work st w, if ok then (if hasOnline then LRunPurge else LDone) else LEnd, [])
  | LRunPurge => let '(_, s) := ol_purge (lc_fault ch) node (lf_store st) in Some (with_store st s, LLoop, [])
  | LLoop => Some (st, if lc_go ch then LDone else LRenewLock, [])
  | _ => None
  end.

(** [renew]. *)
Definition renew_step (ch : LChoice) st (t : LTask) : option outcome :=
  match t with
  | LRenewLock => if lc_late ch then Some (st, LLoop, []) else if lf_lock st then None else Some (with_lock st true, LRenewList, [])
  | LRenewList => Some (st, LRenewRefs (All (users st)) (All (users st)) [], [])
  | LRenewRefs clients [] refs => Some (st, LRenewCall clients refs, [])
  | LRenewRefs clients (c :: todo) refs =>
      x ← conn_of st (Cl_ptr c);
      Some (st, LRenewRefs clients todo (if activeDead (lf_gw st) x then refs else refs ++ [ref c]), [])
  | LRenewCall clients refs =>
      let '(r, s) := ol_renew (lc_fault ch) (lc_now ch) node refs (lf_store st) in
      Some (with_store st s, match r with None => LRenewUnlock [] | Some revived => LRenewAdd clients (map CR_UserId revived) end, [])
  | LRenewAdd [] changed => Some (st, LRenewUnlock changed, [])
  | LRenewAdd (c :: rest) changed =>
      x ← conn_of st (Cl_ptr c); e ← lf_ext st !! Cl_ptr c;
      Some (st, if ex_added e || activeDead (lf_gw st) x then LRenewAdd rest changed else LRenewPut c rest changed, [])
  | LRenewPut c rest changed =>
      e ← lf_ext st !! Cl_ptr c;
      let '(ok, s) := ol_add (lc_fault ch) (lc_now ch) node (ref c) (lf_store st) in
      Some (with_store (if ok : bool then set_extra st (Cl_ptr c) (mkExtra true (ex_remove e) (ex_gone e)) else st) s,
            LRenewAdd rest (if ok then changed ++ [Cl_UserId c] else changed), [])
  | LRenewUnlock changed => Some (with_lock st false, LRenewTell changed, [])
  | LRenewTell changed => Some (tell st changed, LLoop, [])
  | _ => None
  end.

(** [Shutdown], with its hard close at the deadline. *)
Definition shut_step (ch : LChoice) st (t : LTask) : option outcome :=
  match t with
  | LShutdown => Some (shut_gw st false, LShutWork, [])
  | LShutWork => Some (with_work st (wk_shutdown (lf_work st)), LShutRun, [])
  | LShutRun => Some (with_run st, LShutUsers, [])
  | LShutUsers => let '(clients, u) := Close (users st) in Some (with_users st u, LDrain clients clients, [LHard clients])
  | LDrain clients (c :: todo) => Some (with_call st (TFlush (Cl_ptr c) None []), LDrain clients todo, [])
  | LDrain clients [] => Some (st, LPoll clients, [])
  | LPoll clients => if (Count (users st) <=? 0) || lf_expired st then Some (st, LPolled clients, []) else None
  | LPolled clients => if lf_expired st then Some (with_work st (cancelOps (lf_work st)), LHardClose clients true, []) else Some (st, LCancelOps, [])
  | LHardClose (c :: todo) last => Some (with_call st (TClose (Cl_ptr c) []), LHardClose todo last, [])
  | LHardClose [] last => Some (st, if last then LCancelOps else LEnd, [])
  | LCancelOps => Some (with_work st (cancelOps (lf_work st)), LCancel, [])
  | LCancel => Some (shut_gw st true, LSeal, [])
  | LSeal => Some (with_work st (seal (lf_work st)), LWait, [])
  | LWait =>
      if lc_go ch then (if wk_count (lf_work st) =? 0 then Some (st, LPurge true, []) else None)
      else if lf_expired st then Some (st, LPurge false, []) else None
  | LHard clients => if lf_expired st then Some (with_work st (cancelOps (lf_work st)), LHardCancel clients, []) else None
  | LHardCancel clients => Some (shut_gw st true, LHardClose clients false, [])
  | _ => None
  end.

(** [purgeNode]. *)
Definition purge_step (ch : LChoice) st (t : LTask) : option outcome :=
  match t with
  | LPurge waited =>
      if negb hasOnline || lf_expired st then Some (st, LEnd, [])
      else let '(ok, s) := ol_purge (lc_fault ch) node (lf_store st) in Some (with_purged (with_store st s) (ok && waited), LEnd, [])
  | _ => None
  end.

Definition ltask_step (ch : LChoice) st (t : LTask) : option outcome :=
  match t with
  | LKick _ | LKickPublish _ _ | LKickEnd _ _ => kick_step ch st t
  | LAdd _ | LAddLock _ _ | LAddCheck _ _ | LAddOnline _ _ | LAddCall _ _ | LAddUnlock _ _ _ | LAddPublish _ _ | LAddTell _ _ _ | LAddEnd _ _ _ => add_step ch st t
  | LClose _ _ | LClosing _ _ | LRemove _ _ | LCleanup _ _ | LRemoveOp _ _ | LRemoveLock _ | LRemoveCall _ | LRemoveUnlock _ _ | LRemovePublish _
  | LRemoveFree => remove_step ch st t
  | LRun | LRunPurge | LLoop => run_step ch st t
  | LRenewLock | LRenewList | LRenewRefs _ _ _ | LRenewCall _ _ | LRenewAdd _ _ | LRenewPut _ _ _ | LRenewUnlock _
  | LRenewTell _ => renew_step ch st t
  | LShutdown | LShutWork | LShutRun | LShutUsers | LDrain _ _ | LPoll _ | LPolled _ | LHardClose _ _ | LCancelOps | LCancel | LSeal | LWait
  | LHard _ | LHardCancel _ => shut_step ch st t
  | LPurge _ => purge_step ch st t
  | LWatch _ _ | LWatcher _ | LReturn _ _ | LGiveBack _ _ => upgrade_step ch st t
  | LServe _ | LServing _ | LServed _ | LDone => serve_step ch st t
  | _ => handle_step ch st t
  end.

(** The goroutines other code starts: a request that passed the handshake, a call of [Close] by the writer, a timer or a limit, [Run], and [Shutdown] once. *)
Definition starts st (t : LTask) : bool :=
  match t with
  | LReserve s _ => negb (Slot_UserId s =? "")%string
  | LClosing _ false | LRun => true
  | LShutdown => negb (g_closing (lf_gw st))
  | _ => false
  end.

Definition LNode : Type := Life S * list LTask.

Inductive life_step : LNode → LNode → Prop :=
| lv_call st ts i t ch g t' :
    lf_calls st !! i = Some t → task_step ch (lf_gw st) t = Some (g, t') → life_step (st, ts) (with_gw st g (<[i := t']> (lf_calls st)), ts)
| lv_enter st ts t : entry t = true → life_step (st, ts) (with_call st t, ts)
| lv_task st ts i t ch st' t' new :
    ts !! i = Some t → ltask_step ch st t = Some (st', t', new) → life_step (st, ts) (st', <[i := t']> ts ++ new)
| lv_start st ts t : starts st t = true → life_step (st, ts) (st, ts ++ [t])
| lv_expire st ts : wk_shut (lf_work st) = true → life_step (st, ts) (with_expired st, ts)
| lv_store st ts s : (∀ c, (node, c) ∈ regs s → (node, c) ∈ regs (lf_store st)) → life_step (st, ts) (with_store st s, ts).

Definition newLife (L : LimitsConfig) (bytesTotal : Z) (s : S) : Life S :=
  mkLife (newGateway L bytesTotal) [] newWorkGroup ∅ ∅ false 0 false false s [] false.

Definition lnode_reachable (L : LimitsConfig) (bytesTotal : Z) (n : LNode) : Prop := ∃ s, rtc life_step (newLife L bytesTotal s, []) n.
End Steps.
