(* ===== verification/LifecycleInv.v ===== *)
(** * Invariants of the gateway's life

    What every interleaving of the goroutines of [Lifecycle] keeps: the count of the work group is the number of units the goroutines hold, the presence
    lock has at most one holder, and every run is one of [SendQueue] seen from the connections. *)

From S2P Require Import Prelude Errcode Strconv Json Store PgStore Conc RateLimit World OnlineStore UserMap SendQueue Lifecycle.

Local Open Scope Z_scope.

(** ** What a goroutine holds *)

Definition b2z (b : bool) : Z := if b then 1 else 0.

(** Units of the work group. *)
Definition units (t : LTask) : Z :=
  match t with
  | LKickPublish _ u | LKickEnd _ u | LAddLock _ u | LAddCheck _ u | LAddOnline _ u | LAddCall _ u | LAddUnlock _ u _ | LAddPublish _ u => b2z u
  | LAddTell _ u u2 | LAddEnd _ u u2 => b2z u + b2z u2
  | LClose _ served | LClosing _ served | LRemove _ served | LCleanup _ served | LRemoveOp _ served => b2z served
  | LReturn _ KWatcher | LGiveBack _ KWatcher => 1
  | LDone | LServing _ | LServed _ | LWatcher _ => 1
  | LRemoveLock _ | LRemoveCall _ | LRemoveUnlock _ _ | LRemovePublish _ | LRemoveFree => 1
  | LRunPurge | LLoop | LRenewLock | LRenewList | LRenewRefs _ _ _ | LRenewCall _ _ | LRenewAdd _ _ | LRenewPut _ _ _ | LRenewUnlock _ | LRenewTell _ => 1
  | _ => 0
  end.

(** The presence lock. *)
Definition holds (t : LTask) : Z :=
  match t with
  | LAddCheck _ _ | LAddOnline _ _ | LAddCall _ _ | LAddUnlock _ _ _ | LRemoveCall _ | LRemoveUnlock _ _ => 1
  | LRenewList | LRenewRefs _ _ _ | LRenewCall _ _ | LRenewAdd _ _ | LRenewPut _ _ _ | LRenewUnlock _ => 1
  | _ => 0
  end.

Lemma b2z_nonneg b : 0 ≤ b2z b.
Proof. by destruct b. Qed.

Lemma units_nonneg t : 0 ≤ units t.
Proof. destruct t; simpl; try done; try apply b2z_nonneg; try (destruct unit, unit2; done); by destruct k. Qed.

Lemma holds_nonneg t : 0 ≤ holds t.
Proof. by destruct t. Qed.

#[export] Hint Resolve b2z_nonneg units_nonneg holds_nonneg : nexo.

(** Starting work changes only the count, and a sealed group starts none. *)
Definition started (w w' : workGroup) (b : bool) : Prop :=
  wk_count w' = wk_count w + b2z b ∧ wk_sealed w' = wk_sealed w ∧ wk_shut w' = wk_shut w ∧ (wk_sealed w = true → b = false).

Lemma begin_started w b w' : begin w = (b, w') → started w w' b.
Proof. unfold begin, started. destruct (wk_sealed w) eqn:E; intros [= <- <-]; simpl; split_and!; try done; lia. Qed.

Lemma op_started w e b w' : op w e = (b, w') → started w w' b.
Proof. unfold op, started. destruct (wk_sealed w) eqn:E; simpl; [|destruct (_ || _)]; intros [= <- <-]; simpl; split_and!; try done; lia. Qed.

(** Splits a step into the branches of the code. *)
Ltac life_cases H :=
  unfold ltask_step, handle_step, upgrade_step, serve_step, kick_step, add_step, remove_step, run_step, renew_step, shut_step, purge_step, mbind, option_bind, after_remove, res_return, tell in H;
  simpl in H; step_cases H; first [discriminate H|injection H as <- <- <-].

(** Replaces the work group after [begin] or [op] by what is known of it. *)
Ltac work :=
  repeat match goal with
    | E : begin _ = (_, _) |- _ => apply begin_started in E as (? & ? & ? & ?)
    | E : op _ _ = (_, _) |- _ => apply op_started in E as (? & ? & ? & ?)
    | |- context [b2z ?b] => is_var b; destruct b; simpl in *; try discriminate
    | H : _ || _ = false |- _ => apply orb_false_iff in H as [? ?]
    | H : negb ?b = _ |- _ => is_var b; destruct b; simpl in *; try discriminate
    | |- context [if ?b then _ else _] => destruct b eqn:?; simpl in *; try discriminate
    end.

(** Program points of other goroutines are not changed by a step. *)
Lemma lookup_step (ts : list LTask) i t t' new j u :
  ts !! i = Some t → (<[i := t']> ts ++ new) !! j = Some u → u = t' ∨ u ∈ new ∨ ts !! j = Some u.
Proof.
  intros Hi Hj. apply lookup_app_Some in Hj as [Hj|[_ Hj]]; [|right; left; by eapply list_elem_of_lookup_2].
  destruct (decide (j = i)) as [->|Hne]; [|right; right; by rewrite list_lookup_insert_ne in Hj].
  left. rewrite list_lookup_insert_eq in Hj by (by eapply lookup_lt_Some). by injection Hj.
Qed.

(** ** Connections only move forward *)

(** Closing starts with cancelling the context. *)
Definition once_ok (x : Conn) : Prop := cn_once x ≠ Idle → cn_cancelled x = true.

Definition conn_le (x x' : Conn) : Prop := cn_client x' = cn_client x ∧ (cn_cancelled x = true → cn_cancelled x' = true) ∧ (once_ok x → once_ok x').

#[export] Instance conn_le_preorder : PreOrder conn_le.
Proof. split; [by intros x|]. intros x y z (E1 & H1 & G1) (E2 & H2 & G2). split_and!; [congruence|auto|auto]. Qed.

Definition conns_le (m m' : gmap nat Conn) : Prop :=
  ∀ c, match m !! c with Some x => ∃ x', m' !! c = Some x' ∧ conn_le x x' | None => m' !! c = None end.

Lemma conns_le_refl m : conns_le m m.
Proof. intros c. destruct (m !! c) as [x|]; [by exists x|done]. Qed.

Lemma conns_le_insert m c x x' : m !! c = Some x → conn_le x x' → conns_le m (<[c := x']> m).
Proof.
  intros Hx Hle c'. destruct (decide (c' = c)) as [->|Hne]; [rewrite Hx, lookup_insert_eq; eauto|].
  rewrite lookup_insert_ne by done. destruct (m !! c') as [y|]; [by exists y|done].
Qed.

Lemma queueFrame_le x f n r x' : queueFrame x f n = (r, x') → conn_le x x'.
Proof. intros H%queueFrame_spec. destruct r; [destruct H as [_ ->]|destruct H as [_ ->]|subst x']; by split_and!. Qed.

Lemma beginDrain_le down x : conn_le x (beginDrain down x).2.
Proof. rewrite beginDrain_queue. by split_and!. Qed.

(** A call on a connection moves it forward; of the registry it touches only the closing client's entry. *)
Lemma task_step_le ch g t g' t' :
  task_step ch g t = Some (g', t') →
  conns_le (g_conns g) (g_conns g') ∧
  (g_users g' = g_users g ∨ ∃ c x, g_conns g !! c = Some x ∧ g_users g' = Unregister (g_users g) (cn_client x)).
Proof.
  intros Hs. destruct t; simpl in Hs; unfold mbind, option_bind, finishDrain in Hs; step_cases Hs; injection Hs as <- <-;
    (split; [|first [by left|right; simpl; by eauto]]); simpl; try apply conns_le_refl;
    try (by eapply conns_le_insert; [done|split_and!]);
    try (eapply conns_le_insert; [done|by eapply queueFrame_le]);
    try (match goal with E : beginDrain ?d ?x = (_, _) |- _ => pose proof (beginDrain_le d x) as Hle; rewrite E in Hle; by eapply conns_le_insert end).
  intros c. destruct (kick_select_spec _ _ _ _ _ _ _ E0 c) as [[-> _]|(x & _ & _ & -> & _ & -> & _)].
  - destruct (g_conns g !! c) as [x|]; [by exists x|done].
  - eexists. split; [done|apply beginDrain_le].
Qed.

Section LifeInv.
Context {S : Type} `{OL : OnlineOps S}.
Variables (node : string) (hasOnline hasBus : bool) (sendQueue : nat).
Implicit Types st : Life S.

Notation lstep := (ltask_step node hasOnline hasBus sendQueue).
Notation step := (life_step node hasOnline hasBus sendQueue).

(** ** Units and the lock, per step *)

Lemma ltask_units ch st t st' t' new :
  lstep ch st t = Some (st', t', new) → wk_count (lf_work st') - wk_count (lf_work st) = units t' + sumT units new - units t.
Proof.
  intros H. destruct t; life_cases H; simpl; try lia; work; simpl in *; lia.
Qed.

(** The lock is taken when it is free, and given back by its holder. *)
Lemma ltask_holds ch st t st' t' new :
  lstep ch st t = Some (st', t', new) → (holds t = 1 → lf_lock st = true) →
  b2z (lf_lock st') - b2z (lf_lock st) = holds t' + sumT holds new - holds t.
Proof. intros H Hl. destruct t; life_cases H; simpl in *; try rewrite (Hl eq_refl); simpl; try lia; work; simpl in *; lia. Qed.

(** Nothing starts once the group is sealed, and it stays sealed. *)
Lemma ltask_sealed ch st t st' t' new :
  lstep ch st t = Some (st', t', new) → wk_sealed (lf_work st) = true →
  wk_sealed (lf_work st') = true ∧ wk_count (lf_work st') ≤ wk_count (lf_work st).
Proof.
  intros H Hs. destruct t; life_cases H; simpl; try (split; [done|lia]); work; simpl in *;
    repeat match goal with H : wk_sealed _ = true → _ |- _ => specialize (H Hs) end; simplify_eq; (split; [congruence|simpl in *; lia]).
Qed.

(** ** The connections *)

(** Seen from the queues and registries a goroutine of this file makes steps the node of [SendQueue] allows. *)
Lemma reserve_byUser m s e m' : reserve m s = (e, m') → um_limits m' = um_limits m ∧ um_byUser m' = um_byUser m.
Proof. unfold reserve. by repeat case_match; intros [= _ <-]. Qed.

Lemma ltask_node ch st t st' t' new :
  lstep ch st t = Some (st', t', new) → rtc node_step (lf_gw st, lf_calls st) (lf_gw st', lf_calls st').
Proof.
  intros H. destruct t; life_cases H; simpl; unfold with_call, with_users, tell; simpl; try reflexivity; apply rtc_once;
    try (by apply ns_enter); try (apply ns_shutdown); try (by apply ns_users); try (by apply ns_serve).
  - apply reserve_byUser in E as [? ?]. by apply ns_users.
  - by apply ns_new.
  - pose proof (ns_adopt (lf_gw st) (lf_calls st) r c0 E) as Hs. unfold users in E0. by rewrite E0 in Hs.
  - pose proof (ns_adopt (lf_gw st) (lf_calls st) r c0 E) as Hs. unfold users in E0. by rewrite E0 in Hs.
Qed.

(** Connections are created by the upgrade callback alone. *)
Lemma ltask_conns ch st t st' t' new :
  lstep ch st t = Some (st', t', new) →
  conns_le (g_conns (lf_gw st)) (g_conns (lf_gw st')) ∨
  ∃ c, conn_of st (Cl_ptr c) = None ∧ freshId (g_conns (lf_gw st)) (Cl_Id c) = true ∧
       g_conns (lf_gw st') = <[Cl_ptr c := newClient c sendQueue]> (g_conns (lf_gw st)) ∧ t' = LAdopt (Cl_ptr c) c ∧ new = [] ∧
       lf_ext st' = <[Cl_ptr c := mkExtra false Idle false]> (lf_ext st) ∧ users st' = users st ∧ lf_store st' = lf_store st.
Proof.
  intros H. destruct t; life_cases H; simpl; try (left; apply conns_le_refl).
  - right. by exists (mkClient r (lc_id ch) (Slot_UserId s) platformId (Slot_TokenId s) (Slot_Ip s)).
  - left. eapply conns_le_insert; [done|by split_and!].
Qed.

Lemma life_node_step n n' : step n n' → rtc node_step (lf_gw n.1, lf_calls n.1) (lf_gw n'.1, lf_calls n'.1).
Proof.
  intros Hs. destruct Hs as [st ts i t ch g t' Hi Ht|st ts t He|st ts i t ch st' t' new Hi Ht|st ts t Ht|st ts Hw|st ts s Hr]; simpl; try reflexivity.
  - by eapply rtc_once, ns_task.
  - by apply rtc_once, ns_enter.
  - by eapply ltask_node.
Qed.

Lemma life_nodes n n' : rtc step n n' → rtc node_step (lf_gw n.1, lf_calls n.1) (lf_gw n'.1, lf_calls n'.1).
Proof. induction 1 as [|n n1 n2 H _ IH]; [done|]. etransitivity; [by apply life_node_step|done]. Qed.

Lemma lnode_node L b n : lnode_reachable node hasOnline hasBus sendQueue L b n → node_reachable L b (lf_gw n.1, lf_calls n.1).
Proof. intros [s Hs]. by apply life_nodes in Hs. Qed.
End LifeInv.
