(* ===== verification/PresenceRows.v ===== *)
(** * The presence rows of a node

    Registrations in the online store are written under the node's presence lock, by connections that are alive when the lock is held, and a connection is
    removed only after its context was cancelled. So a registration that was removed never comes back, and a shutdown that waited for the
    gateway's work leaves none behind. *)

From S2P Require Import Prelude Errcode Strconv Json Store PgStore Conc RateLimit World OnlineStore UserMap SendQueue Lifecycle LifecycleInv.

Local Open Scope Z_scope.

Section Rows.
Context {S : Type} `{OL : OnlineOps S} `{!OnlineLaws S}.
Variables (node : string) (hasOnline hasBus : bool) (sendQueue : nat).
Implicit Types st : Life S.

Notation lstep := (ltask_step node hasOnline hasBus sendQueue).
Notation step := (life_step node hasOnline hasBus sendQueue).

(** ** What holds at the program points *)

Definition known st (c : Client) : Prop := ∃ x, conn_of st (Cl_ptr c) = Some x ∧ cn_client x = c.

(** A call of [Remove] for the connection succeeded. *)
Definition gone st (c : nat) : bool := match lf_ext st !! c with Some e => ex_gone e | None => false end.

Definition cancelled st (c : nat) : Prop := ∃ x, conn_of st c = Some x ∧ cn_cancelled x = true.

Definition ref_ok st (r : ConnRef) : Prop := ∃ c, r = ref c ∧ known st c ∧ gone st (Cl_ptr c) = false.

Definition point_ok st (t : LTask) : Prop :=
  match t with
  | LAddCheck _ u | LAddOnline _ u => u = true
  | LAddCall c u => u = true ∧ gone st c = false
  | LRemove c _ | LCleanup c _ | LRemoveOp c _ | LRemoveLock c | LRemoveCall c => cancelled st c
  | LRenewRefs clients todo refs => Forall (known st) clients ∧ Forall (known st) todo ∧ Forall (ref_ok st) refs
  | LRenewCall clients refs => Forall (known st) clients ∧ Forall (ref_ok st) refs
  | LRenewAdd clients _ => Forall (known st) clients
  | LRenewPut c rest _ => known st c ∧ gone st (Cl_ptr c) = false ∧ Forall (known st) rest
  | _ => True
  end.

Record rows_inv (n : LNode) : Prop := {
  ri_lock : sumT holds n.2 = b2z (lf_lock n.1);
  ri_conn c x : conn_of n.1 c = Some x → Cl_ptr (cn_client x) = c ∧ once_ok x;
  ri_ids c c' x x' : conn_of n.1 c = Some x → conn_of n.1 c' = Some x' → Cl_Id (cn_client x) = Cl_Id (cn_client x') → c = c';
  ri_users u c : c ∈ conns (users n.1) u → known n.1 c;
  ri_gone c x : conn_of n.1 c = Some x → gone n.1 c = true → (node, Cl_Id (cn_client x)) ∉ regs (lf_store n.1) ∧ cn_cancelled x = true;
  ri_ext c : conn_of n.1 c = None → gone n.1 c = false;
  ri_points : Forall (point_ok n.1) n.2 }.

(** ** Stability *)

(** From [st] to [st'] every connection is kept and moves forward. *)
Definition forward st st' : Prop := ∀ c x, conn_of st c = Some x → ∃ x', conn_of st' c = Some x' ∧ conn_le x x'.

Lemma forward_le st st' : conns_le (g_conns (lf_gw st)) (g_conns (lf_gw st')) → forward st st'.
Proof. intros H c x Hx. specialize (H c). unfold conn_of in *. by rewrite Hx in H. Qed.

Lemma known_forward st st' c : forward st st' → known st c → known st' c.
Proof. intros Hf (x & Hx & E). destruct (Hf _ _ Hx) as (x' & Hx' & Hle & _). exists x'. split; [done|congruence]. Qed.

Lemma cancelled_forward st st' c : forward st st' → cancelled st c → cancelled st' c.
Proof. intros Hf (x & Hx & E). destruct (Hf _ _ Hx) as (x' & Hx' & _ & Hc & _). exists x'. auto. Qed.

Lemma ref_forward st st' r : forward st st' → (∀ c, gone st' c = gone st c) → ref_ok st r → ref_ok st' r.
Proof. intros Hf Hg (c & -> & Hk & Hn). exists c. split_and!; [done|by eapply known_forward|by rewrite Hg]. Qed.

(** Who may write registrations holds the lock, under which none is removed. *)
Lemma point_forward st st' t : forward st st' → (holds t = 1 → ∀ c, gone st' c = gone st c) → point_ok st t → point_ok st' t.
Proof.
  intros Hf Hg. destruct t; simpl in *; try done; try (by apply cancelled_forward); try specialize (Hg eq_refl).
  - by rewrite Hg.
  - intros (H1 & H2 & H3). split_and!; eapply Forall_impl; eauto using known_forward, ref_forward.
  - intros (H1 & H2). split; eapply Forall_impl; eauto using known_forward, ref_forward.
  - intros H. eapply Forall_impl; eauto using known_forward.
  - intros (H1 & H2 & H3). split_and!; [by eapply known_forward|by rewrite Hg|eapply Forall_impl; eauto using known_forward].
Qed.

Lemma freshId_spec m id c x : freshId m id = true → m !! c = Some x → Cl_Id (cn_client x) ≠ id.
Proof.
  unfold freshId. intros H Hx E. apply forallb_forall with (x := (c, x)) in H; [|by apply list_elem_of_In, elem_of_map_to_list].
  simpl in H. rewrite E, String.eqb_refl in H. done.
Qed.

(** A live connection has not been removed. *)
Lemma alive_not_gone n c x : rows_inv n → conn_of n.1 c = Some x → activeDead (lf_gw n.1) x = false → gone n.1 c = false.
Proof.
  intros HI Hx Ha. destruct (gone n.1 c) eqn:E; [|done]. destruct (ri_gone _ HI c x Hx E) as [_ Hc].
  unfold activeDead in Ha. rewrite Hc, orb_true_r in Ha. done.
Qed.

Lemma All_conns m c : c ∈ All m → ∃ u, c ∈ conns m u.
Proof.
  unfold All. rewrite list_elem_of_In, in_concat. intros (l & Hl & Hc). apply list_elem_of_In in Hl.
  apply list_elem_of_fmap in Hl as ([u l'] & -> & Hl). apply elem_of_map_to_list in Hl. exists u. unfold conns. rewrite Hl. by apply list_elem_of_In.
Qed.

(** ** Steps *)

(** The laws of the store, for the result of a call. *)
Lemma add_result f now nd c s ok s' x : ol_add f now nd c s = (ok, s') → x ∈ regs s' → x ∈ regs s ∨ x = (nd, CR_ConnId c).
Proof. intros E. pose proof (add_regs f now nd c s x) as H. by rewrite E in H. Qed.

Lemma renew_result f now nd cs s r s' x : ol_renew f now nd cs s = (r, s') → x ∈ regs s' → x ∈ regs s ∨ ∃ c, c ∈ cs ∧ x = (nd, CR_ConnId c).
Proof. intros E. pose proof (renew_regs f now nd cs s x) as H. by rewrite E in H. Qed.

Lemma remove_result f nd c s ok s' x :
  ol_remove f nd c s = (ok, s') → x ∈ regs s' → x ∈ regs s ∧ (ok = true → x ≠ (nd, CR_ConnId c)).
Proof.
  intros E Hx. pose proof (remove_regs f nd c s x) as H. pose proof (remove_gone f nd c s) as G. rewrite E in H, G. simpl in *. split; [auto|].
  intros -> ->. by apply G.
Qed.

Lemma purge_result f nd s ok s' x : ol_purge f nd s = (ok, s') → x ∈ regs s' → x ∈ regs s ∧ (ok = true → x.1 ≠ nd).
Proof.
  intros E Hx. pose proof (purge_regs f nd s x) as H. pose proof (purge_gone f nd s x.2) as G. rewrite E in H, G. simpl in *. split; [auto|].
  intros -> <-. destruct x. by apply G.
Qed.

Lemma gone_insert (m : gmap nat Extra) c e e' c' :
  m !! c = Some e → ex_gone e' = ex_gone e →
  match <[c := e']> m !! c' with Some e => ex_gone e | None => false end = match m !! c' with Some e => ex_gone e | None => false end.
Proof. intros He E. destruct (decide (c' = c)) as [->|Hne]; [by rewrite lookup_insert_eq, He|by rewrite lookup_insert_ne]. Qed.

Lemma ltask_gone ch st t st' t' new :
  lstep ch st t = Some (st', t', new) → (∀ c, conn_of st c = None → gone st c = false) →
  (∀ c, gone st' c = gone st c) ∨
  ∃ c e, t = LRemoveCall c ∧ lf_ext st !! c = Some e ∧ lf_ext st' = <[c := mkExtra false (ex_remove e) true]> (lf_ext st).
Proof.
  intros H Hn. destruct t; life_cases H; unfold gone; simpl; try (by left); try (left; intros c'; by eapply gone_insert); [|right; by eauto].
  left. intros c'. destruct (decide (c' = r)) as [->|Hne]; [rewrite lookup_insert_eq; symmetry; by apply Hn|by rewrite lookup_insert_ne].
Qed.

(** Who gets registered is a connection that was not removed. *)
Lemma ltask_regs ch st t st' t' new i :
  lstep ch st t = Some (st', t', new) → point_ok st t → (∀ c x, conn_of st c = Some x → Cl_ptr (cn_client x) = c) →
  (node, i) ∈ regs (lf_store st') →
  (node, i) ∈ regs (lf_store st) ∨ ∃ c, known st c ∧ gone st (Cl_ptr c) = false ∧ i = Cl_Id c ∧ units t = 1.
Proof.
  intros H Hp Hptr. destruct t; life_cases H; simpl in *; try (by left).
  all: intros Hi; match goal with
    | E : ol_remove _ _ _ _ = _ |- _ => left; apply (remove_result _ _ _ _ _ _ _ E Hi)
    | E : ol_purge _ _ _ = _ |- _ => left; apply (purge_result _ _ _ _ _ _ E Hi)
    | E : ol_add _ _ _ _ _ = _ |- _ => destruct (add_result _ _ _ _ _ _ _ _ E Hi) as [?|[= ->]]; [by left|right]
    | E : ol_renew _ _ _ _ _ = _ |- _ => destruct (renew_result _ _ _ _ _ _ _ _ E Hi) as [?|(r & Hr & [= ->])]; [by left|right]
    end.
  - destruct Hp as [-> Hg]. exists (cn_client c0). split_and!; try done; [exists c0; by rewrite (Hptr _ _ E)|by rewrite (Hptr _ _ E)].
  - destruct Hp as [-> Hg]. exists (cn_client c0). split_and!; try done; [exists c0; by rewrite (Hptr _ _ E)|by rewrite (Hptr _ _ E)].
  - destruct Hp as [_ Hp]. rewrite Forall_forall in Hp. destruct (Hp _ Hr) as (c & -> & Hk & Hg). by exists c.
  - destruct Hp as [_ Hp]. rewrite Forall_forall in Hp. destruct (Hp _ Hr) as (c & -> & Hk & Hg). by exists c.
  - destruct Hp as (Hk & Hg & _). by exists c.
  - destruct Hp as (Hk & Hg & _). by exists c.
Qed.

(** The program points a step leads to. *)
Lemma ltask_points ch st t st' t' new ts i :
  rows_inv (st, ts) → ts !! i = Some t → lstep ch st t = Some (st', t', new) → Forall (point_ok st') (t' :: new).
Proof.
  intros HI Hi H. pose proof (proj1 (Forall_lookup _ _) (ri_points _ HI) i t Hi) as Hp. simpl in Hp.
  destruct t; life_cases H; simpl in *; repeat (apply Forall_cons; split); try apply Forall_nil; simpl; try done.
  - exists c0. split; [done|]. apply (ri_conn _ HI c c0 E). by rewrite E0.
  - apply orb_false_iff in E0 as [[E0 _]%orb_false_iff _]. by apply negb_false_iff.
  - split; [done|]. apply orb_false_iff in E1 as [_ E1]. by eapply (alive_not_gone (st, ts)).
  - assert (Forall (known st) (All (users st))); [|done]. apply Forall_forall. intros c Hc. destruct (All_conns _ _ Hc) as [u Hu]. by eapply (ri_users _ HI).
  - by destruct Hp as (? & ? & ?).
  - destruct Hp as (? & [? ?]%Forall_cons & ?). done.
  - destruct Hp as (? & [Hk ?]%Forall_cons & Hr). split_and!; [done|done|]. apply Forall_app. split; [done|]. apply Forall_singleton.
    exists c. split_and!; [done|done|]. by eapply (alive_not_gone (st, ts)).
  - apply Hp.
  - by apply Forall_cons in Hp as [_ ?].
  - apply Forall_cons in Hp as [? ?]. split_and!; [done| |done]. apply orb_false_iff in E2 as [_ E2]. by eapply (alive_not_gone (st, ts)).
  - apply Hp.
  - apply Hp.
Qed.

Lemma adopt_conns m cl closed e m' u c : adopt m cl closed = (e, m') → c ∈ conns m' u → c ∈ conns m u ∨ c = cl.
Proof.
  unfold adopt. destruct (if closed then _ else _); intros [= _ <-]; [by left|]. rewrite conns_insert. destruct (String.eqb_spec (Cl_UserId cl) u) as [->|]; [|by left].
  intros [?|Hc]%elem_of_app; [by left|right]. by apply list_elem_of_singleton in Hc.
Qed.

Lemma Unregister_conns m cl u c : c ∈ conns (Unregister m cl) u → c ∈ conns m u.
Proof.
  rewrite Unregister_eq. pose proof (remove_first_spec cl (conns m (Cl_UserId cl))) as Hs. destruct (remove_first cl _) as [r|]; [|done].
  set (m1 := set_byUser _ _). change (conns (release m1 (slot cl)) u) with (conns m1 u). unfold m1. rewrite conns_remove.
  destruct (String.eqb_spec (Cl_UserId cl) u) as [<-|]; [|done]. destruct Hs as (l1 & l2 & -> & -> & _). set_solver.
Qed.

(** Clients enter the registry when they are adopted. *)
Lemma ltask_users ch st t st' t' new u c :
  lstep ch st t = Some (st', t', new) → c ∈ conns (users st') u → c ∈ conns (users st) u ∨ ∃ r x, conn_of st r = Some x ∧ cn_client x = c.
Proof.
  intros H. destruct t; life_cases H; unfold users; simpl; try (by left).
  - apply reserve_byUser in E as [_ E]. unfold conns, users in *. rewrite E. by left.
  - intros Hc. destruct (adopt_conns _ _ _ _ _ _ _ E0 Hc) as [?| ->]; [by left|right; eauto].
  - intros Hc. destruct (adopt_conns _ _ _ _ _ _ _ E0 Hc) as [?| ->]; [by left|right; eauto].
Qed.

(** The facts about connections after a step. *)
Lemma rows_conns st ts st' :
  rows_inv (st, ts) → conns_le (g_conns (lf_gw st)) (g_conns (lf_gw st')) →
  (∀ c x, conn_of st' c = Some x → Cl_ptr (cn_client x) = c ∧ once_ok x) ∧
  (∀ c c' x x', conn_of st' c = Some x → conn_of st' c' = Some x' → Cl_Id (cn_client x) = Cl_Id (cn_client x') → c = c').
Proof.
  intros HI Hle. assert (∀ c x', conn_of st' c = Some x' → ∃ x, conn_of st c = Some x ∧ conn_le x x') as Hb.
  { intros c x' Hx'. specialize (Hle c). unfold conn_of in *. destruct (g_conns (lf_gw st) !! c) as [x|]; [|congruence].
    destruct Hle as (y & Hy & Hl). exists x. split; [done|congruence]. }
  split.
  - intros c x' Hx'. destruct (Hb _ _ Hx') as (x & Hx & (-> & _ & Ho)). destruct (ri_conn _ HI c x Hx). auto.
  - intros c c' x1 x2 H1 H2 E. destruct (Hb _ _ H1) as (y1 & Hy1 & (E1 & _)), (Hb _ _ H2) as (y2 & Hy2 & (E2 & _)).
    eapply (ri_ids _ HI); [done|done|congruence].
Qed.

Lemma known_of st ts r x : rows_inv (st, ts) → conn_of st r = Some x → known st (cn_client x).
Proof. intros HI Hx. exists x. by rewrite (proj1 (ri_conn _ HI r x Hx)). Qed.

(** Steps that create no connection and remove no registration. *)
Lemma rows_kept st ts st' ts' :
  rows_inv (st, ts) → conns_le (g_conns (lf_gw st)) (g_conns (lf_gw st')) → sumT holds ts' = b2z (lf_lock st') →
  (∀ u c, c ∈ conns (users st') u → c ∈ conns (users st) u ∨ ∃ r x, conn_of st r = Some x ∧ cn_client x = c) →
  (∀ i, (node, i) ∈ regs (lf_store st') → (node, i) ∈ regs (lf_store st) ∨ ∃ c, known st c ∧ gone st (Cl_ptr c) = false ∧ i = Cl_Id c) →
  (∀ c, gone st' c = gone st c) → Forall (point_ok st') ts' → rows_inv (st', ts').
Proof.
  intros HI Hle Hl Hu Hr Hg Hp. destruct (rows_conns _ _ _ HI Hle) as [Hc Hids]. pose proof (forward_le _ _ Hle) as Hf. split; simpl; try done.
  - intros u c Hcu. eapply known_forward; [done|]. destruct (Hu u c Hcu) as [?|(r & x & Hx & <-)]; [by eapply (ri_users _ HI)|by eapply known_of].
  - intros c x' Hx' Hgc. rewrite Hg in Hgc. specialize (Hle c). unfold conn_of in *. destruct (g_conns (lf_gw st) !! c) as [x|] eqn:Hx; [|congruence].
    destruct Hle as (y & Hy & (Ecl & Hcan & _)). assert (y = x') as -> by congruence. destruct (ri_gone _ HI c x Hx Hgc) as [Hno Hca]. split; [|auto].
    rewrite Ecl. intros Hin. destruct (Hr _ Hin) as [?|(cl & (z & Hz & Ez) & Hng & Eid)]; [done|]. simpl in *.
    assert (c = Cl_ptr cl) as ->; [|congruence]. eapply (ri_ids _ HI); [done|done|]. by rewrite Ez.
  - intros c Hn. rewrite Hg. apply (ri_ext _ HI). specialize (Hle c). unfold conn_of in *. simpl. destruct (g_conns (lf_gw st) !! c); [|done].
    destruct Hle as (y & Hy & _). congruence.
Qed.

(** The points of the other goroutines when one makes a step. *)
Lemma points_step st st' ts i t t' new :
  Forall (point_ok st) ts → ts !! i = Some t → forward st st' → Forall (point_ok st') (t' :: new) →
  (∀ j u, j ≠ i → ts !! j = Some u → holds u = 1 → ∀ c, gone st' c = gone st c) → Forall (point_ok st') (<[i := t']> ts ++ new).
Proof.
  intros Hts Hi Hf [Ht Hnew]%Forall_cons Hg. apply Forall_app. split; [|done]. apply Forall_lookup. intros j u Hj.
  destruct (decide (j = i)) as [->|Hne].
  - rewrite list_lookup_insert_eq in Hj by (by eapply lookup_lt_Some). by injection Hj as <-.
  - rewrite list_lookup_insert_ne in Hj by done. eapply point_forward; [done| |by eapply Forall_lookup in Hts]. eauto.
Qed.

Lemma holder_alone st ts i j t u : rows_inv (st, ts) → i ≠ j → ts !! i = Some t → ts !! j = Some u → holds t = 1 → holds u = 1 → False.
Proof.
  intros HI Hij Hi Hj Ht Hu. pose proof (sumT_two holds ts i j t u holds_nonneg Hij Hi Hj) as H. pose proof (ri_lock _ HI) as Hl. simpl in Hl.
  destruct (lf_lock st); simpl in Hl; lia.
Qed.

Lemma rows_new st ts st' ts' c :
  rows_inv (st, ts) → conn_of st (Cl_ptr c) = None → freshId (g_conns (lf_gw st)) (Cl_Id c) = true →
  g_conns (lf_gw st') = <[Cl_ptr c := newClient c sendQueue]> (g_conns (lf_gw st)) → users st' = users st → lf_store st' = lf_store st →
  (∀ c', gone st' c' = gone st c') → sumT holds ts' = b2z (lf_lock st') → (forward st st' → Forall (point_ok st') ts') → rows_inv (st', ts').
Proof.
  intros HI Hn Hid Em Eu Es Hg Hl Hp.
  assert (∀ c', conn_of st' c' = if decide (c' = Cl_ptr c) then Some (newClient c sendQueue) else conn_of st c') as Hlk.
  { intros c'. unfold conn_of. rewrite Em. destruct (decide (c' = Cl_ptr c)) as [->|]; [apply lookup_insert_eq|by rewrite lookup_insert_ne]. }
  assert (forward st st') as Hf.
  { intros c' x Hx. rewrite Hlk. destruct (decide (c' = Cl_ptr c)) as [->|]; [congruence|by exists x]. }
  split; simpl.
  - done.
  - intros c' x. rewrite Hlk. destruct (decide (c' = Cl_ptr c)) as [->|]; [intros [= <-]; split; [done|by intros H]|apply (ri_conn _ HI)].
  - intros c1 c2 x1 x2. rewrite !Hlk. destruct (decide (c1 = Cl_ptr c)) as [->|], (decide (c2 = Cl_ptr c)) as [->|]; [done| | |apply (ri_ids _ HI)].
    + intros [= <-] H2 E. simpl in E. by destruct (freshId_spec _ _ _ _ Hid H2).
    + intros H1 [= <-] E. simpl in E. by destruct (freshId_spec _ _ _ _ Hid H1).
  - rewrite Eu. intros u cl Hcl. eapply known_forward; [done|]. by eapply (ri_users _ HI).
  - rewrite Es. intros c' x. rewrite Hlk, Hg. destruct (decide (c' = Cl_ptr c)) as [->|]; [|apply (ri_gone _ HI)].
    intros _ Hgc. pose proof (ri_ext _ HI _ Hn) as E. simpl in E. congruence.
  - intros c'. rewrite Hlk, Hg. destruct (decide (c' = Cl_ptr c)) as [->|]; [done|apply (ri_ext _ HI)].
  - by apply Hp.
Qed.

(** A registration is removed by the only holder of the lock, of a connection that has been cancelled. *)
Lemma rows_removed st ts i c ch st' t' new :
  rows_inv (st, ts) → ts !! i = Some (LRemoveCall c) → lstep ch st (LRemoveCall c) = Some (st', t', new) → rows_inv (st', <[i := t']> ts ++ new).
Proof.
  intros HI Hi H. pose proof (proj1 (Forall_lookup _ _) (ri_points _ HI) i _ Hi) as (x & Hx & Hcan). simpl in Hx.
  pose proof (ltask_holds _ _ _ _ _ _ _ _ _ _ H) as Hh. pose proof (ltask_points _ _ _ _ _ _ _ _ HI Hi H) as Hnew.
  pose proof (sumT_ge holds ts i _ holds_nonneg Hi) as Hge. pose proof (ri_lock _ HI) as Hl. simpl in *.
  assert (sumT holds (<[i := t']> ts ++ new) = b2z (lf_lock st')) as Hl'.
  { rewrite sumT_app, (sumT_insert _ _ _ _ _ Hi). simpl. specialize (Hh ltac:(intros _; destruct (lf_lock st); simpl in Hl; [done|lia])). lia. }
  assert (Forall (point_ok st') (<[i := t']> ts ++ new)) as Hp.
  { eapply points_step; [apply (ri_points _ HI)|done| |done|].
    - life_cases H; apply forward_le; simpl; apply conns_le_refl.
    - intros j u Hne Hj Hu. exfalso. by eapply (holder_alone _ _ i j _ _ HI). }
  life_cases H.
  - injection Hx as ->. destruct HI as [I1 I2 I3 I4 I5 I6 I7]. simpl in *.
    assert (∀ c', gone (with_store (set_extra st c (mkExtra false (ex_remove e) true)) s) c' = if decide (c' = c) then true else gone st c') as Hg.
    { intros c'. unfold gone. simpl. destruct (decide (c' = c)) as [->|]; [by rewrite lookup_insert_eq|by rewrite lookup_insert_ne]. }
    split; simpl; try done.
    + intros c' y Hy. change (conn_of st c' = Some y) in Hy. rewrite Hg. destruct (decide (c' = c)) as [->|Hne].
      * intros _. assert (y = x) as -> by congruence. split; [|done]. intros Hin. by destruct (remove_result _ _ _ _ _ _ _ E1 Hin) as [_ Hno], (Hno eq_refl).
      * intros Hgc. destruct (I5 c' y Hy Hgc) as [Hno ?]. split; [|done]. intros Hin. by destruct (remove_result _ _ _ _ _ _ _ E1 Hin).
    + intros c' Hc'. rewrite Hg. destruct (decide (c' = c)) as [->|]; [|by apply I6]. unfold conn_of in *. simpl in Hc'. congruence.
  - apply (rows_kept _ _ _ _ HI); try done; [apply conns_le_refl|by left|]. intros k Hk. left. by apply (remove_result _ _ _ _ _ _ _ E1 Hk).
Qed.

Lemma rows_task st ts i t ch st' t' new :
  rows_inv (st, ts) → ts !! i = Some t → lstep ch st t = Some (st', t', new) → rows_inv (st', <[i := t']> ts ++ new).
Proof.
  intros HI Hi H. destruct (ltask_gone _ _ _ _ _ _ H (ri_ext _ HI)) as [Hg|(c & e & -> & _)]; [|by eapply rows_removed].
  pose proof (ltask_holds _ _ _ _ _ _ _ _ _ _ H) as Hh. pose proof (ltask_points _ _ _ _ _ _ _ _ HI Hi H) as Hnew.
  pose proof (sumT_ge holds ts i t holds_nonneg Hi) as Hge. pose proof (ri_lock _ HI) as Hl. simpl in Hl.
  assert (sumT holds (<[i := t']> ts ++ new) = b2z (lf_lock st')) as Hl'.
  { rewrite sumT_app, (sumT_insert _ _ _ _ _ Hi). specialize (Hh ltac:(intros E; rewrite E in Hge; destruct (lf_lock st); simpl in Hl; [done|lia])). lia. }
  assert (forward st st' → Forall (point_ok st') (<[i := t']> ts ++ new)) as Hp by (intros Hf; eapply points_step; [apply (ri_points _ HI)|done|done|done|by intros]).
  destruct (ltask_conns _ _ _ _ _ _ _ _ _ _ H) as [Hle|(c & Hn & Hid & Em & _ & _ & _ & Eu & Es)]; [|by eapply (rows_new _ _ _ _ c HI)].
  apply (rows_kept _ _ _ _ HI); try done; [|intros j Hj|by apply Hp, forward_le].
  - intros u c Hc. by eapply ltask_users.
  - destruct (ltask_regs _ _ _ _ _ _ j H) as [?|(c & ? & ? & ? & _)]; eauto.
    + by apply (proj1 (Forall_lookup _ _) (ri_points _ HI) i).
    + intros c x Hx. by apply (ri_conn _ HI c x).
Qed.

Lemma rows_step n n' : step n n' → rows_inv n → rows_inv n'.
Proof.
  intros Hs HI. destruct Hs as [st ts i t ch g t' Hi Ht|st ts t He|st ts i t ch st' t' new Hi Ht|st ts t Ht|st ts Hw|st ts s Hr].
  - destruct (task_step_le _ _ _ _ _ Ht) as [Hle Hu].
    apply (rows_kept _ _ _ _ HI); [done|apply HI| |by left|done|].
    + intros u c. unfold users. simpl. destruct Hu as [->|(r & x & _ & ->)]; [by left|]. left. by eapply Unregister_conns.
    + eapply Forall_impl; [apply (ri_points _ HI)|]. intros u. apply point_forward; [by apply forward_le|done].
  - by destruct HI.
  - by eapply rows_task.
  - destruct HI as [I1 I2 I3 I4 I5 I6 I7]. split; simpl in *; try done.
    + assert (holds t = 0) as E by (by destruct t). rewrite sumT_app. simpl. lia.
    + apply Forall_app. split; [done|]. apply Forall_singleton. by destruct t.
  - by destruct HI.
  - apply (rows_kept _ _ _ _ HI); try done; [apply conns_le_refl|apply HI|by left|intros i Hi; left; by apply Hr|apply HI].
Qed.

Lemma rows_reachable L b n : lnode_reachable node hasOnline hasBus sendQueue L b n → rows_inv n.
Proof.
  intros [s Hs]. remember (newLife L b s, []) as n0 eqn:E. assert (rows_inv n0) as HI.
  { subst. assert (∀ c, conn_of (newLife L b s) c = None) as Hn by (intros c; apply lookup_empty).
    split; simpl; [done|intros c x; by rewrite Hn|intros c c' x x'; by rewrite Hn| |intros c x; by rewrite Hn|done|by apply Forall_nil].
    intros u c. unfold conns. simpl. rewrite lookup_empty. by intros ?%not_elem_of_nil. }
  clear E. induction Hs; eauto using rows_step.
Qed.

(** ** The work group *)

(** No unit is held and none can be taken. *)
Definition quiet st : Prop := wk_sealed (lf_work st) = true ∧ wk_count (lf_work st) = 0.

Record work_inv (n : LNode) : Prop := {
  wi_count : wk_count (lf_work n.1) = sumT units n.2;
  wi_wait i : n.2 !! i = Some LWait → wk_sealed (lf_work n.1) = true;
  wi_purge i : n.2 !! i = Some (LPurge true) → quiet n.1;
  wi_purged : lf_purged n.1 = true → quiet n.1 ∧ ∀ c, (node, c) ∉ regs (lf_store n.1) }.

(** Points reached only by what came before them. *)
Lemma ltask_waits ch st t st' t' new :
  lstep ch st t = Some (st', t', new) →
  LWait ∉ new ∧ LPurge true ∉ new ∧ (t' = LWait → wk_sealed (lf_work st') = true) ∧
  (t' = LPurge true → t = LWait ∧ wk_count (lf_work st') = 0 ∧ lf_work st' = lf_work st) ∧
  (lf_purged st' = true → lf_purged st = true ∨ t = LPurge true ∧ ∀ c, (node, c) ∉ regs (lf_store st')).
Proof.
  intros H. destruct t; life_cases H; simpl.
  all: try (split_and!; [set_solver|set_solver|done|done|by left]).
  - split_and!; [set_solver|set_solver|done| |by left]. intros _. split_and!; [done|by apply Z.eqb_eq|done].
  - split_and!; [set_solver|set_solver|done|done|]. intros [?|[-> ->]%andb_true_iff]%orb_true_iff; [by left|right]. split; [done|].
    intros c Hc. by destruct (purge_result _ _ _ _ _ _ E0 Hc) as [_ H], (H eq_refl).
Qed.

(** A step on a quiet group by a goroutine that holds no unit leaves it quiet. *)
Lemma quiet_task ch st t st' t' new ts i :
  work_inv (st, ts) → ts !! i = Some t → lstep ch st t = Some (st', t', new) → quiet st → units t = 0 ∧ quiet st'.
Proof.
  intros HI Hi H [Hs Hc]. destruct (ltask_sealed _ _ _ _ _ _ _ _ _ _ H Hs) as [Hs' Hle]. pose proof (ltask_units _ _ _ _ _ _ _ _ _ _ H) as Hu.
  pose proof (wi_count _ HI) as Hsum. simpl in Hsum. pose proof (sumT_ge units ts i t units_nonneg Hi). pose proof (units_nonneg t). pose proof (units_nonneg t').
  assert (∀ l, 0 ≤ sumT units l) as Hn by (intros l; induction l as [|y l IH]; simpl; [done|pose proof (units_nonneg y); lia]). specialize (Hn new).
  split; [lia|]. split; [done|]. lia.
Qed.

Lemma work_task st ts i t ch st' t' new :
  rows_inv (st, ts) → work_inv (st, ts) → ts !! i = Some t → lstep ch st t = Some (st', t', new) → work_inv (st', <[i := t']> ts ++ new).
Proof.
  intros HR HI Hi H. pose proof (ltask_units _ _ _ _ _ _ _ _ _ _ H) as Hu. destruct (ltask_waits _ _ _ _ _ _ H) as (Hw & Hp & Hw' & Hp' & Hd).
  pose proof (quiet_task _ _ _ _ _ _ _ _ HI Hi H) as Hq. split; simpl.
  - rewrite sumT_app, (sumT_insert _ _ _ _ _ Hi). pose proof (wi_count _ HI) as E. simpl in E. lia.
  - intros j Hj. destruct (lookup_step _ _ _ _ _ _ _ Hi Hj) as [E|[?|Hj']]; [by apply Hw'|done|].
    apply (ltask_sealed _ _ _ _ _ _ _ _ _ _ H). by eapply (wi_wait _ HI j).
  - intros j Hj. destruct (lookup_step _ _ _ _ _ _ _ Hi Hj) as [E|[?|Hj']]; [|done|by apply Hq, (wi_purge _ HI j)].
    destruct (Hp' (eq_sym E)) as (-> & Hz & Ew). split; [|done]. rewrite Ew. by eapply (wi_wait _ HI i).
  - intros Hpd. destruct (Hd Hpd) as [Hpd'|[-> Hno]]; [|split; [|done]; by apply Hq, (wi_purge _ HI i)].
    destruct (wi_purged _ HI Hpd') as [Hqs Hno]. destruct (Hq Hqs) as [Hz Hqs']. split; [done|]. intros c Hc.
    destruct (ltask_regs _ _ _ _ _ _ c H) as [?|(cl & _ & _ & _ & E)]; try done; [by apply (proj1 (Forall_lookup _ _) (ri_points _ HR) i)| |by eapply Hno|lia].
    intros c' x Hx. by apply (ri_conn _ HR c' x).
Qed.

Lemma work_step n n' : step n n' → rows_inv n → work_inv n → work_inv n'.
Proof.
  intros Hs HR HI. destruct Hs as [st ts i t ch g t' Hi Ht|st ts t He|st ts i t ch st' t' new Hi Ht|st ts t Ht|st ts Hw|st ts s Hr];
    try (by destruct HI); [by eapply work_task| |].
  - destruct HI as [I1 I2 I3 I4]. assert (∀ j u, (ts ++ [t]) !! j = Some u → u = t ∨ ts !! j = Some u) as Hl.
    { intros j u [?|[_ Hj]]%lookup_app_Some; [by right|left]. by apply list_lookup_singleton_Some in Hj as [_ <-]. }
    split; simpl in *; [|intros j Hj|intros j Hj|done].
    + assert (units t = 0) as E by (destruct t; try done; by destruct served).
      rewrite sumT_app. simpl. lia.
    + destruct (Hl _ _ Hj) as [<-|?]; [done|by eapply I2].
    + destruct (Hl _ _ Hj) as [<-|?]; [done|by eapply I3].
  - destruct HI as [I1 I2 I3 I4]. split; simpl in *; [done|done|done|]. intros Hp. destruct (I4 Hp) as [? Hno]. split; [done|]. intros c Hc. by eapply Hno, Hr.
Qed.

Lemma work_reachable L b n : lnode_reachable node hasOnline hasBus sendQueue L b n → rows_inv n ∧ work_inv n.
Proof.
  intros Hr. split; [by eapply rows_reachable|]. destruct Hr as [s Hs]. assert (work_inv (newLife L b s, [])) as HI by (by split).
  assert (rows_inv (newLife L b s, [])) as HR by (apply (rows_reachable L b); by exists s).
  remember (newLife L b s, []) as n0 eqn:E. clear E. induction Hs; eauto using rows_step, work_step.
Qed.
End Rows.
