(* ===== verification/ConnSlots.v ===== *)
(** * Connection slots

    A slot of the registry is reserved by a handshake, and then given back exactly once: by the upgrade that failed, by the watcher, by a drain that came first, by a failed
    adoption, or by the connection's close. Which of them wins is decided by one flag; nothing is counted twice and nothing leaks. *)

From S2P Require Import Prelude Errcode Strconv Json Store PgStore Conc RateLimit World OnlineStore UserMap SendQueue Lifecycle LifecycleInv.

Local Open Scope Z_scope.

(** ** Slots that no client has yet *)

(** A claimed slot in the hands of a goroutine. *)
Definition in_hand (t : LTask) : list Slot := match t with LGiveBack s _ | LNew _ s _ => [s] | LAdopt _ c => [slot c] | _ => [] end.

(** The slots of reservations that are not settled. *)
Definition unsettled (m : gmap nat upgradeReservation) : list Slot :=
  flat_map (λ rx, if rs_settled rx.2 then [] else [rs_slot rx.2]) (map_to_list m).

Lemma unsettled_insert m r x : m !! r = None → unsettled (<[r := x]> m) ≡ₚ (if rs_settled x then [] else [rs_slot x]) ++ unsettled m.
Proof. intros H. unfold unsettled. rewrite (Permutation_flat_map _ (map_to_list_insert m r x H)). done. Qed.

Lemma unsettled_settle m r x :
  m !! r = Some x → rs_settled x = false → unsettled m ≡ₚ rs_slot x :: unsettled (<[r := mkRes (rs_slot x) true]> m).
Proof.
  intros H E. rewrite <- (insert_delete_id m r x H) at 1. rewrite <- (insert_delete_eq m r (mkRes _ true)).
  rewrite !unsettled_insert by apply lookup_delete_eq. simpl. by rewrite E.
Qed.

Lemma flat_map_insert {A B} (f : A → list B) (l : list A) i x y :
  l !! i = Some x → ∃ rest, flat_map f l ≡ₚ f x ++ rest ∧ flat_map f (<[i := y]> l) ≡ₚ f y ++ rest.
Proof.
  intros H. apply list_elem_of_split_length in H as (l1 & l2 & -> & ->). exists (flat_map f (l1 ++ l2)).
  rewrite insert_app_r_alt, Nat.sub_diag by done. simpl. rewrite !flat_map_app. simpl. split; by rewrite Permutation_app_swap_app.
Qed.

Section Slots.
Context {S : Type} `{OL : OnlineOps S}.
Variables (node : string) (hasOnline hasBus : bool) (sendQueue : nat).
Implicit Types st : Life S.

Notation lstep := (ltask_step node hasOnline hasBus sendQueue).
Notation step := (life_step node hasOnline hasBus sendQueue).

Definition pending (n : Life S * list LTask) : list Slot := unsettled (lf_res n.1) ++ flat_map in_hand n.2.

(** How often the client of a reservation can still be, or has been, registered. *)
Definition claims (r : nat) (t : LTask) : Z := match t with LNew r' _ _ | LAdopt r' _ => if decide (r' = r) then 1 else 0 | _ => 0 end.

Definition open (m : gmap nat upgradeReservation) (r : nat) : Z := match m !! r with Some x => b2z (negb (rs_settled x)) | None => 0 end.

(** Every claim of a client comes from one reservation. *)
Definition balance (m : gmap nat upgradeReservation) (ts : list LTask) (r : nat) : Z := open m r + sumT (claims r) ts.

Definition times (r : nat) (ads : list Client) : Z := sumT (λ c, if decide (Cl_ptr c = r) then 1 else 0) ads.

(** The client is that of a connection that has not finished closing. *)
Definition registered st (c : Client) : Prop := ∃ x, conn_of st (Cl_ptr c) = Some x ∧ cn_client x = c ∧ cn_once x ≠ Finished.

Record slots_inv (n : Life S * list LTask) (ads : list Client) : Prop := {
  sl_um : um_inv (mkUm (users n.1) (pending n) ads);
  sl_once r : balance (lf_res n.1) n.2 r + times r ads ≤ 1;
  sl_fresh r : lf_res n.1 !! r = None → sumT (claims r) n.2 = 0 ∧ times r ads = 0;
  sl_conn c x : conn_of n.1 c = Some x → Cl_ptr (cn_client x) = c;
  sl_reg : Forall (registered n.1) ads;
  sl_adopt i r c : n.2 !! i = Some (LAdopt r c) → ∃ x, conn_of n.1 r = Some x ∧ cn_client x = c;
  sl_named i s pf : n.2 !! i = Some (LReserve s pf) → Slot_UserId s ≠ ""%string }.

(** Slots move between the reservations and the hands of goroutines. *)
Lemma pending_step st ts i t st' t' new (rest out : list Slot) :
  ts !! i = Some t → unsettled (lf_res st) ++ in_hand t ≡ₚ out ++ rest → unsettled (lf_res st') ++ in_hand t' ++ flat_map in_hand new ≡ₚ rest →
  ∃ others, pending (st, ts) ≡ₚ out ++ rest ++ others ∧ pending (st', <[i := t']> ts ++ new) ≡ₚ rest ++ others.
Proof.
  intros Hi E1 E2. unfold pending. simpl. destruct (flat_map_insert in_hand ts i t t' Hi) as (others & H1 & H2). exists others.
  rewrite flat_map_app, H1, H2. split.
  - rewrite app_assoc, E1. by rewrite app_assoc.
  - rewrite <- E2. rewrite <- !app_assoc. do 2 f_equiv. apply Permutation_app_comm.
Qed.

Lemma um_perm m res res' ads : res ≡ₚ res' → um_inv (mkUm m res ads) → um_inv (mkUm m res' ads).
Proof. intros E [Hc Hn]. split; [|done]. simpl in *. eapply counts_perm; [|done]. by rewrite E. Qed.

Lemma um_stepped m res ads m' res' ads' : um_step (mkUm m res ads) (mkUm m' res' ads') → um_inv (mkUm m res ads) → um_inv (mkUm m' res' ads').
Proof. intros Hs Hi. by destruct (um_step_inv _ _ Hs Hi) as [? _]. Qed.

(** What a step does to the registry and the slots outside it. *)
Lemma ltask_um ch st ts i t st' t' new ads :
  slots_inv (st, ts) ads → ts !! i = Some t → lstep ch st t = Some (st', t', new) →
  ∃ ads', um_inv (mkUm (users st') (pending (st', <[i := t']> ts ++ new)) ads') ∧
    (ads' = ads ∨ ∃ r c x, t = LAdopt r c ∧ conn_of st r = Some x ∧ cn_client x = c ∧ cn_closed x = false ∧ ads' = ads ++ [c]).
Proof.
  intros HI Hi H. pose proof (sl_um _ _ HI) as Hum.
  assert (∀ out rest, unsettled (lf_res st) ++ in_hand t ≡ₚ out ++ rest → unsettled (lf_res st') ++ in_hand t' ++ flat_map in_hand new ≡ₚ rest →
    ∃ others, um_inv (mkUm (users st) (out ++ rest ++ others) ads) ∧ pending (st', <[i := t']> ts ++ new) ≡ₚ rest ++ others) as Hmove.
  { intros out rest E1 E2. destruct (pending_step _ _ _ _ _ _ _ _ _ Hi E1 E2) as (others & P1 & P2). exists others. split; [|done]. by eapply um_perm. }
  destruct t; life_cases H; simpl in *; unfold users in *; simpl in *.
  all: try (destruct (Hmove [] (unsettled (lf_res st))) as (others & Hu & Hp); [by rewrite !app_nil_r|by rewrite ?app_nil_r|];
            exists ads; split; [by eapply um_perm|by left]).
  all: try (match goal with E : lf_res ?st0 !! ?r = Some ?x, E' : rs_settled ?x = false |- _ =>
      destruct (Hmove [] (rs_slot x :: unsettled (<[r := mkRes (rs_slot x) true]> (lf_res st0)))) as (others & Hu & Hp);
        [rewrite app_nil_r; by apply unsettled_settle|by rewrite <- Permutation_cons_append|exists ads; split; [by eapply um_perm|by left]] end).
  - destruct (flat_map_insert in_hand ts i _ (LWatch (lc_ptr ch) platformId) Hi) as (rest & H1 & H2). simpl in H1, H2.
    exists ads. split; [|by left]. eapply um_perm, (um_stepped _ _ _ _ _ _ (um_reserve _ _ _ _ _ (sl_named _ _ HI _ _ _ Hi) E) Hum).
    unfold pending. simpl. rewrite flat_map_app, app_nil_r, unsettled_insert, H1, H2; [reflexivity|done].
  - destruct (Hmove [] (unsettled (lf_res st) ++ [s])) as (others & Hu & Hp); [done|by destruct s|]. exists ads. split; [by eapply um_perm|by left].
  - destruct (Hmove [slot c] (unsettled (lf_res st))) as (others & Hu & Hp); [apply Permutation_app_comm|by rewrite ?app_nil_r|].
    destruct (sl_adopt _ _ HI _ _ _ Hi) as (x & Hx & Ec). assert (x = c0) as -> by (simpl in Hx; congruence). rewrite Ec in E0.
    exists ads. split; [|by left]. eapply um_perm; [symmetry; exact Hp|]. eapply um_stepped; [by eapply um_adopt_failed|done].
  - destruct (Hmove [slot c] (unsettled (lf_res st))) as (others & Hu & Hp); [apply Permutation_app_comm|by rewrite ?app_nil_r|].
    destruct (sl_adopt _ _ HI _ _ _ Hi) as (x & Hx & Ec). assert (x = c0) as -> by (simpl in Hx; congruence). rewrite Ec in E0.
    exists (ads ++ [c]). split; [|right; exists r, c, c0; split_and!; try done; by unfold adopt in E0; destruct (cn_closed c0)].
    eapply um_perm; [symmetry; exact Hp|]. eapply um_stepped; [by eapply um_adopt|done].
  - destruct (Hmove [s] (unsettled (lf_res st))) as (others & Hu & Hp); [apply Permutation_app_comm|by rewrite ?app_nil_r|].
    exists ads. split; [|by left]. eapply um_perm; [symmetry; exact Hp|]. eapply um_stepped; [by eapply um_release|done].
  - destruct (Hmove [s] (unsettled (lf_res st))) as (others & Hu & Hp); [apply Permutation_app_comm|by rewrite ?app_nil_r|].
    exists ads. split; [|by left]. eapply um_perm; [symmetry; exact Hp|]. eapply um_stepped; [by eapply um_release|done].
  - destruct (Hmove [s] (unsettled (lf_res st))) as (others & Hu & Hp); [apply Permutation_app_comm|by rewrite ?app_nil_r|].
    exists ads. split; [|by left]. eapply um_perm; [symmetry; exact Hp|]. eapply um_stepped; [by eapply um_release|done].
  - destruct (Hmove [] (unsettled (lf_res st))) as (others & Hu & Hp); [by rewrite !app_nil_r|by rewrite ?app_nil_r|].
    exists ads. split; [|by left]. eapply um_perm; [symmetry; exact Hp|]. eapply um_stepped; [apply um_close|done].
Qed.

Lemma open_settle m r x r' :
  m !! r = Some x → rs_settled x = false → open (<[r := mkRes (rs_slot x) true]> m) r' = open m r' - (if decide (r = r') then 1 else 0).
Proof.
  intros Hx Ex. unfold open. destruct (decide (r = r')) as [<-|Hne]; [rewrite lookup_insert_eq, Hx, Ex; done|rewrite lookup_insert_ne by done; lia].
Qed.

Lemma insert_none (m : gmap nat upgradeReservation) r x y r' : m !! r = Some x → <[r := y]> m !! r' = None → m !! r' = None.
Proof. intros Hx. rewrite lookup_insert_None. tauto. Qed.

Lemma ltask_claims ch st t st' t' new :
  lstep ch st t = Some (st', t', new) →
  ((∀ r, balance (lf_res st') (t' :: new) r ≤ balance (lf_res st) [t] r) ∧ (∀ r, lf_res st' !! r = None → lf_res st !! r = None) ∧ ∀ r c, t ≠ LAdopt r c) ∨
  (∃ s pf p, t = LReserve s pf ∧ lf_res st !! p = None ∧ lf_res st' = <[p := mkRes s false]> (lf_res st) ∧ t' = LWatch p pf ∧ new = []) ∨
  (∃ r c, t = LAdopt r c ∧ lf_res st' = lf_res st ∧ new = [] ∧ ∀ r', claims r' t' = 0).
Proof.
  intros H. destruct t; life_cases H; simpl; try (right; right; by eauto 10); try (right; left; by eauto 10); left; unfold balance; simpl;
    try (split_and!; by intros).
  all: split_and!; [intros r'; rewrite (open_settle _ _ _ r') by done; destruct (decide (r = r')); lia|intros r'; by eapply insert_none|done].
Qed.

(** Closing is finished by the calls of [SendQueue] alone. *)
Definition same_once (m m' : gmap nat Conn) : Prop :=
  ∀ c x, m !! c = Some x → ∃ x', m' !! c = Some x' ∧ cn_client x' = cn_client x ∧ (cn_once x' = Finished → cn_once x = Finished).

Lemma same_once_refl m : same_once m m.
Proof. intros c x Hx. by exists x. Qed.

Lemma same_once_insert m c x x' :
  m !! c = Some x → cn_client x' = cn_client x → (cn_once x' = Finished → cn_once x = Finished) → same_once m (<[c := x']> m).
Proof.
  intros Hx E1 E2 c' y Hy. destruct (decide (c' = c)) as [->|Hne]; [|rewrite lookup_insert_ne by done; by exists y].
  rewrite lookup_insert_eq. exists x'. by replace y with x by congruence.
Qed.

Lemma ltask_same_once ch st t st' t' new : lstep ch st t = Some (st', t', new) → same_once (g_conns (lf_gw st)) (g_conns (lf_gw st')).
Proof.
  intros H. destruct t; life_cases H; simpl; try apply same_once_refl.
  - intros c x Hx. exists x. rewrite lookup_insert_ne; [done|]. intros <-. unfold conn_of in *. congruence.
  - by eapply same_once_insert.
Qed.

Lemma beginDrain_once d x r x' : beginDrain d x = (r, x') → cn_client x' = cn_client x ∧ cn_once x' = cn_once x.
Proof. intros E. pose proof (beginDrain_queue d x) as H. rewrite E in H. simpl in H. by rewrite H. Qed.

Lemma queueFrame_once x f n r x' : queueFrame x f n = (r, x') → cn_client x' = cn_client x ∧ cn_once x' = cn_once x.
Proof. intros H%queueFrame_spec. destruct r; [destruct H as [_ ->]|destruct H as [_ ->]|subst x']; done. Qed.

Lemma task_step_once ch g t g' t' :
  task_step ch g t = Some (g', t') →
  same_once (g_conns g) (g_conns g') ∧ g_users g' = g_users g ∨
  ∃ c x, g_conns g !! c = Some x ∧ g_conns g' = <[c := set_once x Finished]> (g_conns g) ∧ g_users g' = Unregister (g_users g) (cn_client x).
Proof.
  intros Hs. destruct t; simpl in Hs; unfold mbind, option_bind, finishDrain in Hs; step_cases Hs; injection Hs as <- <-; simpl;
    try (left; split; [|done]; first [apply same_once_refl|by eapply same_once_insert|idtac]); try (right; by eauto).
  all: try (match goal with E : beginDrain _ _ = _ |- _ => apply beginDrain_once in E as [? E] | E : queueFrame _ _ _ = _ |- _ => apply queueFrame_once in E as [? E] end;
            eapply same_once_insert; [done|done|congruence]).
  intros c x Hx. destruct (kick_select_spec _ _ _ _ _ _ _ E0 c) as [[-> _]|(y & _ & _ & Ey & _ & -> & _)]; [by exists x|].
  destruct (beginDrain (g_down g) y) as [r y'] eqn:Eb. apply beginDrain_once in Eb as [E2 E3]. exists y'. simpl. split; [done|]. by replace x with y by congruence; rewrite E3.
Qed.

(** A closed connection is not adopted, so nothing is registered that has finished closing. *)
Lemma open_once L b n c x :
  lnode_reachable node hasOnline hasBus sendQueue L b n → conn_of n.1 c = Some x → cn_closed x = false → cn_once x ≠ Finished.
Proof.
  intros Hr Hx Hc E. apply lnode_node in Hr. pose proof (life_reachable _ _ _ Hr) as HI. pose proof (ck_facts _ _ _ (li_conns _ HI c x Hx)) as [_ _ Ho _].
  rewrite E in Ho. destruct Ho. congruence.
Qed.

Lemma registered_same st st' c : same_once (g_conns (lf_gw st)) (g_conns (lf_gw st')) → registered st c → registered st' c.
Proof. intros Hs (x & Hx & E & Ho). destruct (Hs _ _ Hx) as (x' & Hx' & E' & Ho'). exists x'. split_and!; [done|congruence|auto]. Qed.

Lemma times_app r l l' : times r (l ++ l') = times r l + times r l'.
Proof. apply sumT_app. Qed.

(** Where clients are to be adopted, and that requests come from outside. *)
Lemma ltask_targets ch st t st' t' new :
  lstep ch st t = Some (st', t', new) →
  (∀ r c, t' = LAdopt r c → ∃ x, conn_of st' r = Some x ∧ cn_client x = c) ∧ (∀ s pf, t' ≠ LReserve s pf) ∧
  (∀ r c, LAdopt r c ∉ new) ∧ (∀ s pf, LReserve s pf ∉ new).
Proof.
  intros H. destruct t; life_cases H; simpl; try (split_and!; [done|done|set_solver|set_solver]).
  split_and!; [|done|set_solver|set_solver]. intros r' c [= -> <-]. eexists. split; [apply lookup_insert_eq|done].
Qed.

Lemma claims_step st ts i t st' t' new r :
  ts !! i = Some t → balance (lf_res st') (<[i := t']> ts ++ new) r = balance (lf_res st) ts r + balance (lf_res st') (t' :: new) r - balance (lf_res st) [t] r.
Proof. intros Hi. unfold balance. rewrite sumT_app, (sumT_insert _ _ _ _ _ Hi). simpl. lia. Qed.

Lemma claims_nonneg r t : 0 ≤ claims r t.
Proof. destruct t; simpl; try done; by destruct (decide _). Qed.

Lemma sum_nonneg {A} (f : A → Z) l : (∀ x, 0 ≤ f x) → 0 ≤ sumT f l.
Proof. intros H. induction l as [|x l IH]; simpl; [done|specialize (H x); lia]. Qed.

Lemma times_one r c : times r [c] = if decide (Cl_ptr c = r) then 1 else 0.
Proof. unfold times. simpl. lia. Qed.

(** The counts after a step. *)
Lemma slots_counts st ts i t ch st' t' new ads ads' :
  slots_inv (st, ts) ads → ts !! i = Some t → lstep ch st t = Some (st', t', new) →
  (ads' = ads ∨ ∃ r c x, t = LAdopt r c ∧ conn_of st r = Some x ∧ cn_client x = c ∧ cn_closed x = false ∧ ads' = ads ++ [c]) →
  (∀ r, balance (lf_res st') (<[i := t']> ts ++ new) r + times r ads' ≤ 1) ∧
  (∀ r, lf_res st' !! r = None → sumT (claims r) (<[i := t']> ts ++ new) = 0 ∧ times r ads' = 0).
Proof.
  intros HI Hi H Hads. pose proof (claims_step st ts i t st' t' new) as Hb.
  destruct (ltask_claims _ _ _ _ _ _ H) as [(Hle & Hnone & Hna)|[(s & pf & p & -> & Hp & Eres & -> & ->)|(r0 & c0 & -> & Eres & -> & Hz)]].
  - assert (ads' = ads) as -> by (destruct Hads as [?|(r & c & x & E & _)]; [done|by destruct (Hna r c)]). split; intros r.
    + rewrite (Hb r Hi). pose proof (sl_once _ _ HI r). specialize (Hle r). simpl in *. lia.
    + intros Hr. destruct (sl_fresh _ _ HI r (Hnone r Hr)) as [E1 E2]. split; [|done]. specialize (Hb r Hi). specialize (Hle r).
      unfold balance in Hb, Hle. unfold open in Hb, Hle. simpl in E1. rewrite Hr, (Hnone r Hr) in Hb, Hle. simpl in Hle, Hb.
      pose proof (sum_nonneg (claims r) (<[i := t']> ts ++ new) (claims_nonneg r)). lia.
  - assert (ads' = ads) as -> by (destruct Hads as [?|(r & c & x & [=] & _)]; done). split; intros r; rewrite Eres.
    + specialize (Hb r Hi). unfold balance in *. rewrite Eres in Hb. simpl in Hb. pose proof (sl_once _ _ HI r) as Ho. unfold balance in Ho. simpl in Ho.
      destruct (decide (r = p)) as [->|Hne].
      * destruct (sl_fresh _ _ HI p Hp) as [E1 E2]. unfold open in *. rewrite lookup_insert_eq in *. rewrite Hp in Hb. simpl in *. lia.
      * unfold open in *. rewrite lookup_insert_ne in * by done. lia.
    + rewrite lookup_insert_None. intros [Hr Hne]. destruct (sl_fresh _ _ HI r Hr) as [E1 E2]. split; [|done].
      rewrite sumT_app, (sumT_insert _ _ _ _ _ Hi). simpl in *. lia.
  - assert (∀ r, claims r t' + times r ads' ≤ claims r (LAdopt r0 c0) + times r ads) as Hc.
    { intros r. rewrite Hz. destruct Hads as [->|(r1 & c1 & x & [= <- <-] & Hx & Ec & _ & ->)]; [pose proof (claims_nonneg r (LAdopt r0 c0)); lia|].
      rewrite times_app, times_one. simpl. assert (Cl_ptr c0 = r0) as -> by (rewrite <- Ec; by apply (sl_conn _ _ HI)). lia. }
    split; intros r.
    + specialize (Hb r Hi). rewrite Eres in *. unfold balance in *. simpl in *. pose proof (sl_once _ _ HI r) as Ho. unfold balance in Ho. simpl in Ho. specialize (Hc r). simpl in Hc. lia.
    + rewrite Eres. intros Hr. destruct (sl_fresh _ _ HI r Hr) as [E1 E2]. pose proof (sumT_ge (claims r) ts i _ (claims_nonneg r) Hi) as Hge.
      specialize (Hc r). pose proof (claims_nonneg r (LAdopt r0 c0)). simpl in E1, E2. rewrite sumT_app, (sumT_insert _ _ _ _ _ Hi). simpl.
      rewrite (Hz r) in *. assert (0 ≤ times r ads') by (apply sum_nonneg; intros; simpl; by case_decide). simpl in *. lia.
Qed.

Lemma slots_task st ts i t ch st' t' new ads :
  (∀ c x, conn_of st c = Some x → cn_closed x = false → cn_once x ≠ Finished) →
  slots_inv (st, ts) ads → ts !! i = Some t → lstep ch st t = Some (st', t', new) → ∃ ads', slots_inv (st', <[i := t']> ts ++ new) ads'.
Proof.
  intros Hopen HI Hi H. destruct (ltask_um _ _ _ _ _ _ _ _ _ HI Hi H) as (ads' & Hum & Hads).
  destruct (slots_counts _ _ _ _ _ _ _ _ _ _ HI Hi H Hads) as [Hc1 Hc2]. pose proof (ltask_same_once _ _ _ _ _ _ H) as Hso.
  destruct (ltask_targets _ _ _ _ _ _ H) as (Ht1 & Ht2 & Ht3 & Ht4). exists ads'. split; try done.
  - intros c x Hx. destruct (ltask_conns _ _ _ _ _ _ _ _ _ _ H) as [Hle|(cl & Hn & _ & Em & _)]; simpl in Hx; unfold conn_of in Hx.
    + specialize (Hle c). destruct (g_conns (lf_gw st) !! c) as [y|] eqn:Ey; [|congruence]. destruct Hle as (x' & Hx' & E & _).
      assert (x' = x) as -> by congruence. rewrite E. by apply (sl_conn _ _ HI c y).
    + rewrite Em in Hx. apply lookup_insert_Some in Hx as [[<- <-]|[_ Hx]]; [done|by apply (sl_conn _ _ HI)].
  - simpl. assert (Forall (registered st') ads) as Hr by (eapply Forall_impl; [apply (sl_reg _ _ HI)|intros c; by apply registered_same]).
    destruct Hads as [->|(r & c & x & _ & Hx & Ec & Hcl & ->)]; [done|]. apply Forall_app. split; [done|]. apply Forall_singleton.
    apply (registered_same st); [done|]. assert (Cl_ptr c = r) as <- by (rewrite <- Ec; by apply (sl_conn _ _ HI)). exists x. split_and!; [done|done|by eapply Hopen].
  - intros j r c Hj. simpl in *. destruct (lookup_step _ _ _ _ _ _ _ Hi Hj) as [<-|[Hin|Hj']]; [by apply Ht1|by destruct (Ht3 r c)|].
    destruct (sl_adopt _ _ HI j r c Hj') as (x & Hx & E). destruct (Hso _ _ Hx) as (x' & Hx' & E' & _). exists x'. split; [done|congruence].
  - intros j s pf Hj. destruct (lookup_step _ _ _ _ _ _ _ Hi Hj) as [E|[Hin|Hj']]; [by destruct (Ht2 s pf)|by destruct (Ht4 s pf)|by eapply (sl_named _ _ HI)].
Qed.

Lemma remove_first_times c l r :
  times r (default l (remove_first c l)) ≤ times r l ∧ (times (Cl_ptr c) l ≤ 1 → ∀ c', c' ∈ default l (remove_first c l) → c' ∈ l ∧ (c ∈ l → Cl_ptr c' ≠ Cl_ptr c)).
Proof.
  pose proof (remove_first_spec c l) as Hs. destruct (remove_first c l) as [k|]; simpl; [|split; [lia|]; intros _ c' Hc'; split; [done|by intros ?]].
  destruct Hs as (l1 & l2 & -> & -> & _). rewrite !times_app. unfold times. simpl. split; [destruct (decide _); lia|].
  rewrite decide_True by done. intros H c' Hc'. split; [set_solver|]. intros _ E.
  assert (1 ≤ sumT (λ x, if decide (Cl_ptr x = Cl_ptr c) then 1 else 0) (l1 ++ l2)) as Hge.
  { apply list_elem_of_lookup in Hc' as [k Hk]. pose proof (sumT_ge (λ x, if decide (Cl_ptr x = Cl_ptr c) then 1 else 0) _ k c' ltac:(intros; simpl; by case_decide) Hk) as Hx.
    simpl in Hx. by rewrite decide_True in Hx. }
  rewrite sumT_app in Hge. lia.
Qed.

(** A call that finishes closing gives the slot of its client back. *)
Lemma slots_call st ts i t ch g t' ads :
  slots_inv (st, ts) ads → lf_calls st !! i = Some t → task_step ch (lf_gw st) t = Some (g, t') →
  ∃ ads', slots_inv (with_gw st g (<[i := t']> (lf_calls st)), ts) ads'.
Proof.
  intros HI Hi Ht. destruct (task_step_once _ _ _ _ _ Ht) as [[Hso Eu]|(c & x & Hx & Em & Eu)].
  - exists ads. destruct HI as [I1 I2 I3 I4 I5 I6 I7]. destruct (task_step_le _ _ _ _ _ Ht) as [Hle _]. split; simpl in *; try done.
    + unfold users. simpl. by rewrite Eu.
    + intros c x Hx. unfold conn_of in *. simpl in Hx. specialize (Hle c). destruct (g_conns (lf_gw st) !! c) as [y|] eqn:Ey; [|congruence].
      destruct Hle as (x' & Hx' & E & _). assert (x' = x) as -> by congruence. rewrite E. by apply (I4 c y).
    + eapply Forall_impl; [done|]. intros c. by apply registered_same.
    + intros j r c Hj. destruct (I6 j r c Hj) as (x & Hx & E). destruct (Hso _ _ Hx) as (x' & Hx' & E' & _). exists x'. split; [done|congruence].
  - destruct HI as [I1 I2 I3 I4 I5 I6 I7]. simpl in *. exists (default ads (remove_first (cn_client x) ads)).
    destruct (remove_first_times (cn_client x) ads 0) as [_ Hin]. rewrite (I4 c x Hx) in Hin.
    assert (times c ads ≤ 1) as Hone.
    { pose proof (I2 c) as H. unfold balance in H. pose proof (sum_nonneg (claims c) ts (claims_nonneg c)). unfold open in H.
      destruct (lf_res st !! c) as [y|]; [destruct (rs_settled y)|]; simpl in H; lia. }
    specialize (Hin Hone).
    assert (∀ c', conn_of (with_gw st g (<[i := t']> (lf_calls st))) c' = if decide (c' = c) then Some (set_once x Finished) else conn_of st c') as Hlk.
    { intros c'. unfold conn_of. simpl. rewrite Em. destruct (decide (c' = c)) as [->|]; [apply lookup_insert_eq|by rewrite lookup_insert_ne]. }
    split; simpl.
    + unfold users. simpl. rewrite Eu. by apply unregister_inv.
    + intros r. pose proof (I2 r). destruct (remove_first_times (cn_client x) ads r) as [? _]. lia.
    + intros r Hr. destruct (I3 r Hr) as [E1 E2]. split; [done|]. destruct (remove_first_times (cn_client x) ads r) as [? _].
      pose proof (sum_nonneg (λ x, if decide (Cl_ptr x = r) then 1 else 0) (default ads (remove_first (cn_client x) ads)) ltac:(intros; simpl; by case_decide)). unfold times in *. lia.
    + intros c' y. rewrite Hlk. destruct (decide (c' = c)) as [->|]; [|apply I4]. intros [= <-]. simpl. by apply I4.
    + apply Forall_forall. intros c' Hc'. destruct (Hin c' Hc') as [Hc'' Hne]. rewrite Forall_forall in I5. destruct (I5 c' Hc'') as (y & Hy & Ey & Ho).
      exists y. rewrite Hlk. destruct (decide (Cl_ptr c' = c)) as [E|]; [|done]. exfalso. assert (y = x) as -> by (unfold conn_of in Hy; congruence).
      rewrite Ey in Hne. by apply Hne.
    + intros j r cl Hj. destruct (I6 j r cl Hj) as (y & Hy & E). rewrite Hlk. destruct (decide (r = c)) as [->|]; [|eauto].
      exists (set_once x Finished). split; [done|]. simpl. assert (y = x) as -> by (unfold conn_of in Hy; congruence). done.
    + done.
Qed.

Lemma slots_step L b n n' ads : lnode_reachable node hasOnline hasBus sendQueue L b n → step n n' → slots_inv n ads → ∃ ads', slots_inv n' ads'.
Proof.
  intros Hr Hs HI. destruct Hs as [st ts i t ch g t' Hi Ht|st ts t He|st ts i t ch st' t' new Hi Ht|st ts t Ht|st ts Hw|st ts s Hst];
    try (exists ads; by destruct HI).
  - by eapply slots_call.
  - eapply slots_task; [|done|done|done]. intros c x. by apply (open_once L b (st, ts)).
  - exists ads. destruct HI as [I1 I2 I3 I4 I5 I6 I7]. simpl in *. assert (∀ r, claims r t = 0) as Hz by (intros r; by destruct t).
    assert (in_hand t = []) as Eh by (by destruct t).
    assert (∀ j u, (ts ++ [t]) !! j = Some u → u = t ∨ ts !! j = Some u) as Hl.
    { intros j u [?|[_ Hj]]%lookup_app_Some; [by right|left]. by apply list_lookup_singleton_Some in Hj as [_ <-]. }
    split; simpl; try done.
    + unfold pending in *. simpl in *. rewrite flat_map_app. simpl. by rewrite Eh, !app_nil_r.
    + intros r. specialize (I2 r). unfold balance in *. rewrite sumT_app. simpl. rewrite Hz. lia.
    + intros r Hn. destruct (I3 r Hn). split; [|done]. rewrite sumT_app. simpl. rewrite Hz. lia.
    + intros j r c Hj. destruct (Hl _ _ Hj) as [<-|?]; [done|by eapply I6].
    + intros j s pf Hj. destruct (Hl _ _ Hj) as [<-|?]; [|by eapply I7]. simpl in Ht. by apply negb_true_iff, String.eqb_neq in Ht.
Qed.

Lemma slots_reachable L b n : lnode_reachable node hasOnline hasBus sendQueue L b n → ∃ ads, slots_inv n ads.
Proof.
  intros [s Hs]. assert (∃ ads, slots_inv (newLife L b s, []) ads) as H0.
  { exists []. split; simpl; [apply NewUserMap_inv| |done|intros c x; unfold conn_of; simpl; by rewrite lookup_empty|by apply Forall_nil|intros i r c; by rewrite lookup_nil|
      intros i s0 pf; by rewrite lookup_nil].
    intros r. unfold balance, open. by rewrite lookup_empty. }
  apply (rtc_ind_r (λ n, ∃ ads, slots_inv n ads) (newLife L b s, [])) in Hs; [done|done|].
  intros n1 n2 H1 H2 [ads HI]. eapply slots_step; [exists s; exact H1|done|done].
Qed.
End Slots.
