(* ===== verification/LifecycleThms.v ===== *)
(** * What the life of the gateway guarantees

    Slots, presence registrations and shutdown, for every interleaving of the gateway's goroutines, and the PostgreSQL driver of the online store as an instance. *)

From S2P Require Import Prelude Errcode Strconv Json Store PgStore Conc RateLimit World OnlineStore UserMap SendQueue Lifecycle LifecycleInv PresenceRows ConnSlots.

Local Open Scope Z_scope.

(** ** The database driver

    A fault of 0 is success, of 1 a failure after the effect, anything else one before it. The chunks of [Renew] only touch rows that exist. *)

Definition db_call (fault : nat) (f : Db → Db) (d : Db) : bool * Db :=
  match fault with O => (true, f d) | 1%nat => (false, f d) | _ => (false, d) end.

Definition db_renew (now : Z) (node : string) (chunks : list (list string)) (d : Db) : Db := foldl (λ d ids, (RenewOnlineConns node ids now d).2) d chunks.

#[export] Instance dbOnline : OnlineOps Db := {
  regs d := map_to_set (λ id c, (OC_NodeId c, id)) (online d);
  ol_add fault now node c := db_call fault (λ d, (UpsertOnlineConn (mkOnlineConn (CR_ConnId c) (CR_UserId c) (i32 (CR_PlatformId c)) node now) d).2);
  ol_remove fault _ c := db_call fault (λ d, (DeleteOnlineConn (CR_ConnId c) d).2);
  ol_renew fault now node cs d :=
    let chunks := Chunk renewChunk (map CR_ConnId cs) in
    match fault with O => (Some [], db_renew now node chunks d) | Datatypes.S k => (None, db_renew now node (firstn k chunks) d) end;
  ol_purge fault node := db_call fault (λ d, (DeleteOnlineConnsByNode node d).2) }.

Lemma db_regs d nd id : (nd, id) ∈ regs d ↔ ∃ c, online d !! id = Some c ∧ OC_NodeId c = nd.
Proof. simpl. rewrite elem_of_map_to_set. split; [intros (i & c & Hc & [= <- <-]); eauto|intros (c & Hc & <-); eauto]. Qed.

Lemma db_call_regs fault f d x : (∀ d, x ∈ regs (f d) → x ∈ regs d) → x ∈ regs (db_call fault f d).2 → x ∈ regs d.
Proof. intros H. destruct fault as [|[|]]; [apply H|apply H|done]. Qed.

Lemma db_renew_regs now nd chunks d x : x ∈ regs (db_renew now nd chunks d) → x ∈ regs d.
Proof.
  revert d. induction chunks as [|ids chunks IH]; intros d; [done|]. intros H%IH. destruct x as [n id]. revert H. rewrite !db_regs.
  unfold RenewOnlineConns. case_match; [done|]. intros (c & Hc & E). apply lookup_fmap_Some in Hc as (c' & <- & Hc'). exists c'. split; [done|].
  by destruct (_ && _).
Qed.

#[export] Instance dbOnline_laws : OnlineLaws Db.
Proof.
  split.
  - intros fault now node c s [nd id] H. assert (∀ d, (nd, id) ∈ regs (UpsertOnlineConn (mkOnlineConn (CR_ConnId c) (CR_UserId c) (i32 (CR_PlatformId c)) node now) d).2 →
      (nd, id) ∈ regs d ∨ (nd, id) = (node, CR_ConnId c)) as Hf.
    { intros d. rewrite !db_regs. simpl. intros (r & Hr & <-). apply lookup_insert_Some in Hr as [[<- <-]|[_ Hr]]; [by right|left; eauto]. }
    destruct fault as [|[|]]; [by apply Hf|by apply Hf|by left].
  - intros fault node c s [nd id]. apply db_call_regs. intros d. rewrite !db_regs. simpl. intros (r & Hr & <-). apply lookup_delete_Some in Hr as [_ Hr]. eauto.
  - intros [|[|]] node c s; try done. intros _. rewrite db_regs. simpl. intros (r & Hr & _). by rewrite lookup_delete_eq in Hr.
  - intros [|k] now node cs s x H; left; exact (db_renew_regs _ _ _ _ _ H).
  - intros fault node s [nd id]. apply db_call_regs. intros d. rewrite !db_regs. simpl. intros (r & Hr & <-). apply map_lookup_filter_Some in Hr as [Hr _]. eauto.
  - intros [|[|]] node s c; try done. intros _. rewrite db_regs. simpl. intros (r & Hr & E). by apply map_lookup_filter_Some in Hr as [_ Hr].
Qed.

(** ** The theorems *)

Lemma Unregister_limits m c : um_limits (Unregister m c) = um_limits m.
Proof. rewrite Unregister_eq. by destruct (remove_first _ _). Qed.

(** The limits of the registry are those it was made with. *)
Lemma node_limits L b n : node_reachable L b n → um_limits (g_users n.1) = L.
Proof.
  apply (node_invariant (λ n, um_limits (g_users n.1) = L)); [done|]. intros n1 n2 Hs HI.
  destruct Hs as [g ts i t ch g' t' Hi Ht|g ts t He|g ts c q Hn|g ts c x Hx|g ts u E _|g ts c x Hx Hv|g ts down]; simpl in *; try done.
  - destruct (task_step_le _ _ _ _ _ Ht) as [_ [->|(c & x & _ & ->)]]; [done|by rewrite Unregister_limits].
  - rewrite (proj1 (adopt_kept (g_users g) (cn_client x) (cn_closed x))). done.
  - congruence.
Qed.

Section LifeThms.
Context {S : Type} `{OL : OnlineOps S} `{!OnlineLaws S}.
Variables (node : string) (hasOnline hasBus : bool) (sendQueue : nat) (L : LimitsConfig) (bytesTotal : Z).

Notation lstep := (ltask_step node hasOnline hasBus sendQueue).
Notation step := (life_step node hasOnline hasBus sendQueue).
Notation reachable := (lnode_reachable node hasOnline hasBus sendQueue L bytesTotal).

Lemma reachable_later n n' : reachable n → rtc step n n' → reachable n'.
Proof. intros [s Hs] Hr. exists s. by etransitivity. Qed.

(** A removed registration is remembered, and connections keep their ids. *)
Lemma gone_step n n' c x :
  rows_inv node n → step n n' → conn_of n.1 c = Some x → gone n.1 c = true →
  gone n'.1 c = true ∧ ∃ x', conn_of n'.1 c = Some x' ∧ cn_client x' = cn_client x.
Proof.
  intros HI Hs Hx Hg. destruct Hs as [st ts i t ch g t' Hi Ht|st ts t He|st ts i t ch st' t' new Hi Ht|st ts t Ht|st ts Hw|st ts s Hr]; try (split; [done|by exists x]).
  - split; [done|]. destruct (task_step_le _ _ _ _ _ Ht) as [Hle _]. specialize (Hle c). unfold conn_of in *. simpl in *. rewrite Hx in Hle.
    destruct Hle as (x' & Hx' & E & _). by exists x'.
  - split.
    + destruct (ltask_gone _ _ _ _ _ _ _ _ _ _ Ht (ri_ext _ _ HI)) as [E|(c0 & e & _ & _ & E)]; simpl in *; [by rewrite E|].
      unfold gone in *. rewrite E. destruct (decide (c = c0)) as [->|]; [by rewrite lookup_insert_eq|by rewrite lookup_insert_ne].
    + destruct (ltask_conns _ _ _ _ _ _ _ _ _ _ Ht) as [Hle|(cl & Hn & _ & Em & _)]; unfold conn_of in *; simpl in *.
      * specialize (Hle c). rewrite Hx in Hle. destruct Hle as (x' & Hx' & E & _). by exists x'.
      * exists x. rewrite Em, lookup_insert_ne; [done|]. intros <-. congruence.
Qed.

Lemma gone_later n n' c x :
  rtc step n n' → reachable n → conn_of n.1 c = Some x → gone n.1 c = true → (node, Cl_Id (cn_client x)) ∉ regs (lf_store n'.1).
Proof.
  intros Hs. revert x. induction Hs as [n|n n1 n2 Hs _ IH]; intros x Hr Hx Hg.
  - by apply (ri_gone _ _ (rows_reachable _ _ _ _ _ _ _ Hr) c x Hx).
  - destruct (gone_step _ _ _ _ (rows_reachable _ _ _ _ _ _ _ Hr) Hs Hx Hg) as (Hg' & x' & Hx' & <-). apply IH; [|done|done].
    eapply reachable_later; [done|]. by apply rtc_once.
Qed.

(** C26: a registration that was removed never comes back: once the call of [Remove] for a connection has succeeded, the online store holds no registration of
    that connection on this node, whatever registrations, retries and renewals race with the removal. *)
Theorem presence_removed st ts i c x ch st' new n :
  reachable (st, ts) → ts !! i = Some (LRemoveCall c) → conn_of st c = Some x →
  lstep ch st (LRemoveCall c) = Some (st', LRemoveUnlock c true, new) → rtc step (st', <[i := LRemoveUnlock c true]> ts ++ new) n →
  (node, Cl_Id (cn_client x)) ∉ regs (lf_store n.1).
Proof.
  intros Hr Hi Hx Ht Hs. assert (step (st, ts) (st', <[i := LRemoveUnlock c true]> ts ++ new)) as H1 by (by eapply lv_task).
  assert (conn_of st' c = Some x ∧ gone st' c = true) as [Hx' Hg].
  { clear H1 Hs. remember (LRemoveUnlock c true) as t1 eqn:E1. unfold gone. life_cases Ht; [|discriminate E1]. simpl. rewrite lookup_insert_eq. split; [|done]. unfold conn_of in *. simpl. congruence. }
  eapply gone_later; [done|eapply reachable_later; [done|by apply rtc_once]|done|done].
Qed.

Lemma purged_step n n' : step n n' → lf_purged n.1 = true → lf_purged n'.1 = true.
Proof. intros Hs H. destruct Hs as [| |st ts i t ch st' t' new Hi Ht| | |]; try done. simpl in *. destruct t; life_cases Ht; simpl; rewrite ?H; done. Qed.

Lemma purged_later n n' : rtc step n n' → lf_purged n.1 = true → lf_purged n'.1 = true.
Proof. induction 1; eauto using purged_step. Qed.


End LifeThms.

(** ** A run

    A client connects, is registered, leaves and is removed; then the node shuts down. *)

Inductive Move := MCall (i : nat) (ch : Choice) | MTask (i : nat) (ch : LChoice) | MStart (t : LTask).

Section Play.
Context {S : Type} `{OL : OnlineOps S}.
Variables (node : string) (hasOnline hasBus : bool) (sendQueue : nat).

Definition move (n : Life S * list LTask) (m : Move) : option (Life S * list LTask) :=
  let '(st, ts) := n in
  match m with
  | MCall i ch => t ← lf_calls st !! i; '(g, t') ← task_step ch (lf_gw st) t; Some (with_gw st g (<[i := t']> (lf_calls st)), ts)
  | MTask i ch => t ← ts !! i; '(st', t', new) ← ltask_step node hasOnline hasBus sendQueue ch st t; Some (st', <[i := t']> ts ++ new)
  | MStart t => if starts st t then Some (st, ts ++ [t]) else None
  end.

Fixpoint moves (n : Life S * list LTask) (ms : list Move) : option (Life S * list LTask) :=
  match ms with [] => Some n | m :: ms => match move n m with Some n' => moves n' ms | None => None end end.

Lemma move_step n m n' : move n m = Some n' → life_step node hasOnline hasBus sendQueue n n'.
Proof.
  destruct n as [st ts], m as [i ch|i ch|t]; simpl.
  - destruct (lf_calls st !! i) as [t|] eqn:E; simpl; [|done]. destruct (task_step ch (lf_gw st) t) as [[g t']|] eqn:E'; simpl; [|done]. intros [= <-]. by eapply lv_call.
  - destruct (ts !! i) as [t|] eqn:E; simpl; [|done]. destruct (ltask_step _ _ _ _ ch st t) as [[[st' t'] new]|] eqn:E'; simpl; [|done]. intros [= <-]. by eapply lv_task.
  - destruct (starts st t) eqn:E; [|done]. intros [= <-]. by apply lv_start.
Qed.

Lemma moves_steps ms n n' : moves n ms = Some n' → rtc (life_step node hasOnline hasBus sendQueue) n n'.
Proof.
  revert n. induction ms as [|m ms IH]; intros n; simpl; [by intros [= <-]|]. destruct (move n m) as [n1|] eqn:E; [|done]. intros H.
  eapply rtc_l; [by eapply move_step|by apply IH].
Qed.
End Play.

Definition pick (go : bool) : LChoice := mkLChoice false go 0 1000 1 "c1".
Definition quietly : Choice := mkChoice "op" 0 false.

Definition demoStart : Life Db * list LTask := (newLife demoLimits 1000 emptyDb, []).

Definition connect : list Move :=
  MStart (LReserve (mkSlot "alice" "t1" "10.0.0.1") 1) :: repeat (MTask 0 (pick true)) 22 ++ [MTask 0 (pick false)] ++ [MTask 0 (pick true)] ++
  repeat (MCall 1 quietly) 6 ++ repeat (MTask 0 (pick true)) 4 ++ [MTask 2 (pick true)].

Definition leave : list Move :=
  repeat (MTask 2 (pick true)) 5 ++ [MCall 0 quietly] ++ repeat (MTask 0 (pick true)) 2 ++ repeat (MTask 1 (pick true)) 2.

Definition stop : list Move := MStart LShutdown :: repeat (MTask 3 (pick true)) 12.

Definition demoAt (ms : list Move) : Life Db * list LTask := default demoStart (moves "n1" true true 4 demoStart ms).

Definition runs (ms : list Move) : bool := match moves "n1" true true 4 demoStart ms with Some _ => true | None => false end.

Lemma demo_life_reachable ms : runs ms = true → lnode_reachable "n1" true true 4 demoLimits 1000 (demoAt ms).
Proof. unfold runs, demoAt. destruct (moves _ _ _ _ _ ms) as [n|] eqn:E; [|done]. intros _. exists emptyDb. by eapply moves_steps. Qed.

Lemma moves_app ms ms' n : moves "n1" true true 4 n (ms ++ ms') = match moves "n1" true true 4 n ms with Some n' => moves "n1" true true 4 n' ms' | None => None end.
Proof. revert n. induction ms as [|m ms IH]; intros n; simpl; [done|]. by destruct (move _ _ _ _ n m). Qed.

Lemma demo_later ms ms' : runs (ms ++ ms') = true → rtc (life_step "n1" true true 4) (demoAt ms) (demoAt (ms ++ ms')).
Proof.
  unfold runs, demoAt. rewrite moves_app. destruct (moves _ _ _ _ _ ms) as [n|]; [|done]. simpl.
  destruct (moves _ _ _ _ n ms') as [n'|] eqn:E; [|done]. intros _. by eapply moves_steps.
Qed.

Definition demoConn : Conn := default (newClient (demoClient 0) 0) (conn_of (demoAt connect).1 1).
Definition removal : list Move := connect ++ [MTask 2 (pick true)].

(** The row exists when the call of [Remove] is about to be made, and its removal is final. *)
Lemma presence_removed_witness :
  ("n1"%string, "c1"%string) ∈ regs (lf_store (demoAt connect).1) ∧ Cl_Id (cn_client demoConn) = "c1"%string ∧
  ("n1"%string, Cl_Id (cn_client demoConn)) ∉ regs (lf_store (demoAt (removal ++ skipn 1 leave ++ stop)).1).
Proof.
  split; [apply (bool_decide_eq_true_1 _); vm_compute; reflexivity|]. split; [vm_compute; reflexivity|].
  apply (presence_removed "n1" true true 4 demoLimits 1000 (demoAt connect).1 (demoAt connect).2 2 1 demoConn (pick true) (demoAt removal).1 []).
  - rewrite <- surjective_pairing. apply demo_life_reachable. vm_compute. reflexivity.
  - vm_compute. reflexivity.
  - vm_compute. reflexivity.
  - vm_compute. reflexivity.
  - assert (((demoAt removal).1, <[2%nat := LRemoveUnlock 1 true]> (demoAt connect).2 ++ []) = demoAt removal) as -> by (vm_compute; reflexivity).
    apply demo_later. vm_compute. reflexivity.
Defined.

Definition whole : list Move := connect ++ leave ++ stop.


