(* ===== verification/RedisOnline.v ===== *)
(** * The connection registry in Redis ([internal/onlinestore/redis/redis.go])

    A user's connections are the members of a sorted set, scored with the second they expire at; the key itself expires after twice
    the time to live. The commands in use are written out on a table of keys. Times are nanoseconds of one clock; a call reads it
    at [now], and the server runs a command at some later [at]. *)

From S2P Require Import Prelude Errcode Strconv Identity Store PgStore Conc RateLimit World OnlineStore.

Local Open Scope Z_scope.

(** ** Redis: sorted sets with an expiry *)

Record ZKey := mkZKey { z_members : gmap string Z; z_exp : option Z }.

Abbreviation Redis := (gmap string ZKey).

(** A key as the server sees it at a time. *)
Definition zlive (at_ : Z) (k : string) (db : Redis) : option ZKey :=
  match db !! k with
  | Some z => match z_exp z with Some e => if at_ <=? e then Some z else None | None => Some z end
  | None => None
  end.

Definition zmembers (at_ : Z) (k : string) (db : Redis) : gmap string Z := match zlive at_ k db with Some z => z_members z | None => ∅ end.

(** A key without members does not exist. *)
Definition put (k : string) (ms : gmap string Z) (e : option Z) (db : Redis) : Redis :=
  if decide (ms = ∅) then delete k db else <[k := mkZKey ms e]> db.

Definition zexp (at_ : Z) (k : string) (db : Redis) : option Z := match zlive at_ k db with Some z => z_exp z | None => None end.

(** The reply counts the members that were created. *)
Definition ZAdd (at_ : Z) (k m : string) (score : Z) (db : Redis) : Z * Redis :=
  let ms := zmembers at_ k db in
  (match ms !! m with Some _ => 0 | None => 1 end, put k (<[m := score]> ms) (zexp at_ k db) db).

Definition Expire (at_ : Z) (k : string) (seconds : Z) (db : Redis) : Redis :=
  match zlive at_ k db with Some z => put k (z_members z) (Some (at_ + seconds * Second)) db | None => db end.

Definition ZRem (at_ : Z) (k m : string) (db : Redis) : Redis := put k (delete m (zmembers at_ k db)) (zexp at_ k db) db.

(** [-inf] to an exclusive bound. *)
Definition ZRemRangeByScore (at_ : Z) (k : string) (cutoff : Z) (db : Redis) : Redis :=
  put k (filter (λ ms : string * Z, cutoff ≤ ms.2) (zmembers at_ k db)) (zexp at_ k db) db.

(** By score, then by member. *)
Definition zle (a b : string * Z) : Prop := a.2 < b.2 ∨ a.2 = b.2 ∧ String.leb a.1 b.1 = true.
#[local] Instance zle_dec : RelDecision zle.
Proof. intros a b. unfold zle. apply _. Defined.

Definition ZRangeByScore (at_ : Z) (k : string) (min : Z) (db : Redis) : list string :=
  map fst (merge_sort zle (map_to_list (filter (λ ms : string * Z, min ≤ ms.2) (zmembers at_ k db)))).

(** ** The driver *)

Definition Unix (t : Z) : Z := t / Second.

(** What go-redis makes of the duration of an expiry. *)
Definition formatSec (d : Z) : Z := if (0 <? d) && (d <? Second) then 1 else Z.quot d Second.

Definition key (userId : string) : string := "nexo:online:" +:+ userId.

Definition member (nodeId : string) (c : ConnRef) : string := FormatInt (CR_PlatformId c) +:+ ":" +:+ nodeId +:+ ":" +:+ CR_ConnId c.

Section Driver.
Variable ttl : Z.

(** [Add]: both commands in one transaction. *)
Definition Add (now at_ : Z) (nodeId : string) (c : ConnRef) (db : Redis) : Redis :=
  let k := key (CR_UserId c) in
  Expire at_ k (formatSec (2 * ttl)) (ZAdd at_ k (member nodeId c) (Unix (now + ttl)) db).2.

Definition Remove (at_ : Z) (nodeId : string) (c : ConnRef) (db : Redis) : Redis := ZRem at_ (key (CR_UserId c)) (member nodeId c) db.

(** The commands of [Renew] for one connection, and the reply of its [ZAdd]. *)
Definition renew_one (now at_ : Z) (nodeId : string) (c : ConnRef) (db : Redis) : Z * Redis :=
  let k := key (CR_UserId c) in
  let '(n, db) := ZAdd at_ k (member nodeId c) (Unix (now + ttl)) (ZRemRangeByScore at_ k (Unix now) db) in
  (n, Expire at_ k (formatSec (2 * ttl)) db).

(** [Renew]: the pipeline in order, the commands for a connection back to back at the time beside it. *)
Fixpoint Renew (now : Z) (nodeId : string) (conns : list (ConnRef * Z)) (db : Redis) : list ConnRef * Redis :=
  match conns with
  | [] => ([], db)
  | (c, at_) :: rest =>
      let '(n, db) := renew_one now at_ nodeId c db in
      let '(revived, db) := Renew now nodeId rest db in
      (if 0 <? n then c :: revived else revived, db)
  end.

(** The platform a member starts with, added once. *)
Definition addMember (id : string) (out : gmap string (list Z)) (m : string) : gmap string (list Z) :=
  let p := match Cut m ":"%char with Some (p, _) => p | None => m end in
  match ParseInt p with
  | Some platform => if bool_decide (platform ∈ platforms out id) then out else <[id := platforms out id ++ [platform]]> out
  | None => out
  end.

(** [Online]: one range per user, on what the server holds at the time it runs. *)
Definition Online (now : Z) (users : list (string * (Z * Redis))) : gmap string (list Z) :=
  foldl (λ out '(id, (at_, db)), foldl (addMember id) out (ZRangeByScore at_ (key id) (Unix now) db)) ∅ users.

(** Entries expire on their own. *)
Definition PurgeNode (nodeId : string) (db : Redis) : Redis := db.
End Driver.

(** ** Lemmas on the commands *)

Definition unexpired (at_ : Z) (e : option Z) : bool := match e with Some e => at_ <=? e | None => true end.

Lemma zlive_alt at_ k db : zlive at_ k db = match db !! k with Some z => if unexpired at_ (z_exp z) then Some z else None | None => None end.
Proof. unfold zlive. destruct (db !! k) as [[ms [e|]]|]; done. Qed.

Lemma zlive_put at_ k ms e db :
  zlive at_ k (put k ms e db) = if decide (ms = ∅) then None else if unexpired at_ e then Some (mkZKey ms e) else None.
Proof.
  rewrite zlive_alt. unfold put. destruct (decide (ms = ∅)); [by rewrite lookup_delete_eq|by rewrite lookup_insert_eq].
Qed.

Lemma zlive_put_ne at_ k k' ms e db : k ≠ k' → zlive at_ k' (put k ms e db) = zlive at_ k' db.
Proof. intros H. rewrite !zlive_alt. unfold put. destruct (decide (ms = ∅)); [by rewrite lookup_delete_ne|by rewrite lookup_insert_ne]. Qed.

Lemma zexp_unexpired at_ k db : unexpired at_ (zexp at_ k db) = true.
Proof. unfold zexp. rewrite zlive_alt. destruct (db !! k) as [z|]; [|done]. by destruct (unexpired at_ (z_exp z)) eqn:E. Qed.

Lemma zmembers_put at_ k ms db : zmembers at_ k (put k ms (zexp at_ k db) db) = ms.
Proof. unfold zmembers. rewrite zlive_put, zexp_unexpired. destruct (decide (ms = ∅)) as [->|]; done. Qed.

Lemma Unix_mono t t' : t ≤ t' → Unix t ≤ Unix t'.
Proof. intros H. unfold Unix. apply Z.div_le_mono; [done|lia]. Qed.

Lemma rkey_inj u u' : key u = key u' → u = u'.
Proof. unfold key. intros H. by simplify_eq. Qed.

Lemma formatSec_enough ttl : 0 < ttl → ttl ≤ formatSec (2 * ttl) * Second.
Proof.
  intros H. unfold formatSec, Second. destruct (Z.ltb_spec 0 (2 * ttl)); [|lia]. simpl. destruct (Z.ltb_spec (2 * ttl) 1000000000); [lia|].
  Z.to_euclidean_division_equations; lia.
Qed.

(** A write of one member, after the trimming of some that had expired. *)
Lemma write_live ttl at_ k m score ms' db db0 :
  0 < ttl → zmembers at_ k db0 = ms' → (∀ k', k ≠ k' → zlive at_ k' db0 = zlive at_ k' db) →
  let db2 := Expire at_ k (formatSec (2 * ttl)) (ZAdd at_ k m score db0).2 in
  zlive at_ k db2 = Some (mkZKey (<[m := score]> ms') (Some (at_ + formatSec (2 * ttl) * Second))) ∧ ∀ k', k ≠ k' → zlive at_ k' db2 = zlive at_ k' db.
Proof.
  intros Ht Hm Hne. pose proof (formatSec_enough ttl Ht) as Hf. unfold ZAdd. rewrite Hm. cbn [snd].
  assert (<[m := score]> ms' ≠ ∅) as Hn by apply insert_non_empty.
  assert (zlive at_ k (put k (<[m:=score]> ms') (zexp at_ k db0) db0) = Some (mkZKey (<[m:=score]> ms') (zexp at_ k db0))) as E.
  { rewrite zlive_put, zexp_unexpired. by rewrite decide_False. }
  unfold Expire. rewrite E. cbn [z_members]. split.
  - rewrite zlive_put, decide_False by done. simpl. by destruct (Z.leb_spec at_ (at_ + formatSec (2 * ttl) * Second)); [|lia].
  - intros k' Hk. by rewrite !zlive_put_ne, Hne.
Qed.

(** ** Registrations *)

(** When each connection of a user was last added or renewed, by the caller's clock. *)
Abbreviation Regs := (gmap (string * string) Z).

Definition int64 (n : Z) : Prop := minInt64 ≤ n ≤ maxInt64.

Section Registrations.
Variable ttl : Z.
Hypothesis ttl_pos : 0 < ttl.

(** The history of a server: the time it has reached, its keys, and the registrations made. *)
Definition St : Type := Z * Redis * Regs.

Inductive step : St → St → Prop :=
| step_add T db R now at_ node c : T ≤ at_ → now ≤ at_ → int64 (CR_PlatformId c) →
    step (T, db, R) (at_, Add ttl now at_ node c db, <[(CR_UserId c, member node c) := now]> R)
| step_remove T db R at_ node c : T ≤ at_ →
    step (T, db, R) (at_, Remove at_ node c db, delete (CR_UserId c, member node c) R)
| step_renew T db R now at_ node c : T ≤ at_ → now ≤ at_ → int64 (CR_PlatformId c) →
    step (T, db, R) (at_, (renew_one ttl now at_ node c db).2, <[(CR_UserId c, member node c) := now]> R).

Definition history (s : St) : Prop := ∃ T, rtc step (T, ∅, ∅) s.

Record Inv (s : St) : Prop := {
  inv_made u m x : zmembers s.1.1 (key u) s.1.2 !! m = Some x → ∃ t, s.2 !! (u, m) = Some t ∧ x = Unix (t + ttl);
  inv_kept u m t : s.2 !! (u, m) = Some t → s.1.1 ≤ t + ttl → zmembers s.1.1 (key u) s.1.2 !! m = Some (Unix (t + ttl));
  inv_key u m t e : s.2 !! (u, m) = Some t → zexp s.1.1 (key u) s.1.2 = Some e → t + ttl ≤ e;
  inv_past u m t : s.2 !! (u, m) = Some t → t ≤ s.1.1;
  inv_form u m t : s.2 !! (u, m) = Some t → ∃ node c, m = member node c ∧ int64 (CR_PlatformId c) }.

(** Time passes: keys expire, but none that holds a registration in its time to live. *)
Lemma Inv_wait T db R T' : Inv (T, db, R) → T ≤ T' → Inv (T', db, R).
Proof.
  intros [H1 H2 H3 H4 H5] Ht. simpl in *.
  assert (∀ u, zlive T' (key u) db = zlive T (key u) db ∨ zlive T' (key u) db = None ∧ ∃ e, zexp T (key u) db = Some e ∧ e < T' ∨ zlive T' (key u) db = None ∧ zlive T (key u) db = None) as Hl.
  { intros u. unfold zexp. rewrite !zlive_alt. destruct (db !! key u) as [[ms [e|]]|]; simpl; [|by left..].
    destruct (Z.leb_spec T' e); [left; by destruct (Z.leb_spec T e); [|lia]|]. destruct (Z.leb_spec T e); [|by left].
    right. split; [done|]. exists e. left. by split. }
  constructor; simpl.
  - intros u m x. destruct (Hl u) as [E|[E _]]; unfold zmembers; rewrite E; [apply H1|by rewrite lookup_empty].
  - intros u m t Hr Hle. pose proof (H2 u m t Hr ltac:(lia)) as Hm. unfold zmembers in *. destruct (Hl u) as [E|[E [e [[He Hlt]|[_ E']]]]]; rewrite E; [done| |].
    + pose proof (H3 u m t e Hr He). lia.
    + by rewrite E', lookup_empty in Hm.
  - intros u m t e Hr. unfold zexp. destruct (Hl u) as [E|[E _]]; rewrite E; [exact (H3 u m t e Hr)|done].
  - intros u m t Hr. specialize (H4 u m t Hr). lia.
  - exact H5.
Qed.

Lemma Inv_write T db R now u m ms' db0 :
  Inv (T, db, R) → now ≤ T → (∃ node c, m = member node c ∧ int64 (CR_PlatformId c)) →
  zmembers T (key u) db0 = ms' → (∀ k', key u ≠ k' → zlive T k' db0 = zlive T k' db) →
  (∀ m' x, ms' !! m' = Some x → zmembers T (key u) db !! m' = Some x) →
  (∀ m' x, zmembers T (key u) db !! m' = Some x → Unix now ≤ x → ms' !! m' = Some x) →
  Inv (T, Expire T (key u) (formatSec (2 * ttl)) (ZAdd T (key u) m (Unix (now + ttl)) db0).2, <[(u, m) := now]> R).
Proof.
  intros [H1 H2 H3 H4 H5] Hn Hform Hm Hne Hsub Hkeep. destruct (write_live ttl T (key u) m (Unix (now + ttl)) ms' db db0 ttl_pos Hm Hne) as [E Eo].
  set (db2 := Expire _ _ _ _) in *. pose proof (formatSec_enough ttl ttl_pos) as Hf. simpl in *.
  assert (∀ u', u' ≠ u → zmembers T (key u') db2 = zmembers T (key u') db ∧ zexp T (key u') db2 = zexp T (key u') db) as Ho.
  { intros u' Hu. unfold zmembers, zexp. rewrite Eo; [done|]. intros Hk. by apply rkey_inj in Hk. }
  assert (zmembers T (key u) db2 = <[m := Unix (now + ttl)]> ms' ∧ zexp T (key u) db2 = Some (T + formatSec (2 * ttl) * Second)) as [Em Ee]
    by (unfold zmembers, zexp; by rewrite E).
  assert (∀ u' m' t, <[(u, m) := now]> R !! (u', m') = Some t → u' = u ∧ m' = m ∧ t = now ∨ (u, m) ≠ (u', m') ∧ R !! (u', m') = Some t) as HR.
  { intros u' m' t. destruct (decide ((u, m) = (u', m'))) as [[= <- <-]|Hd]; [rewrite lookup_insert_eq; intros [= <-]; auto|rewrite lookup_insert_ne by done; auto]. }
  constructor; simpl.
  - intros u' m' x. destruct (decide (u' = u)) as [->|Hu].
    + rewrite Em. destruct (decide (m' = m)) as [->|Hm'].
      * rewrite lookup_insert_eq. intros [= <-]. exists now. by rewrite lookup_insert_eq.
      * rewrite lookup_insert_ne by done. intros Hx. destruct (H1 _ _ _ (Hsub _ _ Hx)) as (t & ? & ?). exists t. by rewrite lookup_insert_ne by congruence.
    + destruct (Ho u' Hu) as [-> _]. intros Hx. destruct (H1 _ _ _ Hx) as (t & ? & ?). exists t. by rewrite lookup_insert_ne by congruence.
  - intros u' m' t [(-> & -> & ->)|[Hd Hr]]%HR Hle; [rewrite Em; by rewrite lookup_insert_eq|]. destruct (decide (u' = u)) as [->|Hu].
    + rewrite Em, lookup_insert_ne by congruence. apply Hkeep; [by apply H2|]. apply Unix_mono. lia.
    + destruct (Ho u' Hu) as [-> _]. by apply H2.
  - intros u' m' t e HR' He. destruct (decide (u' = u)) as [->|Hu].
    + rewrite Ee in He. injection He as <-. apply HR in HR' as [(_ & _ & ->)|[_ Hr]]; [lia|]. specialize (H4 _ _ _ Hr). lia.
    + destruct (Ho u' Hu) as [_ E']. rewrite E' in He. apply HR in HR' as [(-> & _ & _)|[_ Hr]]; [done|]. by eapply H3.
  - intros u' m' t [(-> & -> & ->)|[Hd Hr]]%HR; [done|by eapply H4].
  - intros u' m' t [(-> & -> & ->)|[Hd Hr]]%HR; [done|by eapply H5].
Qed.

Lemma zlive_remove T k m db :
  zmembers T k (ZRem T k m db) = delete m (zmembers T k db) ∧
  (∀ e, zexp T k (ZRem T k m db) = Some e → zexp T k db = Some e) ∧
  ∀ k', k ≠ k' → zlive T k' (ZRem T k m db) = zlive T k' db.
Proof.
  unfold ZRem. split_and!; [apply zmembers_put| |intros k' Hk; by apply zlive_put_ne].
  intros e. unfold zexp at 1. rewrite zlive_put, zexp_unexpired. by destruct (decide _).
Qed.

Lemma Inv_step s s' : Inv s → step s s' → Inv s'.
Proof.
  intros HI Hs. destruct Hs as [T db R now at_ node c HT Hn Hp|T db R at_ node c HT|T db R now at_ node c HT Hn Hp];
    apply (Inv_wait _ _ _ at_) in HI; try done.
  - eapply Inv_write; eauto.
  - destruct HI as [H1 H2 H3 H4 H5]. destruct (zlive_remove at_ (key (CR_UserId c)) (member node c) db) as (E1 & E2 & E3). unfold Remove in *. simpl in *.
    set (db' := ZRem _ _ _ _) in *. set (u0 := CR_UserId c) in *. set (m0 := member node c) in *.
    assert (∀ u, u ≠ u0 → zmembers at_ (key u) db' = zmembers at_ (key u) db ∧ zexp at_ (key u) db' = zexp at_ (key u) db) as Ho.
    { intros u Hu. unfold zmembers, zexp. rewrite E3; [done|]. intros Hk. by apply rkey_inj in Hk. }
    constructor; simpl.
    + intros u m x. destruct (decide (u = u0)) as [->|Hu].
      * rewrite E1. intros [Hm Hx]%lookup_delete_Some. destruct (H1 _ _ _ Hx) as (t & ? & ?). exists t. by rewrite lookup_delete_ne by congruence.
      * destruct (Ho u Hu) as [-> _]. intros Hx. destruct (H1 _ _ _ Hx) as (t & ? & ?). exists t. by rewrite lookup_delete_ne by congruence.
    + intros u m t [Hd Hr]%lookup_delete_Some Hle. specialize (H2 _ _ _ Hr Hle). destruct (decide (u = u0)) as [->|Hu].
      * rewrite E1, lookup_delete_ne by congruence. done.
      * by destruct (Ho u Hu) as [-> _].
    + intros u m t e [Hd Hr]%lookup_delete_Some He. destruct (decide (u = u0)) as [->|Hu]; [by eapply H3; [|apply E2]|].
      destruct (Ho u Hu) as [_ E]. rewrite E in He. by eapply H3.
    + intros u m t [_ Hr]%lookup_delete_Some. by eapply H4.
    + intros u m t [_ Hr]%lookup_delete_Some. by eapply H5.
  - unfold renew_one. destruct (ZAdd _ _ _ _ _) as [n db1] eqn:Ez. simpl.
    replace db1 with (ZAdd at_ (key (CR_UserId c)) (member node c) (Unix (now + ttl)) (ZRemRangeByScore at_ (key (CR_UserId c)) (Unix now) db)).2 by (by rewrite Ez).
    eapply Inv_write; [exact HI|done|eauto|apply zmembers_put|intros k' Hk; by apply zlive_put_ne| |].
    + intros m x [Hx _]%map_lookup_filter_Some. done.
    + intros m x Hx Hle. by apply map_lookup_filter_Some.
Qed.

Lemma history_Inv s : history s → Inv s.
Proof.
  intros [T H]. assert (Inv (T, ∅, ∅)) as H0.
  { constructor; simpl; intros *; by rewrite lookup_empty. }
  revert H0. induction H; [done|]. eauto using Inv_step.
Qed.
End Registrations.

(** ** What is read *)

Definition platform_of (m : string) : option Z := ParseInt (match Cut m ":"%char with Some (p, _) => p | None => m end).

Lemma platform_of_member node c : int64 (CR_PlatformId c) → platform_of (member node c) = Some (CR_PlatformId c).
Proof.
  intros H. unfold platform_of, member. change (":" +:+ node +:+ ":" +:+ CR_ConnId c) with (String.String ":" (node +:+ ":" +:+ CR_ConnId c)).
  rewrite Cut_app by (by apply FormatInt_no_colon). by apply ParseInt_FormatInt.
Qed.

Lemma ZRange_in at_ k min db m : m ∈ ZRangeByScore at_ k min db ↔ ∃ x, zmembers at_ k db !! m = Some x ∧ min ≤ x.
Proof.
  unfold ZRangeByScore. rewrite list_elem_of_fmap. setoid_rewrite merge_sort_Permutation. split.
  - intros ([m' x] & -> & Hin%elem_of_map_to_list). apply map_lookup_filter_Some in Hin as [H1 H2]. by exists x.
  - intros (x & H1 & H2). exists (m, x). split; [done|]. apply elem_of_map_to_list, map_lookup_filter_Some. done.
Qed.

Lemma addMember_spec id out m :
  (∀ u, NoDup (platforms out u)) → (∀ u, NoDup (platforms (addMember id out m) u)) ∧
  ∀ u p, p ∈ platforms (addMember id out m) u ↔ p ∈ platforms out u ∨ u = id ∧ platform_of m = Some p.
Proof.
  intros Hnd. unfold addMember. fold (platform_of m). destruct (platform_of m) as [q|]; [|split; [done|naive_solver]].
  case_bool_decide as Hq; [split; [done|naive_solver]|]. split.
  - intros u. unfold platforms at 1. destruct (decide (id = u)) as [<-|Hu]; [|rewrite lookup_insert_ne by done; apply Hnd]. rewrite lookup_insert_eq. simpl.
    apply NoDup_app. split_and!; [apply Hnd| |apply NoDup_singleton]. intros x Hx Hx'. apply list_elem_of_singleton in Hx'. by subst.
  - intros u p. unfold platforms at 1. destruct (decide (id = u)) as [<-|Hu].
    + rewrite lookup_insert_eq. simpl. rewrite elem_of_app, list_elem_of_singleton. naive_solver.
    + rewrite lookup_insert_ne by done. unfold platforms. naive_solver.
Qed.

Lemma addMembers_spec id ms out :
  (∀ u, NoDup (platforms out u)) → (∀ u, NoDup (platforms (foldl (addMember id) out ms) u)) ∧
  ∀ u p, p ∈ platforms (foldl (addMember id) out ms) u ↔ p ∈ platforms out u ∨ u = id ∧ ∃ m, m ∈ ms ∧ platform_of m = Some p.
Proof.
  revert out. induction ms as [|m ms IH]; intros out Hnd; simpl; [split; [done|]; set_solver|].
  destruct (addMember_spec id out m Hnd) as [H1 H2]. destruct (IH _ H1) as [H3 H4]. split; [done|]. intros u p. rewrite H4, H2. setoid_rewrite elem_of_cons. naive_solver.
Qed.

(** The platforms a user is online on: each once, those of the members in range. *)
Lemma Online_spec now users : ∀ out, (∀ u, NoDup (platforms out u)) →
  let r := foldl (λ out '(id, (at_, db)), foldl (addMember id) out (ZRangeByScore at_ (key id) (Unix now) db)) out users in
  (∀ u, NoDup (platforms r u)) ∧
  ∀ u p, p ∈ platforms r u ↔ p ∈ platforms out u ∨
    ∃ at_ db m, (u, (at_, db)) ∈ users ∧ m ∈ ZRangeByScore at_ (key u) (Unix now) db ∧ platform_of m = Some p.
Proof.
  induction users as [|[id [at_ db]] users IH]; intros out Hnd; simpl; [split; [done|]; set_solver|].
  destruct (addMembers_spec id (ZRangeByScore at_ (key id) (Unix now) db) out Hnd) as [H1 H2]. destruct (IH _ H1) as [H3 H4]. split; [done|].
  intros u p. rewrite H4, H2. setoid_rewrite elem_of_cons. split.
  - intros [[?|(-> & m & ? & ?)]|(a & d & m & ? & ? & ?)]; [by left|right; exists at_, db, m; auto|right; exists a, d, m; auto].
  - intros [?|(a & d & m & [[= -> -> ->]|?] & ? & ?)]; [auto|left; right; eauto|right; eauto 8].
Qed.

Lemma renew_one_reply ttl now at_ node c db :
  0 < (renew_one ttl now at_ node c db).1 ↔ member node c ∉ ZRangeByScore at_ (key (CR_UserId c)) (Unix now) db.
Proof.
  unfold renew_one, ZAdd, ZRemRangeByScore. rewrite zmembers_put. simpl. rewrite ZRange_in. destruct (filter _ _ !! _) as [x|] eqn:E; simpl.
  - apply map_lookup_filter_Some in E as [H1 H2]. split; [lia|]. intros H. destruct H. by exists x.
  - split; [|lia]. intros _ (x & H1 & H2). apply map_lookup_filter_None in E as [E|E]; [congruence|]. by apply (E x).
Qed.

(** [Renew] reports the connections that were not online when their turn came. *)
Lemma Renew_revived ttl now node conns : ∀ db c,
  c ∈ (Renew ttl now node conns db).1 ↔
  ∃ pre at_ post, conns = pre ++ (c, at_) :: post ∧ member node c ∉ ZRangeByScore at_ (key (CR_UserId c)) (Unix now) (Renew ttl now node pre db).2.
Proof.
  induction conns as [|[c0 a0] conns IH]; intros db c; [simpl; split; [by intros ?%not_elem_of_nil|by intros ([] & ? & ? & [=] & _)]|].
  cbn [Renew]. pose proof (renew_one_reply ttl now a0 node c0 db) as Hr. destruct (renew_one ttl now a0 node c0 db) as [n db1] eqn:E1. specialize (IH db1 c).
  destruct (Renew ttl now node conns db1) as [rev db2] eqn:E2. simpl in *. transitivity (c = c0 ∧ 0 < n ∨ c ∈ rev).
  { destruct (Z.ltb_spec 0 n); [rewrite elem_of_cons; naive_solver|]. split; [by right|]. intros [[_ ?]|?]; [lia|done]. }
  rewrite IH. split.
  - intros [[-> Hn]|(pre & a & post & -> & Hv)]; [exists [], a0, conns; split; [done|by apply Hr]|].
    exists ((c0, a0) :: pre), a, post. split; [done|]. cbn [Renew]. rewrite E1. by destruct (Renew ttl now node pre db1).
  - intros ([|x pre] & a & post & E & Hv); [injection E as -> -> ->; left; split; [done|by apply Hr]|]. injection E as <- ->. right. exists pre, a, post. split; [done|].
    cbn [Renew] in Hv. rewrite E1 in Hv. by destruct (Renew ttl now node pre db1).
Qed.

(** What a range finds at [at_]: [db] after some history of calls, [R] the registrations made in it. *)
Definition observed (ttl at_ : Z) (db : Redis) (R : Regs) : Prop := ∃ T, history ttl (T, db, R) ∧ T ≤ at_.

(** C32: presence in Redis is exact to a second. However adds, removals and renewals of any nodes are ordered and delayed, a status read shows
    every platform that was added or renewed within the time to live and not removed since, and no other than those whose last registration is at
    most a second older than that; the expiry of whole keys hides none, and no platform is listed twice. A renewal reports exactly the
    connections that were not online. *)
Theorem redis_online_window (ttl now : Z) (obs : list (string * (Z * Redis * Regs))) :
  0 < ttl → Forall (λ o : string * (Z * Redis * Regs), observed ttl o.2.1.1 o.2.1.2 o.2.2 ∧ now ≤ o.2.1.1) obs →
  let out := Online now (map (λ o : string * (Z * Redis * Regs), (o.1, o.2.1)) obs) in
  (∀ u, NoDup (platforms out u)) ∧
  (∀ u at_ db R node c t, (u, (at_, db, R)) ∈ obs → R !! (u, member node c) = Some t → int64 (CR_PlatformId c) → at_ ≤ t + ttl →
     CR_PlatformId c ∈ platforms out u) ∧
  (∀ u p, p ∈ platforms out u →
     ∃ at_ db R node c t, (u, (at_, db, R)) ∈ obs ∧ R !! (u, member node c) = Some t ∧ CR_PlatformId c = p ∧ now < t + ttl + Second) ∧
  (∀ node conns db c, c ∈ (Renew ttl now node conns db).1 ↔
     ∃ pre at_ post, conns = pre ++ (c, at_) :: post ∧ member node c ∉ ZRangeByScore at_ (key (CR_UserId c)) (Unix now) (Renew ttl now node pre db).2).
Proof.
  intros Hp Hobs out. destruct (Online_spec now (map (λ o : string * (Z * Redis * Regs), (o.1, o.2.1)) obs) ∅) as [Hnd Hin]; [intros u; unfold platforms; rewrite lookup_empty; constructor|].
  fold (Online now (map (λ o : string * (Z * Redis * Regs), (o.1, o.2.1)) obs)) in Hnd, Hin. fold out in Hnd, Hin.
  assert (∀ u at_ db R, (u, (at_, db, R)) ∈ obs → Inv ttl (at_, db, R) ∧ now ≤ at_) as HI.
  { intros u at_ db R Ho. rewrite Forall_forall in Hobs. apply Hobs in Ho as [(T & Hh & HT) Hn]. simpl in *. split; [|done]. eapply Inv_wait; [|exact HT]. by apply history_Inv. }
  split_and!; [exact Hnd| | |intros; apply Renew_revived].
  - intros u at_ db R node c t Ho Hr Hc Ht. destruct (HI _ _ _ _ Ho) as [Hi Hn]. apply Hin. right. exists at_, db, (member node c). split_and!.
    + apply list_elem_of_fmap. by exists (u, (at_, db, R)).
    + apply ZRange_in. exists (Unix (t + ttl)). split; [by apply (inv_kept _ _ Hi)|]. apply Unix_mono. lia.
    + by apply platform_of_member.
  - intros u p [Hx|(at_ & db & m & Ho & Hm & Hpl)]%Hin; [unfold platforms in Hx; rewrite lookup_empty in Hx; by apply not_elem_of_nil in Hx|].
    apply list_elem_of_fmap in Ho as ([u' [[at' db'] R]] & [= <- <- <-] & Ho). destruct (HI _ _ _ _ Ho) as [Hi Hn]. apply ZRange_in in Hm as (x & Hm & Hle).
    destruct (inv_made _ _ Hi _ _ _ Hm) as (t & Hr & ->). destruct (inv_form _ _ Hi _ _ _ Hr) as (node & c & -> & Hc). rewrite platform_of_member in Hpl by done.
    injection Hpl as <-. exists at_, db, R, node, c, t. split_and!; [done..|]. simpl in Hle. unfold Unix, Second in *. Z.to_euclidean_division_equations; lia.
Qed.

(** Two connections of a user: one stops renewing. *)
Definition phone : ConnRef := mkConnRef "u___7" 1 "c1".
Definition web : ConnRef := mkConnRef "u___7" 5 "c2".

Definition minute : Z := 60 * Second.
Definition db1 : Redis := Add minute 0 0 "n1" phone ∅.
Definition db2 : Redis := Add minute Second Second "n2" web db1.
Definition db3 : Redis := (renew_one minute (50 * Second) (50 * Second) "n2" web db2).2.
Definition regs3 : Regs := <[("u___7", member "n2" web) := 50 * Second]> (<[("u___7", member "n2" web) := Second]> (<[("u___7", member "n1" phone) := 0]> ∅))%string.

Lemma redis_online_window_witness :
  platforms (Online (70 * Second) [("u___7"%string, (70 * Second, db3))]) "u___7" = [5] ∧
  5 ∈ platforms (Online (70 * Second) [("u___7"%string, (70 * Second, db3))]) "u___7".
Proof.
  split; [vm_compute; reflexivity|].
  refine (proj1 (proj2 (redis_online_window minute (70 * Second) [("u___7"%string, (70 * Second, db3, regs3))] _ _)) "u___7"%string (70 * Second) db3 regs3 "n2"%string web (50 * Second) _ _ _ _).
  - unfold minute, Second. lia.
  - apply Forall_singleton. split; [|simpl; unfold Second; lia]. exists (50 * Second). split; [|simpl; unfold Second; lia]. exists 0.
    assert (int64 1 ∧ int64 5) as [H1 H5] by (unfold int64, minInt64, maxInt64; lia).
    eapply rtc_l; [apply (step_add minute 0 ∅ ∅ 0 0 "n1" phone); [lia|lia|exact H1]|].
    eapply rtc_l; [apply (step_add minute 0 _ _ Second Second "n2" web); [unfold Second; lia|unfold Second; lia|exact H5]|].
    eapply rtc_l; [apply (step_renew minute Second _ _ (50 * Second) (50 * Second) "n2" web); [unfold Second; lia|unfold Second; lia|exact H5]|]. reflexivity.
  - left.
  - vm_compute. reflexivity.
  - unfold int64, minInt64, maxInt64. simpl. lia.
  - unfold minute, Second. lia.
Defined.
