(* ===== verification/BusNode.v ===== *)
(** * The bus consumer of a node and its delivery shards ([internal/gateway/subscribe.go], [push.go], [pool.go])

    A driver of the bus calls [onConnected] and [onEvent] from one goroutine ([Callback]). The consumer decodes an event and acts on
    it, and hands a push to the shard of its conversation: a queue with one worker that delivers one push after the other. What the
    consumer does for the other events is an [Action]; [Deliver] and [SendQueue] model how it is carried out. [bn_seen] and
    [bn_started] are history variables: the pushes that reached [enqueuePush], with whether they were queued, and those whose
    delivery has begun. *)

From S2P Require Import Prelude Errcode Strconv Json Store PgStore Conc RateLimit World History UserMap SendQueue.

Local Open Scope Z_scope.

(** ** Events on the wire ([bus.Event]) *)

Record Event := mkEvent { Ev_Type : string; Ev_NodeId : string; Ev_Payload : string }.

#[export] Instance Event_eq_dec : EqDecision Event.
Proof. solve_decision. Defined.

(** [json.Unmarshal] of the payloads. *)
Class BusDecode := {
  decodePush : string → option PushPayload;
  decodeKick : string → option (string * Z * string);
  decodeRead : string → option ReadEvent;
  decodeGroup : string → option string;
  decodePresence : string → option (list string) }.

Inductive Callback := CbConnected | CbEvent (ev : Event).

(** [ResyncAll] pushes 2004 to every local connection; the other actions call the presence index, the kick, the read fan-out and the
    roster cache. *)
Inductive Action :=
| AMark (userIds : list string)
| AKick (userId : string) (platformId : Z) (keepTokenId : string)
| ARead (userId readerConnId conversationId : string) (readSeq : Z)
| AInvalidate (groupId : string)
| AResync (reason : string).

Definition ResyncAll (users : UserMap) (opId reason : string) : option (list (Client * string)) :=
  frame ← reasonFrame Resync opId reason; Some (map (λ c, (c, frame)) (All users)).

(** ** Shards *)

(** FNV-1a on 32 bits ([hash/fnv.New32a]). *)
Definition fnv_byte (h : Z) (b : Z) : Z := (Z.lxor h b * 16777619) mod 2 ^ 32.

Fixpoint fnv32a (h : Z) (s : string) : Z :=
  match s with
  | EmptyString => h
  | String c s' => fnv32a (fnv_byte h (Z.of_nat (Ascii.nat_of_ascii c))) s'
  end.

Definition shardOf (key : string) (n : Z) : Z := fnv32a 2166136261 key mod (n mod 2 ^ 32).

(** A worker of [startPool]: the [select], a running [deliverOne], the drain after [g.ctx] is done, and the end. *)
Inductive PWorker := WSelect | WRun (p : PushPayload) | WDrain | WDrainRun (p : PushPayload) | WExit.

Record BNode := mkBNode {
  bn_id : string; bn_ready : bool; bn_connects : Z; bn_queues : list (list PushPayload); bn_cap : nat; bn_workers : list PWorker;
  bn_spawning : bool; bn_cancelled : bool; bn_pushDropped : Z; bn_decodeFails : Z; bn_acts : list Action;
  bn_seen : list (PushPayload * bool); bn_started : list PushPayload }.

Definition set_queues (n : BNode) q ws started := mkBNode (bn_id n) (bn_ready n) (bn_connects n) q (bn_cap n) ws (bn_spawning n)
  (bn_cancelled n) (bn_pushDropped n) (bn_decodeFails n) (bn_acts n) (bn_seen n) started.
Definition set_workers (n : BNode) ws := set_queues n (bn_queues n) ws (bn_started n).
Definition set_spawn (n : BNode) ws spawning := mkBNode (bn_id n) (bn_ready n) (bn_connects n) (bn_queues n) (bn_cap n) ws spawning
  (bn_cancelled n) (bn_pushDropped n) (bn_decodeFails n) (bn_acts n) (bn_seen n) (bn_started n).
Definition set_cancelled (n : BNode) := mkBNode (bn_id n) (bn_ready n) (bn_connects n) (bn_queues n) (bn_cap n) (bn_workers n) (bn_spawning n)
  true (bn_pushDropped n) (bn_decodeFails n) (bn_acts n) (bn_seen n) (bn_started n).
Definition add_act (n : BNode) a := mkBNode (bn_id n) (bn_ready n) (bn_connects n) (bn_queues n) (bn_cap n) (bn_workers n) (bn_spawning n)
  (bn_cancelled n) (bn_pushDropped n) (bn_decodeFails n) (bn_acts n ++ [a]) (bn_seen n) (bn_started n).
Definition add_fail (n : BNode) := mkBNode (bn_id n) (bn_ready n) (bn_connects n) (bn_queues n) (bn_cap n) (bn_workers n) (bn_spawning n)
  (bn_cancelled n) (bn_pushDropped n) (bn_decodeFails n + 1) (bn_acts n) (bn_seen n) (bn_started n).
Definition add_seen (n : BNode) p q (queued : bool) := mkBNode (bn_id n) (bn_ready n) (bn_connects n) q (bn_cap n) (bn_workers n) (bn_spawning n)
  (bn_cancelled n) (if queued then bn_pushDropped n else bn_pushDropped n + 1) (bn_decodeFails n) (bn_acts n) (bn_seen n ++ [(p, queued)]) (bn_started n).
Definition set_connected (n : BNode) k := mkBNode (bn_id n) true k (bn_queues n) (bn_cap n) (bn_workers n) (bn_spawning n)
  (bn_cancelled n) (bn_pushDropped n) (bn_decodeFails n) (bn_acts n) (bn_seen n) (bn_started n).

(** [New]: the shards and their size. *)
Definition newBNode (nodeId : string) (deliverWorkers deliverQueue : Z) : BNode :=
  mkBNode nodeId false 0 (replicate (Z.to_nat (Z.max deliverWorkers 1)) []) (Z.to_nat (Z.max deliverQueue 1)) [] true false 0 0 [] [] [].

(** A send on the channel of a shard that does not wait. *)
Definition enqueuePush (p : PushPayload) (n : BNode) : BNode :=
  let i := Z.to_nat (shardOf (PP_ConversationId p) (Z.of_nat (length (bn_queues n)))) in
  match bn_queues n !! i with
  | None => n (* index out of range *)
  | Some q =>
      if (length q <? bn_cap n)%nat then add_seen n p (<[i := q ++ [p]]> (bn_queues n)) true
      else add_seen n p (bn_queues n) false
  end.

Section Consumer.
Context `{BD : BusDecode}.

Definition onEvent (ev : Event) (n : BNode) : BNode :=
  if (Ev_Type ev =? "presence_changed")%string then
    if (Ev_NodeId ev =? bn_id n)%string then n
    else match decodePresence (Ev_Payload ev) with Some ids => add_act n (AMark ids) | None => add_fail n end
  else if (Ev_Type ev =? "push")%string then
    match decodePush (Ev_Payload ev) with Some p => enqueuePush p n | None => add_fail n end
  else if (Ev_Type ev =? "kick")%string then
    match decodeKick (Ev_Payload ev) with Some (u, pid, keep) => add_act n (AKick u pid keep) | None => add_fail n end
  else if (Ev_Type ev =? "conv_read")%string then
    match decodeRead (Ev_Payload ev) with
    | Some r => add_act n (ARead (RE_UserId r) (RE_ReaderConnId r) (RE_ConversationId r) (RE_ReadSeq r))
    | None => add_fail n
    end
  else if (Ev_Type ev =? "group_changed")%string then
    match decodeGroup (Ev_Payload ev) with Some g => add_act n (AInvalidate g) | None => add_fail n end
  else n.

(** The callback [Subscribe] hands to the driver; [connects] is an [atomic.Int32]. *)
Definition onConnected (n : BNode) : BNode :=
  let n := set_connected n (i32 (bn_connects n + 1)) in
  if 1 <? bn_connects n then add_act n (AResync "bus_reconnected") else n.

Definition on_callback (cb : Callback) (n : BNode) : BNode :=
  match cb with CbConnected => onConnected n | CbEvent ev => onEvent ev n end.

(** ** The pool ([startPool]) *)

(** The next worker is started, unless [work.begin] refuses. *)
Definition spawn (ok : bool) (n : BNode) : option BNode :=
  if bn_spawning n && (length (bn_workers n) <? length (bn_queues n))%nat
  then Some (if ok then set_spawn n (bn_workers n ++ [WSelect]) true else set_spawn n (bn_workers n) false)
  else None.

(** [v := <-ch] on the channel of worker [i]. *)
Definition receive (i : nat) (k : PushPayload → PWorker) (n : BNode) : option BNode :=
  match bn_queues n !! i with
  | Some (p :: q) => Some (set_queues n (<[i := q]> (bn_queues n)) (<[i := k p]> (bn_workers n)) (bn_started n ++ [p]))
  | _ => None
  end.

(** One step of worker [i]; [recv] picks the case of its [select]. *)
Definition worker_step (i : nat) (recv : bool) (n : BNode) : option BNode :=
  match bn_workers n !! i with
  | Some WSelect => if recv then receive i WRun n else if bn_cancelled n then Some (set_workers n (<[i := WDrain]> (bn_workers n))) else None
  | Some (WRun _) => Some (set_workers n (<[i := WSelect]> (bn_workers n)))
  | Some WDrain =>
      match receive i WDrainRun n with
      | Some n' => Some n'
      | None => Some (set_workers n (<[i := WExit]> (bn_workers n)))
      end
  | Some (WDrainRun _) => Some (set_workers n (<[i := WDrain]> (bn_workers n)))
  | Some WExit | None => None
  end.

Inductive bnode_step (n : BNode) : BNode → Prop :=
| bs_callback cb : bnode_step n (on_callback cb n)
| bs_spawn ok n' : spawn ok n = Some n' → bnode_step n n'
| bs_worker i recv n' : worker_step i recv n = Some n' → bnode_step n n'
| bs_cancel : bnode_step n (set_cancelled n).
End Consumer.

(** ** Runs

    [bnode_run cbs n]: the node after the driver made the calls [cbs], with any steps of its workers in between. *)

Section Runs.
Context `{BD : BusDecode}.
Variable n0 : BNode.

Inductive bnode_run : list Callback → BNode → Prop :=
| br_start : bnode_run [] n0
| br_callback cbs n cb : bnode_run cbs n → bnode_run (cbs ++ [cb]) (on_callback cb n)
| br_spawn cbs n ok n' : bnode_run cbs n → spawn ok n = Some n' → bnode_run cbs n'
| br_worker cbs n i recv n' : bnode_run cbs n → worker_step i recv n = Some n' → bnode_run cbs n'
| br_cancel cbs n : bnode_run cbs n → bnode_run cbs (set_cancelled n).
End Runs.

(** ** What the calls ask for *)

Section Spec.
Context `{BD : BusDecode}.
Variable id : string.

(** The action of an event: [None] when it cannot be decoded. *)
Definition action_of (ev : Event) : option (list Action) :=
  match Ev_Type ev with
  | "presence_changed" => if (Ev_NodeId ev =? id)%string then Some [] else (λ ids, [AMark ids]) <$> decodePresence (Ev_Payload ev)
  | "push" => (λ _, []) <$> decodePush (Ev_Payload ev)
  | "kick" => (λ k, [AKick k.1.1 k.1.2 k.2]) <$> decodeKick (Ev_Payload ev)
  | "conv_read" => (λ r, [ARead (RE_UserId r) (RE_ReaderConnId r) (RE_ConversationId r) (RE_ReadSeq r)]) <$> decodeRead (Ev_Payload ev)
  | "group_changed" => (λ g, [AInvalidate g]) <$> decodeGroup (Ev_Payload ev)
  | _ => Some []
  end%string.

Definition connections (cbs : list Callback) : nat := length (List.filter (λ cb, match cb with CbConnected => true | _ => false end) cbs).

(** The actions for a sequence of calls, [k] connections having been announced before: a reconnection asks every client to pull again. *)
Fixpoint actions (k : nat) (cbs : list Callback) : list Action :=
  match cbs with
  | [] => []
  | CbConnected :: cbs' => (if (k =? 0)%nat then [] else [AResync "bus_reconnected"]) ++ actions (S k) cbs'
  | CbEvent ev :: cbs' => default [] (action_of ev) ++ actions k cbs'
  end.

Definition push_of (cb : Callback) : option PushPayload :=
  match cb with CbEvent ev => if (Ev_Type ev =? "push")%string then decodePush (Ev_Payload ev) else None | CbConnected => None end.

Definition undecodable (cb : Callback) : bool := match cb with CbEvent ev => negb (bool_decide (is_Some (action_of ev))) | CbConnected => false end.
End Spec.

Definition of_conv (c : string) (p : PushPayload) : bool := (PP_ConversationId p =? c)%string.

Definition accepted (seen : list (PushPayload * bool)) : list PushPayload := omap (λ x : PushPayload * bool, if x.2 then Some x.1 else None) seen.

(** A delivery in progress. *)
Definition running (w : PWorker) : option PushPayload := match w with WRun p | WDrainRun p => Some p | _ => None end.

(** The shard of a conversation, of [k] shards. *)
Definition shard (k : nat) (c : string) : nat := Z.to_nat (shardOf c (Z.of_nat k)).

(** ** Lemmas *)

Lemma shardOf_range c k : 0 < k < 2 ^ 32 → 0 ≤ shardOf c k < k.
Proof. intros Hk. unfold shardOf. rewrite (Z.mod_small k) by lia. apply Z.mod_pos_bound. lia. Qed.

(** [keep] after [keep]. *)
Lemma keep_refine {A} (f g : A → bool) l : (∀ x, g x = true → f x = true) → keep g (keep f l) = keep g l.
Proof.
  intros H. unfold keep. induction l as [|x l IH]; simpl; [done|]. destruct (f x) eqn:E; simpl; [by rewrite IH|].
  destruct (g x) eqn:Eg; [|done]. apply H in Eg. congruence.
Qed.

Section Invariant.
Context `{BD : BusDecode}.

(** The pushes of shard [i]. *)
Definition in_shard (k i : nat) (p : PushPayload) : bool := (shard k (PP_ConversationId p) =? i)%nat.

Record bnode_ok (cbs : list Callback) (n : BNode) : Prop := {
  bo_shards : 0 < Z.of_nat (length (bn_queues n)) < 2 ^ 32;
  bo_workers : (length (bn_workers n) ≤ length (bn_queues n))%nat;
  bo_cap : ∀ i q, bn_queues n !! i = Some q → (length q ≤ bn_cap n)%nat;
  bo_order : ∀ i q, bn_queues n !! i = Some q → keep (in_shard (length (bn_queues n)) i) (bn_started n) ++ q = keep (in_shard (length (bn_queues n)) i) (accepted (bn_seen n));
  bo_running : ∀ i w p, bn_workers n !! i = Some w → running w = Some p → shard (length (bn_queues n)) (PP_ConversationId p) = i;
  bo_dropped : bn_pushDropped n = Z.of_nat (length (bn_seen n)) - Z.of_nat (length (accepted (bn_seen n)));
  bo_seen : (bn_seen n).*1 = omap push_of cbs;
  bo_fails : bn_decodeFails n = Z.of_nat (length (keep (undecodable (bn_id n)) cbs));
  bo_acts : Z.of_nat (connections cbs) < 2 ^ 31 → bn_connects n = Z.of_nat (connections cbs) ∧ bn_acts n = actions (bn_id n) 0 cbs }.

Lemma actions_app id k a b : actions id k (a ++ b) = actions id k a ++ actions id (k + connections a) b.
Proof.
  revert k. induction a as [|[|ev] a IH]; intros k; simpl.
  - by rewrite Nat.add_0_r.
  - rewrite IH. change (connections (CbConnected :: a)) with (S (connections a)). rewrite app_assoc. do 2 f_equal. lia.
  - change (connections (CbEvent ev :: a)) with (connections a). by rewrite IH, app_assoc.
Qed.

Lemma connections_app a b : connections (a ++ b) = (connections a + connections b)%nat.
Proof. unfold connections. by rewrite List.filter_app, length_app. Qed.

Lemma accepted_snoc l x : accepted (l ++ [x]) = accepted l ++ (if x.2 then [x.1] else []).
Proof. unfold accepted. rewrite omap_app. simpl. by destruct x.2. Qed.

Lemma keep_snoc {A} (f : A → bool) l x : keep f (l ++ [x]) = keep f l ++ (if f x then [x] else []).
Proof. unfold keep. rewrite List.filter_app. simpl. by destruct (f x). Qed.

Lemma newBNode_ok id w q : Z.max w 1 < 2 ^ 32 → bnode_ok [] (newBNode id w q).
Proof.
  intros Hw. split; simpl; try done; rewrite ?length_replicate; try lia.
  - intros i l [-> _]%lookup_replicate. simpl. lia.
  - intros i l [-> _]%lookup_replicate. done.
Qed.

Lemma enqueuePush_ok cbs n p ev :
  push_of (CbEvent ev) = Some p → bnode_ok cbs n → undecodable (bn_id n) (CbEvent ev) = false → action_of (bn_id n) ev = Some [] →
  bnode_ok (cbs ++ [CbEvent ev]) (enqueuePush p n).
Proof.
  intros Hp [H1 H2 H3 H4 H5 H6 H7 H8 H9] Hd Ha. unfold enqueuePush. cbv zeta.
  destruct (lookup_lt_is_Some_2 (bn_queues n) (shard (length (bn_queues n)) (PP_ConversationId p))) as [q Hq].
  { unfold shard. pose proof (shardOf_range (PP_ConversationId p) _ H1). lia. }
  change (Z.to_nat (shardOf (PP_ConversationId p) (Z.of_nat (length (bn_queues n))))) with (shard (length (bn_queues n)) (PP_ConversationId p)).
  rewrite Hq. set (i := shard _ _) in *.
  assert (omap push_of (cbs ++ [CbEvent ev]) = omap push_of cbs ++ [p]) as Ho by (rewrite omap_app; f_equal; cbn -[push_of]; by rewrite Hp).
  assert (connections (cbs ++ [CbEvent ev]) = connections cbs) as Hc by (rewrite connections_app; unfold connections; simpl; lia).
  assert (keep (undecodable (bn_id n)) (cbs ++ [CbEvent ev]) = keep (undecodable (bn_id n)) cbs) as Hk by (rewrite keep_snoc, Hd; apply app_nil_r).
  assert (actions (bn_id n) 0 (cbs ++ [CbEvent ev]) = actions (bn_id n) 0 cbs) as Hac by (rewrite actions_app; simpl; rewrite Ha; apply app_nil_r).
  destruct (length q <? bn_cap n)%nat eqn:El; split; rewrite ?Ho, ?Hc; cbn [bn_id add_seen bn_queues bn_workers bn_cap bn_started bn_seen bn_pushDropped bn_decodeFails bn_connects bn_acts];
    rewrite ?length_insert, ?Hk, ?Hac, ?accepted_snoc, ?length_app, ?fmap_app, ?H7; simpl; try done; try lia.
  - intros j l. destruct (decide (j = i)) as [->|Hne]; [|rewrite list_lookup_insert_ne by done; apply H3].
    rewrite list_lookup_insert_eq by (by eapply lookup_lt_Some). intros [= <-]. rewrite length_app. simpl. apply Nat.ltb_lt in El. lia.
  - intros j l. rewrite keep_snoc. unfold in_shard at 3. fold i. destruct (decide (j = i)) as [->|Hne].
    + rewrite list_lookup_insert_eq by (by eapply lookup_lt_Some). intros [= <-]. rewrite app_assoc, Nat.eqb_refl. f_equal. by apply H4.
    + rewrite list_lookup_insert_ne by done. intros Hl. destruct (Nat.eqb_spec i j) as [->|_]; [done|]. rewrite app_nil_r. by apply H4.
  - intros j l Hl. rewrite app_nil_r. by apply H4.
Qed.

(** An event that is not a push: it is undecodable, or its actions are carried out. *)
Lemma act_ok cbs n ev acts n' :
  push_of (CbEvent ev) = None → bnode_ok cbs n → action_of (bn_id n) ev = acts →
  n' = match acts with None => add_fail n | Some l => foldl add_act n l end →
  bnode_ok (cbs ++ [CbEvent ev]) n'.
Proof.
  intros Hp [H1 H2 H3 H4 H5 H6 H7 H8 H9] Ha ->.
  assert (omap push_of (cbs ++ [CbEvent ev]) = omap push_of cbs) as Ho by (rewrite omap_app; cbn -[push_of]; rewrite Hp; apply app_nil_r).
  assert (connections (cbs ++ [CbEvent ev]) = connections cbs) as Hc by (rewrite connections_app; unfold connections; simpl; lia).
  assert (actions (bn_id n) 0 (cbs ++ [CbEvent ev]) = actions (bn_id n) 0 cbs ++ default [] acts) as Hac by (rewrite actions_app; simpl; by rewrite Ha, app_nil_r).
  assert (undecodable (bn_id n) (CbEvent ev) = match acts with None => true | Some _ => false end) as Hd.
  { unfold undecodable. rewrite Ha. destruct acts; [by rewrite bool_decide_eq_true_2|]. rewrite bool_decide_eq_false_2; [done|]. by intros [? ?]. }
  destruct acts as [l|].
  - assert (∀ l m, let m' := foldl add_act m l in bn_acts m' = bn_acts m ++ l ∧ bn_id m' = bn_id m ∧ bn_queues m' = bn_queues m ∧ bn_workers m' = bn_workers m ∧ bn_cap m' = bn_cap m
      ∧ bn_started m' = bn_started m ∧ bn_seen m' = bn_seen m ∧ bn_pushDropped m' = bn_pushDropped m ∧ bn_decodeFails m' = bn_decodeFails m ∧ bn_connects m' = bn_connects m) as Hf.
    { induction l0 as [|a l0 IH]; intros m; simpl; [by rewrite app_nil_r|]. destruct (IH (add_act m a)) as (-> & -> & -> & -> & -> & -> & -> & -> & -> & ->). simpl. by rewrite <- app_assoc. }
    destruct (Hf l n) as (E1 & E2 & E3 & E4 & E5 & E6 & E7 & E8 & E9 & E10).
    split; rewrite ?E1, ?E2, ?E3, ?E4, ?E5, ?E6, ?E7, ?E8, ?E9, ?E10, ?Ho, ?Hc, ?Hac, ?keep_snoc, ?Hd, ?app_nil_r; try done.
    intros Hk. destruct (H9 Hk) as [-> ->]. done.
  - split; rewrite ?Ho, ?Hc; simpl; rewrite ?Hac, ?keep_snoc, ?Hd, ?length_app, ?app_nil_r; simpl; try done. lia.
Qed.

Lemma onEvent_ok cbs n ev : bnode_ok cbs n → bnode_ok (cbs ++ [CbEvent ev]) (onEvent ev n).
Proof.
  intros Hn. unfold onEvent.
  destruct (String.eqb_spec (Ev_Type ev) "presence_changed") as [E|N1].
  { assert (push_of (CbEvent ev) = None) as Hp by (unfold push_of; by rewrite E).
    eapply act_ok; [done|done|reflexivity|]. unfold action_of. rewrite E. destruct (_ =? bn_id n)%string; [done|]. by destruct (decodePresence _). }
  destruct (String.eqb_spec (Ev_Type ev) "push") as [E|N2].
  { destruct (decodePush (Ev_Payload ev)) as [p|] eqn:Ed.
    - assert (action_of (bn_id n) ev = Some []) as Ha by (unfold action_of; by rewrite E, Ed).
      apply enqueuePush_ok; [by unfold push_of; rewrite E|done| |done]. unfold undecodable. by rewrite Ha, bool_decide_eq_true_2.
    - eapply act_ok; [by unfold push_of; rewrite E|done|reflexivity|]. unfold action_of. by rewrite E, Ed. }
  assert (push_of (CbEvent ev) = None) as Hp by (unfold push_of; by destruct (String.eqb_spec (Ev_Type ev) "push")).
  destruct (String.eqb_spec (Ev_Type ev) "kick") as [E|N3].
  { eapply act_ok; [done|done|reflexivity|]. unfold action_of. rewrite E. by destruct (decodeKick _) as [[[? ?] ?]|]. }
  destruct (String.eqb_spec (Ev_Type ev) "conv_read") as [E|N4].
  { eapply act_ok; [done|done|reflexivity|]. unfold action_of. rewrite E. by destruct (decodeRead _). }
  destruct (String.eqb_spec (Ev_Type ev) "group_changed") as [E|N5].
  { eapply act_ok; [done|done|reflexivity|]. unfold action_of. rewrite E. by destruct (decodeGroup _). }
  eapply (act_ok _ _ _ (Some [])); [done|done| |done]. unfold action_of.
  repeat (case_match; try congruence).
Qed.

Lemma onConnected_ok cbs n : bnode_ok cbs n → bnode_ok (cbs ++ [CbConnected]) (onConnected n).
Proof.
  intros [H1 H2 H3 H4 H5 H6 H7 H8 H9].
  assert (omap push_of (cbs ++ [CbConnected]) = omap push_of cbs) as Ho by (rewrite omap_app; apply app_nil_r).
  assert (connections (cbs ++ [CbConnected]) = S (connections cbs)) as Hc by (rewrite connections_app; unfold connections; simpl; lia).
  assert (∀ acts, Z.of_nat (S (connections cbs)) < 2 ^ 31 → acts = (if 1 <? i32 (bn_connects n + 1) then bn_acts n ++ [AResync "bus_reconnected"] else bn_acts n) →
    i32 (bn_connects n + 1) = Z.of_nat (S (connections cbs)) ∧ acts = actions (bn_id n) 0 (cbs ++ [CbConnected])) as Hac.
  { intros acts Hk ->. destruct H9 as [-> ->]; [lia|]. rewrite i32_id by lia. rewrite actions_app. cbn [actions Nat.add]. split; [lia|].
    rewrite app_nil_r. destruct (Nat.eqb_spec (connections cbs) 0) as [->|?]; simpl; [by rewrite app_nil_r|]. by replace (1 <? _) with true by lia. }
  unfold onConnected. cbn [bn_connects set_connected].
  destruct (1 <? i32 (bn_connects n + 1)); split; rewrite ?Ho, ?Hc; simpl; rewrite ?keep_snoc, ?app_nil_r; auto.
Qed.

Lemma worker_ok cbs n i recv n' : bnode_ok cbs n → worker_step i recv n = Some n' → bnode_ok cbs n'.
Proof.
  intros Hn. assert (Hn' := Hn). destruct Hn' as [H1 H2 H3 H4 H5 H6 H7 H8 H9].
  assert (∀ w, running w = None → bnode_ok cbs (set_workers n (<[i := w]> (bn_workers n)))) as Hset.
  { intros w Hw. split; simpl; rewrite ?length_insert; try done. intros j w' p Hj Hr. destruct (decide (j = i)) as [->|Hne].
    - apply list_lookup_insert_Some in Hj as [(_ & <- & _)|[? _]]; [congruence|done].
    - rewrite list_lookup_insert_ne in Hj by done. by eapply H5. }
  assert (∀ k n', (∀ p, running (k p) = Some p) → receive i k n = Some n' → bnode_ok cbs n') as Hrec.
  { intros k m Hk. unfold receive. destruct (bn_queues n !! i) as [[|p q]|] eqn:Eq; [done| |done]. intros [= <-].
    assert (shard (length (bn_queues n)) (PP_ConversationId p) = i) as Hp.
    { assert (p ∈ keep (in_shard (length (bn_queues n)) i) (accepted (bn_seen n))) as [_ ?%Nat.eqb_eq]%elem_of_keep by (rewrite <- (H4 i _ Eq); set_solver). done. }
    split; simpl; rewrite ?length_insert; try done.
    - intros j l Hj. apply list_lookup_insert_Some in Hj as [(-> & <- & _)|[_ Hj]]; [|by apply (H3 j)]. specialize (H3 _ _ Eq). simpl in H3. lia.
    - intros j l Hj. rewrite keep_snoc. unfold in_shard at 2. rewrite Hp. apply list_lookup_insert_Some in Hj as [(-> & <- & _)|[Hne Hj]].
      + rewrite Nat.eqb_refl, <- app_assoc. by apply H4.
      + destruct (Nat.eqb_spec i j); [done|]. rewrite app_nil_r. by apply H4.
    - intros j w' p' Hj Hr. apply list_lookup_insert_Some in Hj as [(-> & <- & _)|[Hne Hj]]; [rewrite Hk in Hr; by injection Hr as <-|by eapply H5]. }
  unfold worker_step. destruct (bn_workers n !! i) as [[| | | |]|]; try done.
  - destruct recv; [by apply Hrec|]. destruct (bn_cancelled n); [|done]. intros [= <-]. by apply Hset.
  - intros [= <-]. by apply Hset.
  - destruct (receive i WDrainRun n) as [m|] eqn:E; intros [= <-]; [by apply (Hrec WDrainRun)|by apply Hset].
  - intros [= <-]. by apply Hset.
Qed.

Lemma spawn_ok cbs n ok n' : bnode_ok cbs n → spawn ok n = Some n' → bnode_ok cbs n'.
Proof.
  intros [H1 H2 H3 H4 H5 H6 H7 H8 H9]. unfold spawn. destruct (bn_spawning n && _) eqn:E; [|done]. apply andb_true_iff in E as [_ E%Nat.ltb_lt]. intros [= <-].
  destruct ok; split; simpl; rewrite ?length_app; simpl; try done; [lia|].
  intros i w p [Hi|[_ Hi]]%lookup_app_Some Hr; [by eapply H5|]. apply list_lookup_singleton_Some in Hi as [_ <-]. done.
Qed.

Lemma bnode_run_ok n0 cbs n : bnode_ok [] n0 → bnode_run n0 cbs n → bnode_ok cbs n.
Proof.
  intros H0. induction 1 as [|cbs n [|ev] _ IH|cbs n ok n' _ IH E|cbs n i recv n' _ IH E|cbs n _ IH]; [done|..].
  - by apply onConnected_ok.
  - by apply onEvent_ok.
  - by eapply spawn_ok.
  - by eapply worker_ok.
  - destruct IH. by split.
Qed.

(** The pushes of one conversation, from the order of its shard. *)
Lemma conversation_order cbs n c :
  bnode_ok cbs n → ∃ q, bn_queues n !! shard (length (bn_queues n)) c = Some q ∧
    keep (of_conv c) (bn_started n) ++ keep (of_conv c) q = keep (of_conv c) (accepted (bn_seen n)).
Proof.
  intros Hn. destruct (lookup_lt_is_Some_2 (bn_queues n) (shard (length (bn_queues n)) c)) as [q Hq].
  { unfold shard. pose proof (shardOf_range c _ (bo_shards _ _ Hn)). lia. }
  exists q. split; [done|]. pose proof (bo_order _ _ Hn _ _ Hq) as E. apply (f_equal (keep (of_conv c))) in E. rewrite keep_app in E.
  rewrite !keep_refine in E; [done|..]; intros p Hp; unfold of_conv, in_shard in *; apply String.eqb_eq in Hp as ->; apply Nat.eqb_refl.
Qed.
End Invariant.
