(* ===== verification/BusDrivers.v ===== *)
(** * The bus drivers ([internal/bus])

    [Module LocalBus] is the in-process bus ([local.go]): publishers and subscribers are goroutines over one map of channels under a
    read-write mutex, so that publishers run beside each other and each send on a channel is a step of its own. [Module PgBus] and
    [Module RedisBus] are the subscription loops of the two network drivers ([postgres.go], [redis.go]) with their backoff, over a
    server that passes a published payload to the connections that listen at that moment. The histories are
    ghost state: what entered a channel, what was published, and the calls a subscription has made. *)

From S2P Require Import Prelude Errcode Strconv Json Store PgStore World History UserMap SendQueue BusNode.

Local Open Scope Z_scope.

(** ** Backoff ([backoff.go]) *)

Definition MinBackoff : Z := Second.

Definition MaxBackoff : Z := 30 * Second.

(** [Sleep]: the next backoff and whether the wait was cut short by the context. *)
Definition Sleep (done : bool) (d : Z) : Z * bool := if done then (d, true) else (Z.min (d * 2) MaxBackoff, false).

(** The events of a sequence of calls. *)
Definition event_of_callback (cb : Callback) : option Event := match cb with CbEvent ev => Some ev | CbConnected => None end.

Definition events_of (cbs : list Callback) : list Event := omap event_of_callback cbs.

Module LocalBus.

Definition queueSize : nat := 1024.

(** A call of [Publish]: before it takes the lock, in its loop over the channels [todo] with those that were full so far, and returned
    after the channels [ids]. *)
Inductive PubTask :=
| PubStart (ev : Event)
| PubRange (ev : Event) (ids todo missed : list nat)
| PubEnd (ev : Event) (ids missed : list nat) (r : err).

(** A call of [Subscribe]; the channel of call [i] is named [i]. *)
Inductive SubTask := SubStart | SubConnect | SubLoop | SubLeave | SubEnd.

(** A channel holds events with the number of the call that sent them. *)
Record Bus := mkBus {
  lb_subs : gmap nat (list (nat * Event)); lb_dropped : Z; lb_pubs : list PubTask; lb_tasks : list SubTask;
  lb_entered : gmap nat (list (nat * Event)); lb_log : gmap nat (list Callback) }.

Definition New : Bus := mkBus ∅ 0 [] [] ∅ ∅.

Definition hist {A} (m : gmap nat (list A)) (i : nat) : list A := default [] (m !! i).

Definition push {A} (i : nat) (x : A) (m : gmap nat (list A)) : gmap nat (list A) := <[i := hist m i ++ [x]]> m.

Definition with_pub (b : Bus) (k : nat) (t : PubTask) : Bus :=
  mkBus (lb_subs b) (lb_dropped b) (<[k := t]> (lb_pubs b)) (lb_tasks b) (lb_entered b) (lb_log b).

Definition with_sub (b : Bus) (i : nat) (t : SubTask) : Bus :=
  mkBus (lb_subs b) (lb_dropped b) (lb_pubs b) (<[i := t]> (lb_tasks b)) (lb_entered b) (lb_log b).

(** [select { case ch <- ev: default: dropped++ }]. *)
Definition send (b : Bus) (k i : nat) (ev : Event) : Bus * bool :=
  match lb_subs b !! i with
  | Some q =>
      if (length q <? queueSize)%nat
      then (mkBus (<[i := q ++ [(k, ev)]]> (lb_subs b)) (lb_dropped b) (lb_pubs b) (lb_tasks b) (push i (k, ev) (lb_entered b)) (lb_log b), true)
      else (b, false)
  | None => (b, false)
  end.

(** One step of call [k] of [Publish]; [order] is the order in which its loop ranges over the map. *)
Definition pub_step (k : nat) (order : list nat) (b : Bus) : option Bus :=
  match lb_pubs b !! k with
  | Some (PubStart ev) => if bool_decide (order ≡ₚ elements (dom (lb_subs b))) then Some (with_pub b k (PubRange ev order order [])) else None
  | Some (PubRange ev ids (i :: todo) missed) =>
      let '(b', sent) := send b k i ev in
      Some (with_pub b' k (PubRange ev ids todo (if sent then missed else missed ++ [i])))
  | Some (PubRange ev ids [] missed) =>
      let dropped := Z.of_nat (length missed) in
      let b' := mkBus (lb_subs b) (lb_dropped b + dropped) (lb_pubs b) (lb_tasks b) (lb_entered b) (lb_log b) in
      Some (with_pub b' k (PubEnd ev ids missed (if 0 <? dropped then Some ErrBusFailed else None)))
  | Some (PubEnd _ _ _ _) | None => None
  end.

(** No call of [Publish] holds the read lock. *)
Definition ranging (t : PubTask) : bool := match t with PubRange _ _ _ _ => true | _ => false end.

Definition unlocked (b : Bus) : bool := negb (existsb ranging (lb_pubs b)).

(** One step of call [i] of [Subscribe]; [done] says that its [select] takes the case of the context. *)
Definition sub_step (i : nat) (done : bool) (b : Bus) : option Bus :=
  match lb_tasks b !! i with
  | Some SubStart =>
      if unlocked b then Some (with_sub (mkBus (<[i := []]> (lb_subs b)) (lb_dropped b) (lb_pubs b) (lb_tasks b) (lb_entered b) (lb_log b)) i SubConnect) else None
  | Some SubConnect =>
      Some (with_sub (mkBus (lb_subs b) (lb_dropped b) (lb_pubs b) (lb_tasks b) (lb_entered b) (push i CbConnected (lb_log b))) i SubLoop)
  | Some SubLoop =>
      if done then Some (with_sub b i SubLeave)
      else match lb_subs b !! i with
           | Some ((_, ev) :: q) => Some (mkBus (<[i := q]> (lb_subs b)) (lb_dropped b) (lb_pubs b) (lb_tasks b) (lb_entered b) (push i (CbEvent ev) (lb_log b)))
           | _ => None
           end
  | Some SubLeave =>
      if unlocked b then Some (with_sub (mkBus (delete i (lb_subs b)) (lb_dropped b) (lb_pubs b) (lb_tasks b) (lb_entered b) (lb_log b)) i SubEnd) else None
  | Some SubEnd | None => None
  end.

Inductive step (b : Bus) : Bus → Prop :=
| st_publish ev : step b (mkBus (lb_subs b) (lb_dropped b) (lb_pubs b ++ [PubStart ev]) (lb_tasks b) (lb_entered b) (lb_log b))
| st_subscribe : step b (mkBus (lb_subs b) (lb_dropped b) (lb_pubs b) (lb_tasks b ++ [SubStart]) (lb_entered b) (lb_log b))
| st_pub k order b' : pub_step k order b = Some b' → step b b'
| st_sub i done b' : sub_step i done b = Some b' → step b b'.

Definition reachable : Bus → Prop := rtc step New.

(** [DegradedPublishes]. *)
Definition DegradedPublishes (b : Bus) : Z * bool := (lb_dropped b, true).

End LocalBus.

(** ** Drivers over a network *)

(** [json.Marshal] and [json.Unmarshal] of an event. *)
Class BusCodec := {
  marshal : Event → option string;
  unmarshal : string → option Event;
  unmarshal_marshal ev raw : marshal ev = Some raw → unmarshal raw = Some ev }.

Module PgBus.
Section PgBus.
Context `{BC : BusCodec}.

(** [Subscribe] and [listen]: connecting, LISTEN, [onConnected], waiting for notifications, the loop after [listen] returned, the
    sleep. *)
Inductive Phase := Connecting | Listen | Connected | Waiting | Lost | Sleeping | Stopped.

Record Net := mkNet {
  pn_backoff : Z; pn_connected : bool; pn_phase : Phase; pn_queue : list string; pn_published : list Event; pn_log : list Callback }.

Definition start : Net := mkNet MinBackoff false Connecting [] [] [].

Definition listening (p : Phase) : bool := match p with Connected | Waiting => true | _ => false end.

Definition at_phase (s : Net) (p : Phase) : Net := mkNet (pn_backoff s) (pn_connected s) p (pn_queue s) (pn_published s) (pn_log s).

(** [Publish] of any node, seen from this subscription: an event that cannot be encoded is not sent, and a notification reaches the
    connection if it listens. *)
Definition Publish (ev : Event) (s : Net) : option Net :=
  raw ← marshal ev;
  Some (mkNet (pn_backoff s) (pn_connected s) (pn_phase s) (if listening (pn_phase s) then pn_queue s ++ [raw] else pn_queue s)
    (pn_published s ++ [ev]) (pn_log s)).

(** Why a call returns: it succeeds, it fails, or the context is done. *)
Inductive Outcome := Success | Failure | Done.

Definition loop_step (o : Outcome) (s : Net) : option Net :=
  match pn_phase s, o with
  | Connecting, Success => Some (at_phase s Listen)
  | Listen, Success => Some (mkNet (pn_backoff s) (pn_connected s) Connected [] (pn_published s) (pn_log s))
  | Connecting, _ | Listen, _ => Some (at_phase s Lost)
  | Connected, _ => Some (mkNet (pn_backoff s) true Waiting (pn_queue s) (pn_published s) (pn_log s ++ [CbConnected]))
  | Waiting, Success =>
      match pn_queue s with
      | [] => None
      | raw :: q =>
          let cbs := match unmarshal raw with Some ev => [CbEvent ev] | None => [] end in
          Some (mkNet (pn_backoff s) (pn_connected s) Waiting q (pn_published s) (pn_log s ++ cbs))
      end
  | Waiting, _ => Some (mkNet (pn_backoff s) (pn_connected s) Lost [] (pn_published s) (pn_log s))
  | Lost, Done => Some (at_phase s Stopped)
  | Lost, _ => Some (mkNet (if pn_connected s then MinBackoff else pn_backoff s) (pn_connected s) Sleeping (pn_queue s) (pn_published s) (pn_log s))
  | Sleeping, _ =>
      let '(backoff, stopped) := Sleep (match o with Done => true | _ => false end) (pn_backoff s) in
      Some (if stopped then at_phase s Stopped else mkNet backoff false Connecting (pn_queue s) (pn_published s) (pn_log s))
  | Stopped, _ => None
  end.

Inductive step (s : Net) : Net → Prop :=
| st_publish ev s' : Publish ev s = Some s' → step s s'
| st_loop o s' : loop_step o s = Some s' → step s s'.

Definition reachable : Net → Prop := rtc step start.
End PgBus.
End PgBus.

Module RedisBus.
Section RedisBus.
Context `{BC : BusCodec}.

(** What [Receive] returns: the confirmation of a subscription or a message. *)
Inductive Received := Subscription (kind : string) | Payload (raw : string).

Inductive Phase := Receiving | Sleeping | Stopped.

(** [rn_link]: the client's connection is subscribed on the server; the library reconnects by itself, and the confirmation
    precedes the messages of the new subscription. *)
Record Net := mkNet {
  rn_backoff : Z; rn_phase : Phase; rn_link : bool; rn_queue : list Received; rn_published : list Event; rn_log : list Callback;
  rn_noReceivers : Z }.

Definition start : Net := mkNet MinBackoff Receiving false [] [] [] 0.

(** The server passes a published payload to the subscription. *)
Definition pass (ev : Event) (raw : string) (s : Net) : Net :=
  mkNet (rn_backoff s) (rn_phase s) (rn_link s) (if rn_link s then rn_queue s ++ [Payload raw] else rn_queue s) (rn_published s ++ [ev])
    (rn_log s) (rn_noReceivers s).

(** The answer to PUBLISH: the number of receivers, or an error, when the server may have passed the message on. *)
Inductive Answer := Receivers (n : Z) | Error (passed : bool).

(** [Publish] on this client. *)
Definition Publish (ev : Event) (a : Answer) (s : Net) : err * Net :=
  match marshal ev with
  | None => (Some (EWrap "bus/redis" (EOther "json")), s)
  | Some raw =>
      match a with
      | Error passed => (Some (EWrap "bus/redis: publish" (EOther "redis")), if passed then pass ev raw s else s)
      | Receivers n =>
          let s := pass ev raw s in
          if n =? 0
          then (Some ErrBusFailed, mkNet (rn_backoff s) (rn_phase s) (rn_link s) (rn_queue s) (rn_published s) (rn_log s) (rn_noReceivers s + 1))
          else (None, s)
      end
  end.

Definition DegradedPublishes (s : Net) : Z * bool := (rn_noReceivers s, true).

Definition reconnect (s : Net) : Net :=
  mkNet (rn_backoff s) (rn_phase s) true [Subscription "subscribe"] (rn_published s) (rn_log s) (rn_noReceivers s).

(** What the loop does with a received item. *)
Definition handle (m : Received) : list Callback :=
  match m with
  | Subscription kind => if (kind =? "subscribe")%string then [CbConnected] else []
  | Payload raw => match unmarshal raw with Some ev => [CbEvent ev] | None => [] end
  end.

(** An error of [Receive] may come with the loss of the connection. *)
Inductive Outcome := Success | Failure (lost : bool) | Done.

Definition loop_step (o : Outcome) (s : Net) : option Net :=
  match rn_phase s, o with
  | Receiving, Done => Some (mkNet (rn_backoff s) Stopped (rn_link s) (rn_queue s) (rn_published s) (rn_log s) (rn_noReceivers s))
  | Receiving, Failure lost =>
      Some (if lost then mkNet (rn_backoff s) Sleeping false [] (rn_published s) (rn_log s) (rn_noReceivers s)
            else mkNet (rn_backoff s) Sleeping (rn_link s) (rn_queue s) (rn_published s) (rn_log s) (rn_noReceivers s))
  | Receiving, Success =>
      match rn_queue s with
      | [] => None
      | m :: q => Some (mkNet MinBackoff Receiving (rn_link s) q (rn_published s) (rn_log s ++ handle m) (rn_noReceivers s))
      end
  | Sleeping, _ =>
      let '(backoff, stopped) := Sleep (match o with Done => true | _ => false end) (rn_backoff s) in
      Some (mkNet backoff (if stopped then Stopped else Receiving) (rn_link s) (rn_queue s) (rn_published s) (rn_log s) (rn_noReceivers s))
  | Stopped, _ => None
  end.

Inductive step (s : Net) : Net → Prop :=
| st_publish ev a : (a = Receivers 0 → rn_link s = false) → step s (Publish ev a s).2
| st_other ev raw : marshal ev = Some raw → step s (pass ev raw s)
| st_reconnect : rn_link s = false → step s (reconnect s)
| st_loop o s' : loop_step o s = Some s' → step s s'.

Definition reachable : Net → Prop := rtc step start.
End RedisBus.
End RedisBus.
