(* ===== verification/BusThms.v ===== *)
(** * The bus and the consumers

    The local bus passes every event to the channel of every subscriber or counts it and says so; a subscription hands over its
    channel in order; the network drivers lose events only between two connections, which they announce; and a node delivers the
    pushes of a conversation one at a time in the order in which they reached it. *)

From S2P Require Import Prelude Errcode Strconv Json Store PgStore World History UserMap SendQueue BusNode BusDrivers.

Local Open Scope Z_scope.

(** ** What a node makes of the calls *)

Record node_delivers `{BD : BusDecode} (cbs : list Callback) (n : BNode) : Prop := {
  (** the pushes of a conversation: those begun and those queued are the accepted ones, in order of arrival *)
  nd_order c : ∃ q, bn_queues n !! shard (length (bn_queues n)) c = Some q ∧
    keep (of_conv c) (bn_started n) ++ keep (of_conv c) q = keep (of_conv c) (accepted (bn_seen n));
  (** one delivery of a conversation at a time *)
  nd_one i j w w' p p' : bn_workers n !! i = Some w → bn_workers n !! j = Some w' → running w = Some p → running w' = Some p' →
    PP_ConversationId p = PP_ConversationId p' → i = j;
  (** every push is accepted or counted, what cannot be decoded is counted *)
  nd_seen : (bn_seen n).*1 = omap push_of cbs;
  nd_dropped : bn_pushDropped n = Z.of_nat (length (bn_seen n)) - Z.of_nat (length (accepted (bn_seen n)));
  nd_fails : bn_decodeFails n = Z.of_nat (length (keep (undecodable (bn_id n)) cbs));
  nd_bound i q : bn_queues n !! i = Some q → (length q ≤ bn_cap n)%nat;
  (** the other events are acted on in order, and every connection after the first asks the clients to pull again *)
  nd_acts : Z.of_nat (connections cbs) < 2 ^ 31 → bn_acts n = actions (bn_id n) 0 cbs }.

Lemma run_delivers `{BD : BusDecode} id w q cbs n :
  Z.max w 1 < 2 ^ 32 → bnode_run (newBNode id w q) cbs n → node_delivers cbs n.
Proof.
  intros Hw Hr. apply bnode_run_ok in Hr as Hn; [|by apply newBNode_ok]. split.
  - intros c. by apply (conversation_order cbs).
  - intros i j w1 w2 p p' Hi Hj Hp Hp' E. by rewrite <- (bo_running _ _ Hn i w1 p Hi Hp), <- (bo_running _ _ Hn j w2 p' Hj Hp'), E.
  - apply (bo_seen _ _ Hn).
  - apply (bo_dropped _ _ Hn).
  - apply (bo_fails _ _ Hn).
  - apply (bo_cap _ _ Hn).
  - intros Hc. by apply (bo_acts _ _ Hn).
Qed.

(** ** The local bus *)

Module Local.
Import LocalBus.

(** The event and the channels a call of [Publish] has sent it to. *)
Definition sent_to (t : PubTask) (ev : Event) (i : nat) : Prop :=
  match t with
  | PubStart _ => False
  | PubRange ev' ids todo missed => ev = ev' ∧ i ∈ ids ∧ i ∉ todo ∧ i ∉ missed
  | PubEnd ev' ids missed _ => ev = ev' ∧ i ∈ ids ∧ i ∉ missed
  end.

Definition misses (t : PubTask) : Z := match t with PubEnd _ _ missed _ => Z.of_nat (length missed) | _ => 0 end.

Definition pub_ok (b : Bus) (t : PubTask) : Prop :=
  match t with
  | PubStart _ => True
  | PubRange _ ids todo missed => NoDup ids ∧ todo `suffix_of` ids ∧ missed ⊆ ids ∧ (∀ i, i ∈ missed → i ∉ todo) ∧ ∀ i, i ∈ ids ↔ is_Some (lb_subs b !! i)
  | PubEnd _ ids missed r => NoDup ids ∧ missed ⊆ ids ∧ r = match missed with [] => None | _ => Some ErrBusFailed end
  end.

(** The state of subscription [i]: the calls it has made, its channel and what entered it. *)
Definition sub_ok (b : Bus) (i : nat) (t : option SubTask) : Prop :=
  let entered := (hist (lb_entered b) i).*2 in
  match t with
  | None | Some SubStart => lb_subs b !! i = None ∧ hist (lb_entered b) i = [] ∧ hist (lb_log b) i = []
  | Some SubConnect => ∃ q, lb_subs b !! i = Some q ∧ (length q ≤ queueSize)%nat ∧ hist (lb_log b) i = [] ∧ q.*2 = entered
  | Some SubLoop | Some SubLeave => ∃ q evs, lb_subs b !! i = Some q ∧ (length q ≤ queueSize)%nat ∧
      hist (lb_log b) i = CbConnected :: map CbEvent evs ∧ evs ++ q.*2 = entered
  | Some SubEnd => ∃ evs rest, lb_subs b !! i = None ∧ hist (lb_log b) i = CbConnected :: map CbEvent evs ∧ evs ++ rest = entered
  end.

Record bus_ok (b : Bus) : Prop := {
  ok_pubs : ∀ k t, lb_pubs b !! k = Some t → pub_ok b t;
  ok_sent : ∀ k ev i, (k, ev) ∈ hist (lb_entered b) i ↔ ∃ t, lb_pubs b !! k = Some t ∧ sent_to t ev i;
  ok_once : ∀ i, NoDup (hist (lb_entered b) i).*1;
  ok_dropped : lb_dropped b = sumT misses (lb_pubs b);
  ok_subs : ∀ i, sub_ok b i (lb_tasks b !! i) }.

Lemma hist_push_eq {A} i (x : A) m : hist (push i x m) i = hist m i ++ [x].
Proof. unfold hist at 1, push. by rewrite lookup_insert_eq. Qed.

Lemma hist_push_ne {A} i j (x : A) m : i ≠ j → hist (push i x m) j = hist m j.
Proof. intros. unfold hist at 1, push. by rewrite lookup_insert_ne. Qed.

Lemma unlocked_not_ranging b k ev ids todo missed : unlocked b = true → lb_pubs b !! k = Some (PubRange ev ids todo missed) → False.
Proof.
  unfold unlocked. intros Hu%negb_true_iff Hk. apply not_true_iff_false in Hu. apply Hu, existsb_exists. exists (PubRange ev ids todo missed).
  split; [|done]. apply list_elem_of_In, list_elem_of_lookup. eauto.
Qed.

Lemma New_ok : bus_ok New.
Proof.
  split; simpl; try done.
  - intros k ev i. unfold hist. rewrite lookup_empty. simpl. split; [by intros ?%not_elem_of_nil|by intros (t & ? & _)].
  - intros i. unfold hist. rewrite lookup_empty. constructor.
Qed.

(** A call of [Publish] moves on without touching a channel. *)
Lemma with_pub_ok b k t t' d :
  bus_ok b → lb_pubs b !! k = Some t → pub_ok b t' → (∀ ev i, sent_to t' ev i ↔ sent_to t ev i) → misses t' - misses t = d →
  bus_ok (mkBus (lb_subs b) (lb_dropped b + d) (<[k := t']> (lb_pubs b)) (lb_tasks b) (lb_entered b) (lb_log b)).
Proof.
  intros [H1 H2 H3 H4 H5] Hk Ht Hs Hd. split; simpl; [..|exact H5].
  - intros j u [(-> & <- & _)|[_ Hj]]%list_lookup_insert_Some; [exact Ht|]. exact (H1 _ _ Hj).
  - intros j ev i. rewrite H2. destruct (decide (j = k)) as [->|Hne]; [|by rewrite list_lookup_insert_ne].
    rewrite list_lookup_insert_eq by (by eapply lookup_lt_Some). rewrite Hk. split; intros (u & [= <-] & Hu); eexists; (split; [done|]); by apply Hs.
  - exact H3.
  - rewrite (sumT_insert _ _ _ _ _ Hk). lia.
Qed.

(** A send into a channel with room. *)
Lemma send_ok b k ev ids i todo missed q :
  bus_ok b → lb_pubs b !! k = Some (PubRange ev ids (i :: todo) missed) → lb_subs b !! i = Some q → (length q < queueSize)%nat →
  bus_ok (mkBus (<[i := q ++ [(k, ev)]]> (lb_subs b)) (lb_dropped b) (<[k := PubRange ev ids todo missed]> (lb_pubs b)) (lb_tasks b)
            (push i (k, ev) (lb_entered b)) (lb_log b)).
Proof.
  intros [H1 H2 H3 H4 H5] Hk Hq Hlen. pose proof (H1 _ _ Hk) as (Hnd & [pre Hsuf] & Hm & Hmt & Hids).
  assert (i ∉ todo) as Hit by (rewrite Hsuf in Hnd; apply NoDup_app in Hnd as (_ & _ & [? _]%NoDup_cons); done).
  assert (i ∉ missed) as Him by (intros Hi; apply (Hmt i Hi); left).
  assert (∀ x, ¬ (k, x) ∈ hist (lb_entered b) i) as Hnew.
  { intros x Hx. apply H2 in Hx as (t & Ht & Hs). rewrite Hk in Ht. injection Ht as <-. destruct Hs as (_ & _ & Hs & _). apply Hs. left. }
  split; simpl.
  - intros j u Hj. apply list_lookup_insert_Some in Hj as [(-> & <- & _)|[_ Hj]].
    + split_and!; [done|by exists (pre ++ [i]); rewrite <- app_assoc|done|set_solver|]. intros x. simpl. rewrite Hids. destruct (decide (x = i)) as [->|?].
      * rewrite Hq, lookup_insert_eq. split; eauto.
      * by rewrite lookup_insert_ne.
    + specialize (H1 _ _ Hj). destruct u; simpl in *; try done. destruct H1 as (? & ? & ? & ? & H1). split_and!; [done..|]. intros x. rewrite H1.
      destruct (decide (x = i)) as [->|?]; [rewrite Hq, lookup_insert_eq; split; eauto|by rewrite lookup_insert_ne].
  - intros j x l. destruct (decide (l = i)) as [->|Hl].
    + rewrite hist_push_eq, elem_of_app, H2, list_elem_of_singleton. destruct (decide (j = k)) as [->|Hj].
      * rewrite list_lookup_insert_eq by (by eapply lookup_lt_Some). split.
        -- intros [(t & Ht & Hs)|[= ->]]; [|eexists; split; [done|]; simpl; set_solver]. destruct (Hnew x). apply H2. eauto.
        -- intros (t & [= <-] & (-> & _)). by right.
      * rewrite list_lookup_insert_ne by done. split; [intros [?|[= ? ?]]; [done|congruence]|by left].
    + rewrite hist_push_ne by done. rewrite H2. destruct (decide (j = k)) as [->|Hj]; [|by rewrite list_lookup_insert_ne].
      rewrite list_lookup_insert_eq, Hk by (by eapply lookup_lt_Some). split; intros (t & [= <-] & Hs); eexists; (split; [done|]); simpl in *; set_solver.
  - intros l. destruct (decide (l = i)) as [->|Hl]; [|by rewrite hist_push_ne]. rewrite hist_push_eq, fmap_app. apply NoDup_app. split_and!; [done| |apply NoDup_singleton].
    intros x Hx Ek%list_elem_of_singleton. apply list_elem_of_fmap in Hx as ([k' x'] & E' & Hx). simpl in *. subst. by apply (Hnew x').
  - rewrite (sumT_insert _ _ _ _ _ Hk). simpl. lia.
  - intros l. specialize (H5 l). destruct (decide (l = i)) as [->|Hl].
    + unfold sub_ok in *. simpl. rewrite hist_push_eq, lookup_insert_eq, fmap_app. destruct (lb_tasks b !! i) as [[]|]; simpl in *.
      * by destruct H5 as [? _]; congruence.
      * destruct H5 as (q' & Hq' & Hl & Hlog & E). assert (q' = q) as -> by congruence. eexists. split_and!; [done|rewrite length_app; simpl; lia|done|]. by rewrite fmap_app, E.
      * destruct H5 as (q' & evs & Hq' & Hl & Hlog & E). assert (q' = q) as -> by congruence. eexists _, evs. split_and!; [done|rewrite length_app; simpl; lia|done|]. by rewrite fmap_app, app_assoc, E.
      * destruct H5 as (q' & evs & Hq' & Hl & Hlog & E). assert (q' = q) as -> by congruence. eexists _, evs. split_and!; [done|rewrite length_app; simpl; lia|done|]. by rewrite fmap_app, app_assoc, E.
      * by destruct H5 as (? & ? & ? & _); congruence.
      * by destruct H5 as [? _]; congruence.
    + unfold sub_ok in *. simpl. rewrite hist_push_ne, lookup_insert_ne by done. exact H5.
Qed.

Lemma pub_step_ok k order b b' : bus_ok b → pub_step k order b = Some b' → bus_ok b'.
Proof.
  intros Hb. unfold pub_step. destruct (lb_pubs b !! k) as [[ev|ev ids [|i todo] missed|]|] eqn:Hk; try done; pose proof (ok_pubs _ Hb _ _ Hk) as Hp; simpl in Hp.
  - case_bool_decide as Ho; [|done]. intros [= <-]. unfold with_pub. rewrite <- (Z.add_0_r (lb_dropped b)). eapply with_pub_ok; [done|exact Hk| |set_solver|done].
    split_and!; [rewrite Ho; apply NoDup_elements|done|set_solver|set_solver|]. intros i. rewrite Ho, elem_of_elements. apply elem_of_dom.
  - intros [= <-]. unfold with_pub. simpl. eapply with_pub_ok; [done|exact Hk| |set_solver|simpl; lia]. destruct Hp as (? & _ & ? & _). split_and!; [done..|]. by destruct missed.
  - destruct Hp as (Hnd & [pre Hsuf] & Hm & Hmt & Hids). assert (i ∈ ids) as Hi by set_solver. assert (H := proj1 (Hids i) Hi). destruct H as [q Hq].
    unfold send. rewrite Hq. destruct (Nat.ltb_spec (length q) queueSize) as [Hl|Hl]; intros [= <-]; [by apply (send_ok _ _ _ _ _ _ _ _ Hb Hk Hq)|].
    unfold with_pub. rewrite <- (Z.add_0_r (lb_dropped b)).
    assert (i ∉ todo) as Hit by (rewrite Hsuf in Hnd; apply NoDup_app in Hnd as (_ & _ & [? _]%NoDup_cons); done).
    eapply with_pub_ok; [done|exact Hk| |set_solver|done]. split_and!; [done|by exists (pre ++ [i]); rewrite <- app_assoc|set_solver|set_solver|done].
Qed.

(** A step of subscription [i]: it owns its channel and its calls. *)
Lemma with_sub_ok b i t subs log t' :
  bus_ok b → lb_tasks b !! i = Some t →
  (∀ j, j ≠ i → subs !! j = lb_subs b !! j ∧ hist log j = hist (lb_log b) j) →
  (unlocked b = true ∨ (is_Some (subs !! i) ↔ is_Some (lb_subs b !! i))) →
  sub_ok (mkBus subs (lb_dropped b) (lb_pubs b) (<[i := t']> (lb_tasks b)) (lb_entered b) log) i (Some t') →
  bus_ok (mkBus subs (lb_dropped b) (lb_pubs b) (<[i := t']> (lb_tasks b)) (lb_entered b) log).
Proof.
  intros [H1 H2 H3 H4 H5] Hi Hoth Hlock Ht. split; simpl; try done.
  - intros k t0 Hk. pose proof (H1 _ _ Hk) as Hp. destruct t0 as [| |]; simpl in *; try done. destruct Hp as (? & ? & ? & ? & Hids). split_and!; [done..|].
    destruct Hlock as [Hu|He]; [by destruct (unlocked_not_ranging _ _ _ _ _ _ Hu Hk)|]. intros j. rewrite Hids. destruct (decide (j = i)) as [->|Hne]; [done|].
    by destruct (Hoth j Hne) as [-> _].
  - intros j. destruct (decide (j = i)) as [->|Hne]; [by rewrite list_lookup_insert_eq by (by eapply lookup_lt_Some)|]. rewrite list_lookup_insert_ne by done.
    specialize (H5 j). destruct (Hoth j Hne) as [E1 E2]. unfold sub_ok in *. simpl. by rewrite E1, E2.
Qed.

Lemma sub_step_ok i done b b' : bus_ok b → sub_step i done b = Some b' → bus_ok b'.
Proof.
  intros Hb. unfold sub_step. destruct (lb_tasks b !! i) as [t|] eqn:Hi; [|done]. pose proof (ok_subs _ Hb i) as Hs. rewrite Hi in Hs. unfold sub_ok in Hs. destruct t; [..|done].
  - destruct (unlocked b) eqn:Hu; [|done]. intros [= <-]. apply (with_sub_ok b i SubStart); simpl; [done|done| |by left|].
    + intros j Hj. by rewrite lookup_insert_ne.
    + destruct Hs as (_ & He & Hl). exists []. rewrite lookup_insert_eq, He, Hl. split_and!; [done|simpl; lia|done|done].
  - destruct Hs as (q & Hq & Hl & Hlog & E). intros [= <-]. apply (with_sub_ok b i SubConnect); simpl; [done|done| |by right|].
    + intros j Hj. by rewrite hist_push_ne.
    + exists q, []. rewrite hist_push_eq, Hlog. by split_and!.
  - destruct Hs as (q & evs & Hq & Hl & Hlog & E). destruct done.
    + intros [= <-]. apply (with_sub_ok b i SubLoop); simpl; [done|done|done|by right|]. exists q, evs. by split_and!.
    + rewrite Hq. destruct q as [|[k ev] q]; [done|]. intros [= <-]. rewrite <- (list_insert_id (lb_tasks b) i SubLoop) at 1 by done.
      apply (with_sub_ok b i SubLoop); simpl; [done|done| |right|].
      * intros j Hj. by rewrite hist_push_ne, lookup_insert_ne.
      * rewrite lookup_insert_eq, Hq. split; eauto.
      * exists q, (evs ++ [ev]). rewrite lookup_insert_eq, hist_push_eq, Hlog, map_app. simpl in *. split_and!; [done|lia|done|]. by rewrite <- E, <- app_assoc.
  - destruct Hs as (q & evs & Hq & Hl & Hlog & E). destruct (unlocked b) eqn:Hu; [|done]. intros [= <-]. apply (with_sub_ok b i SubLeave); simpl; [done|done| |by left|].
    + intros j Hj. by rewrite lookup_delete_ne.
    + exists evs, q.*2. rewrite lookup_delete_eq. by split_and!.
Qed.

Lemma step_ok b b' : bus_ok b → step b b' → bus_ok b'.
Proof.
  intros Hb. assert (Hb' := Hb). destruct Hb' as [H1 H2 H3 H4 H5]. destruct 1 as [ev| |k order b' Hs|i done b' Hs].
  - split; simpl; try done.
    + intros k t Hk. assert (∀ t, lb_pubs b !! k = Some t → pub_ok b t) by apply H1. apply lookup_app_Some in Hk as [Hk|[_ Hk]]; [by apply H1 in Hk|]. by apply list_lookup_singleton_Some in Hk as [_ <-].
    + intros k x i. rewrite H2. split; intros (t & Ht & Hs).
      * exists t. split; [by apply lookup_app_l_Some|done].
      * apply lookup_app_Some in Ht as [Ht|[_ Ht]]; [eauto|]. by apply list_lookup_singleton_Some in Ht as [_ <-].
    + rewrite sumT_app. simpl. lia.
  - split; simpl; try done. intros i. specialize (H5 i). destruct (decide (i < length (lb_tasks b))%nat) as [Hl|Hl].
    + by rewrite lookup_app_l.
    + rewrite lookup_ge_None_2 in H5 by lia. rewrite lookup_app_r by lia. destruct (i - length (lb_tasks b))%nat eqn:E; simpl; exact H5.
  - by eapply pub_step_ok.
  - by eapply sub_step_ok.
Qed.

Lemma bus_reachable_ok b : reachable b → bus_ok b.
Proof. intros H. apply (rtc_ind_r (R := step) bus_ok New); [apply New_ok| |exact H]. intros b1 b2 _ Hs IH. by apply (step_ok b1). Qed.
End Local.

(** ** Sessions of the network drivers *)

(** A session [(start, len)]: the calls for the [len] events published from number [start] on. *)
Definition session (published : list Event) (x : nat * nat) : list Callback := CbConnected :: map CbEvent (firstn x.2 (skipn x.1 published)).

(** Sessions follow each other: each is within what was published, and begins where the one before has ended or later. *)
Fixpoint in_sequence (lo : nat) (ss : list (nat * nat)) (hi : nat) : Prop :=
  match ss with
  | [] => (lo ≤ hi)%nat
  | (start, len) :: ss' => (lo ≤ start)%nat ∧ in_sequence (start + len) ss' hi
  end.

(** The calls of a subscription: whole sessions, so that events are lost only before a call of [onConnected]. *)
Definition announced (published : list Event) (cbs : list Callback) (ss : list (nat * nat)) : Prop :=
  cbs = flat_map (session published) ss ∧ in_sequence 0 ss (length published).

Lemma in_sequence_le lo ss hi : in_sequence lo ss hi → (lo ≤ hi)%nat.
Proof. revert lo. induction ss as [|[a n] ss IH]; intros lo; simpl; [done|]. intros [? H%IH]. lia. Qed.

Lemma in_sequence_mono lo ss hi hi' : (hi ≤ hi')%nat → in_sequence lo ss hi → in_sequence lo ss hi'.
Proof. intros Hh. revert lo. induction ss as [|[a n] ss IH]; intros lo; simpl; [lia|]. intros [? ?%IH]. done. Qed.

Lemma in_sequence_app lo ss hi a n : in_sequence lo ss hi → (hi ≤ a)%nat → in_sequence lo (ss ++ [(a, n)]) (a + n).
Proof.
  intros H Ha. revert lo H. induction ss as [|[b m] ss IH]; intros lo; simpl; [lia|]. intros [? ?]. split; [done|]. by apply IH.
Qed.

Lemma in_sequence_weaken lo ss a n hi : in_sequence lo (ss ++ [(a, n)]) hi → in_sequence lo ss a.
Proof. revert lo. induction ss as [|[b m] ss IH]; intros lo; simpl; [by intros [? _]|]. intros [? ?]. split; [done|by apply IH]. Qed.

(** Later publications do not change the sessions. *)
Lemma sessions_publish pub ev ss lo :
  in_sequence lo ss (length pub) → flat_map (session (pub ++ [ev])) ss = flat_map (session pub) ss.
Proof.
  revert lo. induction ss as [|[a n] ss IH]; intros lo; simpl; [done|]. intros [Ha H]. rewrite (IH _ H). f_equal. unfold session. simpl. do 2 f_equal.
  apply in_sequence_le in H. rewrite skipn_app, firstn_app. replace (n - length (skipn a pub))%nat with 0%nat; [by rewrite app_nil_r|]. rewrite length_skipn. lia.
Qed.

Lemma announced_publish pub ev cbs ss : announced pub cbs ss → announced (pub ++ [ev]) cbs ss.
Proof.
  intros [-> H]. split; [by rewrite (sessions_publish _ _ _ _ H)|]. rewrite length_app. eapply in_sequence_mono; [|done]. lia.
Qed.

Lemma announced_connect pub cbs ss : announced pub cbs ss → announced pub (cbs ++ [CbConnected]) (ss ++ [(length pub, 0%nat)]).
Proof.
  intros [-> H]. split; [by rewrite flat_map_app|]. rewrite <- (Nat.add_0_r (length pub)) at 2. by apply (in_sequence_app 0 ss (length pub)).
Qed.

(** A session that began when [a] events were published takes its next event. *)
Lemma announced_event pub cbs ss a n ev :
  announced pub cbs (ss ++ [(a, n)]) → pub !! (a + n)%nat = Some ev → announced pub (cbs ++ [CbEvent ev]) (ss ++ [(a, S n)]).
Proof.
  intros [-> H] Hev. pose proof (lookup_lt_Some _ _ _ Hev) as Hl. split.
  - rewrite !flat_map_app, <- app_assoc. f_equal. unfold session. simpl. rewrite !app_nil_r. f_equal. rewrite <- (map_app CbEvent _ [ev]). f_equal.
    symmetry. apply take_S_r. rewrite lookup_drop. done.
  - eapply in_sequence_mono; [|eapply (in_sequence_app 0 ss a a (S n)); [by eapply in_sequence_weaken|done]]. lia.
Qed.

Lemma connections_sessions pub ss : connections (flat_map (session pub) ss) = length ss.
Proof.
  induction ss as [|x ss IH]; [done|]. cbn [flat_map]. rewrite connections_app, IH. unfold session, connections. simpl. f_equal.
  match goal with |- (length ?l + _)%nat = _ => assert (l = []) as -> end; [|done]. apply keep_none. by intros cb (ev & -> & _)%list_elem_of_fmap.
Qed.

Section Network.
Context `{BC : BusCodec}.

(** The postgres driver: while it listens, the notifications that wait are the events published since those it has handed over. *)
Definition pg_ok (s : PgBus.Net) : Prop :=
  MinBackoff ≤ PgBus.pn_backoff s ≤ MaxBackoff ∧
  ∃ ss, announced (PgBus.pn_published s) (PgBus.pn_log s) ss ∧
    match PgBus.pn_phase s with
    | PgBus.Connected => ∃ a, (a ≤ length (PgBus.pn_published s))%nat ∧ in_sequence 0 ss a ∧
        Forall2 (λ ev raw, marshal ev = Some raw) (skipn a (PgBus.pn_published s)) (PgBus.pn_queue s)
    | PgBus.Waiting => ∃ ss' a n, ss = ss' ++ [(a, n)] ∧
        Forall2 (λ ev raw, marshal ev = Some raw) (skipn (a + n) (PgBus.pn_published s)) (PgBus.pn_queue s)
    | _ => True
    end.

Lemma announced_le pub cbs ss a n : announced pub cbs (ss ++ [(a, n)]) → (a + n ≤ length pub)%nat.
Proof.
  intros [_ H]. revert H. generalize 0%nat. induction ss as [|[b m] ss IH]; intros lo; simpl; [intros [? ?]; lia|]. intros [_ ?%IH]. done.
Qed.

(** A session may begin before the call that announces it. *)
Lemma announced_connect_at pub cbs ss a :
  (a ≤ length pub)%nat → in_sequence 0 ss a → announced pub cbs ss → announced pub (cbs ++ [CbConnected]) (ss ++ [(a, 0%nat)]).
Proof.
  intros Ha Hs [-> H]. split; [by rewrite flat_map_app|]. eapply in_sequence_mono; [exact Ha|]. rewrite <- (Nat.add_0_r a) at 2. by apply (in_sequence_app 0 ss a).
Qed.

Lemma Sleep_range done d : MinBackoff ≤ d ≤ MaxBackoff → MinBackoff ≤ (Sleep done d).1 ≤ MaxBackoff.
Proof. unfold Sleep, MinBackoff, MaxBackoff, Second. destruct done; simpl; lia. Qed.

Lemma Forall2_publish (pub : list Event) (raws : list string) ev raw k :
  (k ≤ length pub)%nat → marshal ev = Some raw → Forall2 (λ ev raw, marshal ev = Some raw) (skipn k pub) raws →
  Forall2 (λ ev raw, marshal ev = Some raw) (skipn k (pub ++ [ev])) (raws ++ [raw]).
Proof. intros Hk Hm H. rewrite skipn_app. replace (k - length pub)%nat with 0%nat by lia. apply Forall2_app; [done|]. by repeat constructor. Qed.

(** The first waiting payload is the next event. *)
Lemma next_event (pub : list Event) raw q k :
  Forall2 (λ ev raw, marshal ev = Some raw) (skipn k pub) (raw :: q) →
  ∃ ev, pub !! k = Some ev ∧ unmarshal raw = Some ev ∧ Forall2 (λ ev raw, marshal ev = Some raw) (skipn (S k) pub) q.
Proof.
  intros H. inversion H as [|ev ? evs ? Hm Hr E]; subst. exists ev. split_and!; [|by apply unmarshal_marshal|].
  - rewrite <- (Nat.add_0_r k), <- lookup_drop. by rewrite <- E.
  - replace (S k) with (k + 1)%nat by lia. rewrite <- drop_drop. by rewrite <- E.
Qed.

Lemma pg_step_ok s s' : pg_ok s → PgBus.step s s' → pg_ok s'.
Proof.
  destruct s as [bo conn ph queue pub log]. intros (Hb & ss & Ha & Hq) Hs. destruct Hs as [ev s' Hp|o s' Hl]; simpl in *.
  - unfold PgBus.Publish in Hp. destruct (marshal ev) as [raw|] eqn:Em; [|done]. injection Hp as <-. split; [done|]. exists ss. simpl. split; [by apply announced_publish|].
    destruct ph; simpl; try done.
    + destruct Hq as (a & Hle & Hin & Hf). exists a. rewrite length_app. split_and!; [lia|done|by apply Forall2_publish].
    + destruct Hq as (ss' & a & n & -> & Hf). exists ss', a, n. split; [done|]. apply Forall2_publish; [by eapply announced_le|done|done].
  - unfold PgBus.loop_step in Hl. destruct ph; simpl in Hl.
    + destruct o; injection Hl as <-; (split; [done|]); exists ss; done.
    + destruct o; injection Hl as <-; (split; [done|]); exists ss; simpl; (split; [done|]); try done. exists (length pub). rewrite skipn_all. split_and!; [done|apply Ha|constructor].
    + injection Hl as <-. destruct Hq as (a & Hle & Hin & Hf). split; [done|]. exists (ss ++ [(a, 0%nat)]). simpl. split; [by apply announced_connect_at|].
      exists ss, a, 0%nat. rewrite Nat.add_0_r. done.
    + destruct o; [|injection Hl as <-; (split; [done|]); by exists ss..]. destruct queue as [|raw q]; [done|]. destruct Hq as (ss' & a & n & -> & Hf).
      apply next_event in Hf as (ev & Hev & Hu & Hf). simpl in Hl. rewrite Hu in Hl. injection Hl as <-. split; [done|]. exists (ss' ++ [(a, S n)]). simpl. split; [by apply announced_event|].
      exists ss', a, (S n). split; [done|]. by rewrite Nat.add_succ_r.
    + destruct o; injection Hl as <-; (split; [destruct conn; simpl; unfold MinBackoff, MaxBackoff, Second in *; lia|]); by exists ss.
    + pose proof (Sleep_range (match o with PgBus.Done => true | _ => false end) bo Hb) as Hr. destruct (Sleep _ bo) as [bo' []]; injection Hl as <-; (split; [done|]); by exists ss.
    + done.
Qed.

Lemma pg_reachable_ok s : PgBus.reachable s → pg_ok s.
Proof.
  intros H. apply (rtc_ind_r (R := PgBus.step) pg_ok PgBus.start); [| |exact H].
  - split; [unfold PgBus.start, MinBackoff, MaxBackoff, Second; simpl; lia|]. exists []. split; [split; simpl; [done|lia]|done].
  - intros s1 s2 _ Hs IH. by apply (pg_step_ok s1).
Qed.

(** The redis driver: the confirmation of a new subscription comes before its messages. *)
Definition rd_ok (s : RedisBus.Net) : Prop :=
  MinBackoff ≤ RedisBus.rn_backoff s ≤ MaxBackoff ∧
  ∃ ss, announced (RedisBus.rn_published s) (RedisBus.rn_log s) ss ∧
    if RedisBus.rn_link s then
      (∃ a raws, (a ≤ length (RedisBus.rn_published s))%nat ∧ in_sequence 0 ss a ∧
         RedisBus.rn_queue s = RedisBus.Subscription "subscribe" :: map RedisBus.Payload raws ∧
         Forall2 (λ ev raw, marshal ev = Some raw) (skipn a (RedisBus.rn_published s)) raws) ∨
      (∃ ss' a n raws, ss = ss' ++ [(a, n)] ∧ RedisBus.rn_queue s = map RedisBus.Payload raws ∧
         Forall2 (λ ev raw, marshal ev = Some raw) (skipn (a + n) (RedisBus.rn_published s)) raws)
    else RedisBus.rn_queue s = [].

Lemma pass_ok ev raw s : marshal ev = Some raw → rd_ok s → rd_ok (RedisBus.pass ev raw s).
Proof.
  destruct s as [bo ph link queue pub log nr]. intros Em (Hb & ss & Ha & Hq). split; [done|]. exists ss. simpl in *. split; [by apply announced_publish|].
  destruct link; [|done]. destruct Hq as [(a & raws & Hle & Hin & -> & Hf)|(ss' & a & n & raws & -> & -> & Hf)]; [left|right].
  - exists a, (raws ++ [raw]). rewrite length_app, map_app. split_and!; [lia|done|done|by apply Forall2_publish].
  - exists ss', a, n, (raws ++ [raw]). rewrite map_app. split_and!; [done|done|]. apply Forall2_publish; [by eapply announced_le|done|done].
Qed.

Lemma rd_step_ok s s' : rd_ok s → RedisBus.step s s' → rd_ok s'.
Proof.
  intros Hok Hs. destruct Hs as [ev a _|ev raw Em|Hl|o s' Hl].
  - unfold RedisBus.Publish. destruct (marshal ev) as [raw|] eqn:Em; [|done]. pose proof (pass_ok ev raw s Em Hok) as Hp.
    destruct a as [n|[]]; simpl; [|done..]. by destruct (n =? 0).
  - by apply pass_ok.
  - destruct s as [bo ph link queue pub log nr]. destruct Hok as (Hb & ss & Ha & Hq). simpl in *. subst link. split; [done|]. exists ss. simpl. split; [done|]. left.
    exists (length pub), []. rewrite skipn_all. split_and!; [done|apply Ha|done|constructor].
  - destruct s as [bo ph link queue pub log nr]. destruct Hok as (Hb & ss & Ha & Hq). unfold RedisBus.loop_step in Hl. destruct ph; simpl in *.
    + destruct o as [|lost|]; [|destruct lost; injection Hl as <-; (split; [done|]); by exists ss|injection Hl as <-; split; [done|]; by exists ss].
      destruct queue as [|m q]; [done|]. injection Hl as <-. split; [unfold MinBackoff, MaxBackoff, Second; simpl; lia|]. simpl.
      destruct link; [|done]. destruct Hq as [(a & raws & Hle & Hin & [= -> ->] & Hf)|(ss' & a & n & raws & -> & E & Hf)].
      * exists (ss ++ [(a, 0%nat)]). simpl. split; [by apply announced_connect_at|]. right. exists ss, a, 0%nat, raws. by rewrite Nat.add_0_r.
      * destruct raws as [|raw raws]; [done|]. injection E as -> ->. apply next_event in Hf as (ev & Hev & Hu & Hf). simpl. rewrite Hu.
        exists (ss' ++ [(a, S n)]). split; [by apply announced_event|]. right. exists ss', a, (S n), raws. by rewrite Nat.add_succ_r.
    + pose proof (Sleep_range (match o with RedisBus.Done => true | _ => false end) bo Hb) as Hr. destruct (Sleep _ bo) as [bo' []]; injection Hl as <-; (split; [done|]); by exists ss.
    + done.
Qed.

Lemma rd_reachable_ok s : RedisBus.reachable s → rd_ok s.
Proof.
  intros H. apply (rtc_ind_r (R := RedisBus.step) rd_ok RedisBus.start); [| |exact H].
  - split; [unfold RedisBus.start, MinBackoff, MaxBackoff, Second; simpl; lia|]. exists []. split; [split; simpl; [done|lia]|done].
  - intros s1 s2 _ Hs IH. by apply (rd_step_ok s1).
Qed.
End Network.

(** ** Theorems *)

Definition is_resync (a : Action) : bool := match a with AResync _ => true | _ => false end.

Lemma action_no_resync `{BD : BusDecode} id ev : keep is_resync (default [] (action_of id ev)) = [].
Proof.
  unfold action_of. repeat (case_match; simpl; try done); match goal with |- context [_ <$> ?o] => by destruct o end.
Qed.

Lemma resyncs_of `{BD : BusDecode} id cbs k :
  length (keep is_resync (actions id k cbs)) = (if (k =? 0)%nat then connections cbs - 1 else connections cbs)%nat.
Proof.
  revert k. induction cbs as [|[|ev] cbs IH]; intros k.
  - by destruct k.
  - change (connections (CbConnected :: cbs)) with (S (connections cbs)). cbn [actions]. rewrite keep_app, length_app, IH. destruct k; simpl; lia.
  - change (connections (CbEvent ev :: cbs)) with (connections cbs). cbn [actions]. by rewrite keep_app, action_no_resync, app_nil_l, IH.
Qed.

Lemma events_of_session evs : events_of (CbConnected :: map CbEvent evs) = evs.
Proof. unfold events_of. simpl. induction evs as [|e evs IH]; simpl; [done|]. by f_equal. Qed.


(** What was published and the calls of a subscription over PostgreSQL or Redis, and its backoff. *)
Inductive network `{BC : BusCodec} : list Event → list Callback → Z → Prop :=
| over_pg s : PgBus.reachable s → network (PgBus.pn_published s) (PgBus.pn_log s) (PgBus.pn_backoff s)
| over_redis s : RedisBus.reachable s → network (RedisBus.rn_published s) (RedisBus.rn_log s) (RedisBus.rn_backoff s).


(** ** Runs that play *)

Inductive LocalMove := MPublish (ev : Event) | MSubscribe | MPub (k : nat) (order : list nat) | MSub (i : nat) (done : bool).

Definition local_move (m : LocalMove) (b : LocalBus.Bus) : option LocalBus.Bus :=
  match m with
  | MPublish ev => Some (LocalBus.mkBus (LocalBus.lb_subs b) (LocalBus.lb_dropped b) (LocalBus.lb_pubs b ++ [LocalBus.PubStart ev]) (LocalBus.lb_tasks b) (LocalBus.lb_entered b) (LocalBus.lb_log b))
  | MSubscribe => Some (LocalBus.mkBus (LocalBus.lb_subs b) (LocalBus.lb_dropped b) (LocalBus.lb_pubs b) (LocalBus.lb_tasks b ++ [LocalBus.SubStart]) (LocalBus.lb_entered b) (LocalBus.lb_log b))
  | MPub k order => LocalBus.pub_step k order b
  | MSub i done => LocalBus.sub_step i done b
  end.

Definition play {M S} (move : M → S → option S) (ms : list M) (s : option S) : option S := foldl (λ s m, s ≫= move m) s ms.

Lemma play_rtc {M S} (move : M → S → option S) (R : S → S → Prop) :
  (∀ m s s', move m s = Some s' → R s s') → ∀ ms s s', play move ms (Some s) = Some s' → rtc R s s'.
Proof.
  intros Hm ms. induction ms as [|m ms IH] using rev_ind; intros s s'; unfold play; simpl; [by intros [= ->]|]. rewrite foldl_app. simpl.
  fold (play move ms (Some s)). destruct (play move ms (Some s)) as [s1|] eqn:E; [|done]. simpl. intros H%Hm. by eapply rtc_r; [apply IH|].
Qed.

Lemma local_play_reachable ms b : play local_move ms (Some LocalBus.New) = Some b → LocalBus.reachable b.
Proof.
  apply play_rtc. intros [ev| |k order|i done] s s' H; simpl in H; [injection H as <-; constructor|injection H as <-; constructor|by eapply LocalBus.st_pub|by eapply LocalBus.st_sub].
Qed.

Inductive NodeMove := MCall (cb : Callback) | MSpawn (ok : bool) | MWork (i : nat) (recv : bool).

Definition node_move `{BD : BusDecode} (m : NodeMove) (n : BNode) : option BNode :=
  match m with MCall cb => Some (on_callback cb n) | MSpawn ok => spawn ok n | MWork i recv => worker_step i recv n end.

Definition calls_of (ms : list NodeMove) : list Callback := omap (λ m, match m with MCall cb => Some cb | _ => None end) ms.

Lemma node_play_run `{BD : BusDecode} n0 ms n : play node_move ms (Some n0) = Some n → bnode_run n0 (calls_of ms) n.
Proof.
  revert n. induction ms as [|m ms IH] using rev_ind; intros n; [intros [= <-]; constructor|]. unfold play, calls_of. rewrite foldl_app, omap_app. simpl.
  fold (play node_move ms (Some n0)). fold (calls_of ms). destruct (play node_move ms (Some n0)) as [n1|]; [|done]. simpl. specialize (IH n1 eq_refl).
  destruct m as [cb|ok|i recv]; simpl; [intros [= <-]; by constructor|rewrite app_nil_r; intros H; by eapply br_spawn|rewrite app_nil_r; intros H; by eapply br_worker].
Qed.

(** Two pushes of a conversation, a kick and an event nobody can read. *)
Definition demo_push (s : Z) : PushPayload := mkPushPayload "sg_team" s 2 "alice" "" "" "team" true None.

#[local] Instance demo_decode : BusDecode := {|
  decodePush p := if (p =? "push 1")%string then Some (demo_push 1) else if (p =? "push 2")%string then Some (demo_push 2) else None;
  decodeKick p := if (p =? "kick")%string then Some ("bob"%string, 1, "t"%string) else None;
  decodeRead _ := None; decodeGroup _ := None; decodePresence _ := None |}.

Definition ev_push1 : Event := mkEvent "push" "n1" "push 1".
Definition ev_push2 : Event := mkEvent "push" "n1" "push 2".
Definition ev_kick : Event := mkEvent "kick" "n2" "kick".
Definition ev_bad : Event := mkEvent "push" "n3" "?".

(** Subscribers 0 and 1, four publications of which the first two overlap. *)
Definition demo_moves : list LocalMove :=
  [MSubscribe; MSubscribe; MSub 0 false; MSub 0 false; MSub 1 false; MPublish ev_push1; MPublish ev_kick; MPub 0 [0%nat; 1%nat]; MPub 1 [1%nat; 0%nat]; MPub 0 []; MPub 1 [];
   MPub 1 []; MPub 0 []; MPub 1 []; MPub 0 []; MPublish ev_bad; MPub 2 [1%nat; 0%nat]; MPub 2 []; MPub 2 []; MPub 2 []; MPublish ev_push2; MPub 3 [0%nat; 1%nat]; MPub 3 []; MPub 3 []; MPub 3 [];
   MSub 0 false; MSub 0 false; MSub 0 false; MSub 0 false].

Definition demo_bus : LocalBus.Bus := default LocalBus.New (play local_move demo_moves (Some LocalBus.New)).

(** The node of subscriber 0: both pushes on one shard, the second begun after the first was delivered. *)
Definition demo_calls : list Callback := LocalBus.hist (LocalBus.lb_log demo_bus) 0.

Definition demo_node_moves : list NodeMove := [MSpawn true; MSpawn true] ++ map MCall demo_calls ++ [MWork 1 true; MWork 1 true; MWork 1 true].

Definition demo_node : BNode := default (newBNode "n2" 2 8) (play node_move demo_node_moves (Some (newBNode "n2" 2 8))).


#[local] Program Instance demo_codec : BusCodec := {|
  marshal ev := if bool_decide (ev = ev_push1) then Some "1"%string else if bool_decide (ev = ev_push2) then Some "2"%string else if bool_decide (ev = ev_kick) then Some "3"%string else None;
  unmarshal raw := if (raw =? "1")%string then Some ev_push1 else if (raw =? "2")%string then Some ev_push2 else if (raw =? "3")%string then Some ev_kick else None |}.
Next Obligation. intros ev raw. simpl. repeat case_bool_decide; intros [= <-]; by subst. Qed.

Inductive PgMove := MNotify (ev : Event) | MLoop (o : PgBus.Outcome).

Definition pg_move (m : PgMove) (s : PgBus.Net) : option PgBus.Net :=
  match m with MNotify ev => PgBus.Publish ev s | MLoop o => PgBus.loop_step o s end.

Lemma pg_play_reachable ms s : play pg_move ms (Some PgBus.start) = Some s → PgBus.reachable s.
Proof. apply play_rtc. intros [ev|o] s1 s2 H; simpl in H; [by eapply PgBus.st_publish|by eapply PgBus.st_loop]. Qed.

(** A first attempt that fails, a session, a lost connection during which an event is published, and a second session. *)
Definition demo_pg_moves : list PgMove :=
  [MLoop PgBus.Failure; MLoop PgBus.Success; MLoop PgBus.Success; MLoop PgBus.Success; MLoop PgBus.Success; MLoop PgBus.Success; MNotify ev_push1; MLoop PgBus.Success;
   MLoop PgBus.Failure; MNotify ev_kick; MLoop PgBus.Success; MLoop PgBus.Success; MLoop PgBus.Success; MLoop PgBus.Success; MNotify ev_push2; MLoop PgBus.Success; MLoop PgBus.Success].

Definition demo_pg : PgBus.Net := default PgBus.start (play pg_move demo_pg_moves (Some PgBus.start)).

Definition demo_pg_node_moves : list NodeMove := MSpawn true :: map MCall (PgBus.pn_log demo_pg) ++ [MWork 0 true; MWork 0 true; MWork 0 true].

Definition demo_pg_node : BNode := default (newBNode "n2" 1 8) (play node_move demo_pg_node_moves (Some (newBNode "n2" 1 8))).

