(* ===== verification/Heap.v ===== *)
(** * Binary heaps ([container/heap])

    The heap functions of Go's standard library over its [heap.Interface], with the contract their callers rely on: from a heap
    (or a heap whose entry [i] changed its key) they make a heap again, using only swaps of entries in range. The loops run on
    fuel: [up] visits at most [j + 1] entries and [down] at most [n], so the fuel given is never used up. *)

From S2P Require Import Prelude.

Class Interface (H : Type) := {
  Len : H → nat;
  Less : H → nat → nat → bool;
  Swap : nat → nat → H → H;
  PopLast : H → H }.

Section Functions.
Context {H : Type} `{I : Interface H}.

Definition parent (j : nat) : nat := (j - 1) / 2.

Fixpoint up_loop (fuel j : nat) (h : H) : H :=
  match fuel with
  | O => h
  | S fuel =>
      let i := parent j in
      if (i =? j) || negb (Less h j i) then h else up_loop fuel i (Swap i j h)
  end.

Definition up (j : nat) (h : H) : H := up_loop (S j) j h.

Fixpoint down_loop (fuel i n : nat) (h : H) : nat * H :=
  match fuel with
  | O => (i, h)
  | S fuel =>
      let j1 := 2 * i + 1 in
      if n <=? j1 then (i, h)
      else
        let j := if (j1 + 1 <? n) && Less h (j1 + 1) j1 then j1 + 1 else j1 in
        if negb (Less h j i) then (i, h) else down_loop fuel j n (Swap i j h)
  end.

Definition down (i0 n : nat) (h : H) : bool * H := let '(i, h') := down_loop (S n) i0 n h in (i0 <? i, h').

Definition settle (i n : nat) (h : H) : H := let '(moved, h') := down i n h in if moved then h' else up i h'.

(** [Push(h, x)]: the caller's [Push] appends, then [up]. *)
Definition Push (append : H → H) (h : H) : H := let h' := append h in up (Len h' - 1) h'.

Definition Pop (h : H) : H := let n := Len h - 1 in PopLast (down 0 n (Swap 0 n h)).2.

Definition Remove (i : nat) (h : H) : H :=
  let n := Len h - 1 in PopLast (if n =? i then h else settle i n (Swap i n h)).

Definition Fix (i : nat) (h : H) : H := settle i (Len h) h.

(** What swaps in range keep, the heap functions keep. *)
Definition Stable (N : nat) (P : H → Prop) : Prop := ∀ i j h, i < N → j < N → P h → P (Swap i j h).

Lemma parent_lt j : 0 < j → parent j < j.
Proof. intros Hj. unfold parent. apply Nat.Div0.div_lt_upper_bound. lia. Qed.

Lemma parent_children k i : 0 < k → parent k = i ↔ k = 2 * i + 1 ∨ k = 2 * i + 2.
Proof.
  intros Hk. unfold parent. pose proof (Nat.div_mod (k - 1) 2 ltac:(lia)). pose proof (Nat.mod_upper_bound (k - 1) 2 ltac:(lia)). lia.
Qed.

Lemma up_loop_stable N P fuel : Stable N P → ∀ j h, j < N → P h → P (up_loop fuel j h).
Proof.
  intros HP. induction fuel as [|fuel IH]; intros j h Hj Hh; simpl; [done|]. destruct (Nat.eqb_spec (parent j) j) as [|Hne]; simpl; [done|].
  destruct (Less h j (parent j)); simpl; [|done]. assert (0 < j) by (destruct j; [done|lia]). pose proof (parent_lt j).
  apply IH; [lia|]. apply HP; [lia|lia|done].
Qed.

Lemma down_loop_stable N P fuel : Stable N P → ∀ i n h, n ≤ N → P h → P (down_loop fuel i n h).2.
Proof.
  intros HP. induction fuel as [|fuel IH]; intros i n h Hn Hh; cbn [down_loop]; [done|]. destruct (Nat.leb_spec n (2 * i + 1)); [done|].
  set (j := if _ && _ then _ else _). assert (i < j < n) by (unfold j; destruct (Nat.ltb_spec (2 * i + 1 + 1) n); destruct (Less h _ _); simpl; lia).
  destruct (Less h j i); simpl; [|done]. apply IH; [done|]. apply HP; [lia|lia|done].
Qed.

Lemma settle_stable N P i n h : Stable N P → i < N → n ≤ N → P h → P (settle i n h).
Proof.
  intros HP Hi Hn Hh. unfold settle, down. pose proof (down_loop_stable N P (S n) HP i n h Hn Hh) as Hd. destruct (down_loop _ _ _ _) as [i' h'].
  destruct (i <? i'); [done|]. by apply (up_loop_stable N P).
Qed.
End Functions.

(** ** The contract *)

(** Entries have keys compared by [ltb], a strict weak order; swaps exchange them. *)
Class Laws {H K : Type} (I : Interface H) (key : H → nat → K) (ltb : K → K → bool) := {
  ltb_asym a b : ltb a b = true → ltb b a = false;
  ltb_trans a b c : ltb b a = false → ltb c b = false → ltb c a = false;
  Less_key h i j : i < Len h → j < Len h → Less h i j = ltb (key h i) (key h j);
  Len_Swap h i j : i < Len h → j < Len h → Len (Swap i j h) = Len h;
  key_Swap h i j k : i < Len h → j < Len h → key (Swap i j h) k = if decide (k = i) then key h j else if decide (k = j) then key h i else key h k }.

Section Order.
Context {H K : Type} `{I : Interface H} (key : H → nat → K) (ltb : K → K → bool) `{L : !Laws I key ltb}.

Definition le (a b : K) : Prop := ltb b a = false.

Definition edge (h : H) (k : nat) : Prop := le (key h (parent k)) (key h k).

(** The first [n] entries form a heap. *)
Definition heap (h : H) (n : nat) : Prop := ∀ k, 0 < k < n → edge h k.

(** They do, but for what entry [i] is compared with. *)
Definition around (h : H) (n i : nat) : Prop :=
  (∀ k, 0 < k < n → k ≠ i → parent k ≠ i → edge h k) ∧ (∀ k, 0 < k < n → parent k = i → 0 < i → le (key h (parent i)) (key h k)).

Definition below (h : H) (n i : nat) : Prop := ∀ k, 0 < k < n → parent k = i → edge h k.

Lemma le_trans a b c : le a b → le b c → le a c.
Proof. unfold le. intros H1 H2. by apply (ltb_trans a b c). Qed.

Lemma le_refl a : le a a.
Proof. unfold le. destruct (ltb a a) eqn:E; [|done]. by rewrite (ltb_asym _ _ E) in E. Qed.

Lemma heap_min h n : heap h n → ∀ k, k < n → le (key h 0) (key h k).
Proof.
  intros Hh k. induction (lt_wf k) as [k _ IH]. intros Hk. destruct (decide (k = 0)) as [->|Hne]; [apply le_refl|].
  apply le_trans with (key h (parent k)); [|apply Hh; lia]. pose proof (parent_lt k ltac:(lia)). apply IH; lia.
Qed.

Lemma heap_of_parts h n i : around h n i → below h n i → (0 < i < n → edge h i) → heap h n.
Proof. intros [H1 _] H2 H3 k Hk. destruct (decide (k = i)) as [->|]; [auto|]. destruct (decide (parent k = i)); auto. Qed.

Lemma heap_shrink h n n' : n' ≤ n → heap h n → heap h n'.
Proof. intros ? Hh k Hk. apply Hh. lia. Qed.

(** A heap seen around one of its entries. *)
Lemma heap_around h n i : heap h n → i < n → around h n i.
Proof. intros Hh Hi. split; [intros; by apply Hh|]. intros k Hk Hp H0. apply le_trans with (key h i); [apply Hh; lia|]. rewrite <- Hp. by apply Hh. Qed.

(** Only the keys of the other entries matter. *)
Lemma around_ext h h' n i : (∀ k, k < n → k ≠ i → key h' k = key h k) → i < n → around h n i → around h' n i.
Proof.
  intros E Hi [H1 H2]. split.
  - intros k Hk Hi' Hp. unfold edge. pose proof (parent_lt k ltac:(lia)). rewrite !E by lia. by apply H1.
  - intros k Hk Hp H0. pose proof (parent_lt k ltac:(lia)). pose proof (parent_lt i H0). rewrite !E by lia. by apply H2.
Qed.

Ltac keys := rewrite !key_Swap by lia; repeat case_decide; try lia; try congruence.

Lemma up_loop_heap fuel : ∀ j n h, n ≤ Len h → j < n → j < fuel → around h n j → below h n j → heap (up_loop fuel j h) n.
Proof.
  induction fuel as [|fuel IH]; intros j n h Hn Hj Hf Ha Hb; [lia|]. simpl. destruct (Nat.eqb_spec (parent j) j) as [E|Hne]; simpl.
  { apply (heap_of_parts h n j); [done|done|]. intros H0. pose proof (parent_lt j). lia. }
  assert (0 < j) as H0 by (destruct j; [done|lia]). pose proof (parent_lt j H0) as Hp. remember (parent j) as i eqn:Ei.
  rewrite Less_key by lia. destruct (ltb (key h j) (key h i)) eqn:E; simpl; [|apply (heap_of_parts h n j); [done..|]; intros _; unfold edge; by rewrite <- Ei]. destruct Ha as [H1 H2].
  apply IH; [by rewrite Len_Swap by lia|lia|lia|split|].
  - intros k Hk Hi Hpi. unfold edge. pose proof (parent_lt k ltac:(lia)). keys; [rewrite Ei; by apply H2|]. by apply H1.
  - intros k Hk Hpk Hi0. pose proof (parent_lt k ltac:(lia)). pose proof (parent_lt i Hi0). assert (edge h i) by (apply H1; lia).
    keys. apply le_trans with (key h i); [done|]. rewrite <- Hpk. apply H1; congruence || lia.
  - intros k Hk Hpk. unfold edge. rewrite Hpk. pose proof (parent_lt k ltac:(lia)). keys; [by apply ltb_asym|].
    apply le_trans with (key h i); [by apply ltb_asym|]. rewrite <- Hpk. apply H1; congruence || lia.
Qed.

(** One turn of [down]: it stops with entry [i] in place, or swaps it with its least child. *)
Lemma down_turn i j n h :
  n ≤ Len h → i < j < n → parent j = i → around h n i → ltb (key h j) (key h i) = true →
  (∀ k, 0 < k < n → parent k = i → le (key h j) (key h k)) →
  around (Swap i j h) n j ∧ (0 < j < n → edge (Swap i j h) j).
Proof.
  intros Hn Hj Hp [H1 H2] E Hmin. split; [split|].
  - intros k Hk Hkj Hpk. unfold edge. pose proof (parent_lt k ltac:(lia)). keys.
    + by apply Hmin.
    + subst k. apply H2; lia || done.
    + by apply H1.
  - intros k Hk Hpk _. pose proof (parent_lt k ltac:(lia)). rewrite Hp. keys. rewrite <- Hpk. apply H1; lia.
  - intros _. unfold edge. rewrite Hp. keys. by apply ltb_asym.
Qed.

Definition least_child (h : H) (i n : nat) : nat := let j1 := 2 * i + 1 in if (j1 + 1 <? n) && Less h (j1 + 1) j1 then j1 + 1 else j1.

Lemma least_child_spec h i n : n ≤ Len h → 2 * i + 1 < n →
  let j := least_child h i n in i < j < n ∧ parent j = i ∧ (∀ k, 0 < k < n → parent k = i → le (key h j) (key h k)).
Proof.
  intros Hn Hi j. assert (∀ k, 0 < k < n → parent k = i → k = 2 * i + 1 ∨ k = 2 * i + 2) as Hc by (intros k Hk; apply parent_children; lia).
  unfold j, least_child. destruct (Nat.ltb_spec (2 * i + 1 + 1) n) as [H2|H2]; cbn [andb].
  - rewrite Less_key by lia. destruct (ltb (key h (2 * i + 1 + 1)) (key h (2 * i + 1))) eqn:E; cbn [andb].
    + split_and!; [lia|lia|apply parent_children; lia|]. intros k Hk [->| ->]%Hc; [by apply ltb_asym| |done].
      replace (2 * i + 2) with (2 * i + 1 + 1) by lia. apply le_refl.
    + split_and!; [lia|lia|apply parent_children; lia|]. intros k Hk [->| ->]%Hc; [apply le_refl| |done].
      by replace (2 * i + 2) with (2 * i + 1 + 1) by lia.
  - split_and!; [lia|lia|apply parent_children; lia|]. intros k Hk [->| ->]%Hc; [apply le_refl|lia|done].
Qed.

Lemma down_loop_heap fuel : ∀ i n h,
  n ≤ Len h → n ≤ i + fuel → around h n i → (0 < i < n → edge h i) → heap (down_loop fuel i n h).2 n ∧ i ≤ (down_loop fuel i n h).1.
Proof.
  induction fuel as [|fuel IH]; intros i n h Hn Hf Ha He; cbn [down_loop].
  { split; [|done]. apply (heap_of_parts h n i); [done| |done]. intros k Hk Hp. pose proof (parent_lt k). lia. }
  fold (least_child h i n). destruct (Nat.leb_spec n (2 * i + 1)) as [Hl|Hl].
  { split; [|done]. apply (heap_of_parts h n i); [done| |done]. intros k Hk Hp. apply parent_children in Hp; lia. }
  destruct (least_child_spec h i n Hn Hl) as (Hj & Hp & Hmin). set (j := least_child h i n) in *. rewrite Less_key by lia.
  destruct (ltb (key h j) (key h i)) eqn:E; simpl.
  - destruct (down_turn i j n h) as [H1 H2]; [done..|]. destruct (IH j n (Swap i j h)); [by rewrite Len_Swap by lia|lia|done|done|]. split; [done|lia].
  - split; [|done]. apply (heap_of_parts h n i); [done| |done]. intros k Hk Hpk. unfold edge. rewrite Hpk. by apply le_trans with (key h j); [|apply Hmin].
Qed.

Lemma down_ok i n h :
  n ≤ Len h → around h n i → let '(moved, h') := down i n h in if moved then heap h' n else h' = h ∧ below h n i.
Proof.
  intros Hn Ha. unfold down. cbn [down_loop]. fold (least_child h i n). destruct (Nat.leb_spec n (2 * i + 1)) as [Hl|Hl].
  { rewrite Nat.ltb_irrefl. split; [done|]. intros k Hk Hp. apply parent_children in Hp; lia. }
  destruct (least_child_spec h i n Hn Hl) as (Hj & Hp & Hmin). set (j := least_child h i n) in *. rewrite Less_key by lia.
  destruct (ltb (key h j) (key h i)) eqn:E; simpl.
  - destruct (down_turn i j n h) as [H1 H2]; [done..|].
    destruct (down_loop_heap n j n (Swap i j h)) as [Hh Hi]; [by rewrite Len_Swap by lia|lia|done|done|].
    destruct (down_loop n j n (Swap i j h)) as [i' h']. simpl in *. by replace (i <? i') with true by (symmetry; apply Nat.ltb_lt; lia).
  - rewrite Nat.ltb_irrefl. split; [done|]. intros k Hk Hpk. unfold edge. rewrite Hpk. by apply le_trans with (key h j); [|apply Hmin].
Qed.

Lemma settle_heap i n h : n ≤ Len h → i < n → around h n i → heap (settle i n h) n.
Proof.
  intros Hn Hi Ha. unfold settle. pose proof (down_ok i n h Hn Ha) as Hd. destruct (down i n h) as [[] h']; [done|]. destruct Hd as [-> Hb].
  by apply up_loop_heap; [| |lia| |].
Qed.

(** The four functions, up to the last element that [PopLast] cuts off. *)
Lemma Fix_heap i h h0 : i < Len h → (∀ k, k < Len h → k ≠ i → key h k = key h0 k) → heap h0 (Len h) → heap (Fix i h) (Len h).
Proof. intros Hi He Hh. apply settle_heap; [done|done|]. apply (around_ext h0); [done|done|]. by apply heap_around. Qed.

Lemma append_heap h h0 : 0 < Len h → (∀ k, k < Len h - 1 → key h k = key h0 k) → heap h0 (Len h - 1) → heap (up (Len h - 1) h) (Len h).
Proof.
  intros Hl He Hh. apply up_loop_heap; [done|lia|lia| |].
  - split; intros k Hk.
    + intros Hi Hp. unfold edge. pose proof (parent_lt k ltac:(lia)). rewrite !He by lia. apply Hh. lia.
    + intros Hp. pose proof (parent_lt k ltac:(lia)). lia.
  - intros k Hk Hp. pose proof (parent_lt k ltac:(lia)). lia.
Qed.

Lemma swap_last_around i h : i < Len h - 1 → heap h (Len h) → around (Swap i (Len h - 1) h) (Len h - 1) i.
Proof.
  intros Hi Hh. apply (around_ext h); [|done|apply heap_around; [|done]; by apply (heap_shrink _ (Len h)); [lia|]].
  intros k Hk Hki. keys.
Qed.

Lemma Remove_heap i h : i < Len h - 1 → heap h (Len h) → heap (settle i (Len h - 1) (Swap i (Len h - 1) h)) (Len h - 1).
Proof. intros Hi Hh. apply settle_heap; [rewrite Len_Swap by lia; lia|done|]. by apply swap_last_around. Qed.

Lemma Pop_heap h : 0 < Len h → heap h (Len h) → heap (down 0 (Len h - 1) (Swap 0 (Len h - 1) h)).2 (Len h - 1).
Proof.
  intros Hl Hh. destruct (decide (Len h - 1 = 0)) as [->|Hne]; [intros k Hk; lia|].
  pose proof (Remove_heap 0 h ltac:(lia) Hh) as Hr. revert Hr. unfold settle. destruct (down 0 _ _) as [[] h'] eqn:E; simpl; [done|].
  unfold up. simpl. done.
Qed.
End Order.
