(* ===== verification/Presence.v ===== *)
(** * Online subscriptions of a gateway ([internal/gateway/presence.go])

    A client subscribes to the online status of up to 100 users; the node reads the status of each subscription every 30 seconds,
    or when one of its users changes, and pushes a snapshot. Subscriptions, connections and reads are pointers in Go and numbers
    here: [subs] holds every [*onlineSubscription] made, [onlineSub] the field of each client, [inflight] the reads handed to
    the workers and not yet finished. The refresh queue is a [container/heap] over [due], with each entry's position in its
    [index] field. Every function runs under the subscriptions' mutex and is one step; [Event] lists the steps, the dispatcher's
    own among them. [started] and [sent] record what was read and pushed. The frame limiter is a parameter. *)

From S2P Require Import Prelude Errcode Strconv Identity Store PgStore MemStore RateLimit OnlineStore UserSvc Heap.
From Stdlib Require Import QArith.

Local Open Scope Z_scope.

Definition maxOnlineSubscriptions : Z := 100.

Definition maxOnlineSubscriptionRefs : Z := 100000.

Definition onlineSnapshotInterval : Z := 30 * Second.

Definition onlineStaleAfter : Z := 3 * onlineSnapshotInterval.

Definition onlineRefreshMinInterval : Z := Second.

Definition onlineRefreshWorkers : Z := 4.

Definition onlineFramesPerSecond : Z := 200.

(** [rate.Limiter] with reservations. *)
Class ReserveLib := {
  Bucket : Type;
  Reservation : Type;
  NewBucket : Q → Z → Bucket;
  ReserveN : Bucket → Z → Z → Reservation * Bucket;
  OK : Reservation → bool;
  DelayFrom : Reservation → Z → Z;
  CancelAt : Reservation → Z → Bucket → Bucket }.

(** The order in which Go ranges over the two maps of clients. *)
Class RangeClients := {
  range_clients : gset nat → list nat;
  range_clients_perm cs : range_clients cs ≡ₚ elements cs;
  range_active : gmap nat nat → list (nat * nat);
  range_active_perm m : range_active m ≡ₚ map_to_list m }.

(** [Time.Sub] saturates. *)
Definition Sub (a b : Z) : Z := Z.max minInt64 (Z.min maxInt64 (a - b)).

Definition IsZero (t : Z) : bool := t =? zeroTime.

(** [uint64] counters wrap. *)
Definition u64 (x : Z) : Z := x mod 2 ^ 64.

(** [slices.Sort] and [slices.Compact]. *)
Fixpoint Compact (l : list string) : list string :=
  match l with
  | [] => []
  | x :: l' => match l' with [] => [x] | y :: _ => if (x =? y)%string then Compact l' else x :: Compact l' end
  end.

Definition Sort (l : list string) : list string := sortBy String.leb l.

Record onlineSubscriptionRequest := mkSubReq { In_Revision : Z; In_UserIds : list string }.

Record onlineSubscriptionAck := mkSubAck { Ack_Revision : Z; Ack_SnapshotIntervalMs : Z }.

Record onlineSnapshot := mkSnapshot { Snap_Revision : Z; Snap_Items : list OnlineStatusItem; Snap_Stale : bool }.

Record onlineSubscription := mkSub {
  s_client : nat; s_revision : Z; s_userIds : list string; s_cancel : option nat; s_index : Z; s_readyAt : Z; s_seq : Z;
  s_remark : bool; s_nextAttempt : Z; s_lastSuccess : Z }.

Definition newSub (c : nat) : onlineSubscription := mkSub c 0 [] None (-1) zeroTime 0 false zeroTime zeroTime.

Definition s_with_set (rev : Z) (ids : list string) (s : onlineSubscription) : onlineSubscription :=
  mkSub (s_client s) rev ids (s_cancel s) (s_index s) (s_readyAt s) (s_seq s) (s_remark s) (s_nextAttempt s) zeroTime.

Definition s_with_cancel (r : option nat) (s : onlineSubscription) : onlineSubscription :=
  mkSub (s_client s) (s_revision s) (s_userIds s) r (s_index s) (s_readyAt s) (s_seq s) (s_remark s) (s_nextAttempt s) (s_lastSuccess s).

Definition s_with_index (i : Z) (s : onlineSubscription) : onlineSubscription :=
  mkSub (s_client s) (s_revision s) (s_userIds s) (s_cancel s) i (s_readyAt s) (s_seq s) (s_remark s) (s_nextAttempt s) (s_lastSuccess s).

Definition s_with_ready (at_ seq : Z) (s : onlineSubscription) : onlineSubscription :=
  mkSub (s_client s) (s_revision s) (s_userIds s) (s_cancel s) (s_index s) at_ seq (s_remark s) (s_nextAttempt s) (s_lastSuccess s).

Definition s_with_remark (b : bool) (s : onlineSubscription) : onlineSubscription :=
  mkSub (s_client s) (s_revision s) (s_userIds s) (s_cancel s) (s_index s) (s_readyAt s) (s_seq s) b (s_nextAttempt s) (s_lastSuccess s).

Definition s_with_attempt (t : Z) (s : onlineSubscription) : onlineSubscription :=
  mkSub (s_client s) (s_revision s) (s_userIds s) (s_cancel s) (s_index s) (s_readyAt s) (s_seq s) (s_remark s) t (s_lastSuccess s).

Definition s_with_success (t : Z) (s : onlineSubscription) : onlineSubscription :=
  mkSub (s_client s) (s_revision s) (s_userIds s) (s_cancel s) (s_index s) (s_readyAt s) (s_seq s) (s_remark s) (s_nextAttempt s) t.

(** A read in the channel, being run by a worker, or run with its result. *)
Inductive ReadPhase := RQueued | RRunning | RDone (res : result (list OnlineStatusItem)).

(** [r_cancelled] is the state of the read's own context. *)
Record onlineRead := mkRead { r_sub : nat; r_revision : Z; r_userIds : list string; r_cancelled : bool; r_phase : ReadPhase }.

(** Why the dispatcher went to sleep; the code does not keep it. *)
Inductive Reason := Idle | NotDue | Slots | Tokens | Refused | Down.

Inductive Dispatcher := Awake | Parked (armed : option Z) (why : Reason) | Exited.

Section Presence.
Context `{RS : ReserveLib} `{RC : RangeClients}.

Record onlineSubscriptions := mkSubs {
  active : gmap nat nat; byUser : gmap string (gset nat); due : list nat; pseq : Z; reads : Z; refs : Z; stopped : bool;
  jobs : list nat; wake : bool; frames : Bucket }.

Record Presence := mkPresence {
  p : onlineSubscriptions; subs : gmap nat onlineSubscription; onlineSub : gmap nat nat; ended : gset nat; closing : bool;
  inflight : gmap nat onlineRead; dispatcher : Dispatcher; started : list (nat * Z);
  sent : list (nat * onlineSnapshot * list string) }.

Definition newOnlineSubscriptions : onlineSubscriptions :=
  mkSubs ∅ ∅ [] 0 0 0 false [] false (NewBucket (inject_Z onlineFramesPerSecond) onlineFramesPerSecond).

Definition newPresence : Presence := mkPresence newOnlineSubscriptions ∅ ∅ ∅ false ∅ Awake [] [].

Definition with_p (x : onlineSubscriptions) (g : Presence) : Presence :=
  mkPresence x (subs g) (onlineSub g) (ended g) (closing g) (inflight g) (dispatcher g) (started g) (sent g).

Definition with_subs (x : gmap nat onlineSubscription) (g : Presence) : Presence :=
  mkPresence (p g) x (onlineSub g) (ended g) (closing g) (inflight g) (dispatcher g) (started g) (sent g).

Definition with_onlineSub (x : gmap nat nat) (g : Presence) : Presence :=
  mkPresence (p g) (subs g) x (ended g) (closing g) (inflight g) (dispatcher g) (started g) (sent g).

Definition with_inflight (x : gmap nat onlineRead) (g : Presence) : Presence :=
  mkPresence (p g) (subs g) (onlineSub g) (ended g) (closing g) x (dispatcher g) (started g) (sent g).

Definition with_dispatcher (x : Dispatcher) (g : Presence) : Presence :=
  mkPresence (p g) (subs g) (onlineSub g) (ended g) (closing g) (inflight g) x (started g) (sent g).

Definition with_flags (e : gset nat) (c : bool) (g : Presence) : Presence :=
  mkPresence (p g) (subs g) (onlineSub g) e c (inflight g) (dispatcher g) (started g) (sent g).

Definition with_log (st : list (nat * Z)) (sn : list (nat * onlineSnapshot * list string)) (g : Presence) : Presence :=
  mkPresence (p g) (subs g) (onlineSub g) (ended g) (closing g) (inflight g) (dispatcher g) st sn.

Definition p_with_due (d : list nat) (x : onlineSubscriptions) : onlineSubscriptions :=
  mkSubs (active x) (byUser x) d (pseq x) (reads x) (refs x) (stopped x) (jobs x) (wake x) (frames x).

Definition p_with_index (a : gmap nat nat) (b : gmap string (gset nat)) (r : Z) (x : onlineSubscriptions) : onlineSubscriptions :=
  mkSubs a b (due x) (pseq x) (reads x) r (stopped x) (jobs x) (wake x) (frames x).

Definition p_with_seq (n : Z) (x : onlineSubscriptions) : onlineSubscriptions :=
  mkSubs (active x) (byUser x) (due x) n (reads x) (refs x) (stopped x) (jobs x) (wake x) (frames x).

Definition p_with_jobs (n : Z) (js : list nat) (x : onlineSubscriptions) : onlineSubscriptions :=
  mkSubs (active x) (byUser x) (due x) (pseq x) n (refs x) (stopped x) js (wake x) (frames x).

Definition p_with_wake (w : bool) (x : onlineSubscriptions) : onlineSubscriptions :=
  mkSubs (active x) (byUser x) (due x) (pseq x) (reads x) (refs x) (stopped x) (jobs x) w (frames x).

Definition p_with_frames (f : Bucket) (x : onlineSubscriptions) : onlineSubscriptions :=
  mkSubs (active x) (byUser x) (due x) (pseq x) (reads x) (refs x) (stopped x) (jobs x) (wake x) f.

Definition p_stop (x : onlineSubscriptions) : onlineSubscriptions :=
  mkSubs (active x) (byUser x) (due x) (pseq x) (reads x) (refs x) true (jobs x) (wake x) (frames x).

Definition upd (s : nat) (f : onlineSubscription → onlineSubscription) (g : Presence) : Presence := with_subs (alter f s (subs g)) g.

(** ** [onlineDue]: the queue as a [heap.Interface] *)

Definition sub_key (g : Presence) (i : nat) : Z * Z :=
  match due (p g) !! i with
  | Some s => match subs g !! s with Some x => (s_readyAt x, s_seq x) | None => (0, 0) end
  | None => (0, 0)
  end.

Definition key_ltb (a b : Z * Z) : bool :=
  let c := Compare a.1 b.1 in if negb (c =? 0) then c <? 0 else a.2 <? b.2.

Definition due_Less (g : Presence) (i j : nat) : bool := key_ltb (sub_key g i) (sub_key g j).

Definition due_Swap (i j : nat) (g : Presence) : Presence :=
  match due (p g) !! i, due (p g) !! j with
  | Some a, Some b =>
      upd a (s_with_index (Z.of_nat j)) (upd b (s_with_index (Z.of_nat i))
        (with_p (p_with_due (<[j := a]> (<[i := b]> (due (p g)))) (p g)) g))
  | _, _ => g
  end.

Definition due_Push (s : nat) (g : Presence) : Presence :=
  upd s (s_with_index (Z.of_nat (length (due (p g))))) (with_p (p_with_due (due (p g) ++ [s]) (p g)) g).

Definition due_Pop (g : Presence) : Presence :=
  let last := (length (due (p g)) - 1)%nat in
  match due (p g) !! last with
  | Some s => upd s (s_with_index (-1)) (with_p (p_with_due (take last (due (p g))) (p g)) g)
  | None => g
  end.

#[export] Instance onlineDue : Interface Presence := {|
  Len := λ g, length (due (p g)); Less := due_Less; Swap := due_Swap; PopLast := due_Pop |}.

(** ** Subscriptions *)

Definition notify (g : Presence) : Presence := with_p (p_with_wake true (p g)) g.

(** [s.cancel()]. *)
Definition cancel_read (r : nat) (g : Presence) : Presence :=
  with_inflight (alter (λ j, mkRead (r_sub j) (r_revision j) (r_userIds j) true (r_phase j)) r (inflight g)) g.

Definition drop_client (c : nat) (b : gmap string (gset nat)) (id : string) : gmap string (gset nat) :=
  let cs := default ∅ (b !! id) ∖ {[c]} in if decide (cs = ∅) then delete id b else <[id := cs]> b.

Definition add_client (c : nat) (b : gmap string (gset nat)) (id : string) : gmap string (gset nat) :=
  <[id := default ∅ (b !! id) ∪ {[c]}]> b.

Definition remove (sid : nat) (g : Presence) : Presence :=
  match subs g !! sid with
  | None => g
  | Some s =>
      let g := match s_cancel s with Some r => cancel_read r g | None => g end in
      let g := if 0 <=? s_index s then Heap.Remove (Z.to_nat (s_index s)) g else g in
      let g := upd sid (s_with_remark false) g in
      match active (p g) !! s_client s with
      | None => g
      | Some _ =>
          with_p (p_with_index (delete (s_client s) (active (p g))) (foldl (drop_client (s_client s)) (byUser (p g)) (s_userIds s))
                    (refs (p g) - Z.of_nat (length (s_userIds s))) (p g)) g
      end
  end.

Definition removeOnlineSubscriptions (c : nat) (g : Presence) : Presence :=
  match onlineSub g !! c with
  | Some sid => let g := remove sid g in with_onlineSub (delete c (onlineSub g)) g
  | None => g
  end.

Definition requeue (sid : nat) (at_ : Z) (g : Presence) : Presence :=
  match subs g !! sid with
  | None => g
  | Some s =>
      let at_ := if Compare at_ (s_nextAttempt s) <? 0 then s_nextAttempt s else at_ in
      if (0 <=? s_index s) && (0 <=? Compare at_ (s_readyAt s)) then g
      else
        let g :=
          if 0 <=? s_index s then Heap.Fix (Z.to_nat (s_index s)) (upd sid (s_with_ready at_ (s_seq s)) g)
          else Heap.Push (due_Push sid) (with_p (p_with_seq (u64 (pseq (p g) + 1)) (p g)) (upd sid (s_with_ready at_ (pseq (p g))) g)) in
        match subs g !! sid with Some s => if s_index s =? 0 then notify g else g | None => g end
  end.

(** A [nil] subscription is [None]. *)
Definition mark (sid : option nat) (now : Z) (g : Presence) : Presence :=
  match sid with
  | None => g
  | Some sid =>
      match subs g !! sid with
      | None => g
      | Some s => match s_cancel s with Some _ => upd sid (s_with_remark true) g | None => requeue sid now g end
      end
  end.

Definition mark_clients (now : Z) (g : Presence) (cs : list nat) : Presence := foldl (λ g c, mark (active (p g) !! c) now g) g cs.

Definition markOnlineChanged (userIds : list string) (now : Z) (g : Presence) : Presence :=
  if stopped (p g) || closing g then g
  else foldl (λ g id, mark_clients now g (range_clients (default ∅ (byUser (p g) !! id)))) g userIds.

(** [enabled]: the gateway has an online store and a user service. *)
Definition setOnlineSubscriptions (enabled : bool) (c : nat) (in_ : onlineSubscriptionRequest) (now : Z) (g : Presence) :
    result onlineSubscriptionAck * Presence :=
  let ack := mkSubAck (In_Revision in_) (onlineSnapshotInterval / Millisecond) in
  if negb enabled then (Err (WithMessage ErrInvalidProtocol "online subscriptions unavailable"), g)
  else if (In_Revision in_ <=? 0) || (maxOnlineSubscriptions <? Z.of_nat (length (In_UserIds in_))) then
    (Err (WithMessage ErrInvalidParam "positive revision and at most 100 user_ids required"), g)
  else
    match List.find (λ id, negb (Valid id)) (In_UserIds in_) with
    | Some id => (Err (WithMessage ErrInvalidParam ("invalid user id: " +:+ id)), g)
    | None =>
        let ids := Compact (Sort (In_UserIds in_)) in
        if stopped (p g) || closing g then (Err ErrNodeDraining, g)
        else if bool_decide (c ∈ ended g) then (Err ErrConnClosed, g)
        else
          let sid := default (fresh (dom (subs g))) (onlineSub g !! c) in
          let s := default (newSub c) (subs g !! sid) in
          if In_Revision in_ <? s_revision s then (Err (WithMessage ErrInvalidParam "old subscription revision"), g)
          else if In_Revision in_ =? s_revision s then
            (if bool_decide (ids = s_userIds s) then Ok ack else Err (WithMessage ErrInvalidParam "revision already used for another set"), g)
          else if maxOnlineSubscriptionRefs <? refs (p g) - Z.of_nat (length (s_userIds s)) + Z.of_nat (length ids) then
            (Err ErrTooManyRequests, g)
          else
            let g := remove sid (with_subs (<[sid := s]> (subs g)) g) in
            let g := with_onlineSub (<[c := sid]> (onlineSub g)) (upd sid (s_with_set (In_Revision in_) ids) g) in
            if (length ids =? 0)%nat then (Ok ack, g)
            else
              let g := with_p (p_with_index (<[c := sid]> (active (p g))) (foldl (add_client c) (byUser (p g)) ids)
                                 (refs (p g) + Z.of_nat (length ids)) (p g)) g in
              (Ok ack, mark (Some sid) now g)
    end.

(** ** The dispatcher *)

Definition start_read (sid : nat) (s : onlineSubscription) (now : Z) (f : Bucket) (g : Presence) : Presence :=
  let r := fresh (dom (inflight g)) in
  let g := with_inflight (<[r := mkRead sid (s_revision s) (s_userIds s) false RQueued]> (inflight g))
             (with_p (p_with_frames f (p_with_jobs (reads (p g)) (jobs (p g) ++ [r]) (p g))) g) in
  let g := Heap.Pop g in
  let g := with_p (p_with_jobs (reads (p g) + 1) (jobs (p g)) (p g)) g in
  let g := upd sid (λ s, s_with_attempt (now + onlineRefreshMinInterval) (s_with_remark false (s_with_cancel (Some r) s))) g in
  with_log ((s_client s, now) :: started g) (sent g) g.

(** The loop with the time to sleep, [None] when the send on [jobs] would block. One turn takes one entry out of the queue, so the
    length of the queue is fuel enough. *)
Fixpoint dispatch_loop (fuel : nat) (now : Z) (g : Presence) : option Z * Presence :=
  match due (p g) with
  | [] => (Some 0, g)
  | sid :: _ =>
      match fuel, subs g !! sid with
      | S fuel, Some s =>
          let d := Sub (s_readyAt s) now in
          if 0 <? d then (Some d, g)
          else if reads (p g) =? onlineRefreshWorkers then (Some 0, g)
          else
            let '(r, f) := ReserveN (frames (p g)) now 1 in
            if negb (OK r) then (Some 0, with_p (p_with_frames f (p g)) g)
            else
              let d := DelayFrom r now in
              if 0 <? d then (Some d, with_p (p_with_frames (CancelAt r now f) (p g)) g)
              else if onlineRefreshWorkers <=? Z.of_nat (length (jobs (p g))) then (None, g)
              else dispatch_loop fuel now (start_read sid s now f g)
      | _, _ => (None, g)
      end
  end.

Definition dispatchOnline (now : Z) (g : Presence) : option Z * Presence :=
  if closing g || stopped (p g) then (Some 0, g) else dispatch_loop (length (due (p g))) now g.

Definition why (now wait : Z) (g : Presence) : Reason :=
  if closing g || stopped (p g) then Down
  else match due (p g) with
  | [] => Idle
  | sid :: _ =>
      match subs g !! sid with
      | Some s => if 0 <? Sub (s_readyAt s) now then NotDue else if reads (p g) =? onlineRefreshWorkers then Slots
                  else if 0 <? wait then Tokens else Refused
      | None => Idle
      end
  end.

(** One pass of [runOnlineSubscriptions], up to its [select]. *)
Definition dispatch_pass (now : Z) (g : Presence) : option Presence :=
  match dispatchOnline now g with
  | (Some wait, g') => Some (with_dispatcher (Parked (if 0 <? wait then Some (now + wait) else None) (why now wait g')) g')
  | (None, _) => None
  end.

Definition stop_client (g : Presence) (cs : nat * nat) : Presence :=
  let g := remove cs.2 g in with_onlineSub (delete cs.1 (onlineSub g)) g.

(** The deferred function of [runOnlineSubscriptions]. *)
Definition stop_all (g : Presence) : Presence :=
  let g := with_p (p_stop (p g)) g in
  with_dispatcher Exited (foldl stop_client g (range_active (active (p g)))).

(** ** Reads *)

(** The result of [queueOnlineSnapshot]: no budget, accepted, queue full, connection closing. *)
Inductive QueueOutcome := QNoBudget | QAccepted | QFull | QClosing.

(** Whether the context of a read has ended. *)
Definition ctx_done (j : onlineRead) (g : Presence) : bool :=
  r_cancelled j || match subs g !! r_sub j with Some s => bool_decide (s_client s ∈ ended g) | None => false end.

(** [readOnline] up to [finishOnlineRead], with the answer of the online store: a cancelled read ends in an error whatever it was. *)
Definition readOnline (r : nat) (online : result (gmap string (list Z))) (g : Presence) : Presence :=
  match inflight g !! r with
  | Some j =>
      let res := if ctx_done j g then Err (EOther "context canceled")
                 else match online with Ok byUser => Ok (statusItems byUser (r_userIds j)) | Err e => Err (Wrap ErrStoreFailed (Some e)) end in
      with_inflight (<[r := mkRead (r_sub j) (r_revision j) (r_userIds j) true (RDone res)]> (inflight g)) g
  | None => g
  end.

Definition queueOnlineSnapshot (c : nat) (snap : onlineSnapshot) (ids : list string) (q : QueueOutcome) (g : Presence) : bool * Presence :=
  match q with
  | QAccepted => (false, with_log (started g) ((c, snap, ids) :: sent g) g)
  | QFull => (true, g)
  | QNoBudget | QClosing => (false, g)
  end.

(** The locked part, without the deferred [reads--] and [notify]; the client to close as a slow consumer. *)
Definition adopt_read (j : onlineRead) (readErr : option error) (items : list OnlineStatusItem) (now : Z) (q : QueueOutcome) (g : Presence) :
    option nat * Presence :=
  let sid := r_sub j in
  let g := upd sid (s_with_cancel None) g in
  match subs g !! sid with
  | None => (None, g)
  | Some s =>
      let isActive := negb (stopped (p g)) && negb (closing g) && negb (bool_decide (s_client s ∈ ended g)) in
      let current := bool_decide (onlineSub g !! s_client s = Some sid) && (0 <? length (s_userIds s))%nat in
      if negb isActive || negb current then (None, g)
      else
        let next := if s_remark s then now else now + onlineSnapshotInterval in
        let g := requeue sid next (upd sid (s_with_remark false) g) in
        if negb (s_revision s =? r_revision j) then (None, g)
        else
          match readErr with
          | Some _ =>
              if IsZero (s_lastSuccess s) || (Sub now (s_lastSuccess s) <? onlineStaleAfter) then (None, g)
              else let '(full, g) := queueOnlineSnapshot (s_client s) (mkSnapshot (s_revision s) [] true) (r_userIds j) q g in
                   (if full then Some (s_client s) else None, g)
          | None =>
              let g := upd sid (s_with_success now) g in
              let '(full, g) := queueOnlineSnapshot (s_client s) (mkSnapshot (s_revision s) items false) (r_userIds j) q g in
              (if full then Some (s_client s) else None, g)
          end
  end.

Definition finishOnlineRead (r : nat) (now : Z) (q : QueueOutcome) (g : Presence) : option nat * Presence :=
  match inflight g !! r with
  | Some j =>
      match r_phase j with
      | RDone res =>
          let '(slow, g) := adopt_read j (match res with Err e => Some e | Ok _ => None end) (match res with Ok l => l | Err _ => [] end) now q g in
          let g := with_inflight (delete r (inflight g)) g in
          (slow, notify (with_p (p_with_jobs (reads (p g) - 1) (jobs (p g)) (p g)) g))
      | _ => (None, g)
      end
  | None => (None, g)
  end.

(** ** Steps *)

Inductive Event :=
| ESet (enabled : bool) (c : nat) (in_ : onlineSubscriptionRequest) (now : Z)  (* the request of a client *)
| EEnd (c : nat)                      (* its active context is cancelled: a kick, a drain, a close *)
| ERemove (c : nat)                   (* the drain or the close goes on to remove its subscription *)
| EMark (ids : list string) (now : Z) (* presence changed, on this node or by a bus event *)
| EClosing                            (* shutdown begins *)
| EPass (now : Z) | EWake | ETimer | EStop          (* the dispatcher: a pass, the two cases of its select, its exit *)
| ETake | ERead (r : nat) (online : result (gmap string (list Z))) | EFinish (r : nat) (now : Z) (q : QueueOutcome).  (* the workers *)

(** [None]: not possible in this state; the callers of [removeOnlineSubscriptions] cancel the active context first. *)
Definition step (e : Event) (g : Presence) : option Presence :=
  match e with
  | ESet enabled c in_ now => Some (setOnlineSubscriptions enabled c in_ now g).2
  | EEnd c => Some (with_flags ({[c]} ∪ ended g) (closing g) g)
  | ERemove c => if bool_decide (c ∈ ended g) then Some (removeOnlineSubscriptions c g) else None
  | EMark ids now => Some (markOnlineChanged ids now g)
  | EClosing => Some (with_flags (ended g) true g)
  | EPass now => match dispatcher g with Awake => dispatch_pass now g | _ => None end
  | EWake => match dispatcher g with
             | Parked _ _ => if wake (p g) then Some (with_dispatcher Awake (with_p (p_with_wake false (p g)) g)) else None
             | _ => None
             end
  | ETimer => match dispatcher g with Parked (Some _) _ => Some (with_dispatcher Awake g) | _ => None end
  | EStop => match dispatcher g with Parked _ _ => Some (stop_all g) | _ => None end
  | ETake => match jobs (p g) with
             | r :: rest =>
                 match inflight g !! r with
                 | Some j => Some (with_inflight (<[r := mkRead (r_sub j) (r_revision j) (r_userIds j) (r_cancelled j) RRunning]> (inflight g))
                                     (with_p (p_with_jobs (reads (p g)) rest (p g)) g))
                 | None => None
                 end
             | [] => None
             end
  | ERead r online => match inflight g !! r with
                   | Some j => match r_phase j with RRunning => Some (readOnline r online g) | _ => None end
                   | None => None
                   end
  | EFinish r now q => match inflight g !! r with
                       | Some j => match r_phase j with RDone _ => Some (finishOnlineRead r now q g).2 | _ => None end
                       | None => None
                       end
  end.

Inductive preachable : Presence → Prop :=
| pr_init : preachable newPresence
| pr_step g e g' : preachable g → step e g = Some g' → preachable g'.
End Presence.
