(* ===== verification/PresenceQueue.v ===== *)
(** * The refresh queue of the online subscriptions

    [onlineDue] meets the contract of [container/heap]: the queue stays a heap by due time, every entry knows its position, and the
    heap functions change nothing else. *)

From S2P Require Import Prelude Errcode Strconv Identity Store PgStore MemStore RateLimit UserSvc Heap Presence.

Local Open Scope Z_scope.

Section Queue.
Context `{RS : ReserveLib}.
Implicit Types g h : Presence.

Definition skey (m : gmap nat onlineSubscription) (sid : nat) : Z * Z :=
  match m !! sid with Some x => (s_readyAt x, s_seq x) | None => (0, 0) end.

Lemma sub_key_skey g i : sub_key g i = match due (p g) !! i with Some s => skey (subs g) s | None => (0, 0) end.
Proof. done. Qed.

Lemma skey_index m sid x i : skey (alter (s_with_index i) x m) sid = skey m sid.
Proof.
  unfold skey. destruct (decide (sid = x)) as [->|Hne]; [rewrite lookup_alter_eq; by destruct (m !! x)|by rewrite lookup_alter_ne].
Qed.

Lemma key_ltb_spec a b : key_ltb a b = true ↔ a.1 < b.1 ∨ a.1 = b.1 ∧ a.2 < b.2.
Proof.
  unfold key_ltb, Compare. destruct (Z.ltb_spec a.1 b.1); simpl; [lia|]. destruct (Z.ltb_spec b.1 a.1); simpl; [lia|]. rewrite Z.ltb_lt. lia.
Qed.

Lemma key_ltb_false a b : key_ltb a b = false ↔ b.1 < a.1 ∨ a.1 = b.1 ∧ b.2 ≤ a.2.
Proof. rewrite <- not_true_iff_false, key_ltb_spec. lia. Qed.

Lemma due_Swap_eq i j g a b :
  due (p g) !! i = Some a → due (p g) !! j = Some b →
  due (p (due_Swap i j g)) = <[j := a]> (<[i := b]> (due (p g))) ∧
  subs (due_Swap i j g) = alter (s_with_index (Z.of_nat j)) a (alter (s_with_index (Z.of_nat i)) b (subs g)).
Proof. intros Ha Hb. unfold due_Swap. by rewrite Ha, Hb. Qed.

(** Entry [k] after a swap. *)
Lemma swap_lookup (l : list nat) i j a b k :
  l !! i = Some a → l !! j = Some b →
  <[j := a]> (<[i := b]> l) !! k = if decide (k = i) then Some b else if decide (k = j) then Some a else l !! k.
Proof.
  intros Ha Hb. pose proof (lookup_lt_Some _ _ _ Ha). pose proof (lookup_lt_Some _ _ _ Hb). destruct (decide (k = j)) as [->|Hj].
  - rewrite list_lookup_insert_eq by (rewrite length_insert; lia). case_decide; [|done]. subst. congruence.
  - rewrite list_lookup_insert_ne by done. case_decide; [subst; by apply list_lookup_insert_eq|by apply list_lookup_insert_ne].
Qed.

#[export] Instance onlineDue_laws : Laws onlineDue sub_key key_ltb.
Proof.
  split.
  - intros a b. rewrite key_ltb_spec, key_ltb_false. lia.
  - intros a b c. rewrite !key_ltb_false. lia.
  - done.
  - intros g i j [a Ha]%lookup_lt_is_Some [b Hb]%lookup_lt_is_Some. simpl. rewrite (proj1 (due_Swap_eq i j g a b Ha Hb)). by rewrite !length_insert.
  - intros g i j k [a Ha]%lookup_lt_is_Some [b Hb]%lookup_lt_is_Some. simpl. destruct (due_Swap_eq i j g a b Ha Hb) as [Ed Es].
    rewrite !sub_key_skey, Ed, Es, (swap_lookup _ i j a b k Ha Hb), Ha, Hb. repeat case_decide; rewrite ?skey_index; try done.
    destruct (due (p g) !! k); [by rewrite !skey_index|done].
Qed.

(** ** Positions *)

Record positions g : Prop := {
  q_pos : ∀ i sid, due (p g) !! i = Some sid → ∃ s, subs g !! sid = Some s ∧ s_index s = Z.of_nat i;
  q_idx : ∀ sid s, subs g !! sid = Some s → s_index s = -1 ∨ ∃ i, s_index s = Z.of_nat i ∧ due (p g) !! i = Some sid }.

(** All but the queue and the positions. *)
Definition erase g : Presence := with_subs (s_with_index 0 <$> subs g) (with_p (p_with_due [] (p g)) g).

Definition queue_ok g : Prop := positions g ∧ heap sub_key key_ltb g (length (due (p g))).

Lemma erase_index (m : gmap nat onlineSubscription) x i : s_with_index 0 <$> alter (s_with_index i) x m = s_with_index 0 <$> m.
Proof.
  apply map_eq. intros k. rewrite !lookup_fmap. destruct (decide (k = x)) as [->|]; [rewrite lookup_alter_eq; by destruct (m !! x)|by rewrite lookup_alter_ne].
Qed.

Lemma erase_Swap i j g : erase (due_Swap i j g) = erase g.
Proof.
  unfold due_Swap. destruct (due (p g) !! i), (due (p g) !! j); try done. unfold erase, upd. simpl. by rewrite !erase_index.
Qed.

Lemma alter_index_lookup (m : gmap nat onlineSubscription) x i k s :
  alter (s_with_index i) x m !! k = Some s ↔ ∃ s0, m !! k = Some s0 ∧ s = if decide (k = x) then s_with_index i s0 else s0.
Proof.
  destruct (decide (k = x)) as [->|].
  - rewrite lookup_alter_eq. destruct (m !! x); simpl; naive_solver.
  - rewrite lookup_alter_ne by done. naive_solver.
Qed.

Lemma pos_inj g i j sid : positions g → due (p g) !! i = Some sid → due (p g) !! j = Some sid → i = j.
Proof. intros [H _] Hi Hj. destruct (H _ _ Hi) as (s & E & Hs). destruct (H _ _ Hj) as (s' & E' & Hs'). simplify_eq. lia. Qed.

Lemma positions_Swap i j g : (i < length (due (p g)))%nat → (j < length (due (p g)))%nat → positions g → positions (due_Swap i j g).
Proof.
  intros [a Ha]%lookup_lt_is_Some [b Hb]%lookup_lt_is_Some Hg. destruct (due_Swap_eq i j g a b Ha Hb) as [Ed Es].
  destruct (q_pos g Hg _ _ Ha) as (sa & Ea & Ia). destruct (q_pos g Hg _ _ Hb) as (sb & Eb & Ib).
  assert (a = b → i = j) as Hab by (intros ->; by apply (pos_inj g i j b)).
  split.
  - intros k sid. rewrite Ed, Es, (swap_lookup _ i j a b k Ha Hb). intros Hk.
    assert (∃ s, subs g !! sid = Some s ∧ s_index (if decide (sid = a) then s_with_index (Z.of_nat j) (if decide (sid = b) then s_with_index (Z.of_nat i) s else s)
      else if decide (sid = b) then s_with_index (Z.of_nat i) s else s) = Z.of_nat k) as (s & Hs & Hi).
    { repeat case_decide; simplify_eq; eauto.
      - exists sa. split; [done|]. simpl. f_equal. symmetry. by apply Hab.
      - by destruct (pos_inj g i k b Hg Ha Hk).
      - by destruct (pos_inj g i k a Hg Ha Hk).
      - by destruct (pos_inj g j k b Hg Hb Hk).
      - by apply (q_pos g Hg). }
    eexists. split; [|exact Hi]. apply alter_index_lookup. eexists. split; [apply alter_index_lookup; eauto|]. done.
  - intros sid s. rewrite Ed, Es. intros (s1 & (s0 & H0 & ->)%alter_index_lookup & ->)%alter_index_lookup.
    destruct (decide (sid = a)) as [->|Hna].
    { right. exists j. split; [done|]. rewrite (swap_lookup _ i j a b j Ha Hb). repeat case_decide; simplify_eq; done. }
    destruct (decide (sid = b)) as [->|Hnb].
    { right. exists i. split; [done|]. rewrite (swap_lookup _ i j a b i Ha Hb). by case_decide. }
    destruct (q_idx g Hg _ _ H0) as [?|(k & Hk & Hd)]; [by left|]. right. exists k. split; [done|].
    rewrite (swap_lookup _ i j a b k Ha Hb). repeat case_decide; simplify_eq; done.
Qed.

(** ** The heap functions on the queue *)

(** What holds of [h] after swaps of [g]. *)
Definition swapped g h : Prop := positions h ∧ due (p h) ≡ₚ due (p g) ∧ erase h = erase g.

Lemma swapped_refl g : positions g → swapped g g.
Proof. by intros. Qed.

Lemma Swap_perm i j g : due (p (due_Swap i j g)) ≡ₚ due (p g).
Proof.
  unfold due_Swap. destruct (due (p g) !! i) as [a|] eqn:Ha; [|done]. destruct (due (p g) !! j) as [b|] eqn:Hb; [|done]. simpl.
  by apply Permutation_insert_swap.
Qed.

Lemma swapped_stable g : Stable (length (due (p g))) (swapped g).
Proof.
  intros i j h Hi Hj (H1 & H2 & H3). rewrite <- (Permutation_length H2) in Hi, Hj. split_and!.
  - by apply positions_Swap.
  - simpl. by rewrite Swap_perm.
  - simpl. by rewrite erase_Swap.
Qed.

Lemma Stable_le N N' (P : Presence → Prop) : (N' ≤ N)%nat → Stable N P → Stable N' P.
Proof. intros Hl HP i j h Hi Hj. apply HP; lia. Qed.

Lemma due_nodup g : positions g → NoDup (due (p g)).
Proof. intros Hg. apply NoDup_alt. intros i j x Hi Hj. by apply (pos_inj g i j x). Qed.

(** Cutting off the last entry. *)
Lemma PopLast_spec g n sid :
  positions g → heap sub_key key_ltb g n → length (due (p g)) = S n → due (p g) !! n = Some sid →
  queue_ok (due_Pop g) ∧ due (p (due_Pop g)) = take n (due (p g)) ∧ erase (due_Pop g) = erase g.
Proof.
  intros Hg Hh Hl Hn. unfold due_Pop. rewrite Hl, Nat.sub_succ, Nat.sub_0_r, Hn. unfold queue_ok, erase, upd. simpl.
  split_and!; [split| |done|by rewrite erase_index].
  - intros i x Hx. apply lookup_take_Some in Hx as [Hx Hi]. destruct (q_pos g Hg _ _ Hx) as (s & E & Hs). exists s. split; [|done].
    simpl. rewrite lookup_alter_ne; [done|]. intros <-. pose proof (pos_inj g i n sid Hg Hx Hn). lia.
  - intros x s. simpl. intros (s0 & E & ->)%alter_index_lookup. destruct (decide (x = sid)) as [->|Hne]; [by left|].
    destruct (q_idx g Hg _ _ E) as [?|(i & Hi & Hd)]; [by left|]. right. exists i. split; [done|]. apply lookup_take_Some. split; [done|].
    pose proof (lookup_lt_Some _ _ _ Hd). destruct (decide (i = n)) as [->|]; [congruence|lia].
  - rewrite length_take, Hl, Nat.min_l by lia. intros k Hk. specialize (Hh k Hk). unfold edge, le in *. rewrite !sub_key_skey in *. simpl.
    pose proof (parent_lt k ltac:(lia)). rewrite !lookup_take_lt by lia. destruct (due (p g) !! k), (due (p g) !! parent k); by rewrite ?skey_index.
Qed.

Lemma take_last_elem (l : list nat) n sid x : NoDup l → length l = S n → l !! n = Some sid → x ∈ take n l ↔ x ∈ l ∧ x ≠ sid.
Proof.
  intros Hnd Hl Hn. rewrite <- (take_drop n l) in Hnd. rewrite <- (take_drop n l) at 2. rewrite (drop_S _ _ _ Hn), drop_ge in * by lia.
  apply NoDup_app in Hnd as (_ & Hd & _). split; [intros Hx; split; [set_solver|]|set_solver]. intros ->. apply (Hd sid Hx). set_solver.
Qed.

Lemma Remove_spec g i sid :
  queue_ok g → due (p g) !! i = Some sid →
  queue_ok (Heap.Remove i g) ∧ (∀ x, x ∈ due (p (Heap.Remove i g)) ↔ x ∈ due (p g) ∧ x ≠ sid) ∧ erase (Heap.Remove i g) = erase g.
Proof.
  intros [Hg Hh] Hi. pose proof (lookup_lt_Some _ _ _ Hi) as Hl. unfold Heap.Remove. simpl (Len g). set (n := (length (due (p g)) - 1)%nat).
  set (g1 := if (n =? i)%nat then g else _).
  assert (swapped g g1 ∧ due (p g1) !! n = Some sid ∧ heap sub_key key_ltb g1 n) as ((H1 & H2 & H3) & Hn & Hh1).
  { unfold g1. destruct (Nat.eqb_spec n i) as [<-|Hne]; [split_and!; [done..|]; by apply (heap_shrink _ _ _ (length (due (p g)))); [lia|]|].
    assert (i < n)%nat as Hin by lia. assert (n < length (due (p g)))%nat as [b Hb]%lookup_lt_is_Some by lia.
    assert (swapped g (Swap i n g) ∧ due (p (Swap i n g)) !! n = Some sid) as Hsw.
    { split; [apply swapped_stable; [lia|lia|done]|]. simpl. rewrite (proj1 (due_Swap_eq i n g sid b Hi Hb)), (swap_lookup _ i n sid b n Hi Hb). by repeat case_decide. }
    split; [|split; [|exact (Remove_heap sub_key key_ltb i g Hin Hh)]];
      apply (settle_stable n (λ h, swapped g h ∧ due (p h) !! n = Some sid)); try lia; try exact Hsw.
    all: intros i' j' h Hi' Hj' [Hs He]; split; [apply swapped_stable; [lia|lia|done]|]; destruct Hs as (_ & Hp & _).
    all: assert (∃ a, due (p h) !! i' = Some a) as [a' Ea] by (apply lookup_lt_is_Some; rewrite (Permutation_length Hp); lia).
    all: assert (∃ a, due (p h) !! j' = Some a) as [b' Eb] by (apply lookup_lt_is_Some; rewrite (Permutation_length Hp); lia).
    all: simpl; rewrite (proj1 (due_Swap_eq i' j' h a' b' Ea Eb)), (swap_lookup _ i' j' a' b' n Ea Eb); repeat case_decide; lia || done. }
  destruct (PopLast_spec g1 n sid) as (Hq & Hd & He); [done|done|rewrite (Permutation_length H2); lia|done|].
  simpl. split_and!; [done| |congruence]. intros x. rewrite Hd, (take_last_elem _ n sid x), H2; [done|by apply due_nodup|rewrite (Permutation_length H2); lia|done].
Qed.

Lemma Swap_same g sid : positions g → due (p g) !! 0%nat = Some sid → due_Swap 0 0 g = g.
Proof.
  intros Hg E. unfold due_Swap, upd. rewrite E. simpl. destruct (q_pos g Hg _ _ E) as (s & Es & Hi).
  rewrite (alter_id (s_with_index (Z.of_nat 0)) _ sid), (alter_id (s_with_index (Z.of_nat 0)) _ sid); [|intros x Hx; rewrite Es in Hx; simplify_eq; by destruct x; simpl in *; subst|].
  - rewrite !list_insert_id by (rewrite ?list_insert_id; done). by destruct g as [[]].
  - intros x Hx. rewrite (alter_id (s_with_index (Z.of_nat 0)) _ sid) in Hx; [|intros y Hy; rewrite Es in Hy; simplify_eq; by destruct y; simpl in *; subst].
    rewrite Es in Hx. simplify_eq. by destruct x; simpl in *; subst.
Qed.

Lemma Pop_spec g sid rest :
  queue_ok g → due (p g) = sid :: rest →
  queue_ok (Heap.Pop g) ∧ (∀ x, x ∈ due (p (Heap.Pop g)) ↔ x ∈ due (p g) ∧ x ≠ sid) ∧ erase (Heap.Pop g) = erase g.
Proof.
  intros Hg E. assert (Heap.Pop g = Heap.Remove 0 g) as ->; [|apply Remove_spec; [done|by rewrite E]].
  unfold Heap.Pop, Heap.Remove. simpl (Len g). simpl (PopLast _). simpl (Swap _ _ _). destruct (Nat.eqb_spec (length (due (p g)) - 1) 0) as [->|Hne].
  - rewrite (Swap_same g sid); [done|apply Hg|by rewrite E].
  - unfold settle. by destruct (down 0 _ _) as [[] h'].
Qed.

Lemma swapped_Fix g i : (i < length (due (p g)))%nat → positions g → swapped g (Heap.Fix i g).
Proof. intros Hi Hg. apply (settle_stable (length (due (p g))) (swapped g)); [apply swapped_stable|done|done|by apply swapped_refl]. Qed.

Lemma swapped_up g i : (i < length (due (p g)))%nat → positions g → swapped g (up i g).
Proof. intros Hi Hg. apply (up_loop_stable (length (due (p g))) (swapped g)); [apply swapped_stable|done|by apply swapped_refl]. Qed.

(** Changing only the due time of an entry keeps the positions. *)
Lemma positions_ready sid at_ q g : positions g → positions (upd sid (s_with_ready at_ q) g).
Proof.
  intros Hg. split; simpl.
  - intros i x Hx. destruct (q_pos g Hg i x Hx) as (s & E & Hs). destruct (decide (x = sid)) as [->|].
    + exists (s_with_ready at_ q s). by rewrite lookup_alter_eq, E.
    + exists s. by rewrite lookup_alter_ne.
  - intros x s. rewrite lookup_alter_Some. intros [(-> & s0 & E & ->)|[_ E]]; exact (q_idx g Hg _ _ E).
Qed.

Lemma skey_ready_ne m sid x at_ q : x ≠ sid → skey (alter (s_with_ready at_ q) sid m) x = skey m x.
Proof. intros Hne. unfold skey. by rewrite lookup_alter_ne. Qed.

Lemma Fix_spec g sid at_ q i :
  queue_ok g → due (p g) !! i = Some sid →
  let g1 := upd sid (s_with_ready at_ q) g in
  queue_ok (Heap.Fix i g1) ∧ due (p (Heap.Fix i g1)) ≡ₚ due (p g) ∧ erase (Heap.Fix i g1) = erase g1.
Proof.
  intros [Hg Hh] Hi g1. pose proof (lookup_lt_Some _ _ _ Hi) as Hl. destruct (swapped_Fix g1 i Hl (positions_ready _ _ _ _ Hg)) as (H1 & H2 & H3).
  split_and!; [split; [done|]|exact H2|done]. rewrite (Permutation_length H2). refine (Fix_heap sub_key key_ltb i g1 g Hl _ Hh).
  intros k Hk Hne. rewrite !sub_key_skey. simpl. destruct (due (p g) !! k) as [x|] eqn:E; [|done]. apply skey_ready_ne.
  intros ->. apply Hne. by apply (pos_inj g k i sid).
Qed.

Lemma positions_Push sid s g : positions g → subs g !! sid = Some s → sid ∉ due (p g) → positions (due_Push sid g).
Proof.
  intros Hg Hs Hn. split; simpl.
  - intros i x Hx. apply lookup_app_Some in Hx as [Hx|[Hl Hx]].
    + destruct (q_pos g Hg i x Hx) as (s' & E & Hi). exists s'. split; [|done]. rewrite lookup_alter_ne; [done|]. intros ->. apply Hn. by apply list_elem_of_lookup_2 in Hx.
    + apply list_lookup_singleton_Some in Hx as [Hi <-]. eexists. rewrite lookup_alter_eq, Hs. split; [done|]. simpl. lia.
  - intros x s' (s0 & E & ->)%alter_index_lookup. destruct (decide (x = sid)) as [->|Hne].
    + right. exists (length (due (p g))). split; [done|]. by rewrite lookup_app_r, Nat.sub_diag by lia.
    + destruct (q_idx g Hg _ _ E) as [?|(i & Hi & Hd)]; [by left|]. right. exists i. split; [done|]. apply lookup_app_Some. by left.
Qed.

Lemma Push_spec g sid s :
  queue_ok g → subs g !! sid = Some s → sid ∉ due (p g) →
  let h := Heap.Push (due_Push sid) g in
  queue_ok h ∧ due (p h) ≡ₚ sid :: due (p g) ∧ erase h = erase g.
Proof.
  intros [Hg Hh] Hs Hn h. set (g1 := due_Push sid g). assert (length (due (p g1)) = S (length (due (p g)))) as Hl by (unfold g1; simpl; rewrite length_app; simpl; lia).
  assert (positions g1) as Hg1 by (by apply (positions_Push sid s)).
  assert (h = up (length (due (p g1)) - 1) g1) as Eh by done.
  destruct (swapped_up g1 (length (due (p g1)) - 1)) as (H1 & H2 & H3); [lia|done|]. rewrite <- Eh in *.
  split_and!; [split; [done|]| |rewrite H3; unfold g1, due_Push, erase, upd; simpl; by rewrite erase_index].
  - rewrite (Permutation_length H2). rewrite Eh. refine (append_heap sub_key key_ltb g1 g _ _ _); change (Len g1) with (length (due (p g1))); rewrite Hl; [lia| |by rewrite Nat.sub_succ, Nat.sub_0_r].
    intros k Hk. rewrite !sub_key_skey. unfold g1. simpl. rewrite lookup_app_l by lia. destruct (due (p g) !! k) as [x|]; [|done]. by rewrite skey_index.
  - rewrite H2. unfold g1. simpl. by rewrite (Permutation_app_comm (due (p g)) [sid]).
Qed.
End Queue.
