(* ===== verification/PresenceInv.v ===== *)
(** * Invariants of the online subscriptions

    [Core] relates the maps, counters and reads of the subscriptions to each other; it looks at the queue only as the set of its
    entries, so every operation is seen through [erase] (all but the queue's order and positions) and [queued] (its entries).
    [Inv] adds the order of the queue, that no subscription is forgotten, and that the dispatcher never sleeps through work. *)

From S2P Require Import Prelude Errcode Strconv Identity Store PgStore MemStore RateLimit UserSvc Heap Presence PresenceQueue.

Local Open Scope Z_scope.

Section Inv.
Context `{RS : ReserveLib} `{RC : RangeClients}.
Implicit Types g h e : Presence.

Definition queued g : gset nat := list_to_set (due (p g)).

Definition idlen (m : gmap nat onlineSubscription) (sid : nat) : Z :=
  match m !! sid with Some s => Z.of_nat (length (s_userIds s)) | None => 0 end.

Definition refs_sum (a : gmap nat nat) (m : gmap nat onlineSubscription) : Z :=
  foldr (λ cs acc, idlen m cs.2 + acc) 0 (map_to_list a).

Record Core g (Q : gset nat) : Prop := {
  c_client : ∀ i j s t, subs g !! i = Some s → subs g !! j = Some t → s_client s = s_client t → i = j;
  c_own : ∀ c sid, onlineSub g !! c = Some sid → ∃ s, subs g !! sid = Some s ∧ s_client s = c;
  c_live : ∀ sid s, subs g !! sid = Some s → s_client s ∉ ended g → stopped (p g) = false → onlineSub g !! s_client s = Some sid;
  c_active : ∀ c sid, active (p g) !! c = Some sid ↔ onlineSub g !! c = Some sid ∧ ∃ s, subs g !! sid = Some s ∧ s_userIds s ≠ [];
  c_byUser : ∀ id c, c ∈ (default ∅ (byUser (p g) !! id) : gset nat) ↔
               ∃ sid s, active (p g) !! c = Some sid ∧ subs g !! sid = Some s ∧ id ∈ s_userIds s;
  c_nonempty : ∀ id, byUser (p g) !! id ≠ Some ∅;
  c_refs : refs (p g) = refs_sum (active (p g)) (subs g) ∧ refs (p g) ≤ maxOnlineSubscriptionRefs;
  c_ids : ∀ sid s, subs g !! sid = Some s →
            NoDup (s_userIds s) ∧ Z.of_nat (length (s_userIds s)) ≤ maxOnlineSubscriptions ∧ Forall (λ id, Valid id = true) (s_userIds s) ∧ 0 ≤ s_revision s;
  c_queued : ∀ sid, sid ∈ Q → ∃ s, subs g !! sid = Some s ∧ s_cancel s = None ∧ active (p g) !! s_client s = Some sid ∧ s_nextAttempt s ≤ s_readyAt s;
  c_read : ∀ r j, inflight g !! r = Some j → ∃ s, subs g !! r_sub j = Some s ∧ s_cancel s = Some r ∧
             r_revision j ≤ s_revision s ∧ (r_revision j = s_revision s → r_userIds j = s_userIds s);
  c_cancel : ∀ sid s r, subs g !! sid = Some s → s_cancel s = Some r → ∃ j, inflight g !! r = Some j ∧ r_sub j = sid;
  c_reads : reads (p g) = Z.of_nat (size (inflight g)) ∧ reads (p g) ≤ onlineRefreshWorkers;
  c_jobs : NoDup (jobs (p g)) ∧ ∀ r, r ∈ jobs (p g) ↔ ∃ j, inflight g !! r = Some j ∧ r_phase j = RQueued;
  c_started : StronglySorted (λ x y, x.1 = y.1 → y.2 + onlineRefreshMinInterval ≤ x.2) (started g) ∧
              ∀ c t, (c, t) ∈ started g → ∃ sid s, subs g !! sid = Some s ∧ s_client s = c ∧ t + onlineRefreshMinInterval ≤ s_nextAttempt s;
  c_sent : StronglySorted (λ x y, x.1.1 = y.1.1 → Snap_Revision y.1.2 ≤ Snap_Revision x.1.2) (sent g) ∧
           ∀ c snap ids, (c, snap, ids) ∈ sent g → ∃ sid s, subs g !! sid = Some s ∧ s_client s = c ∧ Snap_Revision snap ≤ s_revision s ∧
             (Snap_Revision snap = s_revision s → ids = s_userIds s);
  c_items : ∀ r j items, inflight g !! r = Some j → r_phase j = RDone (Ok items) → map OS_UserId items = r_userIds j;
  c_shown : ∀ c snap ids, (c, snap, ids) ∈ sent g → Snap_Stale snap = false → map OS_UserId (Snap_Items snap) = ids }.

(** Every live subscription but those in [X] is queued or being read. *)
Definition alive_but (X : gset nat) g (Q : gset nat) : Prop :=
  ∀ c sid, active (p g) !! c = Some sid → c ∉ ended g → closing g = false → sid ∉ X →
    sid ∈ Q ∨ ∃ s, subs g !! sid = Some s ∧ s_cancel s ≠ None.

(** A sleeping dispatcher with no wake-up pending has nothing to do before its timer or the end of a read. *)
Definition rested g (Q : gset nat) : Prop :=
  ∀ armed w, dispatcher g = Parked armed w → wake (p g) = false → closing g = false → stopped (p g) = false →
    match w with
    | Idle => Q = ∅
    | NotDue => ∃ t, armed = Some t ∧ ∀ sid s, sid ∈ Q → subs g !! sid = Some s → t ≤ s_readyAt s
    | Slots => reads (p g) = onlineRefreshWorkers
    | Tokens => ∃ t, armed = Some t
    | Refused => True
    | Down => False
    end.

Record Inv g : Prop := {
  i_queue : queue_ok g;
  i_core : Core (erase g) (queued g);
  i_alive : alive_but ∅ (erase g) (queued g);
  i_rested : rested (erase g) (queued g);
  i_stopped : stopped (p g) = true → active (p g) = ∅ }.

(** ** Erasing *)

Lemma erase_upd sid f g : (∀ s i, f (s_with_index i s) = s_with_index i (f s)) → erase (upd sid f g) = upd sid f (erase g).
Proof.
  intros Hf. assert (s_with_index 0 <$> alter f sid (subs g) = alter f sid (s_with_index 0 <$> subs g)) as E; [|unfold erase, upd, with_subs; simpl; by rewrite E].
  apply map_eq. intros k. destruct (decide (k = sid)) as [->|].
  - rewrite lookup_fmap, !lookup_alter_eq, lookup_fmap. destruct (subs g !! sid); simpl; [by rewrite Hf|done].
  - by rewrite lookup_fmap, !lookup_alter_ne, lookup_fmap by done.
Qed.

Lemma subs_erase g sid : subs (erase g) !! sid = s_with_index 0 <$> subs g !! sid.
Proof. apply lookup_fmap. Qed.

Lemma subs_erase_Some g sid s : subs g !! sid = Some s → subs (erase g) !! sid = Some (s_with_index 0 s).
Proof. intros E. by rewrite subs_erase, E. Qed.

(** A subscription is queued exactly when it has a position. *)
Lemma queued_index g sid s : positions g → subs g !! sid = Some s → (0 <=? s_index s) = bool_decide (sid ∈ queued g).
Proof.
  intros Hg E. unfold queued. destruct (q_idx g Hg _ _ E) as [Hi|(i & Hi & Hd)]; rewrite Hi.
  - rewrite bool_decide_eq_false_2; [done|]. rewrite elem_of_list_to_set. intros [i Hd]%list_elem_of_lookup. destruct (q_pos g Hg _ _ Hd) as (s' & E' & Hi').
    simplify_eq. lia.
  - rewrite bool_decide_eq_true_2; [by apply Z.leb_le; lia|]. rewrite elem_of_list_to_set. by apply list_elem_of_lookup_2 in Hd.
Qed.

Lemma queued_perm g h : due (p h) ≡ₚ due (p g) → queued h = queued g.
Proof. intros E. unfold queued. apply leibniz_equiv. by rewrite E. Qed.

Lemma erase_lookup g h x s' : erase h = erase g → subs h !! x = Some s' → ∃ s, subs g !! x = Some s ∧ s' = s_with_index (s_index s') s.
Proof.
  intros E Hx. pose proof (subs_erase h x) as E1. rewrite E, subs_erase, Hx in E1. destruct (subs g !! x) as [s|]; [|done]. exists s. split; [done|].
  destruct s, s'. simpl in *. by simplify_eq.
Qed.

(** ** The effect of [requeue] and [remove] *)

Definition aready (sid : nat) (t q n : Z) (w : bool) e : Presence :=
  with_p (p_with_wake w (p_with_seq n (p e))) (upd sid (s_with_ready t q) e).

Lemma queue_ok_wake b g : queue_ok g → queue_ok (with_p (p_with_wake b (p g)) g).
Proof. intros [[H1 H2] H3]. by split; [split|]. Qed.

(** The head is due first; an entry that is not the head has one before it. *)
Lemma head_first g sid s i :
  queue_ok g → due (p g) !! i = Some sid → subs g !! sid = Some s → (0 < i)%nat →
  ∃ sid0 s0, sid0 ∈ queued g ∧ sid0 ≠ sid ∧ subs g !! sid0 = Some s0 ∧ s_readyAt s0 ≤ s_readyAt s.
Proof.
  intros [Hg Hh] Hi Hs H0. pose proof (lookup_lt_Some _ _ _ Hi) as Hl.
  destruct (lookup_lt_is_Some_2 (due (p g)) 0 ltac:(lia)) as [sid0 E0]. destruct (q_pos g Hg _ _ E0) as (s0 & Es0 & _).
  exists sid0, s0. split_and!; [unfold queued; rewrite elem_of_list_to_set; by apply list_elem_of_lookup_2 in E0| |done|].
  - intros ->. pose proof (pos_inj g _ _ _ Hg Hi E0). lia.
  - pose proof (heap_min sub_key key_ltb g _ Hh i Hl) as Hm. unfold le in Hm. rewrite !sub_key_skey, Hi, E0 in Hm. unfold skey in Hm. rewrite Hs, Es0 in Hm.
    apply key_ltb_false in Hm. simpl in Hm. lia.
Qed.

(** The last part of [requeue]: a wake-up when the entry is the head now. *)
Lemma wake_head g sid s i t :
  queue_ok g → due (p g) !! i = Some sid → subs g !! sid = Some s → s_readyAt s = t →
  let h := match subs g !! sid with Some s => if s_index s =? 0 then notify g else g | None => g end in
  queue_ok h ∧ queued h = queued g ∧ ∃ w, erase h = with_p (p_with_wake w (p (erase g))) (erase g) ∧
    (w = true ∨ w = wake (p g) ∧ ∃ sid0 s0, sid0 ∈ queued g ∧ sid0 ≠ sid ∧ subs g !! sid0 = Some s0 ∧ s_readyAt s0 ≤ t).
Proof.
  intros Hg Hi Hs <- h. unfold h. rewrite Hs. destruct (q_pos g (proj1 Hg) _ _ Hi) as (s' & Es & Hx). simplify_eq. rewrite Hx.
  destruct (Z.eqb_spec (Z.of_nat i) 0) as [H0|H0].
  - split_and!; [by apply queue_ok_wake|done|]. exists true. split; [done|by left].
  - split_and!; [done|done|]. exists (wake (p g)). split; [by destruct g as [[]]|]. right. split; [done|]. apply (head_first g sid s i); [done..|lia].
Qed.

Lemma elem_queued g sid : sid ∈ queued g ↔ ∃ i, due (p g) !! i = Some sid.
Proof. unfold queued. by rewrite elem_of_list_to_set, list_elem_of_lookup. Qed.

Lemma wake_erase g : wake (p (erase g)) = wake (p g).
Proof. done. Qed.

Lemma requeue_tail g g2 sid s t q n :
  queue_ok g2 → queued g2 = {[sid]} ∪ queued g → subs g !! sid = Some s → erase g2 = aready sid t q n (wake (p g)) (erase g) →
  let h := match subs g2 !! sid with Some s => if s_index s =? 0 then notify g2 else g2 | None => g2 end in
  queue_ok h ∧ queued h = {[sid]} ∪ queued g ∧
   ∃ q n w, erase h = aready sid t q n w (erase g) ∧
     (w = true ∨ w = wake (p g) ∧ ∃ sid0 s0, sid0 ∈ queued g ∧ sid0 ≠ sid ∧ subs g !! sid0 = Some s0 ∧ s_readyAt s0 ≤ t).
Proof.
  intros Hg HQ Hs E h. assert (∃ i, due (p g2) !! i = Some sid) as [i Hi] by (apply elem_queued; rewrite HQ; set_solver).
  destruct (q_pos g2 (proj1 Hg) _ _ Hi) as (s2 & Hs2 & _).
  assert (∀ x, subs (erase g2) !! x = if decide (x = sid) then s_with_ready t q <$> subs (erase g) !! x else subs (erase g) !! x) as Hx.
  { intros x. rewrite E. simpl. case_decide; [subst; by rewrite lookup_alter_eq|by rewrite lookup_alter_ne]. }
  assert (s_readyAt s2 = t) as Ht.
  { pose proof (Hx sid) as Hx'. rewrite !subs_erase, Hs, Hs2, decide_True in Hx' by done. by apply (inj Some), (f_equal s_readyAt) in Hx'. }
  destruct (wake_head g2 sid s2 i t Hg Hi Hs2 Ht) as (H1 & H2 & w & H3 & H4). fold h in H1, H2, H3.
  split_and!; [done|congruence|]. exists q, n, w. split; [rewrite H3, E; done|].
  assert (wake (p g2) = wake (p g)) as Hwk by (rewrite <- (wake_erase g2), E; done). rewrite Hwk in H4. destruct H4 as [?|[? (sid0 & s0 & Hq & Hne & H0 & Hle)]]; [by left|].
  right. split; [done|]. pose proof (Hx sid0) as Hx0. rewrite !subs_erase, H0, decide_False in Hx0 by done.
  destruct (subs g !! sid0) as [s0'|] eqn:E0; [|done]. exists sid0, s0'. split_and!; [rewrite HQ in Hq; set_solver|done|done|].
  apply (inj Some), (f_equal s_readyAt) in Hx0. simpl in Hx0. congruence.
Qed.

Lemma requeue_spec g sid s at_ :
  queue_ok g → subs g !! sid = Some s →
  let t := Z.max at_ (s_nextAttempt s) in let h := requeue sid at_ g in
  (h = g ∧ sid ∈ queued g ∧ s_readyAt s ≤ t) ∨
  (queue_ok h ∧ queued h = {[sid]} ∪ queued g ∧ (sid ∈ queued g → t < s_readyAt s) ∧
   ∃ q n w, erase h = aready sid t q n w (erase g) ∧
     (w = true ∨ w = wake (p g) ∧ ∃ sid0 s0, sid0 ∈ queued g ∧ sid0 ≠ sid ∧ subs g !! sid0 = Some s0 ∧ s_readyAt s0 ≤ t)).
Proof.
  intros Hg Hs t h. unfold h, requeue. rewrite Hs. rewrite (queued_index g sid s (proj1 Hg) Hs).
  replace (if Compare at_ (s_nextAttempt s) <? 0 then s_nextAttempt s else at_) with t
    by (unfold t, Compare; destruct (Z.ltb_spec at_ (s_nextAttempt s)); simpl; [lia|destruct (Z.ltb_spec (s_nextAttempt s) at_); simpl; lia]).
  replace (0 <=? Compare t (s_readyAt s)) with (s_readyAt s <=? t)
    by (unfold Compare; destruct (Z.ltb_spec t (s_readyAt s)), (Z.leb_spec (s_readyAt s) t); try lia; simpl; try done; by destruct (Z.ltb_spec (s_readyAt s) t)).
  case_bool_decide as HQ; simpl.
  - destruct (Z.leb_spec (s_readyAt s) t) as [Hle|Hlt]; [by left|]. right.
    destruct (q_idx g (proj1 Hg) _ _ Hs) as [Hi|(i & Hi & Hd)].
    { pose proof (queued_index g sid s (proj1 Hg) Hs) as Hx. rewrite Hi, bool_decide_eq_true_2 in Hx by done. done. }
    rewrite Hi, Nat2Z.id. destruct (Fix_spec g sid t (s_seq s) i Hg Hd) as (H1 & H2 & H3).
    destruct (requeue_tail g (Fix i (upd sid (s_with_ready t (s_seq s)) g)) sid s t (s_seq s) (pseq (p g))) as (? & ? & ?); [done| |done| |done].
    + rewrite (queued_perm _ _ H2). set_solver.
    + rewrite H3, erase_upd by done. done.
  - right. set (g1 := with_p _ (upd sid (s_with_ready t (pseq (p g))) g)).
    assert (queue_ok g1) as Hg1.
    { destruct Hg as [Hp Hh]. split.
      - destruct (positions_ready sid t (pseq (p g)) g Hp) as [H1 H2]. by split.
      - intros k Hk. specialize (Hh k Hk). unfold edge, le in *. rewrite !sub_key_skey in *. simpl.
        assert (∀ k x, due (p g) !! k = Some x → x ≠ sid) as Hn by (intros k' x E ->; apply HQ, elem_queued; eauto).
        destruct (due (p g) !! k) eqn:E1, (due (p g) !! parent k) eqn:E2; rewrite ?skey_ready_ne by eauto; done. }
    assert (subs g1 !! sid = Some (s_with_ready t (pseq (p g)) s)) as Es1 by (unfold g1; simpl; by rewrite lookup_alter_eq, Hs).
    destruct (Push_spec g1 sid _ Hg1 Es1) as (H1 & H2 & H3); [intros Hin; apply HQ; unfold queued; by rewrite elem_of_list_to_set|].
    destruct (requeue_tail g (Push (due_Push sid) g1) sid s t (pseq (p g)) (u64 (pseq (p g) + 1))) as (? & ? & ?); [done| |done| |].
    + unfold queued. apply leibniz_equiv. rewrite H2. done.
    + rewrite H3. unfold g1. change (erase (with_p ?x ?y)) with (with_p (p_with_due [] x) (erase y)). by rewrite erase_upd.
    + split_and!; [done|done|done|done].
Qed.

(** The part of [remove] after the queue. *)
Definition aremove (sid : nat) (s : onlineSubscription) e : Presence :=
  let e := upd sid (s_with_remark false) (match s_cancel s with Some r => cancel_read r e | None => e end) in
  match active (p e) !! s_client s with
  | None => e
  | Some _ =>
      with_p (p_with_index (delete (s_client s) (active (p e))) (foldl (drop_client (s_client s)) (byUser (p e)) (s_userIds s))
                (refs (p e) - Z.of_nat (length (s_userIds s))) (p e)) e
  end.

Lemma queue_ok_ext g h : due (p h) = due (p g) → subs h = subs g → queue_ok g → queue_ok h.
Proof.
  intros E1 E2 [[H1 H2] H3]. split; [split; intros x y; rewrite E1, E2; eauto|]. rewrite E1. intros k Hk. specialize (H3 k Hk). unfold edge, le in *.
  rewrite !sub_key_skey in *. by rewrite E1, E2.
Qed.

Lemma remark_ok b sid g : queue_ok g → queue_ok (upd sid (s_with_remark b) g).
Proof.
  intros [Hp Hh]. split.
  - split; simpl.
    + intros i x Hx. destruct (q_pos g Hp i x Hx) as (s & E & Hs). destruct (decide (x = sid)) as [->|]; [|exists s; by rewrite lookup_alter_ne].
      exists (s_with_remark b s). by rewrite lookup_alter_eq, E.
    + intros x s. rewrite lookup_alter_Some. intros [(-> & s0 & E & ->)|[_ E]]; exact (q_idx g Hp _ _ E).
  - intros k Hk. specialize (Hh k Hk). unfold edge, le in *. rewrite !sub_key_skey in *. simpl.
    assert (∀ x, skey (alter (s_with_remark b) sid (subs g)) x = skey (subs g) x) as Hx.
    { intros x. unfold skey. destruct (decide (x = sid)) as [->|]; [rewrite lookup_alter_eq; by destruct (subs g !! sid)|by rewrite lookup_alter_ne]. }
    destruct (due (p g) !! k), (due (p g) !! parent k); by rewrite ?Hx.
Qed.

Lemma remove_spec g sid s :
  queue_ok g → subs g !! sid = Some s →
  queue_ok (remove sid g) ∧ queued (remove sid g) = queued g ∖ {[sid]} ∧ erase (remove sid g) = aremove sid s (erase g).
Proof.
  intros Hg Hs. unfold remove. rewrite Hs. set (g1 := match s_cancel s with Some r => cancel_read r g | None => g end).
  assert (queue_ok g1 ∧ queued g1 = queued g ∧ subs g1 = subs g ∧ erase g1 = match s_cancel s with Some r => cancel_read r (erase g) | None => erase g end)
    as (H1 & H2 & H3 & H4) by (unfold g1; destruct (s_cancel s); split_and!; try done; by apply (queue_ok_ext g)).
  set (g2 := if 0 <=? s_index s then Heap.Remove (Z.to_nat (s_index s)) g1 else g1).
  assert (queue_ok g2 ∧ queued g2 = queued g ∖ {[sid]} ∧ erase g2 = erase g1) as (H5 & H6 & H7).
  { unfold g2. pose proof (queued_index g sid s (proj1 Hg) Hs) as Hx. destruct (Z.leb_spec 0 (s_index s)) as [Hi|Hi].
    - destruct (q_idx g (proj1 Hg) _ _ Hs) as [?|(i & Ei & Hd)]; [lia|]. rewrite Ei, Nat2Z.id.
      assert (due (p g1) = due (p g)) as Ed by (unfold g1; by destruct (s_cancel s)). rewrite <- Ed in Hd.
      destruct (Remove_spec g1 i sid H1 Hd) as (? & Hq & ?). split_and!; [done| |done]. apply leibniz_equiv. intros x. unfold queued.
      rewrite elem_of_difference, !elem_of_list_to_set, Hq, Ed. set_solver.
    - symmetry in Hx. apply bool_decide_eq_false in Hx. split_and!; [done| |done]. rewrite H2. set_solver. }
  set (g3 := upd sid (s_with_remark false) g2). assert (erase g3 = upd sid (s_with_remark false) (erase g1)) as E3 by (unfold g3; by rewrite erase_upd, H7).
  assert (active (p g3) = active (p (erase g3)) ∧ byUser (p g3) = byUser (p (erase g3)) ∧ refs (p g3) = refs (p (erase g3))) as (Ha & Hb & Hc) by done.
  unfold aremove. rewrite <- H4, <- E3. fold g3. rewrite Ha, Hb, Hc. destruct (active (p (erase g3)) !! s_client s).
  - split_and!; [apply (queue_ok_ext g3); [done|done|by apply remark_ok]|exact H6|done].
  - split_and!; [by apply remark_ok|exact H6|done].
Qed.

(** ** The index by user and the count of references *)

Lemma drop_clients c ids : ∀ b,
  (∀ id, b !! id ≠ Some ∅) →
  (∀ id, foldl (drop_client c) b ids !! id ≠ Some ∅) ∧
  (∀ id c', c' ∈ (default ∅ (foldl (drop_client c) b ids !! id) : gset nat) ↔ c' ∈ (default ∅ (b !! id) : gset nat) ∧ ¬ (c' = c ∧ id ∈ ids)).
Proof.
  induction ids as [|i ids IH]; intros b Hb; simpl; [split; [done|]; intros; set_solver|].
  assert (∀ id, drop_client c b i !! id ≠ Some ∅ ∧ ∀ c', c' ∈ (default ∅ (drop_client c b i !! id) : gset nat) ↔ c' ∈ (default ∅ (b !! id) : gset nat) ∧ ¬ (c' = c ∧ id = i)) as H1.
  { intros id. unfold drop_client. destruct (decide (default ∅ (b !! i) ∖ {[c]} = ∅)) as [E|E].
    - destruct (decide (id = i)) as [->|Hne]; [rewrite lookup_delete_eq|rewrite lookup_delete_ne by done]; (split; [done|intros c'; simpl]); [set_solver|naive_solver].
    - destruct (decide (id = i)) as [->|Hne]; [rewrite lookup_insert_eq|rewrite lookup_insert_ne by done]; (split; [congruence|intros c'; simpl]); [set_solver|naive_solver]. }
  destruct (IH (drop_client c b i)) as [H2 H3]; [intros id; apply H1|]. split; [done|]. intros id c'. rewrite H3. rewrite (proj2 (H1 id)). set_solver.
Qed.

Lemma add_clients c ids : ∀ b,
  (∀ id, b !! id ≠ Some ∅) →
  (∀ id, foldl (add_client c) b ids !! id ≠ Some ∅) ∧
  (∀ id c', c' ∈ (default ∅ (foldl (add_client c) b ids !! id) : gset nat) ↔ c' ∈ (default ∅ (b !! id) : gset nat) ∨ c' = c ∧ id ∈ ids).
Proof.
  induction ids as [|i ids IH]; intros b Hb; simpl; [split; [done|]; intros; set_solver|].
  assert (∀ id, add_client c b i !! id ≠ Some ∅ ∧ ∀ c', c' ∈ (default ∅ (add_client c b i !! id) : gset nat) ↔ c' ∈ (default ∅ (b !! id) : gset nat) ∨ c' = c ∧ id = i) as H1.
  { intros id. unfold add_client. destruct (decide (id = i)) as [->|Hne]; [rewrite lookup_insert_eq|rewrite lookup_insert_ne by done]; simpl; [|split; [done|naive_solver]].
    split; [|set_solver]. intros [= E]. assert (c ∈ (∅ : gset nat)) by (rewrite <- E; set_solver). set_solver. }
  destruct (IH (add_client c b i)) as [H2 H3]; [intros id; apply H1|]. split; [done|]. intros id c'. rewrite H3. rewrite (proj2 (H1 id)). set_solver.
Qed.

Lemma refs_fold_perm m l l' : l ≡ₚ l' → foldr (λ (cs : nat * nat) acc, idlen m cs.2 + acc) 0 l = foldr (λ cs acc, idlen m cs.2 + acc) 0 l'.
Proof. induction 1; simpl; lia. Qed.

Lemma refs_sum_insert a m c sid : a !! c = None → refs_sum (<[c := sid]> a) m = idlen m sid + refs_sum a m.
Proof. intros E. unfold refs_sum. by rewrite (refs_fold_perm m _ _ (map_to_list_insert a c sid E)). Qed.

Lemma refs_sum_delete a m c sid : a !! c = Some sid → refs_sum (delete c a) m = refs_sum a m - idlen m sid.
Proof. intros E. pose proof (refs_sum_insert (delete c a) m c sid (lookup_delete_eq a c)) as H. rewrite insert_delete_id in H by done. lia. Qed.

Lemma refs_sum_ext a m m' : (∀ c sid, a !! c = Some sid → idlen m sid = idlen m' sid) → refs_sum a m = refs_sum a m'.
Proof.
  intros H. unfold refs_sum. assert (∀ cs, cs ∈ map_to_list a → idlen m cs.2 = idlen m' cs.2) as Hl by (intros [c sid] Hc%elem_of_map_to_list; eauto).
  revert Hl. induction (map_to_list a) as [|cs l IH]; intros Hl; simpl; [done|]. rewrite IH, Hl by set_solver. done.
Qed.
End Inv.
