(* ===== verification/PresenceCore.v ===== *)
(** * What the subscription operations do to the core invariant *)

From S2P Require Import Prelude Errcode Strconv Identity Store PgStore MemStore RateLimit UserSvc Heap Presence PresenceQueue PresenceInv.

Local Open Scope Z_scope.

Section Core.
Context `{RS : ReserveLib} `{RC : RangeClients}.
Implicit Types g h e : Presence.

(** ** Cancelling a read *)

Definition like (j j' : onlineRead) : Prop :=
  r_sub j' = r_sub j ∧ r_revision j' = r_revision j ∧ r_userIds j' = r_userIds j ∧ (r_phase j' = RQueued ↔ r_phase j = RQueued) ∧
  (∀ items, r_phase j' = RDone (Ok items) → r_phase j = RDone (Ok items) ∨ map OS_UserId items = r_userIds j).

Definition cancelled (s : onlineSubscription) e : Presence := match s_cancel s with Some r => cancel_read r e | None => e end.

Lemma core_inflight e Q m :
  size m = size (inflight e) → (∀ r, option_Forall2 like (inflight e !! r) (m !! r)) → Core e Q → Core (with_inflight m e) Q.
Proof.
  intros Hz Hm H. destruct H. split; simpl; try done.
  - intros r j Hr. pose proof (Hm r) as Hl. rewrite Hr in Hl. inversion Hl as [j0 j1 (E1 & E2 & E3 & _) Ej0 Ej1|]; subst. rewrite E1, E2, E3. by apply c_read.
  - intros sid s r Hs Hc. destruct (c_cancel sid s r Hs Hc) as (j & Hj & <-). pose proof (Hm r) as Hl. rewrite Hj in Hl.
    inversion Hl as [j0 j' (E1 & _) Ej0 Ej'|]; subst. rewrite <- E1. eauto.
  - by rewrite Hz.
  - destruct c_jobs as [Hn Hq]. split; [done|]. intros r. rewrite Hq. pose proof (Hm r) as Hl. inversion Hl as [j j' (_ & _ & _ & E & _) Ej Ej'|Ej Ej']; naive_solver.
  - intros r j items Hr Hph. pose proof (Hm r) as Hl. rewrite Hr in Hl. inversion Hl as [j0 j1 (_ & _ & E3 & _ & E5) Ej0 Ej1|]; subst. rewrite E3.
    destruct (E5 items Hph) as [?|?]; [by apply (c_items r j0)|done].
Qed.

Lemma core_cancelled e Q s : Core e Q → Core (cancelled s e) Q.
Proof.
  intros H. unfold cancelled. destruct (s_cancel s) as [r|]; [|done]. apply core_inflight; [|intros r'|done].
  - by rewrite <- !size_dom, dom_alter_L.
  - destruct (decide (r' = r)) as [->|]; [rewrite lookup_alter_eq|rewrite lookup_alter_ne by done].
    + destruct (inflight e !! r) as [j|]; constructor. unfold like. simpl. split_and!; auto.
    + destruct (inflight e !! r') as [j|]; constructor. unfold like. split_and!; auto.
Qed.

(** ** Fields the invariant does not look at *)

Definition alike_sub (s s' : onlineSubscription) : Prop :=
  s_client s' = s_client s ∧ s_revision s' = s_revision s ∧ s_userIds s' = s_userIds s ∧ s_cancel s' = s_cancel s ∧
  s_nextAttempt s' = s_nextAttempt s ∧ (s_nextAttempt s ≤ s_readyAt s → s_nextAttempt s ≤ s_readyAt s').

Definition alike_subs (m m' : gmap nat onlineSubscription) : Prop := ∀ x, option_Forall2 alike_sub (m !! x) (m' !! x).

Lemma alike_fwd m m' x s : alike_subs m m' → m !! x = Some s → ∃ s', m' !! x = Some s' ∧ alike_sub s s'.
Proof. intros Ha E. pose proof (Ha x) as Hx. rewrite E in Hx. inversion Hx; subst. eauto. Qed.

Lemma alike_bwd m m' x s' : alike_subs m m' → m' !! x = Some s' → ∃ s, m !! x = Some s ∧ alike_sub s s'.
Proof. intros Ha E. pose proof (Ha x) as Hx. rewrite E in Hx. inversion Hx; subst. eauto. Qed.

Lemma alike_alter f sid m : (∀ s, m !! sid = Some s → alike_sub s (f s)) → alike_subs m (alter f sid m).
Proof.
  intros Hf x. destruct (decide (x = sid)) as [->|].
  - rewrite lookup_alter_eq. destruct (m !! sid) as [o|]; simpl; constructor. exact (Hf o eq_refl).
  - rewrite lookup_alter_ne by done. destruct (m !! x) as [o|]; constructor. by destruct o.
Qed.

Lemma core_subs e Q m : alike_subs (subs e) m → Core e Q → Core (with_subs m e) Q.
Proof.
  intros Ha H. destruct H.
  assert (∀ (P : onlineSubscription → Prop) c, (∃ sid s, subs e !! sid = Some s ∧ s_client s = c ∧ P s) →
    (∀ s s', alike_sub s s' → P s → P s') → ∃ sid s, m !! sid = Some s ∧ s_client s = c ∧ P s) as Hex.
  { intros P c (sid & s & E & Ec & HP) Hmono. destruct (alike_fwd _ _ _ _ Ha E) as (s' & E' & Hl). exists sid, s'. split_and!; [done|destruct Hl; congruence|by apply (Hmono s)]. }
  split; simpl; try done.
  - intros i j s t Hi Hj E. apply (alike_bwd _ _ _ _ Ha) in Hi as (s0 & Hi & E1 & _). apply (alike_bwd _ _ _ _ Ha) in Hj as (t0 & Hj & E2 & _).
    apply (c_client i j s0 t0); congruence.
  - intros c sid Ho. destruct (c_own c sid Ho) as (s & Hs & Hc). apply (alike_fwd _ _ _ _ Ha) in Hs as (s' & Hs & E & _). exists s'. split; congruence.
  - intros sid s Hs. apply (alike_bwd _ _ _ _ Ha) in Hs as (s0 & Hs & -> & _). by apply c_live.
  - intros c sid. rewrite c_active. f_equiv. split; intros (s & Hs & Hu).
    + apply (alike_fwd _ _ _ _ Ha) in Hs as (s' & Hs & _ & _ & E & _). exists s'. split; congruence.
    + apply (alike_bwd _ _ _ _ Ha) in Hs as (s' & Hs & _ & _ & E & _). exists s'. split; congruence.
  - intros id c. rewrite c_byUser. split; intros (sid & s & Hc & Hs & Hi).
    + apply (alike_fwd _ _ _ _ Ha) in Hs as (s' & Hs & _ & _ & E & _). exists sid, s'. rewrite E. eauto.
    + apply (alike_bwd _ _ _ _ Ha) in Hs as (s' & Hs & _ & _ & E & _). exists sid, s'. rewrite <- E. eauto.
  - destruct c_refs as [-> Hr]. split; [|done]. apply refs_sum_ext. intros c sid _. unfold idlen.
    destruct (Ha sid) as [s s' (_ & _ & E & _)|]; [by rewrite E|done].
  - intros sid s Hs. apply (alike_bwd _ _ _ _ Ha) in Hs as (s' & Hs & _ & E2 & E3 & _). rewrite E2, E3. by apply (c_ids sid).
  - intros sid Hq. destruct (c_queued sid Hq) as (s & Hs & H1 & H2 & H3). apply (alike_fwd _ _ _ _ Ha) in Hs as (s' & Hs & E1 & _ & _ & E4 & E5 & E6).
    exists s'. rewrite E1, E4, E5. auto.
  - intros r j Hr. destruct (c_read r j Hr) as (s & Hs & Hc). apply (alike_fwd _ _ _ _ Ha) in Hs as (s' & Hs & _ & E2 & E3 & E4 & _). exists s'. by rewrite E2, E3, E4.
  - intros sid s r Hs Hc. apply (alike_bwd _ _ _ _ Ha) in Hs as (s' & Hs & _ & _ & _ & E & _). apply (c_cancel sid s'); congruence.
  - destruct c_started as [H1 H2]. split; [done|]. intros c t Hin. apply (Hex (λ s, _ ≤ s_nextAttempt s)); [by apply H2|]. intros s s' (_ & _ & _ & _ & -> & _). done.
  - destruct c_sent as [H1 H2]. split; [done|]. intros c snap ids Hin. apply (Hex (λ s, Snap_Revision snap ≤ s_revision s ∧ (Snap_Revision snap = s_revision s → ids = s_userIds s))); [by apply H2|].
    intros s s' (_ & -> & -> & _). done.
Qed.

Lemma core_upd f sid e Q : (∀ s, subs e !! sid = Some s → alike_sub s (f s)) → Core e Q → Core (upd sid f e) Q.
Proof. intros Hf. apply core_subs. by apply alike_alter. Qed.

(** ** Detaching a subscription *)

Definition detach (s : onlineSubscription) e : Presence :=
  with_p (p_with_index (delete (s_client s) (active (p e))) (foldl (drop_client (s_client s)) (byUser (p e)) (s_userIds s))
            (refs (p e) - Z.of_nat (length (s_userIds s))) (p e)) e.

Lemma aremove_detach e Q sid s :
  Core e Q → subs e !! sid = Some s → onlineSub e !! s_client s = Some sid → aremove sid s e = upd sid (s_with_remark false) (detach s (cancelled s e)).
Proof.
  intros H Hs Ho. unfold aremove. fold (cancelled s e). assert (active (p (upd sid (s_with_remark false) (cancelled s e))) = active (p e)) as Ha
    by (unfold cancelled; by destruct (s_cancel s)).
  rewrite Ha. destruct (active (p e) !! s_client s) as [x|] eqn:E; [by unfold detach; rewrite <- Ha|].
  assert (s_userIds s = []) as Hu.
  { destruct (s_userIds s) eqn:Hu; [done|]. assert (active (p e) !! s_client s = Some sid); [|congruence]. apply (c_active e Q H). split; [done|]. exists s. by rewrite Hu. }
  unfold detach. rewrite Hu. simpl. assert (active (p (cancelled s e)) = active (p e)) as Ha' by done. rewrite Ha', delete_id, Z.sub_0_r by done. rewrite <- Ha'.
  destruct (cancelled s e) as [[]]. done.
Qed.

(** The active subscriptions after it. *)
Lemma detach_active e Q sid s c x :
  Core e Q → subs e !! sid = Some s → onlineSub e !! s_client s = Some sid →
  delete (s_client s) (active (p e)) !! c = Some x ↔ active (p e) !! c = Some x ∧ x ≠ sid.
Proof.
  intros H Hs Ho. rewrite lookup_delete_Some. split; intros [H1 H2].
  - split; [done|]. intros ->. apply (c_active e Q H) in H2 as [H2 _]. destruct (c_own e Q H _ _ H2) as (s' & E & <-). congruence.
  - split; [|done]. intros <-. apply (c_active e Q H) in H1 as [H1 _]. congruence.
Qed.

Lemma detach_refs e Q sid s :
  Core e Q → subs e !! sid = Some s → onlineSub e !! s_client s = Some sid →
  refs (p e) - Z.of_nat (length (s_userIds s)) = refs_sum (delete (s_client s) (active (p e))) (subs e).
Proof.
  intros H Hs Ho. rewrite (proj1 (c_refs e Q H)). destruct (active (p e) !! s_client s) as [x|] eqn:E.
  - assert (x = sid) as -> by (apply (c_active e Q H) in E as [E _]; congruence). rewrite (refs_sum_delete _ _ _ sid) by done. unfold idlen. by rewrite Hs.
  - rewrite delete_id by done. destruct (s_userIds s) eqn:Hu; [simpl; lia|].
    assert (active (p e) !! s_client s = Some sid); [|congruence]. apply (c_active e Q H). split; [done|]. exists s. by rewrite Hu.
Qed.

Lemma detach_byUser e Q sid s :
  Core e Q → subs e !! sid = Some s → onlineSub e !! s_client s = Some sid →
  let b := foldl (drop_client (s_client s)) (byUser (p e)) (s_userIds s) in
  (∀ id, b !! id ≠ Some ∅) ∧
  ∀ id c, c ∈ (default ∅ (b !! id) : gset nat) ↔ ∃ x t, active (p e) !! c = Some x ∧ x ≠ sid ∧ subs e !! x = Some t ∧ id ∈ s_userIds t.
Proof.
  intros H Hs Ho b. destruct (drop_clients (s_client s) (s_userIds s) (byUser (p e)) (c_nonempty e Q H)) as [H1 H2]. split; [done|].
  intros id c. unfold b. rewrite H2, (c_byUser e Q H). split.
  - intros [(x & t & Ha & Ht & Hi) Hn]. exists x, t. split_and!; try done. intros ->. simplify_eq. apply Hn. split; [|done].
    apply (c_active e Q H) in Ha as [Ha _]. destruct (c_own e Q H _ _ Ha) as (s' & E & <-). congruence.
  - intros (x & t & Ha & Hne & Ht & Hi). split; [eauto|]. intros [-> Hi']. apply (c_active e Q H) in Ha as [Ha _]. congruence.
Qed.

(** A closed connection, or a stopped dispatcher, gives its subscription up. *)
Lemma core_drop e Q sid s :
  Core e Q → subs e !! sid = Some s → onlineSub e !! s_client s = Some sid → (s_client s ∈ ended e ∨ stopped (p e) = true) →
  Core (with_onlineSub (delete (s_client s) (onlineSub e)) (detach s e)) (Q ∖ {[sid]}).
Proof.
  intros H Hs Ho Hend. pose proof (detach_active e Q sid s) as Hact. destruct (detach_byUser e Q sid s H Hs Ho) as [Hb1 Hb2].
  pose proof (detach_refs e Q sid s H Hs Ho) as Hr. split; simpl; try apply H; try done.
  - intros c x. rewrite lookup_delete_Some. intros [_ Hc]. by apply (c_own e Q H).
  - intros x t Ht Hc Hst. rewrite lookup_delete_ne; [by apply (c_live e Q H)|]. intros E. destruct Hend as [Hin|?]; [by rewrite E in Hin|congruence].
  - intros c x. rewrite (Hact c x H Hs Ho), (c_active e Q H), lookup_delete_Some. split.
    + intros [[H1 H2] Hne]. split; [|done]. split; [|done]. intros <-. congruence.
    + intros [[H1 H2] H3]. split; [done|]. intros ->. destruct (c_own e Q H _ _ H2) as (s' & E & <-). congruence.
  - intros id c. rewrite Hb2. split; intros (x & t & H1 & H2).
    + exists x, t. rewrite (Hact c x H Hs Ho). tauto.
    + exists x, t. rewrite (Hact c x H Hs Ho) in H1. tauto.
  - split; [done|]. destruct (c_refs e Q H). lia.
  - intros x [Hx Hne]%elem_of_difference. destruct (c_queued e Q H x Hx) as (t & Ht & H1 & H2 & H3). exists t. split_and!; try done. apply (Hact _ x H Hs Ho). set_solver.
Qed.

(** A new set of users for a connection. *)
Definition attach (c sid : nat) (ids : list string) e : Presence :=
  with_p (p_with_index (if (length ids =? 0)%nat then active (p e) else <[c := sid]> (active (p e))) (foldl (add_client c) (byUser (p e)) ids)
            (refs (p e) + Z.of_nat (length ids)) (p e)) e.

Lemma core_replace e Q sid s rev ids :
  Core e Q → subs e !! sid = Some s → onlineSub e !! s_client s = Some sid → s_revision s < rev →
  NoDup ids → Z.of_nat (length ids) ≤ maxOnlineSubscriptions → Forall (λ id, Valid id = true) ids →
  refs (p e) - Z.of_nat (length (s_userIds s)) + Z.of_nat (length ids) ≤ maxOnlineSubscriptionRefs →
  Core (attach (s_client s) sid ids (upd sid (s_with_set rev ids) (detach s e))) (Q ∖ {[sid]}).
Proof.
  intros H Hs Ho Hrev Hnd Hlen Hval Href. set (c := s_client s). set (s1 := s_with_set rev ids s).
  destruct (detach_byUser e Q sid s H Hs Ho) as [Hb1 Hb2]. pose proof (detach_refs e Q sid s H Hs Ho) as Hr.
  destruct (add_clients c ids _ Hb1) as [Hb3 Hb4]. fold c in Hb2, Hb3, Hb4, Hr.
  assert (∀ x t, alter (s_with_set rev ids) sid (subs e) !! x = Some t ↔ x = sid ∧ t = s1 ∨ x ≠ sid ∧ subs e !! x = Some t) as Hsub.
  { intros x t. rewrite lookup_alter_Some. split; [intros [(-> & s0 & E & ->)|?]; [left; split; [done|]; rewrite Hs in E; by simplify_eq|naive_solver]|].
    intros [[-> ->]|?]; [left; eauto|naive_solver]. }
  assert (∀ c' x, (if (length ids =? 0)%nat then delete c (active (p e)) else <[c := sid]> (delete c (active (p e)))) !! c' = Some x ↔
    active (p e) !! c' = Some x ∧ x ≠ sid ∨ c' = c ∧ x = sid ∧ ids ≠ []) as Hact.
  { intros c' x. pose proof (detach_active e Q sid s c' x H Hs Ho) as Hd. fold c in Hd. destruct ids as [|i ids]; simpl.
    - rewrite Hd. naive_solver.
    - destruct (decide (c' = c)) as [->|Hne]; [rewrite lookup_insert_eq|rewrite lookup_insert_ne by done; rewrite Hd; naive_solver].
      split; [intros [= <-]; naive_solver|]. intros [[H1 H2]|(_ & -> & _)]; [|done]. apply (c_active e Q H) in H1 as [H1 _]. unfold c in H1. congruence. }
  assert (∀ (P : onlineSubscription → Prop) c', (∃ x t, subs e !! x = Some t ∧ s_client t = c' ∧ P t) → (P s → P s1) →
    ∃ x t, alter (s_with_set rev ids) sid (subs e) !! x = Some t ∧ s_client t = c' ∧ P t) as Hex.
  { intros P c' (x & t & Ht & Hc & HP) Hi. destruct (decide (x = sid)) as [->|]; [exists sid, s1; simplify_eq; rewrite Hsub; naive_solver|]. exists x, t. rewrite Hsub. naive_solver. }
  split; simpl; try apply H; try done; fold c.
  - intros i j t u Hi%Hsub Hj%Hsub E. destruct Hi as [[-> ->]|[Hi Hti]], Hj as [[-> ->]|[Hj Htj]]; [done| | |by apply (c_client e Q H i j t u)].
    + by apply (c_client e Q H sid j s u).
    + by apply (c_client e Q H i sid t s).
  - intros c' x Hx. destruct (c_own e Q H _ _ Hx) as (t & Ht & Hc). destruct (decide (x = sid)) as [->|]; [exists s1; rewrite Hsub; naive_solver|]. exists t. rewrite Hsub. naive_solver.
  - intros x t [[-> ->]|[Hne Ht]]%Hsub Hc Hst; [done|by apply (c_live e Q H)].
  - intros c' x. rewrite Hact, (c_active e Q H). split.
    + intros [[[H1 (t & Ht & Hu)] H2]|(-> & -> & Hi)]; [split; [done|]; exists t; rewrite Hsub; naive_solver|]. split; [done|]. exists s1. rewrite Hsub. naive_solver.
    + intros [H1 (t & [[-> ->]|[Hne Ht]]%Hsub & Hu)]; [right|left; eauto]. destruct (c_own e Q H _ _ H1) as (s' & E & <-). split; [unfold c; congruence|done].
  - intros id c'. rewrite Hb4, Hb2. split.
    + intros [(x & t & Ha & Hne & Ht & Hi)|[-> Hi]]; [exists x, t; rewrite Hact, Hsub; naive_solver|]. exists sid, s1. rewrite Hact, Hsub. split_and!; [|naive_solver|done].
      right. split_and!; [done|done|]. intros ->. set_solver.
    + intros (x & t & Ha%Hact & [[-> ->]|[Hne Ht]]%Hsub & Hi); [right; naive_solver|left]. exists x, t. naive_solver.
  - split; [|lia]. rewrite Hr.
    assert (refs_sum (delete c (active (p e))) (alter (s_with_set rev ids) sid (subs e)) = refs_sum (delete c (active (p e))) (subs e)) as Eq.
    { apply refs_sum_ext. intros c' x [_ Hne]%(detach_active e Q sid s c' x H Hs Ho). unfold idlen. by rewrite lookup_alter_ne. }
    destruct ids as [|i ids]; simpl; [rewrite Eq; fold c; lia|]. rewrite refs_sum_insert by apply lookup_delete_eq. rewrite Eq. fold c. unfold idlen. rewrite lookup_alter_eq, Hs. simpl. lia.
  - intros x t [[-> ->]|[Hne Ht]]%Hsub; [|by apply (c_ids e Q H x)]. simpl. destruct (c_ids e Q H sid s Hs) as (_ & _ & _ & ?). split_and!; try done. lia.
  - intros x [Hx Hne]%elem_of_difference. destruct (c_queued e Q H x Hx) as (t & Ht & H1 & H2 & H3). exists t. rewrite Hsub, Hact. set_solver.
  - intros r j Hj. destruct (c_read e Q H r j Hj) as (t & Ht & H1 & H2 & H3). destruct (decide (r_sub j = sid)) as [E|Hne].
    + exists s1. rewrite Hsub. rewrite E in Ht. simplify_eq. split_and!; [by left|done|simpl; lia|simpl; lia].
    + exists t. rewrite Hsub. naive_solver.
  - intros x t r [[-> ->]|[Hne Ht]]%Hsub Hc; [by apply (c_cancel e Q H sid s)|by apply (c_cancel e Q H x t)].
  - destruct (c_started e Q H) as [H1 H2]. split; [done|]. intros c' t Hin. by apply (Hex (λ s, _ ≤ s_nextAttempt s)); [apply H2|].
  - destruct (c_sent e Q H) as [H1 H2]. split; [done|]. intros c' snap l Hin.
    apply (Hex (λ s, Snap_Revision snap ≤ s_revision s ∧ (Snap_Revision snap = s_revision s → l = s_userIds s))); [by apply H2|]. simpl. lia.
Qed.

(** ** Queueing, reading and pushing *)

Lemma core_enqueue e Q sid s :
  Core e Q → subs e !! sid = Some s → s_cancel s = None → active (p e) !! s_client s = Some sid → s_nextAttempt s ≤ s_readyAt s → Core e ({[sid]} ∪ Q).
Proof.
  intros H Hs Hc Ha Hr. split; try apply H. intros x [->%elem_of_singleton|Hx]%elem_of_union; [eauto|by apply (c_queued e Q H)].
Qed.

(** The limiter, the wake-up flag and the dispatcher's state are not looked at. *)
Lemma core_misc e Q w f n d : Core e Q → Core (with_dispatcher d (with_p (p_with_wake w (p_with_frames f (p_with_seq n (p e)))) e)) Q.
Proof. intros []. by split. Qed.

Lemma core_wake e Q w n : Core e Q → Core (with_p (p_with_wake w (p_with_seq n (p e))) e) Q.
Proof. intros []. by split. Qed.

Lemma core_ready e Q sid s t q n w :
  Core e Q → subs e !! sid = Some s → s_cancel s = None → active (p e) !! s_client s = Some sid → s_nextAttempt s ≤ t →
  Core (aready sid t q n w e) ({[sid]} ∪ Q).
Proof.
  intros H Hs Hc Ha Ht. apply (core_wake (upd sid (s_with_ready t q) e)). apply (core_enqueue _ _ _ (s_with_ready t q s)); try done.
  - apply core_upd; [|done]. intros s' E. simplify_eq. done.
  - simpl. by rewrite lookup_alter_eq, Hs.
Qed.

Lemma fresh_None {A} (m : gmap nat A) : m !! fresh (dom m) = None.
Proof. apply not_elem_of_dom, is_fresh. Qed.

(** What [start_read] does beside taking the head off the queue. *)
Definition astart (sid : nat) (s : onlineSubscription) (now : Z) e : Presence :=
  let r := fresh (dom (inflight e)) in
  with_log ((s_client s, now) :: started e) (sent e)
    (upd sid (λ s, s_with_attempt (now + onlineRefreshMinInterval) (s_with_remark false (s_with_cancel (Some r) s)))
       (with_p (p_with_jobs (reads (p e) + 1) (jobs (p e) ++ [r]) (p e))
          (with_inflight (<[r := mkRead sid (s_revision s) (s_userIds s) false RQueued]> (inflight e)) e))).

Lemma core_start e Q sid s now :
  Core e Q → subs e !! sid = Some s → sid ∈ Q → s_readyAt s ≤ now → reads (p e) < onlineRefreshWorkers → Core (astart sid s now e) (Q ∖ {[sid]}).
Proof.
  intros H Hs HQ Hnow Hreads. destruct (c_queued e Q H sid HQ) as (s' & E & Hc & Ha & Hn). simplify_eq. set (r := fresh (dom (inflight e))).
  set (f := λ s, s_with_attempt (now + onlineRefreshMinInterval) (s_with_remark false (s_with_cancel (Some r) s))).
  assert (∀ x t, alter f sid (subs e) !! x = Some t ↔ x = sid ∧ t = f s ∨ x ≠ sid ∧ subs e !! x = Some t) as Hsub.
  { intros x t. rewrite lookup_alter_Some. split; [intros [(-> & s0 & E & ->)|?]; [left; split; [done|]; rewrite Hs in E; by simplify_eq|naive_solver]|].
    intros [[-> ->]|?]; [left; eauto|naive_solver]. }
  assert (inflight e !! r = None) as Hr by apply fresh_None.
  assert (∀ (P : onlineSubscription → Prop) c', (∃ x t, subs e !! x = Some t ∧ s_client t = c' ∧ P t) → (P s → P (f s)) →
    ∃ x t, alter f sid (subs e) !! x = Some t ∧ s_client t = c' ∧ P t) as Hex.
  { intros P c' (x & t & Ht & Hc' & HP) Hi. destruct (decide (x = sid)) as [->|]; [exists sid, (f s); simplify_eq; rewrite Hsub; naive_solver|]. exists x, t. rewrite Hsub. naive_solver. }
  assert (∀ c t, (c, t) ∈ started e → c = s_client s → t + onlineRefreshMinInterval ≤ now) as Hprev.
  { intros c t Hin ->. destruct (proj2 (c_started e Q H) _ _ Hin) as (x & u & Hu & Hcu & Hle). assert (x = sid) as -> by (by apply (c_client e Q H x sid u s)). simplify_eq. lia. }
  split; simpl; try apply H; fold r; fold f.
  - intros i j t u Hi%Hsub Hj%Hsub Ec. destruct Hi as [[-> ->]|[Hi Hti]], Hj as [[-> ->]|[Hj Htj]]; [done| | |by apply (c_client e Q H i j t u)].
    + by apply (c_client e Q H sid j s u).
    + by apply (c_client e Q H i sid t s).
  - intros c' x Hx. destruct (c_own e Q H _ _ Hx) as (t & Ht & Hc'). destruct (decide (x = sid)) as [->|]; [exists (f s); rewrite Hsub; naive_solver|]. exists t. rewrite Hsub. naive_solver.
  - intros x t [[-> ->]|[Hne Ht]]%Hsub Hc' Hst; [by apply (c_live e Q H sid s)|by apply (c_live e Q H)].
  - intros c' x. rewrite (c_active e Q H). f_equiv. split; intros (t & Ht & Hu).
    + destruct (decide (x = sid)) as [->|]; [exists (f s); rewrite Hsub; naive_solver|]. exists t. rewrite Hsub. naive_solver.
    + apply Hsub in Ht as [[-> ->]|[Hne Ht]]; eauto.
  - intros id c'. rewrite (c_byUser e Q H). split; intros (x & t & Ha' & Ht & Hi).
    + destruct (decide (x = sid)) as [->|]; [exists sid, (f s); rewrite Hsub; naive_solver|]. exists x, t. rewrite Hsub. naive_solver.
    + apply Hsub in Ht as [[-> ->]|[Hne Ht]]; eauto.
  - destruct (c_refs e Q H) as [-> Hle]. split; [|done]. apply refs_sum_ext. intros c' x _. unfold idlen.
    destruct (decide (x = sid)) as [->|]; [rewrite lookup_alter_eq, Hs; done|by rewrite lookup_alter_ne].
  - intros x t [[-> ->]|[Hne Ht]]%Hsub; [by apply (c_ids e Q H sid s)|by apply (c_ids e Q H x)].
  - intros x [Hx Hne]%elem_of_difference. destruct (c_queued e Q H x Hx) as (t & Ht & H1 & H2 & H3). exists t. rewrite Hsub. set_solver.
  - intros r' j. destruct (decide (r' = r)) as [->|Hne]; [rewrite lookup_insert_eq; intros [= <-]; exists (f s); rewrite Hsub; simpl; naive_solver lia|].
    rewrite lookup_insert_ne by done. intros Hj. destruct (c_read e Q H r' j Hj) as (t & Ht & H1 & H2 & H3). exists t. rewrite Hsub. split; [|done].
    right. split; [|done]. intros E. rewrite E in Ht. congruence.
  - intros x t r' [[-> ->]|[Hne Ht]]%Hsub Hc'.
    + simplify_eq/=. eexists. by rewrite lookup_insert_eq.
    + destruct (c_cancel e Q H x t r' Ht Hc') as (j & Hj & Ej). exists j. rewrite lookup_insert_ne by congruence. done.
  - destruct (c_reads e Q H) as [Hz Hle]. rewrite map_size_insert_None by done. lia.
  - destruct (c_jobs e Q H) as [Hnd Hq]. split.
    + apply NoDup_app. split_and!; [done| |apply NoDup_singleton]. intros x Hx ->%list_elem_of_singleton. apply Hq in Hx as (j & Hj & _). congruence.
    + intros x. rewrite elem_of_app, list_elem_of_singleton, Hq. destruct (decide (x = r)) as [->|Hne]; [rewrite lookup_insert_eq; naive_solver|].
      rewrite lookup_insert_ne by done. naive_solver.
  - destruct (c_started e Q H) as [H1 H2]. split; [constructor; [done|]; apply Forall_forall; intros [c t] Hin; simpl; intros <-; eauto|].
    intros c t [[= -> ->]|Hin]%elem_of_cons; [exists sid, (f s); rewrite Hsub; naive_solver lia|].
    destruct (H2 c t Hin) as (x & u & Hu & Hcu & Hle). apply (Hex (λ s, _ ≤ s_nextAttempt s)); [by eauto|]. simpl. unfold onlineRefreshMinInterval, Second in *. lia.
  - destruct (c_sent e Q H) as [H1 H2]. split; [done|]. intros c' snap l Hin.
    apply (Hex (λ s, Snap_Revision snap ≤ s_revision s ∧ (Snap_Revision snap = s_revision s → l = s_userIds s))); [by apply H2|done].
  - intros r' j items. destruct (decide (r' = r)) as [->|Hne]; [by rewrite lookup_insert_eq; intros [= <-]|]. rewrite lookup_insert_ne by done. by apply (c_items e Q H r' j).
Qed.

Lemma core_take e Q r rest j :
  Core e Q → jobs (p e) = r :: rest → inflight e !! r = Some j →
  Core (with_inflight (<[r := mkRead (r_sub j) (r_revision j) (r_userIds j) (r_cancelled j) RRunning]> (inflight e))
          (with_p (p_with_jobs (reads (p e)) rest (p e)) e)) Q.
Proof.
  intros H Hj Hr. destruct H. rewrite Hj in c_jobs. destruct c_jobs as [[Hnr Hnd]%NoDup_cons Hq].
  split; simpl; try done.
  - intros r' j'. rewrite lookup_insert_Some. intros [[<- <-]|[_ E]]; [exact (c_read r j Hr)|by apply c_read].
  - intros x t r' Ht Hc. destruct (c_cancel x t r' Ht Hc) as (j' & Hj' & Ej). destruct (decide (r' = r)) as [->|].
    + simplify_eq. eexists. by rewrite lookup_insert_eq.
    + exists j'. by rewrite lookup_insert_ne.
  - by rewrite map_size_insert_Some.
  - split; [done|]. intros x. destruct (decide (x = r)) as [->|Hne].
    + rewrite lookup_insert_eq. split; [done|]. by intros (j' & [= <-] & ?).
    + rewrite lookup_insert_ne by done. rewrite <- Hq. set_solver.
  - intros r' j' items. rewrite lookup_insert_Some. intros [[<- <-]|[_ E]]; [done|by apply (c_items r' j')].
Qed.

Definition afinish (sid r : nat) e : Presence :=
  with_p (p_with_jobs (reads (p e) - 1) (jobs (p e)) (p e)) (with_inflight (delete r (inflight e)) (upd sid (s_with_cancel None) e)).

Lemma core_finish e Q r j : Core e Q → inflight e !! r = Some j → r_phase j ≠ RQueued → Core (afinish (r_sub j) r e) Q.
Proof.
  intros H Hr Hph. destruct (c_read e Q H r j Hr) as (s & Hs & Hc & _). set (sid := r_sub j) in *.
  assert (∀ x t, alter (s_with_cancel None) sid (subs e) !! x = Some t ↔ x = sid ∧ t = s_with_cancel None s ∨ x ≠ sid ∧ subs e !! x = Some t) as Hsub.
  { intros x t. rewrite lookup_alter_Some. split; [intros [(-> & s0 & E & ->)|?]; [left; split; [done|]; rewrite Hs in E; by simplify_eq|naive_solver]|].
    intros [[-> ->]|?]; [left; eauto|naive_solver]. }
  assert (∀ x t, subs e !! x = Some t → ∃ t', alter (s_with_cancel None) sid (subs e) !! x = Some t' ∧ s_client t' = s_client t ∧ s_userIds t' = s_userIds t
    ∧ s_revision t' = s_revision t ∧ s_nextAttempt t' = s_nextAttempt t) as Hfw.
  { intros x t Ht. destruct (decide (x = sid)) as [->|]; [exists (s_with_cancel None s); simplify_eq; rewrite Hsub; naive_solver|]. exists t. rewrite Hsub. naive_solver. }
  split; simpl; try apply H.
  - intros i k t u Hi%Hsub Hk%Hsub Ec. destruct Hi as [[-> ->]|[Hi Hti]], Hk as [[-> ->]|[Hk Htk]]; [done| | |by apply (c_client e Q H i k t u)].
    + by apply (c_client e Q H sid k s u).
    + by apply (c_client e Q H i sid t s).
  - intros c x Hx. destruct (c_own e Q H _ _ Hx) as (t & Ht & <-). destruct (Hfw x t Ht) as (t' & Ht' & E & _). eauto.
  - intros x t [[-> ->]|[Hne Ht]]%Hsub; [by apply (c_live e Q H sid s)|by apply (c_live e Q H)].
  - intros c x. rewrite (c_active e Q H). f_equiv. split; intros (t & Ht & Hu).
    + destruct (Hfw x t Ht) as (t' & Ht' & _ & E & _). exists t'. by rewrite E.
    + apply Hsub in Ht as [[-> ->]|[Hne Ht]]; eauto.
  - intros id c. rewrite (c_byUser e Q H). split; intros (x & t & Ha & Ht & Hi).
    + destruct (Hfw x t Ht) as (t' & Ht' & _ & E & _). exists x, t'. by rewrite E.
    + apply Hsub in Ht as [[-> ->]|[Hne Ht]]; eauto.
  - destruct (c_refs e Q H) as [-> Hle]. split; [|done]. apply refs_sum_ext. intros c x _. unfold idlen.
    destruct (decide (x = sid)) as [->|]; [by rewrite lookup_alter_eq, Hs|by rewrite lookup_alter_ne].
  - intros x t [[-> ->]|[Hne Ht]]%Hsub; [by apply (c_ids e Q H sid s)|by apply (c_ids e Q H x)].
  - intros x Hx. destruct (c_queued e Q H x Hx) as (t & Ht & H1 & H2 & H3). exists t. rewrite Hsub. split; [right|done]. split; [intros ->; congruence|done].
  - intros r' j'. rewrite lookup_delete_Some. intros [Hne Hj']. destruct (c_read e Q H r' j' Hj') as (t & Ht & H1 & H2 & H3). exists t. rewrite Hsub.
    split; [right|done]. split; [|done]. intros E. rewrite E in Ht. congruence.
  - intros x t r' [[-> ->]|[Hne Ht]]%Hsub Hc'; [done|]. destruct (c_cancel e Q H x t r' Ht Hc') as (j' & Hj' & Ej). exists j'. split; [|done].
    rewrite lookup_delete_ne; [done|]. intros ->. by simplify_eq.
  - destruct (c_reads e Q H) as [Hz Hle]. assert (0 < size (inflight e))%nat. { destruct (size (inflight e)) eqn:E; [|lia]. apply map_size_empty_inv in E. by rewrite E in Hr. }
    rewrite map_size_delete_Some by eauto. lia.
  - destruct (c_jobs e Q H) as [Hnd Hq]. split; [done|]. intros x. rewrite Hq. destruct (decide (x = r)) as [->|Hne]; [rewrite lookup_delete_eq|by rewrite lookup_delete_ne].
    split; [intros (j' & Hj' & Hp'); by simplify_eq|naive_solver].
  - destruct (c_started e Q H) as [H1 H2]. split; [done|]. intros c t Hin. destruct (H2 c t Hin) as (x & u & Hu & Hcu & Hle).
    destruct (Hfw x u Hu) as (u' & Hu' & E1 & _ & _ & E4). exists x, u'. rewrite E1, E4. done.
  - destruct (c_sent e Q H) as [H1 H2]. split; [done|]. intros c snap l Hin. destruct (H2 c snap l Hin) as (x & u & Hu & Hcu & Hle).
    destruct (Hfw x u Hu) as (u' & Hu' & E1 & E2 & E3 & _). exists x, u'. rewrite E1, E2, E3. done.
  - intros r' j' items. rewrite lookup_delete_Some. intros [_ E]. by apply (c_items e Q H r' j').
Qed.

Lemma core_push e Q sid s snap :
  Core e Q → subs e !! sid = Some s → Snap_Revision snap = s_revision s →
  (Snap_Stale snap = false → map OS_UserId (Snap_Items snap) = s_userIds s) →
  Core (with_log (started e) ((s_client s, snap, s_userIds s) :: sent e) e) Q.
Proof.
  intros H Hs E Hsh. split; simpl; try apply H; [destruct (c_sent e Q H) as [H1 H2]; split|].
  - constructor; [done|]. apply Forall_forall. intros [[c sn] l] Hin. simpl. intros <-. destruct (H2 _ sn l Hin) as (x & u & Hu & Hcu & Hle & _).
    assert (x = sid) as -> by (by apply (c_client e Q H x sid u s)). simplify_eq. lia.
  - intros c sn l [[= -> -> ->]|Hin]%elem_of_cons; [exists sid, s; split_and!; [done|done|lia|done]|by apply H2].
  - intros c sn l [[= -> -> ->]|Hin]%elem_of_cons; [done|by apply (c_shown e Q H c)].
Qed.

Lemma core_flags e Q ed c : Core e Q → ended e ⊆ ed → Core (with_flags ed c e) Q.
Proof. intros [] Hs. split; simpl; try done. intros sid s E Hn. apply (c_live sid s E). set_solver. Qed.

Lemma core_stop e Q : Core e Q → Core (with_p (p_stop (p e)) e) Q.
Proof. intros []. by split. Qed.
End Core.
