(* ===== verification/PresenceSteps.v ===== *)
(** * Every step of the online subscriptions keeps the invariant *)

From S2P Require Import Prelude Errcode Strconv Identity Store PgStore MemStore RateLimit UserSvc Heap Presence PresenceQueue PresenceInv PresenceCore.

Local Open Scope Z_scope.

Section Steps.
Context `{RS : ReserveLib} `{RC : RangeClients}.
Implicit Types g h e : Presence.

(** The invariant but for the subscriptions in [X], which may have been forgotten. *)
Record Good (X : gset nat) g : Prop := {
  g_queue : queue_ok g;
  g_core : Core (erase g) (queued g);
  g_alive : alive_but X (erase g) (queued g);
  g_rested : rested (erase g) (queued g) }.

(** What marking leaves as it was. *)
Definition kept g h : Prop :=
  active (p h) = active (p g) ∧ byUser (p h) = byUser (p g) ∧ stopped (p h) = stopped (p g) ∧ onlineSub h = onlineSub g ∧ ended h = ended g ∧
  closing h = closing g ∧ inflight h = inflight g ∧ dispatcher h = dispatcher g ∧ sent h = sent g ∧ reads (p h) = reads (p g) ∧ jobs (p h) = jobs (p g) ∧
  (∀ sid, (s_cancel <$> subs h !! sid) = (s_cancel <$> subs g !! sid) ∧ (s_userIds <$> subs h !! sid) = (s_userIds <$> subs g !! sid) ∧
          (s_revision <$> subs h !! sid) = (s_revision <$> subs g !! sid) ∧ (s_client <$> subs h !! sid) = (s_client <$> subs g !! sid)).

Lemma kept_refl g : kept g g.
Proof. by unfold kept. Qed.

Lemma kept_trans g h k : kept g h → kept h k → kept g k.
Proof.
  unfold kept. intros (A1 & A2 & A3 & A4 & A5 & A6 & A7 & A8 & A9 & A10 & A11 & A) (B1 & B2 & B3 & B4 & B5 & B6 & B7 & B8 & B9 & B10 & B11 & B). split_and!; try congruence.
  intros sid. destruct (A sid) as (C1 & C2 & C3 & C4), (B sid) as (D1 & D2 & D3 & D4). split_and!; congruence.
Qed.

Lemma proj_erase {A} (f : onlineSubscription → A) g sid : (∀ s, f (s_with_index 0 s) = f s) → (f <$> subs (erase g) !! sid) = (f <$> subs g !! sid).
Proof. intros Hf. rewrite subs_erase. destruct (subs g !! sid); simpl; [by rewrite Hf|done]. Qed.

Lemma kept_aready g h sid t q n w : erase h = aready sid t q n w (erase g) → kept g h.
Proof.
  intros E. assert (∀ x, subs (erase h) !! x = if decide (x = sid) then s_with_ready t q <$> subs (erase g) !! x else subs (erase g) !! x) as Hx.
  { intros x. rewrite E. simpl. case_decide; [subst; by rewrite lookup_alter_eq|by rewrite lookup_alter_ne]. }
  assert (∀ A (f : onlineSubscription → A), (∀ s, f (s_with_index 0 s) = f s) → (∀ s, f (s_with_ready t q s) = f s) → ∀ x, (f <$> subs h !! x) = (f <$> subs g !! x)) as Hf.
  { intros A f H1 H2 x. rewrite <- (proj_erase f h x H1), <- (proj_erase f g x H1), Hx. case_decide; [|done]. destruct (subs (erase g) !! x); simpl; [by rewrite H2|done]. }
  unfold kept. change (p h) with (p (with_p (p h) h)). 
  assert (∀ A (f : Presence → A), (∀ y, f (erase y) = f y) → (∀ y, f (aready sid t q n w y) = f y) → f h = f g) as Hp by (intros A f H1 H2; by rewrite <- (H1 h), E, H2, H1).
  split_and!; [by apply (Hp _ (λ y, active (p y)))|by apply (Hp _ (λ y, byUser (p y)))|by apply (Hp _ (λ y, stopped (p y)))|by apply (Hp _ onlineSub)|by apply (Hp _ ended)
    |by apply (Hp _ closing)|by apply (Hp _ inflight)|by apply (Hp _ dispatcher)|by apply (Hp _ sent)|by apply (Hp _ (λ y, reads (p y)))|by apply (Hp _ (λ y, jobs (p y)))|].
  intros x. split_and!; by apply Hf.
Qed.

(** ** Marking *)

Lemma subs_aready sid t q n w e : subs (aready sid t q n w e) = alter (s_with_ready t q) sid (subs e).
Proof. done. Qed.

Lemma subs_upd sid f e : subs (upd sid f e) = alter f sid (subs e).
Proof. done. Qed.

Lemma requeue_good X g sid s at_ :
  Good X g → subs g !! sid = Some s → s_cancel s = None → active (p g) !! s_client s = Some sid →
  Good (X ∖ {[sid]}) (requeue sid at_ g) ∧ kept g (requeue sid at_ g) ∧ sid ∈ queued (requeue sid at_ g).
Proof.
  intros [Hq Hc Ha Hr] Hs Hn Hact. destruct (requeue_spec g sid s at_ Hq Hs) as [(-> & HQ & _)|(H1 & H2 & H3 & q & n & w & E & Hw)].
  - split_and!; [|apply kept_refl|done]. split; [done|done| |done]. intros c x H1 H2 H3 H4. destruct (decide (x = sid)) as [->|]; [by left|]. apply (Ha c x); [done..|set_solver].
  - set (t := Z.max at_ (s_nextAttempt s)) in *. split_and!; [split|by apply (kept_aready g _ sid t q n w)|rewrite H2; set_solver]; [done|..].
    + rewrite E, H2. apply (core_ready _ _ _ (s_with_index 0 s)); try done; [by apply subs_erase_Some|simpl; lia].
    + rewrite E, H2. intros c x Hx Hc' Hcl HX. simpl in *. destruct (decide (x = sid)) as [->|Hne]; [left; set_solver|].
      destruct (Ha c x) as [?|(s' & Hs' & Hn')]; [done..|set_solver|left; set_solver|]. right. exists s'. simpl. by rewrite lookup_alter_ne.
    + rewrite E, H2. intros armed why Hd Hwk Hcl Hst. simpl in Hd, Hwk, Hcl, Hst. destruct Hw as [->|[-> (sid0 & s0 & HQ0 & Hne & Hs0 & Hle)]]; [done|].
      specialize (Hr armed why Hd Hwk Hcl Hst). destruct why; try done; [set_solver|].
      destruct Hr as (t0 & -> & Ht0). exists t0. split; [done|]. intros x s' [->%elem_of_singleton|Hx]%elem_of_union.
      * rewrite subs_aready, lookup_alter_eq, (subs_erase_Some g sid s Hs). intros [= <-]. simpl. pose proof (Ht0 sid0 _ HQ0 (subs_erase_Some g sid0 s0 Hs0)) as Hle0. simpl in Hle0. lia.
      * rewrite subs_aready. destruct (decide (x = sid)) as [->|]; [rewrite lookup_alter_eq, (subs_erase_Some g sid s Hs); intros [= <-]|rewrite lookup_alter_ne by done; by apply Ht0].
        simpl. pose proof (Ht0 sid0 _ HQ0 (subs_erase_Some g sid0 s0 Hs0)) as Hle0. simpl in Hle0. lia.
Qed.

(** Changes of fields the queue does not use. *)
Lemma queue_ok_upd f sid g :
  (∀ s, s_index (f s) = s_index s ∧ s_readyAt (f s) = s_readyAt s ∧ s_seq (f s) = s_seq s) → queue_ok g → queue_ok (upd sid f g).
Proof.
  intros Hf [Hp Hh]. split.
  - split; simpl.
    + intros i x Hx. destruct (q_pos g Hp i x Hx) as (s & E & Hs). destruct (decide (x = sid)) as [->|]; [|exists s; by rewrite lookup_alter_ne].
      exists (f s). rewrite lookup_alter_eq, E. split; [done|]. by rewrite (proj1 (Hf s)).
    + intros x s. rewrite lookup_alter_Some. intros [(-> & s0 & E & ->)|[_ E]]; [rewrite (proj1 (Hf s0))|]; exact (q_idx g Hp _ _ E).
  - intros k Hk. specialize (Hh k Hk). unfold edge, le in *. rewrite !sub_key_skey in *. simpl.
    assert (∀ x, skey (alter f sid (subs g)) x = skey (subs g) x) as Hx.
    { intros x. unfold skey. destruct (decide (x = sid)) as [->|]; [rewrite lookup_alter_eq|by rewrite lookup_alter_ne].
      destruct (subs g !! sid) as [s|]; simpl; [|done]. by destruct (Hf s) as (_ & -> & ->). }
    destruct (due (p g) !! k), (due (p g) !! parent k); by rewrite ?Hx.
Qed.

(** ... and the rest of the invariant neither. *)
Definition quiet (f : onlineSubscription → onlineSubscription) : Prop :=
  (∀ s i, f (s_with_index i s) = s_with_index i (f s)) ∧
  ∀ s, s_client (f s) = s_client s ∧ s_revision (f s) = s_revision s ∧ s_userIds (f s) = s_userIds s ∧ s_cancel (f s) = s_cancel s ∧
       s_nextAttempt (f s) = s_nextAttempt s ∧ s_index (f s) = s_index s ∧ s_readyAt (f s) = s_readyAt s ∧ s_seq (f s) = s_seq s.

Lemma upd_good X f sid g : quiet f → Good X g → Good X (upd sid f g) ∧ kept g (upd sid f g).
Proof.
  intros [Hi Hf] [Hq Hc Ha Hr]. assert (erase (upd sid f g) = upd sid f (erase g)) as E by (by apply erase_upd).
  split; [split|].
  - apply queue_ok_upd; [|done]. intros s. by destruct (Hf s) as (_ & _ & _ & _ & _ & ? & ? & ?).
  - rewrite E. apply core_upd; [|exact Hc]. intros s _. destruct (Hf s) as (H1 & H2 & H3 & H4 & H5 & H6 & H7 & H8). unfold alike_sub. rewrite H5, H7. done.
  - rewrite E. intros c x Hx H1 H2 H3. destruct (Ha c x Hx H1 H2 H3) as [?|(s & Hs & Hn)]; [by left|right]. rewrite subs_upd.
    destruct (decide (x = sid)) as [->|]; [exists (f s)|exists s; by rewrite lookup_alter_ne]. rewrite lookup_alter_eq, Hs. destruct (Hf s) as (_ & _ & _ & -> & _). done.
  - rewrite E. intros armed why Hd Hwk Hcl Hst. specialize (Hr armed why Hd Hwk Hcl Hst). destruct why; try done.
    destruct Hr as (t0 & -> & Ht0). exists t0. split; [done|]. intros x s Hx. rewrite subs_upd, lookup_alter_Some. intros [(-> & s0 & E0 & ->)|[_ E0]]; [|eauto].
    destruct (Hf s0) as (_ & _ & _ & _ & _ & _ & -> & _). eauto.
  - unfold kept. split_and!; try done. intros x. simpl. destruct (decide (x = sid)) as [->|]; [rewrite lookup_alter_eq|by rewrite lookup_alter_ne].
    destruct (subs g !! sid) as [s|]; simpl; [|done]. destruct (Hf s) as (H1 & H2 & H3 & H4 & _). by rewrite H1, H2, H3, H4.
Qed.

Lemma quiet_remark b : quiet (s_with_remark b).
Proof. by split. Qed.

Lemma quiet_success t : quiet (s_with_success t).
Proof. by split. Qed.

Lemma mark_good X g sid now :
  Good X g → (∀ s, subs g !! sid = Some s → active (p g) !! s_client s = Some sid) →
  Good (X ∖ {[sid]}) (mark (Some sid) now g) ∧ kept g (mark (Some sid) now g).
Proof.
  intros Hg Hact. unfold mark. destruct (subs g !! sid) as [s|] eqn:Hs.
  - destruct (s_cancel s) as [r|] eqn:Hc.
    + destruct (upd_good X _ sid g (quiet_remark true) Hg) as [[H1 H2 H3 H4] Hk]. split; [|done]. split; try done.
      intros c x Hx H5 H6 H7. destruct (decide (x = sid)) as [->|]; [right|apply (H3 c x); [done..|set_solver]].
      rewrite erase_upd, subs_upd, lookup_alter_eq, (subs_erase_Some g sid s Hs) by done. eexists. split; [done|]. simpl. congruence.
    + destruct (requeue_good X g sid s now Hg Hs Hc (Hact s eq_refl)) as (H1 & H2 & _). done.
  - split; [|apply kept_refl]. destruct Hg as [H1 H2 H3 H4]. split; try done. intros c x Hx H5 H6 H7. destruct (decide (x = sid)) as [->|]; [|apply (H3 c x); [done..|set_solver]].
    apply (c_active _ _ H2) in Hx as [_ (s & E & _)]. rewrite subs_erase, Hs in E. done.
Qed.

Lemma active_client X g c sid s : Good X g → active (p g) !! c = Some sid → subs g !! sid = Some s → s_client s = c.
Proof.
  intros [_ Hc _ _] Ha Hs. apply (c_active _ _ Hc c sid) in Ha as [Ha _]. destruct (c_own _ _ Hc _ _ Ha) as (s' & E & Ec).
  rewrite (subs_erase_Some g sid s Hs) in E. by simplify_eq/=.
Qed.

Lemma mark_active_good g c now : Good ∅ g → Good ∅ (mark (active (p g) !! c) now g) ∧ kept g (mark (active (p g) !! c) now g).
Proof.
  intros Hg. destruct (active (p g) !! c) as [sid|] eqn:Ha; [|by split; [|apply kept_refl]].
  destruct (mark_good ∅ g sid now Hg) as [H1 H2]; [intros s Hs; by rewrite (active_client ∅ g c sid s)|].
  split; [|done]. by replace (∅ : gset nat) with ((∅ : gset nat) ∖ {[sid]}) by set_solver.
Qed.

Lemma mark_clients_good now cs : ∀ g, Good ∅ g → Good ∅ (mark_clients now g cs) ∧ kept g (mark_clients now g cs).
Proof.
  induction cs as [|c cs IH]; intros g Hg; [by split; [|apply kept_refl]|]. destruct (mark_active_good g c now Hg) as [H1 H2].
  destruct (IH _ H1) as [H3 H4]. split; [done|by apply (kept_trans _ _ _ H2)].
Qed.

Lemma markOnlineChanged_good ids now g : Good ∅ g → Good ∅ (markOnlineChanged ids now g) ∧ kept g (markOnlineChanged ids now g).
Proof.
  intros Hg. unfold markOnlineChanged. destruct (stopped (p g) || closing g); [by split; [|apply kept_refl]|]. revert g Hg.
  induction ids as [|id ids IH]; intros g Hg; simpl; [by split; [|apply kept_refl]|].
  destruct (mark_clients_good now (range_clients (default ∅ (byUser (p g) !! id))) g Hg) as [H1 H2]. destruct (IH _ H1) as [H3 H4].
  split; [done|by apply (kept_trans _ _ _ H2)].
Qed.

(** ** Giving a subscription up *)

Lemma subs_cancelled s e : subs (cancelled s e) = subs e.
Proof. unfold cancelled. by destruct (s_cancel s). Qed.

Lemma cancelled_same s e :
  onlineSub (cancelled s e) = onlineSub e ∧ ended (cancelled s e) = ended e ∧ p (cancelled s e) = p e ∧ closing (cancelled s e) = closing e ∧ dispatcher (cancelled s e) = dispatcher e.
Proof. unfold cancelled. by destruct (s_cancel s). Qed.

(** [remove] seen through [erase], for a subscription its connection still has. *)
Lemma remove_erase g sid s :
  queue_ok g → Core (erase g) (queued g) → subs g !! sid = Some s → onlineSub g !! s_client s = Some sid →
  queue_ok (remove sid g) ∧ queued (remove sid g) = queued g ∖ {[sid]} ∧
  erase (remove sid g) = upd sid (s_with_remark false) (detach s (cancelled s (erase g))).
Proof.
  intros Hq Hc Hs Ho. destruct (remove_spec g sid s Hq Hs) as (H1 & H2 & H3). split_and!; [done|done|]. rewrite H3.
  exact (aremove_detach (erase g) (queued g) sid (s_with_index 0 s) Hc (subs_erase_Some _ _ _ Hs) Ho).
Qed.

Lemma drop_good X g c sid :
  Good X g → onlineSub g !! c = Some sid → (c ∈ ended g ∨ stopped (p g) = true) →
  let h := with_onlineSub (delete c (onlineSub (remove sid g))) (remove sid g) in
  Good X h ∧ active (p h) = delete c (active (p g)) ∧ onlineSub h = delete c (onlineSub g) ∧ stopped (p h) = stopped (p g) ∧ ended h = ended g ∧
  closing h = closing g ∧ dispatcher h = dispatcher g.
Proof.
  intros [Hq Hc Ha Hr] Ho Hend. destruct (c_own _ _ Hc c sid Ho) as (s0 & Hs0 & Ec). rewrite subs_erase in Hs0. destruct (subs g !! sid) as [s|] eqn:Hs; [|done].
  injection Hs0 as <-. change (s_client s = c) in Ec. subst c. intros h. destruct (remove_erase g sid s Hq Hc Hs Ho) as (H1 & H2 & H3). destruct (cancelled_same s (erase g)) as (C1 & C2 & C3 & C4 & C5).
  assert (erase h = upd sid (s_with_remark false) (with_onlineSub (delete (s_client s) (onlineSub (cancelled s (erase g)))) (detach s (cancelled s (erase g))))) as E.
  { change (erase h) with (with_onlineSub (delete (s_client s) (onlineSub (erase (remove sid g)))) (erase (remove sid g))). by rewrite H3. }
  assert (∀ A (f : Presence → A), (∀ y, f (erase y) = f y) → f h = f (upd sid (s_with_remark false) (with_onlineSub (delete (s_client s) (onlineSub (cancelled s (erase g)))) (detach s (cancelled s (erase g)))))) as Hp
    by (intros A f Hf; by rewrite <- Hf, E).
  assert (∀ c x, active (p (erase h)) !! c = Some x → active (p (erase g)) !! c = Some x ∧ x ≠ sid) as Hact.
  { intros c x. rewrite E. simpl. rewrite C3. apply (detach_active (erase g) (queued g) sid (s_with_index 0 s) c x Hc (subs_erase_Some _ _ _ Hs) Ho). }
  assert (queued h = queued g ∖ {[sid]}) as HQ by exact H2.
  split_and!; [split|rewrite (Hp _ (λ y, active (p y))) by done; simpl; by rewrite C3|rewrite (Hp _ onlineSub) by done; simpl; by rewrite C1
    |rewrite (Hp _ (λ y, stopped (p y))) by done; simpl; by rewrite C3|rewrite (Hp _ ended) by done; simpl; by rewrite C2|rewrite (Hp _ closing) by done; simpl; by rewrite C4
    |rewrite (Hp _ dispatcher) by done; simpl; by rewrite C5].
  - by apply (queue_ok_ext (remove sid g)).
  - rewrite E, HQ. apply core_upd; [by intros; unfold alike_sub|].
    apply (core_drop (cancelled s (erase g)) (queued g) sid (s_with_index 0 s)); [by apply core_cancelled|rewrite subs_cancelled; by apply subs_erase_Some|by rewrite C1|by rewrite C2, C3].
  - rewrite HQ. intros c x Hx Hn Hcl HX. destruct (Hact c x Hx) as [Hx' Hne]. rewrite E in Hn, Hcl. simpl in Hn, Hcl. rewrite C2 in Hn. rewrite C4 in Hcl.
    destruct (Ha c x Hx' Hn Hcl HX) as [?|(s' & Hs' & Hn')]; [left; set_solver|right]. exists s'. split; [|done]. rewrite E, subs_upd, lookup_alter_ne by done.
    change (subs (cancelled s (erase g)) !! x = Some s'). by rewrite subs_cancelled.
  - rewrite HQ, E. intros armed w Hd Hw Hcl Hst. simpl in Hd, Hw, Hcl, Hst. rewrite C3 in Hw, Hst. rewrite C4 in Hcl. rewrite C5 in Hd.
    specialize (Hr armed w Hd Hw Hcl Hst). destruct w; try done; [set_solver| |simpl; by rewrite C3]. destruct Hr as (t & -> & Ht). exists t. split; [done|].
    intros x s' [Hx Hne]%elem_of_difference Hs'. apply (Ht x s' Hx). rewrite subs_upd, lookup_alter_ne in Hs' by set_solver.
    change (subs (cancelled s (erase g)) !! x = Some s') in Hs'. by rewrite subs_cancelled in Hs'.
Qed.

(** ** Subscribing *)

Lemma elem_of_Compact l x : x ∈ Compact l ↔ x ∈ l.
Proof.
  induction l as [|a l IH]; [done|]. destruct l as [|b l]; [done|]. cbn [Compact] in *. destruct (String.eqb_spec a b) as [->|Hne].
  - rewrite IH. set_solver.
  - rewrite elem_of_cons, IH. set_solver.
Qed.

Lemma Compact_length l : (length (Compact l) ≤ length l)%nat.
Proof. induction l as [|a l IH]; [done|]. destruct l as [|b l]; [done|]. cbn [Compact] in *. destruct (a =? b)%string; simpl in *; lia. Qed.

Lemma NoDup_Compact l : StronglySorted String.le l → NoDup (Compact l).
Proof.
  induction l as [|a l IH]; [constructor|]. intros [Hs Ha]%StronglySorted_inv. destruct l as [|b l]; [apply NoDup_singleton|]. specialize (IH Hs). cbn [Compact] in *.
  destruct (String.eqb_spec a b) as [->|Hne]; [done|]. constructor; [|done]. intros Hin. change (a ∈ Compact (b :: l)) in Hin. rewrite elem_of_Compact in Hin.
  apply Hne. rewrite Forall_forall in Ha. apply (anti_symm String.le); [apply Ha; left|]. apply elem_of_cons in Hin as [->|Hin]; [reflexivity|].
  apply StronglySorted_inv in Hs as [_ Hb]. rewrite Forall_forall in Hb. by apply Hb.
Qed.

Lemma Sort_perm l : Sort l ≡ₚ l.
Proof. apply merge_sort_Permutation. Qed.

Lemma Compact_Sort_ok l :
  NoDup (Compact (Sort l)) ∧ (length (Compact (Sort l)) ≤ length l)%nat ∧ ∀ x, x ∈ Compact (Sort l) ↔ x ∈ l.
Proof.
  split_and!.
  - apply NoDup_Compact. unfold Sort, sortBy. apply (StronglySorted_merge_sort String.le).
  - etransitivity; [apply Compact_length|]. by rewrite (Permutation_length (Sort_perm l)).
  - intros x. by rewrite elem_of_Compact, Sort_perm.
Qed.

Lemma core_new e Q c sid s :
  Core e Q → subs e !! sid = None → onlineSub e !! c = None → c ∉ ended e → stopped (p e) = false →
  s_client s = c → s_userIds s = [] → s_cancel s = None → s_revision s = 0 →
  Core (with_onlineSub (<[c := sid]> (onlineSub e)) (with_subs (<[sid := s]> (subs e)) e)) Q.
Proof.
  intros H Hn Ho Hend Hst <- Hu Hc Hrev. assert (∀ x t, subs e !! x = Some t → x ≠ sid) as Hne by congruence.
  assert (∀ x t, subs e !! x = Some t → s_client t ≠ s_client s) as Hcl.
  { intros x t Ht E. assert (s_client t ∉ ended e) as Hn' by (by rewrite E). pose proof (c_live e Q H x t Ht Hn' Hst) as Hl. rewrite E in Hl. congruence. }
  assert (∀ x t, <[sid := s]> (subs e) !! x = Some t ↔ x = sid ∧ t = s ∨ x ≠ sid ∧ subs e !! x = Some t) as Hsub by (intros; rewrite lookup_insert_Some; naive_solver).
  assert (∀ x t, subs e !! x = Some t → <[sid := s]> (subs e) !! x = Some t) as Hfw by (intros x t Ht; apply Hsub; eauto).
  split; simpl; try apply H.
  - intros i j t u [[-> ->]|[Hi Ht]]%Hsub [[-> ->]|[Hj Hu']]%Hsub E; [done|by destruct (Hcl j u)|by destruct (Hcl i t)|by apply (c_client e Q H i j t u)].
  - intros c x. rewrite lookup_insert_Some. intros [[<- <-]|[_ Hx]]; [exists s; by rewrite lookup_insert_eq|]. destruct (c_own e Q H c x Hx) as (t & Ht & E). eauto.
  - intros x t [[-> ->]|[Hx Ht]]%Hsub Hn' _; [by rewrite lookup_insert_eq|]. rewrite lookup_insert_ne by (intros E; by destruct (Hcl x t)). by apply (c_live e Q H).
  - intros c x. rewrite (c_active e Q H). split.
    + intros [H1 (t & Ht & Hi)]. split; [|eauto]. rewrite lookup_insert_ne; [done|]. intros <-. congruence.
    + intros [H1 (t & [[-> ->]|[Hx Ht]]%Hsub & Hi)]; [done|]. rewrite lookup_insert_Some in H1. destruct H1 as [[_ ->]|[_ H1]]; [done|eauto].
  - intros id c. rewrite (c_byUser e Q H). split; intros (x & t & Ha & Ht & Hi); exists x, t; [eauto|]. apply Hsub in Ht as [[-> ->]|[_ Ht]]; [|done].
    rewrite Hu in Hi. set_solver.
  - destruct (c_refs e Q H) as [-> Hle]. split; [|done]. apply refs_sum_ext. intros c x Hx. apply (c_active e Q H) in Hx as [_ (t & Ht & _)]. unfold idlen. by rewrite (Hfw x t Ht), Ht.
  - intros x t [[-> ->]|[Hx Ht]]%Hsub; [|by apply (c_ids e Q H x)]. rewrite Hu, Hrev. split_and!; [constructor|done|constructor|done].
  - intros x Hx. destruct (c_queued e Q H x Hx) as (t & Ht & ?). eauto.
  - intros r j Hj. destruct (c_read e Q H r j Hj) as (t & Ht & ?). eauto.
  - intros x t r [[-> ->]|[Hx Ht]]%Hsub Hc'; [congruence|]. by apply (c_cancel e Q H x t).
  - destruct (c_started e Q H) as [H1 H2]. split; [done|]. intros c t Hin. destruct (H2 c t Hin) as (x & u & Hu' & ?). eauto.
  - destruct (c_sent e Q H) as [H1 H2]. split; [done|]. intros c sn l Hin. destruct (H2 c sn l Hin) as (x & u & Hu' & ?). eauto.
Qed.

(** The connection gets its subscription object, a new one the first time. *)
Definition own (c sid : nat) (s : onlineSubscription) g : Presence := with_onlineSub (<[c := sid]> (onlineSub g)) (with_subs (<[sid := s]> (subs g)) g).

Lemma own_good g c sid s :
  Good ∅ g → c ∉ ended g → stopped (p g) = false →
  sid = default (fresh (dom (subs g))) (onlineSub g !! c) → s = default (newSub c) (subs g !! sid) →
  Good ∅ (own c sid s g) ∧ s_client s = c ∧
  (let g0 := with_subs (<[sid := s]> (subs g)) g in
   with_onlineSub (<[c := sid]> (onlineSub (remove sid g0))) (remove sid g0) = remove sid (own c sid s g)).
Proof.
  intros Hg Hend Hst Esid Es. pose proof Hg as [Hq Hc Ha Hr]. destruct (onlineSub g !! c) as [x|] eqn:Ho; simpl in Esid.
  - subst sid. destruct (c_own _ _ Hc c x Ho) as (s0 & Hs0 & Ec). rewrite subs_erase in Hs0. destruct (subs g !! x) as [t|] eqn:Ht; [|done]. injection Hs0 as <-.
    simpl in Es. subst s. assert (<[x := t]> (subs g) = subs g) as E1 by (by apply insert_id). unfold own. rewrite E1, insert_id by done.
    assert (with_subs (subs g) g = g) as -> by (by destruct g). assert (with_onlineSub (onlineSub g) g = g) as -> by (by destruct g). split_and!; [done|done|].
    destruct (remove_spec g x t Hq Ht) as (_ & _ & E). assert (onlineSub (remove x g) = onlineSub g) as Eo.
    { change (onlineSub (erase (remove x g)) = onlineSub g). rewrite E. unfold aremove. destruct (s_cancel t); simpl; by destruct (active _ !! _). }
    rewrite Eo, insert_id by done. rewrite <- Eo. by destruct (remove x g).
  - assert (subs g !! sid = None) as Hn by (subst sid; apply fresh_None). clear Esid. rewrite Hn in Es. simpl in Es. subst s.
    assert (active (p g) !! c = None) as Hact. { destruct (active (p g) !! c) as [x|] eqn:E; [|done]. apply (c_active _ _ Hc) in E as [E _]. simpl in E. congruence. }
    split_and!; [|done|].
    + assert (erase (own c sid (newSub c) g) = with_onlineSub (<[c := sid]> (onlineSub (erase g))) (with_subs (<[sid := s_with_index 0 (newSub c)]> (subs (erase g))) (erase g))) as E.
      { unfold own, erase, with_subs, with_onlineSub. simpl. by rewrite fmap_insert. }
      assert (∀ x t, subs (erase g) !! x = Some t → x ≠ sid) as Hne by (intros x t Hx ->; by rewrite subs_erase, Hn in Hx).
      split.
      * destruct Hq as [[H1 H2] H3]. split; [split; simpl|].
        -- intros i x Hx. destruct (H1 i x Hx) as (t & Ht & Hi). exists t. split; [|done]. rewrite lookup_insert_ne; [done|]. congruence.
        -- intros x t. rewrite lookup_insert_Some. intros [[<- <-]|[_ Ht]]; [by left|exact (H2 x t Ht)].
        -- intros k Hk. specialize (H3 k Hk). unfold edge, le in *. rewrite !sub_key_skey in *. simpl.
           assert (∀ k x, due (p g) !! k = Some x → skey (<[sid := newSub c]> (subs g)) x = skey (subs g) x) as Hx.
           { intros k' x Hx. destruct (H1 k' x Hx) as (t & Ht & _). unfold skey. rewrite lookup_insert_ne by congruence. done. }
           destruct (due (p g) !! k) eqn:E1, (due (p g) !! parent k) eqn:E2; rewrite ?(Hx _ _ E1), ?(Hx _ _ E2); done.
      * rewrite E. apply core_new; try done. by rewrite subs_erase, Hn.
      * rewrite E. intros c' x Hx H1 H2 H3. destruct (Ha c' x Hx H1 H2 H3) as [?|(t & Ht & Hn')]; [by left|right]. exists t. simpl. rewrite lookup_insert_ne; [done|].
        intros ->. by destruct (Hne _ _ Ht).
      * rewrite E. intros armed w Hd Hw Hcl Hst'. specialize (Hr armed w Hd Hw Hcl Hst'). destruct w; try done. destruct Hr as (t & -> & Ht). exists t. split; [done|].
        intros x u Hx. simpl. destruct (c_queued _ _ Hc x Hx) as (u' & Hu' & _). rewrite lookup_insert_ne by (intros ->; by destruct (Hne _ _ Hu')). by apply Ht.
    + unfold remove, own. simpl. rewrite lookup_insert_eq. simpl. by rewrite Hact.
Qed.

Lemma upd_commute sid f k e : (∀ s, f (k s) = k (f s)) → upd sid f (upd sid k e) = upd sid k (upd sid f e).
Proof.
  intros E. unfold upd, with_subs. simpl. f_equal. apply map_eq. intros x. destruct (decide (x = sid)) as [->|]; [|by rewrite !lookup_alter_ne].
  rewrite !lookup_alter_eq. destruct (subs e !! sid); simpl; [by rewrite E|done].
Qed.

Lemma replace_good g sid s rev ids :
  Good ∅ g → subs g !! sid = Some s → onlineSub g !! s_client s = Some sid → s_revision s < rev →
  NoDup ids → Z.of_nat (length ids) ≤ maxOnlineSubscriptions → Forall (λ id, Valid id = true) ids →
  refs (p g) - Z.of_nat (length (s_userIds s)) + Z.of_nat (length ids) ≤ maxOnlineSubscriptionRefs →
  let h := attach (s_client s) sid ids (upd sid (s_with_set rev ids) (remove sid g)) in
  Good {[sid]} h ∧ dispatcher h = dispatcher g ∧ stopped (p h) = stopped (p g) ∧
  (∀ t, subs h !! sid = Some t → s_client t = s_client s) ∧ active (p h) !! s_client s = (if (length ids =? 0)%nat then None else Some sid).
Proof.
  intros [Hq Hc Ha Hr] Hs Ho Hrev Hnd Hlen Hval Href h. destruct (remove_erase g sid s Hq Hc Hs Ho) as (H1 & H2 & H3).
  destruct (cancelled_same s (erase g)) as (C1 & C2 & C3 & C4 & C5). set (e := cancelled s (erase g)) in *.
  assert (erase h = upd sid (s_with_remark false) (attach (s_client s) sid ids (upd sid (s_with_set rev ids) (detach s e)))) as E.
  { change (erase h) with (attach (s_client s) sid ids (erase (upd sid (s_with_set rev ids) (remove sid g)))). rewrite erase_upd, H3, upd_commute by done. done. }
  assert (queued h = queued g ∖ {[sid]}) as HQ by exact H2.
  assert (∀ A (f : Presence → A), (∀ y, f (erase y) = f y) → f h = f (upd sid (s_with_remark false) (attach (s_client s) sid ids (upd sid (s_with_set rev ids) (detach s e))))) as Hp
    by (intros A f Hf; by rewrite <- Hf, E).
  assert (∀ x, x ≠ sid → subs (erase h) !! x = subs (erase g) !! x) as Hsub.
  { intros x Hx. rewrite E, subs_upd, lookup_alter_ne by done. change (alter (s_with_set rev ids) sid (subs e) !! x = subs (erase g) !! x). rewrite lookup_alter_ne by done. unfold e. by rewrite subs_cancelled. }
  assert (active (p h) = if (length ids =? 0)%nat then delete (s_client s) (active (p g)) else <[s_client s := sid]> (delete (s_client s) (active (p g)))) as Hact
    by (rewrite (Hp _ (λ y, active (p y))) by done; simpl; by rewrite C3).
  split_and!; [split|rewrite (Hp _ dispatcher) by done; exact C5|rewrite (Hp _ (λ y, stopped (p y))) by done; simpl; by rewrite C3| |].
  - apply (queue_ok_ext (upd sid (s_with_set rev ids) (remove sid g))); [done|done|]. by apply queue_ok_upd.
  - rewrite E, HQ. apply core_upd; [by intros; unfold alike_sub|].
    apply (core_replace e (queued g) sid (s_with_index 0 s) rev ids); try done; [by apply core_cancelled|unfold e; rewrite subs_cancelled; by apply subs_erase_Some|by rewrite C1|by rewrite C3].
  - rewrite HQ. intros c x Hx Hn Hcl HX%not_elem_of_singleton. rewrite E in Hn, Hcl. simpl in Hn, Hcl. rewrite C2 in Hn. rewrite C4 in Hcl.
    assert (active (p (erase g)) !! c = Some x) as Hx'.
    { change (active (p h) !! c = Some x) in Hx. rewrite Hact in Hx. destruct (length ids =? 0)%nat; [by apply lookup_delete_Some in Hx as [_ Hx]|].
      apply lookup_insert_Some in Hx as [[_ Hx]|[_ Hx]]; [congruence|by apply lookup_delete_Some in Hx as [_ Hx]]. }
    rewrite Hsub by done. destruct (Ha c x Hx' Hn Hcl); [set_solver|left; set_solver|by right].
  - rewrite HQ. intros armed w Hd Hw Hcl Hst. rewrite E in Hd, Hw, Hcl, Hst. simpl in Hd, Hw, Hcl, Hst. rewrite C3 in Hw, Hst. rewrite C4 in Hcl. rewrite C5 in Hd.
    specialize (Hr armed w Hd Hw Hcl Hst). destruct w; try done; [set_solver| |rewrite E; simpl; by rewrite C3]. destruct Hr as (t & -> & Ht). exists t. split; [done|].
    intros x s' [Hx Hne]%elem_of_difference. rewrite Hsub by set_solver. by apply Ht.
  - intros t Ht. apply subs_erase_Some in Ht. rewrite E, subs_upd, lookup_alter_eq in Ht.
    change (s_with_remark false <$> alter (s_with_set rev ids) sid (subs e) !! sid = Some (s_with_index 0 t)) in Ht. unfold e in Ht.
    rewrite lookup_alter_eq, subs_cancelled, (subs_erase_Some g sid s Hs) in Ht. apply (inj Some), (f_equal s_client) in Ht. by simpl in Ht.
  - rewrite Hact. destruct (length ids =? 0)%nat; [by rewrite lookup_delete_eq|by rewrite lookup_insert_eq].
Qed.

Lemma attach_nil c sid g : attach c sid [] g = g.
Proof. unfold attach. simpl. rewrite Z.add_0_r. by destruct g as [[]]. Qed.

Lemma set_good enabled c in_ now g :
  Good ∅ g → Good ∅ (setOnlineSubscriptions enabled c in_ now g).2 ∧ dispatcher (setOnlineSubscriptions enabled c in_ now g).2 = dispatcher g ∧
    stopped (p (setOnlineSubscriptions enabled c in_ now g).2) = stopped (p g) ∧ (stopped (p g) = true → (setOnlineSubscriptions enabled c in_ now g).2 = g).
Proof.
  intros Hg. unfold setOnlineSubscriptions. destruct (negb enabled); [done|]. destruct (_ || _) eqn:Hlen; [done|].
  destruct (List.find _ _) as [bad|] eqn:Hf; [done|]. destruct (stopped (p g) || closing g) eqn:Hst; [done|]. apply orb_false_iff in Hst as [Hst Hcl].
  case_bool_decide as Hend; [done|]. set (ids := Compact (Sort (In_UserIds in_))). destruct (Compact_Sort_ok (In_UserIds in_)) as (Hnd & Hl & Hel). fold ids in Hnd, Hl, Hel.
  remember (default (fresh (dom (subs g))) (onlineSub g !! c)) as sid eqn:Esid. remember (default (newSub c) (subs g !! sid)) as s eqn:Es.
  destruct (own_good g c sid s Hg Hend Hst Esid Es) as (Hown & Hcl' & Erm).
  destruct (Z.ltb_spec (In_Revision in_) (s_revision s)); [done|]. destruct (Z.eqb_spec (In_Revision in_) (s_revision s)); [by case_bool_decide|].
  destruct (Z.ltb_spec maxOnlineSubscriptionRefs (refs (p g) - Z.of_nat (length (s_userIds s)) + Z.of_nat (length ids))); [done|].
  assert (Forall (λ id, Valid id = true) ids) as Hval.
  { apply Forall_forall. intros id Hid%Hel%list_elem_of_In. apply (List.find_none _ _ Hf) in Hid. by apply negb_false_iff. }
  apply orb_false_iff in Hlen as [Hr0 Hlen].
  destruct (replace_good (own c sid s g) sid s (In_Revision in_) ids) as (H1 & H2 & H3 & H4 & H5); [done|by apply lookup_insert_eq|rewrite Hcl'; by apply lookup_insert_eq|lia|done|lia|done|simpl; lia|].
  rewrite Hcl' in *. rewrite <- Erm in *. cbv zeta. destruct (Nat.eqb_spec (length ids) 0) as [E0|E0].
  - apply length_zero_iff_nil in E0. rewrite E0 in *. rewrite attach_nil in *. cbn [snd]. split_and!; [|exact H2|exact H3|congruence].
    pose proof H1 as [G1 G2 G3 G4]. split; try done. intros c' x Hx Hn Hc' _. apply (G3 c' x Hx Hn Hc'). intros ->%elem_of_singleton.
    pose proof Hx as Hx'. apply (c_active _ _ G2) in Hx' as [_ (t & Ht & _)]. rewrite subs_erase in Ht. destruct (subs _ !! sid) as [t'|] eqn:Et in Ht; [|done].
    pose proof (H4 _ Et) as E1. pose proof (active_client _ _ c' sid t' H1 Hx Et) as E2. assert (c' = c) as -> by congruence. assert (Some sid = None) by (etransitivity; [symmetry; exact Hx|exact H5]). done.
  - cbn [snd]. set (h := attach c sid ids _) in *. fold ids. destruct (mark_good {[sid]} h sid now H1) as [G1 (K1 & K2 & K3 & K4 & K5 & K6 & K7 & K8 & _)].
    { intros t Ht. by rewrite (H4 t Ht). }
    replace (({[sid]} : gset nat) ∖ {[sid]}) with (∅ : gset nat) in G1 by set_solver.
    match goal with |- Good ∅ (mark _ _ ?x) ∧ _ => assert (x = h) as -> end.
    { unfold h, attach. by destruct (Nat.eqb_spec (length ids) 0). }
    split_and!; [done|by rewrite K8, H2|by rewrite K3, H3|congruence].
Qed.

(** ** Dispatching *)

Lemma jobs_bound e Q : Core e Q → Z.of_nat (length (jobs (p e))) ≤ reads (p e).
Proof.
  intros H. destruct (c_jobs e Q H) as [Hnd Hq]. destruct (c_reads e Q H) as [-> _]. apply inj_le. rewrite <- size_dom.
  rewrite <- (size_list_to_set (C := gset nat)) by done. apply subseteq_size. intros r Hr. apply elem_of_list_to_set, Hq in Hr as (j & Hj & _).
  by apply elem_of_dom_2 in Hj.
Qed.

Lemma start_good g sid rest s now f :
  Good ∅ g → dispatcher g = Awake → due (p g) = sid :: rest → subs g !! sid = Some s → s_readyAt s ≤ now → reads (p g) < onlineRefreshWorkers →
  let h := start_read sid s now f g in
  Good ∅ h ∧ dispatcher h = Awake ∧ length (due (p h)) = length rest ∧ closing h = closing g ∧ stopped (p h) = stopped (p g) ∧ active (p h) = active (p g).
Proof.
  intros [Hq Hc Ha Hr] Hd Hdue Hs Hnow Hreads h. set (r := fresh (dom (inflight g))).
  set (g1 := with_inflight (<[r := mkRead sid (s_revision s) (s_userIds s) false RQueued]> (inflight g))
             (with_p (p_with_frames f (p_with_jobs (reads (p g)) (jobs (p g) ++ [r]) (p g))) g)).
  assert (queue_ok g1) as Hq1 by (by apply (queue_ok_ext g)). destruct (Pop_spec g1 sid rest Hq1 Hdue) as (H1 & H2 & H3).
  set (g2 := Heap.Pop g1) in *.
  assert (erase h = with_p (p_with_frames f (p (astart sid s now (erase g)))) (astart sid s now (erase g))) as E.
  { assert (h = with_log ((s_client s, now) :: started g2) (sent g2)
      (upd sid (λ s, s_with_attempt (now + onlineRefreshMinInterval) (s_with_remark false (s_with_cancel (Some r) s)))
         (with_p (p_with_jobs (reads (p g2) + 1) (jobs (p g2)) (p g2)) g2))) as -> by done.
    change (erase (with_log ((s_client s, now) :: started g2) (sent g2) ?x)) with (with_log ((s_client s, now) :: started (erase g2)) (sent (erase g2)) (erase x)).
    rewrite erase_upd by done. change (erase (with_p (p_with_jobs (reads (p g2) + 1) (jobs (p g2)) (p g2)) g2))
      with (with_p (p_with_jobs (reads (p (erase g2)) + 1) (jobs (p (erase g2))) (p (erase g2))) (erase g2)). rewrite H3. done. }
  assert (queued h = queued g ∖ {[sid]}) as HQ.
  { apply leibniz_equiv. intros x. change (x ∈ queued g2 ↔ x ∈ queued g ∖ {[sid]}). unfold queued. rewrite elem_of_difference, !elem_of_list_to_set, H2. set_solver. }
  assert (sid ∈ queued g) as HsQ by (unfold queued; rewrite elem_of_list_to_set, Hdue; set_solver).
  assert (∀ A (k : Presence → A), (∀ y, k (erase y) = k y) → k h = k (with_p (p_with_frames f (p (astart sid s now (erase g)))) (astart sid s now (erase g)))) as Hp
    by (intros A k Hk; by rewrite <- Hk, E).
  split_and!; [split|by rewrite (Hp _ dispatcher)| |by rewrite (Hp _ closing)|by rewrite (Hp _ (λ y, stopped (p y)))|by rewrite (Hp _ (λ y, active (p y)))].
  - apply (queue_ok_ext (upd sid (λ s, s_with_attempt (now + onlineRefreshMinInterval) (s_with_remark false (s_with_cancel (Some r) s))) g2)); [done|done|]. by apply queue_ok_upd.
  - rewrite E, HQ. pose proof (core_start (erase g) (queued g) sid (s_with_index 0 s) now Hc (subs_erase_Some _ _ _ Hs) HsQ Hnow Hreads) as H. destruct H. by split.
  - rewrite E, HQ. intros c x Hx Hn Hcl _. destruct (decide (x = sid)) as [->|Hne].
    + right. change (∃ t, alter (λ s, s_with_attempt (now + onlineRefreshMinInterval) (s_with_remark false (s_with_cancel (Some r) s))) sid (subs (erase g)) !! sid = Some t ∧ s_cancel t ≠ None).
      rewrite lookup_alter_eq, (subs_erase_Some g sid s Hs). by eexists.
    + destruct (Ha c x Hx Hn Hcl) as [?|(t & Ht & Hn')]; [set_solver|left; set_solver|right]. exists t. split; [|done].
      change (alter (λ s, s_with_attempt (now + onlineRefreshMinInterval) (s_with_remark false (s_with_cancel (Some r) s))) sid (subs (erase g)) !! x = Some t). by rewrite lookup_alter_ne.
  - intros armed w Hd'. rewrite E in Hd'. simpl in Hd'. congruence.
  - change (length (due (p g2)) = length rest). pose proof (due_nodup g1 (proj1 Hq1)) as N1. pose proof (due_nodup g2 (proj1 H1)) as N2.
    assert (due (p g2) ≡ₚ rest) as P; [|by rewrite P]. change (due (p g1)) with (due (p g)) in *. rewrite Hdue in *. apply NoDup_cons in N1 as [N0 N1].
    apply NoDup_Permutation; [done|done|]. intros x. rewrite H2. set_solver.
Qed.

(** The pass ends, never blocks on the channel, and leaves no connection waiting that is due while a slot and a token are free. *)
Definition pass_end (now wait : Z) h : Prop :=
  match due (p h) with
  | [] => wait = 0
  | sid :: _ => ∃ s, subs h !! sid = Some s ∧
      (0 < Sub (s_readyAt s) now ∧ wait = Sub (s_readyAt s) now ∨
       Sub (s_readyAt s) now ≤ 0 ∧ (reads (p h) = onlineRefreshWorkers ∧ wait = 0 ∨ reads (p h) ≠ onlineRefreshWorkers ∧
         ∃ b r f, ReserveN b now 1 = (r, f) ∧ (OK r = false ∧ wait = 0 ∨ OK r = true ∧ 0 < DelayFrom r now ∧ wait = DelayFrom r now)))
  end.

Lemma frames_good X g f : Good X g → Good X (with_p (p_with_frames f (p g)) g).
Proof.
  intros [Hq Hc Ha Hr]. split; [by apply (queue_ok_ext g)| |exact Ha|exact Hr]. destruct Hc. by split.
Qed.

Lemma dispatch_good now fuel : ∀ g,
  Good ∅ g → dispatcher g = Awake → (length (due (p g)) ≤ fuel)%nat →
  ∃ wait h, dispatch_loop fuel now g = (Some wait, h) ∧ Good ∅ h ∧ dispatcher h = Awake ∧ closing h = closing g ∧ stopped (p h) = stopped (p g) ∧
    active (p h) = active (p g) ∧ pass_end now wait h.
Proof.
  induction fuel as [|fuel IH]; intros g Hg Hd Hl.
  { destruct (due (p g)) eqn:E; [|simpl in Hl; lia]. exists 0, g. simpl. unfold pass_end. rewrite E. done. }
  simpl. destruct (due (p g)) as [|sid rest] eqn:E; [exists 0, g; unfold pass_end; by rewrite E|].
  pose proof Hg as [Hq Hc _ _]. destruct (q_pos g (proj1 Hq) 0 sid) as (s & Hs & _); [by rewrite E|]. rewrite Hs.
  destruct (Z.ltb_spec 0 (Sub (s_readyAt s) now)) as [Hw|Hw]; [eexists _, g; split_and!; try done; unfold pass_end; rewrite E; eauto|].
  destruct (Z.eqb_spec (reads (p g)) onlineRefreshWorkers) as [Hw4|Hw4]; [exists 0, g; split_and!; try done; unfold pass_end; rewrite E; eauto 10|].
  destruct (ReserveN (frames (p g)) now 1) as [r f] eqn:Er. destruct (OK r) eqn:Eok; simpl;
    [|eexists 0, _; split_and!; [done|by apply frames_good|done..|]; unfold pass_end; simpl; rewrite E; exists s; split; [done|]; right; split; [done|]; right; split; [done|]; by eauto 10].
  destruct (Z.ltb_spec 0 (DelayFrom r now)) as [Hd0|Hd0].
  { eexists _, _. split_and!; [done|by apply frames_good|done..|]. unfold pass_end. simpl. rewrite E. exists s. split; [done|]. right. split; [done|]. right. split; [done|]. eauto 10. }
  pose proof (proj2 (c_reads _ _ Hc)) as Hr4. pose proof (jobs_bound _ _ Hc) as Hjb. simpl in Hr4, Hjb.
  destruct (Z.leb_spec onlineRefreshWorkers (Z.of_nat (length (jobs (p g))))) as [Hj|Hj]; [lia|].
  destruct (start_good g sid rest s now f Hg Hd E Hs) as (H1 & H2 & H3 & H4 & H5 & H6); [unfold Sub, minInt64, maxInt64 in Hw; lia|lia|].
  destruct (IH _ H1 H2) as (wait & h & G1 & G2 & G3 & G4 & G5 & G6 & G7); [simpl in Hl; lia|]. exists wait, h. split_and!; congruence || done.
Qed.

(** ** Finishing a read *)

(** The deferred part: the slot is freed, then the dispatcher woken. *)
Definition fin (r : nat) g : Presence :=
  notify (with_p (p_with_jobs (reads (p g) - 1) (jobs (p g)) (p g)) (with_inflight (delete r (inflight g)) g)).

Lemma awake_rested g Q : wake (p g) = true → rested (erase g) Q.
Proof. intros Hw armed w _ Hw'. simpl in Hw'. congruence. Qed.

Lemma fin_core g r j f :
  Core (erase g) (queued g) → inflight g !! r = Some j → r_phase j ≠ RQueued → quiet f →
  Core (fin r (upd (r_sub j) f (upd (r_sub j) (s_with_cancel None) (erase g)))) (queued g).
Proof.
  intros Hc Hj Hph [_ Hf]. apply (core_wake (upd (r_sub j) f (afinish (r_sub j) r (erase g))) (queued g) true (pseq (p g))).
  apply core_upd; [|by apply core_finish]. intros s _. destruct (Hf s) as (H1 & H2 & H3 & H4 & H5 & H6 & H7 & H8). unfold alike_sub. rewrite H5, H7. done.
Qed.

(** The read's subscription is not queued. *)
Lemma reading_not_queued g r j : Core (erase g) (queued g) → inflight g !! r = Some j → r_sub j ∉ queued g.
Proof.
  intros Hc Hj HQ. destruct (c_read _ _ Hc r j Hj) as (s & Hs & Hcs & _). destruct (c_queued _ _ Hc _ HQ) as (s' & Hs' & Hn & _). congruence.
Qed.

Lemma finish_requeue g r j s at_ f :
  Good ∅ g → inflight g !! r = Some j → r_phase j ≠ RQueued → quiet f → subs g !! r_sub j = Some s → active (p g) !! s_client s = Some (r_sub j) →
  let h := fin r (requeue (r_sub j) at_ (upd (r_sub j) f (upd (r_sub j) (s_with_cancel None) g))) in
  Good ∅ h ∧ dispatcher h = dispatcher g ∧ active (p h) = active (p g) ∧ stopped (p h) = stopped (p g) ∧
  (∀ t, subs h !! r_sub j = Some t → s_client t = s_client s ∧ s_revision t = s_revision s ∧ s_userIds t = s_userIds s).
Proof.
  intros [Hq Hc Ha Hr] Hj Hph Hf Hs Hact h. set (sid := r_sub j) in *. set (g1 := upd sid f (upd sid (s_with_cancel None) g)) in *.
  assert (queue_ok g1) as Hq1.
  { apply queue_ok_upd; [intros x; by destruct (proj2 Hf x) as (_ & _ & _ & _ & _ & ? & ? & ?)|]. by apply queue_ok_upd. }
  assert (subs g1 !! sid = Some (f (s_with_cancel None s))) as Hs1 by (unfold g1; by rewrite !subs_upd, !lookup_alter_eq, Hs).
  destruct (proj2 Hf (s_with_cancel None s)) as (F1 & F2 & F3 & F4 & F5 & F6 & F7 & F8).
  assert (erase g1 = upd sid f (upd sid (s_with_cancel None) (erase g))) as E1 by (unfold g1; rewrite erase_upd by apply Hf; by rewrite erase_upd).
  destruct (requeue_spec g1 sid _ at_ Hq1 Hs1) as [(_ & HQ & _)|(H1 & H2 & _ & q & n & w & E & _)].
  { exfalso. by apply (reading_not_queued g r j Hc Hj). }
  set (t := Z.max at_ _) in *. set (k := requeue sid at_ g1) in *. change (queued g1) with (queued g) in H2.
  assert (erase h = aready sid t q n true (fin r (upd sid f (upd sid (s_with_cancel None) (erase g))))) as Eh.
  { change (erase h) with (fin r (erase k)). rewrite E, E1. done. }
  assert (queued h = {[sid]} ∪ queued g) as HQ by exact H2.
  assert (subs (erase g) !! sid = Some (s_with_index 0 s)) as Hse by (by apply subs_erase_Some).
  set (e1 := fin r (upd sid f (upd sid (s_with_cancel None) (erase g)))) in *.
  assert (subs e1 !! sid = Some (f (s_with_cancel None (s_with_index 0 s)))) as Hs'.
  { change (alter f sid (alter (s_with_cancel None) sid (subs (erase g))) !! sid = Some (f (s_with_cancel None (s_with_index 0 s)))). by rewrite !lookup_alter_eq, Hse. }
  assert (∀ A (kf : Presence → A), (∀ y, kf (erase y) = kf y) → kf h = kf (aready sid t q n true e1)) as Hp by (intros A kf Hk; by rewrite <- Hk, Eh).
  destruct (proj2 Hf (s_with_cancel None (s_with_index 0 s))) as (D1 & D2 & D3 & D4 & D5 & D6 & D7 & D8).
  split_and!; [split|by rewrite (Hp _ dispatcher)|by rewrite (Hp _ (λ y, active (p y)))|by rewrite (Hp _ (λ y, stopped (p y)))|].
  - by apply (queue_ok_ext k).
  - rewrite Eh, HQ. apply (core_ready e1 (queued g) sid (f (s_with_cancel None (s_with_index 0 s)))); [by apply fin_core|exact Hs'|by rewrite D4|rewrite D1; exact Hact|rewrite D5; unfold t; rewrite F5; simpl; lia].
  - rewrite Eh, HQ. intros c x Hx Hn Hcl _. destruct (decide (x = sid)) as [->|Hne]; [left; set_solver|].
    destruct (Ha c x Hx Hn Hcl) as [?|(u & Hu & Hn')]; [set_solver|left; set_solver|right]. exists u. split; [|done].
    change (alter (s_with_ready t q) sid (alter f sid (alter (s_with_cancel None) sid (subs (erase g)))) !! x = Some u). by rewrite !lookup_alter_ne.
  - by apply awake_rested.
  - intros u Hu. apply subs_erase_Some in Hu. rewrite Eh, subs_aready, lookup_alter_eq, Hs' in Hu. simpl in Hu. apply (inj Some) in Hu.
    pose proof (f_equal s_client Hu) as U1. pose proof (f_equal s_revision Hu) as U2. pose proof (f_equal s_userIds Hu) as U3. simpl in U1, U2, U3.
    rewrite D1 in U1. rewrite D2 in U2. rewrite D3 in U3. done.
Qed.

Lemma finish_idle g r j s :
  Good ∅ g → inflight g !! r = Some j → r_phase j ≠ RQueued → subs g !! r_sub j = Some s →
  (closing g = true ∨ s_client s ∈ ended g ∨ active (p g) !! s_client s ≠ Some (r_sub j)) →
  let h := fin r (upd (r_sub j) (s_with_cancel None) g) in Good ∅ h ∧ dispatcher h = dispatcher g ∧ active (p h) = active (p g) ∧ stopped (p h) = stopped (p g).
Proof.
  intros Hg Hj Hph Hs Hid h. pose proof Hg as [Hq Hc Ha Hr]. set (sid := r_sub j) in *.
  assert (quiet (λ s, s)) as Hid' by (by split). assert (erase h = fin r (upd sid (λ s, s) (upd sid (s_with_cancel None) (erase g)))) as E.
  { change (erase h) with (fin r (erase (upd sid (s_with_cancel None) g))). rewrite erase_upd by done. f_equal. unfold upd at 2. symmetry.
    assert (∀ y, with_subs (alter (λ s, s) sid (subs y)) y = y) as Hy; [|apply Hy]. intros y. rewrite alter_id by done. by destruct y. }
  split_and!; [split|done..].
  - apply (queue_ok_ext (upd sid (s_with_cancel None) g)); [done|done|]. by apply queue_ok_upd.
  - rewrite E. change (queued h) with (queued g). by apply fin_core.
  - change (queued h) with (queued g). intros c x Hx Hn Hcl HX. change (erase h) with (fin r (erase (upd sid (s_with_cancel None) g))). rewrite erase_upd by done.
    destruct (decide (x = sid)) as [->|Hne].
    + exfalso. change (active (p g) !! c = Some sid) in Hx. pose proof (active_client _ _ c sid s Hg Hx Hs) as <-.
      change (s_client s ∉ ended g) in Hn. change (closing g = false) in Hcl. destruct Hid as [?|[?|?]]; congruence || done.
    + destruct (Ha c x Hx Hn Hcl HX) as [?|(u & Hu & Hn')]; [by left|right]. exists u. split; [|done].
      change (alter (s_with_cancel None) sid (subs (erase g)) !! x = Some u). by rewrite lookup_alter_ne.
  - by apply awake_rested.
Qed.

Lemma log_good X g sid s snap :
  Good X g → subs g !! sid = Some s → Snap_Revision snap = s_revision s →
  (Snap_Stale snap = false → map OS_UserId (Snap_Items snap) = s_userIds s) →
  Good X (with_log (started g) ((s_client s, snap, s_userIds s) :: sent g) g).
Proof.
  intros [Hq Hc Ha Hr] Hs E Hsh. split; [by apply (queue_ok_ext g)| |exact Ha|exact Hr].
  exact (core_push (erase g) (queued g) sid (s_with_index 0 s) snap Hc (subs_erase_Some _ _ _ Hs) E Hsh).
Qed.

Lemma push_outcome c snap ids q g : ∃ slow, queueOnlineSnapshot c snap ids q g = (slow, g) ∨ queueOnlineSnapshot c snap ids q g = (slow, with_log (started g) ((c, snap, ids) :: sent g) g).
Proof. destruct q; eexists; eauto. Qed.

Lemma finish_good r now q g :
  Good ∅ g → (stopped (p g) = true → active (p g) = ∅) →
  Good ∅ (finishOnlineRead r now q g).2 ∧ dispatcher (finishOnlineRead r now q g).2 = dispatcher g ∧
  active (p (finishOnlineRead r now q g).2) = active (p g) ∧ stopped (p (finishOnlineRead r now q g).2) = stopped (p g).
Proof.
  intros Hg Hstop. unfold finishOnlineRead. destruct (inflight g !! r) as [j|] eqn:Hj; [|done]. destruct (r_phase j) as [| |res] eqn:Hph; [done|done|].
  assert (r_phase j ≠ RQueued) as Hph' by (rewrite Hph; done). pose proof Hg as [Hq Hc Ha Hr].
  destruct (c_read _ _ Hc r j Hj) as (s0 & Hs0 & _ & _ & Hrev). rewrite subs_erase in Hs0. destruct (subs g !! r_sub j) as [s|] eqn:Hs; [|done]. injection Hs0 as <-. simpl in Hrev.
  set (err := match res with Err e => Some e | Ok _ => None end). set (items := match res with Ok l => l | Err _ => [] end).
  unfold adopt_read. rewrite subs_upd, lookup_alter_eq, Hs. cbn [fmap option_fmap option_map].
  set (g0 := upd (r_sub j) (s_with_cancel None) g).
  assert (s_client (s_with_cancel None s) = s_client s ∧ s_userIds (s_with_cancel None s) = s_userIds s ∧ stopped (p g0) = stopped (p g) ∧ closing g0 = closing g ∧ ended g0 = ended g ∧ onlineSub g0 = onlineSub g)
    as (-> & -> & -> & -> & -> & ->) by done.
  destruct (negb _ || negb _) eqn:Hstay.
  { cbn [snd]. apply (finish_idle g r j s Hg Hj Hph' Hs). apply orb_true_iff in Hstay. rewrite !negb_true_iff, !andb_false_iff, !negb_false_iff in Hstay.
    destruct Hstay as [[[Hst|?]|Hend]|[Hno|Hno]]; [|by left|right; left; by apply bool_decide_eq_true in Hend|..].
    - right. right. rewrite Hstop by done. done.
    - right. right. intros Hx. apply (c_active _ _ Hc) in Hx as [Hx _]. by apply bool_decide_eq_false in Hno.
    - right. right. intros Hx. apply (c_active _ _ Hc) in Hx as [_ (u & Hu & Hn)]. rewrite (subs_erase_Some g _ s Hs) in Hu. injection Hu as <-. simpl in Hn.
      destruct (s_userIds s); [done|]. simpl in Hno. done. }
  apply orb_false_iff in Hstay as [_ Hcur]. rewrite negb_false_iff, andb_true_iff, bool_decide_eq_true in Hcur. destruct Hcur as [Hon Hids].
  assert (active (p g) !! s_client s = Some (r_sub j)) as Hact.
  { apply (c_active _ _ Hc). split; [exact Hon|]. exists (s_with_index 0 s). split; [by apply subs_erase_Some|]. simpl. intros E. by rewrite E in Hids. }
  set (at_ := if s_remark (s_with_cancel None s) then now else now + onlineSnapshotInterval).
  destruct (finish_requeue g r j s at_ (s_with_remark false) Hg Hj Hph' (quiet_remark false) Hs Hact) as (G1 & G2 & G3 & G4 & G5).
  fold g0 in G1, G2, G3, G4, G5. set (k := requeue (r_sub j) at_ (upd (r_sub j) (s_with_remark false) g0)) in *.
  destruct (negb (s_revision (s_with_cancel None s) =? r_revision j)) eqn:Erev; [done|]. apply negb_false_iff, Z.eqb_eq in Erev. simpl in Erev.
  assert (r_userIds j = s_userIds s) as Eids by (apply Hrev; congruence).
  assert (∃ t, subs k !! r_sub j = Some t) as [t Ht].
  { assert (active (p (fin r k)) !! s_client s = Some (r_sub j)) as Hx by (by rewrite G3). apply (c_active _ _ (g_core _ _ G1)) in Hx as [_ (u & Hu & _)].
    rewrite subs_erase in Hu. change (subs (fin r k)) with (subs k) in Hu. destruct (subs k !! r_sub j); [eauto|done]. }
  destruct (G5 t Ht) as (T1 & T2 & T3).
  assert (∀ K u snap, Good ∅ (fin r K) → subs K !! r_sub j = Some u → s_client u = s_client s → s_revision u = s_revision s → s_userIds u = s_userIds s →
    Snap_Revision snap = s_revision s → (Snap_Stale snap = false → map OS_UserId (Snap_Items snap) = s_userIds s) → dispatcher K = dispatcher g → active (p K) = active (p g) → stopped (p K) = stopped (p g) →
    let h := fin r (queueOnlineSnapshot (s_client s) snap (r_userIds j) q K).2 in
    Good ∅ h ∧ dispatcher h = dispatcher g ∧ active (p h) = active (p g) ∧ stopped (p h) = stopped (p g)) as Hpush.
  { intros K u snap HK Hu U1 U2 U3 Hsn Hsh K1 K2 K3. rewrite Eids. destruct (push_outcome (s_client s) snap (s_userIds s) q K) as [slow [-> | ->]]; simpl; [done|].
    split; [|done]. rewrite <- U1, <- U3. rewrite <- U3 in Hsh. exact (log_good ∅ (fin r K) (r_sub j) u snap HK Hu ltac:(congruence) Hsh). }
  assert (err = None → false = false → map OS_UserId items = s_userIds s) as Hitems.
  { intros He _. unfold items, err in *. destruct res as [l|]; [|done]. rewrite <- Eids. by apply (c_items _ _ Hc r j). }
  destruct err as [er|].
  - destruct (IsZero _ || _); [done|]. specialize (Hpush k t (mkSnapshot (s_revision (s_with_cancel None s)) [] true) G1 Ht T1 T2 T3 eq_refl ltac:(done) G2 G3 G4).
    change (s_client s) with (s_client (s_with_cancel None s)) in Hpush at 1. destruct (queueOnlineSnapshot _ _ _ q k) as [full k']. exact Hpush.
  - specialize (Hitems eq_refl). destruct (upd_good ∅ (s_with_success now) (r_sub j) (fin r k) (quiet_success now) G1) as [G6 _].
    specialize (Hpush (upd (r_sub j) (s_with_success now) k) (s_with_success now t) (mkSnapshot (s_revision (s_with_cancel None s)) items false) G6).
    rewrite subs_upd, lookup_alter_eq, Ht in Hpush. specialize (Hpush eq_refl T1 T2 T3 eq_refl Hitems G2 G3 G4).
    destruct (queueOnlineSnapshot _ _ _ q (upd (r_sub j) (s_with_success now) k)) as [full k']. exact Hpush.
Qed.
End Steps.
