(* ===== verification/PresenceThms.v ===== *)
(** * Theorems about the online subscriptions

    The invariant holds in every reachable state; the theorems about references, reads, wake-ups and snapshots follow from it. *)

From S2P Require Import Prelude Errcode Strconv Identity Store PgStore MemStore RateLimit UserSvc Heap Presence PresenceQueue PresenceInv PresenceCore PresenceSteps.

Local Open Scope Z_scope.

Section Thms.
Context `{RS : ReserveLib} `{RC : RangeClients}.
Implicit Types g h : Presence.

Lemma inv_good g : Inv g ↔ Good ∅ g ∧ (stopped (p g) = true → active (p g) = ∅).
Proof. split; [intros []; by split|intros [[] ?]; by split]. Qed.

Lemma init_good : Good ∅ newPresence.
Proof.
  split.
  - split; [split; [done|]|intros k Hk; simpl in Hk; lia]. intros sid s. simpl. by rewrite lookup_empty.
  - assert (erase newPresence = newPresence) as -> by (unfold erase, with_subs; simpl; by rewrite fmap_empty).
    split; simpl; intros; rewrite ?lookup_empty in *; simpl in *; try done.
    + split; [done|]. by intros [? _].
    + split; [set_solver|]. by intros (sid & s & E & _).
    + split; [constructor|]. intros r. split; [by intros ?%not_elem_of_nil|]. intros (j & E & _). by rewrite lookup_empty in E.
    + split; [constructor|]. by intros c t ?%not_elem_of_nil.
    + split; [constructor|]. by intros c sn l ?%not_elem_of_nil.
    + set_solver.
  - intros c sid Hc. simpl in Hc. by rewrite lookup_empty in Hc.
  - by intros armed w Hd.
Qed.

(** Going to sleep. *)
Lemma pass_rested g now wait :
  Good ∅ g → pass_end now wait g →
  Good ∅ (with_dispatcher (Parked (if 0 <? wait then Some (now + wait) else None) (why now wait g)) g).
Proof.
  intros Hg Hend. pose proof Hg as [Hq Hc Ha Hr]. split; [by apply (queue_ok_ext g)| |exact Ha|].
  - destruct Hc. by split.
  - intros armed w [= <- <-] Hwk Hcl Hst. simpl in Hwk, Hcl, Hst. unfold why. rewrite Hcl, Hst. simpl. unfold pass_end in Hend.
    destruct (due (p g)) as [|sid rest] eqn:E; [unfold queued; simpl; by rewrite E|]. destruct Hend as (s & Hs & Hcase). rewrite Hs.
    destruct (Z.ltb_spec 0 (Sub (s_readyAt s) now)) as [Hd|Hd].
    + destruct Hcase as [[_ ->]|[? _]]; [|lia]. destruct (Z.ltb_spec 0 (Sub (s_readyAt s) now)) as [_|]; [|lia]. eexists. split; [done|].
      intros x t [i Hi]%elem_queued Ht. change (due (p g) !! i = Some x) in Hi.
      assert (s_readyAt s ≤ s_readyAt t) as Hle.
      { simpl in Ht. rewrite lookup_fmap in Ht. destruct (subs g !! x) as [t'|] eqn:Et; [|done]. injection Ht as <-. simpl.
        pose proof (heap_min sub_key key_ltb g _ (proj2 Hq) i ltac:(by apply (lookup_lt_Some _ _ _ Hi))) as Hm. unfold le in Hm. rewrite !sub_key_skey, Hi, E in Hm. simpl in Hm.
        unfold skey in Hm. rewrite Hs, Et in Hm. apply key_ltb_false in Hm. simpl in Hm. lia. }
      unfold Sub, minInt64, maxInt64 in *. lia.
    + destruct Hcase as [[? _]|[_ [[Hr4 ->]|[Hr4 Hw]]]]; [lia| |].
      * rewrite Hr4, Z.eqb_refl. done.
      * destruct (Z.eqb_spec (reads (p g)) onlineRefreshWorkers); [done|]. destruct (Z.ltb_spec 0 wait); [eauto|done].
Qed.

Lemma awake_good X g d : Good X g → (∀ a w, d ≠ Parked a w) → Good X (with_dispatcher d g).
Proof.
  intros [Hq Hc Ha _] Hd. split; [by apply (queue_ok_ext g)|destruct Hc; by split|exact Ha|]. intros a w E. simpl in E. by destruct (Hd a w).
Qed.

Lemma stop_fold l : ∀ g,
  Good ∅ g → stopped (p g) = true → NoDup (l.*1) → (∀ c sid, (c, sid) ∈ l ↔ active (p g) !! c = Some sid) →
  Good ∅ (foldl stop_client g l) ∧ active (p (foldl stop_client g l)) = ∅.
Proof.
  induction l as [|[c sid] l IH]; intros g Hg Hst Hnd Hl; simpl.
  { split; [done|]. apply map_empty. intros c. destruct (active (p g) !! c) as [sid|] eqn:E; [|done]. apply Hl in E. by apply not_elem_of_nil in E. }
  apply NoDup_cons in Hnd as [Hc Hnd]. assert (active (p g) !! c = Some sid) as Hact by (apply Hl; left).
  assert (onlineSub g !! c = Some sid) as Ho by (by apply (c_active _ _ (g_core _ _ Hg)) in Hact as [? _]).
  destruct (drop_good ∅ g c sid Hg Ho (or_intror Hst)) as (H1 & H2 & _ & H3 & _). apply IH; [exact H1|by rewrite <- Hst|done|].
  intros c' x. change (active (p (stop_client g (c, sid)))) with (active (p (with_onlineSub (delete c (onlineSub (remove sid g))) (remove sid g)))). rewrite H2, lookup_delete_Some, <- Hl. split.
  - intros Hin. split; [|by right]. intros <-. apply Hc. apply list_elem_of_fmap. by exists (c, x).
  - intros [Hne [[= ? ?]|?]%elem_of_cons]; [congruence|done].
Qed.

Lemma stop_good g : Good ∅ g → Good ∅ (stop_all g) ∧ active (p (stop_all g)) = ∅.
Proof.
  intros Hg. unfold stop_all. set (g1 := with_p (p_stop (p g)) g).
  assert (Good ∅ g1) as H1.
  { destruct Hg as [Hq Hc Ha Hr]. split; [by apply (queue_ok_ext g)|exact (core_stop _ _ Hc)|exact Ha|]. intros a w _ _ _ Hst. done. }
  destruct (stop_fold (range_active (active (p g1))) g1 H1 eq_refl) as [H2 H3].
  - rewrite range_active_perm. apply NoDup_fst_map_to_list.
  - intros c sid. by rewrite range_active_perm, elem_of_map_to_list.
  - split; [by apply awake_good|exact H3].
Qed.

Lemma inv_step e g g' : Inv g → step e g = Some g' → Inv g'.
Proof.
  rewrite !inv_good. intros [Hg Hst]. pose proof Hg as [Hq Hc Ha Hr]. destruct e; cbn [step].
  - intros [= <-]. destruct (set_good enabled c in_ now g Hg) as (H1 & _ & H3 & H4). split; [done|]. rewrite H3. intros Hs. rewrite H4 by done. auto.
  - intros [= <-]. split; [|exact Hst]. split; [by apply (queue_ok_ext g)|apply (core_flags _ _ _ _ Hc); set_solver| |exact Hr].
    intros c' x Hx Hn. simpl in Hn. apply (Ha c' x Hx). set_solver.
  - case_bool_decide as Hend; [|done]. intros [= <-]. unfold removeOnlineSubscriptions. destruct (onlineSub g !! c) as [sid|] eqn:Ho; [|done].
    destruct (drop_good ∅ g c sid Hg Ho (or_introl Hend)) as (H1 & H2 & _ & H3 & _). split; [exact H1|]. cbv zeta. rewrite H2, H3. intros Hs. by rewrite Hst, delete_empty.
  - intros [= <-]. destruct (markOnlineChanged_good ids now g Hg) as [H1 (K1 & _ & K3 & _)]. split; [done|]. by rewrite K1, K3.
  - intros [= <-]. split; [|exact Hst]. split; [by apply (queue_ok_ext g)|by apply (core_flags _ _ _ _ Hc)| |]; [intros c x Hx Hn Hcl; done|intros a w _ _ Hcl; done].
  - destruct (dispatcher g) eqn:Hd; try done. unfold dispatch_pass, dispatchOnline. destruct (closing g || stopped (p g)) eqn:Hcl.
    + intros [= <-]. split; [|exact Hst]. split; [by apply (queue_ok_ext g)|destruct Hc; by split|exact Ha|]. intros a w E _ H1 H2. simpl in H1, H2. by rewrite H1, H2 in Hcl.
    + destruct (dispatch_good now (length (due (p g))) g Hg Hd (le_n _)) as (wait & h & -> & H1 & H2 & H3 & H4 & H5 & H6). intros [= <-].
      split; [by apply pass_rested|]. change (stopped (p h) = true → active (p h) = ∅). by rewrite H4, H5.
  - destruct (dispatcher g); try done. destruct (wake (p g)); [|done]. intros [= <-]. split; [|exact Hst]. split; [by apply (queue_ok_ext g)|destruct Hc; by split|exact Ha|done].
  - destruct (dispatcher g) as [|[t|] w|]; try done. intros [= <-]. split; [by apply awake_good|exact Hst].
  - destruct (dispatcher g); try done. intros [= <-]. destruct (stop_good g Hg) as [H1 H2]. done.
  - destruct (jobs (p g)) as [|r rest] eqn:Hj; [done|]. destruct (inflight g !! r) as [j|] eqn:Hr'; [|done]. intros [= <-]. split; [|exact Hst].
    split; [by apply (queue_ok_ext g)|exact (core_take (erase g) (queued g) r rest j Hc Hj Hr')|exact Ha|exact Hr].
  - destruct (inflight g !! r) as [j|] eqn:Hj; [|done]. destruct (r_phase j) eqn:Hph; try done. intros [= <-]. split; [|unfold readOnline; by rewrite Hj].
    unfold readOnline. rewrite Hj. split; [by apply (queue_ok_ext g)| |exact Ha|exact Hr].
    change (erase (with_inflight ?m g)) with (with_inflight m (erase g)). apply (core_inflight (erase g) (queued g)); [simpl; by rewrite map_size_insert_Some| |exact Hc]. intros r'. simpl. destruct (decide (r' = r)) as [->|].
    + rewrite lookup_insert_eq, Hj. constructor. unfold like. simpl. rewrite Hph. split_and!; try done. intros items. destruct (ctx_done j g); [done|].
      destruct online as [m|]; [|done]. intros [= <-]. right. unfold statusItems. rewrite map_map. apply map_id.
    + rewrite lookup_insert_ne by done. destruct (inflight g !! r') as [j'|]; constructor. unfold like. split_and!; auto.
  - destruct (inflight g !! r) as [j|] eqn:Hj; [|done]. destruct (r_phase j) eqn:Hph; try done. intros [= <-].
    destruct (finish_good r now q g Hg Hst) as (H1 & _ & H3 & H4). split; [done|]. by rewrite H3, H4.
Qed.

Lemma reachable_inv g : preachable g → Inv g.
Proof. induction 1 as [|g e g' _ IH Hs]; [apply inv_good; split; [apply init_good|done]|by apply (inv_step e g)]. Qed.

(** ** Out of [erase] *)

Lemma refs_sum_erase g : refs_sum (active (p g)) (subs (erase g)) = refs_sum (active (p g)) (subs g).
Proof. apply refs_sum_ext. intros c sid _. unfold idlen. rewrite subs_erase. by destruct (subs g !! sid). Qed.

Lemma erase_ex g sid (P : onlineSubscription → Prop) :
  (∀ s, P (s_with_index 0 s) ↔ P s) → (∃ s, subs (erase g) !! sid = Some s ∧ P s) ↔ ∃ s, subs g !! sid = Some s ∧ P s.
Proof.
  intros HP. rewrite subs_erase. split; intros (s & Hs & H).
  - destruct (subs g !! sid) as [t|]; [|done]. injection Hs as <-. exists t. by rewrite <- HP.
  - rewrite Hs. exists (s_with_index 0 s). by rewrite HP.
Qed.
End Thms.

(** ** The claims *)

Section Claims.
Context `{RS : ReserveLib} `{RC : RangeClients}.

(** In every reachable state of a node's online subscriptions, whatever requests, kicks, presence events, reads and shutdown
    interleave: the counter of references is exactly the number of users all active subscriptions watch, and at most 100000; the
    index by user lists exactly the connections watching a user, with no empty entry left behind; and a connection watches at most
    100 users, each once and with a valid id. *)
Lemma subscriptions_accounted (g : Presence) :
  preachable g →
  refs (p g) = refs_sum (active (p g)) (subs g) ∧ refs (p g) ≤ maxOnlineSubscriptionRefs ∧
  (∀ id, byUser (p g) !! id ≠ Some ∅) ∧
  (∀ id c, c ∈ (default ∅ (byUser (p g) !! id) : gset nat) ↔ ∃ sid s, active (p g) !! c = Some sid ∧ subs g !! sid = Some s ∧ id ∈ s_userIds s) ∧
  (∀ c sid, active (p g) !! c = Some sid → ∃ s, subs g !! sid = Some s ∧ s_client s = c ∧ s_userIds s ≠ [] ∧ NoDup (s_userIds s) ∧
     Z.of_nat (length (s_userIds s)) ≤ maxOnlineSubscriptions ∧ Forall (λ id, Valid id = true) (s_userIds s)).
Proof.
  intros [Hq Hc _ _ _]%reachable_inv. destruct (c_refs _ _ Hc) as [H1 H2]. split_and!; [exact (eq_trans H1 (refs_sum_erase g))|exact H2|exact (c_nonempty _ _ Hc)| |].
  - intros id c. rewrite (c_byUser _ _ Hc id c). split; intros (sid & s & Ha & Hs & Hi).
    + destruct (proj1 (erase_ex g sid (λ s, id ∈ s_userIds s) ltac:(done))) as (t & Ht & Hi'); [eauto|]. eauto.
    + destruct (proj2 (erase_ex g sid (λ s, id ∈ s_userIds s) ltac:(done))) as (t & Ht & Hi'); [eauto|]. eauto.
  - intros c sid Ha. pose proof Ha as Ha'. apply (c_active _ _ Hc) in Ha' as [Ho (s & Hs & Hu)]. destruct (c_own _ _ Hc _ _ Ho) as (s' & Hs' & Ec). rewrite Hs in Hs'. injection Hs' as <-.
    destruct (c_ids _ _ Hc sid s Hs) as (I1 & I2 & I3 & _). rewrite subs_erase in Hs. destruct (subs g !! sid) as [t|]; [|done]. injection Hs as <-. eauto 10.
Qed.

(** In every reachable state at most 4 status reads of the node are in flight and at most one of them belongs to any one
    connection, even when it cancels and subscribes again; and two reads started for one connection are at least a second apart,
    whatever the clock does. *)
Lemma presence_reads_bounded (g : Presence) :
  preachable g →
  Z.of_nat (size (inflight g)) ≤ onlineRefreshWorkers ∧ reads (p g) = Z.of_nat (size (inflight g)) ∧
  (∀ r r' j j' s s', inflight g !! r = Some j → inflight g !! r' = Some j' → subs g !! r_sub j = Some s → subs g !! r_sub j' = Some s' →
     s_client s = s_client s' → r = r') ∧
  StronglySorted (λ x y, x.1 = y.1 → y.2 + onlineRefreshMinInterval ≤ x.2) (started g).
Proof.
  intros [Hq Hc _ _ _]%reachable_inv. destruct (c_reads _ _ Hc) as [H1 H2]. simpl in H1, H2. split_and!; [lia|done| |apply (c_started _ _ Hc)].
  intros r r' j j' s s' Hj Hj' Hs Hs' E. apply subs_erase_Some in Hs, Hs'. pose proof (c_client _ _ Hc _ _ _ _ Hs Hs' E) as Er.
  destruct (c_read _ _ Hc r j Hj) as (t & Ht & Hct & _). destruct (c_read _ _ Hc r' j' Hj') as (t' & Ht' & Hct' & _). rewrite Er in Ht. congruence.
Qed.

(** C28: No subscription is forgotten: in every reachable state each active subscription of a connection that is not closing, on a
    node that is not shutting down, is in the refresh queue or has its read in flight. And the refresh queue never loses its order:
    its head is due first, and every entry's recorded position is its place in the queue. *)
Theorem presence_never_forgotten (g : Presence) :
  preachable g →
  (∀ c sid, active (p g) !! c = Some sid → c ∉ ended g → closing g = false →
     sid ∈ due (p g) ∨ ∃ r j, inflight g !! r = Some j ∧ r_sub j = sid) ∧
  (∀ i sid, due (p g) !! i = Some sid → ∃ s, subs g !! sid = Some s ∧ s_index s = Z.of_nat i ∧ ∀ sid0 s0, due (p g) !! 0%nat = Some sid0 →
     subs g !! sid0 = Some s0 → s_readyAt s0 ≤ s_readyAt s).
Proof.
  intros [Hq Hc Ha _ _]%reachable_inv. split.
  - intros c sid Hx Hn Hcl. destruct (Ha c sid Hx Hn Hcl) as [H|(s & Hs & Hcs)]; [set_solver|left; unfold queued in H; by apply elem_of_list_to_set in H|right].
    destruct (s_cancel s) as [r|] eqn:E; [|done]. destruct (c_cancel _ _ Hc sid s r Hs E) as (j & Hj & Ej). eauto.
  - intros i sid Hi. destruct (q_pos g (proj1 Hq) i sid Hi) as (s & Hs & Hx). exists s. split_and!; [done|done|]. intros sid0 s0 H0 Hs0.
    pose proof (heap_min sub_key key_ltb g _ (proj2 Hq) i (lookup_lt_Some _ _ _ Hi)) as Hm. unfold le in Hm. rewrite !sub_key_skey, Hi, H0 in Hm. unfold skey in Hm. rewrite Hs, Hs0 in Hm.
    apply key_ltb_false in Hm. simpl in Hm. lia.
Qed.


Lemma dispatch_fuel now fuel : ∀ g : Presence, Good ∅ g → dispatcher g = Awake → (length (due (p g)) ≤ fuel)%nat →
  dispatch_loop fuel now g = dispatch_loop (length (due (p g))) now g.
Proof.
  induction fuel as [|fuel IH]; intros g Hg Hd Hl; [by replace (length (due (p g))) with 0%nat by lia|].
  destruct (due (p g)) as [|sid rest] eqn:E; [by simpl; rewrite E|]. cbn [length dispatch_loop]. rewrite E.
  pose proof Hg as [Hq Hc _ _]. destruct (q_pos g (proj1 Hq) 0 sid) as (s & Hs & _); [by rewrite E|]. rewrite Hs.
  destruct (Z.ltb_spec 0 (Sub (s_readyAt s) now)) as [|Hw]; [done|]. destruct (Z.eqb_spec (reads (p g)) onlineRefreshWorkers) as [|H4]; [done|].
  destruct (ReserveN _ _ _) as [r f]. destruct (negb (OK r)); [done|]. destruct (0 <? DelayFrom r now); [done|]. destruct (onlineRefreshWorkers <=? _); [done|].
  pose proof (proj2 (c_reads _ _ Hc)) as Hr4. simpl in Hr4.
  destruct (start_good g sid rest s now f Hg Hd E Hs) as (H1 & H2 & H3 & _); [unfold Sub, minInt64, maxInt64 in Hw; lia|lia|]. simpl in Hl. rewrite IH by (done || lia). by rewrite H3.
Qed.

(** C30: A pass of the dispatcher terminates and never blocks on the channel of the workers while it holds the lock: from every
    reachable state it returns, after at most as many turns as the queue has entries (more turns would change nothing), and it leaves
    the queue empty, or its head not yet due with exactly the time that is left as the time to sleep, or all four slots in use, or
    held back by the frame limiter with the limiter's delay as the time to sleep. *)
Theorem dispatch_terminates (g : Presence) (now : Z) :
  preachable g → dispatcher g = Awake → closing g = false → stopped (p g) = false →
  ∃ wait h, dispatchOnline now g = (Some wait, h) ∧ pass_end now wait h ∧
    ∀ fuel, (length (due (p g)) ≤ fuel)%nat → dispatch_loop fuel now g = (Some wait, h).
Proof.
  intros [Hg _]%reachable_inv%inv_good Hd Hcl Hst. destruct (dispatch_good now (length (due (p g))) g Hg Hd (le_n _)) as (wait & h & E & _ & _ & _ & _ & _ & Hend).
  exists wait, h. unfold dispatchOnline. rewrite Hcl, Hst. split_and!; [done|done|]. intros fuel Hf. by rewrite dispatch_fuel.
Qed.

(** C31: Snapshots are current: along everything a node pushes to one connection the revisions never go back; no snapshot is ahead of
    the connection's own revision, one that carries the current revision is of the current set of users, and a snapshot that is not
    marked stale reports, in order, on exactly the users of the set it was read for. *)
Theorem snapshots_current (g : Presence) :
  preachable g →
  StronglySorted (λ x y, x.1.1 = y.1.1 → Snap_Revision y.1.2 ≤ Snap_Revision x.1.2) (sent g) ∧
  ∀ c snap ids, (c, snap, ids) ∈ sent g →
    (Snap_Stale snap = false → map OS_UserId (Snap_Items snap) = ids) ∧
    ∃ sid s, subs g !! sid = Some s ∧ s_client s = c ∧ Snap_Revision snap ≤ s_revision s ∧ (Snap_Revision snap = s_revision s → ids = s_userIds s).
Proof.
  intros [Hq Hc _ _ _]%reachable_inv. destruct (c_sent _ _ Hc) as [H1 H2]. split; [exact H1|]. intros c snap ids Hin.
  split; [exact (c_shown _ _ Hc c snap ids Hin)|]. destruct (H2 c snap ids Hin) as (sid & s & Hs & Ec & Hle & He). exists sid.
  rewrite subs_erase in Hs. destruct (subs g !! sid) as [t|]; [|done]. injection Hs as <-. exists t. done.
Qed.
End Claims.

(** ** A run *)

Section Run.
Context `{RS : ReserveLib} `{RC : RangeClients}.

Fixpoint run (es : list Event) (g : Presence) : option Presence :=
  match es with
  | [] => Some g
  | e :: es' => match step e g with Some g' => run es' g' | None => None end
  end.

Lemma events_reachable es : ∀ g g', preachable g → run es g = Some g' → preachable g'.
Proof.
  induction es as [|e es IH]; intros g g' Hg; simpl; [by intros [= <-]|]. destruct (step e g) as [g1|] eqn:E; [|done]. apply IH. by apply (pr_step g e).
Qed.
End Run.

(** A bucket of tokens that is never refilled. *)
#[local] Instance tokens : ReserveLib := {|
  Bucket := Z; Reservation := bool; NewBucket := λ _ b, b; ReserveN := λ b _ n, if n <=? b then (true, b - n) else (false, b);
  OK := λ _, true; DelayFrom := λ r _, if r then 0 else Second; CancelAt := λ r _ b, b |}.

#[local] Instance in_order : RangeClients := {|
  range_clients := elements; range_clients_perm := λ cs, Permutation_refl (elements cs);
  range_active := map_to_list; range_active_perm := λ m, Permutation_refl (map_to_list m) |}.

(** Two connections subscribe; the first one's read is answered and pushed, a change of one of its users queues it again, the second
    replaces its set while its read is in flight. *)
Definition watching : list Event :=
  [ESet true 1 (mkSubReq 1 ["u___12"; "u___7"; "u___12"]) 0; ESet true 2 (mkSubReq 5 ["u___7"]) 10;
   EPass (20 * Second); ETake; ETake; ERead 0 (Ok {["u___7"%string := [1; 2]]}); EFinish 0 (21 * Second) QAccepted;
   EMark ["u___12"] (22 * Second); ESet true 2 (mkSubReq 6 ["u___8"; "u___9"]) (23 * Second)].
Definition watched : Presence := default newPresence (run watching newPresence).

Definition woken : Presence := default newPresence (run (watching ++ [EWake]) newPresence).

Definition resting : Presence := default newPresence (run (watching ++ [EWake; EPass (21 * Second)]) newPresence).

Lemma watched_reachable : preachable watched.
Proof. apply (events_reachable watching newPresence); [constructor|vm_compute; reflexivity]. Qed.

Lemma woken_reachable : preachable woken.
Proof. apply (events_reachable (watching ++ [EWake]) newPresence); [constructor|vm_compute; reflexivity]. Qed.

Lemma resting_reachable : preachable resting.
Proof. apply (events_reachable (watching ++ [EWake; EPass (21 * Second)]) newPresence); [constructor|vm_compute; reflexivity]. Qed.

(** Four references: two users watched by each connection. *)
Lemma subscriptions_accounted_witness :
  refs (p watched) = 4 ∧ refs_sum (active (p watched)) (subs watched) = 4 ∧ (1%nat ∈ (default ∅ (byUser (p watched) !! "u___7"%string) : gset nat)).
Proof.
  destruct (subscriptions_accounted watched watched_reachable) as (H1 & _ & _ & H4 & _). split_and!; [vm_compute; reflexivity| |].
  - rewrite <- H1. vm_compute. reflexivity.
  - apply H4. exists 0%nat. eexists. split_and!; [vm_compute; reflexivity|vm_compute; reflexivity|]. right. left.
Defined.

Lemma presence_reads_bounded_witness : Z.of_nat (size (inflight watched)) = 1 ∧ Z.of_nat (size (inflight watched)) ≤ onlineRefreshWorkers.
Proof. split; [vm_compute; reflexivity|]. apply (presence_reads_bounded watched watched_reachable). Defined.

(** The second connection's new set waits for its old read. *)
Lemma presence_never_forgotten_witness :
  1%nat ∉ due (p watched) ∧ (1%nat ∈ due (p watched) ∨ ∃ r j, inflight watched !! r = Some j ∧ r_sub j = 1%nat).
Proof.
  split; [apply (bool_decide_unpack _); vm_compute; exact I|].
  apply (proj1 (presence_never_forgotten watched watched_reachable) 2%nat); [vm_compute; reflexivity|apply (bool_decide_unpack _); vm_compute; exact I|vm_compute; reflexivity].
Defined.


Lemma dispatch_terminates_witness : ∃ wait h, dispatchOnline (30 * Second) woken = (Some wait, h) ∧ pass_end (30 * Second) wait h.
Proof.
  destruct (dispatch_terminates woken (30 * Second) woken_reachable) as (wait & h & H1 & H2 & _); [vm_compute; reflexivity..|]. exists wait, h. exact (conj H1 H2).
Defined.

(** The snapshot pushed lists the two users asked for. *)
Lemma snapshots_current_witness :
  ∃ snap, (1%nat, snap, ["u___12"; "u___7"]%string) ∈ sent watched ∧ map OS_UserId (Snap_Items snap) = ["u___12"; "u___7"]%string.
Proof.
  eexists (mkSnapshot 1 _ false). split; [vm_compute; left|]. exact (proj1 (proj2 (snapshots_current watched watched_reachable) 1%nat _ _ ltac:(vm_compute; left)) eq_refl).
Defined.
