(* ===== verification/PresenceEvents.v ===== *)
(** * Presence events ([internal/gateway/presence_events.go])

    [publishOnlineChanged] marks the local subscriptions and cuts the users into bus events of at most 100 ids, measured against the
    bus limit. The theorem: with ids this server issues and a node id that leaves a chunk its room, every chunk fits. *)

From S2P Require Import Prelude Errcode Strconv Identity Json Store PgStore MemStore Conc RateLimit MemberCache World UserSvc Heap Presence PresenceSteps PresenceThms.

Local Open Scope Z_scope.

Definition maxUserIdJsonBytes : Z := 4 + 36 + 3.

Definition presenceChunkSize : nat := 100.

Definition presenceChunkJsonBytes : Z := Z.of_nat presenceChunkSize * maxUserIdJsonBytes + 15.

Definition presenceEnvelopeBudget : Z := MaxPayloadBytes - presenceChunkJsonBytes.

(** [json.Marshal] of [PresenceChanged] and of an event around a payload. *)
Fixpoint write_items (qs : list string) : string :=
  match qs with
  | [] => ""
  | [q] => q
  | q :: qs' => q +:+ "," +:+ write_items qs'
  end.

Definition marshal_ids (ids : list string) : option string :=
  fields [match mapM quote ids with Some qs => Some [("user_ids"%string, "[" +:+ write_items qs +:+ "]")] | None => None end].

Definition marshal_event (nodeId payload : string) : option string :=
  fields [field_string "type" "presence_changed"; field_string "node_id" nodeId; Some [("payload"%string, payload)]].

(** A chunk handed to the bus once, or counted as failed. *)
Inductive Attempt := APublish (ids : list string) (payload : string) | AFail.

Definition chunk_attempt (baseSize : Z) (chunk : list string) : Attempt :=
  match marshal_ids chunk with
  | Some payload => if MaxPayloadBytes <? baseSize + len payload then AFail else APublish chunk payload
  | None => AFail
  end.

Definition presence_attempts (nodeId : string) (ids : list string) : list Attempt :=
  match marshal_ids [] with
  | None => [AFail]
  | Some empty =>
      match marshal_event nodeId empty with
      | None => [AFail]
      | Some envelope =>
          let baseSize := len envelope - len empty in
          if presenceEnvelopeBudget <? baseSize then [AFail] else map (chunk_attempt baseSize) (Chunk presenceChunkSize ids)
      end
  end.

Section Publish.
Context `{RS : ReserveLib} `{RC : RangeClients}.

Definition publishOnlineChanged (hasBus : bool) (nodeId : string) (userIds : list string) (now : Z) (g : Presence) : list Attempt * Presence :=
  if (length userIds =? 0)%nat then ([], g)
  else
    let ids := Compact (Sort userIds) in
    let g := markOnlineChanged ids now g in
    if negb hasBus then ([], g) else (presence_attempts nodeId ids, g).
End Publish.

(** ** Sizes *)

Lemma len_app a b : len (a +:+ b) = len a + len b.
Proof. unfold len. rewrite string_app_length. lia. Qed.

Lemma len_of_list l : len (of_list l) = Z.of_nat (length l).
Proof. unfold len. induction l as [|c l IH]; [done|]. simpl. lia. Qed.

Lemma length_to_list s : length (to_list s) = String.length s.
Proof. induction s as [|c s IH]; simpl; [done|]. by rewrite IH. Qed.

(** Characters that JSON writes as they are. *)
Definition plain (c : ascii) : Prop := 32 ≤ byte_Z c ≤ 126 ∧ byte_Z c ≠ 34 ∧ byte_Z c ≠ 92.

Lemma escape_plain c : plain c → escape c = [c].
Proof.
  intros (H1 & H2 & H3). unfold escape. repeat match goal with |- context [?a =? ?b] => destruct (Z.eqb_spec a b); [lia|] end.
  by destruct (Z.ltb_spec (byte_Z c) 32); [lia|].
Qed.

Lemma utf8_plain l fuel : Forall (λ b, b ≤ 127) l → (length l ≤ fuel)%nat → utf8_fuel fuel l = true.
Proof.
  revert fuel. induction l as [|b l IH]; intros fuel Hl Hf; [by destruct fuel|]. apply Forall_cons in Hl as [Hb Hl]. destruct fuel as [|fuel]; [simpl in Hf; lia|].
  simpl. destruct (Z.leb_spec b 127); [|lia]. rewrite drop_0. apply IH; [done|simpl in Hf; lia].
Qed.

Lemma quote_plain s : Forall plain (to_list s) → ∃ q, quote s = Some q ∧ len q = len s + 2.
Proof.
  intros Hs. unfold quote. assert (ValidUtf8 s = true) as ->.
  { unfold ValidUtf8. apply utf8_plain; [|done]. unfold string_bytes. apply Forall_fmap. apply (Forall_impl _ _ _ Hs). unfold plain. simpl. lia. }
  eexists. split; [done|]. rewrite len_of_list. simpl. rewrite length_app. simpl.
  assert (flat_map escape (to_list s) = to_list s) as ->; [|rewrite length_to_list; unfold len; lia].
  induction Hs as [|c l Hc _ IH]; simpl; [done|]. by rewrite escape_plain, IH.
Qed.

Lemma digit_plain d : 0 ≤ d < 10 → plain (digit_char d).
Proof. intros Hd. unfold plain, digit_char. rewrite byte_Z_byte by lia. lia. Qed.

Lemma format_digits_plain fuel : ∀ n acc, 0 ≤ n → Forall plain acc → Forall plain (format_digits fuel n acc) ∧ (length (format_digits fuel n acc) ≤ fuel + length acc)%nat.
Proof.
  induction fuel as [|fuel IH]; intros n acc Hn Ha; cbn [format_digits]; [done|].
  assert (0 ≤ n mod 10 < 10) as Hm by (apply Z.mod_pos_bound; lia).
  assert (Forall plain (digit_char (n mod 10) :: acc)) as Ha' by (constructor; [by apply digit_plain|done]).
  destruct (n <? 10); [split; [done|simpl; lia]|]. destruct (IH (n / 10) _ (Z.div_pos n 10 Hn ltac:(lia)) Ha') as [H1 H2]. split; [done|simpl in H2; lia].
Qed.

Lemma hex_plain c : lower_hex c = true → plain c.
Proof. unfold lower_hex, plain. intros H. apply orb_true_iff in H as [H|H]; apply andb_true_iff in H as [H1%Z.leb_le H2%Z.leb_le]; lia. Qed.

Lemma uuid_plain s : uuid_canonical s = true → Forall plain (to_list s) ∧ length (to_list s) = 36%nat.
Proof.
  unfold uuid_canonical. intros [Hl%Nat.eqb_eq Hf]%andb_true_iff. split; [|done]. rewrite forallb_forall in Hf. apply Forall_lookup. intros i c Hc.
  assert (In (i, c) (combine (seq 0 36) (to_list s))) as Hin.
  { apply list_elem_of_In, list_elem_of_lookup. exists i. apply lookup_zip_with_Some. exists i, c. split_and!; [done| |done].
    apply lookup_seq. pose proof (lookup_lt_Some _ _ _ Hc). lia. }
  specialize (Hf _ Hin). simpl in Hf. destruct (bool_decide (i ∈ [8; 13; 18; 23]%nat)); [|by apply hex_plain]. apply bool_decide_eq_true in Hf as ->. unfold plain. by vm_compute.
Qed.

Lemma to_list_app a b : to_list (a +:+ b) = to_list a ++ to_list b.
Proof. induction a as [|c a IH]; simpl; [done|]. by rewrite IH. Qed.

Definition plainb (c : ascii) : bool := let b := byte_Z c in (32 <=? b) && (b <=? 126) && negb (b =? 34) && negb (b =? 92).

Lemma plainb_spec l : forallb plainb l = true → Forall plain l.
Proof.
  intros H. apply Forall_forall. intros c Hc. rewrite forallb_forall in H. apply list_elem_of_In, H in Hc. unfold plainb in Hc. unfold plain.
  rewrite !andb_true_iff, !negb_true_iff, !Z.leb_le, !Z.eqb_neq in Hc. lia.
Qed.

(** Ids this server issues are at most 40 plain characters. *)
Lemma Valid_plain id : Valid id = true → Forall plain (to_list id) ∧ len id ≤ 40.
Proof.
  unfold Valid. destruct (Nat.leb_spec (String.length id) PrefixLength) as [|Hl]; [done|]. destruct (ContainsRune id ":"%char); [done|]. simpl.
  assert (∀ pre n, pre = PrefixUser ∨ pre = PrefixAgent → 0 < n ≤ maxInt64 → id = pre +:+ FormatInt n → Forall plain (to_list id) ∧ len id ≤ 40) as Hact.
  { intros pre n Hpre Hn ->. unfold FormatInt. destruct (Z.ltb_spec n 0); [lia|]. destruct (format_digits_plain 20 n [] ltac:(lia) ltac:(constructor)) as [H1 H2].
    rewrite to_list_app, to_of_list, len_app, len_of_list. split.
    - apply Forall_app. split; [|done]. destruct Hpre as [->| ->]; apply plainb_spec; vm_compute; reflexivity.
    - assert (len pre = 4) by (by destruct Hpre as [->| ->]). change (length (@nil ascii)) with 0%nat in H2. lia. }
  destruct (_ || _) eqn:E1.
  - destruct (ParseActor id) as [a|] eqn:E; [|done]. intros _. apply ParseActor_inv in E as [Hn [[_ Hs]|[_ Hs]]]; [apply (Hact PrefixUser (Actor_Id a))|apply (Hact PrefixAgent (Actor_Id a))]; auto.
  - destruct (String.eqb_spec (slice_to id PrefixLength) PrefixNative) as [E|]; [|done]. intros Hu. destruct (uuid_plain _ Hu) as [H1 H2].
    rewrite <- (slice_split id PrefixLength) by lia. rewrite E, to_list_app, len_app. split.
    + apply Forall_app. split; [|done]. apply plainb_spec. vm_compute. reflexivity.
    + rewrite length_to_list in H2. unfold len at 2. rewrite H2. done.
Qed.

Lemma write_items_len qs : Forall (λ q, len q ≤ 42) qs → len (write_items qs) ≤ Z.of_nat (length qs) * 43.
Proof.
  induction 1 as [|q qs Hq _ IH]; [done|]. destruct qs as [|q' qs]; [cbn [write_items length]; lia|].
  change (write_items (q :: q' :: qs)) with (q +:+ ("," +:+ write_items (q' :: qs))). rewrite !len_app. change (len ",") with 1.
  change (length (q :: q' :: qs)) with (S (length (q' :: qs))). lia.
Qed.

Lemma quotes_plain ids : Forall (λ id, Valid id = true) ids → ∃ qs, mapM quote ids = Some qs ∧ length qs = length ids ∧ Forall (λ q, len q ≤ 42) qs.
Proof.
  induction 1 as [|id ids Hid _ (qs & E & Hl & Hq)]; [by exists []|]. destruct (Valid_plain id Hid) as [Hp Hlen]. destruct (quote_plain id Hp) as (q & Eq & Hql).
  exists (q :: qs). simpl. rewrite Eq, E. simpl. split_and!; [done|lia|]. constructor; [lia|done].
Qed.

Lemma marshal_ids_len ids : Forall (λ id, Valid id = true) ids → ∃ payload, marshal_ids ids = Some payload ∧ len payload ≤ Z.of_nat (length ids) * 43 + 15.
Proof.
  intros (qs & E & Hl & Hq)%quotes_plain. unfold marshal_ids. rewrite E. eexists. split; [reflexivity|]. pose proof (write_items_len qs Hq) as Hw. rewrite Hl in Hw.
  cbn [concat app write_object write_members]. unfold write_object. cbn [write_members]. unfold write_member. simpl fst. simpl snd. rewrite !len_app.
  change (len (of_list (dquote :: to_list "user_ids" ++ [dquote]))) with 10. change (len "{") with 1. change (len "}") with 1. change (len ":") with 1. change (len "[") with 1. change (len "]") with 1. lia.
Qed.

(** An event is its envelope around the payload. *)
Lemma marshal_event_len nodeId payload payload' ev :
  marshal_event nodeId payload = Some ev → ∃ ev', marshal_event nodeId payload' = Some ev' ∧ len ev' = len ev - len payload + len payload'.
Proof.
  unfold marshal_event, field_string. destruct (quote nodeId) as [q|] eqn:E; [|by destruct (quote _)]. intros [= <-]. eexists. split; [reflexivity|].
  unfold write_object. cbn [write_members concat app]. unfold write_member. simpl fst. simpl snd. rewrite !len_app. lia.
Qed.

Lemma chunk_attempt_ok baseSize chunk :
  Forall (λ id, Valid id = true) chunk → (length chunk ≤ presenceChunkSize)%nat → baseSize ≤ presenceEnvelopeBudget →
  ∃ payload, chunk_attempt baseSize chunk = APublish chunk payload ∧ marshal_ids chunk = Some payload ∧ baseSize + len payload ≤ MaxPayloadBytes.
Proof.
  intros Hv Hl Hb. destruct (marshal_ids_len chunk Hv) as (payload & E & Hp). exists payload. unfold chunk_attempt. rewrite E.
  unfold presenceEnvelopeBudget, presenceChunkJsonBytes, presenceChunkSize, maxUserIdJsonBytes, MaxPayloadBytes in *.
  assert (baseSize + len payload ≤ 7500) as H by lia. destruct (Z.ltb_spec 7500 (baseSize + len payload)); [lia|done].
Qed.

Lemma Chunk_nonempty {A} n (l : list A) c : c ∈ Chunk n l → (n ≠ 0)%nat → (0 < length c)%nat.
Proof.
  unfold Chunk. generalize (length l) as fuel. intros fuel Hc Hn. revert l Hc. induction fuel as [|f IH]; intros l; simpl; [set_solver|].
  destruct l as [|x l]; [set_solver|]. rewrite elem_of_cons. intros [->|H]; [|by eapply IH]. destruct n; [done|]. simpl. lia.
Qed.

(** The ids of the events handed to the bus. *)
Definition attempt_ids (a : Attempt) : list string := match a with APublish ids _ => ids | AFail => [] end.

Section Events.
Context `{RS : ReserveLib} `{RC : RangeClients}.

(** Presence events fit the bus: when the ids are ones the server issues and the node's name leaves a full chunk its room, no
    event of [publishOnlineChanged] is refused: each is at most 7500 bytes of JSON around and including its payload, names between 1
    and 100 users, and the events together name every changed user exactly once, whatever duplicates were reported. *)
Lemma presence_events_fit (nodeId empty envelope : string) (userIds : list string) (now : Z) (g : Presence) :
  Forall (λ id, Valid id = true) userIds →
  marshal_ids [] = Some empty → marshal_event nodeId empty = Some envelope → len envelope - len empty ≤ presenceEnvelopeBudget →
  let attempts := (publishOnlineChanged true nodeId userIds now g).1 in
  (∀ a, a ∈ attempts → ∃ ids payload event, a = APublish ids payload ∧ marshal_ids ids = Some payload ∧ marshal_event nodeId payload = Some event ∧
     len event ≤ MaxPayloadBytes ∧ (0 < length ids ≤ presenceChunkSize)%nat) ∧
  NoDup (concat (map attempt_ids attempts)) ∧ ∀ id, id ∈ concat (map attempt_ids attempts) ↔ id ∈ userIds.
Proof.
  intros Hv Ee Hev Hb. unfold publishOnlineChanged. destruct (Nat.eqb_spec (length userIds) 0) as [E0|E0].
  { apply length_zero_iff_nil in E0 as ->. split_and!; [set_solver|constructor|done]. }
  destruct (Compact_Sort_ok userIds) as (Hnd & _ & Hel). set (ids := Compact (Sort userIds)) in *. cbn [fst negb].
  assert (Forall (λ id, Valid id = true) ids) as Hvi by (apply Forall_forall; intros id Hid%Hel; rewrite Forall_forall in Hv; by apply Hv).
  unfold presence_attempts. rewrite Ee, Hev. cbv zeta. destruct (Z.ltb_spec presenceEnvelopeBudget (len envelope - len empty)) as [|_]; [lia|].
  set (base := len envelope - len empty) in *.
  assert (∀ chunk, chunk ∈ Chunk presenceChunkSize ids → ∃ payload, chunk_attempt base chunk = APublish chunk payload ∧ marshal_ids chunk = Some payload ∧ base + len payload ≤ MaxPayloadBytes) as Hch.
  { intros chunk Hc. apply chunk_attempt_ok; [|by apply (Chunk_length _ _ _ Hc)|done]. apply Forall_forall. intros id Hid. rewrite Forall_forall in Hvi. apply Hvi.
    rewrite <- (concat_Chunk presenceChunkSize ids) by (unfold presenceChunkSize; lia). apply list_elem_of_In, in_concat. exists chunk. by rewrite <- !list_elem_of_In. }
  assert (concat (map attempt_ids (map (chunk_attempt base) (Chunk presenceChunkSize ids))) = ids) as ->.
  { rewrite <- (concat_Chunk presenceChunkSize ids) at 2 by (unfold presenceChunkSize; lia). f_equal. rewrite map_map.
    rewrite <- (map_id (Chunk presenceChunkSize ids)) at 2. apply map_ext_in. intros chunk Hc%list_elem_of_In. destruct (Hch chunk Hc) as (payload & -> & _). done. }
  split_and!; [|done|done]. intros a (chunk & -> & Hc)%list_elem_of_fmap. destruct (Hch chunk Hc) as (payload & -> & Ep & Hlen).
  destruct (marshal_event_len nodeId empty payload envelope Hev) as (event & Eev & Hl). exists chunk, payload, event. split_and!; [done..|unfold base in Hlen; lia| |by apply (Chunk_length _ _ _ Hc)].
  by apply (Chunk_nonempty _ _ _ Hc).
Qed.
End Events.

(** Two users, one reported twice, on a node with a short name. *)
Lemma presence_events_fit_witness :
  let attempts := (publishOnlineChanged (RS := tokens) (RC := in_order) true "node-1" ["u___7"; "ag__3"; "u___7"] 5 (newPresence (RS := tokens))).1 in
  length attempts = 1%nat ∧ NoDup (concat (map attempt_ids attempts)).
Proof.
  split; [vm_compute; reflexivity|].
  refine (proj1 (proj2 (presence_events_fit (RS := tokens) (RC := in_order) "node-1" (default "" (marshal_ids [])) (default "" (marshal_event "node-1" (default "" (marshal_ids []))))
    ["u___7"; "ag__3"; "u___7"] 5 (newPresence (RS := tokens)) _ _ _ _))).
  - repeat constructor; vm_compute; reflexivity.
  - vm_compute. reflexivity.
  - vm_compute. reflexivity.
  - vm_compute. discriminate.
Defined.
