(* ===== verification/Http.v ===== *)
(** * HTTP requests, responses and middleware ([internal/api/webx], [internal/api/middleware])

    A request is what the handlers read of Hertz's request context; a response is a status and a JSON
    body. The address [c.ClientIP()] is computed by Hertz from the socket and the trusted proxies and is
    a field here; so is the parsed address of the peer. *)

From S2P Require Import Prelude.
From S2P Require Import Presence.
From S2P Require Import Errcode Strconv Identity Json Store PgStore Conv Conc RateLimit World ConvPage MessageSvc GroupSvc ConversationSvc UserSvc Cache Sha256 Auth.
From Stdlib Require Import QArith.

Local Open Scope Z_scope.

(** [q_Peer] is [net.ParseIP] of the host of [c.RemoteAddr()], [q_Tls] a completed TLS handshake on the connection. *)
Record HttpReq := mkHttpReq {
  q_Method : string; q_Path : string; q_RequestURI : string; q_Header : string → string; q_Query : string → string; q_Body : string;
  q_ClientIP : string; q_Tls : bool; q_Peer : option (list Z) }.

(** The values handlers answer with; [DEmpty] is the empty object. *)
Inductive Data :=
| DEmpty
| DAck (a : Ack)
| DPull (r : PullResult)
| DMaxSeqs (r : MaxSeqsResult)
| DGroup (g : GroupInfo)
| DMembers (ms : list MemberInfo)
| DReadSeq (n : Z)
| DItem (i : Item)
| DList (r : ListResult)
| DProfile (p : Profile)
| DUsers (ps : list Profile)
| DItems (os : list OnlineStatusItem)
| DSession (s : Session)
| DStatus (s : string)
| DSubAck (a : onlineSubscriptionAck).

(** ** Responses ([webx/response.go]) *)

Record WebResponse := mkWebResponse { w_Code : Z; w_Message : string; w_Data : Data }.

(** [healthz] answers without the envelope; [NoRoute] is the engine's answer to a path nobody registered. *)
Inductive HttpResp :=
| JSON (status : Z) (r : WebResponse)
| Probe (status : Z) (state nodeId : string)
| NoRoute.

Definition OK (data : option Data) : HttpResp := JSON 200 (mkWebResponse 0 "" (default DEmpty data)).

Definition FailStatus (status : Z) (e : error) : HttpResp :=
  match From_err (Some e) with
  | Some (c, m, _) => JSON status (mkWebResponse c m DEmpty)
  | None => JSON status (mkWebResponse 0 "" DEmpty)
  end.

Definition Fail (e : error) : HttpResp := FailStatus (HttpStatus (code_of e)) e.

Definition Respond (data : option Data) (e : err) : HttpResp := match e with Some e => Fail e | None => OK data end.

(** [Respond] for a handler that answers with what the service returned. *)
Definition RespondWith {A} (f : A → Data) (r : result A) : HttpResp :=
  match r with Ok a => Respond (Some (f a)) None | Err e => Respond None (Some e) end.

(** [c.BindJSON] is Hertz's decoder, the argument [dec]. *)
Definition Bind {T} (dec : string → result T) (c : HttpReq) : T + HttpResp :=
  match dec (q_Body c) with
  | Err e => inr (Fail (Wrap ErrInvalidParam (Some e)))
  | Ok req => inl req
  end.

Definition BindValid {T} (dec : string → result T) (c : HttpReq) (msg : string) (valid : T → bool) : T + HttpResp :=
  match dec (q_Body c) with
  | Err _ => inr (Fail (WithMessage ErrInvalidParam msg))
  | Ok req => if valid req then inl req else inr (Fail (WithMessage ErrInvalidParam msg))
  end.

(** ** Addresses ([net.IP], [net.IPNet]) *)

Definition To4 (ip : list Z) : option (list Z) :=
  if (length ip =? 4)%nat then Some ip
  else if (length ip =? 16)%nat && bool_decide (take 12 ip = replicate 10 0 ++ [255; 255]) then Some (drop 12 ip)
  else None.

Record IPNet := mkIPNet { Net_IP : list Z; Net_Mask : list Z }.

Definition networkNumberAndMask (n : IPNet) : option (list Z * list Z) :=
  match To4 (Net_IP n) with
  | Some ip =>
      if (length (Net_Mask n) =? 4)%nat then Some (ip, Net_Mask n)
      else if (length (Net_Mask n) =? 16)%nat then Some (ip, drop 12 (Net_Mask n))
      else None
  | None => if (length (Net_IP n) =? 16)%nat && (length (Net_Mask n) =? 16)%nat then Some (Net_IP n, Net_Mask n) else None
  end.

Fixpoint masked_eq (nn m ip : list Z) : bool :=
  match nn, m, ip with
  | a :: nn, k :: m, b :: ip => (Z.land a k =? Z.land b k) && masked_eq nn m ip
  | _, _, _ => true
  end.

Definition Contains (n : IPNet) (ip : list Z) : bool :=
  let ip := default ip (To4 ip) in
  match networkNumberAndMask n with
  | Some (nn, m) => (length ip =? length nn)%nat && masked_eq nn m ip
  | None => (length ip =? 0)%nat
  end.

(** ** The identity of a request ([middleware/bearer.go], [middleware/internal.go]) *)

Definition bearerPrefix : string := "Bearer ".

(** [strings.CutPrefix]. *)
Definition CutPrefix (s p : string) : option string :=
  if HasPrefix s p then Some (slice_from s (String.length p)) else None.

Definition platformId (c : HttpReq) (def : Z) : Z :=
  match ParseInt (q_Header c "X-Platform-Id") with
  | Some v => if 0 <? v then v else def
  | None => def
  end.

(** [strings.Cut(uri, "?")]: all of [uri] and nothing when there is no query. *)
Definition cut_query (uri : string) : string * string := default (uri, "") (Cut uri "?"%char).

Definition request (c : HttpReq) : InternalRequest :=
  let '(rawPath, rawQuery) := cut_query (q_RequestURI c) in
  mkInternalRequest (q_Header c "X-Service-Name") (q_Header c "X-Timestamp") (q_Header c "X-Nonce") (q_Method c) rawPath rawQuery
    (q_Header c "X-User-Id") (q_Header c "X-Platform-Id") (q_Body c) (q_Header c "X-Signature").

Record InternalAuth := mkInternalAuth {
  IA_Verifier : Internal; IA_RequireTls : bool; IA_TrustedProxies : list IPNet; IA_DefaultPlatformId : Z }.

Definition trustedPeer (c : HttpReq) (trusted : list IPNet) : bool :=
  match q_Peer c with Some ip => existsb (λ n, Contains n ip) trusted | None => false end.

Definition overTls (m : InternalAuth) (c : HttpReq) : bool :=
  q_Tls c || ((q_Header c "X-Forwarded-Proto" =? "https")%string && trustedPeer c (IA_TrustedProxies m)).

(** What a middleware leaves: the identity it set, or the answer it aborted with. *)
Abbreviation Verdict := (Identity + HttpResp)%type.

Definition noIdentity : Identity := mkIdentity "" "" 0 "" 0 "".

Section Middleware.
Context `{JW : Jwt} {C : Type} `{CC : Cache C}.

(** [a] is the authenticator's [Verify] at the time of the call. *)
Definition Bearer (a : string → C → result Identity * C) (defaultPlatformId : Z) (c : HttpReq) (s : C) : Verdict * C :=
  match CutPrefix (q_Header c "Authorization") bearerPrefix with
  | None => (inr (Fail ErrTokenMissing), s)
  | Some token =>
      if (token =? "")%string then (inr (Fail ErrTokenMissing), s)
      else
        match a token s with
        | (Err e, s') => (inr (Fail (AuthErr e)), s')
        | (Ok id, s') =>
            (inl (if Id_PlatformId id =? 0
                  then mkIdentity (Id_UserId id) (Id_Role id) (platformId c defaultPlatformId) (Id_TokenId id) (Id_ExpiresAt id) (Id_Source id)
                  else id), s')
        end
  end.

(** [verify]: [None] when the request may go on. *)
Definition internal_verify (m : InternalAuth) (now tc : Z) (c : HttpReq) (s : C) : option HttpResp * C :=
  if IA_RequireTls m && negb (overTls m c) then (Some (Fail (WithMessage ErrForbidden "internal api requires tls")), s)
  else
    match InternalVerify (IA_Verifier m) now tc (request c) s with
    | (Some e, s') => (Some (Fail (if Is e auth_ErrUnavailable then Wrap ErrStoreFailed (Some e) else Wrap ErrUnauthorized (Some e))), s')
    | (None, s') => (None, s')
    end.

Definition Verify (m : InternalAuth) (now tc : Z) (c : HttpReq) (s : C) : Verdict * C :=
  match internal_verify m now tc c s with
  | (Some r, s') => (inr r, s')
  | (None, s') => (inl noIdentity, s')
  end.

Definition AsUser (m : InternalAuth) (now tc : Z) (c : HttpReq) (s : C) : Verdict * C :=
  match internal_verify m now tc c s with
  | (Some r, s') => (inr r, s')
  | (None, s') =>
      let userId := q_Header c "X-User-Id" in
      match ParseActor userId with
      | Err _ => (inr (Fail (WithMessage ErrInvalidParam "X-User-Id must be a platform user id")), s')
      | Ok actor => (inl (mkIdentity userId (Actor_Role actor) (platformId c (IA_DefaultPlatformId m)) "" 0 SourceInternal), s')
      end
  end.
End Middleware.

(** ** The address limit ([middleware/ratelimit.go]) *)

Definition maxTrackedIps : Z := 10000.

(** [None]: no limit. *)
Definition newIpLimit `{RL : RateLib} (perMin now : Z) : option Keyed :=
  if perMin <=? 0 then None else Some (NewKeyed (inject_Z perMin / 60)%Q perMin maxTrackedIps now).
