(* ===== verification/NexoConfig.v ===== *)
(** * Configuration ([internal/config/config.go])

    The settings as records, the defaults, the checks of [Validate] and the redaction for logs. A check that fails adds a [Rule] to the
    report; the rules stand for the messages of the code and carry the values these print. Parsing of CIDRs and of MySQL DSNs
    is a class parameter. *)

From S2P Require Import Prelude.
From S2P Require Import Presence.
From S2P Require Import Errcode Strconv Http.

Local Open Scope Z_scope.

Definition mysqlTextMax : Z := 65535.
Definition minSecretLen : Z := 32.
Definition placeholderSecret : string := "change-me".
Definition devSecrets : list string := [placeholderSecret; "compose-dev-secret"; "dev-only-secret-not-for-production"]%string.

Definition contains (l : list string) (s : string) : bool := existsb (λ x, (x =? s)%string) l.

Definition weakSecret (s : string) : bool := (len s <? minSecretLen) || contains devSecrets s.

Record ServerConfig := mkServer { Sv_Addr : string; Sv_TrustedProxies : list string }.
Record DbConfig := mkDbConfig { Dc_Driver : string; Dc_Access : string; Dc_Dsn : string; Dc_MaxOpenConns : Z; Dc_Injected : bool }.
Record RedisConfig := mkRedis { Rd_Addr : string; Rd_Password : string; Rd_Db : Z }.
Record BusConfig := mkBus { Bs_Driver : string }.
Record OnlineStoreConfig := mkOnline { On_Driver : string; On_Ttl : Z; On_RenewInterval : Z }.
Record CacheConfig := mkCacheConfig { Ca_Driver : string; Ca_CleanerInterval : Z }.
Record OfflinePushConfig := mkOffline { Of_Driver : string; Of_WebhookUrl : string; Of_WebhookSecret : string; Of_Timeout : Z }.
Record ExternalJwtConfig := mkExternalJwt { Ej_Secrets : list string; Ej_DefaultRole : string }.
Record NativeAuthConfig := mkNativeAuth { Na_Secret : string; Na_ExpireHours : Z }.
Record AuthConfig := mkAuthConfig {
  AC_Providers : list string; AC_Injected : bool; AC_DefaultPlatformId : Z; AC_ExternalJwt : ExternalJwtConfig; AC_Native : NativeAuthConfig }.
Record InternalAuthConfig := mkInternalConfig {
  In_Enabled : bool; In_Secret : string; In_Secrets : list string; In_AllowedServices : list string; In_MaxSkewSeconds : Z; In_RequireTls : bool }.
Record WsConfig := mkWs {
  Ws_MaxFrameBytes : Z; Ws_SendQueue : Z; Ws_PingInterval : Z; Ws_PongWait : Z; Ws_AllowedOrigins : list string; Ws_DeliverWorkers : Z;
  Ws_DeliverQueue : Z }.
Record LimitsConfig := mkLimitsConfig {
  Li_MaxContentBytes : Z; Li_PullPageMax : Z; Li_ConversationPageMax : Z; Li_MaxSeqsPageMax : Z; Li_GroupMaxMembers : Z;
  Li_GroupMemberCacheTtl : Z; Li_WsConnsPerUser : Z; Li_WsConnsPerToken : Z; Li_WsConnsPerIp : Z; Li_WsConnsTotal : Z;
  Li_WsFramesPerSec : Z; Li_WsInflightPerConn : Z; Li_MessageSendPerMin : Z; Li_WsSendBytesTotal : Z; Li_AuthPerIpPerMin : Z }.
Record LogConfig := mkLog { Lo_RedactPaths : list string; Lo_SkipPaths : list string; Lo_RequestBody : bool }.

Record NexoConfig := mkNexo {
  NodeId : string; Server : ServerConfig; DbCfg : DbConfig; Redis : RedisConfig; BusCfg : BusConfig; OnlineCfg : OnlineStoreConfig;
  CacheCfg : CacheConfig; OfflinePush : OfflinePushConfig; AuthCfg : AuthConfig; InternalCfg : InternalAuthConfig; Ws : WsConfig;
  LimitsCfg : LimitsConfig; LogCfg : LogConfig }.

(** [setDefaults] decoded without a file and environment; the node is named after its host. *)
Definition Default (host : string) : NexoConfig :=
  mkNexo host (mkServer ":8080" []) (mkDbConfig "postgres" "sqlc" "" 30 false) (mkRedis "" "" 0) (mkBus "local")
    (mkOnline "db" (60 * Second) (20 * Second)) (mkCacheConfig "local" (60 * Second)) (mkOffline "noop" "" "" (3 * Second))
    (mkAuthConfig ["native"] false 5 (mkExternalJwt [] "user") (mkNativeAuth "" 168))
    (mkInternalConfig false "" [] [] 300 true)
    (mkWs 65536 256 (30 * Second) (75 * Second) [] 8 1024)
    (mkLimitsConfig 8192 100 100 200 500 (10 * Second) 10 3 50 20000 20 8 120 (2 ^ 29) 0)
    (mkLog ["/api/v1/auth/login"; "/api/v1/auth/register"] ["/healthz"] false)%string.

(** [Redis.Enabled]. *)
Definition Enabled (r : RedisConfig) : bool := negb (Rd_Addr r =? "")%string.

Definition AllSecrets (c : InternalAuthConfig) : list string :=
  List.filter (λ s, negb (s =? "")%string) (In_Secrets c ++ [In_Secret c]).

(** [strings.TrimSpace]: the runes of white space, read forwards. *)
Fixpoint trim_left (fuel : nat) (l : list Z) : list Z :=
  match fuel with
  | O => l
  | S f =>
      match space_suffix (take 1 l), space_suffix (reverse (take 2 l)), space_suffix (reverse (take 3 l)) with
      | 1%nat, _, _ => trim_left f (drop 1 l)
      | _, 2%nat, _ => trim_left f (drop 2 l)
      | _, _, 3%nat => trim_left f (drop 3 l)
      | _, _, _ => l
      end
  end.

Definition TrimSpace (s : string) : string :=
  let l := map byte_Z (to_list s) in TrimRightSpace (of_list (map Z_byte (trim_left (length l) l))).

(** ** Validation *)

(** One constructor per message of [validate] and [Validate]. *)
Inductive Rule :=
| VAddr | VCidr (raw : string)
| VDbDriver (v : string) | VDbAccess (v : string) | VDsn | VMysqlGorm | VMaxOpen | VMysqlDsn | VFoundRows | VParseTime
| VInjectedDsn | VOneOf (field val : string) (allowed : list string)
| VBusPg | VCachePg | VRedisAddr | VLocalTokens (bus : string) | VLocalNonces (bus : string) | VCleaner (iv : Z) | VRenew
| VWebhookUrl | VWebhookSecret
| VNoProviders | VExternalEmpty | VExternalWeak | VShared (p prev : string) | VNativeEmpty | VNativeWeak | VNativeHours
| VUnknownProvider (p : string) | VPlatform
| VInternalEmpty | VInternalWeak | VServices | VSkew
| VWs | VDeliver | VLimits | VMysqlContent | VAuthPerIp.

(** [net.ParseCIDR] and [mysql.ParseDSN], with the two parameters that are looked at. *)
Record DsnParams := mkDsn { Dsn_ClientFoundRows : bool; Dsn_ParseTime : bool }.

Class ConfigLib := {
  ParseCIDR : string → option IPNet;
  ParseDSN : string → option DsnParams }.

(** [if b { fail(r) }]. *)
Definition when (b : bool) (r : Rule) : list Rule := if b then [r] else [].

Definition eqs (s t : string) : bool := (s =? t)%string.

Definition oneOf (field val : string) (allowed : list string) : list Rule := when (negb (contains allowed val)) (VOneOf field val allowed).

Section Validate.
Context `{CL : ConfigLib}.

(** The networks, or the first entry that is none. *)
Fixpoint TrustedCIDRs (raws : list string) : list IPNet + string :=
  match raws with
  | [] => inl []
  | raw :: rest =>
      match ParseCIDR (TrimSpace raw) with
      | None => inr raw
      | Some n => match TrustedCIDRs rest with inl ns => inl (n :: ns) | inr e => inr e end
      end
  end.

Definition validateDb (d : DbConfig) : list Rule :=
  when (negb (contains ["postgres"; "mysql"]%string (Dc_Driver d))) (VDbDriver (Dc_Driver d)) ++
  when (negb (contains ["gorm"; "sqlc"]%string (Dc_Access d))) (VDbAccess (Dc_Access d)) ++
  when (eqs (Dc_Dsn d) "" && negb (Dc_Injected d)) VDsn ++
  when (eqs (Dc_Driver d) "mysql" && negb (eqs (Dc_Access d) "gorm")) VMysqlGorm ++
  when (Dc_MaxOpenConns d <=? 0) VMaxOpen ++
  (if eqs (Dc_Driver d) "mysql" && negb (eqs (Dc_Dsn d) "") then
     match ParseDSN (Dc_Dsn d) with
     | None => [VMysqlDsn]
     | Some p => if Dsn_ClientFoundRows p then [VFoundRows] else if negb (Dsn_ParseTime p) then [VParseTime] else []
     end
   else []).

(** The loop over the external secrets: [m] maps the secrets seen to the provider that has them. *)
Fixpoint externalLoop (p : string) (ss : list string) (m : gmap string string) : list Rule * gmap string string :=
  match ss with
  | [] => ([], m)
  | s :: ss =>
      let r := if weakSecret s then [VExternalWeak] else match m !! s with Some prev => [VShared p prev] | None => [] end in
      let '(rs, m') := externalLoop p ss (<[s := p]> m) in (r ++ rs, m')
  end.

Definition nativeCheck (p : string) (n : NativeAuthConfig) (m : gmap string string) : list Rule * gmap string string :=
  let s := Na_Secret n in
  let '(rs, m') :=
    if eqs s "" then ([VNativeEmpty], m)
    else if weakSecret s then ([VNativeWeak], m)
    else (match m !! s with Some prev => [VShared p prev] | None => [] end, <[s := p]> m) in
  (rs ++ when (Na_ExpireHours n <=? 0) VNativeHours, m').

Fixpoint providersLoop (a : AuthConfig) (ps : list string) (m : gmap string string) : list Rule :=
  match ps with
  | [] => []
  | p :: ps =>
      let '(rs, m') :=
        if eqs p "external_jwt" then
          let '(rs, m') := externalLoop p (Ej_Secrets (AC_ExternalJwt a)) m in
          (when (length (Ej_Secrets (AC_ExternalJwt a)) =? 0)%nat VExternalEmpty ++ rs, m')
        else if eqs p "native" then nativeCheck p (AC_Native a) m
        else ([VUnknownProvider p], m) in
      rs ++ providersLoop a ps m'
  end.

Definition validateInternal (c : InternalAuthConfig) : list Rule :=
  if In_Enabled c then
    when (length (AllSecrets c) =? 0)%nat VInternalEmpty ++
    when (existsb weakSecret (AllSecrets c)) VInternalWeak ++
    when (length (In_AllowedServices c) =? 0)%nat VServices ++
    when (In_MaxSkewSeconds c <=? 0) VSkew
  else [].

Definition needsRedis (c : NexoConfig) : bool :=
  eqs (Bs_Driver (BusCfg c)) "redis" || eqs (On_Driver (OnlineCfg c)) "redis" || eqs (Ca_Driver (CacheCfg c)) "redis".

(** What [Validate] collects, in its order. *)
Definition problems (c : NexoConfig) : list Rule :=
  let bus := Bs_Driver (BusCfg c) in let cache := Ca_Driver (CacheCfg c) in
  when (eqs (Sv_Addr (Server c)) "") VAddr ++
  match TrustedCIDRs (Sv_TrustedProxies (Server c)) with inr raw => [VCidr raw] | inl _ => [] end ++
  validateDb (DbCfg c) ++
  when (eqs (Dc_Dsn (DbCfg c)) "" && Dc_Injected (DbCfg c) && (eqs bus "postgres" || eqs cache "pg")) VInjectedDsn ++
  oneOf "bus.driver" bus ["redis"; "postgres"; "local"] ++
  oneOf "online_store.driver" (On_Driver (OnlineCfg c)) ["db"; "redis"] ++
  oneOf "cache.driver" cache ["redis"; "pg"; "local"] ++
  oneOf "offline_push.driver" (Of_Driver (OfflinePush c)) ["noop"; "webhook"] ++
  when (eqs bus "postgres" && negb (eqs (Dc_Driver (DbCfg c)) "postgres")) VBusPg ++
  when (eqs cache "pg" && negb (eqs (Dc_Driver (DbCfg c)) "postgres")) VCachePg ++
  when (needsRedis c && negb (Enabled (Redis c))) VRedisAddr ++
  (if negb (eqs bus "local") && eqs cache "local" then
     when (contains (AC_Providers (AuthCfg c)) "native") (VLocalTokens bus) ++ when (In_Enabled (InternalCfg c)) (VLocalNonces bus)
   else []) ++
  when ((0 <? Ca_CleanerInterval (CacheCfg c)) && (Ca_CleanerInterval (CacheCfg c) <? Second)) (VCleaner (Ca_CleanerInterval (CacheCfg c))) ++
  when ((On_Ttl (OnlineCfg c) <=? 0) || (On_RenewInterval (OnlineCfg c) <=? 0) || (On_Ttl (OnlineCfg c) <=? On_RenewInterval (OnlineCfg c))) VRenew ++
  (if eqs (Of_Driver (OfflinePush c)) "webhook" then
     when (negb (HasPrefix (Of_WebhookUrl (OfflinePush c)) "https://")) VWebhookUrl ++ when (eqs (Of_WebhookSecret (OfflinePush c)) "") VWebhookSecret
   else []) ++
  when ((length (AC_Providers (AuthCfg c)) =? 0)%nat && negb (AC_Injected (AuthCfg c))) VNoProviders ++
  providersLoop (AuthCfg c) (AC_Providers (AuthCfg c)) ∅ ++
  when (AC_DefaultPlatformId (AuthCfg c) <=? 0) VPlatform ++
  validateInternal (InternalCfg c) ++
  when ((Ws_MaxFrameBytes (Ws c) <=? 0) || (Ws_SendQueue (Ws c) <=? 0) || (Ws_PingInterval (Ws c) <=? 0) ||
        (Ws_PongWait (Ws c) <=? Ws_PingInterval (Ws c))) VWs ++
  when ((Ws_DeliverWorkers (Ws c) <=? 0) || (Ws_DeliverQueue (Ws c) <=? 0)) VDeliver ++
  when ((Li_MaxContentBytes (LimitsCfg c) <=? 0) || (Li_PullPageMax (LimitsCfg c) <=? 0) || (Li_ConversationPageMax (LimitsCfg c) <=? 0) ||
        (Li_MaxSeqsPageMax (LimitsCfg c) <=? 0) || (Li_GroupMaxMembers (LimitsCfg c) <=? 0)) VLimits ++
  when (eqs (Dc_Driver (DbCfg c)) "mysql" && (mysqlTextMax <? Li_MaxContentBytes (LimitsCfg c))) VMysqlContent ++
  when (Li_AuthPerIpPerMin (LimitsCfg c) <? 0) VAuthPerIp.

(** [nil], or one error that joins what was collected. *)
Definition Validate (c : NexoConfig) : option (list Rule) := match problems c with [] => None | rs => Some rs end.

(** [Load] and [LoadDb] on what [decode] made of the file and the environment. *)
Inductive LoadErr := LDecode (e : error) | LInvalid (rs : list Rule).

Definition Load (decoded : NexoConfig + error) : NexoConfig + LoadErr :=
  match decoded with
  | inr e => inr (LDecode e)
  | inl c => match Validate c with Some rs => inr (LInvalid rs) | None => inl c end
  end.

Definition LoadDb (decoded : NexoConfig + error) : DbConfig + LoadErr :=
  match decoded with
  | inr e => inr (LDecode e)
  | inl c => match validateDb (DbCfg c) with [] => inl (DbCfg c) | rs => inr (LInvalid rs) end
  end.
End Validate.

(** ** Redaction *)

Definition mask (s : string) : string := if eqs s "" then "" else "***".

Definition Redacted (c : NexoConfig) : NexoConfig :=
  mkNexo (NodeId c) (Server c)
    (mkDbConfig (Dc_Driver (DbCfg c)) (Dc_Access (DbCfg c)) (mask (Dc_Dsn (DbCfg c))) (Dc_MaxOpenConns (DbCfg c)) (Dc_Injected (DbCfg c)))
    (mkRedis (Rd_Addr (Redis c)) (mask (Rd_Password (Redis c))) (Rd_Db (Redis c))) (BusCfg c) (OnlineCfg c) (CacheCfg c)
    (mkOffline (Of_Driver (OfflinePush c)) (Of_WebhookUrl (OfflinePush c)) (mask (Of_WebhookSecret (OfflinePush c))) (Of_Timeout (OfflinePush c)))
    (mkAuthConfig (AC_Providers (AuthCfg c)) (AC_Injected (AuthCfg c)) (AC_DefaultPlatformId (AuthCfg c))
       (mkExternalJwt (map mask (Ej_Secrets (AC_ExternalJwt (AuthCfg c)))) (Ej_DefaultRole (AC_ExternalJwt (AuthCfg c))))
       (mkNativeAuth (mask (Na_Secret (AC_Native (AuthCfg c)))) (Na_ExpireHours (AC_Native (AuthCfg c)))))
    (mkInternalConfig (In_Enabled (InternalCfg c)) (mask (In_Secret (InternalCfg c))) (map mask (In_Secrets (InternalCfg c)))
       (In_AllowedServices (InternalCfg c)) (In_MaxSkewSeconds (InternalCfg c)) (In_RequireTls (InternalCfg c)))
    (Ws c) (LimitsCfg c) (LogCfg c).
