(* ===== verification/ConfigThms.v ===== *)
(** * What a configuration that passes the checks guarantees

    [config_ok] states the rules of the configuration declaratively; [Validate] accepts exactly the configurations that keep them. *)

From S2P Require Import Prelude.
From S2P Require Import Presence.
From S2P Require Import Errcode Strconv Http NexoConfig.

Local Open Scope Z_scope.

(** ** Checks as propositions *)

Lemma when_nil b r : when b r = [] ↔ b = false.
Proof. by destruct b. Qed.

Lemma app_nil_iff {A} (l k : list A) : l ++ k = [] ↔ l = [] ∧ k = [].
Proof. split; [apply app_eq_nil|by intros [-> ->]]. Qed.

Lemma eqs_true s t : eqs s t = true ↔ s = t.
Proof. apply String.eqb_eq. Qed.

Lemma eqs_false s t : eqs s t = false ↔ s ≠ t.
Proof. apply String.eqb_neq. Qed.

Lemma contains_true l s : contains l s = true ↔ s ∈ l.
Proof.
  unfold contains. rewrite existsb_exists. setoid_rewrite <- list_elem_of_In. split.
  - intros (x & Hx & E). apply String.eqb_eq in E as ->. done.
  - intros Hs. exists s. by rewrite String.eqb_refl.
Qed.

Lemma contains_false l s : contains l s = false ↔ s ∉ l.
Proof. rewrite <- contains_true. by destruct (contains l s). Qed.

Lemma andb_false (b c : bool) : b && c = false ↔ (b = true → c = false).
Proof. destruct b, c; simpl; naive_solver. Qed.

Lemma length_zero {A} (l : list A) : (length l =? 0)%nat = false ↔ l ≠ [].
Proof. by destruct l. Qed.

Create HintDb config.

#[local] Hint Rewrite @app_nil_iff when_nil andb_false orb_false_iff negb_false_iff negb_true_iff eqs_true eqs_false contains_true contains_false @length_zero
  Z.leb_gt Z.ltb_ge Z.ltb_lt : config.

Section ConfigThms.
Context `{CL : ConfigLib}.

Lemma oneOf_nil f v l : oneOf f v l = [] ↔ v ∈ l.
Proof. unfold oneOf. by autorewrite with config. Qed.

(** ** The database section *)

Record db_ok (d : DbConfig) : Prop := {
  db_driver : Dc_Driver d ∈ ["postgres"; "mysql"]%string;
  db_access : Dc_Access d ∈ ["gorm"; "sqlc"]%string;
  db_dsn : Dc_Dsn d = ""%string → Dc_Injected d = true;
  db_gorm : Dc_Driver d = "mysql"%string → Dc_Access d = "gorm"%string;
  db_open : 0 < Dc_MaxOpenConns d;
  db_mysql : Dc_Driver d = "mysql"%string → Dc_Dsn d ≠ ""%string → ParseDSN (Dc_Dsn d) = Some (mkDsn false true) }.

Lemma validateDb_nil d : validateDb d = [] ↔ db_ok d.
Proof.
  unfold validateDb. autorewrite with config.
  assert ((if eqs (Dc_Driver d) "mysql" && negb (eqs (Dc_Dsn d) "")
           then match ParseDSN (Dc_Dsn d) with
                | None => [VMysqlDsn]
                | Some p => if Dsn_ClientFoundRows p then [VFoundRows] else if negb (Dsn_ParseTime p) then [VParseTime] else []
                end
           else []) = [] ↔ (Dc_Driver d = "mysql"%string → Dc_Dsn d ≠ ""%string → ParseDSN (Dc_Dsn d) = Some (mkDsn false true))) as ->.
  { destruct (eqs (Dc_Driver d) "mysql") eqn:E1; simpl; [apply eqs_true in E1|apply eqs_false in E1; naive_solver].
    destruct (eqs (Dc_Dsn d) "") eqn:E2; simpl; [apply eqs_true in E2; naive_solver|apply eqs_false in E2].
    destruct (ParseDSN (Dc_Dsn d)) as [[[] []]|]; simpl; naive_solver. }
  split; [intros (H1 & H2 & H3 & H4 & H5 & H6); by constructor|intros []; split_and!; done].
Qed.

(** ** Trusted proxies *)

Lemma TrustedCIDRs_inl raws ns : TrustedCIDRs raws = inl ns → Forall2 (λ raw n, ParseCIDR (TrimSpace raw) = Some n) raws ns.
Proof.
  revert ns. induction raws as [|raw raws IH]; intros ns; simpl; [intros [= <-]; constructor|].
  destruct (ParseCIDR (TrimSpace raw)) as [n|] eqn:E; [|done]. destruct (TrustedCIDRs raws) as [ms|]; [|done]. intros [= <-]. constructor; [done|by apply IH].
Qed.

Lemma TrustedCIDRs_nil raws :
  match TrustedCIDRs raws with inr raw => [VCidr raw] | inl _ => [] end = [] ↔ ∀ raw, raw ∈ raws → is_Some (ParseCIDR (TrimSpace raw)).
Proof.
  induction raws as [|raw raws IH]; simpl; [split; [intros _ raw H; by apply not_elem_of_nil in H|done]|].
  destruct (ParseCIDR (TrimSpace raw)) as [n|] eqn:E.
  - transitivity (∀ r, r ∈ raws → is_Some (ParseCIDR (TrimSpace r))); [rewrite <- IH; by destruct (TrustedCIDRs raws)|].
    split; [|intros H r Hr; apply H; by right]. intros H r [-> |Hr]%elem_of_cons; eauto.
  - split; [done|]. intros H. destruct (H raw) as [n Hn]; [by left|congruence].
Qed.

(** ** Providers and their secrets *)

(** The secrets a provider signs or verifies with. *)
Definition provider_secrets (a : AuthConfig) (p : string) : list string :=
  if eqs p "external_jwt" then Ej_Secrets (AC_ExternalJwt a) else [Na_Secret (AC_Native a)].

Definition provider_ok (a : AuthConfig) (p : string) : Prop :=
  (p = "external_jwt"%string ∧ Ej_Secrets (AC_ExternalJwt a) ≠ [] ∧ Forall (λ s, weakSecret s = false) (Ej_Secrets (AC_ExternalJwt a))) ∨
  (p = "native"%string ∧ weakSecret (Na_Secret (AC_Native a)) = false ∧ 0 < Na_ExpireHours (AC_Native a)).

Definition unseen (m : gmap string string) (ss : list string) : Prop := ∀ s, s ∈ ss → m !! s = None.

Lemma weak_empty : weakSecret "" = true.
Proof. done. Qed.

Lemma externalLoop_spec p ss m :
  ((externalLoop p ss m).1 = [] ↔ Forall (λ s, weakSecret s = false) ss ∧ NoDup ss ∧ unseen m ss) ∧
  ∀ s, (externalLoop p ss m).2 !! s = None ↔ s ∉ ss ∧ m !! s = None.
Proof.
  revert m. induction ss as [|s ss IH]; intros m; simpl.
  - split; [|intros s; split; [intros H; split; [apply not_elem_of_nil|done]|by intros []]].
    split; [intros _; split_and!; [constructor|constructor|by intros s H%not_elem_of_nil]|done].
  - destruct (IH (<[s := p]> m)) as [IH1 IH2]. destruct (externalLoop p ss (<[s := p]> m)) as [rs m'] eqn:E. simpl in *. split.
    + rewrite app_nil_iff, IH1, Forall_cons, NoDup_cons. unfold unseen.
      assert ((if weakSecret s then [VExternalWeak] else match m !! s with Some prev => [VShared p prev] | None => [] end) = [] ↔
              weakSecret s = false ∧ m !! s = None) as -> by (destruct (weakSecret s), (m !! s); naive_solver).
      split.
      * intros ((Hw & Hm) & Hws & Hnd & Hu). split_and!; try done.
        -- intros Hin. specialize (Hu s Hin). by rewrite lookup_insert_eq in Hu.
        -- intros x [-> |Hx]%elem_of_cons; [done|]. specialize (Hu x Hx). by apply lookup_insert_None in Hu as [? _].
      * intros ((Hw & Hws) & (Hni & Hnd) & Hu). split_and!; try done; [apply Hu; by left|].
        intros x Hx. rewrite lookup_insert_ne; [apply Hu; by right|]. intros ->. done.
    + intros x. rewrite IH2, lookup_insert_None, not_elem_of_cons. naive_solver.
Qed.

Lemma nativeCheck_spec p n m :
  ((nativeCheck p n m).1 = [] ↔ weakSecret (Na_Secret n) = false ∧ 0 < Na_ExpireHours n ∧ m !! Na_Secret n = None) ∧
  (weakSecret (Na_Secret n) = false → ∀ s, (nativeCheck p n m).2 !! s = None ↔ s ≠ Na_Secret n ∧ m !! s = None).
Proof.
  unfold nativeCheck. destruct (eqs (Na_Secret n) "") eqn:E; [apply eqs_true in E; rewrite E, weak_empty; simpl; naive_solver|].
  destruct (weakSecret (Na_Secret n)) eqn:Ew; simpl; [naive_solver|]. rewrite app_nil_iff, when_nil, Z.leb_gt. split.
  - destruct (m !! Na_Secret n); naive_solver.
  - intros _ s. rewrite lookup_insert_None. naive_solver.
Qed.

Lemma providersLoop_spec a ps m :
  providersLoop a ps m = [] ↔
  Forall (provider_ok a) ps ∧ NoDup (concat (map (provider_secrets a) ps)) ∧ unseen m (concat (map (provider_secrets a) ps)).
Proof.
  revert m. induction ps as [|p ps IH]; intros m; simpl; [split; [intros _; split_and!; [constructor|constructor|by intros s H%not_elem_of_nil]|done]|].
  unfold provider_secrets at 1 3. destruct (eqs p "external_jwt") eqn:E1.
  - apply eqs_true in E1 as ->. destruct (externalLoop_spec "external_jwt" (Ej_Secrets (AC_ExternalJwt a)) m) as [H1 H2].
    destruct (externalLoop _ _ m) as [rs m']. simpl in *. rewrite !app_nil_iff, when_nil, length_zero, H1, IH, Forall_cons, NoDup_app.
    unfold unseen. setoid_rewrite H2. setoid_rewrite elem_of_app. unfold provider_ok. split.
    + intros ((Hne & Hw & Hnd & Hu) & Hall & Hnd' & Hu'). split_and!; try done; [left; done|intros x Hx Hx'; by destruct (Hu' x Hx')|].
      intros x [Hx|Hx]; [by apply Hu|by apply Hu'].
    + intros ([[(_ & Hne & Hw)|([=] & _)] Hall] & (Hnd & Hdis & Hnd') & Hu). split_and!; try done; [intros x Hx; apply Hu; by left|].
      intros x Hx. split; [intros Hx'; by apply (Hdis x)|apply Hu; by right].
  - destruct (eqs p "native") eqn:E2.
    + apply eqs_true in E2 as ->. destruct (nativeCheck_spec "native" (AC_Native a) m) as [H1 H2].
      destruct (nativeCheck _ _ m) as [rs m']. simpl in *. rewrite !app_nil_iff, H1, IH, Forall_cons, NoDup_cons. unfold unseen.
      setoid_rewrite elem_of_cons. unfold provider_ok. split.
      * intros ((Hw & He & Hm) & Hall & Hnd & Hu). split_and!; try done; [by right| |].
        -- intros Hin. specialize (Hu _ Hin). apply (H2 Hw) in Hu as [? _]. done.
        -- intros x [-> |Hx]; [done|]. by apply (H2 Hw), Hu.
      * intros ([[([=] & _)|(_ & Hw & He)] Hall] & (Hni & Hnd) & Hu). split_and!; try done; [apply Hu; by left|].
        intros x Hx. apply (H2 Hw). split; [by intros ->|apply Hu; by right].
    + simpl. split; [done|]. intros (Hall & _). apply Forall_cons in Hall as [[(-> & _)|(-> & _)] _]; done.
Qed.

(** ** The rules *)

Definition internal_ok (c : InternalAuthConfig) : Prop :=
  AllSecrets c ≠ [] ∧ Forall (λ s, weakSecret s = false) (AllSecrets c) ∧ In_AllowedServices c ≠ [] ∧ 0 < In_MaxSkewSeconds c.

Record config_ok (c : NexoConfig) : Prop := {
  ok_addr : Sv_Addr (Server c) ≠ ""%string;
  ok_proxies : ∀ raw, raw ∈ Sv_TrustedProxies (Server c) → is_Some (ParseCIDR (TrimSpace raw));
  ok_db : db_ok (DbCfg c);
  ok_drivers : Bs_Driver (BusCfg c) ∈ ["redis"; "postgres"; "local"]%string ∧ On_Driver (OnlineCfg c) ∈ ["db"; "redis"]%string ∧
    Ca_Driver (CacheCfg c) ∈ ["redis"; "pg"; "local"]%string ∧ Of_Driver (OfflinePush c) ∈ ["noop"; "webhook"]%string;
  (** Drivers that use the database open their own connection to PostgreSQL. *)
  ok_pg : Bs_Driver (BusCfg c) = "postgres"%string ∨ Ca_Driver (CacheCfg c) = "pg"%string →
    Dc_Dsn (DbCfg c) ≠ ""%string ∧ Dc_Driver (DbCfg c) = "postgres"%string;
  ok_redis : Bs_Driver (BusCfg c) = "redis"%string ∨ On_Driver (OnlineCfg c) = "redis"%string ∨ Ca_Driver (CacheCfg c) = "redis"%string →
    Rd_Addr (Redis c) ≠ ""%string;
  (** Nodes that share sessions or nonces share a cache. *)
  ok_shared : Bs_Driver (BusCfg c) ≠ "local"%string → "native"%string ∈ AC_Providers (AuthCfg c) ∨ In_Enabled (InternalCfg c) = true →
    Ca_Driver (CacheCfg c) ≠ "local"%string;
  ok_cleaner : 0 < Ca_CleanerInterval (CacheCfg c) → Second ≤ Ca_CleanerInterval (CacheCfg c);
  ok_renew : 0 < On_RenewInterval (OnlineCfg c) < On_Ttl (OnlineCfg c);
  ok_webhook : Of_Driver (OfflinePush c) = "webhook"%string →
    HasPrefix (Of_WebhookUrl (OfflinePush c)) "https://" = true ∧ Of_WebhookSecret (OfflinePush c) ≠ ""%string;
  ok_provided : AC_Providers (AuthCfg c) ≠ [] ∨ AC_Injected (AuthCfg c) = true;
  ok_providers : Forall (provider_ok (AuthCfg c)) (AC_Providers (AuthCfg c));
  ok_secrets : NoDup (concat (map (provider_secrets (AuthCfg c)) (AC_Providers (AuthCfg c))));
  ok_platform : 0 < AC_DefaultPlatformId (AuthCfg c);
  ok_internal : In_Enabled (InternalCfg c) = true → internal_ok (InternalCfg c);
  ok_ws : 0 < Ws_MaxFrameBytes (Ws c) ∧ 0 < Ws_SendQueue (Ws c) ∧ 0 < Ws_PingInterval (Ws c) < Ws_PongWait (Ws c) ∧
    0 < Ws_DeliverWorkers (Ws c) ∧ 0 < Ws_DeliverQueue (Ws c);
  ok_limits : 0 < Li_MaxContentBytes (LimitsCfg c) ∧ 0 < Li_PullPageMax (LimitsCfg c) ∧ 0 < Li_ConversationPageMax (LimitsCfg c) ∧
    0 < Li_MaxSeqsPageMax (LimitsCfg c) ∧ 0 < Li_GroupMaxMembers (LimitsCfg c) ∧ 0 ≤ Li_AuthPerIpPerMin (LimitsCfg c);
  ok_content : Dc_Driver (DbCfg c) = "mysql"%string → Li_MaxContentBytes (LimitsCfg c) ≤ mysqlTextMax }.

Lemma validateInternal_nil c : validateInternal c = [] ↔ (In_Enabled c = true → internal_ok c).
Proof.
  unfold validateInternal, internal_ok. destruct (In_Enabled c); [|naive_solver]. autorewrite with config.
  assert (existsb weakSecret (AllSecrets c) = false ↔ Forall (λ s, weakSecret s = false) (AllSecrets c)) as ->.
  { induction (AllSecrets c) as [|s ss IH]; simpl; [by split|]. rewrite orb_false_iff, Forall_cons. by rewrite IH. }
  split; [by intros|by intros H; apply H].
Qed.

Lemma if_nil (b : bool) (l : list Rule) : (if b then l else []) = [] ↔ (b = true → l = []).
Proof. destruct b; naive_solver. Qed.

Lemma unseen_empty ss : unseen ∅ ss.
Proof. intros s _. apply lookup_empty. Qed.

Lemma eqs_cases s t : eqs s t = true ∧ s = t ∨ eqs s t = false ∧ s ≠ t.
Proof. destruct (eqs s t) eqn:E; [apply eqs_true in E|apply eqs_false in E]; auto. Qed.

Lemma and_parts (A B A' B' : Prop) : (A ↔ A') → (B ↔ B') → (A ∧ B ↔ A' ∧ B').
Proof. tauto. Qed.

(** Every check alone. *)
Lemma problems_nil c :
  problems c = [] ↔
  Sv_Addr (Server c) ≠ ""%string ∧ (∀ raw, raw ∈ Sv_TrustedProxies (Server c) → is_Some (ParseCIDR (TrimSpace raw))) ∧ db_ok (DbCfg c) ∧
  (eqs (Dc_Dsn (DbCfg c)) "" && Dc_Injected (DbCfg c) && (eqs (Bs_Driver (BusCfg c)) "postgres" || eqs (Ca_Driver (CacheCfg c)) "pg") = false) ∧
  Bs_Driver (BusCfg c) ∈ ["redis"; "postgres"; "local"]%string ∧ On_Driver (OnlineCfg c) ∈ ["db"; "redis"]%string ∧
  Ca_Driver (CacheCfg c) ∈ ["redis"; "pg"; "local"]%string ∧ Of_Driver (OfflinePush c) ∈ ["noop"; "webhook"]%string ∧
  (Bs_Driver (BusCfg c) = "postgres"%string → Dc_Driver (DbCfg c) = "postgres"%string) ∧
  (Ca_Driver (CacheCfg c) = "pg"%string → Dc_Driver (DbCfg c) = "postgres"%string) ∧
  (needsRedis c = true → Rd_Addr (Redis c) ≠ ""%string) ∧
  (negb (eqs (Bs_Driver (BusCfg c)) "local") && eqs (Ca_Driver (CacheCfg c)) "local" = true →
     "native"%string ∉ AC_Providers (AuthCfg c) ∧ In_Enabled (InternalCfg c) = false) ∧
  (0 < Ca_CleanerInterval (CacheCfg c) → Second ≤ Ca_CleanerInterval (CacheCfg c)) ∧
  (0 < On_Ttl (OnlineCfg c) ∧ 0 < On_RenewInterval (OnlineCfg c) ∧ On_RenewInterval (OnlineCfg c) < On_Ttl (OnlineCfg c)) ∧
  (eqs (Of_Driver (OfflinePush c)) "webhook" = true →
     HasPrefix (Of_WebhookUrl (OfflinePush c)) "https://" = true ∧ Of_WebhookSecret (OfflinePush c) ≠ ""%string) ∧
  ((length (AC_Providers (AuthCfg c)) =? 0)%nat = true → AC_Injected (AuthCfg c) = true) ∧
  (Forall (provider_ok (AuthCfg c)) (AC_Providers (AuthCfg c)) ∧
     NoDup (concat (map (provider_secrets (AuthCfg c)) (AC_Providers (AuthCfg c)))) ∧
     unseen ∅ (concat (map (provider_secrets (AuthCfg c)) (AC_Providers (AuthCfg c))))) ∧
  0 < AC_DefaultPlatformId (AuthCfg c) ∧ (In_Enabled (InternalCfg c) = true → internal_ok (InternalCfg c)) ∧
  (((0 < Ws_MaxFrameBytes (Ws c) ∧ 0 < Ws_SendQueue (Ws c)) ∧ 0 < Ws_PingInterval (Ws c)) ∧ Ws_PingInterval (Ws c) < Ws_PongWait (Ws c)) ∧
  (0 < Ws_DeliverWorkers (Ws c) ∧ 0 < Ws_DeliverQueue (Ws c)) ∧
  ((((0 < Li_MaxContentBytes (LimitsCfg c) ∧ 0 < Li_PullPageMax (LimitsCfg c)) ∧ 0 < Li_ConversationPageMax (LimitsCfg c)) ∧
     0 < Li_MaxSeqsPageMax (LimitsCfg c)) ∧ 0 < Li_GroupMaxMembers (LimitsCfg c)) ∧
  (Dc_Driver (DbCfg c) = "mysql"%string → Li_MaxContentBytes (LimitsCfg c) ≤ mysqlTextMax) ∧ 0 ≤ Li_AuthPerIpPerMin (LimitsCfg c).
Proof.
  unfold problems. rewrite !app_nil_iff. repeat apply and_parts.
  all: try (apply TrustedCIDRs_nil || apply validateDb_nil || apply oneOf_nil || apply providersLoop_spec || apply validateInternal_nil).
  all: rewrite ?if_nil; unfold Enabled; autorewrite with config; try reflexivity.
  all: tauto.
Qed.

Lemma drivers_pg (c : NexoConfig) :
  (eqs (Dc_Dsn (DbCfg c)) "" && Dc_Injected (DbCfg c) && (eqs (Bs_Driver (BusCfg c)) "postgres" || eqs (Ca_Driver (CacheCfg c)) "pg") = false) →
  db_ok (DbCfg c) → Bs_Driver (BusCfg c) = "postgres"%string ∨ Ca_Driver (CacheCfg c) = "pg"%string → Dc_Dsn (DbCfg c) ≠ ""%string.
Proof.
  intros H Hdb Hd He. rewrite (db_dsn _ Hdb He), (proj2 (eqs_true _ _) He) in H. simpl in H. apply orb_false_iff in H as [H1%eqs_false H2%eqs_false].
  by destruct Hd.
Qed.

(** C38: the checks accept exactly the configurations that keep the rules of [config_ok]: known drivers, a usable data source for each
    driver that needs one, strong secrets that no two providers share, shared state wherever several nodes run, and limits in range. *)
Theorem Validate_exact c : Validate c = None ↔ config_ok c.
Proof.
  unfold Validate. transitivity (problems c = []); [destruct (problems c); naive_solver|]. rewrite problems_nil. split.
  - intros (H1 & H2 & H3 & H4 & H5 & H6 & H7 & H8 & H9 & H10 & H11 & H12 & H13 & H14 & H15 & H16 & H17 & H18 & H19 & H20 & H21 & H22 & H23 & H24).
    constructor; try done.
    + intros Hd. split; [by apply (drivers_pg c)|tauto].
    + intros Hd. apply H11. unfold needsRedis. rewrite !orb_true_iff, !eqs_true. tauto.
    + intros Hb Hn Hc. rewrite Hc in H12. destruct H12 as [Hn1 Hn2]; [rewrite andb_true_iff, negb_true_iff, eqs_false; done|].
      destruct Hn; [done|congruence].
    + lia.
    + intros Hd. apply H15, eqs_true, Hd.
    + destruct (AC_Providers (AuthCfg c)); [right; by apply H16|by left].
    + apply H17.
    + apply H17.
    + tauto.
    + tauto.
  - intros []. split_and!; try tauto; try lia; eauto using unseen_empty.
    + apply not_true_iff_false. rewrite !andb_true_iff, orb_true_iff, !eqs_true. intros [[He _] Hd]. by destruct (ok_pg0 Hd).
    + unfold needsRedis. rewrite !orb_true_iff, !eqs_true. tauto.
    + rewrite andb_true_iff, negb_true_iff, eqs_false, eqs_true. intros [Hb Hc]. split; [intros Hn; by destruct (ok_shared0 Hb (or_introl Hn))|].
      apply not_true_iff_false. intros Hi. by destruct (ok_shared0 Hb (or_intror Hi)).
    + rewrite eqs_true. done.
    + destruct (AC_Providers (AuthCfg c)); [by destruct ok_provided0|done].
Qed.

(** What [migrate] loads is what [serve] would accept of the section. *)
Lemma Load_db_ok d c : Load d = inl c → LoadDb d = inl (DbCfg c).
Proof.
  destruct d as [c'|]; simpl; [|done]. unfold Validate. destruct (problems c') eqn:E; [|done]. intros [= ->].
  apply problems_nil in E as (_ & _ & Hdb & _). apply validateDb_nil in Hdb. by rewrite Hdb.
Qed.
End ConfigThms.

(** ** Redaction *)

Lemma mask_idem s : mask (mask s) = mask s.
Proof. unfold mask. by destruct (eqs s "") eqn:E. Qed.

(** The secrets of a configuration. *)
Definition secrets_of (c : NexoConfig) : list string :=
  Rd_Password (Redis c) :: Dc_Dsn (DbCfg c) :: Of_WebhookSecret (OfflinePush c) :: Na_Secret (AC_Native (AuthCfg c)) :: In_Secret (InternalCfg c) ::
  In_Secrets (InternalCfg c) ++ Ej_Secrets (AC_ExternalJwt (AuthCfg c)).

(** What is logged holds no secret, only whether one is set. *)
Lemma Redacted_hides c : secrets_of (Redacted c) = map mask (secrets_of c).
Proof. unfold secrets_of, Redacted. simpl. by rewrite map_app. Qed.

Lemma Redacted_idem c : Redacted (Redacted c) = Redacted c.
Proof.
  assert (∀ l, map mask (map mask l) = map mask l) as E by (intros l; rewrite map_map; apply map_ext, mask_idem).
  unfold Redacted. simpl. by rewrite !E, !mask_idem.
Qed.

(** ** A server that starts *)

Definition demoConfig (hours : Z) : NexoConfig :=
  let d := Default "n1" in
  mkNexo (NodeId d) (Server d) (mkDbConfig "postgres" "sqlc" "postgres://nexo" 30 false) (Redis d) (BusCfg d) (OnlineCfg d) (CacheCfg d) (OfflinePush d)
    (mkAuthConfig ["native"; "external_jwt"] false 5 (mkExternalJwt ["0123456789abcdef0123456789abcdef"] "user")
       (mkNativeAuth "fedcba9876543210fedcba9876543210" hours)) (InternalCfg d) (Ws d) (LimitsCfg d) (LogCfg d)%string.

#[local] Instance demoConfigLib : ConfigLib := { ParseCIDR _ := None; ParseDSN _ := None }.

Example demo_valid : Validate (demoConfig 168) = None.
Proof. vm_compute. reflexivity. Qed.

(** The defaults alone lack a data source and a secret. *)
Example default_problems : Validate (Default "n1") = Some [VDsn; VNativeEmpty].
Proof. vm_compute. reflexivity. Qed.

(** No upper bound is checked for the life of native tokens: 2562048 hours do not fit a [time.Duration], and the product with [time.Hour] is negative. *)
Example hours_overflow : Validate (demoConfig 2562048) = None ∧ i64 (Na_ExpireHours (AC_Native (AuthCfg (demoConfig 2562048))) * (3600 * Second)) < 0.
Proof. split; vm_compute; reflexivity. Qed.
