(* ===== verification/AccessLog.v ===== *)
(** * Tracing and the access log ([internal/api/middleware], [internal/api/server.go])

    The trace id a request gets, the line the access log writes for it, and the paths whose bodies are kept out of it. The span ids of
    OpenTelemetry are a class parameter, and random ids arguments. *)

From S2P Require Import Prelude Errcode Strconv Identity Json Store PgStore Conc RateLimit World Cache Sha256 Auth Http NexoConfig.

Local Open Scope Z_scope.

(** ** Strings and paths of the standard library *)

(** [strings.Split] on one byte. *)
Fixpoint Split (s : string) (sep : ascii) : list string :=
  match s with
  | String.EmptyString => [""%string]
  | String.String c s' =>
      if bool_decide (c = sep) then ""%string :: Split s' sep
      else match Split s' sep with [] => [String.String c ""] | x :: xs => String.String c x :: xs end
  end.

(** [path.Clean] on a rooted path, as the elements between the slashes: empty ones and dots go, a double dot takes the element before it. *)
Definition clean_step (acc : list string) (x : string) : list string :=
  if (x =? "")%string || (x =? ".")%string then acc else if (x =? "..")%string then tl acc else x :: acc.

Definition clean (p : string) : list string := rev (foldl clean_step [] (Split p "/"%char)).

Definition rooted (xs : list string) : string := match xs with [] => "/" | _ => String.concat "" (map (λ x, String.String "/" x) xs) end.

(** [path.Join("/", prefix, p)]: empty elements are dropped before the others are joined. *)
Definition pathJoin (prefix p : string) : string :=
  rooted (clean (String.concat "/" (filter (λ x, x ≠ ""%string) ["/"; prefix; p]%string))).

(** ** Paths that are redacted and skipped ([server.go]) *)

(** [lo.Uniq]: the first of equal elements. *)
Fixpoint Uniq (seen l : list string) : list string :=
  match l with [] => [] | x :: l => if in_list x seen then Uniq seen l else x :: Uniq (x :: seen) l end.

Definition mountPaths (prefix : string) (paths : list string) : list string := Uniq [] (map (pathJoin prefix) paths).

Definition secretPaths : list string := ["/api/v1/auth/login"; "/api/v1/auth/register"; "/api/v1/message/send"; "/api/v1/internal/message/send"]%string.

Record AccessLog := mkAccessLog { Al_Redact : list string; Al_Skip : list string; Al_Body : bool }.

(** The logger [Register] installs. *)
Definition accessLog (prefix : string) (cfg : LogConfig) : AccessLog :=
  mkAccessLog (mountPaths prefix (secretPaths ++ Lo_RedactPaths cfg)) (mountPaths prefix (Lo_SkipPaths cfg)) (Lo_RequestBody cfg).

(** ** The access log ([logger.go]) *)

Definition maxLoggedBody : nat := 512.

(** What is read of a request that was handled. *)
Record Handled := mkHandled {
  hd_Method : string; hd_Path : string; hd_Status : Z; hd_Code : Z; hd_UserId : string; hd_ClientIP : string; hd_Cost : Z; hd_Body : string }.

(** The fields of a line. *)
Record LogLine := mkLogLine {
  ll_Method : string; ll_Path : string; ll_Status : Z; ll_Code : Z; ll_UserId : string; ll_ClientIP : string; ll_Cost : Z; ll_BodyLen : nat; ll_Body : string }.

(** [ProcessLogger] after the handlers. *)
Definition ProcessLogger (cfg : AccessLog) (c : Handled) : option LogLine :=
  let path := hd_Path c in
  if in_list path (Al_Skip cfg) then None
  else
    let n := String.length (hd_Body c) in
    let body := if Al_Body cfg && (0 <? n)%nat && negb (in_list path (Al_Redact cfg)) then slice_to (hd_Body c) (Nat.min n maxLoggedBody) else ""%string in
    Some (mkLogLine (hd_Method c) path (hd_Status c) (hd_Code c) (hd_UserId c) (hd_ClientIP c) (hd_Cost c) n body).

(** ** Tracing ([trace.go]) *)

Definition TraceHeader : string := "Trace-Id".

(** Ids of OpenTelemetry: read from and printed as lower-case hexadecimal, valid when not zero. *)
Class Otel := {
  TraceID : Type;
  SpanID : Type;
  noTrace : TraceID;
  noSpan : SpanID;
  TraceIDFromHex : string → option TraceID;
  SpanIDFromHex : string → option SpanID;
  TraceID_String : TraceID → string;
  TraceID_IsValid : TraceID → bool;
  SpanID_IsValid : SpanID → bool;
  noTrace_invalid : TraceID_IsValid noTrace = false;
  TraceIDFromHex_valid s t : TraceIDFromHex s = Some t → TraceID_IsValid t = true ∧ TraceID_String t = s;
  SpanIDFromHex_valid s x : SpanIDFromHex s = Some x → SpanID_IsValid x = true }.

Section Trace.
Context `{OT : Otel}.

Record SpanContext := mkSpanContext { sc_TraceID : TraceID; sc_SpanID : SpanID; sc_Flags : Z; sc_Remote : bool }.

Definition sc_IsValid (sc : SpanContext) : bool := TraceID_IsValid (sc_TraceID sc) && SpanID_IsValid (sc_SpanID sc).

(** [hex.DecodeString] when it gives one byte. *)
Definition hexByte (s : string) : option Z :=
  match to_list s with
  | [a; b] => match hex_val (byte_Z a), hex_val (byte_Z b) with Some x, Some y => Some (16 * x + y) | _, _ => None end
  | _ => None
  end.

Definition traceparent (s : string) : option SpanContext :=
  match Split s "-"%char with
  | [version; t; sp; flags] =>
      if (version =? "00")%string then
        match TraceIDFromHex t, SpanIDFromHex sp with
        | Some tid, Some sid => Some (mkSpanContext tid sid (default 0 (hexByte flags)) true)
        | _, _ => None
        end
      else None
  | _ => None
  end.

(** [inboundSpan]: the two headers, and a random span id. *)
Definition inboundSpan (parent traceId : string) (sid : SpanID) : SpanContext :=
  match traceparent parent with
  | Some sc => sc
  | None =>
      match TraceIDFromHex traceId with
      | Some tid => mkSpanContext tid sid 0 true
      | None => mkSpanContext noTrace noSpan 0 false
      end
  end.

(** [Trace]: the span of the request, and the id echoed in [Trace-Id]. *)
Definition Trace (parent traceId : string) (sid : SpanID) (newTid : TraceID) (newSid : SpanID) : SpanContext * string :=
  let sc := inboundSpan parent traceId sid in
  let sc := if sc_IsValid sc then sc else mkSpanContext newTid newSid 0 false in
  (sc, TraceID_String (sc_TraceID sc)).

(** [TraceIdFrom], on the span of the context. *)
Definition TraceIdFrom (sc : SpanContext) : string := if TraceID_IsValid (sc_TraceID sc) then TraceID_String (sc_TraceID sc) else "".

(** Every request has a valid span; the id it was sent with is kept and echoed, a [traceparent] first, with its span and flags. *)
Lemma Trace_adopts parent traceId sid newTid newSid :
  SpanID_IsValid sid = true → TraceID_IsValid newTid = true → SpanID_IsValid newSid = true →
  let '(sc, echoed) := Trace parent traceId sid newTid newSid in
  sc_IsValid sc = true ∧ echoed = TraceIdFrom sc ∧
  match traceparent parent with
  | Some p => sc = p
  | None => is_Some (TraceIDFromHex traceId) → echoed = traceId ∧ sc_SpanID sc = sid
  end.
Proof.
  intros Hs Ht Hn. unfold Trace, inboundSpan, TraceIdFrom.
  assert (∀ p, traceparent parent = Some p → sc_IsValid p = true) as Hp.
  { intros p. unfold traceparent. destruct (Split _ _) as [|v [|t [|x [|f []]]]]; try done. destruct (v =? "00")%string; [|done].
    destruct (TraceIDFromHex t) eqn:Et; [|done]. destruct (SpanIDFromHex x) eqn:Ex; [|done]. intros [= <-]. unfold sc_IsValid. simpl.
    apply TraceIDFromHex_valid in Et as [-> _]. by apply SpanIDFromHex_valid in Ex as ->. }
  destruct (traceparent parent) as [p|].
  - rewrite (Hp p eq_refl). specialize (Hp p eq_refl). unfold sc_IsValid in Hp. apply andb_true_iff in Hp as [Hp1 Hp2]. unfold sc_IsValid. by rewrite Hp1, Hp2.
  - destruct (TraceIDFromHex traceId) as [tid|] eqn:Et; unfold sc_IsValid; simpl.
    + apply TraceIDFromHex_valid in Et as [Ev Es]. rewrite Ev, Hs. simpl. rewrite Ev, Hs. by rewrite <- Es.
    + rewrite noTrace_invalid. simpl. rewrite Ht, Hn. split_and!; [done..|]. by intros [].
Qed.
End Trace.

(** ** What the access log shows *)

Lemma Uniq_elem x l : ∀ seen, x ∈ Uniq seen l ↔ x ∈ l ∧ x ∉ seen.
Proof.
  induction l as [|y l IH]; intros seen; simpl; [set_solver|]. unfold in_list. case_bool_decide as Hy; rewrite ?elem_of_cons, IH; [set_solver|].
  rewrite not_elem_of_cons. destruct (decide (x = y)) as [->|]; set_solver.
Qed.

Lemma mountPaths_elem prefix ps x : x ∈ mountPaths prefix ps ↔ ∃ p, p ∈ ps ∧ x = pathJoin prefix p.
Proof.
  unfold mountPaths. rewrite Uniq_elem. rewrite list_elem_of_fmap. split; [intros [(p & -> & Hp) _]; eauto|intros (p & Hp & ->); split; [eauto|by intros ?%not_elem_of_nil]].
Qed.

(** Wherever the API is mounted and whatever is configured, the bodies of logins, registrations and sends are not in the access log. *)
Lemma secrets_not_logged prefix cfg p c line :
  p ∈ secretPaths → hd_Path c = pathJoin prefix p → ProcessLogger (accessLog prefix cfg) c = Some line → ll_Body line = ""%string.
Proof.
  intros Hp Hc. unfold ProcessLogger. destruct (in_list _ _); [done|].
  assert (in_list (hd_Path c) (Al_Redact (accessLog prefix cfg)) = true) as ->.
  { unfold in_list. apply bool_decide_eq_true_2, mountPaths_elem. exists p. split; [apply elem_of_app; by left|done]. }
  rewrite andb_false_r. by intros [= <-].
Qed.

(** A body is logged only when that is configured, and then at most its first 512 bytes. *)
Lemma logged_body cfg c line :
  ProcessLogger cfg c = Some line → ll_BodyLen line = String.length (hd_Body c) ∧
  ll_Body line = if Al_Body cfg && negb (in_list (hd_Path c) (Al_Redact cfg)) then slice_to (hd_Body c) (Nat.min (String.length (hd_Body c)) maxLoggedBody) else ""%string.
Proof.
  unfold ProcessLogger. destruct (in_list (hd_Path c) (Al_Skip cfg)); [done|]. intros [= <-]. split; [done|]. simpl. destruct (Al_Body cfg); [|done].
  destruct (Nat.ltb_spec 0 (String.length (hd_Body c))) as [|Hz]; [done|]. destruct (hd_Body c); [|simpl in Hz; lia]. by destruct (negb _).
Qed.

Example mounted :
  map (pathJoin "/im/") secretPaths = ["/im/api/v1/auth/login"; "/im/api/v1/auth/register"; "/im/api/v1/message/send"; "/im/api/v1/internal/message/send"]%string ∧
  pathJoin "" "/healthz" = "/healthz"%string ∧ pathJoin "a/./b/../c" "//x/" = "/a/c/x"%string ∧ pathJoin "" "" = "/"%string.
Proof. split_and!; vm_compute; reflexivity. Qed.
