(* ===== verification/GormStore.v ===== *)
(** * The GORM store ([internal/store/gormstore])

    The second driver of [store.Store], for MySQL and PostgreSQL. GORM is a library: a [DB] is a record of the calls the driver
    makes, with the conditions and assignments of a statement as functions on rows, and [GormLaws] states what GORM and the database
    document about them. The dialects differ in what they count: MySQL reports the rows an UPDATE changed and PostgreSQL those it
    matched, and with CLIENT_FOUND_ROWS MySQL counts a row that ON DUPLICATE KEY UPDATE left as it is. *)

From S2P Require Import NexoConfig.
From S2P Require Import Prelude Errcode Strconv Store PgStore.

Local Open Scope Z_scope.

(** ** Tables

    A model names a table: its rows, the rows that share a primary or unique key, and the three ways a statement changes it. *)

Class Model (R : Type) := {
  scan : Db → list R;
  unique : R → R → bool;
  append : R → Db → Db;
  update_rows : (R → R) → Db → Db;
  discard : (R → bool) → Db → Db }.

(** A table kept as a map from its primary key, its only unique key. *)
Definition table {K R} `{Countable K} (get : Db → gmap K R) (put : Db → gmap K R → Db) (key_of : R → K) : Model R := {|
  scan d := rows (get d);
  unique a b := bool_decide (key_of a = key_of b);
  append r d := put d (<[key_of r := r]> (get d));
  update_rows f d := put d (f <$> get d);
  discard p d := put d (filter (λ kr, p kr.2 = false) (get d)) |}.

#[export] Instance model_User : Model User := table users with_users User_Id.

#[export] Instance model_Group : Model Group := table groups with_groups Group_Id.

#[export] Instance model_GroupMember : Model GroupMember := table members with_members (λ m, (GM_GroupId m, GM_UserId m)).

#[export] Instance model_Conversation : Model Conversation := table convs with_convs Conv_ConversationId.

#[export] Instance model_UserConversation : Model UserConversation :=
  table userConvs with_userConvs (λ uc, (UC_OwnerId uc, UC_ConversationId uc)).

#[export] Instance model_OnlineConn : Model OnlineConn := table online with_online OC_ConnId.

(** Three unique keys: the primary key, the server id and the client id of a sender. *)
#[export] Instance model_Message : Model Message := {|
  scan := messages;
  unique := Gen.conflicts;
  append m d := with_messages d (messages d ++ [m]);
  update_rows f d := with_messages d (map f (messages d));
  discard p d := with_messages d (keep (λ m, negb (p m)) (messages d)) |}.

(** ** The library *)

(** [clause.OnConflict]: without one, with [DoNothing], or with [DoUpdates]: the row that replaces the current one. *)
Inductive OnConflict (R : Type) : Type :=
| Refuse
| DoNothing
| DoUpdates (f : R → R → R).
Arguments Refuse {R}.
Arguments DoNothing {R}.
Arguments DoUpdates {R} f.

(** The calls of [gorm.G[R]]: what the statement reads ([from]), its condition, its ORDER BY and LIMIT; the numbers are the rows
    affected. *)
Record DB := mkDB {
  db_Find : ∀ {R}, (Db → list R) → (R → bool) → (R → R → bool) → option Z → Op (list R);
  db_First : ∀ {R}, (Db → list R) → (R → bool) → Op R;
  db_Count : ∀ {R}, (Db → list R) → (R → bool) → Op Z;
  db_Create : ∀ {R}, Model R → OnConflict R → R → Op Z;
  db_CreateInBatches : ∀ {R}, Model R → list R → Z → Op Z;
  db_Update : ∀ {R}, Model R → (R → bool) → (R → R) → Op Z;
  db_Delete : ∀ {R}, Model R → (R → bool) → Op Z }.

(** [Limit(n)]: a negative number means no limit. *)
Definition cut {A} (limit : option Z) (l : list A) : list A :=
  match limit with Some n => if n <? 0 then l else take (Z.to_nat n) l | None => l end.

(** Rows inserted one after the other, [None] when one violates a unique key. *)
Fixpoint insert_all {R} `{Model R} (rs : list R) (d : Db) : option Db :=
  match rs with
  | [] => Some d
  | r :: rs' => if existsb (unique r) (scan d) then None else insert_all rs' (append r d)
  end.

Record GormLaws (foundRows : bool) (db : DB) : Prop := {
  find_rows {R} (from : Db → list R) p leb limit d :
    Total (λ x y, Is_true (leb x y)) → Transitive (λ x y, Is_true (leb x y)) →
    ∃ l, l ≡ₚ keep p (from d) ∧ Sorted (λ x y, Is_true (leb x y)) l ∧ db_Find db from p leb limit d = (Ok (cut limit l), d);
  first_row {R} (from : Db → list R) p d :
    (∃ r, r ∈ keep p (from d) ∧ db_First db from p d = (Ok r, d)) ∨
    keep p (from d) = [] ∧ db_First db from p d = (Err (ESentinel gorm_ErrRecordNotFound), d);
  count_rows {R} (from : Db → list R) p d : db_Count db from p d = (Ok (Z.of_nat (length (keep p (from d)))), d);
  create_new {R} (M : Model R) oc r d : existsb (unique r) (scan d) = false → db_Create db M oc r d = (Ok 1, append r d);
  create_refused {R} (M : Model R) r d :
    existsb (unique r) (scan d) = true → db_Create db M Refuse r d = (Err (ESentinel gorm_ErrDuplicatedKey), d);
  create_nothing {R} (M : Model R) r d :
    existsb (unique r) (scan d) = true → db_Create db M DoNothing r d = (Ok (if foundRows then 1 else 0), d);
  create_update {R} (M : Model R) f r d :
    existsb (unique r) (scan d) = true →
    ∃ n, db_Create db M (DoUpdates f) r d = (Ok n, update_rows (λ cur, if unique r cur then f r cur else cur) d);
  create_batches {R} (M : Model R) rs size d :
    0 < size → db_CreateInBatches db M rs size d =
      match insert_all rs d with
      | Some d' => (Ok (Z.of_nat (length rs)), d')
      | None => (Err (ESentinel gorm_ErrDuplicatedKey), d)
      end;
  update_matched {R} (M : Model R) p f d :
    ∃ n, 0 ≤ n ≤ Z.of_nat (length (keep p (scan d))) ∧
      db_Update db M p f d = (Ok n, update_rows (λ r, if p r then f r else r) d);
  delete_matched {R} (M : Model R) p d : db_Delete db M p d = (Ok (Z.of_nat (length (keep p (scan d)))), discard p d) }.

(** [DB.Transaction]: the callback gets a connection of its own; its error rolls back. *)
Class GormTx := {
  Transaction : DB → (DB → Op unit) → Op unit;
  transaction_runs db fn d :
    ∃ tx, Transaction db fn d = match fn tx d with (Ok _, d') => (Ok tt, d') | (Err e, _) => (Err e, d) end }.

(** ** The store *)

Record GormStore := mkGorm { gs_db : DB; gs_shared : bool; gs_inTx : bool }.

Module Gorm.

Inductive Dialector : Set := mysql_Open (dsn : string) | postgres_Open (dsn : string).

(** [gorm.Open] with the one setting the store relies on. A MySQL connection scans times only with [parseTime]. *)
Class GormOpen `{CL : ConfigLib} := {
  gorm_Open : Dialector → bool → result DB;
  open_postgres dsn db : gorm_Open (postgres_Open dsn) true = Ok db → GormLaws false db;
  open_mysql dsn db p :
    gorm_Open (mysql_Open dsn) true = Ok db → ParseDSN dsn = Some p → Dsn_ParseTime p = true → GormLaws (Dsn_ClientFoundRows p) db }.

Definition checkMysqlDsn `{CL : ConfigLib} (dsn : string) : err :=
  match ParseDSN dsn with
  | None => Some (EWrap "gormstore: mysql dsn" (EOther "invalid DSN"))
  | Some cfg =>
      if Dsn_ClientFoundRows cfg
      then Some (EOther "gormstore: mysql dsn sets clientFoundRows, which makes duplicate messages look inserted; remove it")
      else if negb (Dsn_ParseTime cfg) then Some (EOther "gormstore: mysql dsn must set parseTime=true, or every datetime(3) scan fails")
      else None
  end.

Definition New `{GO : GormOpen} (driver dsn : string) : result GormStore :=
  match (if (driver =? "mysql")%string then checkMysqlDsn dsn else None) with
  | Some e => Err e
  | None =>
      let dialector := Ternary (driver =? "mysql")%string (mysql_Open dsn) (postgres_Open dsn) in
      match gorm_Open dialector true with
      | Err e => Err (EWrap "gormstore" e)
      | Ok db => Ok (mkGorm db false false)
      end
  end.

Definition FromDb (db : DB) : GormStore := mkGorm db true false.

(** [Close]: whether the connection is closed. *)
Definition Close (s : GormStore) : bool := negb (gs_shared s).

Definition wrap (e : error) : error :=
  if Is e gorm_ErrRecordNotFound then ESentinel store_ErrNotFound
  else if Is e gorm_ErrDuplicatedKey then ESentinel store_ErrDuplicate
  else e.

Definition wrapped {A B} (k : A → B) (r : result A * Db) : result B * Db :=
  match r with (Ok a, d) => (Ok (k a), d) | (Err e, d) => (Err (wrap e), d) end.

Section Store.
Variable s : GormStore.

Abbreviation db := (gs_db s).

Definition WithTx `{GT : GormTx} (fn : GormStore → Op unit) : Op unit := λ d,
  if gs_inTx s then (Err (ESentinel store_ErrNestedTx), d)
  else Transaction db (λ tx, fn (mkGorm tx true true)) d.

(** [Find] without ORDER BY. *)
Definition Find {R} `{Model R} (p : R → bool) : Op (list R) := db_Find db scan p (λ _ _, true) None.

Definition GetUser (id : string) : Op User := λ d, wrapped (λ u, u) (db_First db scan (λ u, (User_Id u =? id)%string) d).

Definition GetUsers (ids : list string) : Op (list User) := λ d, wrapped (λ rs, rs) (Find (λ u, in_list (User_Id u) ids) d).

Definition GetUserByUsername (username : string) : Op User := λ d,
  wrapped (λ u, u) (db_First db scan (λ u, (User_Username u =? username)%string) d).

Definition CreateUser (u : User) : Op unit := λ d, wrapped (λ _, tt) (db_Create db model_User Refuse u d).

(** The assignments: [updated_at], then the columns that are given. *)
Definition set_profile (nickname avatar extra : option string) (now : Z) (u : User) : User :=
  mkUser (User_Id u) (User_Username u) (User_PasswordHash u) (default (User_Nickname u) nickname) (default (User_Avatar u) avatar)
    (default (User_Extra u) extra) (User_CreatedAt u) now.

Definition UpdateUserProfile (id : string) (nickname avatar extra : option string) (now : Z) : Op unit := λ d,
  match db_Update db model_User (λ u, (User_Id u =? id)%string) (set_profile nickname avatar extra now) d with
  | (Ok n, d') => if n =? 0 then wrapped (λ _, tt) (GetUser id d') else (Ok tt, d')
  | (Err e, d') => (Err (wrap e), d')
  end.

Definition UpsertUser (u : User) : Op unit := λ d,
  let row := mkUser (User_Id u) "" "" (User_Nickname u) (User_Avatar u) (User_Extra u) (User_UpdatedAt u) (User_UpdatedAt u) in
  wrapped (λ _, tt) (db_Create db model_User (DoUpdates (λ new cur,
    mkUser (User_Id cur) (User_Username cur) (User_PasswordHash cur) (User_Nickname new) (User_Avatar new) (User_Extra new)
      (User_CreatedAt cur) (User_UpdatedAt new))) row d).

Definition batchSize : Z := 100.

Definition CreateGroup (g : Group) (ms : list GroupMember) : Op unit := λ d,
  match db_Create db model_Group Refuse g d with
  | (Err e, d1) => (Err (wrap e), d1)
  | (Ok _, d1) =>
      if (length ms =? 0)%nat then (Ok tt, d1)
      else wrapped (λ _, tt) (db_CreateInBatches db model_GroupMember ms batchSize d1)
  end.

Definition GetGroup (id : string) : Op Group := λ d, wrapped (λ g, g) (db_First db scan (λ g, (Group_Id g =? id)%string) d).

Definition AddGroupMember (m : GroupMember) : Op unit := λ d, wrapped (λ _, tt) (db_Create db model_GroupMember Refuse m d).

(** [group_id = ? AND user_id = ?]. *)
Definition member_is (groupId userId : string) (m : GroupMember) : bool :=
  (GM_GroupId m =? groupId)%string && (GM_UserId m =? userId)%string.

Definition RemoveGroupMember (groupId userId : string) : Op bool := λ d,
  wrapped (λ n, 0 <? n) (db_Delete db model_GroupMember (member_is groupId userId) d).

Definition GetGroupMember (groupId userId : string) : Op GroupMember := λ d,
  wrapped (λ m, m) (db_First db scan (member_is groupId userId) d).

Definition ListGroupMembers (groupId : string) : Op (list GroupMember) := λ d,
  wrapped (λ rs, rs) (db_Find db scan (λ m, (GM_GroupId m =? groupId)%string) member_leb None d).

Definition CountGroupMembers (groupId : string) : Op Z := λ d,
  wrapped (λ n, n) (db_Count db scan (λ m, (GM_GroupId m =? groupId)%string) d).

Definition ListUserGroupIds (userId : string) : Op (list string) := λ d,
  wrapped (map GM_GroupId) (db_Find db scan (λ m, (GM_UserId m =? userId)%string) (λ a b, GM_JoinedAt a <=? GM_JoinedAt b) None d).

Definition LockConversation (id : string) (typ : Z) (groupId : string) (now : Z) : Op Conversation := λ d,
  match db_Create db model_Conversation DoNothing (mkConversation id typ groupId 0 now now) d with
  | (Err e, d1) => (Err (wrap e), d1)
  | (Ok _, d1) => wrapped (λ c, c) (db_First db scan (λ c, (Conv_ConversationId c =? id)%string) d1)
  end.

(** [owner_id = ? AND conversation_id = ?]. *)
Definition uc_is (ownerId conversationId : string) (uc : UserConversation) : bool :=
  (UC_OwnerId uc =? ownerId)%string && (UC_ConversationId uc =? conversationId)%string.

Definition GetUserConversation (ownerId conversationId : string) : Op UserConversation := λ d,
  wrapped (λ uc, uc) (db_First db scan (uc_is ownerId conversationId) d).

(** The join [userConversationRows] reads, and its condition on the owner. *)
Definition from_rows (d : Db) : list UserConversationRow := flat_map (Gen.joined d) (rows (userConvs d)).

Definition row_of (ownerId : string) (r : UserConversationRow) : bool := (UC_OwnerId (Row_UC r) =? ownerId)%string.

Definition GetUserConversationRow (ownerId conversationId : string) : Op UserConversationRow := λ d,
  wrapped (λ r, r)
    (db_First db from_rows (λ r, row_of ownerId r && (UC_ConversationId (Row_UC r) =? conversationId)%string) d).

Definition UpsertUserConversation (uc : UserConversation) : Op unit := λ d,
  wrapped (λ _, tt) (db_Create db model_UserConversation (DoUpdates (λ new cur,
    UC_set_seqs cur (UC_MinSeq new) (UC_MaxSeq new) (UC_ReadSeq new) (UC_UpdatedAt new))) (UC_set_CreatedAt uc (UC_UpdatedAt uc)) d).

Definition SetUserConversationMaxSeq (ownerId conversationId : string) (maxSeq : Z) : Op unit := λ d,
  wrapped (λ _, tt) (db_Update db model_UserConversation (uc_is ownerId conversationId) (λ uc, UC_set_MaxSeq uc maxSeq) d).

Definition DeleteUserConversation (ownerId conversationId : string) : Op unit := λ d,
  wrapped (λ _, tt) (db_Delete db model_UserConversation (uc_is ownerId conversationId) d).

Definition VisibleOwners (conversationId : string) (ownerIds : list string) (seq : Z) : Op (list string) := λ d,
  if (length ownerIds =? 0)%nat then (Ok [], d)
  else wrapped (map UC_OwnerId) (Find (λ uc,
    (UC_ConversationId uc =? conversationId)%string && in_list (UC_OwnerId uc) ownerIds
    && (UC_MinSeq uc <=? seq) && ((UC_MaxSeq uc =? 0) || (seq <=? UC_MaxSeq uc))) d).

Definition MutedOwners (conversationId : string) (ownerIds : list string) : Op (list string) := λ d,
  if (length ownerIds =? 0)%nat then (Ok [], d)
  else wrapped (map UC_OwnerId) (Find (λ uc,
    (UC_ConversationId uc =? conversationId)%string && in_list (UC_OwnerId uc) ownerIds && negb (UC_RecvMsgOpt uc =? 0)) d).

Definition GetConversation (id : string) : Op Conversation := λ d,
  wrapped (λ c, c) (db_First db scan (λ c, (Conv_ConversationId c =? id)%string) d).

Definition SetUserConversationOpt (ownerId conversationId : string) (recvMsgOpt : option Z) (isPinned : option bool) : Op unit := λ d,
  match recvMsgOpt, isPinned with
  | None, None =>
      match GetUserConversation ownerId conversationId d with (Ok _, d') => (Ok tt, d') | (Err e, d') => (Err e, d') end
  | _, _ =>
      match db_Update db model_UserConversation (uc_is ownerId conversationId)
              (λ uc, UC_set_opt uc (default (UC_RecvMsgOpt uc) recvMsgOpt) (default (UC_IsPinned uc) isPinned)) d with
      | (Ok n, d') => if n =? 0 then wrapped (λ _, tt) (GetUserConversation ownerId conversationId d') else (Ok tt, d')
      | (Err e, d') => (Err (wrap e), d')
      end
  end.

Definition CreateUserConversations (ucs : list UserConversation) : Op unit := λ d,
  if (length ucs =? 0)%nat then (Ok tt, d)
  else wrapped (λ _, tt) (db_CreateInBatches db model_UserConversation (map (λ uc, UC_set_CreatedAt uc (UC_UpdatedAt uc)) ucs) 200 d).

Definition GetMessageByClientId (conversationId senderId clientMsgId : string) : Op Message := λ d,
  wrapped (λ m, m) (db_First db scan (λ m, (Msg_ConversationId m =? conversationId)%string && (Msg_SenderId m =? senderId)%string
    && (Msg_ClientMsgId m =? clientMsgId)%string) d).

Definition InsertMessage (m : Message) : Op bool := λ d, wrapped (λ n, 0 <? n) (db_Create db model_Message DoNothing m d).

Definition SetConversationMaxSeq (conversationId : string) (maxSeq now : Z) : Op unit := λ d,
  wrapped (λ _, tt) (db_Update db model_Conversation (λ c, (Conv_ConversationId c =? conversationId)%string) (λ c,
    mkConversation (Conv_ConversationId c) (Conv_Type c) (Conv_GroupId c) maxSeq (Conv_CreatedAt c) now) d).

Definition ListMessages (conversationId : string) (beginSeq endSeq limit : Z) : Op (list Message) := λ d,
  wrapped (λ rs, rs) (db_Find db scan (λ m,
    (Msg_ConversationId m =? conversationId)%string && (beginSeq <=? Msg_Seq m) && (Msg_Seq m <=? endSeq)) seq_leb (Some limit) d).

Definition getMessagesChunk : nat := 500.

(** [(conversation_id, seq) IN ?], one statement per chunk of keys. *)
Fixpoint getChunks (chunks : list (list MessageKey)) : Op (list Message) := λ d,
  match chunks with
  | [] => (Ok [], d)
  | chunk :: rest =>
      match Find (λ m, bool_decide (mkMessageKey (Msg_ConversationId m) (Msg_Seq m) ∈ chunk)) d with
      | (Err e, d') => (Err (wrap e), d')
      | (Ok rs, d') => match getChunks rest d' with (Ok out, d2) => (Ok (rs ++ out), d2) | (Err e, d2) => (Err e, d2) end
      end
  end.

Definition GetMessages (keys : list MessageKey) : Op (list Message) := λ d,
  if (length keys =? 0)%nat then (Ok [], d) else getChunks (Chunk getMessagesChunk keys) d.

Definition TouchUserConversation (uc : UserConversation) (readSeq : Z) : Op unit := λ d,
  let row := mkUC (UC_OwnerId uc) (UC_ConversationId uc) (UC_Type uc) (UC_PeerUserId uc) (UC_GroupId uc)
               1 0 readSeq 0 false "" (UC_UpdatedAt uc) (UC_UpdatedAt uc) in
  wrapped (λ _, tt) (db_Create db model_UserConversation (DoUpdates (λ _ cur,
    UC_set_seqs cur (UC_MinSeq cur) (UC_MaxSeq cur) (GREATEST (UC_ReadSeq cur) readSeq)
      (GREATEST (UC_UpdatedAt cur) (UC_UpdatedAt uc)))) row d).

Definition TouchConversationMembers (conversationId : string) (now : Z) : Op unit := λ d,
  wrapped (λ _, tt) (db_Update db model_UserConversation (λ uc, (UC_ConversationId uc =? conversationId)%string && (UC_MaxSeq uc =? 0))
    (λ uc, UC_set_UpdatedAt uc (GREATEST (UC_UpdatedAt uc) now)) d).

Definition AdvanceReadSeq (ownerId conversationId : string) (readSeq : Z) : Op unit := λ d,
  wrapped (λ _, tt) (db_Update db model_UserConversation (uc_is ownerId conversationId)
    (λ uc, UC_set_ReadSeq uc (GREATEST (UC_ReadSeq uc) readSeq)) d).

Definition ListUserConversations (ownerId : string) (cursor : ListCursor) (limit : Z) : Op (list UserConversationRow) := λ d,
  wrapped (λ rs, rs) (db_Find db from_rows (λ r, row_of ownerId r
    && cursor_ltb (UC_UpdatedAt (Row_UC r)) (UC_ConversationId (Row_UC r)) (LC_UpdatedAt cursor) (LC_ConversationId cursor))
    row_leb (Some limit) d).

Definition UpsertOnlineConn (c : OnlineConn) : Op unit := λ d,
  wrapped (λ _, tt) (db_Create db model_OnlineConn (DoUpdates (λ new cur,
    mkOnlineConn (OC_ConnId cur) (OC_UserId new) (OC_PlatformId new) (OC_NodeId new) (OC_HeartbeatAt new))) c d).

Definition DeleteOnlineConn (connId : string) : Op unit := λ d,
  wrapped (λ _, tt) (db_Delete db model_OnlineConn (λ c, (OC_ConnId c =? connId)%string) d).

Definition RenewOnlineConns (nodeId : string) (connIds : list string) (now : Z) : Op unit := λ d,
  if (length connIds =? 0)%nat then (Ok tt, d)
  else wrapped (λ _, tt) (db_Update db model_OnlineConn (λ c, (OC_NodeId c =? nodeId)%string && in_list (OC_ConnId c) connIds)
    (λ c, mkOnlineConn (OC_ConnId c) (OC_UserId c) (OC_PlatformId c) (OC_NodeId c) now) d).

Definition ListOnlineConns (userIds : list string) (since : Z) : Op (list OnlineConn) := λ d,
  if (length userIds =? 0)%nat then (Ok [], d)
  else wrapped (λ rs, rs) (Find (λ c, in_list (OC_UserId c) userIds && (since <? OC_HeartbeatAt c)) d).

Definition DeleteOnlineConnsByNode (nodeId : string) : Op unit := λ d,
  wrapped (λ _, tt) (db_Delete db model_OnlineConn (λ c, (OC_NodeId c =? nodeId)%string) d).
End Store.

End Gorm.
