(* ===== verification/GormThms.v ===== *)
(** * The GORM store agrees with the PostgreSQL store

    Over every connection [New] opens, on MySQL or PostgreSQL, each method of the GORM driver leaves the tables of the PostgreSQL
    driver and gives its answer, and so does every sequence of calls. *)

From S2P Require Import NexoConfig.
From S2P Require Import Prelude Errcode Strconv Identity Json Store PgStore Conv DbInv Conc RateLimit MemberCache World ConvPage MessageSvc History WorldInv MessageInv Paging MemStore MemThms GormStore.

Local Open Scope Z_scope.

Definition gorm {A} (s : GormStore) (o : StoreOp A) : Op A :=
  match o with
  | OGetUser id => Gorm.GetUser s id
  | OGetUsers ids => Gorm.GetUsers s ids
  | OGetUserByUsername n => Gorm.GetUserByUsername s n
  | OCreateUser u => Gorm.CreateUser s u
  | OUpdateUserProfile id n a e now => Gorm.UpdateUserProfile s id n a e now
  | OUpsertUser u => Gorm.UpsertUser s u
  | OCreateGroup g ms => Gorm.CreateGroup s g ms
  | OGetGroup id => Gorm.GetGroup s id
  | OAddGroupMember m => Gorm.AddGroupMember s m
  | ORemoveGroupMember g u => Gorm.RemoveGroupMember s g u
  | OGetGroupMember g u => Gorm.GetGroupMember s g u
  | OListGroupMembers g => Gorm.ListGroupMembers s g
  | OCountGroupMembers g => Gorm.CountGroupMembers s g
  | OListUserGroupIds u => Gorm.ListUserGroupIds s u
  | OLockConversation id t g now => Gorm.LockConversation s id t g now
  | OGetConversation id => Gorm.GetConversation s id
  | OGetUserConversation o c => Gorm.GetUserConversation s o c
  | OGetUserConversationRow o c => Gorm.GetUserConversationRow s o c
  | OUpsertUserConversation uc => Gorm.UpsertUserConversation s uc
  | ODeleteUserConversation o c => Gorm.DeleteUserConversation s o c
  | OVisibleOwners c ids n => Gorm.VisibleOwners s c ids n
  | OMutedOwners c ids => Gorm.MutedOwners s c ids
  | OSetUserConversationMaxSeq o c n => Gorm.SetUserConversationMaxSeq s o c n
  | OSetUserConversationOpt o c opt pin => Gorm.SetUserConversationOpt s o c opt pin
  | OCreateUserConversations ucs => Gorm.CreateUserConversations s ucs
  | OGetMessageByClientId c u m => Gorm.GetMessageByClientId s c u m
  | OInsertMessage m => Gorm.InsertMessage s m
  | OSetConversationMaxSeq c n now => Gorm.SetConversationMaxSeq s c n now
  | OListMessages c b e l => Gorm.ListMessages s c b e l
  | OGetMessages ks => Gorm.GetMessages s ks
  | OTouchUserConversation uc n => Gorm.TouchUserConversation s uc n
  | OTouchConversationMembers c now => Gorm.TouchConversationMembers s c now
  | OAdvanceReadSeq o c n => Gorm.AdvanceReadSeq s o c n
  | OListUserConversations o cur l => Gorm.ListUserConversations s o cur l
  | OUpsertOnlineConn c => Gorm.UpsertOnlineConn s c
  | ODeleteOnlineConn id => Gorm.DeleteOnlineConn s id
  | ORenewOnlineConns nd ids now => Gorm.RenewOnlineConns s nd ids now
  | OListOnlineConns ids since => Gorm.ListOnlineConns s ids since
  | ODeleteOnlineConnsByNode nd => Gorm.DeleteOnlineConnsByNode s nd
  end.

(** Rows of every table are stored under their keys, and the client ids of messages are a key. *)
Record tables_wf (d : Db) : Prop := {
  tw_store : store_wf d;
  tw_groups : keyed Group_Id (groups d);
  tw_convs : keyed Conv_ConversationId (convs d);
  tw_online : keyed OC_ConnId (online d);
  tw_client : NoDup (map (λ m, (Msg_ConversationId m, Msg_SenderId m, Msg_ClientMsgId m)) (messages d)) }.

(** ** Statements on a table by its key *)

Section Keyed.
Context {K R} `{Countable K} (key_of : R → K).
Implicit Types m : gmap K R.

Lemma rows_at m p k :
  keyed key_of m → (∀ r, p r = bool_decide (key_of r = k)) →
  keep p (rows m) = match m !! k with Some r => [r] | None => [] end.
Proof.
  intros Hm Hp. assert (∀ r, r ∈ keep p (rows m) ↔ m !! k = Some r) as Hin.
  { intros r. rewrite elem_of_keep, elem_of_rows, Hp, bool_decide_eq_true. split.
    - intros [[k' Hk] <-]. by rewrite (Hm _ _ Hk).
    - intros Hk. eauto. }
  assert (NoDup (keep p (rows m))) as Hnd by (apply keep_NoDup, rows_NoDup; intros i j x <-%Hm <-%Hm; done).
  destruct (m !! k) as [r|] eqn:E.
  - apply Permutation_singleton_r, NoDup_Permutation; [done|apply NoDup_singleton|]. intros x. rewrite Hin, list_elem_of_singleton. naive_solver.
  - destruct (keep p (rows m)) as [|x l]; [done|]. assert (None = Some x) as [=] by (apply Hin; left).
Qed.

Lemma taken m r : keyed key_of m → existsb (λ b, bool_decide (key_of r = key_of b)) (rows m) = bool_decide (is_Some (m !! key_of r)).
Proof.
  intros Hm. apply eq_true_iff_eq. rewrite existsb_exists, bool_decide_eq_true. setoid_rewrite <- list_elem_of_In. setoid_rewrite elem_of_rows. split.
  - intros (b & [k Hk] & E%bool_decide_eq_true). rewrite E, (Hm _ _ Hk). eauto.
  - intros [b Hb]. exists b. split; [eauto|]. apply bool_decide_eq_true. by rewrite (Hm _ _ Hb).
Qed.

Lemma update_at m p k f :
  keyed key_of m → (∀ r, p r = bool_decide (key_of r = k)) → (λ r, if p r then f r else r) <$> m = alter f k m.
Proof.
  intros Hm Hp. apply map_eq. intros j. rewrite lookup_fmap. destruct (decide (j = k)) as [->|Hne].
  - rewrite lookup_alter_eq. destruct (m !! k) as [r|] eqn:E; [|done]. simpl. by rewrite Hp, (Hm _ _ E), bool_decide_eq_true_2.
  - rewrite lookup_alter_ne by done. destruct (m !! j) as [r|] eqn:E; [|done]. simpl. by rewrite Hp, (Hm _ _ E), bool_decide_eq_false_2.
Qed.

Lemma discard_at m p k :
  keyed key_of m → (∀ r, p r = bool_decide (key_of r = k)) → filter (λ kr, p kr.2 = false) m = delete k m.
Proof.
  intros Hm Hp. apply map_eq. intros j. apply option_eq. intros r. rewrite map_lookup_filter_Some, lookup_delete_Some. simpl.
  rewrite Hp, bool_decide_eq_false. split; [intros [E Hne]|intros [Hne E]]; pose proof (Hm _ _ E); split; congruence.
Qed.
End Keyed.

Lemma pair_eqb a b a' b' : ((a =? a')%string && (b =? b')%string) = bool_decide ((a, b) = (a', b')).
Proof. destruct (String.eqb_spec a a'), (String.eqb_spec b b'); symmetry; simpl; apply bool_decide_eq_true || apply bool_decide_eq_false; congruence. Qed.

Lemma str_eqb a a' : (a =? a')%string = bool_decide (a = a').
Proof. destruct (String.eqb_spec a a'); symmetry; simpl; apply bool_decide_eq_true || apply bool_decide_eq_false; congruence. Qed.

(** A sorted permutation is the sorted list when no two rows compare equal. *)
Lemma sorted_is {A} (leb : A → A → bool) `{!Transitive (λ x y, Is_true (leb x y)), !Total (λ x y, Is_true (leb x y))} l l' :
  (∀ x y, x ∈ l' → y ∈ l' → Is_true (leb x y) → Is_true (leb y x) → x = y) →
  l ≡ₚ l' → Sorted (λ x y, Is_true (leb x y)) l → l = sortBy leb l'.
Proof.
  intros Ha Hp Hs. apply (StronglySorted_unique_strong (λ x y, Is_true (leb x y))).
  - intros x y Hx Hy. unfold sortBy in Hy. rewrite merge_sort_Permutation in Hy. rewrite Hp in Hx. by apply Ha.
  - by apply Sorted_StronglySorted.
  - apply StronglySorted_merge_sort; apply _.
  - unfold sortBy. by rewrite merge_sort_Permutation.
Qed.

(** The batches insert what COPY inserts. *)
Lemma insert_members ms : ∀ d, keyed (λ m, (GM_GroupId m, GM_UserId m)) (members d) →
  insert_all ms d = with_members d <$> Gen.copy_members ms (members d).
Proof.
  induction ms as [|m ms IH]; intros d Hm; [by destruct d|]. simpl. rewrite (taken (λ m, (GM_GroupId m, GM_UserId m))) by done.
  destruct (members d !! _); [done|]. rewrite bool_decide_eq_false_2 by (by intros [? ?]). rewrite IH by (simpl; eauto with keyed). by destruct d.
Qed.

Lemma insert_userConvs ucs : ∀ d, keyed (λ uc, (UC_OwnerId uc, UC_ConversationId uc)) (userConvs d) →
  insert_all ucs d = with_userConvs d <$> Gen.copy_userConvs ucs (userConvs d).
Proof.
  induction ucs as [|uc ucs IH]; intros d Hm; [by destruct d|]. simpl. rewrite (taken (λ uc, (UC_OwnerId uc, UC_ConversationId uc))) by done.
  destruct (userConvs d !! _); [done|]. rewrite bool_decide_eq_false_2 by (by intros [? ?]). rewrite IH by (simpl; eauto with keyed). by destruct d.
Qed.

(** One row per key: rows in either list of disjoint keys. *)
Definition key_of_message (m : Message) : MessageKey := mkMessageKey (Msg_ConversationId m) (Msg_Seq m).

Lemma keep_keys_app (a b : list MessageKey) l :
  (∀ k, k ∈ a → k ∉ b) →
  keep (λ m, bool_decide (key_of_message m ∈ a)) l ++ keep (λ m, bool_decide (key_of_message m ∈ b)) l
    ≡ₚ keep (λ m, bool_decide (key_of_message m ∈ a ++ b)) l.
Proof.
  intros Hd. unfold keep. induction l as [|m l IH]; simpl; [done|].
  assert (key_of_message m ∈ a ++ b ↔ key_of_message m ∈ a ∨ key_of_message m ∈ b) as Hm by set_solver. specialize (Hd (key_of_message m)).
  repeat case_bool_decide; simpl; rewrite <- ?IH; try tauto; try done. by rewrite <- Permutation_middle.
Qed.

(** ** The calls, over a connection that counts changed rows *)

Section Agree.
Variable s : GormStore.
Hypothesis L : GormLaws false (gs_db s).

Lemma wrapped_found {A} (o : option A) d :
  Gorm.wrapped (λ r, r) (match o with Some r => Ok r | None => Err (ESentinel gorm_ErrRecordNotFound) end, d) = (wrapq (one o), d).
Proof. by destruct o. Qed.

(** Rows of which at most one satisfies the condition. *)
Lemma first_unique {R} (from : Db → list R) p d :
  (∀ x y, x ∈ keep p (from d) → y ∈ keep p (from d) → x = y) →
  Gorm.wrapped (λ r, r) (db_First (gs_db s) from p d) = (wrapq (one (head (keep p (from d)))), d).
Proof.
  intros Hu. destruct (first_row _ _ L from p d) as [(r & Hr & ->)|[E ->]]; [|by rewrite E].
  destruct (keep p (from d)) as [|x l]; [by apply not_elem_of_nil in Hr|]. simpl. do 2 f_equal. apply Hu; [done|left].
Qed.

Section Table.
Context {K R} `{Countable K} (get : Db → gmap K R) (put : Db → gmap K R → Db) (key_of : R → K).
Variables (d : Db) (p : R → bool) (k : K).
Hypothesis Hm : keyed key_of (get d).
Hypothesis Hp : ∀ r, p r = bool_decide (key_of r = k).

Lemma first_at : Gorm.wrapped (λ r, r) (db_First (gs_db s) (λ d, rows (get d)) p d) = (wrapq (one (get d !! k)), d).
Proof.
  rewrite first_unique; rewrite (rows_at key_of _ p k Hm Hp); [by destruct (get d !! k)|].
  intros x y. destruct (get d !! k); [|by intros ?%not_elem_of_nil]. by intros ->%list_elem_of_singleton ->%list_elem_of_singleton.
Qed.

Lemma update_key f :
  ∃ n, db_Update (gs_db s) (table get put key_of) p f d = (Ok n, put d (alter f k (get d))) ∧ (get d !! k = None → n = 0).
Proof.
  destruct (update_matched _ _ L (table get put key_of) p f d) as (n & Hn & ->). exists n. simpl in *. split; [by rewrite (update_at key_of _ _ k)|].
  intros E. rewrite (rows_at key_of _ p k Hm Hp), E in Hn. simpl in Hn. lia.
Qed.

Lemma delete_key :
  db_Delete (gs_db s) (table get put key_of) p d = (Ok (if get d !! k then 1 else 0), put d (delete k (get d))).
Proof.
  rewrite (delete_matched _ _ L). simpl. rewrite (rows_at key_of _ p k Hm Hp), (discard_at key_of _ p k Hm Hp). by destruct (get d !! k).
Qed.

Lemma create_key r : db_Create (gs_db s) (table get put key_of) Refuse r d =
  match get d !! key_of r with
  | Some _ => (Err (ESentinel gorm_ErrDuplicatedKey), d)
  | None => (Ok 1, put d (<[key_of r := r]> (get d)))
  end.
Proof.
  pose proof (taken key_of (get d) r Hm) as E. destruct (get d !! key_of r).
  - apply (create_refused _ _ L (table get put key_of)). simpl. by rewrite E, bool_decide_eq_true_2.
  - apply (create_new _ _ L (table get put key_of)). simpl. rewrite E, bool_decide_eq_false_2; [done|]. by intros [? ?].
Qed.

Lemma create_missing r : ∃ n, db_Create (gs_db s) (table get put key_of) DoNothing r d =
  (Ok n, match get d !! key_of r with Some _ => d | None => put d (<[key_of r := r]> (get d)) end).
Proof.
  pose proof (taken key_of (get d) r Hm) as E. destruct (get d !! key_of r).
  - eexists. apply (create_nothing _ _ L (table get put key_of)). simpl. by rewrite E, bool_decide_eq_true_2.
  - eexists. apply (create_new _ _ L (table get put key_of)). simpl. rewrite E, bool_decide_eq_false_2; [done|]. by intros [? ?].
Qed.

Lemma create_upsert f r : ∃ n, db_Create (gs_db s) (table get put key_of) (DoUpdates f) r d =
  (Ok n, put d (<[key_of r := match get d !! key_of r with Some cur => f r cur | None => r end]> (get d))).
Proof.
  pose proof (taken key_of (get d) r Hm) as E. destruct (get d !! key_of r) as [cur|] eqn:Er.
  - destruct (create_update _ _ L (table get put key_of) f r d) as [n ->]; [simpl; by rewrite E, bool_decide_eq_true_2|]. exists n. simpl. do 2 f_equal.
    rewrite (update_at key_of _ _ (key_of r) (f r) Hm); [by apply alter_insert_row|]. intros x. by apply bool_decide_ext.
  - eexists. apply (create_new _ _ L (table get put key_of)). simpl. rewrite E, bool_decide_eq_false_2; [done|]. by intros [? ?].
Qed.
End Table.

Lemma find_any {R} (from : Db → list R) p d : ∃ l, l ≡ₚ keep p (from d) ∧ db_Find (gs_db s) from p (λ _ _, true) None d = (Ok l, d).
Proof.
  destruct (find_rows _ _ L from p (λ _ _, true) None d) as (l & Hl & _ & ->); [by left|done|]. by exists l.
Qed.

(** A page in an order under which no two rows are equal. *)
Lemma find_sorted {R} (from : Db → list R) p leb limit d `{!Transitive (λ x y, Is_true (leb x y)), !Total (λ x y, Is_true (leb x y))} :
  (∀ x y, x ∈ keep p (from d) → y ∈ keep p (from d) → Is_true (leb x y) → Is_true (leb y x) → x = y) →
  db_Find (gs_db s) from p leb limit d = (Ok (cut limit (sortBy leb (keep p (from d)))), d).
Proof.
  intros Ha. destruct (find_rows _ _ L from p leb limit d) as (l & Hl & Hs & ->); [apply _..|]. by rewrite (sorted_is leb l (keep p (from d))).
Qed.

Lemma cut_LIMIT {A} limit (l : list A) : 0 ≤ limit < 2 ^ 31 → Ok (cut (Some limit) l) = wrapq (LIMIT (i32 limit) l).
Proof.
  intros Hl. unfold LIMIT, cut. rewrite i32_id by lia. by replace (limit <? 0) with false by lia.
Qed.

Lemma chunks_found chunks d :
  NoDup (concat chunks) → ∃ l, Gorm.getChunks s chunks d = (Ok l, d) ∧
    l ≡ₚ keep (λ m, bool_decide (key_of_message m ∈ concat chunks)) (messages d).
Proof.
  induction chunks as [|ch chunks IH]; intros Hnd; cbn [concat Gorm.getChunks] in *.
  - exists []. split; [done|]. rewrite keep_none; [done|]. done.
  - apply NoDup_app in Hnd as (_ & Hd & Hnd). destruct (IH Hnd) as (out & Eo & Ho).
    destruct (find_any scan (λ m, bool_decide (key_of_message m ∈ ch)) d) as (l & Hl & E). unfold Gorm.Find.
    change (db_Find (gs_db s) scan (λ m, bool_decide (mkMessageKey (Msg_ConversationId m) (Msg_Seq m) ∈ ch)) (λ _ _, true) None d)
      with (db_Find (gs_db s) scan (λ m, bool_decide (key_of_message m ∈ ch)) (λ _ _, true) None d). rewrite E, Eo.
    exists (l ++ out). split; [done|]. rewrite Hl, Ho. by apply keep_keys_app.
Qed.

Lemma same_refl {A} (o : StoreOp A) r : same_answer o r (Some r).
Proof. destruct o; simpl; try done; destruct r; simpl; reflexivity. Qed.

(** One method: the same answer and the same tables. *)
Definition agrees {A} (o : StoreOp A) (d : Db) : Prop :=
  same_answer o (pg o d).1 (Some (gorm s o d).1) ∧ (gorm s o d).2 = (pg o d).2.

Lemma agrees_eq {A} (o : StoreOp A) d : gorm s o d = pg o d → agrees o d.
Proof. intros E. unfold agrees. rewrite E. split; [apply same_refl|done]. Qed.

Ltac by_key := intros ?; cbv [Gorm.member_is Gorm.uc_is]; first [apply str_eqb | apply pair_eqb].

Section Tables.
Variable d : Db.
Hypothesis W : tables_wf d.

Let Hu : keyed User_Id (users d).
Proof. by apply store_wf_keyed, (tw_store d W). Qed.

Let Hgm : keyed (λ m, (GM_GroupId m, GM_UserId m)) (members d).
Proof. by apply store_wf_keyed, (tw_store d W). Qed.

Let Huc : keyed (λ uc, (UC_OwnerId uc, UC_ConversationId uc)) (userConvs d).
Proof. by apply store_wf_keyed, (tw_store d W). Qed.

Lemma users_agree id ids n u opt1 opt2 opt3 now :
  agrees (OGetUser id) d ∧ agrees (OGetUsers ids) d ∧ (usable (OGetUserByUsername n) d → agrees (OGetUserByUsername n) d) ∧
  agrees (OCreateUser u) d ∧ agrees (OUpdateUserProfile id opt1 opt2 opt3 now) d ∧ agrees (OUpsertUser u) d.
Proof.
  split_and!; [apply agrees_eq| |intros Hn; apply agrees_eq|apply agrees_eq..]; unfold gorm, pg.
  - apply (first_at users User_Id); [done|by_key].
  - unfold agrees, gorm, pg, Gorm.GetUsers, Gorm.Find. destruct (find_any (R:=User) scan (λ u, in_list (User_Id u) ids) d) as (l & Hl & ->).
    split; [|done]. simpl. by rewrite Hl.
  - unfold Gorm.GetUserByUsername. rewrite (first_unique scan); [done|]. simpl.
    intros x y [[i Hi]%elem_of_rows Ex]%elem_of_keep [[j Hj]%elem_of_rows Ey]%elem_of_keep. bool_prop. assert (i = j) by (eapply Hn; eauto). congruence.
  - unfold Gorm.CreateUser, model_User. rewrite (create_key users with_users User_Id) by done. unfold CreateUser, executing, Gen.CreateUser.
    by destruct (users d !! User_Id u).
  - unfold Gorm.UpdateUserProfile, model_User. destruct (update_key users with_users User_Id d (λ u, (User_Id u =? id)%string) id Hu ltac:(by_key) (Gorm.set_profile opt1 opt2 opt3 now)) as (m & -> & Hm).
    unfold UpdateUserProfile, Gen.UpdateUserProfile. unfold Gorm.GetUser. rewrite (first_at users User_Id _ _ id); [|simpl; by apply keyed_alter|by_key]. simpl.
    rewrite lookup_alter_eq. destruct (users d !! id) as [cur|] eqn:E.
    + rewrite (alter_insert_row _ _ _ cur) by done. by destruct (m =? 0).
    + rewrite (Hm eq_refl), alter_id by (intros ? [=]; congruence). by destruct d.
  - unfold Gorm.UpsertUser, model_User. cbv zeta. match goal with |- context [db_Create _ _ (DoUpdates ?f) ?r d] => destruct (create_upsert users with_users User_Id d Hu f r) as (m & ->) end.
    unfold UpsertUser, executing, Gen.UpsertUser. simpl. by destruct (users d !! User_Id u).
Qed.

Lemma member_order x y g :
  x ∈ keep (λ m, (GM_GroupId m =? g)%string) (rows (members d)) → y ∈ keep (λ m, (GM_GroupId m =? g)%string) (rows (members d)) →
  Is_true (member_leb x y) → Is_true (member_leb y x) → x = y.
Proof.
  intros [[k1 Hx]%elem_of_rows Px]%elem_of_keep [[k2 Hy]%elem_of_rows Py]%elem_of_keep H1 H2. pose proof (member_leb_anti _ _ H1 H2). bool_prop.
  apply Hgm in Hx as E1. apply Hgm in Hy as E2. simpl in *. congruence.
Qed.

Lemma joined_at_leb_total : Total (λ a b : GroupMember, Is_true (GM_JoinedAt a <=? GM_JoinedAt b)).
Proof. intros a b. rewrite !Is_true_true, !Z.leb_le. lia. Qed.

Lemma joined_at_leb_trans : Transitive (λ a b : GroupMember, Is_true (GM_JoinedAt a <=? GM_JoinedAt b)).
Proof. intros a b c. rewrite !Is_true_true, !Z.leb_le. lia. Qed.

Lemma groups_agree g ms id m u :
  agrees (OCreateGroup g ms) d ∧ agrees (OGetGroup id) d ∧ agrees (OAddGroupMember m) d ∧ agrees (ORemoveGroupMember id u) d ∧
  agrees (OGetGroupMember id u) d ∧ agrees (OListGroupMembers id) d ∧ agrees (OCountGroupMembers id) d ∧ agrees (OListUserGroupIds u) d.
Proof.
  split_and!; lazymatch goal with |- agrees (OListUserGroupIds _) _ => idtac | _ => apply agrees_eq; unfold gorm, pg end.
  - unfold Gorm.CreateGroup, model_Group. rewrite (create_key groups with_groups Group_Id) by apply W. unfold CreateGroup, Gen.CreateGroup.
    destruct (groups d !! Group_Id g) as [?|] eqn:E; [done|]. unfold Gen.AddGroupMembers. destruct (Nat.eqb_spec (length ms) 0) as [E0|_].
    + apply length_zero_iff_nil in E0 as ->. simpl. by destruct d.
    + rewrite (create_batches _ _ L) by done. rewrite insert_members by done. cbn [members with_groups]. by destruct (Gen.copy_members ms (members d)).
  - apply (first_at groups Group_Id); [apply W|by_key].
  - unfold Gorm.AddGroupMember, model_GroupMember. rewrite (create_key members with_members (λ m, (GM_GroupId m, GM_UserId m))) by done.
    unfold AddGroupMember, executing, Gen.AddGroupMember. by destruct (members d !! _).
  - unfold Gorm.RemoveGroupMember, model_GroupMember. rewrite (delete_key members with_members (λ m, (GM_GroupId m, GM_UserId m)) _ _ (id, u)); [|done|by_key].
    unfold RemoveGroupMember, Gen.RemoveGroupMember. destruct (members d !! (id, u)) eqn:E; [done|]. simpl. rewrite delete_id by done. by destruct d.
  - apply (first_at members (λ m, (GM_GroupId m, GM_UserId m))); [done|by_key].
  - unfold Gorm.ListGroupMembers. rewrite (find_sorted scan _ member_leb); [done|apply _|apply _|]. simpl. intros x y Hx Hy. by apply (member_order x y id).
  - unfold Gorm.CountGroupMembers. by rewrite (count_rows _ _ L).
  - unfold agrees, gorm, pg, Gorm.ListUserGroupIds.
    destruct (find_rows _ _ L (R:=GroupMember) scan (λ m, (GM_UserId m =? u)%string) (λ a b, GM_JoinedAt a <=? GM_JoinedAt b) None d joined_at_leb_total joined_at_leb_trans) as (l & Hl & _ & ->).
    split; [|done]. simpl. apply (fmap_Permutation GM_GroupId). unfold sortBy. by rewrite merge_sort_Permutation, Hl.
Qed.

(** The rows of the join for one conversation. *)
Lemma row_at o c :
  keep (λ r, Gorm.row_of o r && (UC_ConversationId (Row_UC r) =? c)%string) (Gorm.from_rows d) =
  match userConvs d !! (o, c), convs d !! c with Some uc, Some cv => [mkUCRow uc (Conv_MaxSeq cv)] | _, _ => [] end.
Proof.
  unfold Gorm.from_rows. rewrite <- (joined_filter d (Gorm.uc_is o c)), (rows_at (λ uc, (UC_OwnerId uc, UC_ConversationId uc)) _ _ (o, c) Huc) by by_key.
  destruct (userConvs d !! (o, c)) as [uc|] eqn:E; [|done]. apply Huc in E as [= _ Ec]. simpl. unfold Gen.joined. rewrite Ec. by destruct (convs d !! c).
Qed.

Lemma conversations_agree id typ g now cur n :
  agrees (OLockConversation id typ g now) d ∧ agrees (OGetConversation id) d ∧ agrees (OSetConversationMaxSeq id n now) d ∧
  agrees (OGetUserConversation cur id) d ∧ agrees (OGetUserConversationRow cur id) d.
Proof.
  split_and!; apply agrees_eq; unfold gorm, pg.
  - unfold Gorm.LockConversation, model_Conversation.
    destruct (create_missing convs with_convs Conv_ConversationId d ltac:(apply W) (mkConversation id typ g 0 now now)) as (m & ->). simpl.
    unfold LockConversation, Gen.InsertConversationIfMissing, Gen.LockConversation. destruct (convs d !! id) as [c|] eqn:E; simpl.
    + rewrite (first_at convs Conv_ConversationId _ _ id); [done|apply W|by_key].
    + rewrite (first_at convs Conv_ConversationId _ _ id); [done|simpl; by apply keyed_insert, W|by_key].
  - apply (first_at convs Conv_ConversationId); [apply W|by_key].
  - unfold Gorm.SetConversationMaxSeq, model_Conversation. match goal with |- context [db_Update _ _ ?p ?f d] =>
      destruct (update_key convs with_convs Conv_ConversationId d p id ltac:(apply W) ltac:(by_key) f) as (m & -> & _) end. done.
  - apply (first_at userConvs (λ uc, (UC_OwnerId uc, UC_ConversationId uc))); [done|by_key].
  - unfold Gorm.GetUserConversationRow. rewrite first_unique, row_at; unfold GetUserConversationRow, reading, Gen.GetUserConversationRow.
    + by destruct (userConvs d !! (cur, id)), (convs d !! id).
    + rewrite row_at. destruct (userConvs d !! (cur, id)), (convs d !! id); intros x y; try by intros ?%not_elem_of_nil.
      by intros ->%list_elem_of_singleton ->%list_elem_of_singleton.
Qed.

Ltac uc_update o c :=
  match goal with |- context [db_Update _ _ ?p ?f d] =>
    let n := fresh "n" in let Hn := fresh "Hn" in
    destruct (update_key userConvs with_userConvs (λ uc, (UC_OwnerId uc, UC_ConversationId uc)) d p (o, c) Huc ltac:(by_key) f) as (n & -> & Hn) end.

Ltac uc_upsert :=
  match goal with |- context [db_Create _ _ (DoUpdates ?f) ?r d] =>
    destruct (create_upsert userConvs with_userConvs (λ uc, (UC_OwnerId uc, UC_ConversationId uc)) d Huc f r) as (? & ->) end.

(** An update that reports no row: the second read tells a missing row from one that did not change. *)
Lemma opt_agrees o c opt pin : agrees (OSetUserConversationOpt o c opt pin) d.
Proof.
  apply agrees_eq. unfold gorm, pg, SetUserConversationOpt, Gen.SetUserConversationOpt.
  assert (∀ (f : UserConversation → UserConversation), (∀ uc, (UC_OwnerId (f uc), UC_ConversationId (f uc)) = (UC_OwnerId uc, UC_ConversationId uc)) →
    Gorm.GetUserConversation s o c (with_userConvs d (alter f (o, c) (userConvs d))) =
      (wrapq (one (f <$> userConvs d !! (o, c))), with_userConvs d (alter f (o, c) (userConvs d)))) as Hread.
  { intros f Hf. unfold Gorm.GetUserConversation. rewrite (first_at userConvs (λ uc, (UC_OwnerId uc, UC_ConversationId uc)) _ _ (o, c));
      [simpl; by rewrite lookup_alter_eq|simpl; by apply keyed_alter|by_key]. }
  assert (Gorm.GetUserConversation s o c d = (wrapq (one (userConvs d !! (o, c))), d)) as Hnow
    by (apply (first_at userConvs (λ uc, (UC_OwnerId uc, UC_ConversationId uc))); [done|by_key]).
  unfold Gorm.SetUserConversationOpt, model_UserConversation. destruct opt as [opt|], pin as [pin|]; cycle 3.
  { rewrite Hnow. destruct (userConvs d !! (o, c)) as [uc|] eqn:E; [|done]. simpl. rewrite insert_id; [by destruct d|]. rewrite E. by destruct uc. }
  all: uc_update o c; rewrite Hread by done; destruct (userConvs d !! (o, c)) as [uc|] eqn:E;
    [rewrite (alter_insert_row _ _ _ uc) by done; by destruct (n =? 0)|].
  all: rewrite (Hn eq_refl), alter_id by (intros ? [=]; congruence); by destruct d.
Qed.

Lemma userConvs_agree uc o c n ids ucs :
  agrees (OUpsertUserConversation uc) d ∧ agrees (ODeleteUserConversation o c) d ∧ agrees (OVisibleOwners c ids n) d ∧
  agrees (OMutedOwners c ids) d ∧ agrees (OSetUserConversationMaxSeq o c n) d ∧ agrees (OCreateUserConversations ucs) d.
Proof.
  split_and!; lazymatch goal with |- agrees (OVisibleOwners _ _ _) _ => idtac | |- agrees (OMutedOwners _ _) _ => idtac | _ => apply agrees_eq; unfold gorm, pg end.
  - unfold Gorm.UpsertUserConversation, model_UserConversation. uc_upsert. unfold UpsertUserConversation, executing, Gen.UpsertUserConversation. simpl. by destruct (userConvs d !! _).
  - unfold Gorm.DeleteUserConversation, model_UserConversation.
    by rewrite (delete_key userConvs with_userConvs (λ uc, (UC_OwnerId uc, UC_ConversationId uc)) _ _ (o, c)); [|done|by_key].
  - unfold agrees, gorm, pg, Gorm.VisibleOwners, VisibleOwners, Gorm.Find. destruct (length ids =? 0)%nat; [by split; [simpl|]|].
    match goal with |- context [db_Find _ _ ?p _ _ d] => destruct (find_any scan p d) as (l & Hl & ->) end. split; [|done]. simpl.
    apply (fmap_Permutation UC_OwnerId). by rewrite Hl.
  - unfold agrees, gorm, pg, Gorm.MutedOwners, MutedOwners, Gorm.Find. destruct (length ids =? 0)%nat; [by split; [simpl|]|].
    match goal with |- context [db_Find _ _ ?p _ _ d] => destruct (find_any scan p d) as (l & Hl & ->) end. split; [|done]. simpl.
    apply (fmap_Permutation UC_OwnerId). by rewrite Hl.
  - unfold Gorm.SetUserConversationMaxSeq, model_UserConversation. by uc_update o c.
  - unfold Gorm.CreateUserConversations, CreateUserConversations, Gen.CreateUserConversations. destruct (length ucs =? 0)%nat; [done|].
    rewrite (create_batches _ _ L) by done. rewrite insert_userConvs by done. by destruct (Gen.copy_userConvs _ (userConvs d)).
Qed.

Lemma cursors_agree uc o c n now cur limit :
  agrees (OTouchUserConversation uc n) d ∧ agrees (OTouchConversationMembers c now) d ∧ agrees (OAdvanceReadSeq o c n) d ∧
  (0 ≤ limit < 2 ^ 31 → agrees (OListUserConversations o cur limit) d).
Proof.
  split_and!; [..|intros Hl]; apply agrees_eq; unfold gorm, pg.
  - unfold Gorm.TouchUserConversation, model_UserConversation. cbv zeta. uc_upsert. unfold TouchUserConversation, executing, Gen.TouchUserConversation. simpl. by destruct (userConvs d !! _).
  - unfold Gorm.TouchConversationMembers. match goal with |- context [db_Update _ ?M ?p ?f d] => destruct (update_matched _ _ L M p f d) as (? & _ & ->) end. done.
  - unfold Gorm.AdvanceReadSeq, model_UserConversation. by uc_update o c.
  - unfold Gorm.ListUserConversations, ListUserConversations, reading, Gen.ListUserConversations. rewrite (find_sorted Gorm.from_rows _ row_leb); [|apply _|apply _|].
    + cbn [Gorm.wrapped]. rewrite cut_LIMIT by done. do 3 f_equal. f_equal. symmetry.
      exact (joined_filter d (λ uc, (UC_OwnerId uc =? o)%string && cursor_ltb (UC_UpdatedAt uc) (UC_ConversationId uc) (LC_UpdatedAt cur) (LC_ConversationId cur)) (rows (userConvs d))).
    + unfold Gorm.from_rows. intros x y [Hx Px]%elem_of_keep [Hy Py]%elem_of_keep Ha Hb. unfold Gorm.row_of in *. bool_prop.
      assert (UC_ConversationId (Row_UC x) = UC_ConversationId (Row_UC y)) as E.
      { revert Ha Hb. unfold row_leb. rewrite !Is_true_true, !orb_true_iff, !andb_true_iff, !Z.ltb_lt, !Z.eqb_eq, <- !Is_true_true.
        intros [?|[? Ha]] [?|[? Hb]]; try lia. by apply (anti_symm String.le). }
      assert (∀ z, z ∈ flat_map (Gen.joined d) (rows (userConvs d)) → ∃ cv, userConvs d !! (UC_OwnerId (Row_UC z), UC_ConversationId (Row_UC z)) = Some (Row_UC z) ∧
        convs d !! UC_ConversationId (Row_UC z) = Some cv ∧ Row_ConvMaxSeq z = Conv_MaxSeq cv) as Hrow.
      { intros z Hz. apply list_elem_of_In, in_flat_map in Hz as (u & Hu'%list_elem_of_In & Hz). apply elem_of_rows in Hu' as [k Hk].
        unfold Gen.joined in Hz. destruct (convs d !! UC_ConversationId u) as [cv|] eqn:Ec; [|done]. destruct Hz as [<-|[]]. exists cv. simpl.
        apply Huc in Hk as Ek. by rewrite <- Ek in Hk. }
      destruct (Hrow x Hx) as (c1 & Hx1 & Hx2 & Hx3), (Hrow y Hy) as (c2 & Hy1 & Hy2 & Hy3). destruct x, y. simpl in *. congruence.
Qed.

Lemma NoDup_key_inj {A B} (f : A → B) l x y : NoDup (map f l) → x ∈ l → y ∈ l → f x = f y → x = y.
Proof.
  induction l as [|z l IH]; simpl; [by intros _ ?%not_elem_of_nil|]. intros [Hz Hnd]%NoDup_cons Hx Hy E.
  apply elem_of_cons in Hx as [->|Hx], Hy as [->|Hy]; [done| | |by apply IH]; destruct Hz.
  - rewrite E. by apply (list_elem_of_fmap_2 f).
  - rewrite <- E. by apply (list_elem_of_fmap_2 f).
Qed.

Lemma messages_agree c u id m b e limit keys :
  agrees (OGetMessageByClientId c u id) d ∧ agrees (OInsertMessage m) d ∧ (0 ≤ limit < 2 ^ 31 → agrees (OListMessages c b e limit) d) ∧
  (NoDup keys → agrees (OGetMessages keys) d).
Proof.
  split_and!; [apply agrees_eq|apply agrees_eq|intros Hl; apply agrees_eq|intros Hnd]; unfold gorm, pg.
  - unfold Gorm.GetMessageByClientId. rewrite (first_unique scan); [done|]. intros x y [Hx Px]%elem_of_keep [Hy Py]%elem_of_keep. bool_prop.
    apply (NoDup_key_inj (λ m, (Msg_ConversationId m, Msg_SenderId m, Msg_ClientMsgId m)) (messages d)); [apply W|done|done|congruence].
  - unfold Gorm.InsertMessage, InsertMessage, Gen.InsertMessage. destruct (existsb (Gen.conflicts m) (messages d)) eqn:E.
    + by rewrite (create_nothing _ _ L model_Message).
    + by rewrite (create_new _ _ L model_Message).
  - unfold Gorm.ListMessages. rewrite (find_sorted scan _ seq_leb); [|apply _|apply _|].
    + cbn [Gorm.wrapped]. by rewrite cut_LIMIT by done.
    + intros x y [Hx Px]%elem_of_keep [Hy Py]%elem_of_keep H1 H2. unfold seq_leb in *. apply Is_true_true in H1, H2. bool_prop.
      apply (NoDup_key_inj key_of_message (messages d)); [apply (sw_keys d), W|done|done|]. unfold key_of_message. f_equal; [congruence|lia].
  - unfold agrees, gorm, pg, Gorm.GetMessages, GetMessages. destruct (Nat.eqb_spec (length keys) 0) as [E|_]; [by split; [simpl|]|].
    assert (concat (Chunk Gorm.getMessagesChunk keys) = keys) as Ec by (apply concat_Chunk; unfold Gorm.getMessagesChunk; lia).
    destruct (chunks_found (Chunk Gorm.getMessagesChunk keys) d) as (l & -> & Hl); rewrite Ec in *; [done|]. split; [|done].
    unfold reading. cbn [fst wrapq Gen.GetMessages same_answer same_list]. rewrite <- (messages_by_keys d keys Hnd (tw_store d W)). symmetry. exact Hl.
Qed.

Lemma online_agree oc id nd ids now since :
  agrees (OUpsertOnlineConn oc) d ∧ agrees (ODeleteOnlineConn id) d ∧ agrees (ORenewOnlineConns nd ids now) d ∧
  agrees (OListOnlineConns ids since) d ∧ agrees (ODeleteOnlineConnsByNode nd) d.
Proof.
  pose proof (tw_online d W) as Ho.
  split_and!; lazymatch goal with |- agrees (OListOnlineConns _ _) _ => idtac | _ => apply agrees_eq; unfold gorm, pg end.
  - unfold Gorm.UpsertOnlineConn, model_OnlineConn. match goal with |- context [db_Create _ _ (DoUpdates ?f) ?r d] =>
      destruct (create_upsert online with_online OC_ConnId d Ho f r) as (? & ->) end. unfold UpsertOnlineConn, executing, Gen.UpsertOnlineConn.
    destruct (online d !! OC_ConnId oc) as [cur|] eqn:E; [|done]. rewrite (Ho _ _ E). by destruct oc.
  - unfold Gorm.DeleteOnlineConn, model_OnlineConn. by rewrite (delete_key online with_online OC_ConnId _ _ id Ho ltac:(by_key)).
  - unfold Gorm.RenewOnlineConns, RenewOnlineConns. destruct (length ids =? 0)%nat; [done|].
    match goal with |- context [db_Update _ ?M ?p ?f d] => destruct (update_matched _ _ L M p f d) as (? & _ & ->) end. done.
  - unfold agrees, gorm, pg, Gorm.ListOnlineConns, ListOnlineConns, Gorm.Find. destruct (length ids =? 0)%nat; [by split; [simpl|]|].
    match goal with |- context [db_Find _ _ ?p _ _ d] => destruct (find_any scan p d) as (l & Hl & ->) end. split; [|done]. simpl. symmetry. exact Hl.
  - unfold Gorm.DeleteOnlineConnsByNode. rewrite (delete_matched _ _ L). unfold DeleteOnlineConnsByNode, executing, Gen.DeleteOnlineConnsByNode. simpl. do 2 f_equal.
    apply map_filter_ext. intros k c _. simpl. by rewrite String.eqb_neq.
Qed.

Lemma gorm_agrees {A} (o : StoreOp A) : usable o d → agrees o d.
Proof.
  intros Hus. destruct o; simpl in Hus;
  first [eapply users_agree | eapply groups_agree | eapply conversations_agree | eapply opt_agrees
        | eapply userConvs_agree | eapply cursors_agree | eapply messages_agree | eapply online_agree]; try exact Hus; try apply Hus.
  Unshelve. all: repeat constructor.
Qed.
End Tables.
End Agree.

(** ** Sequences of calls *)

Lemma client_append m l :
  existsb (Gen.conflicts m) l = false → NoDup (map (λ m, (Msg_ConversationId m, Msg_SenderId m, Msg_ClientMsgId m)) l) →
  NoDup (map (λ m, (Msg_ConversationId m, Msg_SenderId m, Msg_ClientMsgId m)) (l ++ [m])).
Proof.
  intros Hc Hl. rewrite map_app. apply NoDup_app. split_and!; [done| |apply NoDup_singleton]. intros k Hk ->%list_elem_of_singleton.
  apply list_elem_of_fmap in Hk as (x & [= E1 E2 E3] & Hx). apply not_true_iff_false in Hc. apply Hc, existsb_exists. exists x.
  split; [by apply list_elem_of_In|]. unfold Gen.conflicts. by rewrite E1, E2, E3, !String.eqb_refl, !orb_true_r.
Qed.

Lemma pg_tables_wf {A} (o : StoreOp A) d : tables_wf d → usable o d → tables_wf (pg o d).2.
Proof.
  intros [Hs Hg Hc Ho Hm] Hu. split; [by apply pg_wf|..]; destruct o; cbn [pg]; try done; simpl in *;
    unfold CreateUser, UpdateUserProfile, CreateGroup, Gen.AddGroupMembers, AddGroupMember, RemoveGroupMember, LockConversation, VisibleOwners, MutedOwners,
      SetUserConversationOpt, CreateUserConversations, InsertMessage, GetMessages, RenewOnlineConns, ListOnlineConns, executing, reading;
    unfold Gen.CreateUser, Gen.UpdateUserProfile, Gen.CreateGroup, Gen.AddGroupMembers, Gen.AddGroupMember, Gen.RemoveGroupMember, Gen.InsertConversationIfMissing,
      Gen.SetUserConversationOpt, Gen.CreateUserConversations, Gen.InsertMessage;
    repeat match goal with
    | |- context [match ?x with Some _ => _ | None => _ end] => destruct x eqn:?
    | |- context [if ?b then _ else _] => destruct b eqn:?
    end; simpl; try done; auto with keyed.
  - apply keyed_fmap; [|done]. intros c. by destruct (_ && _).
  - intros k c. rewrite map_lookup_filter_Some. intros [? _]. by apply Ho.
  - by apply client_append.
Qed.

Fixpoint gorm_alike (s : GormStore) (cs : list Call) (d g : Db) : Prop :=
  match cs with
  | [] => g = d
  | call o :: cs' => same_answer o (pg o d).1 (Some (gorm s o g).1) ∧ gorm_alike s cs' (pg o d).2 (gorm s o g).2
  end.

Lemma gorm_alike_laws s cs : ∀ d, GormLaws false (gs_db s) → tables_wf d → usable_all cs d → gorm_alike s cs d d.
Proof.
  induction cs as [|[A o] cs IH]; intros d L W; [done|]. intros [Hu Hcs]. destruct (gorm_agrees s L d W o Hu) as [Ha Hs].
  split; [done|]. rewrite Hs. apply IH; [done|by apply pg_tables_wf|done].
Qed.

(** [New] only gives connections that count changed rows. *)
Lemma New_laws `{GO : Gorm.GormOpen} driver dsn s : Gorm.New driver dsn = Ok s → GormLaws false (gs_db s).
Proof.
  unfold Gorm.New, Gorm.checkMysqlDsn. destruct (driver =? "mysql")%string; simpl.
  - destruct (ParseDSN dsn) as [[[] []]|] eqn:E; try done. destruct (Gorm.gorm_Open _ true) as [db|] eqn:Eo; intros [= <-].
    exact (Gorm.open_mysql dsn db _ Eo E eq_refl).
  - destruct (Gorm.gorm_Open _ true) as [db|] eqn:Eo; intros [= <-]. exact (Gorm.open_postgres dsn db Eo).
Qed.

(** Why [New] refuses CLIENT_FOUND_ROWS: a duplicate would be reported as inserted. *)
Lemma found_rows_hide_duplicates s m d :
  GormLaws true (gs_db s) → existsb (Gen.conflicts m) (messages d) = true → Gorm.InsertMessage s m d = (Ok true, d).
Proof. intros L E. unfold Gorm.InsertMessage. by rewrite (create_nothing _ _ L model_Message). Qed.

(** A transaction takes effect as a whole or not at all, and the view handed to its callback starts no other. *)
Lemma WithTx_atomic `{GT : GormTx} s fn d :
  gs_inTx s = false →
  ∃ tx, gs_inTx tx = true ∧ Gorm.Close tx = false ∧
    Gorm.WithTx s fn d = match fn tx d with (Ok _, d') => (Ok tt, d') | (Err e, _) => (Err e, d) end ∧
    ∀ fn' d', Gorm.WithTx tx fn' d' = (Err (ESentinel store_ErrNestedTx), d').
Proof.
  intros E. unfold Gorm.WithTx. rewrite E. destruct (transaction_runs (gs_db s) (λ tx, fn (mkGorm tx true true)) d) as [tx ->].
  by exists (mkGorm tx true true).
Qed.


(** ** A reference connection

    Statements answered in table order; an update reports [count] rows of those it matched. *)
Definition refDB (foundRows : bool) (count : Z → Z) : DB := {|
  db_Find R from p leb limit d := (Ok (cut limit (sortBy leb (keep p (from d)))), d);
  db_First R from p d := (match keep p (from d) with r :: _ => Ok r | [] => Err (ESentinel gorm_ErrRecordNotFound) end, d);
  db_Count R from p d := (Ok (Z.of_nat (length (keep p (from d)))), d);
  db_Create R M oc r d :=
    if existsb (unique r) (scan d) then
      match oc with
      | Refuse => (Err (ESentinel gorm_ErrDuplicatedKey), d)
      | DoNothing => (Ok (if foundRows then 1 else 0), d)
      | DoUpdates f => (Ok 1, update_rows (λ cur, if unique r cur then f r cur else cur) d)
      end
    else (Ok 1, append r d);
  db_CreateInBatches R M rs size d :=
    match insert_all rs d with
    | Some d' => (Ok (Z.of_nat (length rs)), d')
    | None => (Err (ESentinel gorm_ErrDuplicatedKey), d)
    end;
  db_Update R M p f d := (Ok (count (Z.of_nat (length (keep p (scan d))))), update_rows (λ r, if p r then f r else r) d);
  db_Delete R M p d := (Ok (Z.of_nat (length (keep p (scan d)))), discard p d) |}.

Lemma refDB_laws foundRows count : (∀ n, 0 ≤ n → 0 ≤ count n ≤ n) → GormLaws foundRows (refDB foundRows count).
Proof.
  intros Hc. split; simpl; intros.
  - eexists. split_and!; [..|done]; unfold sortBy; [apply merge_sort_Permutation|by apply Sorted_merge_sort].
  - destruct (keep p (from d)) as [|r l]; [by right|left]. exists r. split; [left|done].
  - done.
  - by rewrite H.
  - by rewrite H.
  - by rewrite H.
  - rewrite H. by eexists.
  - done.
  - eexists. split; [|done]. apply Hc. lia.
  - done.
Qed.

#[local] Instance dsnLib : ConfigLib := {| ParseCIDR := λ _, None; ParseDSN := λ dsn, if (dsn =? "app@tcp(db)/nexo?parseTime=true")%string then Some (mkDsn false true) else None |}.

(** PostgreSQL counts matched rows; on MySQL the updates find the values already set. *)
#[local] Program Instance refOpen : Gorm.GormOpen := {|
  Gorm.gorm_Open dialector _ :=
    match dialector with
    | Gorm.mysql_Open dsn => Ok (refDB (match ParseDSN dsn with Some p => Dsn_ClientFoundRows p | None => false end) (λ _, 0))
    | Gorm.postgres_Open _ => Ok (refDB false (λ n, n))
    end |}.
Next Obligation. intros dsn db [= <-]. by apply refDB_laws. Qed.
Next Obligation. intros dsn db p [= <-] E _. simpl in E. rewrite E. by apply refDB_laws. Qed.

Lemma emptyDb_tables_wf : tables_wf emptyDb.
Proof. split; [apply emptyDb_wf|by apply map_Forall_empty..|constructor]. Qed.

Definition gorm_calls : list Call :=
  calls ++ [call (OUpdateUserProfile "u1" None None None 1); call (OUpdateUserProfile "u9" None None None 1);
            call (OSetUserConversationOpt "u2" "sg_g" (Some 1) None); call (OInsertMessage (mkMessage "sg_g" 2 "s2" "c1" "u1" "" "g" 2 1 "hi" 7 7));
            call (OGetMessages [mkMessageKey "sg_g" 1; mkMessageKey "sg_g" 7]); call (ORemoveGroupMember "g" "u2"); call (ORemoveGroupMember "g" "u2")].

