(* ===== verification/Suites.v ===== *)
(** * The conformance suites of the repository

    The tests that every driver of an interface runs, as programs over the interface: caches, stores and connection registries. The models of
    the drivers pass them. *)

From S2P Require Import Prelude.

(** * The conformance suite of the caches ([internal/cache/cachetest/suite.go])

    The suite every driver runs, as a program over the interface, and that every driver that keeps the laws of [CacheOk] passes it
    when none of its calls fails: whatever the delays between the calls and whichever way the concurrent calls of a round
    are ordered. Its calls are numbered; [at_ n] is when the driver runs the [n]-th. *)
Module CacheSuite.
From S2P Require Import Prelude Errcode Strconv Store PgStore Conc RateLimit World Cache CacheDrivers.
Local Open Scope Z_scope.

(** What a test does with a cache: an error of a call is fatal. *)
Inductive ctest :=
| CPass
| CFatal
| CGet (key : string) (k : string → bool → ctest)
| CSet (key val : string) (ttl : Z) (k : ctest)
| CSetNX (key val : string) (ttl : Z) (k : bool → ctest)
| CDelIfValue (key expected : string) (k : ctest).

Definition require (b : bool) (k : ctest) : ctest := if b then k else CFatal.

(** ** The suite, on the keys that start with [p] *)

Section Suite.
Variable p : string.

Definition want_missing (key : string) (k : ctest) : ctest := CGet (p +:+ key) (λ _ found, require (negb found) k).

Definition want_value (key val : string) (k : ctest) : ctest := CGet (p +:+ key) (λ v found, require (found && (v =? val)%string) k).

Definition want_nx (key val : string) (ttl : Z) (ok : bool) (k : ctest) : ctest := CSetNX (p +:+ key) val ttl (λ b, require (Bool.eqb b ok) k).

(** One of the cases of [DelIfValue]. *)
Definition matching (value : string) (ttl : Z) (k : ctest) : ctest :=
  CSet (p +:+ "conditional") value ttl (CDelIfValue (p +:+ "conditional") value (want_missing "conditional" k)).

Definition delIfValueTests (k : ctest) : ctest :=
  matching "old" 0 (matching "old" (3600 * Second) (matching "" 0
    (CDelIfValue (p +:+ "missing") "old" (want_missing "missing"
      (CSet (p +:+ "conditional") "old" 0 (CSet (p +:+ "conditional") "new" 0 (CDelIfValue (p +:+ "conditional") "old"
        (want_value "conditional" "new" (want_value "nx" "x" k))))))))).

(** The rounds of [DelIfValueConcurrentSet]; each flag says whether the driver ran the [Set] first. *)
Fixpoint rounds (orders : list bool) : ctest :=
  match orders with
  | [] => CPass
  | setFirst :: orders =>
      let check := want_value "conditional" "new" (rounds orders) in
      CSet (p +:+ "conditional") "old" 0
        (if setFirst then CSet (p +:+ "conditional") "new" 0 (CDelIfValue (p +:+ "conditional") "old" check)
         else CDelIfValue (p +:+ "conditional") "old" (CSet (p +:+ "conditional") "new" 0 check))
  end.

(** The calls after the sleep. *)
Definition afterSleep (orders : list bool) : ctest :=
  want_missing "short" (CDelIfValue (p +:+ "conditional") "v" (want_missing "conditional" (want_nx "short" "again" 0 true
    (delIfValueTests (rounds orders))))).

(** [Run], without the cleanup at the end; the test sleeps 60 ms after its seventh call. *)
Definition Run (orders : list bool) : ctest :=
  want_missing "missing" (CSet (p +:+ "a") "1" 0 (want_value "a" "1" (want_nx "a" "2" 0 false (want_nx "nx" "x" (3600 * Second) true
    (CSet (p +:+ "short") "v" (30 * Millisecond) (CSet (p +:+ "conditional") "v" (30 * Millisecond) (afterSleep orders))))))).
End Suite.

(** ** Running it *)

Section Execute.
Context {C : Type} `{CC : Cache C} (at_ : nat → Z).

(** Whether the test passes. *)
Fixpoint passes (t : ctest) (n : nat) (c : C) : bool :=
  match t with
  | CPass => true
  | CFatal => false
  | CGet key k => match c_Get (at_ n) key c with (Ok (v, found), c) => passes (k v found) (S n) c | _ => false end
  | CSet key val ttl k => match c_Set (at_ n) key val ttl c with (Ok _, c) => passes k (S n) c | _ => false end
  | CSetNX key val ttl k => match c_SetNX (at_ n) key val ttl c with (Ok b, c) => passes (k b) (S n) c | _ => false end
  | CDelIfValue key expected k => match c_DelIfValue (at_ n) key expected c with (Ok _, c) => passes k (S n) c | _ => false end
  end.

(** No call fails. *)
Definition reliable : Prop :=
  (∀ now k c, is_Ok (c_Get now k c).1 = true) ∧ (∀ now k v ttl c, is_Ok (c_Set now k v ttl c).1 = true) ∧
  (∀ now k v ttl c, is_Ok (c_SetNX now k v ttl c).1 = true) ∧ (∀ now k v c, is_Ok (c_DelIfValue now k v c).1 = true).
End Execute.

(** ** Proof: against a map of values with the times they end *)

Section Proof.
Context {C : Type} `{CC : Cache C} `{CO : !CacheOk C} (at_ : nat → Z) (p : string).
Hypothesis ok : reliable (C := C).
Hypothesis mono : ∀ n, at_ n ≤ at_ (S n).
Hypothesis start : zeroTime < at_ 0.

Abbreviation Values := (gmap string (string * option Z)).

Definition value_at (t : Z) (x : option (string * option Z)) : option string :=
  match x with Some (v, Some e) => if t <? e then Some v else None | Some (v, None) => Some v | None => None end.

(** From [t] on the cache holds the map, on the keys of the suite. *)
Definition holds (t : Z) (m : Values) (c : C) : Prop := ∀ t' s, t ≤ t' → live c t' (p +:+ s) = value_at t' (m !! s).

Lemma prefix_eqb (a s s' : string) : (a +:+ s =? a +:+ s')%string = (s =? s')%string.
Proof. induction a as [|x a IH]; [done|]. change ((String.String x (a +:+ s) =? String.String x (a +:+ s'))%string = (s =? s')%string). cbn [String.eqb]. by rewrite Ascii.eqb_refl. Qed.

Lemma after n : zeroTime < at_ n.
Proof. induction n as [|n IH]; [done|]. specialize (mono n). lia. Qed.

Definition ends (now ttl : Z) : option Z := if ttl <=? 0 then None else Some (until now ttl).

Lemma holds_later t t' m c : t ≤ t' → holds t m c → holds t' m c.
Proof. intros Ht H u s Hu. apply H. lia. Qed.

Lemma holds_next n m c : holds (at_ n) m c → holds (at_ (S n)) m c.
Proof. apply holds_later, mono. Qed.

Lemma get_step n m c s k : holds (at_ n) m c →
  (∀ c' v, holds (at_ (S n)) m c' → (∀ x, value_at (at_ n) (m !! s) = Some x → v = x) →
     passes at_ (k v (bool_decide (is_Some (value_at (at_ n) (m !! s))))) (S n) c' = true) → passes at_ (CGet (p +:+ s) k) n c = true.
Proof.
  intros Hh H. simpl. destruct (c_Get (at_ n) (p +:+ s) c) as [[[v b]|e] c'] eqn:E; [|pose proof (proj1 ok (at_ n) (p +:+ s) c) as X; by rewrite E in X].
  destruct (Get_law _ _ _ _ _ E (after n)) as [Hs Hl]. specialize (Hl v b eq_refl). rewrite (Hh (at_ n) s) in Hl by lia.
  replace b with (bool_decide (is_Some (value_at (at_ n) (m !! s)))) by (rewrite Hl; by destruct b). apply H.
  - apply holds_next. intros t' s' Ht. rewrite (Hs _ _ Ht). by apply Hh.
  - intros x Hx. rewrite Hx in Hl. destruct b; congruence.
Qed.

Lemma written_holds n m c c' s v ttl : written live until (at_ n) (p +:+ s) v ttl c c' → holds (at_ n) m c → holds (at_ (S n)) (<[s := (v, ends (at_ n) ttl)]> m) c'.
Proof.
  intros Hw Hh. apply holds_next. intros t s' Ht. rewrite (Hw t _ Ht), prefix_eqb. destruct (String.eqb_spec s' s) as [->|Hne].
  - rewrite lookup_insert_eq. unfold value_at, ends. by destruct (ttl <=? 0).
  - rewrite lookup_insert_ne by done. by apply Hh.
Qed.

Lemma set_step n m c s v ttl k : span (C := C) ttl → holds (at_ n) m c →
  (∀ c', holds (at_ (S n)) (<[s := (v, ends (at_ n) ttl)]> m) c' → passes at_ k (S n) c' = true) → passes at_ (CSet (p +:+ s) v ttl k) n c = true.
Proof.
  intros Hsp Hh H. simpl. destruct (c_Set (at_ n) (p +:+ s) v ttl c) as [[[]|e] c'] eqn:E; [|pose proof (proj1 (proj2 ok) (at_ n) (p +:+ s) v ttl c) as X; by rewrite E in X].
  destruct (Set_law _ _ _ _ _ _ _ E (after n) Hsp) as [Hw|[? _]]; [|done]. apply H. by eapply written_holds.
Qed.

Lemma nx_step n m c s v ttl k : span (C := C) ttl → holds (at_ n) m c →
  (∀ c', holds (at_ (S n)) (if bool_decide (is_Some (value_at (at_ n) (m !! s))) then m else <[s := (v, ends (at_ n) ttl)]> m) c' →
     passes at_ (k (negb (bool_decide (is_Some (value_at (at_ n) (m !! s)))))) (S n) c' = true) → passes at_ (CSetNX (p +:+ s) v ttl k) n c = true.
Proof.
  intros Hsp Hh H. simpl. destruct (c_SetNX (at_ n) (p +:+ s) v ttl c) as [[b|e] c'] eqn:E;
    [|pose proof (proj1 (proj2 (proj2 ok)) (at_ n) (p +:+ s) v ttl c) as X; by rewrite E in X].
  destruct (SetNX_law _ _ _ _ _ _ _ E (after n) Hsp) as [(Hn & Hw & Hb)|(Hs & Hb & Hl)]; [rewrite (Hh (at_ n) s) in Hn by lia|rewrite (Hh (at_ n) s) in Hl by lia].
  - rewrite Hn in H. destruct b; [|done]. apply H. by eapply written_holds.
  - destruct b; [done|]. specialize (Hl eq_refl). rewrite (bool_decide_eq_true_2 (is_Some _)) in H by done. apply H. apply holds_next. intros t' s' Ht. rewrite (Hs _ _ Ht). by apply Hh.
Qed.

Lemma del_step n m c s v k : holds (at_ n) m c →
  (∀ c', holds (at_ (S n)) (if bool_decide (value_at (at_ n) (m !! s) = Some v) then delete s m else m) c' → passes at_ k (S n) c' = true) →
  passes at_ (CDelIfValue (p +:+ s) v k) n c = true.
Proof.
  intros Hh H. simpl. destruct (c_DelIfValue (at_ n) (p +:+ s) v c) as [[[]|e] c'] eqn:E; [|pose proof (proj2 (proj2 (proj2 ok)) (at_ n) (p +:+ s) v c) as X; by rewrite E in X].
  destruct (Del_law _ _ _ _ _ _ E (after n)) as [Hd|[? _]]; [|done]. apply H, holds_next. intros t s' Ht. rewrite (Hd t _ Ht), prefix_eqb, (Hh (at_ n) s) by lia.
  case_bool_decide; rewrite ?andb_true_r, ?andb_false_r; [|by apply Hh]. destruct (String.eqb_spec s' s) as [->|Hne].
  - by rewrite lookup_delete_eq.
  - rewrite lookup_delete_ne by done. by apply Hh.
Qed.

Lemma missing_step n m c s k : holds (at_ n) m c → value_at (at_ n) (m !! s) = None → (∀ c', holds (at_ (S n)) m c' → passes at_ k (S n) c' = true) →
  passes at_ (want_missing p s k) n c = true.
Proof. intros Hh Hv H. apply (get_step n m); [done|]. intros c' v Hh' _. rewrite Hv. by apply H. Qed.

Lemma value_step n m c s v k : holds (at_ n) m c → value_at (at_ n) (m !! s) = Some v → (∀ c', holds (at_ (S n)) m c' → passes at_ k (S n) c' = true) →
  passes at_ (want_value p s v k) n c = true.
Proof.
  intros Hh Hv H. apply (get_step n m); [done|]. intros c' w Hh' Hw. rewrite Hv in *. rewrite (Hw v eq_refl), bool_decide_eq_true_2 by done. simpl.
  rewrite String.eqb_refl. by apply H.
Qed.

Lemma want_nx_step n m c s v ttl b k : span (C := C) ttl → holds (at_ n) m c → bool_decide (is_Some (value_at (at_ n) (m !! s))) = negb b →
  (∀ c', holds (at_ (S n)) (if b then <[s := (v, ends (at_ n) ttl)]> m else m) c' → passes at_ k (S n) c' = true) → passes at_ (want_nx p s v ttl b k) n c = true.
Proof. intros Hsp Hh Hb H. apply (nx_step n m); [done..|]. rewrite Hb. intros c' Hh'. destruct b; simpl in *; by apply H. Qed.

Lemma matching_step n m c v ttl k : span (C := C) ttl → holds (at_ n) m c → (0 < ttl → at_ (S n) < until (at_ n) ttl) →
  (∀ c', holds (at_ (S (S (S n)))) (delete "conditional"%string (<["conditional"%string := (v, ends (at_ n) ttl)]> m)) c' → passes at_ k (S (S (S n))) c' = true) →
  passes at_ (matching p v ttl k) n c = true.
Proof.
  intros Hsp Hh Hlt H. apply (set_step n m); [done..|]. intros c1 H1. eapply del_step; [exact H1|]. rewrite lookup_insert_eq.
  assert (value_at (at_ (S n)) (Some (v, ends (at_ n) ttl)) = Some v) as ->.
  { unfold value_at, ends. destruct (Z.leb_spec ttl 0); [done|]. by destruct (Z.ltb_spec (at_ (S n)) (until (at_ n) ttl)); [|lia]. }
  rewrite bool_decide_eq_true_2 by done. intros c2 H2. eapply missing_step; [exact H2|by rewrite lookup_delete_eq|]. done.
Qed.

Lemma value_forever t now v : value_at t (Some (v, ends now 0)) = Some v.
Proof. done. Qed.

Hypothesis spans : span (C := C) 0 ∧ span (C := C) (30 * Millisecond) ∧ span (C := C) (3600 * Second).

Lemma rounds_pass orders : ∀ n m c, holds (at_ n) m c → passes at_ (rounds p orders) n c = true.
Proof.
  destruct spans as (S0 & _). induction orders as [|b orders IH]; intros n m c Hh; [done|]. cbn [rounds]. apply (set_step n m); [done..|]. intros c1 H1. destruct b.
  - eapply set_step; [done|exact H1|]. intros c2 H2. eapply del_step; [exact H2|]. rewrite lookup_insert_eq, value_forever, bool_decide_eq_false_2 by done.
    intros c3 H3. eapply value_step; [exact H3|by rewrite lookup_insert_eq|]. intros c4. apply IH.
  - eapply del_step; [exact H1|]. rewrite lookup_insert_eq, value_forever, bool_decide_eq_true_2 by done.
    intros c2 H2. eapply set_step; [done|exact H2|]. intros c3 H3. eapply value_step; [exact H3|by rewrite lookup_insert_eq|]. intros c4. apply IH.
Qed.

(** The suite sleeps before its eighth call and takes less than an hour. *)
Hypothesis slept : at_ 6 + 60 * Millisecond ≤ at_ 7.
Hypothesis brisk : ∀ n, at_ n < at_ 0 + 3600 * Second.

Lemma at_le n k : at_ n ≤ at_ (k + n).
Proof. induction k as [|k IH]; simpl; [lia|]. specialize (mono (k + n)). lia. Qed.

Lemma expired n v k : (n ≤ 6)%nat → value_at (at_ (k + 7)) (Some (v, ends (at_ n) (30 * Millisecond))) = None.
Proof.
  intros Hn. unfold value_at, ends. pose proof (until_law (at_ n) (30 * Millisecond) ltac:(unfold Millisecond; lia) (proj1 (proj2 spans))).
  pose proof (at_le 7 k). pose proof (at_le n (6 - n)). replace (6 - n + n)%nat with 6%nat in * by lia. unfold Millisecond in *. simpl.
  destruct (Z.ltb_spec (at_ (k + 7)) (until (at_ n) (30 * 1000000))); [lia|done].
Qed.

Lemma within_hour n v k : value_at (at_ k) (Some (v, ends (at_ n) (3600 * Second))) = Some v ∧ at_ k < until (at_ n) (3600 * Second).
Proof.
  pose proof (until_law (at_ n) (3600 * Second) ltac:(unfold Second; lia) (proj2 (proj2 spans))). pose proof (brisk k). pose proof (at_le 0 n). rewrite Nat.add_0_r in *.
  unfold value_at, ends. replace (3600 * Second <=? 0) with false by done. by destruct (Z.ltb_spec (at_ k) (until (at_ n) (3600 * Second))); [split; [|lia]|lia].
Qed.

(** One call of the suite, on the cache as the call before left it. *)
Ltac step lem := eapply lem; [try done; try eassumption..|]; try (intros ? ?).

Lemma Run_passes orders c : holds (at_ 0) ∅ c → passes at_ (Run p orders) 0 c = true.
Proof.
  destruct spans as (S0 & S30 & Sh). intros Hh. unfold Run. step missing_step. step set_step. step value_step. step want_nx_step.
  step want_nx_step. step set_step. step set_step. unfold afterSleep. step missing_step; [apply (expired 5 _ 0); lia|].
  eapply del_step; [eassumption|]. pose proof (expired 6 "v" 1 ltac:(lia)) as E1. cbn [Nat.add] in E1. rewrite lookup_insert_eq, E1, bool_decide_eq_false_2 by done. intros ? ?.
  step missing_step; [apply (expired 6 _ 2); lia|]. pose proof (expired 5 "v" 3 ltac:(lia)) as E2. cbn [Nat.add] in E2.
  step want_nx_step; [by rewrite lookup_insert_ne, lookup_insert_eq, E2|]. unfold delIfValueTests.
  step matching_step. step matching_step; [intros _; apply (within_hour _ "")|]. step matching_step.
  eapply del_step; [eassumption|]. rewrite bool_decide_eq_false_2 by done. intros ? ?. step missing_step. step set_step. step set_step.
  eapply del_step; [eassumption|]. rewrite lookup_insert_eq, value_forever, bool_decide_eq_false_2 by done. intros ? ?. step value_step. step value_step; [apply (within_hour 4)|].
  by eapply rounds_pass.
Qed.
End Proof.

(** ** The drivers *)

(** The times of the calls: they do not go back, the sleep is before the eighth, and the suite takes less than an hour. *)
Record suite_clock (at_ : nat → Z) : Prop := {
  sc_mono n : at_ n ≤ at_ (S n);
  sc_start : zeroTime < at_ 0%nat;
  sc_slept : at_ 6%nat + 60 * Millisecond ≤ at_ 7%nat;
  sc_brisk n : at_ n < at_ 0%nat + 3600 * Second }.

Lemma local_reliable : reliable (C := Local).
Proof.
  split_and!; intros; simpl; [unfold lc_Get|done|unfold lc_SetNX|unfold lc_DelIfValue]; by destruct (lc_get _ _ _) as [[]].
Qed.

Lemma redis_reliable : reliable (C := Strings).
Proof. split_and!; intros; simpl; [done|done| |done]. unfold rc_SetNX. by destruct (SET_NX _ _ _ _ _). Qed.

Lemma pg_reliable `{PI : PgInterval} : reliable (C := CacheTable).
Proof. split_and!; intros; simpl; [done|done| |done]. unfold pc_SetNX. by destruct (CacheGen.SetNX _ _ _ _ _). Qed.

Lemma local_suite at_ p orders : suite_clock at_ → passes at_ (Run p orders) 0 (∅ : Local) = true.
Proof. intros []. apply Run_passes; try done. apply local_reliable. Qed.

Lemma redis_suite at_ p orders : suite_clock at_ → passes at_ (Run p orders) 0 (∅ : Strings) = true.
Proof.
  intros []. apply Run_passes; try done; [apply redis_reliable|]. split_and!; [by left|apply millis_span|].
  replace (3600 * Second) with (3600000 * Millisecond) by done. apply millis_span.
Qed.

(** PostgreSQL keeps microseconds, so 30 ms are exact. *)
Lemma pg_suite `{PI : PgInterval} at_ p orders :
  interval (30 * Millisecond) = 30 * Millisecond → suite_clock at_ → passes at_ (Run p orders) 0 (∅ : CacheTable) = true.
Proof. intros Hi []. apply Run_passes; try done; [apply pg_reliable|]. split_and!; [by left|by right|apply seconds_span; lia]. Qed.

(** One call a millisecond, and the sleep: the suite notices a driver whose values live for ever. *)
Definition every_ms (n : nat) : Z := Z.of_nat n * Millisecond + if (n <=? 6)%nat then 0 else 60 * Millisecond.

Definition forever : Cache Local := {| c_Get := lc_Get; c_Set now k v _ := lc_Set now k v 0; c_SetNX now k v _ := lc_SetNX now k v 0; c_DelIfValue := lc_DelIfValue |}.

Example suite_decides :
  passes every_ms (Run "nexo:test:1:" [true; false; true]) 0 (∅ : Local) = true ∧
  passes (CC := forever) every_ms (Run "nexo:test:1:" [true; false; true]) 0 (∅ : Local) = false.
Proof. split; vm_compute; reflexivity. Qed.
End CacheSuite.

(** * The conformance suite of the stores ([internal/store/storetest])

    The tests every driver of the store runs, as programs over the methods of the interface. The models of the three drivers pass
    them, as the drivers do: each as its own tests call them. The calls that a test makes concurrently run in the order they are
    written, since each of their transactions is one step; the tests of nested transactions and of the row lock are left out. *)
Module StoreSuite.
From S2P Require Import Prelude Errcode Strconv Identity Json Store PgStore Conv DbInv Conc RateLimit MemberCache World ConvPage MessageSvc History WorldInv MessageInv Paging MemStore MemThms GormStore GormThms.
Local Open Scope Z_scope.

(** ** Tests *)

(** The body of a transaction: its error, and what it leaves in the variables around it. *)
Inductive txn (R : Type) : Type :=
| XReturn (e : err) (x : R)
| XCall {A} (o : StoreOp A) (k : result A → txn R).
Arguments XReturn {R}.
Arguments XCall {R A}.

Inductive stest : Type :=
| TPass
| TFatal
| TCall {A} (o : StoreOp A) (k : result A → stest)
| TWithTx {R} (body : txn R) (k : err → R → stest).

Section Drivers.
Variables (driver : ∀ A, StoreOp A → Db → option (result A) * Db) (rollback : bool).

Fixpoint run_txn {R} (t : txn R) (d : Db) : option (err * R) * Db :=
  match t with
  | XReturn e x => (Some (e, x), d)
  | XCall o k => match driver _ o d with (Some r, d) => run_txn (k r) d | (None, d) => (None, d) end
  end.

(** Whether the test passes, and the tables it leaves. *)
Fixpoint run_test (t : stest) (d : Db) : bool * Db :=
  match t with
  | TPass => (true, d)
  | TFatal => (false, d)
  | TCall o k => match driver _ o d with (Some r, d) => run_test (k r) d | (None, d) => (false, d) end
  | TWithTx body k =>
      match run_txn body d with
      | (Some (e, x), d') => run_test (k e x) (match e with Some _ => if rollback then d else d' | None => d' end)
      | (None, d) => (false, d)
      end
  end.

Fixpoint run_tests (ts : list stest) (d : Db) : bool :=
  match ts with [] => true | t :: ts => let '(b, d) := run_test t d in b && run_tests ts d end.
End Drivers.

Definition require (b : bool) (k : stest) : stest := if b then k else TFatal.

(** A call that must succeed, with a condition on its answer. *)
Definition must {A} (o : StoreOp A) (f : A → bool) (k : stest) : stest := TCall o (λ r, match r with Ok x => require (f x) k | Err _ => TFatal end).

Definition nofail {A} (o : StoreOp A) (k : stest) : stest := must o (λ _, true) k.

(** A call that must fail with a sentinel. *)
Definition wants {A} (o : StoreOp A) (s : sentinel) (k : stest) : stest := TCall o (λ r, match r with Err e => require (Is e s) k | Ok _ => TFatal end).

(** A transaction, with a condition on its outcome. *)
Definition tx {R} (body : txn R) (f : err → R → bool) (k : stest) : stest := TWithTx body (λ e x, require (f e x) k).

Definition no_error (e : err) : bool := match e with None => true | Some _ => false end.

(** A call whose error is not looked at. *)
Definition ignore {A} (o : StoreOp A) (k : stest) : stest := TCall o (λ _, k).

Definition seqb (a b : string) : bool := (a =? b)%string.

Definition baseTime : Z := 1700000000000 * Millisecond.
Definition ms (n : Z) : Z := baseTime + n * Millisecond.

(** A test is a chain of steps, each given the rest. *)
#[local] Notation "s ;;; k" := (s k) (at level 100, k at level 200, right associativity, only parsing).

(** ** [users.go] *)

Definition RunUsers : stest :=
  let now := baseTime in
  nofail (OUpsertUser (mkUser "u___1" "" "" "a" "" "" now now)) ;;;
  nofail (OUpsertUser (mkUser "u___1" "" "" "b" "" "" now (ms 1))) ;;;
  must (OGetUser "u___1") (λ u, seqb (User_Nickname u) "b" && (User_CreatedAt u =? now) && (User_UpdatedAt u =? ms 1)) ;;;
  nofail (OUpdateUserProfile "u___1" None (Some "http://av"%string) None (ms 2)) ;;;
  must (OGetUser "u___1") (λ u, seqb (User_Nickname u) "b" && seqb (User_Avatar u) "http://av" && (User_UpdatedAt u =? ms 2)) ;;;
  nofail (OUpdateUserProfile "u___1" None (Some "http://av"%string) None (ms 2)) ;;;
  wants (OUpdateUserProfile "u___404" (Some "x"%string) None None now) store_ErrNotFound ;;;
  nofail (OCreateUser (mkUser "nx__1" "alice" "h" "" "" "" now now)) ;;;
  wants (OCreateUser (mkUser "nx__1" "" "" "" "" "" now now)) store_ErrDuplicate ;;;
  must (OGetUserByUsername "alice") (λ u, seqb (User_Id u) "nx__1" && seqb (User_PasswordHash u) "h") ;;;
  wants (OGetUser "u___404") store_ErrNotFound ;;;
  must (OGetUsers ["u___1"; "nx__1"; "u___404"]%string) (λ l, (length l =? 2)%nat) ;;;
  must (OGetUsers []) (λ l, (length l =? 0)%nat) ;;;
  tx
     (XCall (OUpsertUser (mkUser "u___tx" "" "" "" "" "" now now)) (λ r, match r with Err e => XReturn (Some e) tt | Ok _ => XReturn (Some (EOther "rollback")) tt end))
     (λ e _, match e with Some (EOther m) => seqb m "rollback" | _ => false end) ;;;
  wants (OGetUser "u___tx") store_ErrNotFound ;;;
  TPass.

(** ** [groups.go] *)

Definition RunGroups : stest :=
  let now := baseTime in
  let g := mkGroup "g1" "team" "" "" "u___1" 0 "" now now in
  let members := [mkGroupMember "g1" "u___1" RoleOwner "" "" now; mkGroupMember "g1" "u___2" RoleMember "" "u___1" now] in
  nofail (OCreateGroup g members) ;;;
  wants (OCreateGroup g []) store_ErrDuplicate ;;;
  must (OGetGroup "g1") (λ g, seqb (Group_Name g) "team" && (Group_Status g =? GroupStatusNormal)) ;;;
  wants (OGetGroup "g404") store_ErrNotFound ;;;
  nofail (OAddGroupMember (mkGroupMember "g1" "u___3" RoleMember "" "" (ms 1))) ;;;
  wants (OAddGroupMember (mkGroupMember "g1" "u___3" 0 "" "" now)) store_ErrDuplicate ;;;
  must (OCountGroupMembers "g1") (λ n, n =? 3) ;;;
  must (OListGroupMembers "g1") (λ l, match l with [a; _; c] => seqb (GM_UserId a) "u___1" && seqb (GM_UserId c) "u___3" | _ => false end) ;;;
  must (OGetGroupMember "g1" "u___2") (λ m, (GM_Role m =? RoleMember) && seqb (GM_InviterUserId m) "u___1") ;;;
  must (OListUserGroupIds "u___3") (λ l, match l with [x] => seqb x "g1" | _ => false end) ;;;
  must (ORemoveGroupMember "g1" "u___3") (λ b, b) ;;;
  must (ORemoveGroupMember "g1" "u___3") negb ;;;
  wants (OGetGroupMember "g1" "u___3") store_ErrNotFound ;;;
  TPass.

(** The row of a member of a group conversation, with the zero values of the fields that are not given. *)
Definition groupRow (owner conv group : string) (minSeq readSeq updated : Z) : UserConversation :=
  mkUC owner conv ConversationGroup "" group minSeq 0 readSeq 0 false "" updated zeroTime.

Definition RunConversations : stest :=
  let now := baseTime in
  let conv := "sg_g1"%string in
  let row f k := must (OGetUserConversation "u___1" conv) f k in
  let visible seq f k := must (OVisibleOwners conv ["u___1"; "u___9"]%string seq) f k in
  tx
    (XCall (OLockConversation conv ConversationGroup "g1" now) (λ r, match r with
       | Err e => XReturn (Some e) false
       | Ok c =>
           let fresh := (Conv_MaxSeq c =? 0) && seqb (Conv_GroupId c) "g1" && (Conv_CreatedAt c =? now) in
           XCall (OUpsertUserConversation (groupRow "u___1" conv "g1" 1 0 now)) (λ r, XReturn (match r with Ok _ => None | Err e => Some e end) fresh)
       end))
    (λ e fresh, no_error e && fresh) ;;;
  row (λ u, (UC_MinSeq u =? 1) && (UC_MaxSeq u =? 0) && (UC_CreatedAt u =? now)) ;;;
  nofail (OSetUserConversationMaxSeq "u___1" conv 7) ;;;
  row (λ u, UC_MaxSeq u =? 7) ;;;
  must (OGetUserConversationRow "u___1" conv) (λ r, let u := Row_UC r in
     seqb (UC_OwnerId u) "u___1" && seqb (UC_ConversationId u) conv && (UC_MinSeq u =? 1) && (UC_MaxSeq u =? 7) && (Row_ConvMaxSeq r =? 0) && (UC_CreatedAt u =? now)) ;;;
  visible 7 (λ l, match l with [x] => seqb x "u___1" | _ => false end) ;;;
  visible 8 (λ l, (length l =? 0)%nat) ;;;
  nofail (OUpsertUserConversation (groupRow "u___1" conv "g1" 8 7 (ms 5))) ;;;
  row (λ u, (UC_MinSeq u =? 8) && (UC_MaxSeq u =? 0) && (UC_ReadSeq u =? 7) && (UC_UpdatedAt u =? ms 5) && (UC_CreatedAt u =? now)) ;;;
  visible 7 (λ l, (length l =? 0)%nat) ;;;
  visible 8 (λ l, (length l =? 1)%nat) ;;;
  nofail (OSetUserConversationOpt "u___1" conv (Some 1) (Some true)) ;;;
  row (λ u, (UC_RecvMsgOpt u =? 1) && UC_IsPinned u && (UC_UpdatedAt u =? ms 5)) ;;;
  nofail (OSetUserConversationOpt "u___1" conv None (Some false)) ;;;
  row (λ u, (UC_RecvMsgOpt u =? 1) && negb (UC_IsPinned u)) ;;;
  wants (OSetUserConversationOpt "u___9" conv (Some 0) None) store_ErrNotFound ;;;
  nofail (OCreateUserConversations [groupRow "u___7" conv "g1" 1 0 now; groupRow "u___8" conv "g1" 1 0 now]) ;;;
  must (OGetUserConversation "u___8" conv) (λ u, (UC_MinSeq u =? 1) && (UC_CreatedAt u =? now)) ;;;
  must (OMutedOwners conv ["u___1"; "u___9"]%string) (λ l, match l with [x] => seqb x "u___1" | _ => false end) ;;;
  wants (OGetUserConversation "u___9" conv) store_ErrNotFound ;;;
  wants (OGetUserConversationRow "u___9" conv) store_ErrNotFound ;;;
  nofail (ODeleteUserConversation "u___7" conv) ;;;
  wants (OGetUserConversation "u___7" conv) store_ErrNotFound ;;;
  wants (OGetUserConversationRow "u___7" conv) store_ErrNotFound ;;;
  TPass.

(** ** [messages.go] *)

Definition singleRow (owner conv peer : string) (updated : Z) : UserConversation := mkUC owner conv ConversationSingle peer "" 0 0 0 0 false "" updated zeroTime.

Definition zeroMessage : Message := mkMessage "" 0 "" "" "" "" "" 0 0 "" zeroTime zeroTime.

(** [send]: the transaction of the service; the message, and whether it was inserted. *)
Definition send (conv sender recv clientId : string) (now : Z) (f : Message → bool → bool) : stest → stest :=
  let failed {A} (r : result A) (k : txn (Message * bool)) (x : Message * bool) := match r with Ok _ => k | Err e => XReturn (Some e) x end in
  tx (XCall (OLockConversation conv ConversationSingle "" now) (λ r, match r with
      | Err e => XReturn (Some e) (zeroMessage, false)
      | Ok c =>
          let m := mkMessage conv (Conv_MaxSeq c + 1) (conv +:+ ":" +:+ FormatInt (Conv_MaxSeq c + 1)) clientId sender recv "" ConversationSingle 1 "{}" now now in
          XCall (OInsertMessage m) (λ r, match r with
          | Err e => XReturn (Some e) (zeroMessage, false)
          | Ok false => XReturn None (zeroMessage, false)
          | Ok true =>
              XCall (OSetConversationMaxSeq conv (Msg_Seq m) now) (λ r, failed r
              (XCall (OTouchUserConversation (singleRow sender conv recv now) (Msg_Seq m)) (λ r, failed r
              (XCall (OTouchUserConversation (singleRow recv conv sender now) 0) (λ r, failed r (XReturn None (m, true)) (m, true))) (zeroMessage, true)))
              (zeroMessage, true))
          end)
      end))
    (λ e '(m, inserted), no_error e && f m inserted).

Definition sends (conv sender recv prefix : string) (now : Z) (n : nat) (k : stest) : stest :=
  foldr (λ i k, send conv sender recv (prefix +:+ FormatInt (Z.of_nat i)) now (λ _ _, true) k) k (seq 0 n).

Definition key (conv : string) (seq : Z) : MessageKey := mkMessageKey conv seq.

Definition RunMessages : stest :=
  let now := baseTime in
  let conv := "si_u___1:u___2"%string in
  let g := "sg_g9"%string in
  let other := "si_u___1:u___4"%string in
  let cursor r := mkListCursor (UC_UpdatedAt (Row_UC r)) (UC_ConversationId (Row_UC r)) in
  let id r := UC_ConversationId (Row_UC r) in
  send conv "u___1" "u___2" "c1" now (λ m ok, ok && (Msg_Seq m =? 1)) ;;;
  send conv "u___1" "u___2" "c1" (ms 1) (λ _ ok, negb ok) ;;;
  must (OGetMessageByClientId conv "u___1" "c1") (λ m, Msg_Seq m =? 1) ;;;
  wants (OGetMessageByClientId conv "u___2" "c1") store_ErrNotFound ;;;
  must (OGetUserConversation "u___1" conv) (λ u, (UC_ReadSeq u =? 1) && (UC_MinSeq u =? 1)) ;;;
  must (OGetUserConversation "u___2" conv) (λ u, (UC_ReadSeq u =? 0) && seqb (UC_PeerUserId u) "u___1" && (UC_UpdatedAt u =? now)) ;;;
  sends conv "u___2" "u___1" "p" (ms 2) 50 ;;;
  must (OListMessages conv 1 maxInt64 100) (λ l, bool_decide (map Msg_Seq l = seqZ 1 51)) ;;;
  must (OListMessages conv 10 20 5) (λ l, bool_decide (map Msg_Seq l = seqZ 10 5)) ;;;
  must (OGetMessages [key conv 3; key conv 51; key conv 999; key "sg_none" 1]) (λ l, (length l =? 2)%nat) ;;;
  must (OGetUserConversationRow "u___1" conv) (λ r, (Row_ConvMaxSeq r =? 51) && (UC_MaxSeq (Row_UC r) =? 0) && (UC_ReadSeq (Row_UC r) =? 1)) ;;;
  must (OGetUserConversation "u___1" conv) (λ u, (UC_ReadSeq u =? 1) && (UC_UpdatedAt u =? ms 2)) ;;;
  nofail (OAdvanceReadSeq "u___1" conv 30) ;;;
  nofail (OAdvanceReadSeq "u___1" conv 10) ;;;
  must (OGetUserConversation "u___1" conv) (λ u, UC_ReadSeq u =? 30) ;;;
  tx (XCall (OLockConversation g ConversationGroup "g9" now) (λ r, XReturn (match r with Ok _ => None | Err e => Some e end) tt)) (λ _ _, true) ;;;
  ignore (OUpsertUserConversation (groupRow "u___1" g "g9" 1 0 now)) ;;;
  ignore (OUpsertUserConversation (groupRow "u___3" g "g9" 1 0 now)) ;;;
  ignore (OSetUserConversationMaxSeq "u___3" g 5) ;;;
  nofail (OTouchConversationMembers g (ms 100)) ;;;
  must (OGetUserConversation "u___1" g) (λ u, UC_UpdatedAt u =? ms 100) ;;;
  must (OGetUserConversation "u___3" g) (λ u, UC_UpdatedAt u =? now) ;;;
  (λ k, TCall (OListUserConversations "u___1" FirstPage 1) (λ r, match r with
     | Ok [first] =>
         require (seqb (id first) g && (Row_ConvMaxSeq first =? 0)) ;;;
         TCall (OListUserConversations "u___1" (cursor first) 10) (λ r, match r with
         | Ok [s1; s2] =>
             require (seqb (id s1) "sg_g1" && seqb (id s2) conv && (Row_ConvMaxSeq s2 =? 51)) ;;;
             must (OListUserConversations "u___1" (cursor s2) 10) (λ l, (length l =? 0)%nat) ;;; k
         | _ => TFatal
         end)
     | _ => TFatal
     end)) ;;;
  sends other "u___1" "u___4" "o" (ms 3) 3 ;;;
  must (OGetMessages [key conv 3; key other 1])
    (λ l, (length l =? 2)%nat && forallb (λ m, (seqb (Msg_ConversationId m) conv && (Msg_Seq m =? 3)) || (seqb (Msg_ConversationId m) other && (Msg_Seq m =? 1))) l) ;;;
  TPass.

(** ** [online.go] *)

Definition RunOnline : stest :=
  let now := baseTime in
  let minute := 60 * Second in
  let add conn user platform node at_ k := nofail (OUpsertOnlineConn (mkOnlineConn conn user platform node at_)) k in
  add "c1"%string "u___1"%string 1 "n1"%string now ;;;
  add "c2"%string "u___1"%string 2 "n2"%string now ;;;
  add "c3"%string "u___2"%string 5 "n2"%string (now - 2 * minute) ;;;
  add "c1"%string "u___1"%string 3 "n1"%string now ;;;
  must (OListOnlineConns ["u___1"; "u___2"]%string (now - minute))
    (λ l, (length l =? 2)%nat && forallb (λ r, negb (seqb (OC_ConnId r) "c1") || (OC_PlatformId r =? 3)) l) ;;;
  nofail (ORenewOnlineConns "n2" ["c2"%string] (now + minute)) ;;;
  must (OListOnlineConns ["u___1"%string] now) (λ l, match l with [r] => seqb (OC_ConnId r) "c2" && (OC_HeartbeatAt r =? now + minute) | _ => false end) ;;;
  must (OListOnlineConns ["u___2"%string] now) (λ l, (length l =? 0)%nat) ;;;
  nofail (ODeleteOnlineConnsByNode "n2") ;;;
  nofail (ODeleteOnlineConn "c1") ;;;
  must (OListOnlineConns ["u___1"; "u___2"]%string (now - 60 * minute)) (λ l, (length l =? 0)%nat) ;;;
  TPass.

(** ** [constraints.go] *)

Definition quoted (s : string) : string := String.String dquote (s +:+ String.String dquote "").
Definition object1 (key val : string) : string := "{" +:+ quoted key +:+ ":" +:+ quoted val +:+ "}".

Definition constraintTime : Z := 1700000100123 * Millisecond.

#[local] Instance uc_eq_dec : EqDecision UserConversation.
Proof. solve_decision. Defined.
#[local] Instance msg_eq_dec : EqDecision Message.
Proof. solve_decision. Defined.

(** [row] with another owner, conversation or creation time. *)
Definition ucRow (owner conv : string) (created : Z) : UserConversation :=
  mkUC owner conv ConversationSingle "u___9502" "" 3 9 5 1 true (object1 "label" "original") constraintTime created.

Definition checkRow (want : UserConversation) : stest → stest :=
  must (OGetUserConversation (UC_OwnerId want) (UC_ConversationId want)) (λ got, bool_decide (got = want)).

Definition duplicateRows (withinBatch : bool) : stest → stest :=
  let now := constraintTime in
  let hourAgo := now - 3600 * Second in
  let original := ("constraints-uc-" +:+ (if withinBatch then "within_batch" else "existing"))%string in
  let fresh := (original +:+ "-new")%string in
  let duplicate := mkUC "u___9501" (if withinBatch then fresh else original) ConversationGroup "" "constraints-group" 10 0 9 0 false (object1 "label" "replacement")
                     (now + 60 * Second) (now + 3600 * Second) in
  λ k,
  nofail (OCreateUserConversations [ucRow "u___9501" original hourAgo]) ;;;
  wants (OCreateUserConversations [ucRow "u___9501" fresh hourAgo; duplicate]) store_ErrDuplicate ;;;
  checkRow (ucRow "u___9501" original now) ;;;
  wants (OGetUserConversation "u___9501" fresh) store_ErrNotFound ;;; k.

Definition CreateUserConversationsTests : stest → stest :=
  let now := constraintTime in
  let rows created := [ucRow "u___9501" "si_u___9501:u___9502" created; ucRow "u___9502" "si_u___9501:u___9502" created; ucRow "u___9501" "si_u___9501:u___9503" created] in
  λ k,
  nofail (OCreateUserConversations (rows (now - 3600 * Second))) ;;;
  foldr checkRow (duplicateRows false ;;; duplicateRows true ;;; nofail (OCreateUserConversations []) ;;; nofail (OCreateUserConversations []) ;;; k) (rows now).

(** Text that is not JSON, in the longest column. *)
Definition opaque : string := " " +:+ String.String (Ascii.ascii_of_nat 10) ("not JSON 中文 😀 " +:+ String.String (Ascii.ascii_of_nat 9) "").

Fixpoint Repeat (s : string) (n : nat) : string := match n with O => "" | S n => s +:+ Repeat s n end.

Definition maxExtra : string := opaque +:+ Repeat "a" (Z.to_nat (MaxExtraBytes - Z.of_nat (String.length opaque))).

Definition MaxExtraBytesTests (extra : string) : stest → stest :=
  let now := constraintTime in
  λ k,
  nofail (OUpsertUser (mkUser "u___9701" "" "" "" "" extra now now)) ;;;
  must (OGetUser "u___9701") (λ u, seqb (User_Extra u) extra) ;;;
  nofail (OCreateGroup (mkGroup "constraints-extra" "extra" "" "" "u___9701" 0 extra now now) []) ;;;
  must (OGetGroup "constraints-extra") (λ g, seqb (Group_Extra g) extra) ;;;
  nofail (OCreateUserConversations [mkUC "u___9701" "constraints-extra-uc" ConversationGroup "" "constraints-extra" 1 0 0 0 false extra now now]) ;;;
  must (OGetUserConversation "u___9701" "constraints-extra-uc") (λ u, seqb (UC_Extra u) extra) ;;; k.

(** A message of the test that differs in its keys. *)
Definition textMessage (conv : string) (seq : Z) (server client sender : string) : Message :=
  mkMessage conv seq server client sender "u___9602" "" ConversationSingle 1 (object1 "text" "original") constraintTime constraintTime.

Definition imageMessage (conv : string) (seq : Z) (server client sender : string) : Message :=
  mkMessage conv seq server client sender "u___9602" "" ConversationSingle 2 (object1 "url" "https://example.test/image.png") (constraintTime + Second) (constraintTime + Second).

(** One case: a candidate beside the original, and whether it may be inserted. *)
Definition insertCase (name : string) (candidate : string → Message) (insert : bool) : stest → stest :=
  let prefix := "constraints-" +:+ name in
  let original := textMessage prefix 1 (prefix +:+ "-original") "original" "u___9601" in
  let c := candidate prefix in
  let convs := if seqb (Msg_ConversationId c) prefix then [prefix] else [prefix; Msg_ConversationId c] in
  let want := if insert then [original; c] else [original] in
  λ k,
  must (OInsertMessage original) (λ b, b) ;;;
  must (OInsertMessage c) (Bool.eqb insert) ;;;
  foldr (λ conv k got, TCall (OListMessages conv 1 2 10) (λ r, match r with Ok rows => k (got ++ rows) | Err _ => TFatal end))
    (λ got, require (bool_decide (got = want)) k) convs [].

Definition InsertMessageTests : stest → stest :=
  λ k,
  insertCase "conversation_seq" (λ p, imageMessage p 1 p "candidate" "u___9601") false ;;;
  insertCase "client_msg_id" (λ p, imageMessage p 2 p "original" "u___9601") false ;;;
  insertCase "server_same_conversation" (λ p, imageMessage p 2 (p +:+ "-original") "candidate" "u___9601") false ;;;
  insertCase "server_cross_conversation" (λ p, imageMessage (p +:+ "-other") 2 (p +:+ "-original") "candidate" "u___9601") false ;;;
  insertCase "client_other_sender" (λ p, imageMessage p 2 p "original" "u___9603") true ;;;
  insertCase "client_other_conversation" (λ p, imageMessage (p +:+ "-other") 2 p "original" "u___9601") true ;;;
  insertCase "seq_other_conversation" (λ p, imageMessage (p +:+ "-other") 1 p "candidate" "u___9601") true ;;; k.

Definition RunInsertConstraints (extra : string) : stest := CreateUserConversationsTests ;;; MaxExtraBytesTests extra ;;; InsertMessageTests ;;; TPass.

(** ** The drivers *)

Definition suite (extra : string) : list stest := [RunUsers; RunGroups; RunConversations; RunMessages; RunOnline; RunInsertConstraints extra].

Definition pg_driver (A : Type) (o : StoreOp A) (d : Db) : option (result A) * Db := let '(r, d) := pg o d in (Some r, d).

Definition gorm_driver (s : GormStore) (A : Type) (o : StoreOp A) (d : Db) : option (result A) * Db := let '(r, d) := gorm s o d in (Some r, d).

(** PostgreSQL. *)
Example pg_suite_passes : run_tests pg_driver true (suite maxExtra) emptyDb = true.
Proof. vm_compute. reflexivity. Qed.

(** GORM: on PostgreSQL an update counts the rows it matched; on MySQL those it changed, and none when the values were set before. *)
Example gorm_suite_passes :
  run_tests (gorm_driver (mkGorm (refDB false (λ n, n)) false false)) true (suite maxExtra) emptyDb = true ∧
  run_tests (gorm_driver (mkGorm (refDB false (λ _, 0)) false false)) true (suite maxExtra) emptyDb = true.
Proof. split; vm_compute; reflexivity. Qed.

(** The in-memory store, which has no rollback, runs two of the suites; Go may range over its tables in either direction. *)
Definition forward : GoRange := {| range := λ K A _ _ m, rows m; range_perm := λ K A _ _ m, reflexivity (rows m) |}.
Definition backward : GoRange := {| range := λ K A _ _ m, reverse (rows m); range_perm := λ K A _ _ m, reverse_Permutation (rows m) |}.

Definition mem_driver (order : GoRange) (A : Type) (o : StoreOp A) (d : Db) : option (result A) * Db := mem o d.

Example mem_suite_passes :
  run_tests (mem_driver forward) false [RunGroups; RunInsertConstraints maxExtra] emptyDb = true ∧
  run_tests (mem_driver backward) false [RunGroups; RunInsertConstraints maxExtra] emptyDb = true.
Proof. split; vm_compute; reflexivity. Qed.

(** The suite tells drivers apart: an upsert that resets the creation time fails it. *)
Definition faulty (A : Type) (o : StoreOp A) (d : Db) : option (result A) * Db :=
  match o with
  | OUpsertUserConversation uc => (Some (Ok tt), (pg (OUpsertUserConversation uc) (pg (ODeleteUserConversation (UC_OwnerId uc) (UC_ConversationId uc)) d).2).2)
  | o => pg_driver _ o d
  end.

Example faulty_fails : run_tests faulty true (suite "") emptyDb = false.
Proof. vm_compute. reflexivity. Qed.
End StoreSuite.

(** * The conformance suite of the connection registries ([internal/onlinestore/onlinetest])

    The contract both drivers run, on a clock the suite controls. The models of the two drivers pass it, each with what it does not
    guarantee: the database cannot tell which registrations a renewal restored, and Redis leaves a purge to the expiry. *)
Module OnlineSuite.
From S2P Require Import Prelude Errcode Strconv Identity Store PgStore Conc RateLimit MemberCache World OnlineStore RedisOnline.
From S2P Require Import MessageSvc GroupSvc ConversationSvc UserSvc System.
Local Open Scope Z_scope.

(** ** The interface *)

Record OnlineDriver (D : Type) := mkOnlineDriver {
  od_Add : Z → string → ConnRef → D → err * D;
  od_Remove : Z → string → ConnRef → D → err * D;
  od_Renew : Z → string → list ConnRef → D → result (list ConnRef) * D;
  od_Online : Z → list string → D → result (gmap string (list Z)) * D;
  od_PurgeNode : Z → string → D → err * D }.
Arguments od_Add {D}.
Arguments od_Remove {D}.
Arguments od_Renew {D}.
Arguments od_Online {D}.
Arguments od_PurgeNode {D}.

Record Opts := mkOpts { Purgeless : bool; Reviveless : bool }.

#[export] Instance connref_eq_dec : EqDecision ConnRef.
Proof. solve_decision. Defined.

Section Suite.
Context {D : Type} (s : OnlineDriver D) (o : Opts).

(** A step of a test: whether to go on, and the store. *)
Definition test : Type := D → bool * D.

Definition must (f : D → err * D) : test := λ d, match f d with (None, d) => (true, d) | (Some _, d) => (false, d) end.

Definition online (now : Z) (users : list string) (f : gmap string (list Z) → bool) : test :=
  λ d, match od_Online s now users d with (Ok got, d) => (f got, d) | (Err _, d) => (false, d) end.

Fixpoint steps (ts : list test) : test :=
  match ts with [] => λ d, (true, d) | t :: ts => λ d, match t d with (true, d) => steps ts d | (false, d) => (false, d) end end.

Definition sorted (l : list Z) : list Z := merge_sort Z.le l.

Definition exactly (got : gmap string (list Z)) (user : string) (want : list Z) : bool := bool_decide (platforms got user = want).

(** The ids a pass of the contract makes up. *)
Record Names := mkNames { nm_u1 : string; nm_u2 : string; nm_missing : string; nm_n1 : string; nm_n2 : string; nm_conns : nat → string }.

(** [runContract] from [now]; the clock is moved past the time to live in the middle. *)
Definition runContract (now : Z) (x : Names) : test :=
  let later := now + 61 * Second in
  let '(u1, u2, n1, n2) := (nm_u1 x, nm_u2 x, nm_n1 x, nm_n2 x) in
  let a1 := mkConnRef u1 1 (nm_conns x 1) in
  let a2 := mkConnRef u1 2 (nm_conns x 2) in
  let a3 := mkConnRef u1 2 (nm_conns x 3) in
  let b1 := mkConnRef u2 5 (nm_conns x 4) in
  steps [
    must (od_Add s now n1 a1); must (od_Add s now n1 a2); must (od_Add s now n2 a3); must (od_Add s now n2 b1);
    online now [u1; u2; nm_missing x] (λ got, bool_decide (sorted (platforms got u1) = [1; 2]) && exactly got u2 [5] && exactly got (nm_missing x) []);
    must (od_Remove s now n1 a2);
    online now [u1] (λ got, bool_decide (sorted (platforms got u1) = [1; 2]));
    must (od_Remove s now n2 a3);
    online now [u1] (λ got, exactly got u1 [1]);
    must (od_PurgeNode s now n2);
    online now [u2] (λ got, exactly got u2 [] || Purgeless o);
    must (od_Add s now n2 b1);
    (λ d, match od_Renew s later n1 [a1] d with
          | (Ok revived, d) => (bool_decide (revived = if Reviveless o then [] else [a1]), d)
          | (Err _, d) => (false, d)
          end);
    online later [u1; u2] (λ got, exactly got u1 [1] && exactly got u2 []);
    must (od_Remove s later n1 a1); must (od_Remove s later n1 a2); must (od_Remove s later n2 a3); must (od_Remove s later n2 b1)].

(** [Run]: the contract twice, beside a connection of another node that must outlive it. *)
Definition Run (base : Z) (node : string) (foreign : ConnRef) (first second : Names) (d : D) : bool :=
  (steps [
    must (od_Add s (base + 3600 * Second) node foreign);
    runContract base first; runContract (base + 61 * Second) second;
    online (base + 122 * Second) [CR_UserId foreign] (λ got, exactly got (CR_UserId foreign) [CR_PlatformId foreign])] d).1.
End Suite.

(** ** The drivers *)

(** A clock that stands at [now], and no faults. *)
Definition standing (now : Z) : Env := {| clock _ := now; newV7 _ := ""; shortId _ := ""; fault _ := NoFault |}%string.

Definition registryConfig : Config := mkConfig 0 0 0 0 true (60 * Second) false.

#[local] Existing Instance countingLib.

Definition db_driver : OnlineDriver World :=
  mkOnlineDriver World
    (λ now node c, run (OnlineAdd (EN := standing now) node c))
    (λ now _ c, run (OnlineRemove (EN := standing now) c))
    (λ now node cs, run (OnlineRenew (EN := standing now) node cs))
    (λ now users, run (OnlineStore.Online (EN := standing now) registryConfig users))
    (λ now node, run (OnlineStore.PurgeNode (EN := standing now) node)).

(** The server's own clock is not the suite's: it stands at [at_] while the test runs. *)
Definition redis_driver (ttl at_ : Z) : OnlineDriver Redis :=
  mkOnlineDriver Redis
    (λ now node c db, (None, RedisOnline.Add ttl now at_ node c db))
    (λ _ node c db, (None, Remove at_ node c db))
    (λ now node cs db, let '(revived, db) := Renew ttl now node (map (λ c, (c, at_)) cs) db in (Ok revived, db))
    (λ now users db, (Ok (RedisOnline.Online now (map (λ u, (u, (at_, db))) users)), db))
    (λ _ node db, (None, RedisOnline.PurgeNode node db)).

Definition names (p : string) : Names :=
  mkNames (p +:+ "u1") (p +:+ "u2") (p +:+ "missing") (p +:+ "n1") (p +:+ "n2") (λ i, p +:+ "c" +:+ FormatInt (Z.of_nat i)).

Definition startTime : Z := 1700000000123 * Millisecond.

Definition foreign : ConnRef := mkConnRef "nx__foreign" 99 "c0".

(** The database driver restores a lost registration without knowing, the Redis driver purges nothing. *)
Example db_contract : Run db_driver (mkOpts false true) startTime "other" foreign (names "nx__a") (names "nx__b") (initWorld registryConfig (λ _, startTime)) = true.
Proof. vm_compute. reflexivity. Qed.

Example redis_contract : Run (redis_driver (60 * Second) startTime) (mkOpts true false) startTime "other" foreign (names "nx__a") (names "nx__b") ∅ = true.
Proof. vm_compute. reflexivity. Qed.

(** Both exceptions are needed. *)
Example exceptions_needed :
  Run db_driver (mkOpts false false) startTime "other" foreign (names "nx__a") (names "nx__b") (initWorld registryConfig (λ _, startTime)) = false ∧
  Run (redis_driver (60 * Second) startTime) (mkOpts false false) startTime "other" foreign (names "nx__a") (names "nx__b") ∅ = false.
Proof. split; vm_compute; reflexivity. Qed.
End OnlineSuite.
