(* ===== verification/Assembly.v ===== *)
(** * Assembly of a node ([internal/app/app.go], [server/server.go])

    [Build] opens the store, the cache, the bus and the online store, [App] drains and closes them, [ListenAndServe] runs the
    standalone server. Which clients and pools get opened, and in which order what happens, is a trace; whether a connection can be
    made is an environment. *)

From S2P Require Import NexoConfig.
From S2P Require Import Prelude Errcode Strconv Store PgStore Conc RateLimit World ConfigThms GormStore.

Local Open Scope Z_scope.

(** The pools and clients a node opens for itself. *)
Inductive Resource := StorePool | StoreGorm | CacheRedis | CachePg | BusRedis | BusPg | OnlineRedis.

#[export] Instance Resource_eq_dec : EqDecision Resource.
Proof. solve_decision. Defined.

Inductive Ev :=
| EOpen (r : Resource) | EClose (r : Resource)
| ECancel | EGwShutdown | EWaitPushes
| EDrained | EHttpShutdown | EHttpDone.

Definition opens (tr : list Ev) : list Resource := omap (λ e, match e with EOpen r => Some r | _ => None end) tr.

Definition closes (tr : list Ev) : list Resource := omap (λ e, match e with EClose r => Some r | _ => None end) tr.

(** Whether a pool or client can be set up, whether its server answers, and what a MySQL DSN says. *)
Class Network := { sets_up : Resource → bool; answers : Resource → bool; host_answers : bool }.

(** What the host injects. *)
Record Dependencies := mkDeps { Dp_Pusher : bool; Dp_Auth : bool; Dp_GormDb : bool; Dp_Pool : bool }.

Section App.
Context `{NW : Network} `{CL : ConfigLib}.

(** A computation that leaves a trace and may fail. *)
Definition B (A : Type) : Type := list Ev → (A + error) * list Ev.

(** A pool or client that is set up, and closed again when its server does not answer the first ping ([pinged]). *)
Definition open (r : Resource) (pinged : bool) : B unit := λ tr,
  if negb (sets_up r) then (inr (EOther "open"), tr)
  else if pinged && negb (answers r) then (inr (EOther "ping"), tr ++ [EOpen r; EClose r])
  else (inl tt, tr ++ [EOpen r]).

(** What [Close] of an opened part does: [None] when there is nothing of its own to close. *)
Abbreviation Closer := (option Resource).

(** [openStore]: the closer, and whether [Ping] succeeds. *)
Definition openStore (cfg : DbConfig) (deps : Dependencies) : B (Closer * bool) := λ tr,
  if Dp_GormDb deps && negb (Dc_Access cfg =? "gorm")%string then (inr (EOther "app: WithGormDb requires db.access=gorm"), tr)
  else if Dp_Pool deps && negb (Dc_Access cfg =? "sqlc")%string then (inr (EOther "app: WithPgxPool requires db.access=sqlc"), tr)
  else if Dp_GormDb deps then (inl (None, host_answers), tr)
  else if Dp_Pool deps then (inl (None, host_answers), tr)
  else if (Dc_Access cfg =? "sqlc")%string then
    match open StorePool false tr with (inl _, tr) => (inl (Some StorePool, answers StorePool), tr) | (inr e, tr) => (inr e, tr) end
  else
    match (if (Dc_Driver cfg =? "mysql")%string then Gorm.checkMysqlDsn (Dc_Dsn cfg) else None) with
    | Some e => (inr e, tr)
    | None => match open StoreGorm false tr with (inl _, tr) => (inl (Some StoreGorm, answers StoreGorm), tr) | (inr e, tr) => (inr e, tr) end
    end.

Definition openCache (cfg : NexoConfig) : B Closer := λ tr,
  if (Ca_Driver (CacheCfg cfg) =? "redis")%string then
    match open CacheRedis true tr with (inl _, tr) => (inl (Some CacheRedis), tr) | (inr e, tr) => (inr e, tr) end
  else if (Ca_Driver (CacheCfg cfg) =? "pg")%string then
    match open CachePg true tr with (inl _, tr) => (inl (Some CachePg), tr) | (inr e, tr) => (inr e, tr) end
  else (inl None, tr).

Definition openBus (cfg : NexoConfig) : B Closer := λ tr,
  if (Bs_Driver (BusCfg cfg) =? "redis")%string then
    match open BusRedis true tr with (inl _, tr) => (inl (Some BusRedis), tr) | (inr e, tr) => (inr e, tr) end
  else if (Bs_Driver (BusCfg cfg) =? "postgres")%string then
    match open BusPg false tr with (inl _, tr) => (inl (Some BusPg), tr) | (inr e, tr) => (inr e, tr) end
  else (inl None, tr).

Definition openOnlineStore (cfg : NexoConfig) : B Closer := λ tr,
  if (On_Driver (OnlineCfg cfg) =? "redis")%string then
    match open OnlineRedis true tr with (inl _, tr) => (inl (Some OnlineRedis), tr) | (inr e, tr) => (inr e, tr) end
  else (inl None, tr).

Definition openPusher (cfg : OfflinePushConfig) : bool := (Of_Driver cfg =? "webhook")%string.

(** The services of a node: the settings of [message.New] and [group.New], the chain and the internal routes. *)
Record Wiring := mkWiring { Wi_Config : Config; Wi_Chain : list string; Wi_Native : bool; Wi_Internal : bool }.

Record App := mkApp { Ap_closers : list Closer; Ap_wiring : Wiring; Ap_started : bool }.

Definition closing (c : Closer) : list Ev := match c with Some r => [EClose r] | None => [] end.

(** [closeAll]: the closers in reverse. *)
Definition closeAll (closers : list Closer) : list Ev := flat_map closing (reverse closers).

(** [buildAuth]: the providers it knows, and whether the native one is among them. *)
Definition buildAuth (cfg : AuthConfig) : list string * bool :=
  let known := List.filter (λ p, (p =? "external_jwt")%string || (p =? "native")%string) (AC_Providers cfg) in
  (known, in_list "native" known).

Definition wiring (cfg : NexoConfig) (deps : Dependencies) : Wiring :=
  let '(chain, native) := buildAuth (AuthCfg cfg) in
  mkWiring (mkConfig (Li_MaxContentBytes (LimitsCfg cfg)) (Li_GroupMemberCacheTtl (LimitsCfg cfg)) (Li_MessageSendPerMin (LimitsCfg cfg))
              (Li_GroupMaxMembers (LimitsCfg cfg)) true (On_Ttl (OnlineCfg cfg)) (Dp_Pusher deps || openPusher (OfflinePush cfg)))
    (if Dp_Auth deps then [] else chain) native (In_Enabled (InternalCfg cfg)).

Definition Build (cfg : NexoConfig) (deps : Dependencies) : B App := λ tr,
  let fail (closers : list Closer) (e : error) (tr : list Ev) : (App + error) * list Ev := (inr e, tr ++ closeAll closers) in
  match openStore (DbCfg cfg) deps tr with
  | (inr e, tr) => (inr e, tr)
  | (inl (st, pong), tr) =>
      if negb pong then fail [st] (EWrap "app: db ping" (EOther "ping")) tr
      else
        match openCache cfg tr with
        | (inr e, tr) => fail [st] e tr
        | (inl c, tr) =>
            match openBus cfg tr with
            | (inr e, tr) => fail [st; c] e tr
            | (inl b, tr) =>
                match openOnlineStore cfg tr with
                | (inr e, tr) => fail [st; c; b] e tr
                | (inl o, tr) => (inl (mkApp [st; c; b; o] (wiring cfg deps) false), tr)
                end
            end
        end
  end.

(** [server.New]. *)
Inductive NewErr := NInvalid (rs : list Rule) | NBuild (e : error).

Definition set_injected (cfg : NexoConfig) (deps : Dependencies) : NexoConfig :=
  mkNexo (NodeId cfg) (Server cfg)
    (mkDbConfig (Dc_Driver (DbCfg cfg)) (Dc_Access (DbCfg cfg)) (Dc_Dsn (DbCfg cfg)) (Dc_MaxOpenConns (DbCfg cfg)) (Dp_GormDb deps || Dp_Pool deps))
    (Redis cfg) (BusCfg cfg) (OnlineCfg cfg) (CacheCfg cfg) (OfflinePush cfg)
    (mkAuthConfig (AC_Providers (AuthCfg cfg)) (Dp_Auth deps) (AC_DefaultPlatformId (AuthCfg cfg)) (AC_ExternalJwt (AuthCfg cfg)) (AC_Native (AuthCfg cfg)))
    (InternalCfg cfg) (Ws cfg) (LimitsCfg cfg) (LogCfg cfg).

Definition New (cfg : NexoConfig) (deps : Dependencies) : (App + NewErr) * list Ev :=
  let cfg := set_injected cfg deps in
  match Validate cfg with
  | Some rs => (inr (NInvalid rs), [])
  | None =>
      match Build cfg deps [] with
      | (inl a, tr) => (inl a, tr)
      | (inr e, tr) => (inr (NBuild e), tr)
      end
  end.

(** ** The life of an app *)

(** [Drain]: the loops are cancelled if they were started, then the gateway shuts down. *)
Definition Drain (a : App) : App * list Ev := (a, (if Ap_started a then [ECancel] else []) ++ [EGwShutdown]).

(** [close]: the offline pushes are awaited while the dependencies are open. *)
Definition close (a : App) : App * list Ev :=
  (mkApp [] (Ap_wiring a) (Ap_started a), EWaitPushes :: closeAll (Ap_closers a)).

Definition Close (a : App) : App * list Ev := close a.

Definition Shutdown (a : App) : App * list Ev :=
  let '(a, t1) := Drain a in let '(a, t2) := close a in (a, t1 ++ t2).

Definition Start (a : App) : App * list Ev := (mkApp (Ap_closers a) (Ap_wiring a) true, []).

(** What a host may call, in any order and any number of times. *)
Inductive HostCall := HStart | HDrain | HShutdown | HClose.

Definition host_call (c : HostCall) (a : App) : App * list Ev :=
  match c with HStart => Start a | HDrain => Drain a | HShutdown => Shutdown a | HClose => Close a end.

Fixpoint host_calls (cs : list HostCall) (a : App) : App * list Ev :=
  match cs with
  | [] => (a, [])
  | c :: cs' => let '(a, t1) := host_call c a in let '(a, t2) := host_calls cs' a in (a, t1 ++ t2)
  end.

(** ** The standalone server *)

(** Which case of the [select] in [ListenAndServe] is taken: the HTTP server stopped, the bus loop ended (with an error or not), a signal. *)
Inductive Stop := StopHttp | StopBus (failed : bool) | StopSignal.

(** The interleavings of the goroutine that drains and of the HTTP shutdown. *)
Inductive interleave {A} : list A → list A → list A → Prop :=
| il_nil : interleave [] [] []
| il_left x l r t : interleave l r t → interleave (x :: l) r (x :: t)
| il_right x l r t : interleave l r t → interleave l (x :: r) (x :: t).

(** The trace of [ListenAndServe] after [New] gave [a]. *)
Inductive serve (a : App) : Stop → list Ev → Prop :=
| sv_http a' tr : Shutdown (Start a).1 = (a', tr) → serve a StopHttp (EHttpDone :: tr)
| sv_bus a' tr : Shutdown (Start a).1 = (a', tr) → serve a (StopBus true) tr
| sv_graceful stop a1 a2 drain both rest :
    stop = StopSignal ∨ stop = StopBus false →
    Drain (Start a).1 = (a1, drain) → interleave (drain ++ [EDrained]) [EHttpShutdown; EHttpDone] both → Close a1 = (a2, rest) →
    serve a stop (both ++ rest).
End App.

(** ** Lemmas *)

Definition opening (c : option Resource) : list Ev := match c with Some r => [EOpen r] | None => [] end.

(** The resource each part of a configuration asks for. *)
Definition storeOf (cfg : DbConfig) (deps : Dependencies) : option Resource :=
  if Dp_GormDb deps || Dp_Pool deps then None else Some (if decide (Dc_Access cfg = "sqlc"%string) then StorePool else StoreGorm).

Definition cacheOf (cfg : NexoConfig) : option Resource :=
  if decide (Ca_Driver (CacheCfg cfg) = "redis"%string) then Some CacheRedis
  else if decide (Ca_Driver (CacheCfg cfg) = "pg"%string) then Some CachePg else None.

Definition busOf (cfg : NexoConfig) : option Resource :=
  if decide (Bs_Driver (BusCfg cfg) = "redis"%string) then Some BusRedis
  else if decide (Bs_Driver (BusCfg cfg) = "postgres"%string) then Some BusPg else None.

Definition onlineOf (cfg : NexoConfig) : option Resource :=
  if decide (On_Driver (OnlineCfg cfg) = "redis"%string) then Some OnlineRedis else None.

(** What a node of this configuration holds open. *)
Definition configured (cfg : NexoConfig) (deps : Dependencies) : list Resource :=
  omap id [storeOf (DbCfg cfg) deps; cacheOf cfg; busOf cfg; onlineOf cfg].

(** Nothing was opened, or the client that was asked for, closed at once because its server did not answer. *)
Definition settled (c : option Resource) (mid : list Ev) : Prop := mid = [] ∨ ∃ r, c = Some r ∧ mid = [EOpen r; EClose r].

(** A part opens what is asked for, or fails and leaves nothing open. *)
Definition opens_part {A} (f : list Ev → (A + error) * list Ev) (closer : A → option Resource) (c : option Resource) : Prop :=
  ∀ tr r tr', f tr = (r, tr') → match r with
    | inl a => closer a = c ∧ tr' = tr ++ opening c
    | inr _ => ∃ mid, tr' = tr ++ mid ∧ settled c mid
    end.

Lemma opens_app a b : opens (a ++ b) = opens a ++ opens b.
Proof. apply omap_app. Qed.

Lemma closes_app a b : closes (a ++ b) = closes a ++ closes b.
Proof. apply omap_app. Qed.

Lemma openings cs : opens (flat_map opening cs) = omap id cs ∧ closes (flat_map opening cs) = [].
Proof.
  induction cs as [|c cs [IH1 IH2]]; [by split|]. cbn [flat_map]. rewrite opens_app, closes_app, IH1, IH2. by destruct c.
Qed.

Lemma closeAll_spec cs : opens (closeAll cs) = [] ∧ closes (closeAll cs) = reverse (omap id cs).
Proof.
  unfold closeAll. induction cs as [|c cs [IH1 IH2]]; [by split|]. rewrite reverse_cons, flat_map_app, opens_app, closes_app, IH1, IH2.
  destruct c as [r|]; simpl; [by rewrite reverse_cons|by rewrite app_nil_r].
Qed.

(** Every close follows its open. *)
Definition close_after_open (tr : list Ev) : Prop := ∀ pre r post, tr = pre ++ EClose r :: post → EOpen r ∈ pre.

(** What was opened and closed again, last opened first. *)
Lemma failed_trace cs c mid tr :
  settled c mid → tr = flat_map opening cs ++ mid ++ closeAll cs →
  closes tr = reverse (opens tr) ∧ close_after_open tr ∧ opens tr `prefix_of` omap id (cs ++ [c]).
Proof.
  intros Hm ->. destruct (openings cs) as [Eo Ec], (closeAll_spec cs) as [Eo' Ec'].
  assert (∀ r, r ∈ omap id cs → EOpen r ∈ flat_map opening cs) as Hin.
  { intros r. rewrite list_elem_of_omap. intros (c0 & Hc & Er). apply list_elem_of_In, in_flat_map. exists c0. split; [by apply list_elem_of_In|].
    unfold id in Er. subst c0. by left. }
  assert (∀ pre r post, flat_map opening cs ++ mid ++ closeAll cs = pre ++ EClose r :: post → EOpen r ∈ pre) as Hca.
  { intros pre r post E. assert (∃ k, pre = flat_map opening cs ++ k ∧ mid ++ closeAll cs = k ++ EClose r :: post) as (k & Ek & E').
    { apply app_eq_inv in E as [([|e k] & Ek & E)|(k & Ek & E)]; [exists []; by rewrite Ek, !app_nil_r| |by exists k].
      assert (r ∈ closes (flat_map opening cs)) as Hr by (rewrite Ek, closes_app; injection E as <- _; simpl; set_solver).
      rewrite Ec in Hr. by apply not_elem_of_nil in Hr. }
    clear E. rename E' into E. rewrite Ek. apply elem_of_app. destruct Hm as [->|(r0 & _ & ->)].
    - left. apply Hin. simpl in E. assert (r ∈ closes (closeAll cs)) as Hr by (rewrite E, closes_app; simpl; set_solver). rewrite Ec', elem_of_reverse in Hr. exact Hr.
    - destruct k as [|e [|e' k]]; simpl in E; [by injection E| |].
      + injection E as <- <- _. right. left.
      + injection E as <- <- E. left. apply Hin. assert (r ∈ closes (closeAll cs)) as Hr by (rewrite E, closes_app; simpl; set_solver). rewrite Ec', elem_of_reverse in Hr. exact Hr. }
  rewrite !opens_app, !closes_app, Eo, Ec, Eo', Ec'. split_and!; [|exact Hca|].
  - destruct Hm as [->|(r & _ & ->)]; simpl; [by rewrite app_nil_r|]. by rewrite reverse_snoc.
  - rewrite omap_app, app_nil_r. destruct Hm as [->|(r & -> & ->)]; simpl; [rewrite app_nil_r; by apply prefix_app_r|done].
Qed.

Section Release.
Context `{NW : Network} `{CL : ConfigLib}.

Lemma open_part r pinged : opens_part (open r pinged) (λ _, Some r) (Some r).
Proof.
  intros tr x tr'. unfold open. destruct (sets_up r); simpl; [destruct (pinged && negb (answers r))|]; intros [= <- <-]; [..|exists []; rewrite app_nil_r; split; [done|by left]].
  - exists [EOpen r; EClose r]. split; [done|]. right. by exists r.
  - done.
Qed.

Ltac part :=
  match goal with
  | |- (match open ?r ?p ?tr with _ => _ end) = _ → _ =>
      let H := fresh in pose proof (open_part r p tr) as H; destruct (open r p tr) as [[[]|?] ?]; specialize (H _ _ eq_refl); simpl in H; intros [= <- <-];
      [by destruct H|exact H]
  | |- (inl _, _) = _ → _ => intros [= <- <-]; simpl; by rewrite app_nil_r
  | |- (inr _, _) = _ → _ => intros [= <- <-]; exists []; rewrite app_nil_r; split; [done|by left]
  end.

Ltac branches := repeat match goal with |- context [String.eqb ?a ?b] => destruct (String.eqb_spec a b) end.

Ltac choose := repeat first [rewrite decide_True by done | rewrite decide_False by done].

Lemma openStore_part cfg deps : opens_part (openStore cfg deps) fst (storeOf cfg deps).
Proof.
  intros tr r tr'. unfold openStore, storeOf. destruct (Dp_GormDb deps), (Dp_Pool deps); branches; choose; simpl; try part;
    destruct (Gorm.checkMysqlDsn _); part.
Qed.

Lemma openCache_part cfg : opens_part (openCache cfg) id (cacheOf cfg).
Proof. intros tr r tr'. unfold openCache, cacheOf. branches; choose; part. Qed.

Lemma openBus_part cfg : opens_part (openBus cfg) id (busOf cfg).
Proof. intros tr r tr'. unfold openBus, busOf. branches; choose; part. Qed.

Lemma openOnlineStore_part cfg : opens_part (openOnlineStore cfg) id (onlineOf cfg).
Proof. intros tr r tr'. unfold openOnlineStore, onlineOf. branches; choose; part. Qed.

Ltac assoc := simpl; rewrite ?app_nil_r, <- ?app_assoc; reflexivity.

(** A failed [Build] closed, last first, what it had opened so far. *)
Definition undone (cfg : NexoConfig) (deps : Dependencies) (tr : list Ev) : Prop :=
  closes tr = reverse (opens tr) ∧ close_after_open tr ∧ opens tr `prefix_of` configured cfg deps.

Lemma undone_at cfg deps cs c mid rest tr :
  settled c mid → [storeOf (DbCfg cfg) deps; cacheOf cfg; busOf cfg; onlineOf cfg] = (cs ++ [c]) ++ rest →
  tr = flat_map opening cs ++ mid ++ closeAll cs → undone cfg deps tr.
Proof.
  intros Hm E Ht. destruct (failed_trace cs c mid tr Hm Ht) as (H1 & H2 & H3). split_and!; [done..|]. unfold configured. rewrite E, omap_app. by apply prefix_app_r.
Qed.

(** [Build] opens its parts in order; on a failure it closes them again. *)
Lemma Build_trace cfg deps r tr :
  Build cfg deps [] = (r, tr) → match r with
    | inl a => Ap_closers a = [storeOf (DbCfg cfg) deps; cacheOf cfg; busOf cfg; onlineOf cfg] ∧ tr = flat_map opening (Ap_closers a) ∧ Ap_started a = false ∧
               Ap_wiring a = wiring cfg deps
    | inr _ => undone cfg deps tr
    end.
Proof.
  unfold Build. pose proof (openStore_part (DbCfg cfg) deps []) as Hs. destruct (openStore (DbCfg cfg) deps []) as [[[st pong]|e] tr1]; specialize (Hs _ _ eq_refl); simpl in Hs.
  2: { intros [= <- <-]. destruct Hs as (mid & -> & Hm). eapply (undone_at _ _ []); [exact Hm|reflexivity|assoc]. }
  destruct Hs as [-> ->]. destruct pong; cbn [negb].
  2: { intros [= <- <-]. eapply (undone_at _ _ [_] _ []); [by left|reflexivity|assoc]. }
  pose proof (openCache_part cfg (opening (storeOf (DbCfg cfg) deps))) as Hc. unfold id in Hc. destruct (openCache cfg _) as [[c|e] tr2]; specialize (Hc _ _ eq_refl); cbv beta iota in Hc.
  2: { intros [= <- <-]. destruct Hc as (mid & -> & Hm). eapply (undone_at _ _ [_]); [exact Hm|reflexivity|assoc]. }
  destruct Hc as [-> ->]. match goal with |- context [openBus cfg ?t] => pose proof (openBus_part cfg t) as Hb end.
  unfold id in Hb. destruct (openBus cfg _) as [[b|e] tr3]; specialize (Hb _ _ eq_refl); cbv beta iota in Hb.
  2: { intros [= <- <-]. destruct Hb as (mid & -> & Hm). eapply (undone_at _ _ [_; _]); [exact Hm|reflexivity|assoc]. }
  destruct Hb as [-> ->]. match goal with |- context [openOnlineStore cfg ?t] => pose proof (openOnlineStore_part cfg t) as Ho end.
  unfold id in Ho. destruct (openOnlineStore cfg _) as [[o|e] tr4]; specialize (Ho _ _ eq_refl); cbv beta iota in Ho; intros [= <- <-].
  - destruct Ho as [-> ->]. split_and!; [done|assoc|done|done].
  - destruct Ho as (mid & -> & Hm). eapply (undone_at _ _ [_; _; _]); [exact Hm|reflexivity|assoc].
Qed.

(** Every close follows the wait for the pushes. *)
Definition close_after (e : Ev) (tr : list Ev) : Prop := ∀ pre r post, tr = pre ++ EClose r :: post → e ∈ pre.

Lemma close_after_app e t1 t2 : closes t1 = [] → close_after e t2 → close_after e (t1 ++ t2).
Proof.
  intros Hc H pre r post E. apply app_eq_inv in E as [([|x k] & -> & E)|(k & -> & E)].
  - simpl in E. specialize (H [] r post (eq_sym E)). by apply not_elem_of_nil in H.
  - injection E as <- _. rewrite closes_app in Hc. by destruct (closes pre).
  - apply elem_of_app. right. by eapply H.
Qed.

Lemma close_after_cons e t : (∀ r, e ≠ EClose r) → close_after e (e :: t).
Proof. intros He [|x pre] r post E; injection E as -> _; [by destruct (He r)|left]. Qed.

Lemma closes_empty e t : closes t = [] → close_after e t.
Proof. intros Hc pre r post ->. rewrite closes_app in Hc. by destruct (closes pre). Qed.

(** ** The life of an app *)

Definition releasing (c : HostCall) : bool := match c with HShutdown | HClose => true | _ => false end.

Lemma close_spec a : let '(a', t) := close a in
  Ap_closers a' = [] ∧ opens t = [] ∧ closes t = reverse (omap id (Ap_closers a)) ∧ close_after EWaitPushes t.
Proof.
  unfold close. destruct (closeAll_spec (Ap_closers a)) as [E1 E2]. split_and!; [done|exact E1|exact E2|]. by apply close_after_cons.
Qed.

Lemma drain_quiet a : opens (Drain a).2 = [] ∧ closes (Drain a).2 = [].
Proof. unfold Drain. by destruct (Ap_started a). Qed.

Lemma Shutdown_eq a : Shutdown a = ((close a).1, (Drain a).2 ++ (close a).2).
Proof. reflexivity. Qed.

Lemma host_call_spec c a : let '(a', t) := host_call c a in
  Ap_closers a' = (if releasing c then [] else Ap_closers a) ∧ opens t = [] ∧
  closes t = (if releasing c then reverse (omap id (Ap_closers a)) else []) ∧ close_after EWaitPushes t.
Proof.
  destruct (drain_quiet a) as [Eo Ec]. destruct c; cbn [host_call releasing].
  - by split_and!; [..|apply closes_empty].
  - split_and!; [done..|]. by apply closes_empty.
  - rewrite Shutdown_eq. pose proof (close_spec a) as H. destruct (close a) as [a' t]. destruct H as (H1 & H2 & H3 & H4). cbn [fst snd].
    rewrite opens_app, closes_app, Eo, Ec, H2, H3. split_and!; [done..|]. by apply close_after_app.
  - exact (close_spec a).
Qed.

(** Every resource is closed by the first call that releases, and by no other. *)
Lemma host_calls_spec cs : ∀ a, let t := (host_calls cs a).2 in
  opens t = [] ∧ closes t = (if existsb releasing cs then reverse (omap id (Ap_closers a)) else []) ∧ close_after EWaitPushes t.
Proof.
  induction cs as [|c cs IH]; intros a; simpl; [split_and!; [done|done|by apply closes_empty]|].
  pose proof (host_call_spec c a) as H. destruct (host_call c a) as [a1 t1]. destruct H as (H1 & H2 & H3 & H4). specialize (IH a1). destruct (host_calls cs a1) as [a2 t2]. simpl in *.
  destruct IH as (I1 & I2 & I3). split_and!.
  - by rewrite opens_app, H2, I1.
  - rewrite closes_app, H3, I2, H1. destruct (releasing c); simpl; [|done]. destruct (existsb releasing cs); simpl; by rewrite app_nil_r.
  - intros pre r post E. apply app_eq_inv in E as [([|x k] & -> & E)|(k & -> & E)].
    + simpl in E. rewrite app_nil_r in *. destruct (releasing c) eqn:Er.
      * assert (r ∈ closes t2) as Hr by (rewrite <- E; simpl; left). rewrite I2, H1 in Hr. destruct (existsb releasing cs); by apply not_elem_of_nil in Hr.
      * specialize (I3 [] r post (eq_sym E)). by apply not_elem_of_nil in I3.
    + injection E as <- E. by apply (H4 pre r k).
    + apply elem_of_app. right. by eapply I3.
Qed.

(** ** The standalone server *)

Lemma interleave_in {A} (l r t : list A) x : interleave l r t → x ∈ l ∨ x ∈ r → x ∈ t.
Proof. induction 1; rewrite ?elem_of_cons; naive_solver. Qed.

Lemma interleave_quiet (l r t : list Ev) : interleave l r t → closes l = [] → closes r = [] → closes t = [].
Proof. induction 1 as [|e l r t _ IH|e l r t _ IH]; [done|destruct e..]; simpl; auto; done. Qed.

Lemma interleave_opens (l r t : list Ev) : interleave l r t → opens l = [] → opens r = [] → opens t = [].
Proof. induction 1 as [|e l r t _ IH|e l r t _ IH]; [done|destruct e..]; simpl; auto; done. Qed.

Lemma close_after_before e t1 t2 : e ∈ t1 → closes t1 = [] → close_after e (t1 ++ t2).
Proof.
  intros He Hc pre r post E. apply app_eq_inv in E as [([|x k] & -> & E)|(k & -> & E)]; [by rewrite app_nil_r in He| |apply elem_of_app; by left].
  injection E as <- _. rewrite closes_app in Hc. by destruct (closes pre).
Qed.

Definition graceful (s : Stop) : bool := match s with StopSignal | StopBus false => true | _ => false end.

Lemma serve_spec a stop t : serve a stop t →
  opens t = [] ∧ closes t = reverse (omap id (Ap_closers a)) ∧ close_after EWaitPushes t ∧
  (graceful stop = true → close_after EHttpDone t ∧ close_after EDrained t).
Proof.
  intros [a' tr Hs|a' tr Hs|s a1 a2 drain both rest Hg Hd Hi Hc].
  - pose proof (host_call_spec HShutdown (Start a).1) as H. cbn [host_call] in H. rewrite Hs in H. destruct H as (_ & H2 & H3 & H4).
    split_and!; [exact H2|exact H3|by apply (close_after_app _ [EHttpDone])|done].
  - pose proof (host_call_spec HShutdown (Start a).1) as H. cbn [host_call] in H. rewrite Hs in H. destruct H as (_ & H2 & H3 & H4). done.
  - destruct (drain_quiet (Start a).1) as [Eo Ec]. pose proof (close_spec a1) as H. unfold Close in Hc. rewrite Hc in H. destruct H as (_ & H2 & H3 & H4).
    assert (Ap_closers a1 = Ap_closers a) as Ea by (unfold Drain in Hd; by injection Hd as <- _).
    rewrite Hd in Eo, Ec. cbn [snd] in Eo, Ec.
    assert (closes both = []) as Hq by (apply (interleave_quiet _ _ _ Hi); [by rewrite closes_app, Ec|done]).
    assert (opens both = []) as Ho by (apply (interleave_opens _ _ _ Hi); [by rewrite opens_app, Eo|done]).
    rewrite opens_app, closes_app, Ho, Hq, H2, H3, Ea. split_and!; [done|done|by apply close_after_app|]. intros _.
    split; apply close_after_before; try done; apply (interleave_in _ _ _ _ Hi); set_solver.
Qed.

(** ** Validated configurations *)

Lemma Validate_problems c : Validate c = None → problems c = [].
Proof. unfold Validate. by destruct (problems c). Qed.

Lemma valid_providers c : Validate c = None →
  Forall (provider_ok (AuthCfg c)) (AC_Providers (AuthCfg c)) ∧ (AC_Injected (AuthCfg c) = false → AC_Providers (AuthCfg c) ≠ []).
Proof.
  intros H%Validate_problems%problems_nil. destruct H as (_ & _ & _ & _ & _ & _ & _ & _ & _ & _ & _ & _ & _ & _ & _ & H1 & (H2 & _) & _).
  split; [done|]. intros Hi Hp. rewrite Hp in H1. by rewrite H1 in Hi.
Qed.

Lemma valid_db c : Validate c = None → db_ok (DbCfg c).
Proof. intros H%Validate_problems%problems_nil. tauto. Qed.

(** No provider of an accepted configuration is left out of the chain. *)
Lemma buildAuth_all c : Forall (provider_ok c) (AC_Providers c) → buildAuth c = (AC_Providers c, in_list "native" (AC_Providers c)).
Proof.
  intros H. unfold buildAuth. assert (List.filter (λ p, (p =? "external_jwt")%string || (p =? "native")%string) (AC_Providers c) = AC_Providers c) as ->; [|done].
  induction H as [|p ps Hp _ IH]; simpl; [done|]. destruct Hp as [(-> & _)|(-> & _)]; by rewrite IH.
Qed.

(** The data source of an accepted configuration passes the check of the GORM store. *)
Lemma checkMysqlDsn_valid c : db_ok c → Dc_Injected c = false → Dc_Driver c = "mysql"%string → Gorm.checkMysqlDsn (Dc_Dsn c) = None.
Proof.
  intros H Hi Hd. assert (Dc_Dsn c ≠ ""%string) as Hn by (intros E; apply (db_dsn _ H) in E; congruence).
  unfold Gorm.checkMysqlDsn. by rewrite (db_mysql _ H Hd Hn).
Qed.
End Release.

(** The connection a host injects is of the kind the configuration asks for. *)
Definition injects_rightly (cfg : NexoConfig) (deps : Dependencies) : Prop :=
  (Dp_GormDb deps = true → Dc_Access (DbCfg cfg) = "gorm"%string) ∧ (Dp_Pool deps = true → Dc_Access (DbCfg cfg) = "sqlc"%string).

(** Every server answers. *)
Definition healthy `{NW : Network} : Prop := (∀ r, sets_up r = true ∧ answers r = true) ∧ host_answers = true.

Section Thms.
Context `{NW : Network} `{CL : ConfigLib}.

Lemma open_healthy r pinged tr : healthy → open r pinged tr = (inl tt, tr ++ [EOpen r]).
Proof. intros [H _]. destruct (H r) as [H1 H2]. unfold open. rewrite H1, H2. simpl. by rewrite andb_false_r. Qed.

Ltac oh := match goal with H : healthy |- context [open ?r ?p ?t] => rewrite (open_healthy r p t H) end.

Lemma Build_healthy cfg deps : healthy → injects_rightly cfg deps → db_ok (DbCfg cfg) →
  Dc_Injected (DbCfg cfg) = Dp_GormDb deps || Dp_Pool deps → ∃ a tr, Build cfg deps [] = (inl a, tr).
Proof.
  intros Hh [Hg Hp] Hdb Hi. pose proof Hh as [Hans Hhost]. unfold Build.
  assert (∃ st tr, openStore (DbCfg cfg) deps [] = (inl (st, true), tr)) as (st & tr & ->).
  { unfold openStore. destruct (Dp_GormDb deps) eqn:E1; [|destruct (Dp_Pool deps) eqn:E2].
    - rewrite (Hg eq_refl). simpl. destruct (Dp_Pool deps); [by specialize (Hp eq_refl); rewrite Hg in Hp|]. simpl. rewrite Hhost. eauto.
    - rewrite (Hp eq_refl). simpl. rewrite Hhost. eauto.
    - simpl. destruct (String.eqb_spec (Dc_Access (DbCfg cfg)) "sqlc"); [oh; destruct (Hans StorePool) as [_ ->]; eauto|].
      assert ((if (Dc_Driver (DbCfg cfg) =? "mysql")%string then Gorm.checkMysqlDsn (Dc_Dsn (DbCfg cfg)) else None) = None) as ->.
      { destruct (String.eqb_spec (Dc_Driver (DbCfg cfg)) "mysql"); [|done]. by apply checkMysqlDsn_valid. }
      oh. destruct (Hans StoreGorm) as [_ ->]. eauto. }
  cbn [negb]. unfold openCache, openBus, openOnlineStore.
  destruct (_ =? _)%string; [oh|destruct (_ =? _)%string; [oh|]];
    (destruct (_ =? _)%string; [oh|destruct (_ =? _)%string; [oh|]]); (destruct (_ =? _)%string; [oh|]); eauto.
Qed.

End Thms.

(** A node whose cache server is down starts nothing and leaves nothing open; with every server up it holds its pool. *)
Definition downCache : Network := {| sets_up _ := true; answers r := negb (bool_decide (r = CacheRedis)); host_answers := true |}.

Definition redisCache (c : NexoConfig) : NexoConfig :=
  mkNexo (NodeId c) (Server c) (DbCfg c) (mkRedis "localhost:6379" "" 0) (BusCfg c) (OnlineCfg c) (mkCacheConfig "redis" (Ca_CleanerInterval (CacheCfg c)))
    (OfflinePush c) (AuthCfg c) (InternalCfg c) (Ws c) (LimitsCfg c) (LogCfg c).

Example cache_down :
  let CL := {| ParseCIDR _ := None; ParseDSN _ := None |} in let hosted := mkDeps false false false false in
  (New (NW := downCache) (redisCache (demoConfig 168)) hosted).2 = [EOpen StorePool; EOpen CacheRedis; EClose CacheRedis; EClose StorePool] ∧
  (New (NW := downCache) (demoConfig 168) hosted).2 = [EOpen StorePool].
Proof. split; vm_compute; reflexivity. Qed.
