(* ===== verification/Api.v ===== *)
(** * The HTTP API ([internal/api], [buildAuth] of [internal/app/app.go])

    A call is a program over the world of the services and what a node keeps in front of them: the cache of
    the authenticators, the address limiter, the presence subscriptions. The handlers call the services through
    [svc], so that a call of the API is a request of [System] with the transport around it. *)

From S2P Require Import Prelude.
From S2P Require Import NexoConfig.
From S2P Require Import Presence.
From S2P Require Import Errcode Strconv Identity Json Store PgStore Conv Conc RateLimit World ConvPage MessageSvc GroupSvc ConversationSvc UserSvc Cache Sha256 Auth System Http.

Local Open Scope Z_scope.

(** ** Values read from a request *)

(** The loop of [strconv.ParseUint(s, 10, 64)]: it stops at the first overflow. *)
Fixpoint parseUintValue (acc : Z) (l : list ascii) : option Z :=
  match l with
  | [] => Some acc
  | c :: l' =>
      match digit_val c with
      | None => None
      | Some d => let n := acc * 10 + d in if 2 ^ 64 - 1 <? n then Some (2 ^ 64 - 1) else parseUintValue n l'
      end
  end.

(** The value [strconv.ParseInt(s, 10, 64)] returns beside its error: 0 for a syntax error, the nearest [int64] out of range. *)
Definition ParseIntValue (s : string) : Z :=
  match to_list s with
  | [] => 0
  | c :: l =>
      let neg := bool_decide (c = "-"%char) in
      match (if neg || bool_decide (c = "+"%char) then l else c :: l) with
      | [] => 0
      | body =>
          match parseUintValue 0 body with
          | None => 0
          | Some un => if neg then (if 2 ^ 63 <? un then minInt64 else - un) else if 2 ^ 63 <=? un then maxInt64 else un
          end
      end
  end.

Definition queryInt (c : HttpReq) (key : string) : Z := ParseIntValue (q_Query c key).

(** [strings.Split(s, ",")]. *)
Fixpoint splitComma (s : string) : list string :=
  match s with
  | String.EmptyString => [""%string]
  | String.String c s' =>
      if bool_decide (c = ","%char) then ""%string :: splitComma s'
      else match splitComma s' with [] => [String.String c ""] | x :: xs => String.String c x :: xs end
  end.

Definition maxInfoIds : Z := 100.

Definition userIds (c : HttpReq) : result (list string) :=
  let raw := q_Query c "user_ids" in
  let ids := splitComma raw in
  if (raw =? "")%string || (maxInfoIds <? Z.of_nat (length ids)) then Err (WithMessage ErrInvalidParam "user_ids: 1-100 comma separated ids")
  else
    match List.find (λ id, negb (Valid id)) ids with
    | Some id => Err (WithMessage ErrInvalidParam ("invalid user id: " +:+ id))
    | None => Ok ids
    end.

Record readReq := mkReadReq { Rd_ConversationId : string; Rd_ReadSeq : Z }.
Record optReq := mkOptReq { Op_ConversationId : string; Op_RecvMsgOpt : option Z; Op_IsPinned : option bool }.
Record groupReq := mkGroupReq { Gr_GroupId : string; Gr_UserId : string }.
Record registerReq := mkRegisterReq { Rg_Username : string; Rg_Password : string; Rg_Nickname : string }.
Record loginReq := mkLoginReq { Lg_Username : string; Lg_Password : string; Lg_PlatformId : Z }.
Record upsertReq := mkUpsertReq { Us_Id : string; Us_Nickname : string; Us_Avatar : string; Us_Extra : string }.

(** Hertz's JSON decoder at the types the handlers bind. *)
Class Binder := {
  bindSend : string → result SendRequest;
  bindRead : string → result readReq;
  bindOpt : string → result optReq;
  bindCreate : string → result CreateInput;
  bindGroupReq : string → result groupReq;
  bindRegister : string → result registerReq;
  bindLogin : string → result loginReq;
  bindUpdate : string → result Update;
  bindUpsert : string → result upsertReq }.

(** ** Configuration *)

Definition Hour : Z := 3600 * Second.

(** [AP_Internal] is [None] when the internal API is off. *)
Record ApiConfig := mkApiConfig {
  AP_Auth : AuthConfig; AP_Internal : option Internal; AP_RequireTls : bool; AP_Trusted : list IPNet; AP_AuthPerIpPerMin : Z;
  AP_PullPageMax : Z; AP_ConvPageMax : Z; AP_MaxSeqsPageMax : Z }.

(** ** The front of a node *)

Section Api.
Context `{RL : RateLib} `{EN : Env} `{BC : Bcrypt} `{JW : Jwt} {C : Type} `{CC : Cache C} `{BI : Binder} `{RS : ReserveLib} `{RC : RangeClients}.

(** [l_ids] is a history variable: the identities that were accepted. *)
Record Loc := mkLoc {
  l_tick : nat; l_cache : C; l_ips : string → option Keyed; l_pres : string → Presence.Presence; l_ids : list Identity }.

Definition Front : Type := World * Loc.

Definition l_set_cache (l : Loc) (c : C) (ids : list Identity) : Loc := mkLoc (S (S (l_tick l))) c (l_ips l) (l_pres l) (l_ids l ++ ids).
Definition l_set_ip (l : Loc) (nd : string) (k : option Keyed) : Loc :=
  mkLoc (S (l_tick l)) (l_cache l) (λ x, if bool_decide (x = nd) then k else l_ips l x) (l_pres l) (l_ids l).
Definition l_set_pres (l : Loc) (nd : string) (g : Presence.Presence) : Loc :=
  mkLoc (S (l_tick l)) (l_cache l) (l_ips l) (λ x, if bool_decide (x = nd) then g else l_pres l x) (l_ids l).
Definition l_set_tick (l : Loc) : Loc := mkLoc (S (l_tick l)) (l_cache l) (l_ips l) (l_pres l) (l_ids l).

Abbreviation F := (prog Front).

(** A step that touches only the front. *)
Definition local {B} (f : Loc → B * Loc) : F B := act (λ s : Front, let '(b, l) := f s.2 in (b, (s.1, l))).

Fixpoint liftW {A} (p : prog World A) : F A :=
  match p with
  | Ret a => Ret a
  | Act f k => Act (λ s : Front, let '(b, w) := f s.1 in (b, (w, s.2))) (λ b, liftW (k b))
  end.

Definition localNow : F Z := local (λ l, (clock (l_tick l), l_set_tick l)).

Variable cfg : Config.
Variable ac : ApiConfig.

(** [buildAuth]: the providers in the order of the configuration, and the native one. *)
Fixpoint buildChain (a : AuthConfig) (now tc : Z) (providers : list string) : list (string → C → result Identity * C) :=
  match providers with
  | [] => []
  | p :: rest =>
      if (p =? "external_jwt")%string then
        (λ token c, (ExternalVerify (mkExternal (Ej_Secrets (AC_ExternalJwt a)) (Ej_DefaultRole (AC_ExternalJwt a))) now token, c)) :: buildChain a now tc rest
      else if (p =? "native")%string then
        NativeVerify (mkNative (Na_Secret (AC_Native a)) (i64 (Na_ExpireHours (AC_Native a) * Hour))) now tc :: buildChain a now tc rest
      else buildChain a now tc rest
  end.

Definition native (a : AuthConfig) : option Native :=
  if in_list "native" (AC_Providers a) then Some (mkNative (Na_Secret (AC_Native a)) (i64 (Na_ExpireHours (AC_Native a) * Hour))) else None.

(** The authenticator's [Verify]. *)
Definition authVerify (now tc : Z) : string → C → result Identity * C := ChainVerify (buildChain (AP_Auth ac) now tc (AC_Providers (AP_Auth ac))).

Definition nativeOn : bool := match native (AP_Auth ac) with Some _ => true | None => false end.

(** A call of a service. *)
Definition svc (r : Request) : F Response := liftW (handle cfg nativeOn r).

(** ** Messages and conversations ([message.go]) *)

Definition send (nd : string) (id : Identity) (c : HttpReq) : F HttpResp :=
  match Bind bindSend c with
  | inr e => mret e
  | inl req =>
      let internal := (Id_Source id =? SourceInternal)%string in
      a ← svc (RSend nd (mkSendInput (Id_UserId id) "" (SR_ClientMsgId req) (SR_SessionType req) (SR_RecvId req) (SR_GroupId req)
                          (SR_ContentType req) (SR_Content req) (SenderReadFor req internal) internal));
      mret (match a with ASend r => RespondWith DAck r | _ => NoRoute end)
  end.

Definition pull (id : Identity) (c : HttpReq) : F HttpResp :=
  a ← svc (RPull (mkPullInput (Id_UserId id) (q_Query c "conversation_id") (queryInt c "begin_seq") (queryInt c "end_seq") (queryInt c "limit"))
             (AP_PullPageMax ac));
  mret (match a with APull r => RespondWith DPull r | _ => NoRoute end).

Definition maxSeqs (id : Identity) (c : HttpReq) : F HttpResp :=
  a ← svc (RMaxSeqs (Id_UserId id) (q_Query c "cursor") (queryInt c "limit") (AP_MaxSeqsPageMax ac));
  mret (match a with AMaxSeqs r => RespondWith DMaxSeqs r | _ => NoRoute end).

Definition list_ (id : Identity) (c : HttpReq) : F HttpResp :=
  a ← svc (RListConvs (Id_UserId id) (q_Query c "cursor") (queryInt c "limit") (AP_ConvPageMax ac) (q_Query c "with_last_message" =? "true")%string);
  mret (match a with AList r => RespondWith DList r | _ => NoRoute end).

Definition get (id : Identity) (c : HttpReq) : F HttpResp :=
  a ← svc (RGetConv (Id_UserId id) (mkGetKey (q_Query c "conversation_id") (q_Query c "peer_user_id") (q_Query c "group_id"))
             (q_Query c "with_last_message" =? "true")%string);
  mret (match a with AConv r => RespondWith DItem r | _ => NoRoute end).

Definition read (nd : string) (id : Identity) (c : HttpReq) : F HttpResp :=
  match BindValid bindRead c "conversation_id and read_seq are required" (λ r, negb (Rd_ConversationId r =? "")%string) with
  | inr e => mret e
  | inl req =>
      a ← svc (RMarkRead nd (Id_UserId id) "" (Rd_ConversationId req) (Rd_ReadSeq req));
      mret (match a with AMarkRead r => RespondWith DReadSeq r | _ => NoRoute end)
  end.

Definition opt (id : Identity) (c : HttpReq) : F HttpResp :=
  match BindValid bindOpt c "conversation_id is required" (λ r, negb (Op_ConversationId r =? "")%string) with
  | inr e => mret e
  | inl req =>
      a ← svc (RSetOpt (Id_UserId id) (Op_ConversationId req) (Op_RecvMsgOpt req) (Op_IsPinned req));
      mret (match a with ADone e => Respond None e | _ => NoRoute end)
  end.

(** ** Groups ([group.go]) *)

Definition create (nd : string) (id : Identity) (c : HttpReq) : F HttpResp :=
  match Bind bindCreate c with
  | inr e => mret e
  | inl req =>
      a ← svc (RCreate nd (Id_UserId id) req);
      mret (match a with ACreate r => RespondWith DGroup r | _ => NoRoute end)
  end.

Definition bindGroup (c : HttpReq) : groupReq + HttpResp :=
  BindValid bindGroupReq c "group_id is required" (λ r, negb (Gr_GroupId r =? "")%string).

Definition join (nd : string) (id : Identity) (c : HttpReq) : F HttpResp :=
  match bindGroup c with
  | inr e => mret e
  | inl req =>
      a ← svc (RJoin nd (Gr_GroupId req) (Id_UserId id));
      mret (match a with ADone e => Respond None e | _ => NoRoute end)
  end.

Definition quit (nd : string) (id : Identity) (c : HttpReq) : F HttpResp :=
  match bindGroup c with
  | inr e => mret e
  | inl req =>
      a ← svc (RQuit nd (Gr_GroupId req) (Id_UserId id));
      mret (match a with ADone e => Respond None e | _ => NoRoute end)
  end.

Definition kick (nd : string) (id : Identity) (c : HttpReq) : F HttpResp :=
  match bindGroup c with
  | inr e => mret e
  | inl req =>
      if (Gr_UserId req =? "")%string then mret (Fail (WithMessage ErrInvalidParam "user_id is required"))
      else
        a ← svc (RKick nd (Gr_GroupId req) (Id_UserId id) (Gr_UserId req));
        mret (match a with ADone e => Respond None e | _ => NoRoute end)
  end.

Definition group_info (id : Identity) (c : HttpReq) : F HttpResp :=
  a ← svc (RGet (q_Query c "group_id") (Id_UserId id));
  mret (match a with AGet r => RespondWith DGroup r | _ => NoRoute end).

Definition members (id : Identity) (c : HttpReq) : F HttpResp :=
  a ← svc (RMembers (q_Query c "group_id") (Id_UserId id));
  mret (match a with AMembers r => RespondWith DMembers r | _ => NoRoute end).

(** ** Users ([user.go]) *)

Definition register (c : HttpReq) : F HttpResp :=
  match Bind bindRegister c with
  | inr e => mret e
  | inl req =>
      a ← svc (RRegister (Rg_Username req) (Rg_Password req) (Rg_Nickname req));
      mret (match a with AProfile r => RespondWith DProfile r | _ => NoRoute end)
  end.

(** [svc.Login]: the user is looked up after the first two checks of [Login], the token issued in one step. *)
Definition issueToken (lookup : result User) (password : string) (platform : Z) : F (result Session) :=
  local (λ l,
    let '(r, c) := Login (native (AP_Auth ac)) (clock (l_tick l)) (clock (S (l_tick l))) (newV7 (l_tick l)) lookup password platform (l_cache l) in
    (r, l_set_cache l c [])).

Definition loginSvc (username password : string) (platform : Z) : F (result Session) :=
  if negb nativeOn || (platform <? 1) || (MaxPlatformId <? platform) then issueToken (Err (ESentinel store_ErrNotFound)) password platform
  else
    a ← svc (RUserByName username);
    issueToken (match a with AUser r => r | _ => Err (ESentinel store_ErrNotFound) end) password platform.

Definition login (c : HttpReq) : F HttpResp :=
  match BindValid bindLogin c "username, password and platform_id are required" (λ r, 0 <? Lg_PlatformId r) with
  | inr e => mret e
  | inl req =>
      r ← loginSvc (Lg_Username req) (Lg_Password req) (Lg_PlatformId req);
      mret (RespondWith DSession r)
  end.

Definition logout (id : Identity) : F HttpResp :=
  e ← local (λ l, let '(e, c) := Logout (native (AP_Auth ac)) (clock (l_tick l)) id (l_cache l) in (e, l_set_cache l c []));
  mret (Respond None e).

Definition me (id : Identity) : F HttpResp :=
  a ← svc (RUserGet (Id_UserId id));
  mret (match a with AProfile r => RespondWith DProfile r | _ => NoRoute end).

Definition updateMe (id : Identity) (c : HttpReq) : F HttpResp :=
  match Bind bindUpdate c with
  | inr e => mret e
  | inl req =>
      a ← svc (RUserUpdate (Id_UserId id) req);
      mret (match a with AProfile r => RespondWith DProfile r | _ => NoRoute end)
  end.

Definition onlineStatus (c : HttpReq) : F HttpResp :=
  match userIds c with
  | Err e => mret (Fail e)
  | Ok ids => a ← svc (ROnlineStatus ids); mret (match a with AStatus r => RespondWith DItems r | _ => NoRoute end)
  end.

Definition info (c : HttpReq) : F HttpResp :=
  match userIds c with
  | Err e => mret (Fail e)
  | Ok ids => a ← svc (RGetMany ids); mret (match a with AProfiles r => RespondWith DUsers r | _ => NoRoute end)
  end.

Definition upsert (c : HttpReq) : F HttpResp :=
  match Bind bindUpsert c with
  | inr e => mret e
  | inl req =>
      a ← svc (RUpsert (Us_Id req) (Us_Nickname req) (Us_Avatar req) (Us_Extra req));
      mret (match a with AProfile r => RespondWith DProfile r | _ => NoRoute end)
  end.

(** ** Probes ([server.go]) *)

Definition health : HttpResp := OK (Some (DStatus "ok")).

(** The ping of the database may fail. *)
Definition healthz (nd : string) : F HttpResp :=
  local (λ l, (match fault (l_tick l) with NoFault => Probe 200 "ok" nd | _ => Probe 503 "unavailable" nd end, l_set_tick l)).

(** ** Routes ([server.go]) *)

Inductive Guard := GNone | GLogin | GBearer | GVerify | GAsUser.

Inductive Endpoint :=
| EHealthz | ERegister | ELogin | ELogout | EMe | EUpdateMe | EInfo | EOnlineStatus
| ECreate | EJoin | EQuit | EKick | EGroupInfo | EMembers
| ESend | EPull | EMaxSeqs | EList | EGet | ERead | EOpt
| EHealth | EUpsert.

Definition run_endpoint (nd : string) (e : Endpoint) (id : Identity) (c : HttpReq) : F HttpResp :=
  match e with
  | EHealthz => healthz nd
  | ERegister => register c
  | ELogin => login c
  | ELogout => logout id
  | EMe => me id
  | EUpdateMe => updateMe id c
  | EInfo => info c
  | EOnlineStatus => onlineStatus c
  | ECreate => create nd id c
  | EJoin => join nd id c
  | EQuit => quit nd id c
  | EKick => kick nd id c
  | EGroupInfo => group_info id c
  | EMembers => members id c
  | ESend => send nd id c
  | EPull => pull id c
  | EMaxSeqs => maxSeqs id c
  | EList => list_ id c
  | EGet => get id c
  | ERead => read nd id c
  | EOpt => opt id c
  | EHealth => mret health
  | EUpsert => upsert c
  end.

Definition registerRoutes : list (string * string * Guard * Endpoint) :=
  (if nativeOn then
     [("POST", "/api/v1/auth/register", GLogin, ERegister);
      ("POST", "/api/v1/auth/login", GLogin, ELogin);
      ("POST", "/api/v1/auth/logout", GBearer, ELogout)]
   else []) ++
  [("GET", "/api/v1/user/me", GBearer, EMe);
   ("PUT", "/api/v1/user/me", GBearer, EUpdateMe);
   ("GET", "/api/v1/user/info", GBearer, EInfo);
   ("GET", "/api/v1/user/online_status", GBearer, EOnlineStatus);
   ("POST", "/api/v1/group/create", GBearer, ECreate);
   ("POST", "/api/v1/group/join", GBearer, EJoin);
   ("POST", "/api/v1/group/quit", GBearer, EQuit);
   ("POST", "/api/v1/group/kick", GBearer, EKick);
   ("GET", "/api/v1/group/info", GBearer, EGroupInfo);
   ("GET", "/api/v1/group/members", GBearer, EMembers);
   ("POST", "/api/v1/message/send", GBearer, ESend);
   ("GET", "/api/v1/message/pull", GBearer, EPull);
   ("GET", "/api/v1/message/max_seqs", GBearer, EMaxSeqs);
   ("GET", "/api/v1/conversation/list", GBearer, EList);
   ("GET", "/api/v1/conversation/get", GBearer, EGet);
   ("POST", "/api/v1/conversation/read", GBearer, ERead);
   ("PUT", "/api/v1/conversation/opt", GBearer, EOpt)] ++
  match AP_Internal ac with
  | None => []
  | Some _ =>
      [("GET", "/api/v1/internal/health", GVerify, EHealth);
       ("POST", "/api/v1/internal/user/upsert", GVerify, EUpsert);
       ("GET", "/api/v1/internal/user/info", GVerify, EInfo);
       ("GET", "/api/v1/internal/user/online_status", GVerify, EOnlineStatus);
       ("POST", "/api/v1/internal/group/create", GAsUser, ECreate);
       ("POST", "/api/v1/internal/group/join", GAsUser, EJoin);
       ("POST", "/api/v1/internal/group/quit", GAsUser, EQuit);
       ("POST", "/api/v1/internal/group/kick", GAsUser, EKick);
       ("POST", "/api/v1/internal/message/send", GAsUser, ESend);
       ("GET", "/api/v1/internal/conversation/list", GAsUser, EList);
       ("GET", "/api/v1/internal/conversation/get", GAsUser, EGet)]
  end%string.

(** [Register]: the probe, the routes; the WebSocket endpoint is in [Frames]. *)
Definition routes : list (string * string * Guard * Endpoint) := (("GET", "/healthz", GNone, EHealthz) :: registerRoutes)%string.

Definition route (c : HttpReq) : option (Guard * Endpoint) :=
  match List.find (λ x : string * string * Guard * Endpoint, (x.1.1.1 =? q_Method c)%string && (x.1.1.2 =? q_Path c)%string) routes with
  | Some (_, g, e) => Some (g, e)
  | None => None
  end.

(** ** Guards *)

(** The cache step of an authenticator; an identity it accepts is recorded. *)
Definition authenticate {E} (f : Z → Z → C → (Identity + E) * C) : F (Identity + E) :=
  local (λ l, let '(v, c) := f (clock (l_tick l)) (clock (S (l_tick l))) (l_cache l) in
              (v, l_set_cache l c (match v with inl id => [id] | inr _ => [] end))).

(** The signature check alone, which sets no identity. *)
Definition verifySignature (m : InternalAuth) (c : HttpReq) : F Verdict :=
  local (λ l, let '(r, s) := Http.Verify m (clock (l_tick l)) (clock (S (l_tick l))) c (l_cache l) in (r, l_set_cache l s [])).

(** [IpRateLimit]: the limiter is found under its lock, the bucket called after it. *)
Definition IpRateLimit (nd : string) (c : HttpReq) : F bool :=
  now ← localNow;
  a ← local (λ l, match l_ips l nd with
                  | None => (None, l_set_tick l)
                  | Some k => let '(a, k') := Allow_find k (q_ClientIP c) now in (a, l_set_ip l nd (Some k'))
                  end);
  local (λ l, match l_ips l nd with
              | None => (true, l_set_tick l)
              | Some k => let '(b, k') := Allow_take k a now in (b, l_set_ip l nd (Some k'))
              end).

Definition internalAuth (v : Internal) : InternalAuth := mkInternalAuth v (AP_RequireTls ac) (AP_Trusted ac) (AC_DefaultPlatformId (AP_Auth ac)).

Definition guard (nd : string) (g : Guard) (c : HttpReq) : F Verdict :=
  match g with
  | GNone => mret (inl noIdentity)
  | GLogin =>
      ok ← IpRateLimit nd c;
      mret (if ok : bool then inl noIdentity else inr (Fail (WithMessage ErrTooManyRequests "auth rate limit")))
  | GBearer => authenticate (λ now tc, Bearer (authVerify now tc) (AC_DefaultPlatformId (AP_Auth ac)) c)
  | GVerify =>
      match AP_Internal ac with
      | Some v => verifySignature (internalAuth v) c
      | None => mret (inr NoRoute)
      end
  | GAsUser =>
      match AP_Internal ac with
      | Some v => authenticate (λ now tc, AsUser (internalAuth v) now tc c)
      | None => mret (inr NoRoute)
      end
  end.

(** A request through the chain: the guard of its route, then the handler. *)
Definition serve (nd : string) (c : HttpReq) : F HttpResp :=
  match route c with
  | None => mret NoRoute
  | Some (g, e) =>
      v ← guard nd g c;
      match v with
      | inr r => mret r
      | inl id => run_endpoint nd e id c
      end
  end.
End Api.
