(* ===== verification/Frames.v ===== *)
(** * WebSocket handshake and frames ([internal/gateway]: [gateway.go], [frame.go], [handle.go], [admit] of [client.go], [tokenDead] of [kick.go])

    A connection is opened by a handshake that authenticates like the HTTP API; its frames are admitted one by one and
    dispatched to the services under the identity of the handshake. Decoding of frames is a class parameter. *)

From S2P Require Import Prelude.
From S2P Require Import Presence.
From S2P Require Import Errcode Strconv Identity Json Store PgStore Conv Conc RateLimit World ConvPage MessageSvc GroupSvc ConversationSvc UserSvc Cache Sha256 Auth System Http Api.

Local Open Scope Z_scope.

Definition ReqGetMaxSeqs : Z := 1001.
Definition ReqPullMsgBySeqRange : Z := 1002.
Definition ReqSendMsg : Z := 1003.
Definition ReqMarkRead : Z := 1004.
Definition ReqGetConversation : Z := 1005.
Definition ReqSetOnlineSubscriptions : Z := 1006.

Record WsRequest := mkWsRequest { Wq_ReqId : Z; Wq_OpId : string; Wq_MsgIncr : string; Wq_Data : string }.

Record WsResponse := mkWsResponse {
  Wr_ReqId : Z; Wr_OpId : string; Wr_MsgIncr : string; Wr_Code : Z; Wr_Message : string; Wr_Data : Data }.

Record maxSeqsIn := mkMaxSeqsIn { Ms_Cursor : string; Ms_Limit : Z }.
Record pullIn := mkPullIn { Pl_ConversationId : string; Pl_BeginSeq : Z; Pl_EndSeq : Z; Pl_Limit : Z }.
Record getIn := mkGetIn { Gt_Key : GetKey; Gt_WithLastMessage : bool }.

(** [json.Unmarshal] at the types of the frames; of a malformed frame the fields decoded so far are kept. *)
Class FrameCodec := {
  unmarshalRequest : string → WsRequest * err;
  unmarshalSub : string → result onlineSubscriptionRequest;
  unmarshalMaxSeqs : string → result maxSeqsIn;
  unmarshalPull : string → result pullIn;
  unmarshalSend : string → result SendRequest;
  unmarshalRead : string → result readReq;
  unmarshalGet : string → result getIn }.

Definition reply (r : WsRequest) (data : Data) : WsResponse := mkWsResponse (Wq_ReqId r) (Wq_OpId r) (Wq_MsgIncr r) 0 "" data.

Definition fail (r : WsRequest) (e : error) : WsResponse :=
  match From_err (Some e) with
  | Some (c, m, _) => mkWsResponse (Wq_ReqId r) (Wq_OpId r) (Wq_MsgIncr r) c m DEmpty
  | None => mkWsResponse (Wq_ReqId r) (Wq_OpId r) (Wq_MsgIncr r) 0 "" DEmpty
  end.

Definition decodeRequest `{FC : FrameCodec} (raw : string) : WsRequest * err :=
  let '(req, e) := unmarshalRequest raw in
  match e with
  | Some e => (req, Some (Wrap ErrInvalidProtocol (Some e)))
  | None => if Wq_ReqId req =? 0 then (req, Some (WithMessage ErrInvalidProtocol "req_id is required")) else (req, None)
  end.

(** An absent payload leaves the zero value. *)
Definition bind {T} (zero : T) (dec : string → result T) (req : WsRequest) : result T :=
  if len (Wq_Data req) =? 0 then Ok zero
  else match dec (Wq_Data req) with Err e => Err (Wrap ErrInvalidParam (Some e)) | Ok v => Ok v end.

(** A client with the identity of its handshake; [ws_ptr] is its address. *)
Record WsClient := mkWsClient { ws_ptr : nat; ws_Id : string; ws_Identity : Identity }.

Section Frames.
Context `{RL : RateLib} `{EN : Env} `{BC : Bcrypt} `{JW : Jwt} {C : Type} `{CC : Cache C} `{BI : Binder} `{FC : FrameCodec}
  `{RS : ReserveLib} `{RC : RangeClients}.
Variable cfg : Config.
Variable ac : ApiConfig.

Abbreviation F := (prog (@Front RL C RS)).

(** ** The handshake ([gateway.go]) *)

Definition handshakeToken (c : HttpReq) : string :=
  let token := q_Query c "token" in
  match CutPrefix (q_Header c "Authorization") bearerPrefix with
  | Some t => if (token =? "")%string then t else token
  | None => token
  end.

(** [a] is the authenticator's [Verify] at the time of the call. *)
Definition handshake (closing : bool) (a : string → C → result Identity * C) (c : HttpReq) (s : C) : (Identity + error) * C :=
  if closing then (inr ErrNodeDraining, s)
  else if negb (q_Query c "encoding" =? "")%string && negb (q_Query c "encoding" =? "json")%string then
    (inr (WithMessage ErrInvalidParam "encoding must be json"), s)
  else if negb (q_Query c "compression" =? "")%string && negb (q_Query c "compression" =? "none")%string then
    (inr (WithMessage ErrInvalidParam "compression must be none"), s)
  else
    match ParseInt (q_Query c "platform_id") with
    | None => (inr (WithMessage ErrInvalidParam "platform_id must be 1..10"), s)
    | Some platform =>
        if (platform <? 1) || (MaxPlatformId <? platform) then (inr (WithMessage ErrInvalidParam "platform_id must be 1..10"), s)
        else if (handshakeToken c =? "")%string then (inr ErrTokenMissing, s)
        else
          match a (handshakeToken c) s with
          | (Err e, s') => (inr (AuthErr e), s')
          | (Ok id, s') =>
              (inl (if Id_PlatformId id =? 0
                    then mkIdentity (Id_UserId id) (Id_Role id) platform (Id_TokenId id) (Id_ExpiresAt id) (Id_Source id)
                    else id), s')
          end
    end.

Definition handshakeStatus (e : error) : Z :=
  let code := code_of e in
  if code =? code_of ErrInvalidParam then 400
  else if code =? code_of ErrConnOverLimit then 429
  else if code =? code_of ErrNodeDraining then 503
  else HttpStatus code.

(** The handshake of a request to [/ws]; a failure is answered with its status. *)
Definition openWs (closing : bool) (c : HttpReq) : F (Identity + error) :=
  authenticate (λ now tc, handshake closing (authVerify ac now tc) c).

(** ** Dispatch ([handle.go]) *)

Definition answer_with {A} (f : A → Data) (r : result A) : result Data := match r with Ok a => Ok (f a) | Err e => Err e end.

(** [enabled]: there are an online store and a user service. *)
Definition subscribe (nd : string) (c : WsClient) (in_ : onlineSubscriptionRequest) : F (result onlineSubscriptionAck) :=
  local (λ l, let '(r, g) := setOnlineSubscriptions (hasOnline cfg) (ws_ptr c) in_ (clock (l_tick l)) (l_pres l nd) in (r, l_set_pres l nd g)).

Definition handleReq (nd : string) (c : WsClient) (req : WsRequest) : F (result Data) :=
  let user := Id_UserId (ws_Identity c) in
  if Wq_ReqId req =? ReqSetOnlineSubscriptions then
    match bind (mkSubReq 0 []) unmarshalSub req with
    | Err e => mret (Err e)
    | Ok in_ => r ← subscribe nd c in_; mret (answer_with DSubAck r)
    end
  else if Wq_ReqId req =? ReqGetMaxSeqs then
    match bind (mkMaxSeqsIn "" 0) unmarshalMaxSeqs req with
    | Err e => mret (Err e)
    | Ok in_ =>
        a ← svc cfg ac (RMaxSeqs user (Ms_Cursor in_) (Ms_Limit in_) (AP_MaxSeqsPageMax ac));
        mret (match a with AMaxSeqs r => answer_with DMaxSeqs r | _ => Err ErrInternal end)
    end
  else if Wq_ReqId req =? ReqPullMsgBySeqRange then
    match bind (mkPullIn "" 0 0 0) unmarshalPull req with
    | Err e => mret (Err e)
    | Ok in_ =>
        a ← svc cfg ac (RPull (mkPullInput user (Pl_ConversationId in_) (Pl_BeginSeq in_) (Pl_EndSeq in_) (Pl_Limit in_)) (AP_PullPageMax ac));
        mret (match a with APull r => answer_with DPull r | _ => Err ErrInternal end)
    end
  else if Wq_ReqId req =? ReqSendMsg then
    match bind (mkSendRequest "" 0 "" "" 0 "" None) unmarshalSend req with
    | Err e => mret (Err e)
    | Ok in_ =>
        a ← svc cfg ac (RSend nd (mkSendInput user (ws_Id c) (SR_ClientMsgId in_) (SR_SessionType in_) (SR_RecvId in_) (SR_GroupId in_)
              (SR_ContentType in_) (SR_Content in_) (SenderReadFor in_ (Id_Source (ws_Identity c) =? SourceInternal)%string) false));
        mret (match a with ASend r => answer_with DAck r | _ => Err ErrInternal end)
    end
  else if Wq_ReqId req =? ReqMarkRead then
    match bind (mkReadReq "" 0) unmarshalRead req with
    | Err e => mret (Err e)
    | Ok in_ =>
        if (Rd_ConversationId in_ =? "")%string then mret (Err (WithMessage ErrInvalidParam "conversation_id is required"))
        else
          a ← svc cfg ac (RMarkRead nd user (ws_Id c) (Rd_ConversationId in_) (Rd_ReadSeq in_));
          mret (match a with AMarkRead r => answer_with DReadSeq r | _ => Err ErrInternal end)
    end
  else if Wq_ReqId req =? ReqGetConversation then
    match bind (mkGetIn (mkGetKey "" "" "") false) unmarshalGet req with
    | Err e => mret (Err e)
    | Ok in_ =>
        a ← svc cfg ac (RGetConv user (Gt_Key in_) (Gt_WithLastMessage in_));
        mret (match a with AConv r => answer_with DItem r | _ => Err ErrInternal end)
    end
  else mret (Err (WithMessage ErrInvalidProtocol "unknown req_id")).

Definition dispatch (nd : string) (c : WsClient) (req : WsRequest) : F WsResponse :=
  r ← handleReq nd c req;
  mret (match r with Ok data => reply req data | Err e => fail req e end).
End Frames.
