(* ===== verification/Front.v ===== *)
(** * The transports in front of the services

    Pools of HTTP calls, handshakes, WebSocket frames and background work over [Front]. [cal] says which requests of [System] a call
    makes and under which accepted identities; [front_simulates] turns every run of the transports into a run of [System]. *)

From S2P Require Import Prelude.
From S2P Require Import NexoConfig.
From S2P Require Import Presence.
From S2P Require Import Errcode Strconv Identity Json Store PgStore Conv Conc RateLimit World ConvPage MessageSvc GroupSvc ConversationSvc UserSvc WorldInv Cache Sha256 Auth System Http Api Frames.

Local Open Scope Z_scope.

(** ** Results of a program *)

Fixpoint leaves {W A} (P : A → Prop) (p : prog W A) : Prop :=
  match p with Ret a => P a | Act f k => ∀ b, leaves P (k b) end.

Lemma leaves_mret {W A B} (P : B → Prop) (p : prog W A) (k : A → B) : (∀ a, P (k a)) → leaves P (a ← p; mret (k a)).
Proof. intros H. change (leaves P (pbind p (λ a, Ret (k a)))). induction p as [a|X f j IH]; simpl; [apply H|intros b; apply IH]. Qed.

(** The answer a request gets from its service. *)
Definition shape (r : Request) (a : Response) : Prop :=
  match r, a with
  | RSend _ _, ASend _ | RPull _ _, APull _ | RMaxSeqs _ _ _ _, AMaxSeqs _ | RCreate _ _ _, ACreate _
  | (RJoin _ _ _ | RQuit _ _ _ | RKick _ _ _ _ | RSetOpt _ _ _ _ | ROnlineAdd _ _ | ROnlineRemove _ | RPurge _), ADone _
  | RGet _ _, AGet _ | RMembers _ _, AMembers _ | RMarkRead _ _ _ _ _, AMarkRead _ | RGetConv _ _ _, AConv _
  | RListConvs _ _ _ _ _, AList _ | (RPushWorker _ | RInvalidate _ _ | ROnlineRenew _ _), ANone | RResolve _, AEvent _
  | RDeliver _ _ _ _, ADeliver _ | (RRegister _ _ _ | RUserGet _ | RUserUpdate _ _ | RUpsert _ _ _ _), AProfile _
  | RGetMany _, AProfiles _ | ROnlineStatus _, AStatus _ | RUserByName _, AUser _ => True
  | _, _ => False
  end.

(** The user a request acts for, where it acts for one. *)
Definition requester (r : Request) : option string :=
  match r with
  | RSend _ i => Some (SI_SenderId i)
  | RPull i _ => Some (PI_UserId i)
  | RMaxSeqs u _ _ _ | RCreate _ u _ | RJoin _ _ u | RQuit _ _ u | RKick _ _ u _ | RGet _ u | RMembers _ u | RMarkRead _ u _ _ _
  | RGetConv u _ _ | RListConvs u _ _ _ _ | RSetOpt u _ _ _ | RUserGet u | RUserUpdate u _ => Some u
  | _ => None
  end.

(** Requests no client makes: what nodes do on their own. *)
Definition background (r : Request) : Prop :=
  match r with
  | RPushWorker _ | RInvalidate _ _ | RResolve _ | RDeliver _ _ _ _ | ROnlineAdd _ _ | ROnlineRemove _ | ROnlineRenew _ _ | RPurge _ => True
  | _ => False
  end.

(** What a service answered, as the transports see it. *)
Definition outcome (a : Response) : result Data :=
  match a with
  | ASend r => answer_with DAck r
  | APull r => answer_with DPull r
  | AMaxSeqs r => answer_with DMaxSeqs r
  | ACreate r | AGet r => answer_with DGroup r
  | ADone e => match e with Some e => Err e | None => Ok DEmpty end
  | AMembers r => answer_with DMembers r
  | AMarkRead r => answer_with DReadSeq r
  | AConv r => answer_with DItem r
  | AList r => answer_with DList r
  | AProfile r => answer_with DProfile r
  | AProfiles r => answer_with DUsers r
  | AStatus r => answer_with DItems r
  | _ => Ok DEmpty
  end.

(** The HTTP answer: a success is 200 with code 0, a failure the code and message of the error under its status. *)
Definition render (r : result Data) : HttpResp := match r with Ok d => OK (Some d) | Err e => Fail e end.

Definition wsRender (q : WsRequest) (r : result Data) : WsResponse := match r with Ok d => reply q d | Err e => fail q e end.

Section Front.
Context `{RL : RateLib} `{EN : Env} `{BC : Bcrypt} `{JW : Jwt} {C : Type} `{CC : Cache C} `{BI : Binder} `{FC : FrameCodec}
  `{RS : ReserveLib} `{RC : RangeClients}.
Variable cfg : Config.
Variable ac : ApiConfig.

Abbreviation FrontT := (@Front RL C RS).
Abbreviation F := (prog FrontT).
Abbreviation LocT := (@Loc RL C RS).
Abbreviation call := (Request * Response)%type.

Lemma handle_shape r : leaves (shape r) (handle cfg (nativeOn ac) r).
Proof. destruct r; apply leaves_mret; by intros. Qed.

(** ** Pools of transport calls *)

Inductive FReq :=
| FHttp (nd : string) (h : HttpReq)
| FOpen (nd : string) (closing : bool) (h : HttpReq)
| FFrame (nd : string) (c : WsClient) (q : WsRequest)
| FBack (r : Request).

Inductive FAns :=
| XHttp (x : HttpResp)
| XOpen (v : Identity + error)
| XFrame (x : WsResponse)
| XBack (a : Response).

Definition fhandle (q : FReq) : F FAns :=
  match q with
  | FHttp nd h => x ← serve cfg ac nd h; mret (XHttp x)
  | FOpen nd closing h => v ← openWs ac closing h; mret (XOpen v)
  | FFrame nd c r => x ← dispatch cfg ac nd c r; mret (XFrame x)
  | FBack r => a ← svc cfg ac r; mret (XBack a)
  end.

(** A native token that the secret verifies was signed by this server, for a user it registered. *)
Definition genuine (token : string) : Prop :=
  ∀ now cl, ParseNative (Na_Secret (AC_Native (AP_Auth ac))) now token = inl cl → Valid (NC_Subject cl) = true.

(** The bearer token of a request. *)
Definition bearer (h : HttpReq) : string := default "" (CutPrefix (q_Header h "Authorization") bearerPrefix).

(** A frame comes from a connection whose handshake accepted its identity. *)
Definition farrives (q : FReq) (s : FrontT) : Prop :=
  match q with
  | FHttp _ h => genuine (bearer h)
  | FOpen _ _ h => genuine (handshakeToken h)
  | FFrame _ c _ => ws_Identity c ∈ l_ids s.2
  | FBack r => background r ∧ arrives r s.1
  end.

Definition initFront (start : string → Z) (cache : C) : FrontT :=
  (initWorld cfg start, mkLoc 0 cache (λ nd, newIpLimit (AP_AuthPerIpPerMin ac) (start nd)) (λ _, newPresence) []).

Definition fpool : Type := list (@thread FrontT FReq FAns) * FrontT.

Definition freachable (start : string → Z) (cache : C) (p : fpool) : Prop :=
  rtc (pool_step (λ s, bnd s.1) fhandle farrives) ([], initFront start cache) p.

(** ** The requests a call makes *)

Definition onLoc {B} (f : LocT → B * LocT) : FrontT → B * FrontT := λ s, let '(b, l) := f s.2 in (b, (s.1, l)).

Definition onWorld {B} (f : World → B * World) : FrontT → B * FrontT := λ s, let '(b, w) := f s.1 in (b, (w, s.2)).

(** Identities a step of the front accepts, all valid. *)
Definition accepts {B} (f : LocT → B * LocT) (new : B → list Identity) : Prop :=
  ∀ l b l', f l = (b, l') → l_ids l' = l_ids l ++ new b ∧ Forall (λ id, Valid (Id_UserId id) = true) (new b).

Section Calls.
Context {X : Type} (Q : list Identity → list call → X → Prop).

(** [cal kn tr p]: with the identities [kn] accepted and the calls [tr] made so far (newest first), whatever the front and the
    services answer, [p] makes only requests that may arrive, and ends in an answer that satisfies [Q]. [during r kn tr q p]: [p]
    is in the middle of request [r], of which [q] is left. *)
Inductive cal : list Identity → list call → F X → Prop :=
| cal_ret kn tr x : Q kn tr x → cal kn tr (Ret x)
| cal_local kn tr B (f : LocT → B * LocT) (new : B → list Identity) k :
    accepts f new → (∀ l b l', f l = (b, l') → cal (kn ++ new b) tr (k b)) → cal kn tr (Act (onLoc f) k)
| cal_svc kn tr r p : (∀ w, arrives r w) → during r kn tr (handle cfg (nativeOn ac) r) p → cal kn tr p
with during : Request → list Identity → list call → prog World Response → F X → Prop :=
| during_ret r kn tr a p : cal kn ((r, a) :: tr) p → during r kn tr (Ret a) p
| during_act r kn tr B (f : World → B * World) j k :
    (∀ b, during r kn tr (j b) (k b)) → during r kn tr (Act f j) (Act (onWorld f) k).

Lemma during_lift r kn tr q k :
  leaves (shape r) q → (∀ a, shape r a → cal kn ((r, a) :: tr) (k a)) → during r kn tr q (pbind (liftW q) k).
Proof.
  intros Hq Hk. induction q as [a|B f j IH]; simpl in *; [constructor; by apply Hk|].
  apply (during_act r kn tr B f j). intros b. by apply IH.
Qed.

Lemma call_svc kn tr r k : (∀ w, arrives r w) → (∀ a, shape r a → cal kn ((r, a) :: tr) (k a)) → cal kn tr (a ← svc cfg ac r; k a).
Proof. intros Ha Hk. apply (cal_svc _ _ r); [done|]. apply during_lift; [apply handle_shape|done]. Qed.

Lemma call_local {B} kn tr (f : LocT → B * LocT) new k :
  accepts f new → (∀ l b l', f l = (b, l') → cal (kn ++ new b) tr (k b)) → cal kn tr (b ← local f; k b).
Proof. apply cal_local. Qed.
End Calls.

Scheme cal_mut := Induction for cal Sort Prop
with during_mut := Induction for during Sort Prop.

Combined Scheme cal_during_ind from cal_mut, during_mut.

Lemma cal_mono {X} (P Q : list Identity → list call → X → Prop) kn tr p :
  (∀ kn tr x, P kn tr x → Q kn tr x) → cal P kn tr p → cal Q kn tr p.
Proof.
  intros HPQ. revert kn tr p.
  assert ((∀ kn tr p, cal P kn tr p → cal Q kn tr p) ∧ (∀ r kn tr q p, during P r kn tr q p → during Q r kn tr q p)) as H; [|apply H].
  apply (cal_during_ind X P (λ kn tr p _, cal Q kn tr p) (λ r kn tr q p _, during Q r kn tr q p)); intros;
    eauto using cal_ret, cal_local, cal_svc, during_ret, during_act.
Qed.

(** Accepted identities stay accepted. *)
Lemma cal_known {X} (Q : list Identity → list call → X → Prop) kn tr p : cal Q kn tr p → cal (λ kn' tr x, kn ⊆ kn' ∧ Q kn' tr x) kn tr p.
Proof.
  intros H. assert (∀ kn0, kn0 ⊆ kn → cal (λ kn' tr x, kn0 ⊆ kn' ∧ Q kn' tr x) kn tr p) as Hg; [|by apply Hg].
  revert kn tr p H. refine (proj1 (cal_during_ind X Q (λ kn tr p _, ∀ kn0, kn0 ⊆ kn → cal (λ kn' tr x, kn0 ⊆ kn' ∧ Q kn' tr x) kn tr p)
    (λ r kn tr q p _, ∀ kn0, kn0 ⊆ kn → during (λ kn' tr x, kn0 ⊆ kn' ∧ Q kn' tr x) r kn tr q p) _ _ _ _ _)); intros;
    eauto using cal_ret, cal_svc, during_ret, during_act.
  eapply cal_local; [done|]. intros l b l' E. eapply H; [done|]. set_solver.
Qed.

Lemma call_bind {X Y} (Q : list Identity → list call → Y → Prop) (k : X → F Y) kn tr p :
  cal (λ kn tr x, cal Q kn tr (k x)) kn tr p → cal Q kn tr (x ← p; k x).
Proof.
  revert kn tr p. set (P := λ (kn : list Identity) (tr : list call) (x : X), cal Q kn tr (k x)).
  assert ((∀ kn tr p, cal P kn tr p → cal Q kn tr (pbind p k)) ∧ (∀ r kn tr q p, during P r kn tr q p → during Q r kn tr q (pbind p k))) as H; [|apply H].
  apply (cal_during_ind X P (λ kn tr p _, cal Q kn tr (pbind p k)) (λ r kn tr q p _, during Q r kn tr q (pbind p k))); simpl; intros;
    eauto using cal_local, cal_svc, during_ret, during_act.
Qed.

(** ** Simulation *)

Abbreviation sthread := (@thread World Request Response).
Abbreviation fthread := (@thread FrontT FReq FAns).
Abbreviation SStep := (pool_step bnd (handle cfg (nativeOn ac)) arrives).

(** One step of a program. *)
Definition pstep {W A} (p : prog W A) (w : W) : option (prog W A * W) :=
  match p with Ret _ => None | Act f k => let '(b, w') := f w in Some (k b, w') end.

Lemma pstep_pool ts1 ts2 w r ws q q' w' :
  pstep q w = Some (q', w') → bnd w' →
  SStep (ts1 ++ mkThread Request Response r ws q :: ts2, w) (ts1 ++ mkThread Request Response r ws q' :: ts2, w').
Proof.
  destruct q as [a|B f k]; simpl; [done|]. destruct (f w) as [b w1] eqn:E. intros [= <- <-] Hb. by apply step_act.
Qed.

(** The calls [tr] were answered in the pool. *)
Definition done_in (ts : list sthread) (tr : list call) : Prop :=
  Forall (λ ra : call, ∃ ws, mkThread Request Response ra.1 ws (Ret ra.2) ∈ ts) tr.

(** What a running call has to do with the pool of [System]: nothing is under way, or one request is. *)
Inductive rel {X} (Q : list Identity → list call → X → Prop) (ids : list Identity) (ts : list sthread) : F X → option sthread → Prop :=
| rel_ret kn tr x : kn ⊆ ids → done_in ts tr → Q kn tr x → rel Q ids ts (Ret x) None
| rel_local kn tr B (f : LocT → B * LocT) new k :
    kn ⊆ ids → done_in ts tr → accepts f new → (∀ l b l', f l = (b, l') → cal Q (kn ++ new b) tr (k b)) →
    rel Q ids ts (Act (onLoc f) k) None
| rel_svc kn tr r ws B (f : World → B * World) j k :
    kn ⊆ ids → done_in ts tr → (∀ b, during Q r kn tr (j b) (k b)) →
    rel Q ids ts (Act (onWorld f) k) (Some (mkThread Request Response r ws (Act f j))).

(** Answered requests stay in the pool. *)
Definition keeps (ts ts' : list sthread) : Prop := ∀ r ws a, mkThread Request Response r ws (Ret a) ∈ ts → mkThread Request Response r ws (Ret a) ∈ ts'.

Lemma done_keeps ts ts' tr : keeps ts ts' → done_in ts tr → done_in ts' tr.
Proof. intros Hk H. eapply Forall_impl; [exact H|]. intros [r a] [ws Hws]. exists ws. by apply Hk. Qed.

Lemma rel_keeps {X} (Q : list Identity → list call → X → Prop) ids ids' ts ts' p o :
  ids ⊆ ids' → keeps ts ts' → rel Q ids ts p o → rel Q ids' ts' p o.
Proof.
  intros Hi Hk [kn tr x H1 H2 H3|kn tr B f new k H1 H2 H3 H4|kn tr r ws B f j k H1 H2 H3].
  - eapply (rel_ret _ _ _ kn tr); [set_solver|by eapply done_keeps|done].
  - eapply (rel_local _ _ _ kn tr); [set_solver|by eapply done_keeps|done|done].
  - eapply (rel_svc _ _ _ kn tr); [set_solver|by eapply done_keeps|done].
Qed.

Definition opt_list (o : option sthread) : list sthread := match o with Some t => [t] | None => [] end.

(** A program that is about to run gets the requests it starts with, and those that are answered at once. *)
Definition settles {X} (Q : list Identity → list call → X → Prop) (ids : list Identity) (ts : list sthread) (w : World) (p : F X) : Prop :=
  ∃ dn o, rtc SStep (ts, w) (ts ++ dn ++ opt_list o, w) ∧ rel Q ids (ts ++ dn ++ opt_list o) p o.

Lemma keeps_app ts ts' : keeps ts (ts ++ ts').
Proof. intros r ws a H. apply elem_of_app. by left. Qed.

Lemma settles_after {X} (Q : list Identity → list call → X → Prop) ids ts t w p :
  rtc SStep (ts, w) (ts ++ [t], w) → settles Q ids (ts ++ [t]) w p → settles Q ids ts w p.
Proof.
  intros Hs (dn & o & Hr & Hrel). exists (t :: dn), o. rewrite <- app_assoc in Hr, Hrel. simpl in *. split; [|done]. by etransitivity.
Qed.

Lemma settle {X} (Q : list Identity → list call → X → Prop) ids w :
  (∀ kn tr p, cal Q kn tr p → ∀ ts, kn ⊆ ids → done_in ts tr → settles Q ids ts w p) ∧
  (∀ r kn tr q p, during Q r kn tr q p → ∀ ts, kn ⊆ ids → done_in ts tr → (∀ w, arrives r w) → handle cfg (nativeOn ac) r = q →
     settles Q ids ts w p).
Proof.
  apply (cal_during_ind X Q (λ kn tr p _, ∀ ts, kn ⊆ ids → done_in ts tr → settles Q ids ts w p)
    (λ r kn tr q p _, ∀ ts, kn ⊆ ids → done_in ts tr → (∀ w, arrives r w) → handle cfg (nativeOn ac) r = q → settles Q ids ts w p)).
  - intros kn tr x HQ ts Hk Hd. exists [], None. rewrite !app_nil_r. split; [done|by eapply rel_ret].
  - intros kn tr B f new k Ha Hk _ ts Hsub Hd. exists [], None. rewrite !app_nil_r. split; [done|by eapply rel_local].
  - intros kn tr r p Ha _ IH ts Hk Hd. by apply IH.
  - intros r kn tr a p _ IH ts Hk Hd Ha Eq.
    assert (rtc SStep (ts, w) (ts ++ [mkThread Request Response r w (Ret a)], w)) as Hs.
    { apply rtc_once. rewrite <- Eq. by apply step_arrive. }
    apply (settles_after Q ids ts _ w p Hs). apply IH; [done|]. constructor.
    + exists w. apply elem_of_app. right. by apply list_elem_of_singleton.
    + eapply done_keeps; [apply keeps_app|done].
  - intros r kn tr B f j k Hdur _ ts Hk Hd Ha Eq. exists [], (Some (mkThread Request Response r w (Act f j))). simpl. split.
    + apply rtc_once. rewrite <- Eq. by apply step_arrive.
    + eapply rel_svc; [done| |done]. eapply done_keeps; [apply keeps_app|done].
Qed.

(** The request under way made a step: it goes on, or it is answered and the call goes on. *)
Lemma advance {X} (Q : list Identity → list call → X → Prop) ids w r ws kn tr q p ts :
  during Q r kn tr q p → mkThread Request Response r ws q ∈ ts → kn ⊆ ids → done_in ts tr →
  ∃ ext dn o, rtc SStep (ts, w) (ts ++ ext, w) ∧ rel Q ids (ts ++ ext) p o ∧ mkThread Request Response r ws q :: ext ≡ₚ opt_list o ++ dn.
Proof.
  intros Hdur Hin Hk Hd. destruct Hdur as [r kn tr a p Hc|r kn tr B f j k Hj].
  - destruct (proj1 (settle Q ids w) _ _ _ Hc ts Hk) as (dn & o & Hs & Hr); [constructor; [by exists ws|done]|].
    exists (dn ++ opt_list o), (mkThread Request Response r ws (Ret a) :: dn), o. split_and!; [done|done|]. solve_Permutation.
  - exists [], [], (Some (mkThread Request Response r ws (Act f j))). rewrite app_nil_r. split_and!; [done| |done]. by eapply rel_svc.
Qed.

Definition all_valid (ids : list Identity) : Prop := Forall (λ id, Valid (Id_UserId id) = true) ids.

(** One step of a call is a run of [System] that keeps the other requests. *)
Lemma rel_step {X} (Q : list Identity → list call → X → Prop) ts rest (p p' : F X) o s s' :
  rel Q (l_ids s.2) ts p o → ts ≡ₚ opt_list o ++ rest → pstep p s = Some (p', s') → bnd s'.1 → all_valid (l_ids s.2) →
  ∃ ts' o' extra, rtc SStep (ts, s.1) (ts', s'.1) ∧ keeps ts ts' ∧ l_ids s.2 ⊆ l_ids s'.2 ∧ all_valid (l_ids s'.2) ∧
    rel Q (l_ids s'.2) ts' p' o' ∧ ts' ≡ₚ opt_list o' ++ rest ++ extra.
Proof.
  intros Hr. destruct Hr as [kn tr x|kn tr B f new k Hk Hd Ha Hc|kn tr r ws B f j k Hk Hd Hj]; simpl; [done|..].
  - destruct s as [w l]. unfold onLoc. simpl in *. destruct (f l) as [b l'] eqn:E. intros Hp [= <- <-] _ Hv. simpl.
    destruct (Ha l b l' E) as [El Hn]. rewrite El.
    destruct (proj1 (settle Q (l_ids l ++ new b) w) _ _ _ (Hc l b l' E) ts) as (dn & o & Hs & Hrel); [set_solver|done|].
    exists (ts ++ dn ++ opt_list o), o, dn. split_and!; [done|apply keeps_app|set_solver| |done|rewrite Hp; solve_Permutation].
    by apply Forall_app.
  - destruct s as [w l]. unfold onWorld. simpl in *. destruct (f w) as [b w'] eqn:E. intros Hp [= <- <-] Hb Hv. simpl in *.
    destruct (list_elem_of_split ts (mkThread Request Response r ws (Act f j))) as (ta & tb & ->); [rewrite Hp; by left|].
    set (ts1 := ta ++ mkThread Request Response r ws (j b) :: tb).
    assert (SStep (ta ++ mkThread Request Response r ws (Act f j) :: tb, w) (ts1, w')) as Hs1.
    { apply pstep_pool; [simpl; by rewrite E|done]. }
    assert (keeps (ta ++ mkThread Request Response r ws (Act f j) :: tb) ts1) as Hk1.
    { intros r' ws' a. unfold ts1. rewrite !elem_of_app, !elem_of_cons. intros [?|[[=]|?]]; tauto. }
    destruct (advance Q (l_ids l) w' r ws kn tr (j b) (k b) ts1) as (ext & dn & o & Hs & Hrel & Hperm);
      [apply Hj|unfold ts1; apply elem_of_app; right; by left|done|by eapply done_keeps|].
    exists (ts1 ++ ext), o, dn. split_and!; [by eapply rtc_l| |done|done|done|].
    + intros r' ws' a Hin. apply elem_of_app. left. by apply Hk1.
    + assert (ta ++ tb ≡ₚ rest) as <-.
      { apply (Permutation_cons_inv (a := mkThread Request Response r ws (Act f j))). rewrite <- Hp. by rewrite Permutation_middle. }
      unfold ts1. transitivity ((ta ++ tb) ++ mkThread Request Response r ws (j b) :: ext); [solve_Permutation|rewrite Hperm; solve_Permutation].
Qed.
End Front.
