(* ===== verification/FrontThms.v ===== *)
(** * What the transports promise

    Every answer of the HTTP API and of the gateway's dispatcher is that of the service request the route names, made for an accepted
    identity, rendered with the status and code of its error; every run of the transports is a run of [System]. *)

From S2P Require Import Prelude.
From S2P Require Import NexoConfig.
From S2P Require Import Presence.
From S2P Require Import Errcode Strconv Identity Json Store PgStore Conv Conc RateLimit World ConvPage MessageSvc GroupSvc ConversationSvc UserSvc WorldInv MessageInv Cache Sha256 Auth AuthThms System Http Api Frames Front.

Local Open Scope Z_scope.

(** Endpoints that act for nobody. *)
Definition anonymous (e : Endpoint) : bool :=
  match e with EHealthz | ERegister | ELogin | EInfo | EOnlineStatus | EHealth | EUpsert => true | _ => false end.

(** The routes that leave an identity behind. *)
Definition identifies (g : Guard) : bool := match g with GBearer | GAsUser => true | _ => false end.

Section FrontThms.
Context `{RL : RateLib} `{EN : Env} `{BC : Bcrypt} `{JW : Jwt} {C : Type} `{CC : Cache C} `{BI : Binder} `{FC : FrameCodec}
  `{RS : ReserveLib} `{RC : RangeClients}.
Variable cfg : Config.
Variable ac : ApiConfig.

Abbreviation F := (prog (@Front RL C RS)).
Abbreviation LocT := (@Loc RL C RS).
Abbreviation call := (Request * Response)%type.

(** ** Accepted identities *)

Lemma NativeVerify_subject n now tc token (c : C) id c' :
  NativeVerify n now tc token c = (Ok id, c') → ∃ cl, ParseNative (N_secret n) now token = inl cl ∧ Id_UserId id = NC_Subject cl.
Proof. unfold NativeVerify. intros H. repeat case_match; simplify_eq; eauto. Qed.

Lemma chain_accepts (ps : list (string → C → result Identity * C)) token lastErr c id c' :
  chainLoop ps token lastErr c = (Ok id, c') → ∃ p c0 c1, p ∈ ps ∧ p token c0 = (Ok id, c1).
Proof.
  revert lastErr c. induction ps as [|p ps IH]; intros lastErr c; simpl; [done|].
  destruct (p token c) as [[id'|e] c1] eqn:E.
  - intros [= -> ->]. exists p, c, c'. split; [by left|done].
  - intros H. destruct (IH _ _ H) as (p' & c0 & c2 & Hin & Hp). exists p', c0, c2. split; [by right|done].
Qed.

Lemma buildChain_valid a now tc token ps p (c : C) id c' :
  genuine ac token → a = AP_Auth ac → p ∈ buildChain a now tc ps → p token c = (Ok id, c') → Valid (Id_UserId id) = true.
Proof.
  intros Hg ->. induction ps as [|x ps IH]; simpl; [by intros H%not_elem_of_nil|].
  destruct (x =? "external_jwt")%string; [|destruct (x =? "native")%string]; [rewrite elem_of_cons; intros [->|Hin]|rewrite elem_of_cons; intros [->|Hin]|]; eauto.
  - intros [= E _]. by apply external_identity_valid in E as (? & _).
  - intros E. apply NativeVerify_subject in E as (cl & Hp & ->). by apply (Hg now).
Qed.

Lemma authVerify_valid now tc token (c : C) id c' :
  genuine ac token → authVerify ac now tc token c = (Ok id, c') → Valid (Id_UserId id) = true.
Proof. intros Hg H. apply chain_accepts in H as (p & c0 & c1 & Hin & Hp). by eapply buildChain_valid. Qed.

Lemma Bearer_valid now tc d h (c : C) id c' :
  genuine ac (bearer h) → Bearer (authVerify ac now tc) d h c = (inl id, c') → Valid (Id_UserId id) = true.
Proof.
  unfold bearer, Bearer. destruct (CutPrefix _ _) as [token|]; [|done]. simpl. intros Hg. destruct (token =? "")%string; [done|].
  destruct (authVerify ac now tc token c) as [[id'|e] c1] eqn:E; [|done]. apply authVerify_valid in E; [|done].
  intros [= <- <-]. by destruct (Id_PlatformId id' =? 0).
Qed.

Lemma AsUser_valid m now tc h (c : C) id c' : AsUser m now tc h c = (inl id, c') → Valid (Id_UserId id) = true.
Proof.
  unfold AsUser. destruct (internal_verify m now tc h c) as [[r|] c1]; [done|].
  destruct (ParseActor _) as [a|] eqn:E; [|done]. intros [= <- <-]. simpl. by eapply Valid_ParseActor.
Qed.

Lemma handshake_valid closing now tc h (c : C) id c' :
  genuine ac (handshakeToken h) → handshake closing (authVerify ac now tc) h c = (inl id, c') → Valid (Id_UserId id) = true.
Proof.
  intros Hg H. unfold handshake in H. repeat (case_match; simplify_eq; try done);
    match goal with E : authVerify _ _ _ _ _ = _ |- _ => apply authVerify_valid in E; done end.
Qed.

Lemma accepts_none {B} (f : LocT → B * LocT) : (∀ l, l_ids (f l).2 = l_ids l) → accepts f (λ _, []).
Proof. intros H l b l' E. specialize (H l). rewrite E in H. by rewrite app_nil_r. Qed.

(** What [authenticate] records. *)
Definition granted {E} (v : Identity + E) : list Identity := match v with inl id => [id] | inr _ => [] end.

Lemma call_authenticate {E X} (Q : list Identity → list call → X → Prop) (f : Z → Z → C → (Identity + E) * C) k kn tr :
  (∀ now tc c id c', f now tc c = (inl id, c') → Valid (Id_UserId id) = true) →
  (∀ id, Valid (Id_UserId id) = true → cal cfg ac Q (kn ++ [id]) tr (k (inl id))) →
  (∀ now tc c e c', f now tc c = (inr e, c') → cal cfg ac Q kn tr (k (inr e))) →
  cal cfg ac Q kn tr (v ← authenticate f; k v).
Proof.
  intros Hv Hok Hno. apply (call_local cfg ac Q kn tr _ granted).
  - intros l v l' E0. destruct (f _ _ (l_cache l)) as [v' c'] eqn:Ef. injection E0 as <- <-. split; [done|].
    destruct v' as [id|e]; simpl; [|done]. constructor; [by eapply Hv|constructor].
  - intros l v l' E0. destruct (f _ _ (l_cache l)) as [v' c'] eqn:Ef. injection E0 as <- <-.
    destruct v' as [id|e]; simpl; [by eapply Hok, Hv|]. rewrite app_nil_r. by eapply Hno.
Qed.

(** ** The contract of the routes *)

(** The request an endpoint makes of the services, from its body or query and the identity it acts for. *)
Definition calls (nd : string) (e : Endpoint) (id : Identity) (h : HttpReq) (r : Request) : Prop :=
  let u := Id_UserId id in
  match e with
  | ERegister => ∃ q, bindRegister (q_Body h) = Ok q ∧ r = RRegister (Rg_Username q) (Rg_Password q) (Rg_Nickname q)
  | EMe => r = RUserGet u
  | EUpdateMe => ∃ q, bindUpdate (q_Body h) = Ok q ∧ r = RUserUpdate u q
  | EInfo => ∃ ids, userIds h = Ok ids ∧ r = RGetMany ids
  | EOnlineStatus => ∃ ids, userIds h = Ok ids ∧ r = ROnlineStatus ids
  | ECreate => ∃ q, bindCreate (q_Body h) = Ok q ∧ r = RCreate nd u q
  | EJoin => ∃ q, bindGroupReq (q_Body h) = Ok q ∧ r = RJoin nd (Gr_GroupId q) u
  | EQuit => ∃ q, bindGroupReq (q_Body h) = Ok q ∧ r = RQuit nd (Gr_GroupId q) u
  | EKick => ∃ q, bindGroupReq (q_Body h) = Ok q ∧ r = RKick nd (Gr_GroupId q) u (Gr_UserId q)
  | EGroupInfo => r = RGet (q_Query h "group_id") u
  | EMembers => r = RMembers (q_Query h "group_id") u
  | ESend => ∃ q, bindSend (q_Body h) = Ok q ∧
      let internal := (Id_Source id =? SourceInternal)%string in
      r = RSend nd (mkSendInput u "" (SR_ClientMsgId q) (SR_SessionType q) (SR_RecvId q) (SR_GroupId q) (SR_ContentType q) (SR_Content q)
            (SenderReadFor q internal) internal)
  | EPull => r = RPull (mkPullInput u (q_Query h "conversation_id") (queryInt h "begin_seq") (queryInt h "end_seq") (queryInt h "limit")) (AP_PullPageMax ac)
  | EMaxSeqs => r = RMaxSeqs u (q_Query h "cursor") (queryInt h "limit") (AP_MaxSeqsPageMax ac)
  | EList => r = RListConvs u (q_Query h "cursor") (queryInt h "limit") (AP_ConvPageMax ac) (q_Query h "with_last_message" =? "true")%string
  | EGet => r = RGetConv u (mkGetKey (q_Query h "conversation_id") (q_Query h "peer_user_id") (q_Query h "group_id"))
                  (q_Query h "with_last_message" =? "true")%string
  | ERead => ∃ q, bindRead (q_Body h) = Ok q ∧ r = RMarkRead nd u "" (Rd_ConversationId q) (Rd_ReadSeq q)
  | EOpt => ∃ q, bindOpt (q_Body h) = Ok q ∧ r = RSetOpt u (Op_ConversationId q) (Op_RecvMsgOpt q) (Op_IsPinned q)
  | EUpsert => ∃ q, bindUpsert (q_Body h) = Ok q ∧ r = RUpsert (Us_Id q) (Us_Nickname q) (Us_Avatar q) (Us_Extra q)
  | EHealthz | ELogin | ELogout | EHealth => False
  end.

(** An endpoint that answers without the services' data: a refusal, a probe, a session. [tr] are the calls it made. *)
Inductive alone (nd : string) : Endpoint → list call → HttpResp → Prop :=
| alone_refused e x : alone nd e [] (Fail x)
| alone_healthz b st : alone nd EHealthz [] (Probe b st nd)
| alone_health : alone nd EHealth [] health
| alone_logout : alone nd ELogout [] (OK None)
| alone_login tr (r : result Session) : (tr = [] ∨ ∃ n a, tr = [(RUserByName n, a)]) → alone nd ELogin tr (RespondWith DSession r).

(** How an HTTP call was answered, the identities [kn] accepted on the way. *)
Inductive http_served (nd : string) (h : HttpReq) (kn : list Identity) : list call → HttpResp → Prop :=
| served_noroute : route ac h = None → http_served nd h kn [] NoRoute
| served_aborted g e x : route ac h = Some (g, e) → http_served nd h kn [] (Fail x)
| served_alone g e id tr x : route ac h = Some (g, e) → (identifies g = true → id ∈ kn) → alone nd e tr x → http_served nd h kn tr x
| served_call g e id r a :
    route ac h = Some (g, e) → (identifies g = true → id ∈ kn) → calls nd e id h r → shape r a →
    http_served nd h kn [(r, a)] (render (outcome a)).

(** The request a frame makes. *)
Definition frame_calls (nd : string) (c : WsClient) (q : WsRequest) (r : Request) : Prop :=
  let u := Id_UserId (ws_Identity c) in
  (Wq_ReqId q = ReqGetMaxSeqs ∧ ∃ i, r = RMaxSeqs u (Ms_Cursor i) (Ms_Limit i) (AP_MaxSeqsPageMax ac)) ∨
  (Wq_ReqId q = ReqPullMsgBySeqRange ∧ ∃ i, r = RPull (mkPullInput u (Pl_ConversationId i) (Pl_BeginSeq i) (Pl_EndSeq i) (Pl_Limit i)) (AP_PullPageMax ac)) ∨
  (Wq_ReqId q = ReqSendMsg ∧ ∃ i, r = RSend nd (mkSendInput u (ws_Id c) (SR_ClientMsgId i) (SR_SessionType i) (SR_RecvId i) (SR_GroupId i)
     (SR_ContentType i) (SR_Content i) (SenderReadFor i (Id_Source (ws_Identity c) =? SourceInternal)%string) false)) ∨
  (Wq_ReqId q = ReqMarkRead ∧ ∃ i, Rd_ConversationId i ≠ ""%string ∧ r = RMarkRead nd u (ws_Id c) (Rd_ConversationId i) (Rd_ReadSeq i)) ∨
  (Wq_ReqId q = ReqGetConversation ∧ ∃ i, r = RGetConv u (Gt_Key i) (Gt_WithLastMessage i)).

Definition frame_served (nd : string) (c : WsClient) (q : WsRequest) (tr : list call) (x : WsResponse) : Prop :=
  (tr = [] ∧ ∃ d, x = wsRender q d) ∨ (∃ r a, tr = [(r, a)] ∧ frame_calls nd c q r ∧ shape r a ∧ x = wsRender q (outcome a)).

Definition served (q : FReq) (kn : list Identity) (tr : list call) (x : FAns) : Prop :=
  match q, x with
  | FHttp nd h, XHttp x => http_served nd h kn tr x
  | FOpen _ _ _, XOpen v => tr = [] ∧ ∀ id, v = inl id → id ∈ kn
  | FFrame nd c r, XFrame x => ws_Identity c ∈ kn ∧ frame_served nd c r tr x
  | FBack r, XBack a => tr = [(r, a)]
  | _, _ => False
  end.

(** ** The handlers keep it *)

(** An answer of endpoint [e] for identity [id]. *)
Definition ans (nd : string) (e : Endpoint) (id : Identity) (h : HttpReq) (tr : list call) (x : HttpResp) : Prop :=
  alone nd e tr x ∨ ∃ r a, tr = [(r, a)] ∧ calls nd e id h r ∧ shape r a ∧ x = render (outcome a).

Abbreviation Cal nd e id h := (cal (C := C) (X := HttpResp) cfg ac (λ _ tr x, ans nd e id h tr x)).

Lemma cal_refuse nd e id h kn x : Cal nd e id h kn [] (mret (Fail x)).
Proof. apply cal_ret. left. constructor. Qed.

Lemma cal_one nd e id h kn r (k : Response → HttpResp) :
  calls nd e id h r → (∀ w, arrives r w) → (∀ a, shape r a → k a = render (outcome a)) → Cal nd e id h kn [] (a ← svc cfg ac r; mret (k a)).
Proof. intros Hc Ha Hk. apply call_svc; [done|]. intros a Hs. apply cal_ret. right. exists r, a. by rewrite (Hk a Hs). Qed.

Lemma render_with {A} (f : A → Data) (r : result A) : RespondWith f r = render (answer_with f r).
Proof. by destruct r. Qed.

Ltac shapes :=
  let a := fresh in let Hs := fresh in intros a Hs; destruct a; simpl in Hs; try done; simpl;
  first [apply render_with|match goal with |- Respond _ ?e = _ => by destruct e end].

Lemma Bind_inv {T} (dec : string → result T) h :
  (∃ q, dec (q_Body h) = Ok q ∧ Bind dec h = inl q) ∨ ∃ x, Bind dec h = inr (Fail x).
Proof. unfold Bind. destruct (dec (q_Body h)); [left|right]; eauto. Qed.

Lemma BindValid_inv {T} (dec : string → result T) h msg valid :
  (∃ q, dec (q_Body h) = Ok q ∧ BindValid dec h msg valid = inl q) ∨ ∃ x, BindValid dec h msg valid = inr (Fail x).
Proof. unfold BindValid. destruct (dec (q_Body h)) as [q|]; [destruct (valid q)|]; [left|right|right]; eauto. Qed.

Ltac bound H := destruct H as [(q & Hq & ->)|[x ->]]; [|apply cal_refuse].

Lemma login_ans nd id h kn : Cal nd ELogin id h kn [] (login cfg ac h).
Proof.
  unfold login. bound (BindValid_inv bindLogin h "username, password and platform_id are required" (λ r, 0 <? Lg_PlatformId r)).
  apply call_bind. unfold loginSvc.
  assert (∀ tr lookup, (tr = [] ∨ ∃ n a, tr = [(RUserByName n, a)]) →
    cal cfg ac (λ kn tr x, Cal nd ELogin id h kn tr (mret (RespondWith DSession x))) kn tr (issueToken ac lookup (Lg_Password q) (Lg_PlatformId q))) as Hi.
  { intros tr lookup Htr. apply (cal_local cfg ac _ kn tr _ _ (λ _, [])).
    - apply accepts_none. intros l. destruct (Login _ _ _ _ _ _ _ _) as [r c]. simpl. by rewrite app_nil_r.
    - intros l b l' _. apply cal_ret, cal_ret. left. by constructor. }
  destruct (_ || _); [apply Hi; by left|]. apply call_svc; [done|]. intros a _. apply Hi. right. eauto.
Qed.

Lemma logout_ans nd id h kn : Cal nd ELogout id h kn [] (logout ac id).
Proof.
  apply (call_local cfg ac _ kn [] _ (λ _, [])).
  - apply accepts_none. intros l. destruct (Logout _ _ _ _) as [e c]. simpl. by rewrite app_nil_r.
  - intros l e l' _. apply cal_ret. left. destruct e; constructor.
Qed.

Lemma healthz_ans nd id h kn : Cal nd EHealthz id h kn [] (healthz nd).
Proof.
  apply (cal_local cfg ac _ kn [] _ _ (λ _, [])); [by apply accepts_none|].
  intros l x l' [= <- <-]. apply cal_ret. left. destruct (fault _); constructor.
Qed.

Lemma run_endpoint_ans nd e id h kn :
  (anonymous e = false → Valid (Id_UserId id) = true) → Cal nd e id h kn [] (run_endpoint cfg ac nd e id h).
Proof.
  intros Hv. destruct e; cbn [run_endpoint]; try (apply cal_one; [done|done|shapes]);
    [apply healthz_ans| |apply login_ans|apply logout_ans|..].
  - unfold register. bound (Bind_inv bindRegister h). apply cal_one; [by exists q|done|shapes].
  - unfold updateMe. bound (Bind_inv bindUpdate h). apply cal_one; [by exists q|done|shapes].
  - unfold info. destruct (userIds h) as [ids|] eqn:E; [|apply cal_refuse]. apply cal_one; [by exists ids|done|shapes].
  - unfold onlineStatus. destruct (userIds h) as [ids|] eqn:E; [|apply cal_refuse]. apply cal_one; [by exists ids|done|shapes].
  - unfold create. bound (Bind_inv bindCreate h). apply cal_one; [by exists q|done|shapes].
  - unfold join, bindGroup. bound (BindValid_inv bindGroupReq h "group_id is required" (λ r, negb (Gr_GroupId r =? "")%string)).
    apply cal_one; [by exists q|done|shapes].
  - unfold quit, bindGroup. bound (BindValid_inv bindGroupReq h "group_id is required" (λ r, negb (Gr_GroupId r =? "")%string)).
    apply cal_one; [by exists q|done|shapes].
  - unfold kick, bindGroup. bound (BindValid_inv bindGroupReq h "group_id is required" (λ r, negb (Gr_GroupId r =? "")%string)).
    destruct (Gr_UserId q =? "")%string; [apply cal_refuse|]. apply cal_one; [by exists q|done|shapes].
  - unfold send. bound (Bind_inv bindSend h). apply cal_one; [by exists q|intros w; by apply Hv|shapes].
  - unfold read. bound (BindValid_inv bindRead h "conversation_id and read_seq are required" (λ r, negb (Rd_ConversationId r =? "")%string)).
    apply cal_one; [by exists q|done|shapes].
  - unfold opt. bound (BindValid_inv bindOpt h "conversation_id is required" (λ r, negb (Op_ConversationId r =? "")%string)).
    apply cal_one; [by exists q|done|shapes].
  - apply cal_ret. left. constructor.
  - unfold upsert. bound (Bind_inv bindUpsert h). apply cal_one; [by exists q|done|shapes].
Qed.

(** ** Guards *)

(** Without an identity a route reaches only endpoints that act for nobody. *)
Lemma route_anonymous h g e : route ac h = Some (g, e) → identifies g = false → anonymous e = true.
Proof.
  unfold route. destruct (List.find _ _) as [[[p g'] e']|] eqn:E; [|done]. intros [= -> ->] Hg.
  apply List.find_some in E as [Hin _]. unfold routes, registerRoutes in Hin.
  apply list_elem_of_In in Hin. rewrite elem_of_cons, !elem_of_app in Hin. destruct Hin as [[= -> -> ->]|[Hin|[Hin|Hin]]]; [done|..].
  - destruct (nativeOn ac); [|by apply not_elem_of_nil in Hin]. set_unfold in Hin. naive_solver.
  - set_unfold in Hin. naive_solver.
  - destruct (AP_Internal ac); [|by apply not_elem_of_nil in Hin]. set_unfold in Hin. naive_solver.
Qed.

Definition passed (g : Guard) (kn : list Identity) (tr : list call) (v : Verdict) : Prop :=
  tr = [] ∧ match v with
            | inl id => identifies g = true → id ∈ kn ∧ Valid (Id_UserId id) = true
            | inr x => (∃ e, x = Fail e) ∨ x = NoRoute ∧ AP_Internal ac = None ∧ (g = GVerify ∨ g = GAsUser)
            end.

Lemma cal_authenticated g kn (f : Z → Z → C → Verdict * C) :
  (∀ now tc c id c', f now tc c = (inl id, c') → Valid (Id_UserId id) = true) →
  (∀ now tc c x c', f now tc c = (inr x, c') → ∃ e, x = Fail e) →
  cal (C := C) cfg ac (passed g) kn [] (authenticate f).
Proof.
  intros Hv Hx. apply (cal_local cfg ac _ kn [] _ _ granted).
  - intros l v l' E0. destruct (f _ _ (l_cache l)) as [v' c'] eqn:Ef. injection E0 as <- <-. split; [done|].
    destruct v' as [id|e]; simpl; [|done]. constructor; [by eapply Hv|constructor].
  - intros l v l' E0. destruct (f _ _ (l_cache l)) as [v' c'] eqn:Ef. injection E0 as <- <-. apply cal_ret. split; [done|].
    destruct v' as [id|x]; [|left; by eapply Hx]. intros _. split; [set_solver|by eapply Hv].
Qed.

Lemma internal_verify_fail m now tc h (c : C) x c' : internal_verify m now tc h c = (Some x, c') → ∃ e, x = Fail e.
Proof. unfold internal_verify. intros H. repeat case_match; simplify_eq; eauto. Qed.

Lemma guard_passed nd g h kn : genuine ac (bearer h) → cal (C := C) cfg ac (passed g) kn [] (guard ac nd g h).
Proof.
  intros Hg. destruct g; cbn [guard].
  - apply cal_ret. split; [done|done].
  - unfold IpRateLimit. apply call_bind. do 2 (apply (call_local cfg ac _ _ [] _ (λ _, []));
      [apply accepts_none; intros ?; repeat case_match; done|intros ? ? ? _; rewrite app_nil_r]).
    apply (cal_local cfg ac _ _ [] _ _ (λ _, [])); [apply accepts_none; intros ?; repeat case_match; done|].
    intros ? ok ? _. rewrite app_nil_r. apply cal_ret, cal_ret. split; [done|]. destruct ok; [done|]. left. eauto.
  - apply cal_authenticated; [intros *; by apply Bearer_valid|]. intros now tc c x c'. unfold Bearer. intros H. repeat case_match; simplify_eq; eauto.
  - destruct (AP_Internal ac) as [v|] eqn:E; [|apply cal_ret; split; [done|]; right; by auto].
    apply (cal_local cfg ac _ _ [] _ _ (λ _, [])).
    + apply accepts_none. intros l. destruct (Http.Verify _ _ _ _ _) as [r s]. simpl. by rewrite app_nil_r.
    + intros l b l'. unfold Http.Verify. destruct (internal_verify _ _ _ _ _) as [[x|] s] eqn:Ev; intros [= <- <-]; apply cal_ret; (split; [done|]); [|done].
      left. by eapply internal_verify_fail.
  - destruct (AP_Internal ac) as [v|] eqn:E; [|apply cal_ret; split; [done|]; right; by auto].
    apply cal_authenticated; [intros *; by apply AsUser_valid|]. intros now tc c x c'. unfold AsUser.
    destruct (internal_verify _ _ _ _ _) as [[y|] s] eqn:Ev; [intros [= <- _]; by eapply internal_verify_fail|].
    destruct (ParseActor _); intros [= <- _]. eauto.
Qed.

(** The internal routes exist only with a verifier. *)
Lemma route_internal h g e : route ac h = Some (g, e) → g = GVerify ∨ g = GAsUser → AP_Internal ac ≠ None.
Proof.
  unfold route. destruct (List.find _ _) as [[[p g'] e']|] eqn:E; [|done]. intros [= -> ->] Hg Hn.
  apply List.find_some in E as [Hin _]. unfold routes, registerRoutes in Hin. rewrite Hn in Hin.
  apply list_elem_of_In in Hin. destruct (nativeOn ac); set_unfold in Hin; naive_solver.
Qed.

Lemma serve_served nd h kn : genuine ac (bearer h) → cal (C := C) cfg ac (http_served nd h) kn [] (serve cfg ac nd h).
Proof.
  intros Hg. unfold serve. destruct (route ac h) as [[g e]|] eqn:Er; [|apply cal_ret; by constructor].
  apply call_bind. eapply cal_mono; [|by apply (guard_passed nd g h kn)]. clear kn. intros kn tr v [-> Hv]. destruct v as [id|x].
  - eapply cal_mono; [|apply cal_known, (run_endpoint_ans nd e id h kn)].
    + intros kn' tr x [Hsub [Ha|(r & a & -> & Hc & Hs & ->)]]; [eapply served_alone|eapply served_call]; try done; intros Hi; apply Hsub, Hv, Hi.
    + intros Hn. apply Hv. destruct (identifies g) eqn:Ei; [done|]. by rewrite (route_anonymous _ _ _ Er Ei) in Hn.
  - apply cal_ret. destruct Hv as [[y ->]|(-> & Hn & Hi)]; [by eapply served_aborted|]. by destruct (route_internal _ _ _ Er Hi).
Qed.

(** ** Frames *)

Lemma answer_ws q r : match r with Ok d => reply q d | Err e => fail q e end = wsRender q r.
Proof. done. Qed.

Lemma frame_one nd c q kn r (k : Response → result Data) :
  frame_calls nd c q r → (∀ w, arrives r w) → (∀ a, shape r a → k a = outcome a) →
  cal (C := C) cfg ac (λ _ tr d, frame_served nd c q tr (wsRender q d)) kn [] (a ← svc cfg ac r; mret (k a)).
Proof. intros Hc Ha Hk. apply call_svc; [done|]. intros a Hs. apply cal_ret. right. exists r, a. by rewrite (Hk a Hs). Qed.

Lemma frame_refuse nd c q kn d : cal (C := C) cfg ac (λ _ tr d, frame_served nd c q tr (wsRender q d)) kn [] (mret d).
Proof. apply cal_ret. left. eauto. Qed.

Lemma handleReq_served nd c q kn :
  Valid (Id_UserId (ws_Identity c)) = true →
  cal (C := C) cfg ac (λ _ tr d, frame_served nd c q tr (wsRender q d)) kn [] (handleReq cfg ac nd c q).
Proof.
  intros Hv. unfold handleReq. set (u := Id_UserId (ws_Identity c)).
  destruct (Wq_ReqId q =? ReqSetOnlineSubscriptions) eqn:E0; [|destruct (Wq_ReqId q =? ReqGetMaxSeqs) eqn:E1;
    [|destruct (Wq_ReqId q =? ReqPullMsgBySeqRange) eqn:E2; [|destruct (Wq_ReqId q =? ReqSendMsg) eqn:E3;
    [|destruct (Wq_ReqId q =? ReqMarkRead) eqn:E4; [|destruct (Wq_ReqId q =? ReqGetConversation) eqn:E5; [|apply frame_refuse]]]]]];
    (destruct (bind _ _ q) as [i|]; [|apply frame_refuse]); bool_prop.
  - apply (call_local cfg ac _ kn [] _ (λ _, [])).
    + apply accepts_none. intros l. by destruct (setOnlineSubscriptions _ _ _ _ _).
    + intros l r l' _. apply frame_refuse.
  - apply frame_one; [left; eauto|done|]. intros [] Hs; simpl in Hs; try done.
  - apply frame_one; [right; left; eauto|done|]. intros [] Hs; simpl in Hs; try done.
  - apply frame_one; [do 2 right; left; eauto|done|]. intros [] Hs; simpl in Hs; try done.
  - destruct (String.eqb_spec (Rd_ConversationId i) "") as [|Hne]; [apply frame_refuse|].
    apply frame_one; [do 3 right; left; eauto|done|]. intros [] Hs; simpl in Hs; try done.
  - apply frame_one; [do 4 right; eauto|done|]. intros [] Hs; simpl in Hs; try done.
Qed.

(** ** Simulation *)

Abbreviation sthread := (@thread World Request Response).
Abbreviation fthread := (@thread (@Front RL C RS) FReq FAns).

Lemma fhandle_served q (s : @Front RL C RS) :
  farrives ac q s → all_valid (l_ids s.2) → (∀ r, q ≠ FBack r) →
  cal (C := C) cfg ac (served q) (match q with FFrame _ c _ => [ws_Identity c] | _ => [] end) [] (fhandle cfg ac q).
Proof.
  intros Ha Hv Hb. destruct q as [nd h|nd cl h|nd c r|r]; cbn [fhandle farrives] in *.
  - apply call_bind. eapply cal_mono; [|by apply serve_served]. intros kn tr x H. by apply cal_ret.
  - apply (call_authenticate (λ kn tr v, served (FOpen nd cl h) kn tr v)).
    + intros *. by apply handshake_valid.
    + intros id _. apply cal_ret. split; [done|]. intros id' [= <-]. simpl. set_solver.
    + intros. apply cal_ret. split; [done|]. intros id' [=].
  - assert (Valid (Id_UserId (ws_Identity c)) = true) as Hc by (unfold all_valid in Hv; rewrite Forall_forall in Hv; by apply Hv).
    apply call_bind, call_bind. eapply cal_mono; [|apply cal_known; by apply (handleReq_served nd c r)].
    intros kn tr d [Hk H]. apply cal_ret, cal_ret. split; [apply Hk; by left|exact H].
  - by destruct (Hb r).
Qed.

(** The requests under way in the pool are those of the running calls. *)
Definition linked (fts : list fthread) (s : @Front RL C RS) (ts : list sthread) : Prop :=
  all_valid (l_ids s.2) ∧ ∃ os dn,
    Forall2 (λ t o, rel cfg ac (served (th_req _ _ t)) (l_ids s.2) ts (th_prog _ _ t) o) fts os ∧ ts ≡ₚ concat (map opt_list os) ++ dn.

Lemma rels_keep (fts : list fthread) os ids ids' ts ts' :
  ids ⊆ ids' → keeps ts ts' →
  Forall2 (λ t o, rel (C := C) cfg ac (served (th_req _ _ t)) ids ts (th_prog _ _ t) o) fts os →
  Forall2 (λ t o, rel cfg ac (served (th_req _ _ t)) ids' ts' (th_prog _ _ t) o) fts os.
Proof. intros Hi Hk H. eapply Forall2_impl; [exact H|]. intros t o. by apply rel_keeps. Qed.

Abbreviation SStep := (pool_step bnd (handle cfg (nativeOn ac)) arrives).

Lemma arrive_rel q (s : @Front RL C RS) ts :
  farrives ac q s → all_valid (l_ids s.2) →
  ∃ ext o dn, rtc SStep (ts, s.1) (ts ++ ext, s.1) ∧ rel cfg ac (served q) (l_ids s.2) (ts ++ ext) (fhandle cfg ac q) o ∧ ext ≡ₚ opt_list o ++ dn.
Proof.
  intros Ha Hv. destruct q as [nd h|nd cl h|nd c r|r].
  1,2,3: match goal with |- context [fhandle cfg ac ?q] =>
      destruct (proj1 (settle cfg ac (served q) (l_ids s.2) s.1) _ _ _ (fhandle_served q s Ha Hv ltac:(done)) ts) as (dn & o & Hs & Hr) end;
      [set_solver|constructor|]; exists (dn ++ opt_list o), o, dn; split_and!; [done|done|solve_Permutation].
  destruct Ha as [_ Ha]. set (th := mkThread Request Response r s.1 (handle cfg (nativeOn ac) r)).
  assert (rtc SStep (ts, s.1) (ts ++ [th], s.1)) as H1 by (apply rtc_once; by apply step_arrive).
  destruct (advance cfg ac (served (FBack r)) (l_ids s.2) s.1 r s.1 [] [] (handle cfg (nativeOn ac) r) (fhandle cfg ac (FBack r)) (ts ++ [th]))
    as (ext & dn & o & Hs & Hr & Hp); [|apply elem_of_app; right; by left|set_solver|constructor|].
  - apply during_lift; [apply handle_shape|]. intros a _. by apply cal_ret.
  - rewrite <- app_assoc in Hs, Hr. exists (th :: ext), o, dn. split_and!; [by etransitivity|done|done].
Qed.

Lemma linked_arrive fts s ts q :
  farrives ac q s → linked fts s ts →
  ∃ ts', rtc SStep (ts, s.1) (ts', s.1) ∧ linked (fts ++ [mkThread FReq FAns q s (fhandle cfg ac q)]) s ts'.
Proof.
  intros Ha (Hv & os & dn & Hos & Hp). destruct (arrive_rel q s ts Ha Hv) as (ext & o & dn' & Hs & Hr & He).
  exists (ts ++ ext). split; [done|]. split; [done|]. exists (os ++ [o]), (dn ++ dn'). split.
  - apply Forall2_app; [|by constructor]. eapply rels_keep; [done|apply keeps_app|done].
  - rewrite Hp, He, map_app, concat_app. simpl. rewrite app_nil_r. solve_Permutation.
Qed.

Lemma linked_step f1 f2 q s0 p p' s s' ts :
  linked (f1 ++ mkThread FReq FAns q s0 p :: f2) s ts → pstep p s = Some (p', s') → bnd s'.1 →
  ∃ ts', rtc SStep (ts, s.1) (ts', s'.1) ∧ linked (f1 ++ mkThread FReq FAns q s0 p' :: f2) s' ts'.
Proof.
  intros (Hv & os & dn & Hos & Hp) Hstep Hb. apply Forall2_app_inv_l in Hos as (o1 & o2' & H1 & H2 & ->).
  inversion H2 as [|? o ? o2 Ho H2']; subst; clear H2. simpl in Ho.
  destruct (rel_step cfg ac (served q) ts (concat (map opt_list o1) ++ concat (map opt_list o2) ++ dn) p p' o s s') as
    (ts' & o' & extra & Hs & Hk & Hi & Hv' & Hr & Hp'); [done| |done|done|done|].
  { rewrite Hp, map_app, concat_app. simpl. solve_Permutation. }
  exists ts'. split; [done|]. split; [done|]. exists (o1 ++ o' :: o2), (dn ++ extra). split.
  - apply Forall2_app; [by eapply rels_keep|]. constructor; [done|by eapply rels_keep].
  - rewrite Hp', map_app, concat_app. simpl. solve_Permutation.
Qed.

Lemma front_simulates start cache fts s :
  freachable cfg ac start cache (fts, s) → ∃ ts, reachable cfg (nativeOn ac) start (ts, s.1) ∧ linked fts s ts.
Proof.
  intros H. remember (fts, s) as fp eqn:E. revert fts s E.
  apply (rtc_ind_r (λ fp, ∀ fts s, fp = (fts, s) → ∃ ts, reachable cfg (nativeOn ac) start (ts, s.1) ∧ linked fts s ts) _) with (3 := H).
  - intros fts s [= <- <-]. exists []. split; [apply rtc_refl|]. split; [constructor|]. by exists [], [].
  - intros [f1 s1] fp' _ Hstep IH fts s ->. destruct (IH f1 s1 eq_refl) as (ts & Hr & Hl).
    inversion Hstep as [ts0 w r Ha|ts1 ts2 w r w0 B f k b w' Hf Hb]; subst.
    + destruct (linked_arrive _ _ _ _ Ha Hl) as (ts' & Hs & Hl'). exists ts'. split; [unfold reachable in *; by etransitivity|done].
    + destruct (linked_step _ _ _ _ _ (k b) _ s _ Hl) as (ts' & Hs & Hl'); [simpl; by rewrite Hf|done|]. exists ts'.
      split; [unfold reachable in *; by etransitivity|done].
Qed.

(** A finished call, its trace answered in the pool. *)
Lemma linked_served fts s ts q s0 x :
  linked fts s ts → mkThread FReq FAns q s0 (Ret x) ∈ fts →
  ∃ kn tr, kn ⊆ l_ids s.2 ∧ done_in ts tr ∧ served q kn tr x.
Proof.
  intros (_ & os & dn & Hos & _) Hin. apply list_elem_of_lookup in Hin as [i Hi].
  destruct (Forall2_lookup_l _ _ _ _ _ Hos Hi) as (o & _ & Hr). simpl in Hr. inversion Hr; subst; eauto.
Qed.

Lemma served_mono q kn kn' tr x : kn ⊆ kn' → served q kn tr x → served q kn' tr x.
Proof.
  intros Hk. destruct q, x; simpl; try done.
  - intros [Hr|g e y Hr|g e id tr' y Hr Hi Ha|g e id r a Hr Hi Hc Hs]; [by apply served_noroute|by eapply served_aborted|..].
    + eapply served_alone; [done| |done]. intros H. by apply Hk, Hi.
    + eapply served_call; [done| |done|done]. intros H. by apply Hk, Hi.
  - intros [-> H]. split; [done|]. intros id E. by apply Hk, H.
  - intros [H1 H2]. split; [by apply Hk|done].
Qed.


(** ** Who a request acts for *)

Lemma calls_requester nd e id h r u : calls nd e id h r → requester r = Some u → u = Id_UserId id ∧ anonymous e = false.
Proof. intros Hc Hu. destruct e; simpl in Hc; naive_solver. Qed.

Lemma frame_calls_requester nd c q r u : frame_calls nd c q r → requester r = Some u → u = Id_UserId (ws_Identity c).
Proof. unfold frame_calls. naive_solver. Qed.

(** A call of a client. *)
Definition client (q : FReq) : Prop := match q with FBack _ => False | _ => True end.

Lemma served_requester q kn tr x r a u :
  client q → served q kn tr x → (r, a) ∈ tr → requester r = Some u → ∃ id, id ∈ kn ∧ Id_UserId id = u.
Proof.
  intros Hq Hs Hin Hu. destruct q as [nd h|nd cl h|nd c w|], x; try done; simpl in Hs.
  - destruct Hs as [Hr|g e y Hr|g e id tr' y Hr Hi Ha|g e id r' a' Hr Hi Hc Hs]; try (by apply not_elem_of_nil in Hin).
    + destruct Ha as [| | | |tr' y [->|(n & b & ->)]]; try (by apply not_elem_of_nil in Hin). apply list_elem_of_singleton in Hin as [= -> ->]. done.
    + apply list_elem_of_singleton in Hin as [= -> ->]. destruct (calls_requester _ _ _ _ _ _ Hc Hu) as [-> Ha]. exists id. split; [|done].
      apply Hi. destruct (identifies g) eqn:Eg; [done|]. by rewrite (route_anonymous _ _ _ Hr Eg) in Ha.
  - destruct Hs as [-> _]. by apply not_elem_of_nil in Hin.
  - destruct Hs as (Hk & [(-> & _)|(r' & a' & -> & Hc & _)]); [by apply not_elem_of_nil in Hin|].
    apply list_elem_of_singleton in Hin as [= -> ->]. rewrite (frame_calls_requester _ _ _ _ _ Hc Hu). eauto.
Qed.


(** ** Errors *)

(** The response reports [e]: its code and message, the status of the code, no data; the status tells clients and load balancers a
    system failure from a business one. *)
Definition reports (e : error) (st : Z) (b : WebResponse) : Prop :=
  (∃ cause, From_err (Some e) = Some (w_Code b, w_Message b, cause)) ∧ st = HttpStatus (w_Code b) ∧ w_Data b = DEmpty ∧
  (500 ≤ st ↔ IsSystem (Some e) = true).

Lemma HttpStatus_system c : 500 ≤ HttpStatus c ↔ IsSystem_code c = true.
Proof.
  unfold HttpStatus.
  destruct (Z.eqb_spec c 10002) as [->|]; [by vm_compute|]. destruct (Z.eqb_spec c 10101) as [->|]; [by vm_compute|].
  destruct (Z.eqb_spec c 10102) as [->|]; [by vm_compute|]. destruct (Z.eqb_spec c 10103) as [->|]; [by vm_compute|].
  destruct (Z.eqb_spec c 10003) as [->|]; [by vm_compute|]. destruct (Z.eqb_spec c 10006) as [->|]; [by vm_compute|].
  destruct (Z.eqb_spec c 20101) as [->|]; [by vm_compute|]. destruct (Z.eqb_spec c 10005) as [->|]; [by vm_compute|].
  destruct (Z.eqb_spec c 20004) as [->|]; [by vm_compute|]. simpl. destruct (IsSystem_code c); lia.
Qed.

Lemma Fail_reports e st b : Fail e = JSON st b → reports e st b.
Proof.
  unfold Fail, FailStatus, code_of, reports, IsSystem. destruct (From_err (Some e)) as [[[c m] cause]|] eqn:E.
  - intros [= <- <-]. simpl. split_and!; [by exists cause|done|done|]. apply HttpStatus_system.
  - simpl in E. by destruct (AsType e).
Qed.


(** ** Sending over HTTP *)

Lemma render_ack r k : render r = OK (Some (DAck k)) → r = Ok (DAck k).
Proof.
  destruct r as [d|e]; [by intros [= ->]|]. unfold render, Fail, FailStatus. destruct (From_err (Some e)) as [[[c m] cause]|]; done.
Qed.

Lemma outcome_ack r a k : shape r a → outcome a = Ok (DAck k) → a = ASend (Ok k).
Proof. destruct a as [[]|[]|[]|[]|[]|[]|[]|[]|[]|[]|[]|[]|[]|[]|[]|[]|]; simpl; try done. by intros _ [= ->]. Qed.

(** Sending over HTTP. When a call of the send route is answered with an acknowledgement, the body decoded to a send request, an
    identity was accepted for the call, and the message it names is in the history: committed in the conversation of that request, with the
    identity's user as its sender. *)
Lemma http_send_committed start cache fts s nd h s0 g k :
  freachable cfg ac start cache (fts, s) → route ac h = Some (g, ESend) →
  mkThread FReq FAns (FHttp nd h) s0 (Ret (XHttp (OK (Some (DAck k))))) ∈ fts →
  ∃ id q, id ∈ l_ids s.2 ∧ Valid (Id_UserId id) = true ∧ bindSend (q_Body h) = Ok q ∧
    let internal := (Id_Source id =? SourceInternal)%string in
    acked (w_db s.1) (mkSendInput (Id_UserId id) "" (SR_ClientMsgId q) (SR_SessionType q) (SR_RecvId q) (SR_GroupId q) (SR_ContentType q)
      (SR_Content q) (SenderReadFor q internal) internal) k.
Proof.
  intros H Hroute Hin. destruct (front_simulates _ _ _ _ H) as (ts & Hr & Hl). pose proof Hl as [Hv _].
  destruct (linked_served _ _ _ _ _ _ Hl Hin) as (kn & tr & Hk & Hd & Hs). simpl in Hs. remember (OK (Some (DAck k))) as x eqn:Ex.
  assert (∀ y, Fail y ≠ OK (Some (DAck k))) as HF.
  { intros y E. by apply (render_ack (Err y)) in E. }
  destruct Hs as [Hn|g' e' y Hg|g' e' id tr y Hg Hi Ha|g' e' id r a Hg Hi Hc Hsh]; [done|by destruct (HF y)|..];
    rewrite Hroute in Hg; injection Hg as <- <-.
  - inversion Ha; subst. exfalso. by eapply HF.
  - apply render_ack, (outcome_ack _ _ _ Hsh) in Ex as ->. destruct Hc as (q & Hq & ->).
    assert (identifies g = true) as Hg by (destruct (identifies g) eqn:Eg; [done|by apply (route_anonymous _ _ _ Hroute) in Eg]).
    exists id, q. unfold all_valid in Hv. rewrite Forall_forall in Hv. split_and!; [by apply Hk, Hi|by apply Hv, Hk, Hi|done|].
    apply Forall_inv in Hd as [ws Hws]. destruct (system_safe _ _ _ _ _ Hr) as [_ Hpost]. by destruct (Hpost _ _ _ Hws) as [_ Hp].
Qed.
End FrontThms.
