(* ===== verification/FrontScenario.v ===== *)
(** * Concrete runs of the transports

    Calls played one after the other over the instances of [Scenario], [AuthThms] and [PresenceThms], and the witnesses of the theorems
    about the transports. *)

From S2P Require Import Prelude.
From S2P Require Import NexoConfig.
From S2P Require Import Presence PresenceThms.
From S2P Require Import Errcode Strconv Identity Json Store PgStore Conv DbInv Conc RateLimit World ConvPage MessageSvc GroupSvc ConversationSvc UserSvc WorldInv MessageInv Cache Sha256 Auth AuthThms System Scenario Http Api Frames Front FrontThms.

Local Open Scope Z_scope.

#[local] Existing Instance countingLib.
#[local] Existing Instance demoEnv.
#[local] Existing Instance demoBcrypt.
#[local] Existing Instance demoJwt.
#[local] Existing Instance tokens.
#[local] Existing Instance in_order.

(** A decoder that knows two bodies. *)
#[local] Instance demoBinder : Binder := {|
  bindSend := λ b, if (b =? "hello")%string then Ok (mkSendRequest "c1" ConversationSingle "u___7" "" 1 "{}" None) else Err (EOther "json");
  bindRead := λ _, Err (EOther "json"); bindOpt := λ _, Err (EOther "json"); bindCreate := λ _, Err (EOther "json");
  bindGroupReq := λ _, Err (EOther "json"); bindRegister := λ _, Err (EOther "json"); bindLogin := λ _, Err (EOther "json");
  bindUpdate := λ _, Err (EOther "json");
  bindUpsert := λ b, if (b =? "seven")%string then Ok (mkUpsertReq "u___7" "Seven" "" "") else Err (EOther "json") |}.

Definition chat : string := Single "u___42" "u___7".

#[local] Instance demoCodec : FrameCodec := {|
  unmarshalRequest := λ _, (mkWsRequest 0 "" "" "", Some (EOther "json")); unmarshalSub := λ _, Err (EOther "json");
  unmarshalMaxSeqs := λ _, Err (EOther "json"); unmarshalPull := λ _, Ok (mkPullIn chat 1 10 10); unmarshalSend := λ _, Err (EOther "json");
  unmarshalRead := λ _, Err (EOther "json"); unmarshalGet := λ _, Err (EOther "json") |}.

Definition demoApi : ApiConfig := mkApiConfig (mkAuthConfig ["external_jwt"; "native"] false 1 (mkExternalJwt ["new"] RoleUser) (mkNativeAuth "secret" 24)) (Some int1) false [] 10 100 100 100.

Abbreviation DFront := (@Front countingLib (gmap string lentry) tokens).
Abbreviation fthread := (@thread DFront FReq FAns).

(** ** Playing calls in sequence *)

Fixpoint frun_within {A} (p : prog DFront A) (s : DFront) : bool :=
  match p with
  | Ret _ => true
  | Act f k => let '(b, s') := f s in within s'.1 && frun_within (k b) s'
  end.

Definition fhdl (q : FReq) : prog DFront FAns := fhandle demoCfg demoApi q.

Definition genuineb (token : string) : bool :=
  match decode (A := string * claims_tuple) (s2p token) with
  | Some (s, t) => negb (s =? "secret")%string || Valid (NC_Subject (of_tuple t))
  | None => true
  end.

Definition farrivesb (q : FReq) (s : DFront) : bool :=
  match q with
  | FHttp _ h => genuineb (bearer h)
  | FOpen _ _ h => genuineb (handshakeToken h)
  | FFrame _ c _ => existsb (λ id, (Id_UserId id =? Id_UserId (ws_Identity c))%string && (Id_Role id =? Id_Role (ws_Identity c))%string &&
        (Id_PlatformId id =? Id_PlatformId (ws_Identity c)) && (Id_TokenId id =? Id_TokenId (ws_Identity c))%string &&
        (Id_ExpiresAt id =? Id_ExpiresAt (ws_Identity c)) && (Id_Source id =? Id_Source (ws_Identity c))%string) (l_ids s.2)
  | FBack _ => false
  end.

Lemma genuineb_ok token : genuineb token = true → genuine demoApi token.
Proof.
  unfold genuineb, genuine. simpl. unfold demoParse. intros H now cl. destruct (decode _) as [[s t]|]; [|done].
  destruct (s =? "secret")%string; [|done]. simpl in H. destruct (NC_ExpiresAt (of_tuple t)) as [e|]; [destruct (now <? e)|]; by intros [= <-].
Qed.

Lemma farrivesb_ok q s : farrivesb q s = true → farrives demoApi q s.
Proof.
  destruct q as [nd h|nd cl h|nd c r|r]; simpl; [apply genuineb_ok|apply genuineb_ok| |done].
  rewrite existsb_exists. intros (id & Hin & H). bool_prop. apply list_elem_of_In in Hin. destruct id as [a1 a2 a3 a4 a5 a6], (ws_Identity c) as [b1 b2 b3 b4 b5 b6].
  simpl in *. by subst.
Qed.

Fixpoint fthreads (qs : list FReq) (s : DFront) : list fthread :=
  match qs with
  | [] => []
  | q :: qs => let '(x, s') := run (fhdl q) s in mkThread _ _ q s (Ret x) :: fthreads qs s'
  end.

Fixpoint fplay (qs : list FReq) (s : DFront) : DFront := match qs with [] => s | q :: qs => fplay qs (run (fhdl q) s).2 end.

Fixpoint fplayable (qs : list FReq) (s : DFront) : bool :=
  match qs with [] => true | q :: qs => farrivesb q s && frun_within (fhdl q) s && fplayable qs (run (fhdl q) s).2 end.

Abbreviation FStep := (pool_step (λ s : DFront, bnd s.1) (fhandle demoCfg demoApi) (farrives demoApi)).

Lemma frun_reachable ts q s0 (p : prog DFront FAns) s :
  frun_within p s = true → rtc FStep (ts ++ [mkThread _ _ q s0 p], s) (ts ++ [mkThread _ _ q s0 (Ret (run p s).1)], (run p s).2).
Proof.
  revert s. induction p as [x|B f k IH]; intros s; simpl; [reflexivity|].
  destruct (f s) as [b s'] eqn:Ef. intros [Hw Hk]%andb_true_iff. eapply rtc_l; [|by apply IH].
  apply (step_act _ (fhandle demoCfg demoApi) (farrives demoApi) ts [] s q s0 B f k b s' Ef). unfold within in Hw. unfold bnd, db_bnd. lia.
Qed.

Lemma fplay_steps qs ts s : fplayable qs s = true → rtc FStep (ts, s) (ts ++ fthreads qs s, fplay qs s).
Proof.
  revert ts s. induction qs as [|q qs IH]; intros ts s; simpl; [by rewrite app_nil_r|].
  intros [[Ha Hw]%andb_true_iff Hp]%andb_true_iff.
  pose proof (frun_reachable ts q s (fhdl q) s Hw) as Hrun. destruct (run (fhdl q) s) as [x s'] eqn:Er. simpl in *.
  change (mkThread _ _ q s (Ret x) :: fthreads qs s') with ([mkThread FReq FAns q s (Ret x)] ++ fthreads qs s').
  rewrite app_assoc. eapply rtc_l; [apply (step_arrive _ (fhandle demoCfg demoApi) (farrives demoApi) ts s q); by apply farrivesb_ok|].
  etransitivity; [exact Hrun|]. by apply IH.
Qed.

Lemma fplay_reachable qs : fplayable qs (initFront demoCfg demoApi start ∅) = true →
  freachable demoCfg demoApi start ∅ (fthreads qs (initFront demoCfg demoApi start ∅), fplay qs (initFront demoCfg demoApi start ∅)).
Proof. exact (fplay_steps qs [] _). Qed.

Lemma fthreads_lookup qs s k q :
  qs !! k = Some q → mkThread FReq FAns q (fplay (take k qs) s) (Ret (run (fhdl q) (fplay (take k qs) s)).1) ∈ fthreads qs s.
Proof.
  revert s k. induction qs as [|q' qs IH]; intros s k; [done|]. simpl. destruct (run (fhdl q') s) as [x s'] eqn:E.
  destruct k as [|k]; simpl; intros Hk.
  - injection Hk as ->. rewrite E. by left.
  - right. rewrite E. by apply IH.
Qed.

(** ** A history

    The billing service creates user 7 over the internal API; user 42 sends to it over HTTP with a platform token, is refused without one,
    opens a connection and pulls over it. *)

Definition hdr (l : list (string * string)) (k : string) : string :=
  match List.find (λ p : string * string, (p.1 =? k)%string) l with Some (_, v) => v | None => "" end.

Definition upsertHeaders : list (string * string) := [("X-Service-Name", "billing"); ("X-Timestamp", "0"); ("X-Nonce", "0123456789abcdef")].

Definition upsertWith (headers : list (string * string)) : HttpReq :=
  mkHttpReq "POST" "/api/v1/internal/user/upsert" "/api/v1/internal/user/upsert" (hdr headers) (λ _, "") "seven" "10.0.0.1" false None.

Definition upsertCall : HttpReq := upsertWith (("X-Signature"%string, Sign "k1" (request (upsertWith upsertHeaders))) :: upsertHeaders).

Definition me42 : string := "Bearer " +:+ etoken.

Definition sendCall : HttpReq :=
  mkHttpReq "POST" "/api/v1/message/send" "/api/v1/message/send" (hdr [("Authorization", me42); ("X-Platform-Id", "3")]) (λ _, "") "hello" "10.0.0.9" false None.

Definition barePull : HttpReq := mkHttpReq "GET" "/api/v1/message/pull" "/api/v1/message/pull" (λ _, "") (λ _, "") "" "10.0.0.9" false None.

Definition openCall : HttpReq := mkHttpReq "GET" "/ws" "/ws" (λ _, "") (hdr [("platform_id", "5"); ("token", etoken)]) "" "10.0.0.9" false None.

Definition conn42 : WsClient := mkWsClient 1 "conn1" (mkIdentity "u___42" RoleUser 5 (tokenDigest etoken) 500000 SourceExternal).

Definition session42 : list FReq :=
  [ FHttp "n2" upsertCall; FHttp "n1" sendCall; FHttp "n1" barePull; FOpen "n1" false openCall; FFrame "n1" conn42 (mkWsRequest ReqPullMsgBySeqRange "op7" "" "{}") ].

Definition f0 : DFront := initFront demoCfg demoApi start ∅.

Definition at_call (k : nat) : DFront := fplay (take k session42) f0.

Lemma session42_reachable : freachable demoCfg demoApi start ∅ (fthreads session42 f0, fplay session42 f0).
Proof. apply (fplay_reachable session42). vm_compute. reflexivity. Qed.

Lemma session42_answered k q x :
  session42 !! k = Some q → (run (fhdl q) (at_call k)).1 = x → mkThread FReq FAns q (at_call k) (Ret x) ∈ fthreads session42 f0.
Proof. intros Hk <-. by apply fthreads_lookup. Qed.

Definition ack42 : Ack := mkAck "v8" chat 1 5000.

Definition end42 : DFront := fplay session42 f0.




(** The message sent over HTTP is in the history. *)
Lemma http_send_committed_witness : Ack_Seq ack42 = 1 ∧ ∃ i, acked (w_db end42.1) i ack42.
Proof.
  split; [vm_compute; reflexivity|].
  assert (mkThread FReq FAns (FHttp "n1" sendCall) (at_call 1) (Ret (XHttp (OK (Some (DAck ack42))))) ∈ fthreads session42 f0)
    as Hin by (apply (session42_answered 1); [reflexivity|vm_compute; reflexivity]).
  destruct (http_send_committed demoCfg demoApi start ∅ _ _ "n1" sendCall _ GBearer ack42 session42_reachable eq_refl Hin) as (id & q & _ & _ & _ & H).
  exact (ex_intro (λ i, acked (w_db end42.1) i ack42) _ H).
Defined.
