(* ===== verification/SdkClient.v ===== *)
(** * The Go SDK ([sdk/])

    The HTTP client of a node. A method of the client is a [Call]: method, path, query and body; [prepare] makes the request that
    goes on the wire, signed for the internal routes; [finish] turns the answer into a value or an error. The network, the clock and
    the random nonce are arguments, [encoding/json] and [net/url] class parameters. *)

From S2P Require Import Prelude Errcode Strconv Store PgStore Conc RateLimit World Sha256 Auth.

Local Open Scope Z_scope.

(** ** Queries ([net/url]) *)

Abbreviation Values := (gmap string (list string)).

Definition Values_Get (q : Values) (k : string) : string := match q !! k with Some (v :: _) => v | _ => "" end.

Definition unreserved (c : ascii) : bool :=
  let b := byte_Z c in
  ((48 <=? b) && (b <=? 57)) || ((65 <=? b) && (b <=? 90)) || ((97 <=? b) && (b <=? 122)) || (b =? 45) || (b =? 95) || (b =? 46) || (b =? 126).

Definition upperhex (d : Z) : ascii := if d <? 10 then Z_byte (48 + d) else Z_byte (55 + d).

Definition QueryEscape (s : string) : string :=
  of_list (flat_map (λ c, if unreserved c then [c]
                          else if byte_Z c =? 32 then ["+"%char]
                          else ["%"%char; upperhex (byte_Z c / 16); upperhex (byte_Z c mod 16)]) (to_list s)).

Definition string_le (a b : string) : Prop := String.leb a b = true.
#[local] Instance string_le_dec : RelDecision string_le := λ a b, decide (String.leb a b = true).

Fixpoint join_amp (l : list string) : string :=
  match l with [] => "" | [x] => x | x :: rest => x +:+ "&" +:+ join_amp rest end.

(** [Values.Encode]: the keys in order. *)
Definition Encode (q : Values) : string :=
  join_amp (flat_map (λ k, map (λ v, QueryEscape k +:+ "=" +:+ QueryEscape v) (default [] (q !! k))) (merge_sort string_le (map fst (map_to_list q)))).

Module Sdk.

(** ** Wire types ([sdk/types.go]) *)

Record RegisterRequest := mkRegister { Rr_Username : string; Rr_Password : string; Rr_Nickname : string }.
Record LoginRequest := mkLogin { Lr_Username : string; Lr_Password : string; Lr_PlatformId : Z }.
Record ProfileUpdate := mkProfileUpdate { Pu_Nickname : option string; Pu_Avatar : option string; Pu_Extra : option string }.
Record UpsertUserRequest := mkUpsertUser { Ur_Id : string; Ur_Nickname : string; Ur_Avatar : string; Ur_Extra : string }.
Record CreateGroupRequest := mkCreateGroup {
  Cg_Name : string; Cg_Avatar : string; Cg_Introduction : string; Cg_Extra : string; Cg_MemberIds : list string }.
Record SendMessageRequest := mkSendMessage {
  Sm_ClientMsgId : string; Sm_SessionType : Z; Sm_RecvId : string; Sm_GroupId : string; Sm_ContentType : Z; Sm_Content : string; Sm_SenderRead : option bool }.
Record PullRequest := mkPull { Pr_ConversationId : string; Pr_BeginSeq : Z; Pr_EndSeq : Z; Pr_Limit : Z }.
Record GetConversationRequest := mkGetConversation {
  Gc_ConversationId : string; Gc_PeerUserId : string; Gc_GroupId : string; Gc_WithLastMessage : bool }.
Record ListConversationsRequest := mkListConversations { Lc_Cursor : string; Lc_Limit : Z; Lc_WithLastMessage : bool }.
Record ConversationOpt := mkConversationOpt { Co_RecvMsgOpt : option Z; Co_IsPinned : option bool }.
Record groupRequest := mkGroupRequest { Gq_GroupId : string; Gq_UserId : string }.
Record Session := mkSession { Ss_UserId : string; Ss_Token : string; Ss_ExpiresAt : Z }.

Definition SessionTypeSingle : Z := 1.
Definition SessionTypeGroup : Z := 2.
Definition ContentTypeText : Z := 1.

(** What is encoded as the body of a request. *)
Inductive Body :=
| BRegister (r : RegisterRequest) | BLogin (r : LoginRequest) | BUpdate (r : ProfileUpdate) | BUpsert (r : UpsertUserRequest)
| BCreate (r : CreateGroupRequest) | BGroup (r : groupRequest) | BSend (r : SendMessageRequest)
| BRead (conversationId : string) (readSeq : Z) | BOpt (conversationId : string) (r : ConversationOpt).

(** [Data] is the raw value, empty when the key is missing. *)
Record envelope := mkEnvelope { Ev_Code : option Z; Ev_Message : string; Ev_Data : string }.

(** [encoding/json], and [http.NewRequest] with the parsed URL's [EscapedPath] and [RawQuery]. *)
Class SdkLib := {
  Marshal : Body → result string;
  MarshalText : string → string;
  UnmarshalEnvelope : string → option envelope;
  NewRequest : string → result (string * string) }.

(** ** Errors ([sdk/errors.go]) *)

Record Error := mkError { Er_Code : Z; Er_Message : string; Er_HttpStatus : Z }.

(** Any other error is [SOther]. *)
Inductive SdkErr := SError (e : Error) | SOther (what : string) (e : err).

Definition IsBusiness (e : Error) : bool := (10000 <=? Er_Code e) && (Er_Code e <? 20000).
Definition IsSystem (e : Error) : bool := (20000 <=? Er_Code e) && (Er_Code e <? 30000).
Definition IsAuth (e : Error) : bool := (Er_HttpStatus e =? 401) || (Er_HttpStatus e =? 403).
Definition CodeOf (e : SdkErr) : Z := match e with SError e => Er_Code e | SOther _ _ => -1 end.

(** ** The client ([sdk/client.go]) *)

Definition apiPrefix : string := "/api/v1".
Definition maxResponseBytes : Z := Z.shiftl 8 20.

Record internalAuth := mkInternalAuth { Ia_service : string; Ia_secret : string }.
Record Client := mkClient { baseUrl : string; token : string; platformId : Z; internal : option internalAuth }.

Definition SetToken (t : string) (c : Client) : Client := mkClient (baseUrl c) t (platformId c) (internal c).

Inductive Option := WithToken (t : string) | WithPlatformId (id : Z) | WithInternalAuth (service secret : string).

Definition apply_option (c : Client) (o : Option) : Client :=
  match o with
  | WithToken t => SetToken t c
  | WithPlatformId id => mkClient (baseUrl c) (token c) id (internal c)
  | WithInternalAuth service secret => mkClient (baseUrl c) (token c) (platformId c) (Some (mkInternalAuth service secret))
  end.

(** [strings.TrimRight(s, "/")]. *)
Fixpoint trimSlashes (l : list ascii) : list ascii :=
  match l with "/"%char :: l' => trimSlashes l' | _ => l end.

Definition New (url : string) (opts : list Option) : Client :=
  fold_left apply_option opts (mkClient (of_list (reverse (trimSlashes (reverse (to_list url))))) "" 0 None).

Inductive RequestOption := AsUser (userId : string) | PlatformId (id : Z).
Record request := mkRequest { Rq_userId : string; Rq_platformId : Z }.

Definition apply_request (r : request) (o : RequestOption) : request :=
  match o with
  | AsUser u => mkRequest u (Rq_platformId r)
  | PlatformId id => mkRequest (Rq_userId r) id
  end.

(** ** The methods of the client *)

Record Call := mkCall { C_Method : string; C_Path : string; C_Query : Values; C_Body : option Body; C_Internal : bool; C_Opts : list RequestOption }.

Definition get (path : string) (q : Values) : Call := mkCall "GET" path q None false [].
Definition post (path : string) (b : option Body) : Call := mkCall "POST" path ∅ b false [].
Definition put (path : string) (b : option Body) : Call := mkCall "PUT" path ∅ b false [].
Definition internalGet (path : string) (q : Values) (opts : list RequestOption) : Call := mkCall "GET" path q None true opts.
Definition internalPost (path : string) (b : option Body) (opts : list RequestOption) : Call := mkCall "POST" path ∅ b true opts.

(** [q.Set(k, v)], where the source tests for a value. *)
Definition set_if (b : bool) (k v : string) (q : Values) : Values := if b then <[k := [v]]> q else q.

(** Where the answer goes: nowhere, or into a decoder. *)
Inductive Out (A : Type) := NoOut (a : A) | Into (dec : string → result A).
Arguments NoOut {_}.
Arguments Into {_}.

(** Headers under their canonical names. *)
Abbreviation Header := (gmap string string).

Section Methods.
Context `{SL : SdkLib}.

Definition SendMessage (req : SendMessageRequest) : Call := post "/message/send" (Some (BSend req)).

Definition textContent (text : string) : string := MarshalText text.

Definition SendText (clientMsgId recvId text : string) : Call :=
  SendMessage (mkSendMessage clientMsgId SessionTypeSingle recvId "" ContentTypeText (textContent text) None).

Definition SendGroupText (clientMsgId groupId text : string) : Call :=
  SendMessage (mkSendMessage clientMsgId SessionTypeGroup "" groupId ContentTypeText (textContent text) None).

Definition Pull (req : PullRequest) : Call :=
  get "/message/pull" (set_if (0 <? Pr_Limit req) "limit" (FormatInt (Pr_Limit req))
    {["conversation_id" := [Pr_ConversationId req]; "begin_seq" := [FormatInt (Pr_BeginSeq req)]; "end_seq" := [FormatInt (Pr_EndSeq req)]]}).

Definition MaxSeqs (cursor : string) (limit : Z) : Call :=
  get "/message/max_seqs" (set_if (0 <? limit) "limit" (FormatInt limit) (set_if (negb (cursor =? "")%string) "cursor" cursor ∅)).

Definition InternalSendMessage (req : SendMessageRequest) (opts : list RequestOption) : Call := internalPost "/internal/message/send" (Some (BSend req)) opts.

Definition CreateGroup (req : CreateGroupRequest) : Call := post "/group/create" (Some (BCreate req)).
Definition JoinGroup (groupId : string) : Call := post "/group/join" (Some (BGroup (mkGroupRequest groupId ""))).
Definition QuitGroup (groupId : string) : Call := post "/group/quit" (Some (BGroup (mkGroupRequest groupId ""))).
Definition KickGroupMember (groupId userId : string) : Call := post "/group/kick" (Some (BGroup (mkGroupRequest groupId userId))).
Definition Group (groupId : string) : Call := get "/group/info" {["group_id" := [groupId]]}.
Definition GroupMembers (groupId : string) : Call := get "/group/members" {["group_id" := [groupId]]}.

Definition InternalCreateGroup (req : CreateGroupRequest) (opts : list RequestOption) : Call := internalPost "/internal/group/create" (Some (BCreate req)) opts.
Definition InternalJoinGroup (groupId : string) (opts : list RequestOption) : Call :=
  internalPost "/internal/group/join" (Some (BGroup (mkGroupRequest groupId ""))) opts.
Definition InternalQuitGroup (groupId : string) (opts : list RequestOption) : Call :=
  internalPost "/internal/group/quit" (Some (BGroup (mkGroupRequest groupId ""))) opts.
Definition InternalKickGroupMember (groupId userId : string) (opts : list RequestOption) : Call :=
  internalPost "/internal/group/kick" (Some (BGroup (mkGroupRequest groupId userId))) opts.

Definition Register (req : RegisterRequest) : Call := post "/auth/register" (Some (BRegister req)).
Definition login_call (req : LoginRequest) : Call := post "/auth/login" (Some (BLogin req)).
Definition logout_call : Call := post "/auth/logout" None.
Definition Me : Call := get "/user/me" ∅.
Definition UpdateMe (upd : ProfileUpdate) : Call := put "/user/me" (Some (BUpdate upd)).

(** [strings.Join(ids, ",")]. *)
Fixpoint join_comma (l : list string) : string :=
  match l with [] => "" | [x] => x | x :: rest => x +:+ "," +:+ join_comma rest end.

Definition idsQuery (userIds : list string) : Values := {["user_ids" := [join_comma userIds]]}.
Definition Users (userIds : list string) : Call := get "/user/info" (idsQuery userIds).
Definition OnlineStatus (userIds : list string) : Call := get "/user/online_status" (idsQuery userIds).
Definition InternalHealth : Call := internalGet "/internal/health" ∅ [].
Definition InternalUpsertUser (req : UpsertUserRequest) : Call := internalPost "/internal/user/upsert" (Some (BUpsert req)) [].
Definition InternalUsers (userIds : list string) : Call := internalGet "/internal/user/info" (idsQuery userIds) [].
Definition InternalOnlineStatus (userIds : list string) : Call := internalGet "/internal/user/online_status" (idsQuery userIds) [].

Definition listQuery (req : ListConversationsRequest) : Values :=
  set_if (Lc_WithLastMessage req) "with_last_message" "true"
    (set_if (0 <? Lc_Limit req) "limit" (FormatInt (Lc_Limit req)) (set_if (negb (Lc_Cursor req =? "")%string) "cursor" (Lc_Cursor req) ∅)).

Definition getQuery (req : GetConversationRequest) : Values :=
  let set k v := set_if (negb (v =? "")%string) k v in
  set_if (Gc_WithLastMessage req) "with_last_message" "true"
    (set "conversation_id" (Gc_ConversationId req) (set "peer_user_id" (Gc_PeerUserId req) (set "group_id" (Gc_GroupId req) ∅))).

Definition Conversations (req : ListConversationsRequest) : Call := get "/conversation/list" (listQuery req).
Definition Conversation (req : GetConversationRequest) : Call := get "/conversation/get" (getQuery req).
Definition MarkRead (conversationId : string) (readSeq : Z) : Call := post "/conversation/read" (Some (BRead conversationId readSeq)).
Definition SetConversationOpt (conversationId : string) (opt : ConversationOpt) : Call := put "/conversation/opt" (Some (BOpt conversationId opt)).
Definition InternalConversation (req : GetConversationRequest) (opts : list RequestOption) : Call := internalGet "/internal/conversation/get" (getQuery req) opts.
Definition InternalConversations (req : ListConversationsRequest) (opts : list RequestOption) : Call :=
  internalGet "/internal/conversation/list" (listQuery req) opts.

(** ** Requests *)

Definition Header_Get (h : Header) (k : string) : string := default "" (h !! k).

(** The request [http.Do] is given. *)
Record Wire := mkWire { W_Method : string; W_EscapedPath : string; W_RawQuery : string; W_Header : Header; W_Body : string }.

(** [newNonce] of 16 random bytes. *)
Definition newNonce (rand : list Z) : string := hexString rand.

(** [sign], at Unix second [unix] and with the bytes [rand] of [crypto/rand]. *)
Definition sign (ia : internalAuth) (unix : Z) (rand : list Z) (h : Header) (method rawPath rawQuery body : string) : Header :=
  let ts := FormatInt unix in
  let nonce := newNonce rand in
  let payload := join_lines [Ia_service ia; ts; nonce; method; rawPath; rawQuery; Header_Get h "X-User-Id"; Header_Get h "X-Platform-Id";
                             hexString (sha256 (bytes_of body))] in
  <["X-Signature" := hexString (hmac256 (bytes_of (Ia_secret ia)) (bytes_of payload))]>
    (<["X-Nonce" := nonce]> (<["X-Timestamp" := ts]> (<["X-Service-Name" := Ia_service ia]> h))).

(** [do] up to the exchange. *)
Definition prepare (c : Client) (k : Call) (unix : Z) (rand : list Z) : Wire + SdkErr :=
  let ro := fold_left apply_request (C_Opts k) (mkRequest "" 0) in
  if C_Internal k && match internal c with None => true | Some _ => false end then inr (SOther "internal route needs WithInternalAuth" None)
  else
    match (match C_Body k with Some b => Marshal b | None => Ok ""%string end) with
    | Err e => inr (SOther "encode" (Some e))
    | Ok payload =>
        let rawPath := apiPrefix +:+ C_Path k in
        let rawQuery := Encode (C_Query k) in
        let full := baseUrl c +:+ rawPath +:+ (if (rawQuery =? "")%string then "" else "?" +:+ rawQuery) in
        match NewRequest full with
        | Err e => inr (SOther "request" (Some e))
        | Ok (path, query) =>
            let h := match C_Body k with Some _ => {["Content-Type" := "application/json"]} | None => ∅ end in
            let platform := if Rq_platformId ro =? 0 then platformId c else Rq_platformId ro in
            let h := if 0 <? platform then <["X-Platform-Id" := FormatInt platform]> h else h in
            let h :=
              match (if C_Internal k then internal c else None) with
              | Some ia =>
                  let h := if (Rq_userId ro =? "")%string then h else <["X-User-Id" := Rq_userId ro]> h in
                  sign ia unix rand h (C_Method k) path query payload
              | None => if (token c =? "")%string then h else <["Authorization" := "Bearer " +:+ token c]> h
              end in
            inl (mkWire (C_Method k) path query h payload)
        end
    end.

(** ** Answers *)

(** [Kind() == 'n']. *)
Definition isNull (data : string) : bool := match to_list data with c :: _ => bool_decide (c = "n"%char) | [] => false end.

(** [do] after the exchange, on the status and the body that was read. *)
Definition finish {A} (status : Z) (body : result string) (out : Out A) : A + SdkErr :=
  match body with
  | Err e => inr (SOther "read" (Some e))
  | Ok raw =>
      if maxResponseBytes <? len raw then inr (SError (mkError 0 "response exceeds 8 MiB" status))
      else
        match UnmarshalEnvelope raw with
        | None => inr (SError (mkError 0 "invalid response envelope" status))
        | Some env =>
            match Ev_Code env with
            | Some code =>
                if negb (code =? 0) then inr (SError (mkError code (Ev_Message env) status))
                else if (status <? 200) || (300 <=? status) then
                  inr (SError (mkError 0 (if (Ev_Message env =? "")%string then "unexpected status " +:+ FormatInt status else Ev_Message env) status))
                else
                  match out with
                  | NoOut a => inl a
                  | Into dec =>
                      if (Ev_Data env =? "")%string || isNull (Ev_Data env) then inr (SError (mkError 0 "invalid envelope: missing or null data" status))
                      else match dec (Ev_Data env) with Ok a => inl a | Err e => inr (SOther "decode" (Some e)) end
                  end
            | None =>
                if (status <? 200) || (300 <=? status) then
                  inr (SError (mkError 0 (if (Ev_Message env =? "")%string then "unexpected status " +:+ FormatInt status else Ev_Message env) status))
                else inr (SError (mkError 0 "invalid envelope: missing or null code" status))
            end
        end
  end.

(** [do]; [exchange] is [http.Do] and the reading of the body. *)
Definition do {A} (c : Client) (k : Call) (out : Out A) (unix : Z) (rand : list Z) (exchange : Wire → result (Z * result string)) : A + SdkErr :=
  match prepare c k unix rand with
  | inr e => inr e
  | inl w =>
      match exchange w with
      | Err e => inr (SOther (W_Method w +:+ " " +:+ apiPrefix +:+ C_Path k) (Some e))
      | Ok (status, body) => finish status body out
      end
  end.

(** [Login] keeps the token, [Logout] forgets it once the node has. *)
Definition Login (req : LoginRequest) (dec : string → result Session) (unix : Z) (rand : list Z) (exchange : Wire → result (Z * result string))
    (c : Client) : (Session + SdkErr) * Client :=
  match do c (login_call req) (Into dec) unix rand exchange with
  | inl s => (inl s, SetToken (Ss_Token s) c)
  | inr e => (inr e, c)
  end.

Definition Logout (unix : Z) (rand : list Z) (exchange : Wire → result (Z * result string)) (c : Client) : (unit + SdkErr) * Client :=
  match do c logout_call (NoOut tt) unix rand exchange with
  | inl u => (inl u, SetToken "" c)
  | inr e => (inr e, c)
  end.
End Methods.
End Sdk.

Example encode_sorted :
  Encode {["limit" := ["20"]; "cursor" := ["a b/中"]; "begin_seq" := ["-1"]]}%string = "begin_seq=-1&cursor=a+b%2F%E4%B8%AD&limit=20"%string.
Proof. vm_compute. reflexivity. Qed.
