(* ===== verification/SdkThms.v ===== *)
(** * The SDK against the server

    What the client signs the middleware accepts, what it asks for the routes answer, and what it reports is what the node said. *)

From S2P Require Import Prelude.
From S2P Require Import NexoConfig.
From S2P Require Import Presence PresenceThms.
From S2P Require Import Errcode Strconv Identity Json Store PgStore Conv Conc RateLimit World ConvPage MessageSvc GroupSvc ConversationSvc UserSvc Cache Sha256 Auth System PresenceEvents Http Api Frames Front AuthThms Scenario FrontScenario SdkClient.

Local Open Scope Z_scope.

(** ** The wire *)

(** [textproto.TrimString], which [net/http] applies to the values of headers. *)
Definition isSpace (c : ascii) : bool := let b := byte_Z c in (b =? 32) || (b =? 9) || (b =? 10) || (b =? 13).

Fixpoint trimLeft (l : list ascii) : list ascii := match l with c :: l' => if isSpace c then trimLeft l' else l | [] => [] end.

Definition trimHeader (v : string) : string := of_list (reverse (trimLeft (reverse (trimLeft (to_list v))))).

(** [URL.RequestURI]. *)
Definition RequestURI (w : Sdk.Wire) : string :=
  (if (Sdk.W_EscapedPath w =? "")%string then "/" else Sdk.W_EscapedPath w) +:+
  (if (Sdk.W_RawQuery w =? "")%string then "" else "?" +:+ Sdk.W_RawQuery w).

(** The node decodes a body to the values that were encoded. *)
Definition decodes `{BI : Binder} (b : option Sdk.Body) (raw : string) : Prop :=
  match b with
  | None => True
  | Some (Sdk.BRegister r) => bindRegister raw = Ok (mkRegisterReq (Sdk.Rr_Username r) (Sdk.Rr_Password r) (Sdk.Rr_Nickname r))
  | Some (Sdk.BLogin r) => bindLogin raw = Ok (mkLoginReq (Sdk.Lr_Username r) (Sdk.Lr_Password r) (Sdk.Lr_PlatformId r))
  | Some (Sdk.BUpdate r) => bindUpdate raw = Ok (mkUpdate (Sdk.Pu_Nickname r) (Sdk.Pu_Avatar r) (Sdk.Pu_Extra r))
  | Some (Sdk.BUpsert r) => bindUpsert raw = Ok (mkUpsertReq (Sdk.Ur_Id r) (Sdk.Ur_Nickname r) (Sdk.Ur_Avatar r) (Sdk.Ur_Extra r))
  | Some (Sdk.BCreate r) =>
      bindCreate raw = Ok (mkCreateInput (Sdk.Cg_Name r) (Sdk.Cg_Avatar r) (Sdk.Cg_Introduction r) (Sdk.Cg_Extra r) (Sdk.Cg_MemberIds r))
  | Some (Sdk.BGroup r) => bindGroupReq raw = Ok (mkGroupReq (Sdk.Gq_GroupId r) (Sdk.Gq_UserId r))
  | Some (Sdk.BSend r) =>
      bindSend raw = Ok (mkSendRequest (Sdk.Sm_ClientMsgId r) (Sdk.Sm_SessionType r) (Sdk.Sm_RecvId r) (Sdk.Sm_GroupId r) (Sdk.Sm_ContentType r)
                           (Sdk.Sm_Content r) (Sdk.Sm_SenderRead r))
  | Some (Sdk.BRead c n) => bindRead raw = Ok (mkReadReq c n)
  | Some (Sdk.BOpt c r) => bindOpt raw = Ok (mkOptReq c (Sdk.Co_RecvMsgOpt r) (Sdk.Co_IsPinned r))
  end.

(** [h] is what the handlers see of a request [w] of the call [k], under the prefix the node is mounted at; proxies may add [X-Forwarded-Proto]. *)
Record delivered `{BI : Binder} (k : Sdk.Call) (w : Sdk.Wire) (h : HttpReq) : Prop := {
  dl_method : q_Method h = Sdk.W_Method w;
  dl_uri : q_RequestURI h = RequestURI w;
  dl_path : q_Path h = Sdk.apiPrefix +:+ Sdk.C_Path k;
  dl_header : ∀ key, key ≠ "X-Forwarded-Proto"%string → q_Header h key = trimHeader (Sdk.Header_Get (Sdk.W_Header w) key);
  dl_query : ∀ key, q_Query h key = Values_Get (Sdk.C_Query k) key;
  dl_body : q_Body h = Sdk.W_Body w;
  dl_decodes : decodes (Sdk.C_Body k) (Sdk.W_Body w) }.

Lemma trimLeft_id l : Forall (λ c, isSpace c = false) l → trimLeft l = l.
Proof. destruct 1 as [|c l Hc _]; simpl; [done|]. by rewrite Hc. Qed.

Lemma trimHeader_id v : Forall (λ c, isSpace c = false) (to_list v) → trimHeader v = v.
Proof.
  intros H. unfold trimHeader. rewrite (trimLeft_id _ H), trimLeft_id, reverse_involutive by (by apply Forall_reverse). apply of_to_list.
Qed.

Lemma Header_Get_insert (h : Sdk.Header) k v k' : Sdk.Header_Get (<[k := v]> h) k' = if (k =? k')%string then v else Sdk.Header_Get h k'.
Proof.
  unfold Sdk.Header_Get. destruct (String.eqb_spec k k') as [->|Hn]; [by rewrite lookup_insert_eq|by rewrite lookup_insert_ne].
Qed.

(** ** Values of headers *)

Definition bare (v : string) : Prop := Forall (λ c, isSpace c = false) (to_list v).

Lemma isSpace_byte z : 33 ≤ z < 256 → isSpace (Z_byte z) = false.
Proof. intros H. unfold isSpace. rewrite byte_Z_byte by lia. by repeat match goal with |- context [?a =? ?b] => destruct (Z.eqb_spec a b); [lia|] end. Qed.

Lemma hexString_bare l : Forall (λ b, 0 ≤ b < 256) l → bare (hexString l).
Proof.
  intros H. unfold bare, hexString. rewrite to_of_list. apply Forall_flat_map. eapply Forall_impl; [exact H|]. intros b Hb. simpl in Hb |- *.
  assert (∀ d, 0 ≤ d < 16 → isSpace (hexchar d) = false) as Hd by (intros d Hd; unfold hexchar; apply isSpace_byte; destruct (Z.ltb_spec d 10); lia).
  constructor; [apply Hd; split; [apply Z.div_pos; lia|apply Z.div_lt_upper_bound; lia]|].
  constructor; [apply Hd, Z.mod_pos_bound; lia|constructor].
Qed.

Lemma sha256_bytes l : Forall (λ b, 0 ≤ b < 256) (sha256 l).
Proof.
  unfold sha256. apply Forall_flat_map, Forall_forall. intros x _. unfold be_bytes. apply Forall_map, Forall_forall. intros i _. by apply Z.mod_pos_bound.
Qed.

Lemma hmac256_bare k l : bare (hexString (hmac256 k l)).
Proof. apply hexString_bare, sha256_bytes. Qed.

(** Digits, letters, dashes: no space, no comma. *)
Definition word (v : string) : Prop := Forall (λ c, 45 ≤ byte_Z c) (to_list v).

Lemma word_bare v : word v → bare v.
Proof.
  intros H. eapply Forall_impl; [exact H|]. intros c Hc. simpl in Hc |- *. unfold isSpace. by repeat match goal with |- context [?a =? ?b] => destruct (Z.eqb_spec a b); [lia|] end.
Qed.

Lemma word_no_comma v : word v → ContainsRune v ","%char = false.
Proof.
  unfold word. induction v as [|c v IH]; simpl; [done|]. intros [Hc Hv]%Forall_cons. rewrite (IH Hv), bool_decide_false; [done|]. intros ->. by vm_compute in Hc.
Qed.

Lemma word_app a b : word a → word b → word (a +:+ b).
Proof. unfold word. rewrite to_list_app. by apply Forall_app_2. Qed.

Lemma format_digits_word fuel : ∀ n acc, Forall (λ c, 45 ≤ byte_Z c) acc → Forall (λ c, 45 ≤ byte_Z c) (format_digits fuel n acc).
Proof.
  induction fuel as [|fuel IH]; intros n acc Ha; cbn [format_digits]; [done|].
  assert (45 ≤ byte_Z (digit_char (n mod 10))) as Hd by (pose proof (Z.mod_pos_bound n 10); unfold digit_char; rewrite byte_Z_byte; lia).
  destruct (n <? 10); [by constructor|]. apply IH. by constructor.
Qed.

Lemma FormatInt_word n : word (FormatInt n).
Proof. unfold word, FormatInt. destruct (n <? 0); rewrite to_of_list; [constructor; [done|]|]; by apply format_digits_word. Qed.

Lemma FormatInt_bare n : bare (FormatInt n).
Proof. apply word_bare, FormatInt_word. Qed.

Lemma uuid_word s : uuid_canonical s = true → word s.
Proof.
  unfold uuid_canonical. intros [Hl%Nat.eqb_eq Hf]%andb_true_iff. rewrite forallb_forall in Hf. apply Forall_lookup. intros i c Hc.
  assert (In (i, c) (combine (seq 0 36) (to_list s))) as Hin.
  { apply list_elem_of_In, list_elem_of_lookup. exists i. apply lookup_zip_with_Some. exists i, c. split_and!; [done| |done].
    apply lookup_seq. pose proof (lookup_lt_Some _ _ _ Hc). lia. }
  specialize (Hf _ Hin). simpl in Hf. destruct (bool_decide (i ∈ [8; 13; 18; 23]%nat)); [apply bool_decide_eq_true in Hf as ->; by vm_compute|].
  unfold lower_hex in Hf. bool_prop. lia.
Qed.

Lemma Valid_word id : Valid id = true → word id.
Proof.
  unfold Valid. destruct (Nat.leb_spec (String.length id) PrefixLength) as [|Hl]; [done|]. destruct (ContainsRune id ":"%char); [done|]. simpl. destruct (_ || _).
  - destruct (ParseActor id) as [a|] eqn:E; [|done]. intros _.
    apply ParseActor_inv in E as [_ [[_ ->]|[_ ->]]]; (apply word_app; [repeat constructor; by vm_compute|apply FormatInt_word]).
  - destruct (String.eqb_spec (slice_to id PrefixLength) PrefixNative) as [E|]; [|done]. intros Hu%uuid_word.
    rewrite <- (slice_split id PrefixLength) by lia. rewrite E. apply word_app; [repeat constructor; by vm_compute|done].
Qed.

Lemma length_hexString l : len (hexString l) = 2 * Z.of_nat (length l).
Proof. unfold hexString. rewrite len_of_list. induction l as [|b l IH]; simpl; lia. Qed.

Lemma append_nil_r s : s +:+ "" = s.
Proof. induction s as [|c s IH]; [done|]. exact (f_equal (String.String c) IH). Qed.

Lemma Cut_none s sep : ContainsRune s sep = false → Cut s sep = None.
Proof. induction s as [|c s IH]; simpl; [done|]. destruct (bool_decide (c = sep)); simpl; [done|]. intros H. by rewrite IH. Qed.

(** ** Signed requests *)

(** The user and the platform a call goes out with. *)
Definition as_user (k : Sdk.Call) : string := Sdk.Rq_userId (fold_left Sdk.apply_request (Sdk.C_Opts k) (Sdk.mkRequest "" 0)).

Definition as_platform (c : Sdk.Client) (k : Sdk.Call) : Z :=
  let p := Sdk.Rq_platformId (fold_left Sdk.apply_request (Sdk.C_Opts k) (Sdk.mkRequest "" 0)) in if p =? 0 then Sdk.platformId c else p.

(** The URL has a path, and its escaped form holds no question mark. *)
Definition url_ok (w : Sdk.Wire) : Prop := Sdk.W_EscapedPath w ≠ ""%string ∧ ContainsRune (Sdk.W_EscapedPath w) "?"%char = false.

Lemma RequestURI_cut w : url_ok w → cut_query (RequestURI w) = (Sdk.W_EscapedPath w, Sdk.W_RawQuery w).
Proof.
  intros [Hn Hq]. unfold cut_query, RequestURI. rewrite (proj2 (String.eqb_neq _ _) Hn).
  destruct (String.eqb_spec (Sdk.W_RawQuery w) "") as [->|Hr]; [rewrite append_nil_r, (Cut_none _ _ Hq); done|].
  change ("?" +:+ Sdk.W_RawQuery w) with (String.String "?" (Sdk.W_RawQuery w)). by rewrite Cut_app.
Qed.

Section Signed.
Context `{RL : RateLib} `{EN : Env} `{JW : Jwt} {C : Type} `{CC : Cache C} `{BI : Binder} `{SL : Sdk.SdkLib}.

(** The headers of a signed request. *)
Lemma signed_headers c k unix rand w ia :
  Sdk.prepare c k unix rand = inl w → Sdk.C_Internal k = true → Sdk.internal c = Some ia →
  ∃ h0, Sdk.W_Header w = Sdk.sign ia unix rand h0 (Sdk.C_Method k) (Sdk.W_EscapedPath w) (Sdk.W_RawQuery w) (Sdk.W_Body w) ∧
    Sdk.W_Method w = Sdk.C_Method k ∧
    Sdk.Header_Get h0 "X-User-Id" = as_user k ∧
    Sdk.Header_Get h0 "X-Platform-Id" = (if 0 <? as_platform c k then FormatInt (as_platform c k) else ""%string).
Proof.
  unfold Sdk.prepare. intros H Hi Ha. rewrite Hi, Ha in H. simpl in H. fold (as_user k) (as_platform c k) in H.
  destruct (match Sdk.C_Body k with Some b => Sdk.Marshal b | None => _ end) as [payload|e]; [|done].
  destruct (Sdk.NewRequest _) as [[path query]|e]; [|done]. injection H as <-. simpl. eexists. split_and!; [reflexivity|done| |].
  - destruct (String.eqb_spec (as_user k) "") as [->|]; [|by rewrite Header_Get_insert].
    destruct (0 <? as_platform c k); rewrite ?Header_Get_insert; by destruct (Sdk.C_Body k).
  - destruct (as_user k =? "")%string; rewrite ?Header_Get_insert; cbn [String.eqb Ascii.eqb Bool.eqb];
      (destruct (0 <? as_platform c k); [by rewrite Header_Get_insert|by destruct (Sdk.C_Body k)]).
Qed.

Lemma request_fields h :
  IR_Service (request h) = q_Header h "X-Service-Name" ∧ IR_Timestamp (request h) = q_Header h "X-Timestamp" ∧
  IR_Nonce (request h) = q_Header h "X-Nonce" ∧ IR_Signature (request h) = q_Header h "X-Signature".
Proof. unfold request. by destruct (cut_query _). Qed.

(** What the middleware reads of a signed request is what was signed. *)
Lemma signed_request c k unix rand w ia h :
  Sdk.prepare c k unix rand = inl w → Sdk.C_Internal k = true → Sdk.internal c = Some ia → url_ok w → delivered k w h →
  trimHeader (Sdk.Ia_service ia) = Sdk.Ia_service ia → trimHeader (as_user k) = as_user k → Forall (λ b, 0 ≤ b < 256) rand →
  IR_Service (request h) = Sdk.Ia_service ia ∧ IR_Timestamp (request h) = FormatInt unix ∧ IR_Nonce (request h) = Sdk.newNonce rand ∧
  IR_Signature (request h) = Sign (Sdk.Ia_secret ia) (request h) ∧
  q_Header h "X-User-Id" = as_user k ∧ q_Header h "X-Platform-Id" = (if 0 <? as_platform c k then FormatInt (as_platform c k) else ""%string).
Proof.
  intros Hp Hi Ha Hu Hd Hs Ht Hr. destruct (signed_headers c k unix rand w ia Hp Hi Ha) as (h0 & Hh & Hm & Hx & Hy).
  assert (∀ v, bare v → trimHeader v = v) as Hb by apply trimHeader_id.
  assert (q_Header h "X-Service-Name" = Sdk.Ia_service ia ∧ q_Header h "X-Timestamp" = FormatInt unix ∧ q_Header h "X-Nonce" = Sdk.newNonce rand ∧
    q_Header h "X-User-Id" = as_user k ∧ q_Header h "X-Platform-Id" = (if 0 <? as_platform c k then FormatInt (as_platform c k) else ""%string)) as (E1 & E2 & E3 & E4 & E5).
  { rewrite !(dl_header _ _ _ Hd) by discriminate. rewrite Hh. unfold Sdk.sign. rewrite !Header_Get_insert. simpl. rewrite Hx, Hy. split_and!; [done| | |done|].
    - apply Hb, FormatInt_bare.
    - by apply Hb, hexString_bare.
    - destruct (0 <? as_platform c k); [apply Hb, FormatInt_bare|done]. }
  assert (q_Header h "X-Signature" = Sign (Sdk.Ia_secret ia) (request h)) as E6.
  { rewrite (dl_header _ _ _ Hd) by discriminate. rewrite Hh. unfold Sdk.sign at 1. rewrite Header_Get_insert. simpl. rewrite Hx, Hy, Hb by apply hmac256_bare.
    unfold Sign, signPayload, payload, request. rewrite (dl_uri _ _ _ Hd), (RequestURI_cut w Hu). simpl.
    by rewrite E1, E2, E3, E4, E5, (dl_method _ _ _ Hd), (dl_body _ _ _ Hd), Hm. }
  destruct (request_fields h) as (-> & -> & -> & ->). done.
Qed.

(** C35: a request of the SDK to an internal route is accepted: what the client signs is what the middleware checks, so that with a service and a
    secret the node knows, clocks that agree to the allowed skew and a nonce nobody used, the signature verifies, and the caller acts as the
    platform user it named, on the platform it named. *)
Theorem signed_requests_accepted c k unix rand w ia h (m : InternalAuth) now tc s s' :
  Sdk.C_Internal k = true → Sdk.internal c = Some ia → Sdk.prepare c k unix rand = inl w → url_ok w → delivered k w h →
  trimHeader (Sdk.Ia_service ia) = Sdk.Ia_service ia → trimHeader (as_user k) = as_user k →
  length rand = 16%nat → Forall (λ b, 0 ≤ b < 256) rand → minInt64 ≤ unix ≤ maxInt64 → as_platform c k ≤ maxInt64 →
  Sdk.Ia_service ia ∈ I_services (IA_Verifier m) → Sdk.Ia_secret ia ∈ I_secrets (IA_Verifier m) →
  durAbs (satSub now (unix * Second)) ≤ I_skew (IA_Verifier m) →
  (IA_RequireTls m = true → overTls m h = true) →
  c_SetNX tc (nonceKey (Sdk.Ia_service ia) (Sdk.newNonce rand)) "1" (2 * I_skew (IA_Verifier m)) s = (Ok true, s') →
  Http.Verify m now tc h s = (inl noIdentity, s') ∧
  ∀ a, ParseActor (as_user k) = Ok a →
    AsUser m now tc h s =
    (inl (mkIdentity (as_user k) (Actor_Role a) (if 0 <? as_platform c k then as_platform c k else IA_DefaultPlatformId m) "" 0 SourceInternal), s').
Proof.
  intros Hi Ha Hp Hu Hd Hsv Hus Hlen Hrand Hunix Hpl Hserv Hsec Hskew Htls Hnx.
  destruct (signed_request c k unix rand w ia h Hp Hi Ha Hu Hd Hsv Hus Hrand) as (E1 & E2 & E3 & E4 & E5 & E6).
  assert (internal_verify m now tc h s = (None, s')) as Hv.
  { unfold internal_verify. assert (IA_RequireTls m && negb (overTls m h) = false) as ->.
    { destruct (IA_RequireTls m); [by rewrite (Htls eq_refl)|done]. }
    unfold InternalVerify. rewrite E1, E2, E3, E4. unfold in_list. rewrite bool_decide_true by done. simpl.
    rewrite (ParseInt_FormatInt _ Hunix). destruct (Z.ltb_spec (I_skew (IA_Verifier m)) (durAbs (satSub now (unix * Second)))); [lia|].
    assert (len (Sdk.newNonce rand) <? minNonceLen = false) as -> by (unfold Sdk.newNonce; by rewrite length_hexString, Hlen).
    assert (existsb (λ x, (signPayload x (payload (request h)) =? Sign (Sdk.Ia_secret ia) (request h))%string) (I_secrets (IA_Verifier m)) = true) as ->.
    { apply existsb_exists. exists (Sdk.Ia_secret ia). split; [by apply list_elem_of_In|]. apply String.eqb_refl. }
    simpl. by rewrite Hnx. }
  unfold Http.Verify, AsUser. rewrite Hv. split; [done|]. intros a Hact. rewrite E5, Hact. unfold platformId. rewrite E6.
  destruct (Z.ltb_spec 0 (as_platform c k)) as [Hpos|]; [|done]. rewrite ParseInt_FormatInt by (unfold minInt64; lia).
  by destruct (Z.ltb_spec 0 (as_platform c k)); [|lia].
Qed.
End Signed.

(** ** Values of queries *)

Lemma parse_digits_ge l : ∀ acc un, 0 ≤ acc → parse_digits acc l = Some un → acc ≤ un.
Proof.
  induction l as [|c l IH]; intros acc un Ha; simpl; [intros [= ->]; lia|]. destruct (digit_val c) as [d|] eqn:Ed; [|done].
  assert (0 ≤ d) as Hd0 by (unfold digit_val in Ed; destruct (_ && _) eqn:E; [|done]; injection Ed as <-; bool_prop; lia). intros H. apply IH in H; lia.
Qed.

Lemma parseUintValue_digits l : ∀ acc un, 0 ≤ acc → parse_digits acc l = Some un → un ≤ 2 ^ 64 - 1 → parseUintValue acc l = Some un.
Proof.
  induction l as [|c l IH]; intros acc un Ha; simpl; [done|]. destruct (digit_val c) as [d|] eqn:Ed; [|done].
  assert (0 ≤ d) as Hd0 by (unfold digit_val in Ed; destruct (_ && _) eqn:E; [|done]; injection Ed as <-; bool_prop; lia).
  intros H Hu. assert (acc * 10 + d ≤ un) by (eapply parse_digits_ge; [|exact H]; lia).
  destruct (Z.ltb_spec (2 ^ 64 - 1) (acc * 10 + d)); [lia|]. apply IH; [lia|done..].
Qed.

Lemma ParseIntValue_ParseInt s n : ParseInt s = Some n → ParseIntValue s = n.
Proof.
  unfold ParseInt, ParseIntValue. destruct (to_list s) as [|c l]; [done|].
  destruct (if bool_decide (c = "-"%char) || bool_decide (c = "+"%char) then l else c :: l) as [|c' l']; [done|]. unfold parse_uint.
  destruct (parse_digits 0 (c' :: l')) as [un|] eqn:E; [|done].
  destruct (bool_decide (c = "-"%char)).
  - destruct (Z.leb_spec un (2 ^ 63)); [|done]. intros [= <-]. rewrite (parseUintValue_digits _ 0 un (Z.le_refl 0) E) by lia. by destruct (Z.ltb_spec (2 ^ 63) un); [lia|].
  - destruct (Z.ltb_spec un (2 ^ 63)); [|done]. intros [= <-]. rewrite (parseUintValue_digits _ 0 un (Z.le_refl 0) E) by lia. by destruct (Z.leb_spec (2 ^ 63) un); [lia|].
Qed.

Lemma ParseIntValue_FormatInt n : minInt64 ≤ n ≤ maxInt64 → ParseIntValue (FormatInt n) = n.
Proof. intros Hn. by apply ParseIntValue_ParseInt, ParseInt_FormatInt. Qed.

Lemma splitComma_one s : ContainsRune s ","%char = false → splitComma s = [s].
Proof.
  induction s as [|c s IH]; simpl; [done|]. destruct (bool_decide (c = ","%char)); simpl; [done|]. intros H. by rewrite IH.
Qed.

Lemma splitComma_app s rest : ContainsRune s ","%char = false → splitComma (s +:+ String.String "," rest) = s :: splitComma rest.
Proof.
  induction s as [|c s IH]; [done|]. change (String.String c s +:+ String.String "," rest) with (String.String c (s +:+ String.String "," rest)).
  cbn [ContainsRune splitComma]. destruct (bool_decide (c = ","%char)); cbn [orb]; [done|]. intros H. by rewrite (IH H).
Qed.

Lemma splitComma_join ids : ids ≠ [] → Forall (λ s, ContainsRune s ","%char = false) ids → splitComma (Sdk.join_comma ids) = ids.
Proof.
  intros Hn. induction 1 as [|s ids Hs Hids IH]; [done|]. destruct ids as [|s' ids]; [by apply splitComma_one|].
  change (Sdk.join_comma (s :: s' :: ids)) with (s +:+ String.String "," (Sdk.join_comma (s' :: ids))).
  rewrite splitComma_app by done. f_equal. by apply IH.
Qed.

Lemma Values_Get_insert (q : Values) k v k' : Values_Get (<[k := [v]]> q) k' = if (k =? k')%string then v else Values_Get q k'.
Proof. unfold Values_Get. destruct (String.eqb_spec k k') as [->|Hn]; [by rewrite lookup_insert_eq|by rewrite lookup_insert_ne]. Qed.

Lemma Values_Get_set_if b (q : Values) k v k' :
  Values_Get (Sdk.set_if b k v q) k' = if b && (k =? k')%string then v else Values_Get q k'.
Proof. destruct b; [apply Values_Get_insert|done]. Qed.

Lemma Values_Get_empty k : Values_Get ∅ k = ""%string.
Proof. reflexivity. Qed.

Lemma Values_Get_singleton k v k' : Values_Get {[k := [v]]} k' = if (k =? k')%string then v else ""%string.
Proof. rewrite <- insert_empty. apply Values_Get_insert. Qed.

Section Calls.
Context `{RL : RateLib} `{EN : Env} `{BC : Bcrypt} `{JW : Jwt} {C : Type} `{CC : Cache C} `{BI : Binder} `{RS : ReserveLib} `{RC : RangeClients} `{SL : Sdk.SdkLib}.
Variable cfg : Config.
Variable ac : ApiConfig.

Definition int64 (n : Z) : Prop := minInt64 ≤ n ≤ maxInt64.

Definition ids_ok (ids : list string) : Prop := ids ≠ [] ∧ Z.of_nat (length ids) ≤ maxInfoIds ∧ Forall (λ id, Valid id = true) ids.

Definition sent (r : Sdk.SendMessageRequest) (id : Identity) : SendInput :=
  let internal := (Id_Source id =? SourceInternal)%string in
  mkSendInput (Id_UserId id) "" (Sdk.Sm_ClientMsgId r) (Sdk.Sm_SessionType r) (Sdk.Sm_RecvId r) (Sdk.Sm_GroupId r) (Sdk.Sm_ContentType r) (Sdk.Sm_Content r)
    (match Sdk.Sm_SenderRead r with Some b => b | None => negb internal end) internal.

Definition created (r : Sdk.CreateGroupRequest) : CreateInput :=
  mkCreateInput (Sdk.Cg_Name r) (Sdk.Cg_Avatar r) (Sdk.Cg_Introduction r) (Sdk.Cg_Extra r) (Sdk.Cg_MemberIds r).

Definition looked_up (r : Sdk.GetConversationRequest) : GetKey := mkGetKey (Sdk.Gc_ConversationId r) (Sdk.Gc_PeerUserId r) (Sdk.Gc_GroupId r).

(** The limit a node is sent: none when it is not positive. *)
Definition limit_sent (n : Z) : Z := if 0 <? n then n else 0.

(** What each method of the client means: its guard, its endpoint, and the call of the service it makes as the caller [id] on node [nd]. *)
Inductive asks : Sdk.Call → Guard → Endpoint → (string → Identity → Request) → Prop :=
| as_send r : asks (Sdk.SendMessage r) GBearer ESend (λ nd id, RSend nd (sent r id))
| as_isend r o : asks (Sdk.InternalSendMessage r o) GAsUser ESend (λ nd id, RSend nd (sent r id))
| as_pull r : int64 (Sdk.Pr_BeginSeq r) → int64 (Sdk.Pr_EndSeq r) → int64 (Sdk.Pr_Limit r) →
    asks (Sdk.Pull r) GBearer EPull (λ _ id,
      RPull (mkPullInput (Id_UserId id) (Sdk.Pr_ConversationId r) (Sdk.Pr_BeginSeq r) (Sdk.Pr_EndSeq r) (limit_sent (Sdk.Pr_Limit r))) (AP_PullPageMax ac))
| as_maxseqs cursor limit : int64 limit →
    asks (Sdk.MaxSeqs cursor limit) GBearer EMaxSeqs (λ _ id, RMaxSeqs (Id_UserId id) cursor (limit_sent limit) (AP_MaxSeqsPageMax ac))
| as_create r : asks (Sdk.CreateGroup r) GBearer ECreate (λ nd id, RCreate nd (Id_UserId id) (created r))
| as_icreate r o : asks (Sdk.InternalCreateGroup r o) GAsUser ECreate (λ nd id, RCreate nd (Id_UserId id) (created r))
| as_join g : g ≠ ""%string → asks (Sdk.JoinGroup g) GBearer EJoin (λ nd id, RJoin nd g (Id_UserId id))
| as_ijoin g o : g ≠ ""%string → asks (Sdk.InternalJoinGroup g o) GAsUser EJoin (λ nd id, RJoin nd g (Id_UserId id))
| as_quit g : g ≠ ""%string → asks (Sdk.QuitGroup g) GBearer EQuit (λ nd id, RQuit nd g (Id_UserId id))
| as_iquit g o : g ≠ ""%string → asks (Sdk.InternalQuitGroup g o) GAsUser EQuit (λ nd id, RQuit nd g (Id_UserId id))
| as_kick g u : g ≠ ""%string → u ≠ ""%string → asks (Sdk.KickGroupMember g u) GBearer EKick (λ nd id, RKick nd g (Id_UserId id) u)
| as_ikick g u o : g ≠ ""%string → u ≠ ""%string → asks (Sdk.InternalKickGroupMember g u o) GAsUser EKick (λ nd id, RKick nd g (Id_UserId id) u)
| as_group g : asks (Sdk.Group g) GBearer EGroupInfo (λ _ id, RGet g (Id_UserId id))
| as_members g : asks (Sdk.GroupMembers g) GBearer EMembers (λ _ id, RMembers g (Id_UserId id))
| as_register r : asks (Sdk.Register r) GLogin ERegister (λ _ _, RRegister (Sdk.Rr_Username r) (Sdk.Rr_Password r) (Sdk.Rr_Nickname r))
| as_me : asks Sdk.Me GBearer EMe (λ _ id, RUserGet (Id_UserId id))
| as_update r : asks (Sdk.UpdateMe r) GBearer EUpdateMe (λ _ id, RUserUpdate (Id_UserId id) (mkUpdate (Sdk.Pu_Nickname r) (Sdk.Pu_Avatar r) (Sdk.Pu_Extra r)))
| as_users ids : ids_ok ids → asks (Sdk.Users ids) GBearer EInfo (λ _ _, RGetMany ids)
| as_iusers ids : ids_ok ids → asks (Sdk.InternalUsers ids) GVerify EInfo (λ _ _, RGetMany ids)
| as_online ids : ids_ok ids → asks (Sdk.OnlineStatus ids) GBearer EOnlineStatus (λ _ _, ROnlineStatus ids)
| as_ionline ids : ids_ok ids → asks (Sdk.InternalOnlineStatus ids) GVerify EOnlineStatus (λ _ _, ROnlineStatus ids)
| as_upsert r : asks (Sdk.InternalUpsertUser r) GVerify EUpsert (λ _ _, RUpsert (Sdk.Ur_Id r) (Sdk.Ur_Nickname r) (Sdk.Ur_Avatar r) (Sdk.Ur_Extra r))
| as_list r : int64 (Sdk.Lc_Limit r) →
    asks (Sdk.Conversations r) GBearer EList (λ _ id,
      RListConvs (Id_UserId id) (Sdk.Lc_Cursor r) (limit_sent (Sdk.Lc_Limit r)) (AP_ConvPageMax ac) (Sdk.Lc_WithLastMessage r))
| as_ilist r o : int64 (Sdk.Lc_Limit r) →
    asks (Sdk.InternalConversations r o) GAsUser EList (λ _ id,
      RListConvs (Id_UserId id) (Sdk.Lc_Cursor r) (limit_sent (Sdk.Lc_Limit r)) (AP_ConvPageMax ac) (Sdk.Lc_WithLastMessage r))
| as_get r : asks (Sdk.Conversation r) GBearer EGet (λ _ id, RGetConv (Id_UserId id) (looked_up r) (Sdk.Gc_WithLastMessage r))
| as_iget r o : asks (Sdk.InternalConversation r o) GAsUser EGet (λ _ id, RGetConv (Id_UserId id) (looked_up r) (Sdk.Gc_WithLastMessage r))
| as_read c n : c ≠ ""%string → asks (Sdk.MarkRead c n) GBearer ERead (λ nd id, RMarkRead nd (Id_UserId id) "" c n)
| as_opt c r : c ≠ ""%string → asks (Sdk.SetConversationOpt c r) GBearer EOpt (λ _ id, RSetOpt (Id_UserId id) c (Sdk.Co_RecvMsgOpt r) (Sdk.Co_IsPinned r)).

(** The calls that reach no service of the model: sessions and the probe. *)
Inductive routed : Sdk.Call → Guard → Endpoint → Prop :=
| ro_asks k g e req : asks k g e req → routed k g e
| ro_login r : routed (Sdk.login_call r) GLogin ELogin
| ro_logout : routed Sdk.logout_call GBearer ELogout
| ro_health : routed Sdk.InternalHealth GVerify EHealth.

(** The routes a configuration opens. *)
Definition offered (k : Sdk.Call) : Prop :=
  (HasPrefix (Sdk.C_Path k) "/auth/" = true → nativeOn ac = true) ∧ (Sdk.C_Internal k = true → is_Some (AP_Internal ac)).

(** An endpoint that makes one call of a service and answers with what it returned. *)
Definition calls_service (p : prog (@Front RL C RS) HttpResp) (r : Request) : Prop :=
  ∃ pick, p = (a ← svc cfg ac r; mret (pick a)) ∧ ∀ a, shape r a → pick a = render (outcome a).

Lemma prepare_method c k unix rand w : Sdk.prepare c k unix rand = inl w → Sdk.W_Method w = Sdk.C_Method k.
Proof.
  unfold Sdk.prepare. destruct (_ && _); [done|]. destruct (match Sdk.C_Body k with Some b => Sdk.Marshal b | None => _ end); [|done].
  destruct (Sdk.NewRequest _) as [[]|]; [|done]. by intros [= <-].
Qed.

Lemma routed_route c k unix rand w h g e :
  Sdk.prepare c k unix rand = inl w → delivered k w h → offered k → routed k g e → route ac h = Some (g, e).
Proof.
  intros Hp Hd [Hn Hi] Hr. unfold route, routes, registerRoutes. rewrite (dl_method _ _ _ Hd), (dl_path _ _ _ Hd), (prepare_method _ _ _ _ _ Hp).
  assert (nativeOn ac = false → HasPrefix (Sdk.C_Path k) "/auth/" = false) as Hn' by (destruct (HasPrefix _ _); [by rewrite Hn|done]).
  destruct Hr as [k g e req Ha| | |]; [destruct Ha|..]; cbn in Hn, Hn', Hi |- *;
    first [destruct (Hi eq_refl) as [v ->]|clear Hi]; destruct (nativeOn ac); try reflexivity; by specialize (Hn' eq_refl).
Qed.

Lemma limit_value l : int64 l → ParseIntValue (if (0 <? l) && true then FormatInt l else ""%string) = limit_sent l.
Proof. intros H. unfold limit_sent. rewrite andb_true_r. destruct (0 <? l); [by apply ParseIntValue_FormatInt|done]. Qed.

Lemma text_value v : (if negb (v =? "")%string && true then v else ""%string) = v.
Proof. rewrite andb_true_r. by destruct (String.eqb_spec v "") as [->|]. Qed.

Lemma flag_value (b : bool) : ((if b && true then "true" else "") =? "true")%string = b.
Proof. by destruct b. Qed.

Lemma userIds_sent h ids : q_Query h "user_ids" = Sdk.join_comma ids → ids_ok ids → userIds h = Ok ids.
Proof.
  intros Hq (Hn & Hl & Hv). unfold userIds. rewrite Hq, splitComma_join by (done || (eapply Forall_impl; [exact Hv|]; intros; by apply word_no_comma, Valid_word)).
  assert (Sdk.join_comma ids =? "" = false)%string as ->.
  { apply String.eqb_neq. intros E. assert (splitComma (Sdk.join_comma ids) = ids) as Es by
      (apply splitComma_join; [done|]; eapply Forall_impl; [exact Hv|]; intros; by apply word_no_comma, Valid_word).
    rewrite E in Es. simpl in Es. subst ids. apply Forall_cons in Hv as [Hv _]. by vm_compute in Hv. }
  destruct (Z.ltb_spec maxInfoIds (Z.of_nat (length ids))); [lia|]. simpl.
  assert (List.find (λ id, negb (Valid id)) ids = None) as ->; [|done].
  clear -Hv. induction Hv as [|id ids Hi _ IH]; simpl; [done|]. by rewrite Hi.
Qed.

Ltac values Hd :=
  unfold queryInt; rewrite ?(dl_query _ _ _ Hd);
  cbn [Sdk.C_Query Sdk.get Sdk.internalGet Sdk.Pull Sdk.MaxSeqs Sdk.Group Sdk.GroupMembers Sdk.Users Sdk.OnlineStatus Sdk.InternalUsers Sdk.InternalOnlineStatus
       Sdk.Conversations Sdk.Conversation Sdk.InternalConversation Sdk.InternalConversations Sdk.idsQuery];
  try unfold Sdk.listQuery; try unfold Sdk.getQuery; cbv beta zeta;
  rewrite ?Values_Get_set_if, ?Values_Get_insert, ?Values_Get_singleton, ?Values_Get_empty; cbn [String.eqb Ascii.eqb Bool.eqb];
  rewrite ?andb_false_r, ?limit_value, ?text_value, ?flag_value, ?ParseIntValue_FormatInt by done.

Ltac answered :=
  eexists; split; [reflexivity|]; intros a Hs; destruct a; try (by destruct Hs);
  match goal with |- context [RespondWith _ ?r] => by destruct r | |- context [Respond None ?e] => by destruct e end.

Lemma asks_calls c k unix rand w h g e req nd id :
  Sdk.prepare c k unix rand = inl w → delivered k w h → asks k g e req → calls_service (run_endpoint cfg ac nd e id h) (req nd id).
Proof.
  intros Hp Hd Ha. pose proof (dl_decodes _ _ _ Hd) as Hb. pose proof (dl_body _ _ _ Hd) as Hw. rewrite <- Hw in Hb. unfold calls_service.
  destruct Ha; cbn [decodes Sdk.C_Body Sdk.SendMessage Sdk.InternalSendMessage Sdk.CreateGroup Sdk.InternalCreateGroup Sdk.JoinGroup Sdk.InternalJoinGroup
    Sdk.QuitGroup Sdk.InternalQuitGroup Sdk.KickGroupMember Sdk.InternalKickGroupMember Sdk.Register Sdk.UpdateMe Sdk.InternalUpsertUser Sdk.MarkRead
    Sdk.SetConversationOpt Sdk.post Sdk.put Sdk.internalPost] in Hb;
    cbn [run_endpoint]; unfold send, pull, maxSeqs, list_, get, read, opt, create, join, quit, kick, bindGroup, group_info, members, register, me, updateMe,
      onlineStatus, info, upsert, Bind, BindValid;
    rewrite ?Hb; do 2 (cbn [Rd_ConversationId Op_ConversationId Gr_GroupId Gr_UserId Sdk.Gq_GroupId Sdk.Gq_UserId];
    rewrite ?(proj2 (String.eqb_neq _ _)) by done; cbn [negb]);
    try (rewrite (userIds_sent h ids) by (by values Hd || done)); values Hd.
  all: answered.
Qed.

End Calls.

Section Answers.
Context `{SL : Sdk.SdkLib}.

(** When a call of the client succeeds. *)
Definition succeeds {A} (status : Z) (raw : string) (out : Sdk.Out A) (a : A) : Prop :=
  len raw ≤ Sdk.maxResponseBytes ∧ 200 ≤ status < 300 ∧
  ∃ env, Sdk.UnmarshalEnvelope raw = Some env ∧ Sdk.Ev_Code env = Some 0 ∧
    match out with
    | Sdk.NoOut a' => a = a'
    | Sdk.Into dec => Sdk.Ev_Data env ≠ ""%string ∧ Sdk.isNull (Sdk.Ev_Data env) = false ∧ dec (Sdk.Ev_Data env) = Ok a
    end.

Lemma finish_exact {A} status raw (out : Sdk.Out A) a : Sdk.finish status (Ok raw) out = inl a ↔ succeeds status raw out a.
Proof.
  unfold Sdk.finish, succeeds. destruct (Z.ltb_spec Sdk.maxResponseBytes (len raw)); [split; [done|lia]|].
  destruct (Sdk.UnmarshalEnvelope raw) as [[code msg data]|]; simpl; [|split; [done|by intros (_ & _ & ? & [=] & _)]].
  destruct code as [code|]; [|destruct (_ || _); (split; [done|by intros (_ & _ & ? & [= <-] & [=] & _)])].
  destruct (Z.eqb_spec code 0) as [->|]; simpl; [|split; [done|intros (_ & _ & ? & [= <-] & [=] & _); done]].
  destruct (Z.ltb_spec status 200); simpl; [split; [done|lia]|]. destruct (Z.leb_spec 300 status); [split; [done|lia]|].
  destruct out as [a'|dec]; [split; [intros [= ->]; split_and!; [done..|]; by eexists|by intros (_ & _ & ? & [= <-] & _ & ->)]|].
  destruct (String.eqb_spec data ""); simpl; [split; [done|by intros (_ & _ & ? & [= <-] & _ & ? & _)]|].
  destruct (Sdk.isNull data) eqn:En; [split; [done|by intros (_ & _ & ? & [= <-] & _ & _ & E & _); simpl in E; rewrite En in E]|].
  destruct (dec data) as [x|x] eqn:Ed.
  - split; [intros [= ->]; split_and!; [done..|]; by eexists|intros (_ & _ & ? & [= <-] & _ & _ & _ & E); simpl in E; congruence].
  - split; [done|intros (_ & _ & ? & [= <-] & _ & _ & _ & E); simpl in E; congruence].
Qed.

(** The client's classes of errors are the server's. *)
Lemma IsSystem_class er : Sdk.IsSystem er = IsSystem_code (Sdk.Er_Code er).
Proof.
  unfold Sdk.IsSystem, IsSystem_code, Class_of, System. apply eq_true_iff_eq. rewrite andb_true_iff, Z.leb_le, Z.ltb_lt, Z.eqb_eq.
  split; intros; Z.to_euclidean_division_equations; lia.
Qed.

(** A node's answer as the client receives it: the status, and a body of moderate size that decodes to the envelope. *)
Definition received (r : HttpResp) (status : Z) (raw : string) : Prop :=
  match r with
  | JSON st b => status = st ∧ len raw ≤ Sdk.maxResponseBytes ∧
      ∃ data, Sdk.UnmarshalEnvelope raw = Some (Sdk.mkEnvelope (Some (w_Code b)) (w_Message b) data) ∧ data ≠ ""%string ∧ Sdk.isNull data = false
  | _ => False
  end.

(** The client reports what the node answered. A call succeeds exactly when a body of at most 8 MiB came under a 2xx status with code 0 and,
    where a value is expected, data that decode to it. The answer to a service that succeeded gives the decoded data; an error of a service, of
    code other than 0, gives an error with its code and message and the status of that code, which the client classes as the server does. *)
Lemma sdk_reports_answers {A} status raw (out : Sdk.Out A) :
  (∀ a, Sdk.finish status (Ok raw) out = inl a ↔ succeeds status raw out a) ∧
  (∀ d, received (render (Ok d)) status raw →
     match out with
     | Sdk.NoOut a => Sdk.finish status (Ok raw) out = inl a
     | Sdk.Into dec => ∃ env, Sdk.UnmarshalEnvelope raw = Some env ∧
         Sdk.finish status (Ok raw) out = match dec (Sdk.Ev_Data env) with Ok a => inl a | Err e => inr (Sdk.SOther "decode" (Some e)) end
     end) ∧
  (∀ e, code_of e ≠ 0 → received (render (Err e)) status raw →
     ∃ m cause er, From_err (Some e) = Some (code_of e, m, cause) ∧ Sdk.finish status (Ok raw) out = inr (Sdk.SError er) ∧
       er = Sdk.mkError (code_of e) m (HttpStatus (code_of e)) ∧ Sdk.IsSystem er = IsSystem_code (code_of e)).
Proof.
  split_and!.
  - intros a. apply finish_exact.
  - intros d (-> & Hl & data & Hu & Hd & Hn). simpl in Hu. unfold Sdk.finish. destruct (Z.ltb_spec Sdk.maxResponseBytes (len raw)); [lia|]. rewrite Hu. simpl.
    destruct out as [a|dec]; [done|]. exists (Sdk.mkEnvelope (Some 0) "" data). simpl. rewrite (proj2 (String.eqb_neq _ _) Hd), Hn. done.
  - intros e Hc Hr. unfold render, Fail, FailStatus in Hr. unfold code_of in Hc, Hr |- *. destruct (From_err (Some e)) as [[[cd m] ca]|] eqn:Ef; [|done].
    destruct Hr as (-> & Hl & data & Hu & Hd & Hn). simpl in Hu. unfold Sdk.finish. destruct (Z.ltb_spec Sdk.maxResponseBytes (len raw)); [lia|]. rewrite Hu. simpl.
    rewrite (proj2 (Z.eqb_neq _ _) Hc). simpl. do 3 eexists. split_and!; [reflexivity..|]. apply IsSystem_class.
Qed.
End Answers.

(** ** A platform backend asking for a conversation *)

#[local] Existing Instance countingLib.
#[local] Existing Instance demoEnv.
#[local] Existing Instance demoBcrypt.
#[local] Existing Instance demoJwt.
#[local] Existing Instance tokens.
#[local] Existing Instance in_order.
#[local] Existing Instance demoBinder.

(** The base URL is ["https://im"]: what follows it is the path, up to the query. *)
#[local] Instance demoSdk : Sdk.SdkLib := {|
  Sdk.Marshal _ := Err (EOther "no body");
  Sdk.MarshalText s := s;
  Sdk.UnmarshalEnvelope s := Some (Sdk.mkEnvelope (Some 0) "" s);
  Sdk.NewRequest u := let s := slice_from u 10 in Ok (default (s, ""%string) (Cut s "?"%char)) |}.

Definition backend : Sdk.Client := Sdk.New "https://im/" [Sdk.WithInternalAuth "billing" "k1"; Sdk.WithPlatformId 5].

Definition demoCall : Sdk.Call := Sdk.InternalConversation (Sdk.mkGetConversation "" "u___2" "" true) [Sdk.AsUser "u___1"].

Definition demoRand : list Z := map Z.of_nat (seq 7 16).

Definition demoWire : Sdk.Wire := Eval vm_compute in
  match Sdk.prepare backend demoCall 100 demoRand with inl w => w | inr _ => Sdk.mkWire "" "" "" ∅ "" end.

Definition demoHttp : HttpReq :=
  mkHttpReq (Sdk.W_Method demoWire) "/api/v1/internal/conversation/get" (RequestURI demoWire) (λ key, trimHeader (Sdk.Header_Get (Sdk.W_Header demoWire) key))
    (Values_Get (Sdk.C_Query demoCall)) (Sdk.W_Body demoWire) "10.0.0.1" true None.

Lemma demo_prepared : Sdk.prepare backend demoCall 100 demoRand = inl demoWire.
Proof. vm_compute. reflexivity. Qed.

Lemma demo_delivered `{BI : Binder} : delivered demoCall demoWire demoHttp.
Proof. by constructor. Qed.

Definition nonceTaken : Local := (c_SetNX (at_ 101) (nonceKey "billing" (Sdk.newNonce demoRand)) "1" (120 * Second) (∅ : Local)).2.

Lemma signed_requests_accepted_witness :
  Http.Verify (mkInternalAuth int1 true [] 1) (at_ 101) (at_ 101) demoHttp (∅ : Local) = (inl noIdentity, nonceTaken) ∧
  AsUser (mkInternalAuth int1 true [] 1) (at_ 101) (at_ 101) demoHttp (∅ : Local) = (inl (mkIdentity "u___1" RoleUser 5 "" 0 SourceInternal), nonceTaken).
Proof.
  destruct (signed_requests_accepted (C := Local) (BI := demoBinder) backend demoCall 100 demoRand demoWire (Sdk.mkInternalAuth "billing" "k1") demoHttp
    (mkInternalAuth int1 true [] 1) (at_ 101) (at_ 101) ∅ nonceTaken) as [H1 H2].
  - reflexivity.
  - reflexivity.
  - exact demo_prepared.
  - split; [discriminate|vm_compute; reflexivity].
  - exact demo_delivered.
  - vm_compute. reflexivity.
  - vm_compute. reflexivity.
  - reflexivity.
  - repeat constructor; vm_compute; intuition congruence.
  - unfold minInt64, maxInt64. lia.
  - vm_compute. discriminate.
  - left.
  - left.
  - vm_compute. discriminate.
  - reflexivity.
  - vm_compute. reflexivity.
  - split; [exact H1|]. exact (H2 (mkActor 1 RoleUser) ltac:(vm_compute; reflexivity)).
Defined.

