(* ===== verification/MsgBody.v ===== *)
(** * Message bodies and the push webhook ([msgbody/msgbody.go], [internal/offlinepush])

    What a notification shows of a message: the content by its type, a text cut to fifty code points, placeholders for media. The
    webhook signs and posts it once. [encoding/json] into the wire struct is a class parameter, the exchange with the receiver an argument. *)

From S2P Require Import Prelude Errcode Strconv Json Store PgStore Conc RateLimit World Sha256 Auth MessageSvc.

Local Open Scope Z_scope.

(** ** Code points: the conversions between [string] and [[]rune] *)

Definition RuneError : Z := 65533.

(** The code point of the encoding of [n] bytes at the head of [l]. *)
Definition decode_rune (n : nat) (l : bytes) : Z :=
  match n, l with
  | 1%nat, b0 :: _ => b0
  | 2%nat, b0 :: b1 :: _ => (b0 - 192) * 64 + (b1 - 128)
  | 3%nat, b0 :: b1 :: b2 :: _ => (b0 - 224) * 4096 + (b1 - 128) * 64 + (b2 - 128)
  | 4%nat, b0 :: b1 :: b2 :: b3 :: _ => (b0 - 240) * 262144 + (b1 - 128) * 4096 + (b2 - 128) * 64 + (b3 - 128)
  | _, _ => RuneError
  end.

(** A byte that starts no encoding is one [RuneError]; every step consumes a byte, so the length is enough fuel. *)
Fixpoint runes_fuel (fuel : nat) (l : bytes) : list Z :=
  match l, fuel with
  | [], _ => []
  | _, O => []
  | _ :: l', S f => match rune_len l with O => RuneError :: runes_fuel f l' | n => decode_rune n l :: runes_fuel f (drop n l) end
  end.

Definition runes (s : string) : list Z := let l := string_bytes s in runes_fuel (length l) l.

Definition string_of_runes (rs : list Z) : string := bytes_string (flat_map utf8_encode rs).

(** ** [msgbody] *)

Definition Text : Z := 1.
Definition Image : Z := 2.
Definition Video : Z := 3.
Definition Audio : Z := 4.
Definition File : Z := 5.
Definition Custom : Z := 100.

Definition PreviewMaxRunes : nat := 50.

Record Body := mkBody { Bd_Type : Z; Bd_Text : string; Bd_Url : string; Bd_Name : string; Bd_Custom : string }.

Record wire := mkWire { Wr_Text : string; Wr_Image : string; Wr_Video : string; Wr_Audio : string; Wr_File : string; Wr_Name : string }.

Class BodyLib := { UnmarshalWire : string → result wire }.

Section Bodies.
Context `{BL : BodyLib}.

Definition Parse (contentType : Z) (raw : string) : result Body :=
  if negb (ValidType contentType) then Err (EWrap (FormatInt contentType) (EOther "msgbody: unknown content_type"))
  else if contentType =? Custom then
    if IsValid raw then Ok (mkBody contentType "" "" "" raw) else Err (EOther "msgbody: content is not valid JSON")
  else
    match UnmarshalWire raw with
    | Err e => Err (EWrap "msgbody" e)
    | Ok w =>
        Ok (if contentType =? Text then mkBody contentType (Wr_Text w) "" "" ""
            else if contentType =? Image then mkBody contentType "" (Wr_Image w) "" ""
            else if contentType =? Video then mkBody contentType "" (Wr_Video w) "" ""
            else if contentType =? Audio then mkBody contentType "" (Wr_Audio w) "" ""
            else mkBody contentType "" (Wr_File w) (Wr_Name w) "")
    end.

Definition Body_Preview (b : Body) : string :=
  if Bd_Type b =? Text then
    let r := runes (Bd_Text b) in
    if (PreviewMaxRunes <? length r)%nat then string_of_runes (firstn PreviewMaxRunes r) +:+ "…" else Bd_Text b
  else if Bd_Type b =? Image then "[图片]"
  else if Bd_Type b =? Video then "[视频]"
  else if Bd_Type b =? Audio then "[语音]"
  else if Bd_Type b =? File then "[文件]"
  else "".

Definition Preview (contentType : Z) (raw : string) : string :=
  match Parse contentType raw with Ok b => Body_Preview b | Err _ => "" end.

(** ** The webhook ([offlinepush.go], [webhook.go]) *)

Definition Notification_Preview (n : Notification) : string := Preview (N_ContentType n) (N_Content n).

Record webhookBody := mkWebhookBody { Wb_EventId : string; Wb_UserIds : list string; Wb_Notification : Notification; Wb_Preview : string }.

Record Webhook := mkWebhook { Wh_url : string; Wh_secret : string }.

(** The one request of a [Push]. *)
Record Post := mkPost { Po_Url : string; Po_Timestamp : string; Po_Signature : string; Po_Body : string }.

Definition Sign (secret ts body : string) : string :=
  hexString (hmac256 (bytes_of secret) (bytes_of (ts +:+ newline +:+ hexString (sha256 (bytes_of body))))).

(** [Push] at Unix second [unix]: what was posted and the error. [marshal] is [json.Marshal], [exchange] the status the receiver
    answered; redirects are not followed, so there is one exchange. *)
Definition Push (w : Webhook) (marshal : webhookBody → result string) (unix : Z) (exchange : Post → result Z) (userIds : list string) (n : Notification)
    : list Post * err :=
  match marshal (mkWebhookBody (EventId n) userIds n (Notification_Preview n)) with
  | Err e => ([], Some (EWrap "offlinepush/webhook" e))
  | Ok body =>
      let ts := FormatInt unix in
      let p := mkPost (Wh_url w) ts (Sign (Wh_secret w) ts body) body in
      match exchange p with
      | Err e => ([p], Some (EWrap "offlinepush/webhook" e))
      | Ok status => ([p], if negb (Z.quot status 100 =? 2) then Some (EOther ("offlinepush/webhook: status " +:+ FormatInt status)) else None)
      end
  end.
End Bodies.

(** ** Lemmas on encodings *)

Definition is_byte (b : Z) : Prop := 0 ≤ b < 256.

(** The encoding of a code point is read as that code point, whatever follows. *)
Definition good (r : Z) : Prop :=
  ∀ rest, rune_len (utf8_encode r ++ rest) = length (utf8_encode r) ∧ decode_rune (length (utf8_encode r)) (utf8_encode r ++ rest) = r.

Ltac bools := repeat match goal with
  | H : _ && _ = true |- _ => apply andb_true_iff in H as [? ?]
  | H : (_ <=? _) = true |- _ => apply Z.leb_le in H
  | H : (_ <=? _) = false |- _ => apply Z.leb_gt in H
  | H : (_ =? _) = true |- _ => apply Z.eqb_eq in H
  | H : (_ =? _) = false |- _ => apply Z.eqb_neq in H
  | H : cont _ = true |- _ => unfold cont in H
  end.

Lemma string_bytes_byte s : Forall is_byte (string_bytes s).
Proof. unfold string_bytes. apply Forall_map, Forall_forall. intros c _. unfold is_byte, byte_Z. pose proof (N_ascii_bounded c). lia. Qed.

(** The shapes of an encoding. *)
Lemma rune_len_cases l n : rune_len l = n → n ≠ 0%nat →
  (∃ b0 r, l = b0 :: r ∧ n = 1%nat ∧ b0 ≤ 127) ∨
  (∃ b0 b1 r, l = b0 :: b1 :: r ∧ n = 2%nat ∧ 194 ≤ b0 ≤ 223 ∧ 128 ≤ b1 ≤ 191) ∨
  (∃ b0 b1 b2 r, l = b0 :: b1 :: b2 :: r ∧ n = 3%nat ∧ 224 ≤ b0 ≤ 239 ∧ 128 ≤ b1 ≤ 191 ∧ 128 ≤ b2 ≤ 191 ∧ (b0 = 224 → 160 ≤ b1) ∧ (b0 = 237 → b1 ≤ 159)) ∨
  (∃ b0 b1 b2 b3 r, l = b0 :: b1 :: b2 :: b3 :: r ∧ n = 4%nat ∧ 240 ≤ b0 ≤ 244 ∧ 128 ≤ b1 ≤ 191 ∧ 128 ≤ b2 ≤ 191 ∧ 128 ≤ b3 ≤ 191 ∧
     (b0 = 240 → 144 ≤ b1) ∧ (b0 = 244 → b1 ≤ 143)).
Proof.
  intros <-. destruct l as [|b0 r]; [done|]. simpl. destruct (Z.leb_spec b0 127); [intros _; left; by exists b0, r|].
  destruct r as [|b1 r]; [done|]. destruct ((194 <=? b0) && (b0 <=? 223)) eqn:E1.
  { destruct (cont b1) eqn:E2; [|done]. intros _. right. left. exists b0, b1, r. bools. split_and!; try done; lia. }
  destruct r as [|b2 r]; [done|]. destruct ((224 <=? b0) && (b0 <=? 239)) eqn:E2.
  { destruct (_ && cont b2) eqn:E3; [|done]. intros _. right. right. left. exists b0, b1, b2, r. bools.
    destruct (Z.eqb_spec b0 224), (Z.eqb_spec b0 237); bools; split_and!; try done; lia. }
  destruct r as [|b3 r]; [done|]. destruct ((240 <=? b0) && (b0 <=? 244)) eqn:E3; [|done].
  destruct (_ && cont b3) eqn:E4; [|done]. intros _. right. right. right. exists b0, b1, b2, b3, r. bools.
  destruct (Z.eqb_spec b0 240), (Z.eqb_spec b0 244); bools; split_and!; try done; lia.
Qed.

Ltac lead :=
  unfold rune_len, cont; cbn [app length];
  repeat match goal with |- context [?a =? ?b] => destruct (Z.eqb_spec a b) end;
  repeat match goal with |- context [?a <=? ?b] => destruct (Z.leb_spec a b); try lia; cbn [andb] end; done.

(** Decoding then encoding an encoding gives it back. *)
Lemma encode_decode l n : Forall is_byte l → rune_len l = n → n ≠ 0%nat → utf8_encode (decode_rune n l) = firstn n l ∧ (n ≤ 4)%nat ∧ good (decode_rune n l).
Proof.
  intros Hb Hr Hn. destruct (rune_len_cases l n Hr Hn) as [(b0 & r & -> & -> & H0)|[(b0 & b1 & r & -> & -> & H0 & H1)|
    [(b0 & b1 & b2 & r & -> & -> & H0 & H1 & H2 & H3 & H4)|(b0 & b1 & b2 & b3 & r & -> & -> & H0 & H1 & H2 & H3 & H4 & H5)]]]; cbn [decode_rune firstn].
  - apply Forall_cons in Hb as [Hb _]. unfold is_byte in Hb. assert (utf8_encode b0 = [b0]) as E by (unfold utf8_encode; by destruct (Z.leb_spec b0 127); [|lia]).
    split_and!; [done|lia|]. intros rest. rewrite E. simpl. by destruct (Z.leb_spec b0 127); [|lia].
  - set (x := (b0 - 192) * 64 + (b1 - 128)). assert (utf8_encode x = [b0; b1]) as E.
    { unfold utf8_encode. destruct (Z.leb_spec x 127); [lia|]. destruct (Z.leb_spec x 2047); [|lia]. subst x. repeat f_equal; Z.to_euclidean_division_equations; lia. }
    split_and!; [done|lia|]. intros rest. rewrite E. split; [|done]. clear Hr E x. lead.
  - set (x := (b0 - 224) * 4096 + (b1 - 128) * 64 + (b2 - 128)). assert (utf8_encode x = [b0; b1; b2]) as E.
    { unfold utf8_encode. destruct (Z.leb_spec x 127); [lia|]. destruct (Z.leb_spec x 2047); [lia|]. destruct (Z.leb_spec x 65535); [|lia].
      subst x. repeat f_equal; Z.to_euclidean_division_equations; lia. }
    split_and!; [done|lia|]. intros rest. rewrite E. split; [|done]. clear Hr E x. lead.
  - set (x := (b0 - 240) * 262144 + (b1 - 128) * 4096 + (b2 - 128) * 64 + (b3 - 128)). assert (utf8_encode x = [b0; b1; b2; b3]) as E.
    { unfold utf8_encode. destruct (Z.leb_spec x 127); [lia|]. destruct (Z.leb_spec x 2047); [lia|]. destruct (Z.leb_spec x 65535); [lia|].
      subst x. repeat f_equal; Z.to_euclidean_division_equations; lia. }
    split_and!; [done|lia|]. intros rest. rewrite E. split; [|done]. clear Hr E x. lead.
Qed.

(** A well-formed text is the encoding of its code points, each read back as it was written. *)
Lemma valid_runes fuel : ∀ l, Forall is_byte l → utf8_fuel fuel l = true →
  flat_map utf8_encode (runes_fuel fuel l) = l ∧ Forall (λ r, good r ∧ (0 < length (utf8_encode r) ≤ 4)%nat) (runes_fuel fuel l).
Proof.
  induction fuel as [|fuel IH]; intros [|b l] Hb H; try done. cbn [utf8_fuel runes_fuel] in *. destruct (rune_len (b :: l)) as [|n] eqn:E; [done|].
  destruct (encode_decode _ _ Hb E ltac:(lia)) as (H1 & H2 & H3). destruct (IH _ (Forall_drop _ (S n) _ Hb) H) as [H4 H5]. cbn [flat_map]. rewrite H1, H4.
  split; [apply firstn_skipn|]. constructor; [|done]. split; [done|]. rewrite H1, length_firstn.
  assert (rune_len (b :: l) ≤ length (b :: l))%nat.
  { rewrite E. destruct (rune_len_cases _ _ E ltac:(lia)) as [(? & ? & -> & -> & _)|[(? & ? & ? & -> & -> & _)|[(? & ? & ? & ? & -> & -> & _)|(? & ? & ? & ? & ? & -> & -> & _)]]]; simpl; lia. }
  lia.
Qed.

(** The encodings of good code points are well-formed and read back as the same code points. *)
Lemma good_valid rs : Forall (λ r, good r ∧ (0 < length (utf8_encode r) ≤ 4)%nat) rs →
  ∀ fuel, (length (flat_map utf8_encode rs) ≤ fuel)%nat → utf8_fuel fuel (flat_map utf8_encode rs) = true ∧ runes_fuel fuel (flat_map utf8_encode rs) = rs.
Proof.
  induction 1 as [|r rs [Hg Hl] _ IH]; intros fuel Hf; [by destruct fuel|]. cbn [flat_map] in *. rewrite length_app in Hf.
  destruct (Hg (flat_map utf8_encode rs)) as [E1 E2]. destruct (utf8_encode r) as [|b e] eqn:E; [simpl in Hl; lia|].
  destruct fuel as [|fuel]; [simpl in Hf; lia|]. cbn [app utf8_fuel runes_fuel] in *. rewrite E1. cbn [length] in *.
  replace (drop (S (length e)) (b :: e ++ flat_map utf8_encode rs)) with (flat_map utf8_encode rs) by (simpl; by rewrite drop_app_length).
  destruct (IH fuel ltac:(lia)) as [H1 H2]. split; [done|]. rewrite H2. f_equal. exact E2.
Qed.

Lemma flat_map_length_le rs n : Forall (λ r, good r ∧ (0 < length (utf8_encode r) ≤ 4)%nat) rs → (length rs ≤ n)%nat → (length (flat_map utf8_encode rs) ≤ 4 * n)%nat.
Proof. intros H. revert n. induction H as [|r rs [_ Hl] _ IH]; intros n Hn; simpl in *; [lia|]. rewrite length_app. specialize (IH (n - 1)%nat ltac:(lia)). lia. Qed.

Lemma string_bytes_of l : Forall is_byte l → string_bytes (bytes_string l) = l.
Proof.
  intros H. unfold string_bytes, bytes_string. rewrite to_of_list, map_map. induction H as [|b l Hb _ IH]; simpl; [done|]. rewrite IH. f_equal.
  apply byte_Z_byte. unfold is_byte in Hb. lia.
Qed.

Lemma bytes_string_of s : bytes_string (string_bytes s) = s.
Proof.
  unfold string_bytes, bytes_string. rewrite map_map. rewrite <- (of_to_list s) at 2. f_equal. rewrite <- (map_id (to_list s)) at 2. apply map_ext.
  intros c. unfold Z_byte, byte_Z. rewrite N2Z.id. apply ascii_N_embedding.
Qed.

(** ** Previews *)

Definition rune_ok (r : Z) : Prop := good r ∧ (0 < length (utf8_encode r) ≤ 4)%nat.

Lemma rune_ok_bytes rs : Forall rune_ok rs → Forall is_byte (flat_map utf8_encode rs) → string_bytes (string_of_runes rs) = flat_map utf8_encode rs.
Proof. intros _ H. unfold string_of_runes. by apply string_bytes_of. Qed.

Lemma string_bytes_app a b : string_bytes (a +:+ b) = string_bytes a ++ string_bytes b.
Proof.
  unfold string_bytes. rewrite <- map_app. f_equal. induction a as [|c a IH]; [done|]. exact (f_equal (cons c) IH).
Qed.

Lemma bytes_string_app a b : bytes_string (a ++ b) = bytes_string a +:+ bytes_string b.
Proof. unfold bytes_string. rewrite map_app. induction (map Z_byte a) as [|c l IH]; [done|]. exact (f_equal (String.String c) IH). Qed.

Lemma len_bytes s : len s = Z.of_nat (length (string_bytes s)).
Proof. unfold len, string_bytes. rewrite length_map. f_equal. induction s as [|c s IH]; [done|]. exact (f_equal S IH). Qed.

(** The ellipsis, one code point of three bytes. *)
Lemma ellipsis : string_bytes "…" = utf8_encode 8230 ∧ rune_ok 8230.
Proof. split; [reflexivity|]. split; [|simpl; lia]. intros rest. by split. Qed.

Lemma runes_text rs : Forall rune_ok rs → Forall is_byte (flat_map utf8_encode rs) →
  ValidUtf8 (string_of_runes rs) = true ∧ runes (string_of_runes rs) = rs ∧ string_bytes (string_of_runes rs) = flat_map utf8_encode rs.
Proof.
  intros Hr Hb. unfold ValidUtf8, runes. rewrite (rune_ok_bytes rs Hr Hb). destruct (good_valid rs Hr (length (flat_map utf8_encode rs)) (le_n _)) as [H1 H2]. done.
Qed.

(** A text of at most fifty code points is shown as it is, a longer one as its first fifty and an ellipsis; no code point is split. *)
Lemma preview_text s : ValidUtf8 s = true → let p := Body_Preview (mkBody Text s "" "" "") in
  ValidUtf8 p = true ∧ len p ≤ 203 ∧
  (if (PreviewMaxRunes <? length (runes s))%nat
   then ∃ cut rest, s = cut +:+ rest ∧ runes cut = firstn PreviewMaxRunes (runes s) ∧ p = cut +:+ "…"
   else p = s).
Proof.
  intros Hv. pose proof (string_bytes_byte s) as Hb. destruct (valid_runes _ _ Hb Hv) as [E Hr]. fold (runes s) in E, Hr. change (Forall rune_ok (runes s)) in Hr.
  cbn zeta. unfold Body_Preview. cbn [Bd_Type Bd_Text]. change (Text =? Text) with true. cbn iota. destruct (Nat.ltb_spec PreviewMaxRunes (length (runes s))) as [Hl|Hl].
  - set (pre := firstn PreviewMaxRunes (runes s)). assert (Forall rune_ok pre) as Hp by (by apply Forall_take).
    rewrite <- (firstn_skipn PreviewMaxRunes (runes s)) in E. fold pre in E. rewrite flat_map_app in E.
    assert (Forall is_byte (flat_map utf8_encode pre)) as Hpb by (rewrite <- E in Hb; by apply Forall_app in Hb as [? _]).
    destruct (runes_text pre Hp Hpb) as (_ & R2 & R3). destruct ellipsis as [Ee Hok].
    assert (string_of_runes pre +:+ "…" = string_of_runes (pre ++ [8230])) as Ep.
    { rewrite <- (bytes_string_of (string_of_runes pre +:+ "…")), string_bytes_app, R3, Ee. unfold string_of_runes. by rewrite flat_map_app. }
    destruct (runes_text (pre ++ [8230])) as (V1 & _ & V3); [apply Forall_app; split; [done|by repeat constructor]|rewrite flat_map_app; apply Forall_app; split; [done|by repeat constructor]|].
    rewrite Ep. split_and!; [done| |].
    + rewrite len_bytes, V3, flat_map_app, length_app. pose proof (flat_map_length_le pre PreviewMaxRunes Hp) as H. unfold PreviewMaxRunes in H.
      specialize (H ltac:(unfold pre, PreviewMaxRunes; rewrite length_firstn; lia)). simpl length at 2. lia.
    + exists (string_of_runes pre), (string_of_runes (skipn PreviewMaxRunes (runes s))). split_and!; [|done|done].
      etransitivity; [symmetry; apply bytes_string_of|]. rewrite <- E. apply bytes_string_app.
  - split_and!; [done| |done]. rewrite len_bytes, <- E. pose proof (flat_map_length_le (runes s) PreviewMaxRunes Hr Hl) as H. unfold PreviewMaxRunes in H. lia.
Qed.

Section Previews.
Context `{BL : BodyLib}.

(** What a notification shows is well-formed and at most 203 bytes, whatever was sent; only text shows any of the content. *)
Lemma preview_bounded t raw :
  (∀ w, UnmarshalWire raw = Ok w → ValidUtf8 (Wr_Text w) = true) →
  ValidUtf8 (Preview t raw) = true ∧ len (Preview t raw) ≤ 203 ∧
  (t ≠ Text → Preview t raw ∈ [""; "[图片]"; "[视频]"; "[语音]"; "[文件]"]%string) ∧
  (∀ w, t = Text → UnmarshalWire raw = Ok w → Preview t raw = Body_Preview (mkBody Text (Wr_Text w) "" "" "")).
Proof.
  intros Hw. destruct (decide (t = Text)) as [->|Ht].
  - unfold Preview, Parse. cbn. destruct (UnmarshalWire raw) as [w|e]; [|by split_and!]. destruct (preview_text (Wr_Text w) (Hw w eq_refl)) as (H1 & H2 & _).
    split_and!; [done|done|done|]. by intros w' _ [= <-].
  - assert (Preview t raw ∈ [""; "[图片]"; "[视频]"; "[语音]"; "[文件]"]%string) as Hin.
    { unfold Preview, Parse. destruct (negb (ValidType t)); [left|]. destruct (t =? Custom); [destruct (IsValid raw); cbn; [|left]|].
      - unfold Body_Preview. cbn. destruct (Z.eqb_spec t Text); [done|]. repeat case_match; set_solver.
      - destruct (UnmarshalWire raw) as [w|]; [|left]. destruct (Z.eqb_spec t Text); [done|].
        unfold Body_Preview. repeat case_match; cbn in *; try done; set_solver. }
    split_and!; [| |done|done]; repeat (apply elem_of_cons in Hin as [->|Hin]; [vm_compute; (reflexivity || discriminate)|]); by apply not_elem_of_nil in Hin.
Qed.

(** A push is posted at most once, signed over what is posted, and succeeds exactly when the receiver answered with a 2xx status. *)
Lemma push_once w marshal unix exchange userIds n ps e :
  Push w marshal unix exchange userIds n = (ps, e) →
  (length ps ≤ 1)%nat ∧
  (∀ p, p ∈ ps → Po_Url p = Wh_url w ∧ Po_Signature p = Sign (Wh_secret w) (Po_Timestamp p) (Po_Body p) ∧
     marshal (mkWebhookBody (EventId n) userIds n (Notification_Preview n)) = Ok (Po_Body p)) ∧
  (e = None ↔ ∃ p status, ps = [p] ∧ exchange p = Ok status ∧ 200 ≤ status < 300).
Proof.
  unfold Push. destruct (marshal _) as [body|x] eqn:Em; [|intros [= <- <-]; split_and!; [simpl; lia|by intros p ?%not_elem_of_nil|split; [done|by intros (? & ? & [=] & _)]]].
  set (p := mkPost _ _ _ _). destruct (exchange p) as [status|x] eqn:Ex; intros [= <- <-]; (split_and!; [simpl; lia|by intros p' ->%list_elem_of_singleton|]).
  - destruct (Z.eqb_spec (Z.quot status 100) 2) as [E|E]; simpl; split; try done; [intros _; exists p, status; split_and!; [done..| |]; Z.to_euclidean_division_equations; lia|].
    intros (p' & s' & [= <-] & Hx & Hs). rewrite Ex in Hx. injection Hx as <-. destruct E. Z.to_euclidean_division_equations; lia.
  - split; [done|]. intros (p' & s' & [= <-] & Hx & _). congruence.
Qed.
End Previews.

Example long_text :
  let text := String.concat "" (replicate 51 "好")%string in
  Body_Preview (mkBody Text text "" "" "") = (String.concat "" (replicate 50 "好") +:+ "…")%string ∧ len (Body_Preview (mkBody Text text "" "" "")) = 153.
Proof. split; vm_compute; reflexivity. Qed.
