(* ===== verification/LoadTool.v ===== *)
(** * The load test ([deploy/load])

    The load test runs pairs of users on different nodes, plans messages from one user of a pair to the other, records what was acknowledged
    and pushed, and at the end pulls every conversation as both of its users. This file holds its options, the records, the frames it
    reads, the verification and the report. The answers of the nodes are arguments, the parsers of JSON and of URLs parameters.
    Each function under a pair's mutex is one step. Latencies, the rates and the table of links of the report are left out, and so
    are the arguments in the text of an error. *)

From Stdlib Require Import SpecFloat.
From S2P Require Import Prelude Errcode Strconv Identity Json Store PgStore Conv Conc RateLimit World ConvPage MessageSvc Cache Sha256 Auth.
From S2P Require Import Http.

Local Open Scope Z_scope.

Module Load.

(** ** float64 *)

Abbreviation float64 := spec_float.

Definition float_of (n : Z) : float64 := binary_normalize 53 1024 n 0 false.

Definition fmul : float64 → float64 → float64 := SFmul 53 1024.
Definition fadd : float64 → float64 → float64 := SFadd 53 1024.
Definition fdiv : float64 → float64 → float64 := SFdiv 53 1024.

Definition IsNaN (x : float64) : bool := match x with S754_nan => true | _ => false end.
Definition IsInf (x : float64) : bool := match x with S754_infinity _ => true | _ => false end.

(** [int(x)], for the numbers an [int] can hold. *)
Definition int_of (x : float64) : Z :=
  match x with
  | S754_finite s m e => let a := if 0 <=? e then Z.pos m * 2 ^ e else Z.pos m / 2 ^ (- e) in if s then - a else a
  | _ => 0
  end.

Definition Seconds (d : Z) : float64 := fadd (float_of (Z.quot d Second)) (fdiv (float_of (Z.rem d Second)) (float_of 1000000000)).

(** ** Options *)

Record options := mkOptions {
  o_nodes : list string; o_users : Z; o_active : Z; o_rate : float64; o_duration : Z; o_ramp : Z; o_settle : Z; o_timeout : Z; o_workers : Z;
  o_disposable : bool; o_allowMissedPush : bool }.

Record URL := mkURL { u_Scheme : string; u_Host : string; u_User : bool; u_Path : string; u_RawQuery : string; u_Fragment : string }.

(** [url.Parse] and the text a URL prints as. *)
Class UrlLib := { url_Parse : string → option URL; url_String : URL → string }.

Section Validate.
Context `{UL : UrlLib}.

Fixpoint validateNodes (seen : list string) (nodes : list string) : err :=
  match nodes with
  | [] => None
  | raw :: nodes =>
      match url_Parse raw with
      | None => Some (EOther "nodes must be comma-separated direct http(s) node URLs")
      | Some u =>
          if (u_Host u =? "")%string || (negb (u_Scheme u =? "http")%string && negb (u_Scheme u =? "https")%string) then
            Some (EOther "nodes must be comma-separated direct http(s) node URLs")
          else if u_User u || negb (u_RawQuery u =? "")%string || negb (u_Fragment u =? "")%string || negb (u_Path u =? "")%string ||
                  in_list (url_String u) seen then
            Some (EOther "node URLs must be distinct origins without credentials, paths, query or fragment")
          else validateNodes (url_String u :: seen) nodes
      end
  end.

Definition validate (o : options) : err :=
  let n := fmul (Seconds (o_duration o)) (o_rate o) in
  if negb (o_disposable o) then Some (EOther "-disposable is required")
  else if (Z.of_nat (length (o_nodes o)) <? 2) || (o_users o <? 2) || negb (Z.rem (o_users o) 2 =? 0) || (o_active o <? 1) || (o_users o <? o_active o) then
    Some (EOther "need at least 2 distinct nodes, an even -users >= 2, and 1 <= -active <= -users")
  else if SFleb (o_rate o) (float_of 0) || IsNaN (o_rate o) || IsInf (o_rate o) || SFltb (float_of 1000) (o_rate o) then
    Some (EOther "-rate must be finite and in (0, 1000]")
  else if (o_duration o <=? 0) || (o_ramp o <? 0) || (o_settle o <? 0) || (o_timeout o <=? 0) || (o_workers o <? 1) then
    Some (EOther "duration, timeout and workers must be positive; ramp and settle must be nonnegative")
  else if SFltb n (float_of 1) || SFltb (float_of 1000000) n then Some (EOther "duration * rate must yield 1..1000000 messages per active user")
  else validateNodes [] (o_nodes o).
End Validate.

(** The node a user connects to. *)
Definition nodeFor (user nodes : nat) : nat :=
  let pair := (user / 2)%nat in
  let left := (pair mod nodes)%nat in
  if (user mod 2 =? 0)%nat then left else ((left + 1 + (pair / nodes) mod (nodes - 1)) mod nodes)%nat.

(** ** State *)

Record identity := mkIdent { id_serverMsgId : string; id_seq : Z; id_sendTime : Z }.

#[export] Instance identity_eq_dec : EqDecision identity.
Proof. solve_decision. Defined.

(** [rc_started] says whether the time is set; [rc_pulled] has one bit for each participant's view. *)
Record record := mkRecord {
  rc_started : bool; rc_ack : identity; rc_push : identity; rc_written : bool; rc_ackSeen : bool; rc_pushSeen : bool; rc_pulled : Z }.

Definition fresh : record := mkRecord false (mkIdent "" 0 0) (mkIdent "" 0 0) false false false 0.

(** [p_ready] is a channel of capacity one. *)
Record participant := mkParticipant { p_id : string; p_token : string; p_node : nat; p_ready : option err; p_records : list record }.

Record runner := mkRunner {
  r_opts : options; r_runId : string; r_users : list participant; r_closing : bool; r_frozen : bool; r_connected : Z; r_sent : Z; r_acked : Z; r_pushed : Z;
  r_disconnect : Z; r_resync : Z; r_errors : Z; r_samples : list string }.

(** The counters that are only ever added to. *)
Inductive counter := KConnected | KSent | KAcked | KPushed | KDisconnect | KResync.

Definition counter_eqb (a b : counter) : bool :=
  match a, b with
  | KConnected, KConnected | KSent, KSent | KAcked, KAcked | KPushed, KPushed | KDisconnect, KDisconnect | KResync, KResync => true
  | _, _ => false
  end.

Definition incr (k : counter) (r : runner) : runner :=
  let n c v := if counter_eqb k c then v + 1 else v in
  mkRunner (r_opts r) (r_runId r) (r_users r) (r_closing r) (r_frozen r) (n KConnected (r_connected r)) (n KSent (r_sent r)) (n KAcked (r_acked r))
    (n KPushed (r_pushed r)) (n KDisconnect (r_disconnect r)) (n KResync (r_resync r)) (r_errors r) (r_samples r).

Definition set_users (f : list participant → list participant) (r : runner) : runner :=
  mkRunner (r_opts r) (r_runId r) (f (r_users r)) (r_closing r) (r_frozen r) (r_connected r) (r_sent r) (r_acked r) (r_pushed r) (r_disconnect r) (r_resync r)
    (r_errors r) (r_samples r).

Definition freeze (r : runner) : runner :=
  mkRunner (r_opts r) (r_runId r) (r_users r) (r_closing r) true (r_connected r) (r_sent r) (r_acked r) (r_pushed r) (r_disconnect r) (r_resync r)
    (r_errors r) (r_samples r).

Definition close (r : runner) : runner :=
  mkRunner (r_opts r) (r_runId r) (r_users r) true (r_frozen r) (r_connected r) (r_sent r) (r_acked r) (r_pushed r) (r_disconnect r) (r_resync r)
    (r_errors r) (r_samples r).

(** The first twenty errors are kept. *)
Definition fail (what : string) (r : runner) : runner :=
  mkRunner (r_opts r) (r_runId r) (r_users r) (r_closing r) (r_frozen r) (r_connected r) (r_sent r) (r_acked r) (r_pushed r) (r_disconnect r) (r_resync r)
    (r_errors r + 1) (if (length (r_samples r) <? 20)%nat then r_samples r ++ [what] else r_samples r).

Definition newRunner (o : options) (runId : string) : runner :=
  mkRunner o runId
    (map (λ i, mkParticipant "" "" (nodeFor i (length (o_nodes o))) None
                 (if Z.of_nat i <? o_active o then replicate (Z.to_nat (int_of (fmul (Seconds (o_duration o)) (o_rate o)))) fresh else []))
       (seq 0 (Z.to_nat (o_users o))))
    false false 0 0 0 0 0 0 0 [].

Definition user (r : runner) (i : nat) : participant := default (mkParticipant "" "" 0 None []) (r_users r !! i).

(** The other user of a pair. *)
Definition peer (i : nat) : nat := Nat.lxor i 1.

Definition set_record (i j : nat) (rec : record) : runner → runner :=
  set_users (alter (λ u, mkParticipant (p_id u) (p_token u) (p_node u) (p_ready u) (<[j := rec]> (p_records u))) i).

Definition set_ready (i : nat) (x : option err) : runner → runner :=
  set_users (alter (λ u, mkParticipant (p_id u) (p_token u) (p_node u) x (p_records u)) i).

Definition set_identity (i : nat) (id token : string) : runner → runner :=
  set_users (alter (λ u, mkParticipant id token (p_node u) (p_ready u) (p_records u)) i).

(** ** Messages and their ids *)

Definition identityOf (a : Ack) : identity := mkIdent (Ack_ServerMsgId a) (Ack_Seq a) (Ack_SendTime a).

Definition messageIdentity (m : DtoMessage) : identity := mkIdent (D_ServerMsgId m) (D_Seq m) (D_SendTime m).

Definition validIdentity (i : identity) : bool := negb (id_serverMsgId i =? "")%string && (0 <? id_seq i) && (0 <? id_sendTime i).

Definition messageId (r : runner) (i j : nat) : string := r_runId r +:+ ":" +:+ FormatInt (Z.of_nat i) +:+ ":" +:+ FormatInt (Z.of_nat j).

Definition quoted (s : string) : string := String.String dquote (s +:+ String.String dquote "").

Definition content (r : runner) (i j : nat) : string := "{" +:+ quoted "text" +:+ ":" +:+ quoted (messageId r i j) +:+ "}".

(** [min] and [max] of the two ids. *)
Definition conversation (r : runner) (i : nat) : string := Single (p_id (user r i)) (p_id (user r (peer i))).

Definition locate (r : runner) (id : string) : result (nat * nat) :=
  match CutPrefix id (r_runId r +:+ ":") with
  | None => Err (EOther "unknown run in client_msg_id")
  | Some tail =>
      match Cut tail ":"%char with
      | None => Err (EOther "invalid sender in client_msg_id")
      | Some (l, r0) =>
          match ParseInt l, ParseInt r0 with
          | Some i, Some j =>
              if (i <? 0) || (o_active (r_opts r) <=? i) then Err (EOther "invalid sender in client_msg_id")
              else if (j <? 0) || (Z.of_nat (length (p_records (user r (Z.to_nat i)))) <=? j) || negb (id =? messageId r (Z.to_nat i) (Z.to_nat j))%string
              then Err (EOther "invalid ordinal in client_msg_id")
              else Ok (Z.to_nat i, Z.to_nat j)
          | _, _ => Err (EOther "invalid sender in client_msg_id")
          end
      end
  end.

Definition checkMessage (r : runner) (m : DtoMessage) : result (nat * nat) :=
  match locate r (D_ClientMsgId m) with
  | Err e => Err e
  | Ok (i, j) =>
      let correctRoute := (D_SenderId m =? p_id (user r i))%string && (D_RecvId m =? p_id (user r (peer i)))%string &&
                          (D_ConversationId m =? conversation r i)%string in
      let correctBody := (D_ContentType m =? 1) && (D_Content m =? content r i j)%string in
      if negb correctRoute || negb correctBody || negb (D_SessionType m =? ConversationSingle) || negb (D_GroupId m =? "")%string ||
         negb (validIdentity (messageIdentity m))
      then Err (EOther "message route, body or identity differs from send request")
      else Ok (i, j)
  end.

(** ** Setting up ([wire.go]) *)

(** [provision]: what registering and logging in answered, the user's id, then the session's with its token. *)
Definition provision (i : nat) (profile : result string) (session : result (string * string)) (r : runner) : err * runner :=
  match profile with
  | Err e => (Some (EWrap "register" e), r)
  | Ok uid =>
      match session with
      | Err e => (Some (EWrap "login" e), r)
      | Ok (sid, token) =>
          if (uid =? "")%string || (token =? "")%string || negb (sid =? uid)%string then (Some (EOther "register/login identity mismatch"), r)
          else (None, set_identity i sid token r)
      end
  end.

(** A send on [ready] with a default case: whether there was room. *)
Definition offer_ready (i : nat) (e : err) (r : runner) : bool * runner :=
  match p_ready (user r i) with None => (true, set_ready i (Some e) r) | Some _ => (false, r) end.

(** The end of [connect]: an error before or while waiting, or the readiness answer. *)
Definition connectEnd (i : nat) (outside : err) (r : runner) : option (err * runner) :=
  match outside with
  | Some e => Some (Some e, r)
  | None =>
      match p_ready (user r i) with
      | None => None
      | Some (Some e) => Some (Some e, set_ready i None r)
      | Some None => Some (None, incr KConnected (set_ready i None r))
      end
  end.

(** ** Sending *)

(** [send] up to the write: the record is started unless the window is over. *)
Definition sendStart (i j : nat) (expired : bool) (r : runner) : err * runner :=
  if expired then (Some (EOther "send window expired"), r)
  else match p_records (user r i) !! j with
       | None => (Some (EOther "index out of range"), r)
       | Some rec => (None, set_record i j (mkRecord true (rc_ack rec) (rc_push rec) (rc_written rec) (rc_ackSeen rec) (rc_pushSeen rec) (rc_pulled rec)) r)
       end.

(** [send] after a write that succeeded. *)
Definition sendEnd (i j : nat) (r : runner) : runner :=
  match p_records (user r i) !! j with
  | None => r
  | Some rec => incr KSent (set_record i j (mkRecord (rc_started rec) (rc_ack rec) (rc_push rec) true (rc_ackSeen rec) (rc_pushSeen rec) (rc_pulled rec)) r)
  end.

(** ** Receiving *)

Record frame := mkFrame { f_ReqId : Z; f_OpId : string; f_Code : option Z; f_Data : string }.

(** [encoding/json] on the frames and their data. *)
Class FrameLib := {
  Unmarshal_frame : string → option frame;
  Unmarshal_maxSeqs : string → option MaxSeqsResult;
  Unmarshal_ack : string → option Ack;
  Unmarshal_message : string → option DtoMessage }.

Section Receive.
Context `{FL : FrameLib}.

Definition code_ok (f : frame) : bool := match f_Code f with Some c => c =? 0 | None => false end.

Definition receiveReady (u : nat) (f : frame) (r : runner) : runner :=
  let bad := Some (EOther "invalid readiness response; fresh account must have no conversations") in
  let e := if code_ok f then match Unmarshal_maxSeqs (f_Data f) with Some q => if (length (MSR_Items q) =? 0)%nat then None else bad | None => bad end else bad in
  let '(sent, r) := offer_ready u e r in
  if sent then r else fail "duplicate readiness response" r.

Definition receiveAck (u : nat) (f : frame) (r : runner) : runner :=
  match locate r (f_OpId f) with
  | Err _ => fail "ACK op_id mismatch" r
  | Ok (i, j) =>
      if negb (i =? u)%nat then fail "ACK op_id mismatch" r
      else
        match (if code_ok f then Unmarshal_ack (f_Data f) else None) with
        | None => fail "invalid/error ACK" r
        | Some ack =>
            match p_records (user r i) !! j with
            | None => r
            | Some rec =>
                if negb (rc_started rec) || negb (Ack_ConversationId ack =? conversation r i)%string || negb (validIdentity (identityOf ack)) then
                  fail "ACK identity mismatch" r
                else if rc_ackSeen rec then fail "duplicate ACK" r
                else incr KAcked (set_record i j (mkRecord (rc_started rec) (identityOf ack) (rc_push rec) (rc_written rec) true (rc_pushSeen rec) (rc_pulled rec)) r)
            end
        end
  end.

Definition receivePush (u : nat) (f : frame) (r : runner) : runner :=
  match Unmarshal_message (f_Data f) with
  | None => fail "invalid push JSON" r
  | Some msg =>
      match checkMessage r msg with
      | Err _ => fail "push content/recipient mismatch" r
      | Ok (i, j) =>
          if negb (peer i =? u)%nat then fail "push content/recipient mismatch" r
          else
            match p_records (user r i) !! j with
            | None => r
            | Some rec =>
                if negb (rc_started rec) || rc_pushSeen rec then fail "unsent/duplicate push" r
                else incr KPushed (set_record i j (mkRecord (rc_started rec) (rc_ack rec) (messageIdentity msg) (rc_written rec) (rc_ackSeen rec) true (rc_pulled rec)) r)
            end
      end
  end.

Definition receive (u : nat) (raw : string) (r : runner) : runner :=
  match Unmarshal_frame raw with
  | None => fail "invalid WS JSON" r
  | Some f =>
      if (f_ReqId f =? 1001) && (f_OpId f =? "ready")%string then receiveReady u f r
      else if f_ReqId f =? 2002 then fail "unexpected kick" r
      else if f_ReqId f =? 2004 then incr KResync r
      else if f_ReqId f =? 2003 then r
      else if r_frozen r then r
      else if f_ReqId f =? 1003 then receiveAck u f r
      else if f_ReqId f =? 2001 then receivePush u f r
      else fail "unexpected req_id" r
  end.

(** What a read returned: an error, a text frame, or another frame. *)
Inductive incoming := InError | InText (raw : string) | InOther.

(** One round of the reader of a connection. *)
Definition readerStep (u : nat) (x : incoming) (r : runner) : runner :=
  match x with
  | InError =>
      let r := if r_closing r then r else fail "disconnect" (incr KDisconnect r) in
      (offer_ready u (Some (EOther "connection closed")) r).2
  | InText raw => receive u raw r
  | InOther => fail "non-text WS frame" r
  end.
End Receive.

(** ** Verification ([verify.go]) *)

Definition viewBit (viewer : nat) : Z := Z.shiftl 1 (Z.of_nat (viewer mod 2)).

Definition mark (bit : Z) (rec : record) : record :=
  mkRecord (rc_started rec) (rc_ack rec) (rc_push rec) (rc_written rec) (rc_ackSeen rec) (rc_pushSeen rec) (Z.lor (rc_pulled rec) bit).

Definition verifyStored (viewer : nat) (msg : DtoMessage) (r : runner) : err * runner :=
  match checkMessage r msg with
  | Err e => (Some e, r)
  | Ok (i, j) =>
      if negb (i / 2 =? viewer / 2)%nat then (Some (EOther "message belongs to another pair"), r)
      else
        match p_records (user r i) !! j with
        | None => (Some (EOther "index out of range"), r)
        | Some rec =>
            let bit := viewBit viewer in
            let id := messageIdentity msg in
            if negb (rc_started rec) || negb (Z.land (rc_pulled rec) bit =? 0) then (Some (EOther "unsent/duplicate persisted message"), r)
            else if rc_ackSeen rec && negb (bool_decide (rc_ack rec = id)) then (Some (EOther "persisted message differs from ACK"), r)
            else if rc_pushSeen rec && negb (bool_decide (rc_push rec = id)) then (Some (EOther "persisted message differs from push"), r)
            else (None, set_record i j (mark bit rec) r)
        end
  end.

(** One page of [verifyView]: the next seq, or an error. *)
Fixpoint verifyPage (viewer : nat) (total next : Z) (ms : list DtoMessage) (r : runner) : (Z + error) * runner :=
  match ms with
  | [] => (inl next, r)
  | m :: ms =>
      if negb (D_Seq m =? next) || (total <? next) then (inr (EOther "seq gap/duplicate/extra"), r)
      else
        match verifyStored viewer m r with
        | (Some e, r) => (inr e, r)
        | (None, r) => verifyPage viewer total (next + 1) ms r
        end
  end.

(** The pages from [next] on; [pull n next] is the answer to the [n]-th request. [None] when the fuel is too small. *)
Fixpoint verifyPages (fuel : nat) (pull : nat → Z → result PullResult) (n viewer : nat) (total next : Z) (r : runner) : option ((Z + error) * runner) :=
  match fuel with
  | O => None
  | S fuel =>
      match pull n next with
      | Err e => Some (inr e, r)
      | Ok page =>
          if (length (PR_Messages page) =? 0)%nat && PR_HasMore page then Some (inr (EOther "empty page with has_more"), r)
          else
            match verifyPage viewer total next (PR_Messages page) r with
            | (inr e, r) => Some (inr e, r)
            | (inl next, r) => if PR_HasMore page then verifyPages fuel pull (S n) viewer total next r else Some (inl next, r)
            end
      end
  end.

(** What a node answers to one viewer. *)
Record Answers := mkAnswers { an_maxSeqs : result MaxSeqsResult; an_pull : nat → Z → result PullResult }.

Definition singleton_item (q : MaxSeqsResult) : option MaxSeqItem :=
  match MSR_Items q with [x] => if MSR_HasMore q || negb (MSR_NextCursor q =? "")%string then None else Some x | _ => None end.

(** [next] counts the messages too: [got] is [next - 1]. *)
Definition verifyView (fuel : nat) (a : Answers) (viewer : nat) (total : Z) (r : runner) : option (err * runner) :=
  match an_maxSeqs a with
  | Err e => Some (Some e, r)
  | Ok q =>
      if total =? 0 then
        Some (if negb (length (MSR_Items q) =? 0)%nat || MSR_HasMore q || negb (MSR_NextCursor q =? "")%string
              then (Some (EOther "idle user has unexpected persisted conversations"), r) else (None, r))
      else
        match singleton_item q with
        | None => Some (Some (EOther "expected exactly one new conversation"), r)
        | Some item =>
            let r := if negb (MS_ConversationId item =? conversation r viewer)%string || negb (MS_MaxSeq item =? total) || negb (MS_MinSeq item =? 1)
                     then fail "max_seq/visibility mismatch" r else r in
            match verifyPages fuel (an_pull a) 0 viewer total 1 r with
            | None => None
            | Some (inr e, r) => Some (Some e, r)
            | Some (inl next, r) => Some (if negb (next - 1 =? total) then (Some (EOther "persisted message count"), r) else (None, r))
            end
        end
  end.

(** The messages planned in a pair. *)
Definition planned (r : runner) (pair : nat) : nat := (length (p_records (user r (2 * pair))) + length (p_records (user r (2 * pair + 1))))%nat.

Definition view_fuel (total : nat) : nat := S (S total).

(** [verifyPair]: a view that fails is reported, a cancelled context ends it; [live] says whether the context still is at each view. *)
Definition verify_side (live : bool) (a : Answers) (viewer total : nat) (r : runner) : option (err * runner) :=
  if negb live then Some (Some (EOther "context canceled"), r)
  else match verifyView (view_fuel total) a viewer (Z.of_nat total) r with
       | None => None
       | Some (Some _, r) => Some (None, fail "pull verification" r)
       | Some (None, r) => Some (None, r)
       end.

Definition verifyPair (live0 live1 : bool) (a0 a1 : Answers) (pair : nat) (r : runner) : option (err * runner) :=
  let total := planned r pair in
  match verify_side live0 a0 (2 * pair) total r with
  | Some (None, r) => verify_side live1 a1 (2 * pair + 1) total r
  | x => x
  end.

(** ** The report *)

Record loadReport := mkReport {
  lr_Planned : nat; lr_Sent : nat; lr_Acked : nat; lr_Received : nat; lr_Verified : nat; lr_RecoveredByPull : nat; lr_IdentityMismatches : nat;
  lr_DuplicateServerIds : nat; lr_MissingAck : Z; lr_MissingPush : Z; lr_Unverified : Z; lr_Errors : Z; lr_ErrorSamples : list string; lr_OmittedErrors : Z;
  lr_Passed : bool }.

Definition all_records (r : runner) : list record := flat_map p_records (r_users r).

Definition count (f : record → bool) (l : list record) : nat := length (List.filter f l).

(** The acknowledged server ids that were seen before. *)
Fixpoint duplicates (seen : list string) (l : list record) : nat :=
  match l with
  | [] => 0
  | rec :: l =>
      if rc_ackSeen rec then
        let id := id_serverMsgId (rc_ack rec) in ((if in_list id seen then 1 else 0) + duplicates (id :: seen) l)%nat
      else duplicates seen l
  end.

Definition mismatched (x : record) : bool := rc_ackSeen x && rc_pushSeen x && negb (bool_decide (rc_ack x = rc_push x)).

Definition report (r : runner) : loadReport :=
  let recs := all_records r in
  let planned := length recs in
  let sent := count rc_written recs in
  let acked := count rc_ackSeen recs in
  let received := count rc_pushSeen recs in
  let verified := count (λ x, rc_pulled x =? 3) recs in
  let mismatches := count mismatched recs in
  let dup := duplicates [] recs in
  let missingAck := Z.of_nat planned - Z.of_nat acked in
  let missingPush := Z.of_nat planned - Z.of_nat received in
  let unverified := Z.of_nat planned - Z.of_nat verified in
  let complete := (r_connected r =? o_users (r_opts r)) && (sent =? planned)%nat && (missingAck =? 0) && (unverified =? 0) in
  let correct := (r_errors r =? 0) && (mismatches =? 0)%nat && (dup =? 0)%nat && (r_disconnect r =? 0) in
  mkReport planned sent acked received verified (count (λ x, (rc_pulled x =? 3) && negb (rc_pushSeen x)) recs) mismatches dup
    missingAck missingPush unverified (r_errors r) (r_samples r) (r_errors r - Z.of_nat (length (r_samples r)))
    (complete && correct && ((missingPush =? 0) || o_allowMissedPush (r_opts r))).

(** ** Parallel calls ([parallelUsers])

    The workers share a counter; each takes the next index and calls [fn] on it until the context is cancelled, by an error or from
    outside, or the indices are used up. [pl_done] records the calls that returned nil. *)

Inductive worker := WLoop | WTake | WCall (i : nat) | WReturned.

Record pool := mkPool { pl_next : nat; pl_cause : err; pl_workers : list worker; pl_done : list nat }.

Definition newPool (count workers : nat) : pool := mkPool 0 None (replicate (count `min` workers) WLoop) [].

(** One worker moves on; [out] is what its call returned. *)
Definition work (count w : nat) (out : err) (p : pool) : option pool :=
  match pl_workers p !! w with
  | Some WLoop =>
      Some (mkPool (pl_next p) (pl_cause p) (<[w := match pl_cause p with Some _ => WReturned | None => WTake end]> (pl_workers p)) (pl_done p))
  | Some WTake =>
      let i := pl_next p in
      Some (mkPool (S i) (pl_cause p) (<[w := if (count <=? i)%nat then WReturned else WCall i]> (pl_workers p)) (pl_done p))
  | Some (WCall i) =>
      match out with
      | Some e => Some (mkPool (pl_next p) (match pl_cause p with Some c => Some c | None => Some e end) (<[w := WReturned]> (pl_workers p)) (pl_done p))
      | None => Some (mkPool (pl_next p) (pl_cause p) (<[w := WLoop]> (pl_workers p)) (pl_done p ++ [i]))
      end
  | _ => None
  end.

Inductive pool_step (count : nat) : pool → pool → Prop :=
| ps_work w out p p' : work count w out p = Some p' → pool_step count p p'
| ps_cancel e p : pl_cause p = None → pool_step count p (mkPool (pl_next p) (Some e) (pl_workers p) (pl_done p)).

(** [wg.Wait] and the cause of the context. *)
Definition pool_result (p : pool) : option err := if forallb (λ w, match w with WReturned => true | _ => false end) (pl_workers p) then Some (pl_cause p) else None.

(** ** A run ([main.go])

    What happens to the runner, one step after the other: the setup of the users, the senders and the readers of the connections until the
    records are frozen, then the verification of the pairs. *)

Section Run.
Context `{FL : FrameLib}.

Inductive event :=
| EProvision (i : nat) (profile : result string) (session : result (string * string))
| EConnect (i : nat) (outside : err)
| ERead (u : nat) (x : incoming)
| ESendStart (i j : nat) (expired : bool)
| ESendEnd (i j : nat)
| ESendFail
| EVerify (pair : nat) (live0 live1 : bool) (a0 a1 : Answers).

(** A sender that fails is reported; errors of the other calls end the run. [None] when the call does not return. *)
Definition step (e : event) (r : runner) : option (err * runner) :=
  match e with
  | EProvision i profile session => Some (provision i profile session r)
  | EConnect i outside => connectEnd i outside r
  | ERead u x => Some (None, readerStep u x r)
  | ESendStart i j expired => let '(e, r') := sendStart i j expired r in Some (None, match e with Some _ => fail "send" r' | None => r' end)
  | ESendEnd i j => Some (None, sendEnd i j r)
  | ESendFail => Some (None, fail "send" r)
  | EVerify p live0 live1 a0 a1 => verifyPair live0 live1 a0 a1 p r
  end.

Fixpoint steps (es : list event) (r : runner) : option (err * runner) :=
  match es with
  | [] => Some (None, r)
  | e :: es => match step e r with Some (None, r) => steps es r | x => x end
  end.

(** Who acts in which phase. *)
Definition is_verify (e : event) : bool := match e with EVerify _ _ _ _ _ => true | _ => false end.
Definition is_read (e : event) : bool := match e with ERead _ _ => true | _ => false end.

Definition verified_pairs (es : list event) : list nat := flat_map (λ e, match e with EVerify p _ _ _ _ => [p] | _ => [] end) es.

(** [run]: the phases, and every pair verified. Its error, if any, is reported. *)
Definition run (o : options) (runId : string) (load check : list event) : option (err * runner) :=
  match steps load (newRunner o runId) with
  | Some (None, r) => steps check (freeze r)
  | x => x
  end.

(** [main]: the report once the run is over and the connections are closed. *)
Definition main (o : options) (runId : string) (load check : list event) : option loadReport :=
  match run o runId load check with
  | Some (None, r) => Some (report (close r))
  | Some (Some _, r) => Some (report (fail "run incomplete" (close r)))
  | None => None
  end.
End Run.

End Load.
