(* ===== verification/LoadThms.v ===== *)
(** * The load test: what a run that passed has shown

    The verification and the report of [LoadTool]: a run passes only when every planned message was written and acknowledged, and both of its
    users were served it once, in order, as it was acknowledged and pushed. The workers of [parallelUsers] call every index once, and the
    two users of a pair are on different nodes. *)

From Stdlib Require Import SpecFloat.
From S2P Require Import Prelude Errcode Strconv Identity Json Store PgStore Conv Conc RateLimit World ConvPage MessageSvc Cache Sha256 Auth.
From S2P Require Import Http LoadTool.

Local Open Scope Z_scope.

Import Load.

(** ** Counting records *)

Definition seen (bit : Z) (rec : record) : bool := negb (Z.land (rc_pulled rec) bit =? 0).

Definition seen_in (bit : Z) (r : runner) (i : nat) : nat := count (seen bit) (p_records (user r i)).

Lemma count_insert f (l : list record) j x y : l !! j = Some y → f y = false → f x = true → count f (<[j := x]> l) = S (count f l).
Proof.
  intros Hj Hy Hx. revert j Hj. unfold count. induction l as [|z l IH]; intros [|j] Hj; simpl in *; try done.
  - injection Hj as ->. by rewrite Hx, Hy.
  - destruct (f z); simpl; by rewrite (IH j Hj).
Qed.

Lemma count_same f (l : list record) j x y : l !! j = Some y → f x = f y → count f (<[j := x]> l) = count f l.
Proof.
  intros Hj He. revert j Hj. unfold count. induction l as [|z l IH]; intros [|j] Hj; simpl in *; try done.
  - injection Hj as ->. rewrite He. by destruct (f y).
  - destruct (f z); simpl; by rewrite (IH j Hj).
Qed.

Lemma count_le f l : (count f l ≤ length l)%nat.
Proof. unfold count. induction l as [|x l IH]; simpl; [lia|]. destruct (f x); simpl; lia. Qed.

Lemma count_all f l : count f l = length l → Forall (λ x, f x = true) l.
Proof.
  induction l as [|x l IH]; unfold count in *; simpl; [constructor|]. pose proof (count_le f l) as Hl. unfold count in Hl.
  destruct (f x) eqn:E; simpl; [intros [= H]; constructor; auto|lia].
Qed.

(** What a record is apart from who has seen it. *)
Definition bare (rec : record) : record := mkRecord (rc_started rec) (rc_ack rec) (rc_push rec) (rc_written rec) (rc_ackSeen rec) (rc_pushSeen rec) 0.

(** The two runners plan the same messages and know the same about them. *)
Definition alike (r r' : runner) : Prop :=
  r_runId r' = r_runId r ∧ r_opts r' = r_opts r ∧
  ∀ i, p_id (user r' i) = p_id (user r i) ∧ map bare (p_records (user r' i)) = map bare (p_records (user r i)).

#[export] Instance alike_equiv : Equivalence alike.
Proof.
  split.
  - by intros r.
  - intros r r' (H1 & H2 & H3). split_and!; [done..|]. intros i. destruct (H3 i). done.
  - intros r1 r2 r3 (H1 & H2 & H3) (G1 & G2 & G3). split_and!; [congruence..|]. intros i. destruct (H3 i), (G3 i). split; congruence.
Qed.

Lemma alike_length r r' i : alike r r' → length (p_records (user r' i)) = length (p_records (user r i)).
Proof. intros (_ & _ & H). destruct (H i) as [_ E]. apply (f_equal length) in E. by rewrite !length_map in E. Qed.

Lemma alike_check r r' m : alike r r' → checkMessage r' m = checkMessage r m.
Proof.
  intros Ha. pose proof (alike_length r r') as Hl. destruct Ha as (H1 & H2 & H3).
  assert (∀ i, p_id (user r' i) = p_id (user r i)) as Hid by (intros i; apply H3).
  assert (∀ i j, messageId r' i j = messageId r i j) as Hm by (intros i j; unfold messageId; by rewrite H1).
  assert (∀ i, length (p_records (user r' i)) = length (p_records (user r i))) as Hlen by (intros i; apply Hl; done).
  unfold checkMessage. assert (locate r' (D_ClientMsgId m) = locate r (D_ClientMsgId m)) as ->.
  { unfold locate. rewrite H1, H2. destruct (CutPrefix _ _); [|done]. destruct (Cut _ _) as [[]|]; [|done]. destruct (ParseInt _); [|done]. destruct (ParseInt _); [|done].
    by rewrite Hlen, Hm. }
  destruct (locate r _) as [[i j]|]; [|done]. unfold conversation, content. by rewrite !Hid, Hm.
Qed.

Lemma user_set i j rec r k :
  user (set_record i j rec r) k = if decide (k = i) then mkParticipant (p_id (user r i)) (p_token (user r i)) (p_node (user r i)) (p_ready (user r i)) (<[j := rec]> (p_records (user r i))) else user r k.
Proof.
  unfold user, set_record, set_users. simpl. destruct (decide (k = i)) as [->|Hn]; [|by rewrite list_lookup_alter_ne].
  rewrite list_lookup_alter_eq. destruct (r_users r !! i); [done|]. simpl. by rewrite list_insert_ge by (simpl; lia).
Qed.

Lemma alike_mark i j rec bit r : p_records (user r i) !! j = Some rec → alike r (set_record i j (mark bit rec) r).
Proof.
  intros Hj. split_and!; [done..|]. intros k. rewrite user_set. destruct (decide (k = i)) as [->|]; [|done]. simpl. split; [done|].
  rewrite list_fmap_insert. apply list_insert_id. by rewrite list_lookup_fmap, Hj.
Qed.

(** A message that belongs to one record of the pair, and agrees with what was acknowledged and pushed. *)
Definition stored (r : runner) (viewer : nat) (m : DtoMessage) (i j : nat) : Prop :=
  checkMessage r m = Ok (i, j) ∧ (i / 2 = viewer / 2)%nat ∧ ∃ rec, p_records (user r i) !! j = Some rec ∧
    rc_started rec = true ∧ (rc_ackSeen rec = true → rc_ack rec = messageIdentity m) ∧ (rc_pushSeen rec = true → rc_push rec = messageIdentity m).

Lemma alike_stored r r' viewer m i j : alike r r' → stored r' viewer m i j → stored r viewer m i j.
Proof.
  intros Ha (H1 & H2 & rec & H3 & H4). rewrite (alike_check _ _ _ Ha) in H1. split_and!; [done..|]. destruct Ha as (_ & _ & Hb). destruct (Hb i) as [_ E].
  apply (f_equal (λ l, l !! j)) in E. rewrite !list_lookup_fmap, H3 in E. destruct (p_records (user r i) !! j) as [x|]; [|done]. exists x. split; [done|].
  simpl in E. injection E as E1 E2 E3 _ E5 E6. rewrite <- E1, <- E2, <- E3, <- E5, <- E6. done.
Qed.

Definition pairSeen (bit : Z) (r : runner) (pair : nat) : nat := (seen_in bit r (2 * pair) + seen_in bit r (2 * pair + 1))%nat.

(** What the messages accepted for a viewer leave behind: each marked one record, and every mark is from one of them. *)
Record accepted (viewer : nat) (ms : list DtoMessage) (r r' : runner) : Prop := {
  ac_alike : alike r r';
  ac_errors : r_errors r' = r_errors r;
  ac_frozen : r_frozen r' = r_frozen r;
  ac_count : pairSeen (viewBit viewer) r' (viewer / 2) = (pairSeen (viewBit viewer) r (viewer / 2) + length ms)%nat;
  ac_bits i j rec' : p_records (user r' i) !! j = Some rec' →
    ∃ rec, p_records (user r i) !! j = Some rec ∧
      (rc_pulled rec' = rc_pulled rec ∨ rc_pulled rec' = Z.lor (rc_pulled rec) (viewBit viewer) ∧
         ∃ m, m ∈ ms ∧ stored r viewer m i j) }.

Lemma accepted_nil viewer r : accepted viewer [] r r.
Proof. constructor; [done|done|done|simpl; lia|]. intros i j rec' H. exists rec'. auto. Qed.

Lemma accepted_app viewer ms1 ms2 r r1 r2 : accepted viewer ms1 r r1 → accepted viewer ms2 r1 r2 → accepted viewer (ms1 ++ ms2) r r2.
Proof.
  intros [A1 E1 F1 C1 B1] [A2 E2 F2 C2 B2]. constructor; [by transitivity r1|congruence..|rewrite C2, C1, length_app; lia|].
  intros i j x2 H2. destruct (B2 _ _ _ H2) as (x1 & H1 & Hb). destruct (B1 _ _ _ H1) as (x & H & Hb'). exists x. split; [done|]. setoid_rewrite elem_of_app.
  destruct Hb as [->|(-> & m & ? & ?)], Hb' as [->|(-> & m' & ? & ?)]; [by left|right; eauto 10| |].
  - right. split; [done|]. exists m. split; [by right|by eapply alike_stored].
  - right. split; [by rewrite <- Z.lor_assoc, Z.lor_diag|]. exists m'. auto.
Qed.

Lemma viewBit_cases viewer : viewBit viewer = 1 ∨ viewBit viewer = 2.
Proof. unfold viewBit. pose proof (Nat.mod_upper_bound viewer 2 ltac:(lia)). destruct (viewer mod 2)%nat as [|[|]]; [by left|by right|lia]. Qed.

Lemma seen_mark bit rec : bit = 1 ∨ bit = 2 → seen bit (mark bit rec) = true.
Proof.
  intros Hb. unfold seen, mark. simpl. rewrite Z.land_lor_distr_l, Z.land_diag. apply negb_true_iff, Z.eqb_neq. rewrite Z.lor_eq_0_iff. destruct Hb as [-> | ->]; lia.
Qed.

Lemma pair_of i p : (i / 2 = p)%nat → i = (2 * p)%nat ∨ i = (2 * p + 1)%nat.
Proof. intros <-. pose proof (Nat.div_mod_eq i 2). pose proof (Nat.mod_upper_bound i 2 ltac:(lia)). lia. Qed.

Lemma verifyStored_ok viewer m r r' : verifyStored viewer m r = (None, r') → accepted viewer [m] r r'.
Proof.
  unfold verifyStored. destruct (checkMessage r m) as [[i j]|] eqn:Ec; [|done]. destruct (Nat.eqb_spec (i / 2) (viewer / 2)) as [Hp|]; [|done]. simpl.
  destruct (p_records (user r i) !! j) as [rec|] eqn:Ej; [|done]. destruct (rc_started rec) eqn:Es; [|done]. simpl.
  destruct (Z.eqb_spec (Z.land (rc_pulled rec) (viewBit viewer)) 0) as [Ez|]; [|done]. simpl.
  destruct (rc_ackSeen rec && _) eqn:Ea; [done|]. destruct (rc_pushSeen rec && _) eqn:Ep; [done|]. intros [= <-].
  assert (stored r viewer m i j) as Hst.
  { split_and!; [done..|]. exists rec. split_and!; [done..| |].
    - intros H. rewrite H in Ea. simpl in Ea. apply negb_false_iff, bool_decide_eq_true in Ea. done.
    - intros H. rewrite H in Ep. simpl in Ep. apply negb_false_iff, bool_decide_eq_true in Ep. done. }
  assert (seen (viewBit viewer) rec = false) as Hs by (unfold seen; by rewrite Ez). pose proof (viewBit_cases viewer) as Hv.
  constructor; [by apply alike_mark|done|done| |].
  - assert (∀ k, seen_in (viewBit viewer) (set_record i j (mark (viewBit viewer) rec) r) k = (seen_in (viewBit viewer) r k + if decide (k = i) then 1 else 0)%nat) as Hk.
    { intros k. unfold seen_in. rewrite user_set. destruct (decide (k = i)) as [->|]; [|lia]. simpl.
      rewrite (count_insert _ _ _ _ rec Ej Hs) by (by apply seen_mark). lia. }
    unfold pairSeen. rewrite !Hk. destruct (pair_of _ _ Hp) as [-> | ->]; repeat case_decide; simpl; lia.
  - intros i' j' rec' H'. rewrite user_set in H'. destruct (decide (i' = i)) as [->|]; [|exists rec'; auto]. simpl in H'.
    destruct (decide (j' = j)) as [->|Hj].
    + rewrite list_lookup_insert_eq in H' by (by eapply lookup_lt_Some). injection H' as <-. exists rec. split; [done|]. right. split; [done|]. exists m. split; [by left|done].
    + rewrite list_lookup_insert_ne in H' by done. exists rec'. auto.
Qed.

(** The pages a node served, from the [n]-th request at [next] on, as one list. *)
Inductive served (pull : nat → Z → result PullResult) : nat → Z → list DtoMessage → Prop :=
| served_last n next page : pull n next = Ok page → PR_HasMore page = false → served pull n next (PR_Messages page)
| served_more n next page ms : pull n next = Ok page → PR_HasMore page = true →
    served pull (S n) (next + Z.of_nat (length (PR_Messages page))) ms → served pull n next (PR_Messages page ++ ms).

Lemma verifyPage_ok viewer total ms : ∀ next r next' r', verifyPage viewer total next ms r = (inl next', r') →
  accepted viewer ms r r' ∧ next' = next + Z.of_nat (length ms) ∧ map D_Seq ms = seqZ next (Z.of_nat (length ms)) ∧ (ms ≠ [] → next' ≤ total + 1).
Proof.
  induction ms as [|m ms IH]; intros next r next' r'; cbn [verifyPage].
  { intros [= <- <-]. split_and!; [apply accepted_nil|simpl; lia|done|done]. }
  destruct (Z.eqb_spec (D_Seq m) next) as [Hs|]; [|done]. simpl. destruct (Z.ltb_spec total next); [done|].
  destruct (verifyStored viewer m r) as [[e|] r1] eqn:Ev; [done|]. intros H'. destruct (IH _ _ _ _ H') as (A & -> & Hm & Hn). apply verifyStored_ok in Ev. split_and!.
  - change (m :: ms) with ([m] ++ ms). by eapply accepted_app.
  - simpl length. lia.
  - simpl map. rewrite Hs, Hm. simpl length. rewrite Nat2Z.inj_succ, (seqZ_cons next (Z.succ _)) by lia. f_equal. f_equal; lia.
  - intros _. destruct ms as [|m' ms]; [simpl; lia|]. by apply Hn.
Qed.

Lemma seqZ_join next (a b : nat) : seqZ next (Z.of_nat (a + b)) = seqZ next (Z.of_nat a) ++ seqZ (next + Z.of_nat a) (Z.of_nat b).
Proof. rewrite Nat2Z.inj_add. apply seqZ_app; lia. Qed.

Lemma verifyPages_ok fuel pull viewer total : ∀ n next r next' r', verifyPages fuel pull n viewer total next r = Some (inl next', r') →
  ∃ ms, served pull n next ms ∧ accepted viewer ms r r' ∧ next' = next + Z.of_nat (length ms) ∧ map D_Seq ms = seqZ next (Z.of_nat (length ms)).
Proof.
  induction fuel as [|fuel IH]; intros n next r next' r'; cbn [verifyPages]; [done|]. destruct (pull n next) as [page|] eqn:Ep; [|done].
  destruct (_ && PR_HasMore page); [done|]. destruct (verifyPage _ _ _ _ _) as [[next1|e] r1] eqn:Ev; [|done].
  destruct (verifyPage_ok _ _ _ _ _ _ _ Ev) as (A & -> & Hm & _). destruct (PR_HasMore page) eqn:Eh.
  - intros H. destruct (IH _ _ _ _ _ H) as (ms & Hs & A' & -> & Hm'). exists (PR_Messages page ++ ms). split_and!.
    + by apply served_more.
    + by eapply accepted_app.
    + rewrite length_app. lia.
    + by rewrite map_app, Hm, Hm', length_app, seqZ_join.
  - intros [= <- <-]. exists (PR_Messages page). split_and!; [by apply served_last|done..].
Qed.

(** Every further page moves on, and none moves past the total. *)
Lemma verifyPages_total fuel pull viewer total : ∀ n next r, next ≤ total + 1 → (Z.to_nat (total + 2 - next) ≤ fuel)%nat →
  verifyPages fuel pull n viewer total next r ≠ None.
Proof.
  induction fuel as [|fuel IH]; intros n next r Hn Hf; [lia|]. cbn [verifyPages]. destruct (pull n next) as [page|]; [|done].
  destruct (PR_Messages page) as [|m ms] eqn:Em; [destruct (PR_HasMore page); [done|]; cbn [length Nat.eqb andb verifyPage]; done|].
  simpl andb. rewrite <- Em. destruct (verifyPage _ _ _ _ _) as [[next1|e] r1] eqn:Ev; [|done].
  destruct (verifyPage_ok _ _ _ _ _ _ _ Ev) as (_ & -> & _ & Hle). rewrite Em in *. specialize (Hle ltac:(done)). destruct (PR_HasMore page); [|done].
  apply IH; simpl length in *; lia.
Qed.

Lemma fail_alike s r : alike r (fail s r).
Proof. done. Qed.

(** A view that is accepted. *)
Lemma verifyView_ok fuel a viewer total r r' :
  verifyView fuel a viewer total r = Some (None, r') → r_errors r' = r_errors r → 0 < total →
  ∃ ms, served (an_pull a) 0 1 ms ∧ accepted viewer ms r r' ∧ Z.of_nat (length ms) = total ∧ map D_Seq ms = seqZ 1 total.
Proof.
  unfold verifyView. destruct (an_maxSeqs a) as [q|]; [|done]. intros H He Ht. destruct (Z.eqb_spec total 0); [lia|].
  destruct (singleton_item q) as [item|]; [|done]. match type of H with context [verifyPages _ _ _ _ _ _ ?x] => set (r0 := x) in H end.
  destruct (verifyPages fuel (an_pull a) 0 viewer total 1 r0) as [[[next|e] r1]|] eqn:Ev; [|done|done].
  destruct (Z.eqb_spec (next - 1) total) as [Hn|]; [|done]. injection H as ->. destruct (verifyPages_ok _ _ _ _ _ _ _ _ _ Ev) as (ms & Hs & A & -> & Hm).
  assert (r0 = r) as E.
  { pose proof (ac_errors _ _ _ _ A) as E1. unfold r0 in *. match goal with |- (if ?b then _ else _) = _ => destruct b end; [|done]. simpl in E1. lia. }
  rewrite E in A. exists ms. split_and!; [done|done|lia|]. rewrite Hm. f_equal. lia.
Qed.

Lemma verifyStored_errors v m r0 e0 r0' : verifyStored v m r0 = (e0, r0') → r_errors r0' = r_errors r0.
Proof. unfold verifyStored. repeat case_match; by intros [= <- <-]. Qed.

Lemma verifyPage_errors v t ms : ∀ nx r0 x r0', verifyPage v t nx ms r0 = (x, r0') → r_errors r0' = r_errors r0.
Proof.
  induction ms as [|m ms IH]; intros nx r0 x r0'; cbn [verifyPage]; [by intros [= <- <-]|]. destruct (_ || _); [by intros [= <- <-]|].
  destruct (verifyStored v m r0) as [[]] eqn:Ev; apply verifyStored_errors in Ev; [by intros [= <- <-]|]. intros H%IH. congruence.
Qed.

Lemma verifyPages_errors v t f pull : ∀ n nx r0 x r0', verifyPages f pull n v t nx r0 = Some (x, r0') → r_errors r0' = r_errors r0.
Proof.
  induction f as [|f IH]; intros n nx r0 x r0'; cbn [verifyPages]; [done|]. destruct (pull n nx); [|by intros [= <- <-]].
  destruct (_ && _); [by intros [= <- <-]|]. destruct (verifyPage _ _ _ _ _) as [[] r1] eqn:Ev; apply verifyPage_errors in Ev; [|intros [= <- <-]; congruence].
  destruct (PR_HasMore _); [intros H%IH; congruence|intros [= <- <-]; congruence].
Qed.

Lemma verifyView_errors fuel a viewer total r e r' : verifyView fuel a viewer total r = Some (e, r') → r_errors r ≤ r_errors r'.
Proof.
  unfold verifyView. destruct (an_maxSeqs a) as [q|]; [|by intros [= <- <-]]. destruct (total =? 0); [destruct (_ || _); by intros [= <- <-]|].
  destruct (singleton_item q); [|by intros [= <- <-]]. match goal with |- context [verifyPages _ _ _ _ _ _ ?x] => set (r0 := x) end. assert (r_errors r ≤ r_errors r0) as H0 by (unfold r0; destruct (_ || _); simpl; lia).
  destruct (verifyPages _ _ _ _ _ _ _) as [[[z|x] r1]|] eqn:Ev; [apply verifyPages_errors in Ev..|done]; [destruct (z - 1 =? total); simpl|]; intros [= <- <-]; lia.
Qed.

(** ** Soundness *)

Lemma count_none f l : (∀ x, x ∈ l → f x = false) → count f l = 0%nat.
Proof.
  unfold count. induction l as [|x l IH]; intros H; simpl; [done|]. rewrite (H x) by left. apply IH. intros y Hy. apply H. by right.
Qed.

Definition unseen (bit : Z) (r : runner) (pair : nat) : Prop :=
  ∀ i j rec, (i / 2 = pair)%nat → p_records (user r i) !! j = Some rec → seen bit rec = false.

Lemma unseen_none bit r pair : unseen bit r pair → pairSeen bit r pair = 0%nat.
Proof.
  intros H. unfold pairSeen, seen_in. rewrite !count_none; [done|intros x [j Hj]%list_elem_of_lookup..].
  - apply (H (2 * pair + 1)%nat j); [|done]. rewrite Nat.mul_comm, Nat.div_add_l by lia. simpl. lia.
  - apply (H (2 * pair)%nat j); [|done]. rewrite Nat.mul_comm. by apply Nat.div_mul.
Qed.

(** As many messages as were planned, no record twice: every record. *)
Lemma view_all viewer ms r r' :
  accepted viewer ms r r' → length ms = planned r (viewer / 2) → unseen (viewBit viewer) r (viewer / 2) →
  ∀ i j rec', (i / 2 = viewer / 2)%nat → p_records (user r' i) !! j = Some rec' →
    (∃ rec, p_records (user r i) !! j = Some rec ∧ rc_pulled rec' = Z.lor (rc_pulled rec) (viewBit viewer)) ∧ ∃ m, m ∈ ms ∧ stored r viewer m i j.
Proof.
  intros A Hl Hu i j rec' Hp Hj. pose proof (ac_count _ _ _ _ A) as Hc. rewrite (unseen_none _ _ _ Hu), Hl in Hc. unfold pairSeen, seen_in, planned in Hc.
  pose proof (alike_length _ _ (2 * (viewer / 2)) (ac_alike _ _ _ _ A)) as L1. pose proof (alike_length _ _ (2 * (viewer / 2) + 1) (ac_alike _ _ _ _ A)) as L2.
  pose proof (count_le (seen (viewBit viewer)) (p_records (user r' (2 * (viewer / 2))))) as C1.
  pose proof (count_le (seen (viewBit viewer)) (p_records (user r' (2 * (viewer / 2) + 1)))) as C2.
  assert (seen (viewBit viewer) rec' = true) as Hs.
  { destruct (pair_of _ _ Hp) as [Ei|Ei]; rewrite Ei in Hj.
    - assert (count (seen (viewBit viewer)) (p_records (user r' (2 * (viewer / 2)))) = length (p_records (user r' (2 * (viewer / 2))))) as E%count_all by lia.
      rewrite Forall_lookup in E. by apply (E j).
    - assert (count (seen (viewBit viewer)) (p_records (user r' (2 * (viewer / 2) + 1))) = length (p_records (user r' (2 * (viewer / 2) + 1)))) as E%count_all by lia.
      rewrite Forall_lookup in E. by apply (E j). }
  destruct (ac_bits _ _ _ _ A _ _ _ Hj) as (rec & Hr & [E|(E & Hm)]); [|eauto].
  specialize (Hu _ _ _ Hp Hr). unfold seen in Hs, Hu. rewrite E in Hs. congruence.
Qed.

Lemma verify_side_ok live a viewer total r e r' :
  verify_side live a viewer total r = Some (e, r') → r_errors r ≤ r_errors r' ∧
  (e = None → r_errors r' = r_errors r → verifyView (view_fuel total) a viewer (Z.of_nat total) r = Some (None, r')).
Proof.
  unfold verify_side. destruct live; simpl; [|intros [= <- <-]; split; [lia|done]].
  destruct (verifyView _ _ _ _ _) as [[[x|] r1]|] eqn:Ev; [| |done]; pose proof (verifyView_errors _ _ _ _ _ _ _ Ev); intros [= <- <-]; (split; [simpl; lia|]).
  - intros _. simpl. lia.
  - done.
Qed.

(** The pull verification ends, whatever the node answers. *)
Lemma verifyPair_total live0 live1 a0 a1 pair r : verifyPair live0 live1 a0 a1 pair r ≠ None.
Proof.
  assert (∀ live a viewer total r0, verify_side live a viewer total r0 ≠ None) as H.
  { intros live a viewer total r0. unfold verify_side. destruct live; simpl; [|done].
    assert (verifyView (view_fuel total) a viewer (Z.of_nat total) r0 ≠ None) as Hv.
    { unfold verifyView. destruct (an_maxSeqs a) as [q|]; [|done]. destruct (Z.of_nat total =? 0); [done|]. destruct (singleton_item q); [|done].
      match goal with |- context [verifyPages ?f ?p ?n ?v ?t ?nx ?x] => pose proof (verifyPages_total f p v t n nx x) as Ht; destruct (verifyPages f p n v t nx x) as [[[] ?]|] end; [done..|].
      by destruct (Ht ltac:(lia) ltac:(unfold view_fuel; lia)). }
    by destruct (verifyView _ _ _ _ _) as [[[] ?]|]. }
  unfold verifyPair. pose proof (H live0 a0 (2 * pair)%nat (planned r pair) r). destruct (verify_side _ _ _ _ _) as [[[] ?]|]; [done| |done]. apply H.
Qed.

Lemma viewer_even pair : ((2 * pair) / 2 = pair ∧ (2 * pair + 1) / 2 = pair)%nat.
Proof. split; [rewrite Nat.mul_comm; by apply Nat.div_mul|]. rewrite Nat.mul_comm, Nat.div_add_l by lia. simpl. lia. Qed.

Lemma viewBit_sides pair : viewBit (2 * pair) = 1 ∧ viewBit (2 * pair + 1) = 2.
Proof.
  unfold viewBit. rewrite Nat.mul_comm, Nat.Div0.mod_mul, Nat.add_comm, Nat.Div0.mod_add. done.
Qed.

(** One view of a pair in which messages were planned. *)
Lemma side_sound live a viewer total r r' :
  verify_side live a viewer total r = Some (None, r') → r_errors r' = r_errors r → total = planned r (viewer / 2) → (0 < total)%nat →
  unseen (viewBit viewer) r (viewer / 2) →
  ∃ ms, served (an_pull a) 0 1 ms ∧ map D_Seq ms = seqZ 1 (Z.of_nat total) ∧ accepted viewer ms r r' ∧
    ∀ i j rec', (i / 2 = viewer / 2)%nat → p_records (user r' i) !! j = Some rec' →
      (∃ rec, p_records (user r i) !! j = Some rec ∧ rc_pulled rec' = Z.lor (rc_pulled rec) (viewBit viewer)) ∧ ∃ m, m ∈ ms ∧ stored r viewer m i j.
Proof.
  intros H He Ht Hp Hu. destruct (verify_side_ok _ _ _ _ _ _ _ H) as [_ Hv]. specialize (Hv eq_refl He).
  destruct (verifyView_ok _ _ _ _ _ _ Hv He ltac:(lia)) as (ms & Hs & A & Hl & Hm). exists ms. split_and!; [done..|]. eapply view_all; [done|lia|done].
Qed.

(** ** A view *)

(** The message planned as the [j]-th of user [i]. *)
Record carries (r : runner) (m : DtoMessage) (i j : nat) : Prop := {
  ca_id : D_ClientMsgId m = messageId r i j;
  ca_route : D_SenderId m = p_id (user r i) ∧ D_RecvId m = p_id (user r (peer i)) ∧ D_ConversationId m = conversation r i;
  ca_body : D_ContentType m = 1 ∧ D_Content m = content r i j ∧ D_SessionType m = ConversationSingle ∧ D_GroupId m = ""%string;
  ca_identity : validIdentity (messageIdentity m) = true }.

Lemma locate_ok r id i j : locate r id = Ok (i, j) → id = messageId r i j ∧ Z.of_nat i < o_active (r_opts r) ∧ (j < length (p_records (user r i)))%nat.
Proof.
  unfold locate. destruct (CutPrefix _ _); [|done]. destruct (Cut _ _) as [[]|]; [|done]. destruct (ParseInt _) as [a|]; [|done]. destruct (ParseInt _) as [b|]; [|done].
  case_match eqn:E1; [done|]. case_match eqn:E2; [done|]. intros [= Ei Ej]. bool_prop. subst. split_and!; [done|lia|lia].
Qed.

Lemma check_carries r m i j : checkMessage r m = Ok (i, j) → carries r m i j.
Proof.
  unfold checkMessage. destruct (locate r _) as [[i' j']|] eqn:El; [|done]. destruct (_ || _) eqn:E; [done|]. intros [= -> ->]. bool_prop.
  apply locate_ok in El as (El & _). by constructor.
Qed.

Lemma append_assoc (a b c : string) : a +:+ b +:+ c = (a +:+ b) +:+ c.
Proof. induction a as [|x a IH]; [done|]. exact (f_equal (String.String x) IH). Qed.

Lemma CutPrefix_app a b : CutPrefix (a +:+ b) a = Some b.
Proof. 
  unfold CutPrefix, HasPrefix. assert (String.prefix a (a +:+ b) = true) as ->; [|by rewrite slice_from_app].
  induction a as [|c a IH]; simpl; [by destruct b|]. by destruct (ascii_dec c c).
Qed.

(** A message id is found again, whatever the run is called. *)
Lemma locate_messageId r i j :
  Z.of_nat i < o_active (r_opts r) → (j < length (p_records (user r i)))%nat → Z.of_nat i ≤ maxInt64 → Z.of_nat j ≤ maxInt64 →
  locate r (messageId r i j) = Ok (i, j).
Proof.
  intros Hi Hj Mi Mj. unfold locate, messageId at 1.
  replace (r_runId r +:+ ":" +:+ FormatInt (Z.of_nat i) +:+ ":" +:+ FormatInt (Z.of_nat j))
    with ((r_runId r +:+ ":") +:+ FormatInt (Z.of_nat i) +:+ String.String ":" (FormatInt (Z.of_nat j))) by (symmetry; apply (append_assoc (r_runId r) ":")).
  rewrite CutPrefix_app. rewrite Cut_app by (apply FormatInt_no_colon; unfold minInt64; lia). rewrite !ParseInt_FormatInt by (unfold minInt64; lia).
  destruct (Z.ltb_spec (Z.of_nat i) 0); [lia|]. destruct (Z.leb_spec (o_active (r_opts r)) (Z.of_nat i)); [lia|]. simpl.
  rewrite !Nat2Z.id, String.eqb_refl. destruct (Z.ltb_spec (Z.of_nat j) 0); [lia|]. by destruct (Z.leb_spec (Z.of_nat (length (p_records (user r i)))) (Z.of_nat j)); [lia|].
Qed.

(** What the list of conversations must say of the view. *)
Definition seqs_ok (r : runner) (q : result MaxSeqsResult) (viewer : nat) (total : Z) : Prop :=
  if total =? 0 then q = Ok (mkMaxSeqsResult [] "" false)
  else ∃ read, q = Ok (mkMaxSeqsResult [mkMaxSeqItem (conversation r viewer) total 1 read] "" false).

Lemma verifyView_seqs fuel a viewer total r r' :
  verifyView fuel a viewer total r = Some (None, r') → r_errors r' = r_errors r → seqs_ok r (an_maxSeqs a) viewer total.
Proof.
  unfold verifyView, seqs_ok. destruct (an_maxSeqs a) as [[items cursor more]|]; [|done]. intros H He. destruct (total =? 0).
  - simpl in H. destruct items; [|done]. destruct more; [done|]. destruct (String.eqb_spec cursor "") as [E|]; [by rewrite E|done].
  - unfold singleton_item in H. simpl in H. destruct items as [|item []]; [done| |done]. destruct more; [done|]. simpl in H.
    destruct (String.eqb_spec cursor "") as [Ec|]; [|done]. rewrite Ec. simpl in H.
    destruct (negb (MS_ConversationId item =? _)%string || _ || _) eqn:E.
    + exfalso. destruct (verifyPages _ _ _ _ _ _ _) as [[[z|] r1]|] eqn:Ev; [|done..]. apply verifyPages_errors in Ev. destruct (z - 1 =? total); [|done]. injection H as E'. subst. simpl in Ev. lia.
    + bool_prop. destruct item as [c mx mn rd]. simpl in *. subst. by exists rd.
Qed.

(** A viewer was served every message planned in its pair, in the order of their seqs, each as it was acknowledged and pushed. *)
Record view_ok (r : runner) (a : Answers) (viewer : nat) : Prop := {
  vo_seqs : seqs_ok r (an_maxSeqs a) viewer (Z.of_nat (planned r (viewer / 2)));
  vo_pages : (0 < planned r (viewer / 2))%nat → ∃ ms,
    served (an_pull a) 0 1 ms ∧ map D_Seq ms = seqZ 1 (Z.of_nat (planned r (viewer / 2))) ∧
    ∀ i j rec, (i / 2 = viewer / 2)%nat → p_records (user r i) !! j = Some rec → ∃ m, m ∈ ms ∧ stored r viewer m i j }.

Lemma alike_planned r r' p : alike r r' → planned r' p = planned r p.
Proof. intros H. unfold planned. by rewrite !(alike_length _ _ _ H). Qed.

Lemma alike_view r r' a v : alike r r' → view_ok r a v → view_ok r' a v.
Proof.
  intros H [S P]. pose proof (alike_planned _ _ (v / 2) H) as Ep. constructor; rewrite Ep.
  - unfold seqs_ok, conversation in *. destruct H as (_ & _ & Hu). by rewrite !(λ i, proj1 (Hu i)).
  - intros Hp. destruct (P Hp) as (ms & Hs & Hm & Hall). exists ms. split_and!; [done..|]. intros i j rec Hi Hj.
    assert (is_Some (p_records (user r i) !! j)) as [rec0 Hr] by (apply lookup_lt_is_Some; rewrite <- (alike_length _ _ i H); by eapply lookup_lt_Some).
    destruct (Hall _ _ _ Hi Hr) as (m & Hin & Hst). exists m. split; [done|]. by apply (alike_stored _ r).
Qed.

(** ** A pair *)

Lemma side_effect live a viewer r r' :
  verify_side live a viewer (planned r (viewer / 2)) r = Some (None, r') → r_errors r' = r_errors r → ∃ ms, accepted viewer ms r r'.
Proof.
  intros H He. destruct (verify_side_ok _ _ _ _ _ _ _ H) as [_ Hv]. specialize (Hv eq_refl He).
  destruct (decide (planned r (viewer / 2) = 0)%nat) as [E|Hn].
  - exists []. rewrite E in Hv. unfold verifyView in Hv. simpl in Hv. destruct (an_maxSeqs a); [|done]. destruct (_ || _); [done|]. injection Hv as <-. apply accepted_nil.
  - destruct (verifyView_ok _ _ _ _ _ _ Hv He ltac:(lia)) as (ms & _ & A & _). by exists ms.
Qed.

Lemma side_view live a viewer r r' :
  verify_side live a viewer (planned r (viewer / 2)) r = Some (None, r') → r_errors r' = r_errors r → unseen (viewBit viewer) r (viewer / 2) → view_ok r a viewer.
Proof.
  intros H He Hu. destruct (verify_side_ok _ _ _ _ _ _ _ H) as [_ Hv]. specialize (Hv eq_refl He). constructor; [by eapply verifyView_seqs|].
  intros Hp. destruct (side_sound _ _ _ _ _ _ H He eq_refl Hp Hu) as (ms & Hs & Hm & A & Hall). exists ms. split_and!; [done..|]. intros i j rec Hi Hj.
  assert (is_Some (p_records (user r' i) !! j)) as [rec' Hr]
    by (apply lookup_lt_is_Some; rewrite (alike_length _ _ i (ac_alike _ _ _ _ A)); by eapply lookup_lt_Some).
  by apply (Hall i j rec').
Qed.

Definition untouched (r : runner) (pair : nat) : Prop := ∀ i j rec, (i / 2 = pair)%nat → p_records (user r i) !! j = Some rec → rc_pulled rec = 0.

Lemma untouched_unseen bit r p : untouched r p → unseen bit r p.
Proof. intros H i j rec Hi Hj. unfold seen. by rewrite (H i j rec Hi Hj), Z.land_0_l. Qed.

Lemma accepted_others viewer ms r r' q : accepted viewer ms r r' → q ≠ (viewer / 2)%nat → untouched r q → untouched r' q.
Proof.
  intros A Hq Hu i j rec' Hi Hj. destruct (ac_bits _ _ _ _ A _ _ _ Hj) as (rec & Hr & [->|(_ & m & _ & _ & Hp & _)]); [by eapply Hu|lia].
Qed.

Lemma verify_side_errors live a viewer total r e r' : verify_side live a viewer total r = Some (e, r') → r_errors r ≤ r_errors r'.
Proof. intros H. by destruct (verify_side_ok _ _ _ _ _ _ _ H). Qed.

Lemma pair_sound live0 live1 a0 a1 p r r' :
  verifyPair live0 live1 a0 a1 p r = Some (None, r') → r_errors r' = r_errors r → untouched r p →
  view_ok r a0 (2 * p) ∧ view_ok r a1 (2 * p + 1) ∧ alike r r' ∧ r_frozen r' = r_frozen r ∧ ∀ q, q ≠ p → untouched r q → untouched r' q.
Proof.
  unfold verifyPair. destruct (viewer_even p) as [E0 E1], (viewBit_sides p) as [B0 B1]. intros H He Hu.
  destruct (verify_side live0 _ _ _ _) as [[[e|] r1]|] eqn:Es; [done| |done].
  pose proof (verify_side_errors _ _ _ _ _ _ _ Es). pose proof (verify_side_errors _ _ _ _ _ _ _ H). rewrite <- E0 in Es at 2.
  destruct (side_effect _ _ _ _ _ Es ltac:(lia)) as (ms0 & A0). pose proof (ac_alike _ _ _ _ A0) as L0.
  rewrite <- (alike_planned _ _ _ L0) in H. rewrite <- E1 in H at 2. destruct (side_effect _ _ _ _ _ H ltac:(lia)) as (ms1 & A1).
  assert (view_ok r a0 (2 * p)) as V0 by (apply (side_view _ _ _ _ _ Es); [lia|rewrite E0; by apply untouched_unseen]).
  assert (view_ok r1 a1 (2 * p + 1)) as V1.
  { apply (side_view _ _ _ _ _ H); [lia|]. rewrite E1, B1. intros i j rec' Hi Hj. destruct (ac_bits _ _ _ _ A0 _ _ _ Hj) as (rec & Hr & Hb). rewrite B0 in Hb.
    pose proof (Hu _ _ _ Hi Hr) as Hz. unfold seen. destruct Hb as [->|(-> & _)]; by rewrite Hz. }
  split_and!; [done|by apply (alike_view r1); [symmetry|]|by transitivity r1; [|apply (ac_alike _ _ _ _ A1)]| |].
  - by rewrite (ac_frozen _ _ _ _ A1), (ac_frozen _ _ _ _ A0).
  - intros q Hq Hr. apply (accepted_others _ _ _ _ _ A1); [lia|]. by apply (accepted_others _ _ _ _ _ A0); [lia|].
Qed.

(** ** The steps of a run *)

(** The records are as they were. *)
Definition quiet (r r' : runner) : Prop :=
  alike r r' ∧ r_frozen r' = r_frozen r ∧ r_errors r ≤ r_errors r' ∧ ∀ i, p_records (user r' i) = p_records (user r i).

#[export] Instance quiet_preorder : PreOrder quiet.
Proof.
  split; [by intros r; repeat split|]. intros r1 r2 r3 (A1 & F1 & E1 & R1) (A2 & F2 & E2 & R2). split_and!; [by transitivity r2|congruence|lia|].
  intros i. by rewrite R2.
Qed.

Lemma quiet_fail s r : quiet r (fail s r).
Proof. split_and!; [done|done|simpl; lia|done]. Qed.

Lemma quiet_incr k r : quiet r (incr k r).
Proof. by split_and!. Qed.

Lemma user_ready i x r k : p_id (user (set_ready i x r) k) = p_id (user r k) ∧ p_records (user (set_ready i x r) k) = p_records (user r k).
Proof.
  unfold user, set_ready, set_users. simpl. destruct (decide (k = i)) as [->|Hn]; [|by rewrite list_lookup_alter_ne].
  rewrite list_lookup_alter_eq. by destruct (r_users r !! i).
Qed.

Lemma quiet_ready i x r : quiet r (set_ready i x r).
Proof.
  split_and!; [|done|done|apply user_ready]. split_and!; [done..|]. intros k. destruct (user_ready i x r k) as [E1 E2]. by rewrite E1, E2.
Qed.

Lemma quiet_offer i e r : quiet r (offer_ready i e r).2.
Proof. unfold offer_ready. destruct (p_ready _); [done|apply quiet_ready]. Qed.

#[export] Hint Resolve quiet_fail quiet_incr quiet_ready quiet_offer : nexo.

(** The records hold the same marks as before. *)
Definition unmarked (r r' : runner) : Prop :=
  r_opts r' = r_opts r ∧ r_errors r ≤ r_errors r' ∧ (∀ i, length (p_records (user r' i)) = length (p_records (user r i))) ∧
  ∀ i j rec', p_records (user r' i) !! j = Some rec' → ∃ rec, p_records (user r i) !! j = Some rec ∧ rc_pulled rec' = rc_pulled rec.

#[export] Instance unmarked_preorder : PreOrder unmarked.
Proof.
  split; [by intros r; split_and!; eauto|]. intros r1 r2 r3 (O1 & E1 & L1 & R1) (O2 & E2 & L2 & R2). split_and!; [congruence|lia|intros i; by rewrite L2|].
  intros i j x3 H3. destruct (R2 _ _ _ H3) as (x2 & H2 & P2). destruct (R1 _ _ _ H2) as (x1 & H1 & P1). exists x1. split; [done|congruence].
Qed.

Lemma quiet_unmarked r r' : quiet r r' → unmarked r r'.
Proof. intros ((_ & O & _) & _ & E & R). split_and!; [done..|intros i; by rewrite R|]. intros i j rec'. rewrite R. eauto. Qed.

Lemma unmarked_set i j rec rec' r : p_records (user r i) !! j = Some rec → rc_pulled rec' = rc_pulled rec → unmarked r (set_record i j rec' r).
Proof.
  intros Hj Hp. split_and!; [done..| |].
  { intros k. rewrite user_set. destruct (decide (k = i)) as [->|]; [|done]. simpl. by rewrite length_insert. }
  intros i' j' x. rewrite user_set. destruct (decide (i' = i)) as [->|]; [|eauto]. simpl. destruct (decide (j' = j)) as [->|].
  - rewrite list_lookup_insert_eq by (by eapply lookup_lt_Some). intros [= <-]. eauto.
  - rewrite list_lookup_insert_ne by done. eauto.
Qed.

Lemma unmarked_count i j rec rec' k r : p_records (user r i) !! j = Some rec → rc_pulled rec' = rc_pulled rec → unmarked r (incr k (set_record i j rec' r)).
Proof. intros Hj Hp. transitivity (set_record i j rec' r); [by eapply unmarked_set|apply quiet_unmarked, quiet_incr]. Qed.

Section Steps.
Context `{FL : FrameLib}.

Lemma quiet_receiveReady u f r : quiet r (receiveReady u f r).
Proof.
  unfold receiveReady. match goal with |- context [offer_ready u ?e r] => pose proof (quiet_offer u e r) as Hq; destruct (offer_ready u e r) as [b r1] end.
  destruct b; [done|]. transitivity r1; [done|apply quiet_fail].
Qed.

(** Once the records are frozen the readers leave them alone. *)
Lemma read_frozen u x r : r_frozen r = true → quiet r (readerStep u x r).
Proof.
  intros Hf. destruct x as [|raw|]; simpl; [|unfold receive|auto with nexo].
  - destruct (r_closing r); [apply quiet_offer|]. etransitivity; [|apply quiet_offer]. transitivity (incr KDisconnect r); auto with nexo.
  - destruct (Unmarshal_frame raw) as [f|]; [|auto with nexo]. destruct (_ && _); [apply quiet_receiveReady|]. rewrite Hf. repeat case_match; auto with nexo; done.
Qed.

Lemma unmarked_ack u f r : unmarked r (receiveAck u f r).
Proof.
  unfold receiveAck. destruct (locate r _) as [[i j]|]; [|apply quiet_unmarked; auto with nexo]. destruct (negb _); [apply quiet_unmarked; auto with nexo|].
  destruct (if code_ok f then _ else _) as [ack|]; [|apply quiet_unmarked; auto with nexo]. destruct (p_records (user r i) !! j) as [rec|] eqn:Ej; [|done].
  destruct (_ || _); [apply quiet_unmarked; auto with nexo|]. destruct (rc_ackSeen rec); [apply quiet_unmarked; auto with nexo|].
  by eapply (unmarked_count i j rec).
Qed.

Lemma unmarked_push u f r : unmarked r (receivePush u f r).
Proof.
  unfold receivePush. destruct (Unmarshal_message _) as [msg|]; [|apply quiet_unmarked; auto with nexo].
  destruct (checkMessage r msg) as [[i j]|]; [|apply quiet_unmarked; auto with nexo]. destruct (negb _); [apply quiet_unmarked; auto with nexo|].
  destruct (p_records (user r i) !! j) as [rec|] eqn:Ej; [|done]. destruct (_ || _); [apply quiet_unmarked; auto with nexo|].
  by eapply (unmarked_count i j rec).
Qed.

Lemma unmarked_receive u raw r : unmarked r (receive u raw r).
Proof.
  unfold receive. destruct (Unmarshal_frame raw) as [f|]; [|apply quiet_unmarked; auto with nexo].
  repeat case_match; auto using unmarked_ack, unmarked_push; (apply quiet_unmarked; auto using quiet_receiveReady with nexo); done.
Qed.

Lemma unmarked_read u x r : unmarked r (readerStep u x r).
Proof.
  destruct x as [|raw|]; [|apply unmarked_receive|apply quiet_unmarked, quiet_fail]. apply quiet_unmarked. simpl.
  destruct (r_closing r); [apply quiet_offer|]. etransitivity; [|apply quiet_offer]. transitivity (incr KDisconnect r); auto with nexo.
Qed.

Lemma unmarked_identity i id token r : unmarked r (set_identity i id token r).
Proof.
  assert (∀ k, p_records (user (set_identity i id token r) k) = p_records (user r k)) as E.
  { intros k. unfold user, set_identity, set_users. simpl. destruct (decide (k = i)) as [->|Hn]; [|by rewrite list_lookup_alter_ne].
    rewrite list_lookup_alter_eq. by destruct (r_users r !! i). }
  split_and!; [done..|intros k; by rewrite E|]. intros k j rec'. rewrite E. eauto.
Qed.

(** Only the verification marks records. *)
Lemma load_step e r x r' : is_verify e = false → step e r = Some (x, r') → unmarked r r'.
Proof.
  destruct e as [i profile session|i outside|u y|i j expired|i j| |]; intros Hv; simpl; [..|done].
  - intros [= H]. unfold provision in H. repeat case_match; injection H as <- <-; try done. apply unmarked_identity.
  - unfold connectEnd. destruct outside; [by intros [= <- <-]|]. destruct (p_ready _) as [[]|]; [| |done]; intros [= <- <-]; apply quiet_unmarked; [auto with nexo|].
    transitivity (set_ready i None r); auto with nexo.
  - intros [= <- <-]. apply unmarked_read.
  - unfold sendStart. destruct expired; [intros [= <- <-]; apply quiet_unmarked; auto with nexo|].
    destruct (p_records (user r i) !! j) as [rec|] eqn:Ej; intros [= <- <-]; [by eapply unmarked_set|apply quiet_unmarked; auto with nexo].
  - unfold sendEnd. destruct (p_records (user r i) !! j) as [rec|] eqn:Ej; intros [= <- <-]; [|done].
    by eapply (unmarked_count i j rec).
  - intros [= <- <-]. apply quiet_unmarked, quiet_fail.
Qed.

Lemma load_steps es r x r' : Forall (λ e, is_verify e = false) es → steps es r = Some (x, r') → unmarked r r'.
Proof.
  intros Hf. revert r. induction Hf as [|e es He _ IH]; intros r; simpl; [by intros [= <- <-]|].
  destruct (step e r) as [[[] r1]|] eqn:Es; [intros [= <- <-]; by eapply load_step| |done]. intros H. transitivity r1; [by eapply load_step|by apply IH].
Qed.
End Steps.

(** ** The verification of all pairs *)

Section Checks.
Context `{FL : FrameLib}.

Lemma verifyPair_errors live0 live1 a0 a1 p r x r' : verifyPair live0 live1 a0 a1 p r = Some (x, r') → r_errors r ≤ r_errors r'.
Proof.
  unfold verifyPair. destruct (verify_side live0 _ _ _ _) as [[[e|] r1]|] eqn:Es; [| |done]; pose proof (verify_side_errors _ _ _ _ _ _ _ Es).
  - by intros [= <- <-].
  - intros H'%verify_side_errors. lia.
Qed.

Lemma step_errors e r x r' : step e r = Some (x, r') → r_errors r ≤ r_errors r'.
Proof. destruct (is_verify e) eqn:E; [destruct e; try done; apply verifyPair_errors|]. intros H. by destruct (load_step _ _ _ _ E H) as (_ & ? & _). Qed.

Lemma steps_errors es r x r' : steps es r = Some (x, r') → r_errors r ≤ r_errors r'.
Proof.
  revert r. induction es as [|e es IH]; intros r; simpl; [by intros [= <- <-]|]. destruct (step e r) as [[[] r1]|] eqn:Es; [..|done]; apply step_errors in Es.
  - by intros [= <- <-].
  - intros H%IH. lia.
Qed.

Lemma quiet_untouched r r' p : quiet r r' → untouched r p → untouched r' p.
Proof. intros (_ & _ & _ & R) H i j rec. rewrite R. apply H. Qed.

Lemma checks_sound es r r' :
  Forall (λ e, is_read e || is_verify e = true) es → r_frozen r = true → steps es r = Some (None, r') → r_errors r' = r_errors r →
  NoDup (verified_pairs es) → (∀ p, p ∈ verified_pairs es → untouched r p) →
  alike r r' ∧ ∀ p live0 live1 a0 a1, EVerify p live0 live1 a0 a1 ∈ es → view_ok r a0 (2 * p) ∧ view_ok r a1 (2 * p + 1).
Proof.
  intros Hf. revert r. induction Hf as [|e es He _ IH]; intros r Hz H Herr Hnd Hu; simpl in H.
  { injection H as ->. split; [done|]. by intros ????? ?%not_elem_of_nil. }
  destruct (step e r) as [[[] r1]|] eqn:Es; [done| |done]. pose proof (step_errors _ _ _ _ Es). pose proof (steps_errors _ _ _ _ H).
  destruct e as [| |u y| | | |p live0 live1 a0 a1]; try done; simpl in Es, Hnd, Hu.
  - injection Es as <-. pose proof (read_frozen u y r Hz) as Hq. destruct (IH (readerStep u y r)) as [A V]; try lia; try done.
    + destruct Hq as (_ & -> & _). done.
    + intros p Hp. eapply quiet_untouched; [done|by apply Hu].
    + destruct Hq as (Aq & _). split; [by etransitivity|]. intros p live0 live1 a0 a1 [?|Hin]%elem_of_cons; [done|].
      destruct (V _ _ _ _ _ Hin). split; by eapply alike_view; [symmetry|].
  - apply NoDup_cons in Hnd as [Hp Hnd]. destruct (pair_sound _ _ _ _ _ _ _ Es ltac:(lia) (Hu p ltac:(left))) as (V0 & V1 & A1 & F1 & Hk).
    destruct (IH r1) as [A V]; try lia; try done; [by rewrite F1| |].
    + intros q Hq. apply Hk; [by intros ->|]. apply Hu. by right.
    + split; [by etransitivity|]. intros q l0 l1 b0 b1 [[= -> -> -> -> ->]|Hin]%elem_of_cons; [done|].
      destruct (V _ _ _ _ _ Hin). split; by eapply alike_view; [symmetry|].
Qed.
End Checks.

(** ** The report *)

Lemma count_zero f l : count f l = 0%nat → Forall (λ x, f x = false) l.
Proof. unfold count. induction l as [|x l IH]; simpl; [constructor|]. destruct (f x) eqn:E; [done|]. constructor; auto. Qed.

Lemma duplicates_zero l : Forall (λ x, rc_ackSeen x = true) l → ∀ seen, duplicates seen l = 0%nat →
  NoDup (map (id_serverMsgId ∘ rc_ack) l) ∧ ∀ x, x ∈ map (id_serverMsgId ∘ rc_ack) l → x ∉ seen.
Proof.
  induction 1 as [|rec l Ha _ IH]; intros seen; simpl; [split; [constructor|by intros ? ?%not_elem_of_nil]|]. rewrite Ha. unfold in_list. case_bool_decide as Hs; [done|]. simpl.
  intros H. destruct (IH _ H) as [Hn Hd]. split.
  - constructor; [|done]. intros Hin. apply (Hd _ Hin). by left.
  - intros x [->|Hin]%elem_of_cons; [done|]. intros Hx. apply (Hd _ Hin). by right.
Qed.

Lemma record_in r i j rec : p_records (user r i) !! j = Some rec → rec ∈ all_records r.
Proof.
  unfold user, all_records. destruct (r_users r !! i) as [u|] eqn:E; [|done]. simpl. intros Hj. apply list_elem_of_In, in_flat_map. exists u.
  split; apply list_elem_of_In; by eapply list_elem_of_lookup_2.
Qed.

(** A planned message of a run that passed. *)
Record delivered (o : options) (x : record) : Prop := {
  dl_written : rc_written x = true;
  dl_acked : rc_ackSeen x = true;
  dl_pulled : rc_pulled x = 3;
  dl_push : rc_pushSeen x = true → rc_push x = rc_ack x;
  dl_pushed : o_allowMissedPush o = false → rc_pushSeen x = true }.

Lemma report_passed r : lr_Passed (report r) = true →
  r_errors r = 0 ∧ r_disconnect r = 0 ∧ r_connected r = o_users (r_opts r) ∧ NoDup (map (id_serverMsgId ∘ rc_ack) (all_records r)) ∧
  ∀ i j rec, p_records (user r i) !! j = Some rec → delivered (r_opts r) rec.
Proof.
  unfold report. simpl. set (recs := all_records r) in *. intros H. bool_prop.
  assert (count rc_ackSeen recs = length recs ∧ count (λ x, rc_pulled x =? 3) recs = length recs) as [Ea%count_all Ev%count_all] by lia.
  match goal with H : (count rc_written recs =? _)%nat = true |- _ => apply Nat.eqb_eq, count_all in H as Ew end.
  match goal with H : (count mismatched recs =? _)%nat = true |- _ => apply Nat.eqb_eq, count_zero in H as Em end.
  match goal with H : (duplicates _ recs =? _)%nat = true |- _ => apply Nat.eqb_eq in H as Ed end.
  split_and!; [done..| |]; [by apply (duplicates_zero recs Ea [])|]. intros i j rec Hj%record_in. fold recs in Hj. rewrite Forall_forall in Ea, Ev, Ew, Em.
  assert (rc_pulled rec = 3) by (specialize (Ev rec Hj); simpl in Ev; lia). constructor; [by apply Ew|by apply Ea|done| |].
  - intros Hp. specialize (Em rec Hj). unfold mismatched in Em. simpl in Em. rewrite (Ea rec Hj), Hp in Em. simpl in Em. apply negb_false_iff, bool_decide_eq_true in Em. done.
  - intros Hm. match goal with H : (_ || o_allowMissedPush _) = true |- _ => rewrite Hm, orb_false_r in H end. bool_prop.
    assert (count rc_pushSeen recs = length recs) as Ep%count_all by lia. rewrite Forall_forall in Ep. by apply Ep.
Qed.

(** ** What a run that passed has shown *)

(** The answers given to a viewer. *)
Definition answered (check : list event) (viewer : nat) (a : Answers) : Prop :=
  ∃ live0 live1 a0 a1, EVerify (viewer / 2) live0 live1 a0 a1 ∈ check ∧ a = if (viewer mod 2 =? 0)%nat then a0 else a1.

(** A viewer was told of the one conversation and served its messages in order, one for every planned message, as it was acknowledged. *)
Record shown (r : runner) (a : Answers) (viewer : nat) : Prop := {
  sh_seqs : seqs_ok r (an_maxSeqs a) viewer (Z.of_nat (planned r (viewer / 2)));
  sh_pages : (0 < planned r (viewer / 2))%nat → ∃ ms,
    served (an_pull a) 0 1 ms ∧ map D_Seq ms = seqZ 1 (Z.of_nat (planned r (viewer / 2))) ∧
    ∀ i j rec, (i / 2 = viewer / 2)%nat → p_records (user r i) !! j = Some rec → ∃ m, m ∈ ms ∧ carries r m i j ∧ messageIdentity m = rc_ack rec }.

Lemma view_shown o r a viewer : (∀ i j rec, p_records (user r i) !! j = Some rec → delivered o rec) → view_ok r a viewer → shown r a viewer.
Proof.
  intros Hd [S P]. constructor; [done|]. intros Hp. destruct (P Hp) as (ms & Hs & Hm & Hall). exists ms. split_and!; [done..|]. intros i j rec Hi Hj.
  destruct (Hall _ _ _ Hi Hj) as (m & Hin & Hc & _ & rec' & Hj' & _ & Hack & _). assert (rec' = rec) as -> by congruence. exists m. split_and!; [done|by apply check_carries|].
  symmetry. apply Hack. by apply (dl_acked o rec), (Hd i j).
Qed.

Lemma newRunner_fresh o runId i j rec : p_records (user (newRunner o runId) i) !! j = Some rec → rec = fresh.
Proof.
  unfold user, newRunner. simpl. rewrite list_lookup_fmap. destruct (seq _ _ !! i) as [k|]; [|done]. simpl. case_match; [|done]. intros Hx. by apply lookup_replicate in Hx as [-> _].
Qed.

Lemma newRunner_length o runId i : Z.of_nat i < o_active o → o_active o ≤ o_users o →
  length (p_records (user (newRunner o runId) i)) = Z.to_nat (int_of (fmul (Seconds (o_duration o)) (o_rate o))).
Proof.
  intros Hi Hu. unfold user, newRunner. simpl. rewrite list_lookup_fmap, lookup_seq_lt by lia. simpl. destruct (Z.ltb_spec (Z.of_nat i) (o_active o)); [|lia].
  by rewrite length_replicate.
Qed.

Section Passed.
Context `{UL : UrlLib} `{FL : FrameLib}.

Lemma validate_users o : validate o = None → 2 ≤ o_users o ∧ Z.rem (o_users o) 2 = 0 ∧ 1 ≤ o_active o ≤ o_users o ∧ (2 ≤ length (o_nodes o))%nat.
Proof. unfold validate. destruct (negb _); [done|]. case_match eqn:E; [done|]. intros _. bool_prop. lia. Qed.

Lemma load_passed o runId load check rep :
  validate o = None → Forall (λ e, is_verify e = false) load → Forall (λ e, is_read e || is_verify e = true) check →
  verified_pairs check ≡ₚ seq 0 (Z.to_nat (o_users o) / 2) → main o runId load check = Some rep → lr_Passed rep = true →
  ∃ r, run o runId load check = Some (None, r) ∧ r_connected r = o_users o ∧ r_disconnect r = 0 ∧
    (∀ i, Z.of_nat i < o_active o → length (p_records (user r i)) = Z.to_nat (int_of (fmul (Seconds (o_duration o)) (o_rate o)))) ∧
    (∀ i j rec, p_records (user r i) !! j = Some rec → delivered o rec) ∧ NoDup (map (id_serverMsgId ∘ rc_ack) (all_records r)) ∧
    ∀ viewer, Z.of_nat viewer < o_users o → ∃ a, answered check viewer a ∧ shown r a viewer.
Proof.
  intros Hv Hl Hc Hp Hm Hpass. apply validate_users in Hv as (Hu & Heven & Ha & _). unfold main in Hm.
  assert (∀ x r, run o runId load check = Some (x, r) → 0 ≤ r_errors r) as Hpos.
  { intros x r. unfold run. destruct (steps load _) as [[[] r1]|] eqn:E; [| |done]; apply steps_errors in E; simpl in E; [by intros [= <- <-]|]. intros E2%steps_errors. simpl in E2. lia. }
  destruct (run o runId load check) as [[[e|] r]|] eqn:Er; [| |done]; injection Hm as <-; apply report_passed in Hpass as (He & Hdis & Hcon & Hnd & Hd); simpl in He, Hdis, Hcon, Hd.
  { specialize (Hpos _ _ eq_refl). lia. }
  exists r. unfold run in Er. destruct (steps load _) as [[[] r1]|] eqn:Es; [done| |done].
  pose proof (load_steps _ _ _ _ Hl Es) as (Ho1 & He1 & Hlen & Hmk). pose proof (steps_errors _ _ _ _ Er) as He2. simpl in He1, He2, Ho1.
  assert (∀ p, untouched (freeze r1) p) as Hun by (intros p i j rec _ Hj; destruct (Hmk i j rec Hj) as (rec0 & H0%newRunner_fresh & ->); by rewrite H0).
  destruct (checks_sound check (freeze r1) r Hc eq_refl Er) as [A V]; [simpl; lia|rewrite Hp; apply NoDup_seq|auto|].
  assert (r_opts r = o) as Eo by (destruct A as (_ & -> & _); done). rewrite Eo in *.
  split_and!; [done..| |done|done|].
  - intros i Hi. rewrite (alike_length _ _ i A). etransitivity; [apply (Hlen i)|]. apply newRunner_length; lia.
  - intros v Hv.
    assert ((v / 2)%nat ∈ verified_pairs check) as Hin.
    { rewrite Hp. apply elem_of_seq. split; [lia|]. rewrite Nat.add_0_l. pose proof (Z.quot_rem' (o_users o) 2).
      pose proof (Nat.div_mod_eq v 2). pose proof (Nat.div_mod_eq (Z.to_nat (o_users o)) 2). pose proof (Nat.mod_upper_bound (Z.to_nat (o_users o)) 2 ltac:(lia)). lia. }
    unfold verified_pairs in Hin. apply list_elem_of_In, in_flat_map in Hin as (e & He' & Hin). destruct e as [| | | | | |p l0 l1 a0 a1]; try by apply list_elem_of_In in Hin; apply not_elem_of_nil in Hin.
    apply list_elem_of_In, list_elem_of_singleton in Hin as <-. apply list_elem_of_In in He'. destruct (V _ _ _ _ _ He') as [V0 V1].
    exists (if (v mod 2 =? 0)%nat then a0 else a1). split; [by exists l0, l1, a0, a1|]. apply (view_shown o); [done|]. apply (alike_view (freeze r1)); [done|].
    pose proof (Nat.div_mod_eq v 2). pose proof (Nat.mod_upper_bound v 2 ltac:(lia)). destruct (Nat.eqb_spec (v mod 2) 0).
    + by replace v with (2 * (v / 2))%nat at 1 by lia.
    + by replace v with (2 * (v / 2) + 1)%nat at 1 by lia.
Qed.
End Passed.

(** ** Parallel calls *)

Definition calls (ws : list worker) : list nat := flat_map (λ w, match w with WCall i => [i] | _ => [] end) ws.

Record pool_ok (count workers : nat) (p : pool) : Prop := {
  po_calls : pl_cause p = None → pl_done p ++ calls (pl_workers p) ≡ₚ seq 0 (pl_next p `min` count);
  po_last : pl_cause p = None → WReturned ∈ pl_workers p → (count ≤ pl_next p)%nat;
  po_workers : length (pl_workers p) = (count `min` workers)%nat }.

Lemma calls_app a b : calls (a ++ b) = calls a ++ calls b.
Proof. apply flat_map_app. Qed.

Lemma worker_split w x (ws : list worker) : ws !! w = Some x → ∃ a b, ws = a ++ x :: b ∧ ∀ y, <[w := y]> ws = a ++ y :: b.
Proof.
  intros (a & b & -> & ->)%list_elem_of_split_length. exists a, b. split; [done|]. intros y. by rewrite insert_app_r_alt, Nat.sub_diag.
Qed.

(** An index is called once, and a worker that returned without an error has found them used up. *)
Lemma workers_step_ok count workers p p' : pool_step count p p' → pool_ok count workers p → pool_ok count workers p'.
Proof.
  intros Hs [C L W]. destruct Hs as [w out p p' Hw|e p Hn]; [|by constructor]. unfold work in Hw.
  destruct (pl_workers p !! w) as [x|] eqn:Ex; [|done]. assert (∀ y, length (<[w := y]> (pl_workers p)) = (count `min` workers)%nat) as Hl by (intros y; by rewrite length_insert).
  destruct (worker_split _ _ _ Ex) as (a & b & Ew & Ei). rewrite Ew in C, L. setoid_rewrite elem_of_app in L. setoid_rewrite elem_of_cons in L.
  rewrite calls_app in C. destruct x as [| |i|]; [| | |done].
  - injection Hw as <-. constructor; cbn [pl_next pl_cause pl_workers pl_done]; [..|apply Hl]; rewrite Ei; [intros Hn; rewrite Hn, calls_app; auto|].
    intros Hn. rewrite Hn, elem_of_app, elem_of_cons. intros [?|[?|?]]; [by apply L; auto|done|by apply L; auto].
  - injection Hw as <-. constructor; cbn [pl_next pl_cause pl_workers pl_done]; [..|apply Hl]; rewrite Ei, ?calls_app, ?elem_of_app, ?elem_of_cons; intros Hn.
    + specialize (C Hn). cbn [calls flat_map app] in C. destruct (Nat.leb_spec count (pl_next p)); cbn [calls flat_map app].
      * by rewrite C, !Nat.min_r by lia.
      * rewrite (Nat.min_l (S _)), seq_S, Nat.add_0_l by lia. rewrite Nat.min_l in C by lia. rewrite <- C. solve_Permutation.
    + intros [?|[E|?]]; [specialize (L Hn); naive_solver lia| |specialize (L Hn); naive_solver lia]. destruct (Nat.leb_spec count (pl_next p)); [lia|done].
  - destruct out as [e|]; injection Hw as <-; constructor; simpl; [by destruct (pl_cause p)|by destruct (pl_cause p)|apply Hl|..|apply Hl];
      rewrite Ei, ?calls_app, ?elem_of_app, ?elem_of_cons; intros Hn; specialize (C Hn); simpl in *.
    + rewrite <- C. solve_Permutation.
    + intros [?|[?|?]]; [by apply L; auto|done|by apply L; auto].
Qed.

(** When [parallelUsers] returns nil, [fn] was called once for every index and returned nil each time. *)
Lemma parallelUsers_all count workers p :
  (0 < workers)%nat → rtc (pool_step count) (newPool count workers) p → pool_result p = Some None → pl_done p ≡ₚ seq 0 count.
Proof.
  intros Hw Hr Hres.
  assert (pool_ok count workers p) as [C L W].
  { assert (pool_ok count workers (newPool count workers)) as H0.
    { constructor; simpl; [|by intros _ [? _]%elem_of_replicate|by rewrite length_replicate]. intros _. by induction (count `min` workers)%nat. }
    induction Hr as [|p1 p2 p3 Hs _ IH]; [done|]. apply IH; [done|]. by eapply workers_step_ok. }
  unfold pool_result in Hres. destruct (forallb _ _) eqn:E; [|done]. injection Hres as Hn. rewrite forallb_forall in E. setoid_rewrite <- list_elem_of_In in E.
  assert (calls (pl_workers p) = []) as Ec.
  { clear - E. induction (pl_workers p) as [|w ws IH]; [done|]. pose proof (E w ltac:(left)). destruct w; try done. simpl. apply IH. intros x Hx. apply E. by right. }
  specialize (C Hn). rewrite Ec, app_nil_r in C. destruct (decide (count = 0)%nat) as [->|]; [by rewrite Nat.min_0_r in C|].
  rewrite Nat.min_r in C; [done|]. apply L; [done|]. destruct (pl_workers p) as [|w ws]; [simpl in W; lia|]. pose proof (E w ltac:(left)). destruct w; try done. left.
Qed.

(** ** Nodes *)

(** The users of a pair are on different nodes of those given. *)
Lemma nodeFor_cross p n : (2 ≤ n)%nat → nodeFor (2 * p) n ≠ nodeFor (2 * p + 1) n ∧ (nodeFor (2 * p) n < n)%nat ∧ (nodeFor (2 * p + 1) n < n)%nat.
Proof.
  intros Hn. destruct (viewer_even p) as [E0 E1]. unfold nodeFor. rewrite E0, E1.
  replace ((2 * p) mod 2)%nat with 0%nat by (rewrite Nat.mul_comm; by rewrite Nat.Div0.mod_mul).
  replace ((2 * p + 1) mod 2)%nat with 1%nat by (rewrite Nat.add_comm, Nat.mul_comm; by rewrite Nat.Div0.mod_add). simpl.
  pose proof (Nat.mod_upper_bound p n ltac:(lia)). pose proof (Nat.mod_upper_bound (p / n) (n - 1) ltac:(lia)). set (l := (p mod n)%nat) in *. set (k := ((p / n) mod (n - 1))%nat) in *.
  split_and!; [|done|by apply Nat.mod_upper_bound; lia]. destruct (Nat.lt_ge_cases (l + 1 + k) n).
  - rewrite Nat.mod_small by lia. lia.
  - rewrite <- (Nat.mod_unique (l + 1 + k) n 1 (l + 1 + k - n)) by lia. lia.
Qed.

(** Every ordered pair of different nodes is used by one of the first [n (n - 1)] pairs of users. *)
Lemma nodeFor_covers n a b : (2 ≤ n)%nat → (a < n)%nat → (b < n)%nat → a ≠ b → ∃ p, (p < n * (n - 1))%nat ∧ nodeFor (2 * p) n = a ∧ nodeFor (2 * p + 1) n = b.
Proof.
  intros Hn Ha Hb Hab. set (k := if (a <? b)%nat then (b - a - 1)%nat else (b + n - a - 1)%nat).
  assert (k < n - 1)%nat as Hk by (unfold k; destruct (Nat.ltb_spec a b); lia). exists (k * n + a)%nat. split; [nia|].
  destruct (viewer_even (k * n + a)) as [E0 E1]. unfold nodeFor. rewrite E0, E1.
  replace ((2 * (k * n + a)) mod 2)%nat with 0%nat by (rewrite Nat.mul_comm; by rewrite Nat.Div0.mod_mul).
  replace ((2 * (k * n + a) + 1) mod 2)%nat with 1%nat by (rewrite Nat.add_comm, Nat.mul_comm; by rewrite Nat.Div0.mod_add). simpl.
  replace ((k * n + a) mod n)%nat with a by (rewrite Nat.add_comm, Nat.Div0.mod_add; by rewrite Nat.mod_small).
  rewrite Nat.div_add_l, (Nat.div_small a), Nat.add_0_r, (Nat.mod_small k) by lia. split; [done|].
  unfold k. destruct (Nat.ltb_spec a b).
  - rewrite Nat.mod_small by lia. lia.
  - rewrite <- (Nat.mod_unique (a + 1 + (b + n - a - 1)) n 1 b) by lia. done.
Qed.

(** ** A run

    Two users on two nodes, one message; frames and their data are named by the texts below. *)

Definition demoUrl : UrlLib := {| url_Parse s := Some (mkURL "http" s false "" "" ""); url_String u := u_Host u |}.

Definition demoMessage : DtoMessage :=
  mkDtoMessage "s1" "run:0:0" "si_a:b" 1 ConversationSingle "a" "b" "" 1 (content (newRunner (mkOptions [] 0 0 S754_nan 0 0 0 0 0 false false) "run") 0 0) 1700000000000.

Definition demoFrames : FrameLib :=
  {| Unmarshal_frame s :=
       if (s =? "ready")%string then Some (mkFrame 1001 "ready" (Some 0) "") else if (s =? "ack")%string then Some (mkFrame 1003 "run:0:0" (Some 0) "")
       else if (s =? "push")%string then Some (mkFrame 2001 "" None "") else None;
     Unmarshal_maxSeqs _ := Some (mkMaxSeqsResult [] "" false);
     Unmarshal_ack _ := Some (mkAck "s1" "si_a:b" 1 1700000000000);
     Unmarshal_message _ := Some demoMessage |}.

#[local] Existing Instances demoUrl demoFrames.

Definition demoOptions : options := mkOptions ["n1"; "n2"] 2 1 (float_of 1) Second 0 0 Second 16 true false.

Definition demoLoad : list event :=
  [EProvision 0 (Ok "a"%string) (Ok ("a", "ta")%string); EProvision 1 (Ok "b"%string) (Ok ("b", "tb")%string); ERead 0 (InText "ready"); EConnect 0 None;
   ERead 1 (InText "ready"); EConnect 1 None; ESendStart 0 0 false; ERead 1 (InText "push"); ESendEnd 0 0; ERead 0 (InText "ack")].

Definition demoAnswers : Answers :=
  mkAnswers (Ok (mkMaxSeqsResult [mkMaxSeqItem "si_a:b" 1 1 0] "" false)) (λ _ _, Ok (mkPullResult [demoMessage] false)).

Example demoOptions_valid : validate demoOptions = None.
Proof. vm_compute. reflexivity. Qed.

(** The run passes with the acknowledgement, and not without it. *)
Example demo_passes :
  option_map lr_Passed (main demoOptions "run" demoLoad [EVerify 0 true true demoAnswers demoAnswers]) = Some true ∧
  option_map lr_Passed (main demoOptions "run" (removelast demoLoad) [EVerify 0 true true demoAnswers demoAnswers]) = Some false.
Proof. split; vm_compute; reflexivity. Qed.

(** [load_passed] on that run: the second user was shown the message as the first one's was acknowledged. *)
Example demo_shown : ∃ r, run demoOptions "run" demoLoad [EVerify 0 true true demoAnswers demoAnswers] = Some (None, r) ∧ shown r demoAnswers 1.
Proof.
  destruct (main demoOptions "run" demoLoad [EVerify 0 true true demoAnswers demoAnswers]) as [rep|] eqn:E; [|by vm_compute in E].
  destruct (load_passed demoOptions "run" demoLoad [EVerify 0 true true demoAnswers demoAnswers] rep) as (r & Hr & _ & _ & _ & _ & _ & Hs); [apply demoOptions_valid|by repeat constructor..|done| |].
  - pose proof (proj1 demo_passes) as H. rewrite E in H. by injection H.
  - exists r. split; [done|]. destruct (Hs 1%nat ltac:(simpl; lia)) as (a & (l0 & l1 & a0 & a1 & Hin & Ha) & Hv). apply list_elem_of_singleton in Hin. injection Hin as _ _ -> ->. by subst a.
Qed.
