(* ===== verification/Admission.v ===== *)
(** * Admission of frames and token rechecks ([admit], [overLimit] of [internal/gateway/client.go], [tokenDead] of [kick.go], [conn.go])

    The read loop of a connection admits one frame at a time; handlers run beside it, at most [inflight] of them. A connection that runs
    over its limits three times in a row is closed. A ticker rechecks the token: a revoked one is kicked at the next check that
    reaches the token store, or at the third one in a row that does not. *)

From S2P Require Import Prelude.
From S2P Require Import Presence.
From S2P Require Import Errcode Strconv Identity Store PgStore Conc RateLimit World Cache UserSvc Sha256 Auth AuthThms Http Api Frames.
From Stdlib Require Import QArith.

Local Open Scope Z_scope.

Definition overLimitCloseAt : Z := 3.
Definition recheckFailLimit : Z := 3.

Section Admission.
Context `{RL : RateLib} `{FC : FrameCodec}.

(** The fields of [Client] the read loop uses; [ad_frames] is [None] for [rate.Inf], [ad_limited] the node's [rateLimited] counter. *)
Record Admission := mkAdmission { ad_frames : option Limiter; ad_overRun : Z; ad_inflight : Z; ad_max : Z; ad_limited : Z }.

Definition newLimiter (perSec : Z) : option Limiter := if perSec <=? 0 then None else Some (NewLimiter (inject_Z perSec) (i64 (2 * perSec))).

Definition newAdmission (framesPerSec inflightPerConn : Z) : Admission := mkAdmission (newLimiter framesPerSec) 0 0 (Z.max inflightPerConn 1) 0.

Definition with_frames (f : option Limiter) (a : Admission) : Admission := mkAdmission f (ad_overRun a) (ad_inflight a) (ad_max a) (ad_limited a).
Definition with_run (n limited : Z) (a : Admission) : Admission := mkAdmission (ad_frames a) n (ad_inflight a) (ad_max a) limited.
Definition with_inflight (n : Z) (a : Admission) : Admission := mkAdmission (ad_frames a) (ad_overRun a) n (ad_max a) (ad_limited a).

Definition allowFrame (now : Z) (f : option Limiter) : bool * option Limiter :=
  match f with None => (true, None) | Some l => let '(ok, l') := AllowN l now 1 in (ok, Some l') end.

(** What becomes of a frame: the loop ends, the frame is refused (and the connection closed), answered as malformed, answered as
    expired before the kick, or dispatched. *)
Inductive Verdict := Stop | Over (x : WsResponse) (closed : bool) | Malformed (x : WsResponse) | Expired (x : WsResponse) | Dispatch (q : WsRequest).

Definition overLimit (req : WsRequest) (a : Admission) : Verdict * Admission :=
  let a := with_run (ad_overRun a + 1) (i64 (ad_limited a + 1)) a in
  (Over (fail req ErrTooManyRequests) (overLimitCloseAt <=? ad_overRun a), a).

(** [ended]: draining, or the context is done; [begins]: the work group is not sealed; [t1] and [t2] are clock readings. *)
Definition admitFrame (ended begins : bool) (t1 t2 : Z) (id : Identity) (raw : string) (a : Admission) : Verdict * Admission :=
  if ended then (Stop, a)
  else
    let '(ok, f) := allowFrame t1 (ad_frames a) in
    let a := with_frames f a in
    if negb ok then overLimit (mkWsRequest 0 "" "" "") a
    else
      match decodeRequest raw with
      | (req, Some e) => (Malformed (fail req e), with_run 0 (ad_limited a) a)
      | (req, None) =>
          if (0 <? Id_ExpiresAt id) && (Id_ExpiresAt id <? UnixMilli t2) then (Expired (fail req ErrTokenExpired), a)
          else if ad_max a <=? ad_inflight a then overLimit req a
          else
            let a := with_run 0 (ad_limited a) a in
            if negb begins then (Stop, a) else (Dispatch req, with_inflight (ad_inflight a + 1) a)
      end.

(** A handler ends and frees its place. *)
Definition finish (a : Admission) : Admission := with_inflight (ad_inflight a - 1) a.

(** ** A connection's life *)

Inductive Step := SFrame (ended begins : bool) (t1 t2 : Z) (raw : string) | SFinish.

(** The loop goes on after this verdict. *)
Definition goes_on (v : Verdict) : bool := match v with Stop => false | Over _ closed => negb closed | _ => true end.

(** The verdicts so far, newest first, the handlers that ended, and the state; no frame is read after the loop has ended, and only a
    running handler can end. *)
Inductive lives (id : Identity) (a0 : Admission) : list (Verdict * Z) → nat → Admission → Prop :=
| lives_new : lives id a0 [] 0 a0
| lives_frame vs n a ended begins t1 t2 raw v a' :
    lives id a0 vs n a → forallb (λ x : Verdict * Z, goes_on x.1) vs = true → admitFrame ended begins t1 t2 id raw a = (v, a') → lives id a0 ((v, t2) :: vs) n a'
| lives_finish vs n a : lives id a0 vs n a → 0 < ad_inflight a → lives id a0 vs (S n) (finish a).

Definition dispatched (vs : list (Verdict * Z)) : Z := Z.of_nat (length (List.filter (λ x : Verdict * Z, match x.1 with Dispatch _ => true | _ => false end) vs)).

(** Refused frames since the last one that was not; an expired one does not count. *)
Fixpoint streak (vs : list (Verdict * Z)) : Z :=
  match vs with
  | [] => 0
  | (Over _ _, _) :: vs => 1 + streak vs
  | (Expired _, _) :: vs => streak vs
  | _ => 0
  end.

(** The loop has not ended. *)
Definition open_ (vs : list (Verdict * Z)) : bool := forallb (λ x : Verdict * Z, goes_on x.1) vs.

Record admission_inv (id : Identity) (m : Z) (vs : list (Verdict * Z)) (n : nat) (a : Admission) : Prop := {
  ai_max : ad_max a = m;
  ai_inflight : ad_inflight a = dispatched vs - Z.of_nat n;
  ai_bounds : 0 ≤ ad_inflight a ≤ m;
  ai_run : open_ vs = true → ad_overRun a = streak vs;
  ai_below : open_ vs = true → 0 ≤ streak vs < overLimitCloseAt;
  ai_closed : ∀ r t, (Over r true, t) ∈ vs → ∃ vs', vs = (Over r true, t) :: vs' ∧ streak vs = overLimitCloseAt;
  ai_live : ∀ q t, (Dispatch q, t) ∈ vs → ¬ (0 < Id_ExpiresAt id < UnixMilli t) }.

Lemma dispatched_cons x vs : dispatched (x :: vs) = (match x.1 with Dispatch _ => 1 | _ => 0 end) + dispatched vs.
Proof. unfold dispatched. destruct x as [[] t]; simpl; lia. Qed.

Lemma streak_nonneg vs : 0 ≤ streak vs.
Proof. induction vs as [|[[] t] vs IH]; simpl; lia. Qed.

(** An open loop has closed nothing. *)
Lemma open_not_closed vs r t : open_ vs = true → (Over r true, t) ∉ vs.
Proof. unfold open_. rewrite forallb_forall. intros H Hin. apply list_elem_of_In, H in Hin. done. Qed.

(** One verdict on an open loop: what it does to the counters is enough. *)
Lemma verdict_inv id m vs n a v t a' :
  admission_inv id m vs n a → open_ vs = true → ad_max a' = m →
  ad_inflight a' = ad_inflight a + (match v with Dispatch _ => 1 | _ => 0 end) →
  (∀ q, v = Dispatch q → ad_inflight a < m ∧ ¬ (0 < Id_ExpiresAt id < UnixMilli t)) →
  (∀ r c, v = Over r c → c = (overLimitCloseAt <=? ad_overRun a + 1)) →
  ad_overRun a' = match v with Over _ _ => ad_overRun a + 1 | Expired _ | Stop => ad_overRun a | _ => 0 end ∨ v = Stop →
  admission_inv id m ((v, t) :: vs) n a'.
Proof.
  intros [H1 H2 H3 H4 H5 H6 H7] Ho Hm Hi Hd Hc Hr. specialize (H4 Ho). specialize (H5 Ho). pose proof (open_not_closed vs) as Hn.
  assert (ad_inflight a' ≤ m) as Hle by (destruct v; simpl in *; try lia; destruct (Hd _ eq_refl); lia).
  assert (0 ≤ ad_inflight a') as Hge by (destruct v; simpl in *; lia). unfold overLimitCloseAt in *.
  split; rewrite ?dispatched_cons; simpl; try done.
  - destruct v; simpl in *; lia.
  - intros [Hg _]%andb_true_iff. destruct Hr as [Hr| ->]; [|done]. destruct v as [|x c|x|x|q]; simpl in Hg, Hr; try done; lia.
  - intros [Hg _]%andb_true_iff. destruct v as [|x c|x|x|q]; simpl in Hg; unfold overLimitCloseAt; try done; try lia.
    specialize (Hc x c eq_refl). subst c. apply negb_true_iff in Hg. unfold overLimitCloseAt. lia.
  - intros r t' [E|Hin]%elem_of_cons; [|by destruct (Hn r t' Ho)]. injection E as <- <-. exists vs. split; [done|].
    specialize (Hc r true eq_refl). unfold overLimitCloseAt. lia.
  - intros q t' [E|Hin]%elem_of_cons; [|by eapply H7]. injection E as <- <-. by apply (Hd q).
Qed.

Ltac verdict IH Ho Hm := eapply verdict_inv; [exact IH|exact Ho|exact Hm|simpl; lia|..];
  try first [done|by left|by right|by intros ? ? [= _ <-]].

Lemma lives_inv id f k vs n a : lives id (newAdmission f k) vs n a → admission_inv id (Z.max k 1) vs n a.
Proof.
  induction 1 as [|vs n a ended begins t1 t2 raw v a' Hl IH Ho Ha|vs n a Hl IH Hp].
  - split; simpl; try done; try lia; intros * Hin; by apply not_elem_of_nil in Hin.
  - pose proof (ai_max _ _ _ _ _ IH) as Hm. unfold admitFrame in Ha. destruct ended; [injection Ha as <- <-; verdict IH Ho Hm|].
    destruct (allowFrame t1 (ad_frames a)) as [ok fr]. destruct ok; simpl in Ha; [|injection Ha as <- <-; verdict IH Ho Hm].
    destruct (decodeRequest raw) as [req [e|]]; [injection Ha as <- <-; verdict IH Ho Hm|].
    destruct ((0 <? Id_ExpiresAt id) && (Id_ExpiresAt id <? UnixMilli t2)) eqn:Ee; [injection Ha as <- <-; verdict IH Ho Hm|].
    destruct (Z.leb_spec (ad_max a) (ad_inflight a)) as [Hf|Hf]; [injection Ha as <- <-; verdict IH Ho Hm|].
    destruct begins; simpl in Ha; injection Ha as <- <-; verdict IH Ho Hm.
    intros q _. split; [lia|]. intros [He1 He2]. apply Z.ltb_lt in He1, He2. by rewrite He1, He2 in Ee.
  - destruct IH as [H1 H2 H3 H4 H5 H6 H7]. split; simpl; try done; lia.
Qed.

(** C33: what a connection may cost. Whatever frames a client sends and whenever handlers end, the handlers that run for a connection are
    those dispatched and not ended, never more than the limit; the connection is closed for its rate exactly at the third refused frame
    in a row and no frame is read after that; and no frame is dispatched under an expired token. *)
Theorem admission_bounded id framesPerSec inflightPerConn vs n a :
  lives id (newAdmission framesPerSec inflightPerConn) vs n a →
  ad_inflight a = dispatched vs - Z.of_nat n ∧ 0 ≤ ad_inflight a ≤ Z.max inflightPerConn 1 ∧
  (open_ vs = true → streak vs < overLimitCloseAt) ∧
  (∀ r t, (Over r true, t) ∈ vs → ∃ vs', vs = (Over r true, t) :: vs' ∧ streak vs = overLimitCloseAt) ∧
  (∀ q t, (Dispatch q, t) ∈ vs → ¬ (0 < Id_ExpiresAt id < UnixMilli t)).
Proof. intros H. apply lives_inv in H as [H1 H2 H3 H4 H5 H6 H7]. split_and!; try done; try lia. intros Ho. by apply H5. Qed.
End Admission.

(** ** Rechecks ([kick.go]) *)

Section Recheck.
Context {C : Type} `{CC : Cache C}.

(** The new count of failures and the verdict; [ended]: the check's context and the connection's are over. *)
Definition tokenDead (hasNative ended : bool) (now tc : Z) (id : Identity) (fails : Z) (c : C) : bool * Z * C :=
  if (0 <? Id_ExpiresAt id) && (Id_ExpiresAt id <? UnixMilli now) then (true, fails, c)
  else if negb (Id_Source id =? SourceNative)%string || negb hasNative then (false, fails, c)
  else
    let '(e, c') := Check_token tc id c in
    if ended then (false, fails, c')
    else
      match e with
      | Some e => if Is e auth_ErrUnavailable then (recheckFailLimit <=? fails + 1, fails + 1, c') else (true, 0, c')
      | None => (false, 0, c')
      end.

(** A tick: the clocks, and the cache as it is then. *)
Record Tick := mkTick { tk_now : Z; tk_tc : Z; tk_cache : C }.

(** [recheckLoop] over the ticks of an open connection: whether it kicks. *)
Fixpoint recheckLoop (hasNative : bool) (id : Identity) (ks : list Tick) (fails : Z) : bool :=
  match ks with
  | [] => false
  | k :: ks =>
      let '(dead, fails', _) := tokenDead hasNative false (tk_now k) (tk_tc k) id fails (tk_cache k) in
      if dead then true else recheckLoop hasNative id ks fails'
  end.

Definition expired (id : Identity) (k : Tick) : Prop := 0 < Id_ExpiresAt id < UnixMilli (tk_now k).

(** The token store could not be asked. *)
Definition unavailable_at (id : Identity) (k : Tick) : Prop :=
  ∃ e c', Check_token (tk_tc k) id (tk_cache k) = (Some e, c') ∧ Is e auth_ErrUnavailable = true.

Context `{CO : !CacheOk C}.

(** What the store holds for the user and platform of the connection, when the tick asks. *)
Definition stored (id : Identity) (k : Tick) (tok : option string) : Prop :=
  ∃ t0 S, refines t0 (tk_cache k) S ∧ t0 ≤ tk_tc k ∧ zeroTime < tk_tc k ∧ session S (tk_tc k) (Id_UserId id) (Id_PlatformId id) = tok.

Variable id : Identity.
Hypothesis native_id : Id_Source id = SourceNative.
Hypothesis platform_id : minInt64 ≤ Id_PlatformId id ≤ maxInt64.

(** A tick that finds another token, or none. *)
Lemma stale_tick k tok fails :
  stored id k tok → tok ≠ Some (Id_TokenId id) →
  ∃ c', tokenDead true false (tk_now k) (tk_tc k) id fails (tk_cache k) = (true, fails, c') ∨
        tokenDead true false (tk_now k) (tk_tc k) id fails (tk_cache k) = (true, 0, c') ∨
        tokenDead true false (tk_now k) (tk_tc k) id fails (tk_cache k) = (recheckFailLimit <=? fails + 1, fails + 1, c').
Proof.
  intros (t0 & S & HR & Ht & Hz & Hs) Hne. unfold tokenDead. rewrite native_id, String.eqb_refl. simpl. destruct (_ && _); [eauto|].
  destruct (Check_token (tk_tc k) id (tk_cache k)) as [e c'] eqn:E.
  destruct (Check_token_session _ _ _ _ _ _ _ HR Ht Hz platform_id E) as [Hok _]. destruct e as [e|]; [|specialize (Hok eq_refl); congruence].
  destruct (Is e auth_ErrUnavailable); eauto.
Qed.

(** A tick that finds the connection's own token. *)
Lemma current_tick k fails :
  stored id k (Some (Id_TokenId id)) → ¬ expired id k →
  ∃ c', tokenDead true false (tk_now k) (tk_tc k) id fails (tk_cache k) = (false, 0, c') ∨
        unavailable_at id k ∧ tokenDead true false (tk_now k) (tk_tc k) id fails (tk_cache k) = (recheckFailLimit <=? fails + 1, fails + 1, c').
Proof.
  intros (t0 & S & HR & Ht & Hz & Hs) Hne. unfold tokenDead, expired in *. rewrite native_id, String.eqb_refl. simpl.
  destruct ((0 <? Id_ExpiresAt id) && (Id_ExpiresAt id <? UnixMilli (tk_now k))) eqn:Ee; [destruct Hne; bool_prop; lia|].
  destruct (Check_token (tk_tc k) id (tk_cache k)) as [e c'] eqn:E. exists c'.
  destruct (Check_token_session _ _ _ _ _ _ _ HR Ht Hz platform_id E) as [_ Hno].
  destruct (Hno Hs) as [-> |(e' & -> & He)]; [by left|]. right. rewrite He. split; [by exists e', c'|done].
Qed.

Lemma stale_loop ks fails :
  Forall (λ k, ∃ tok, stored id k tok ∧ tok ≠ Some (Id_TokenId id)) ks → recheckFailLimit - fails ≤ Z.of_nat (length ks) → fails < recheckFailLimit →
  recheckLoop true id ks fails = true.
Proof.
  revert fails. induction ks as [|k ks IH]; intros fails Hall Hlen Hlt; simpl in *; [unfold recheckFailLimit in *; lia|].
  apply Forall_cons in Hall as [(tok & Hs & Hne) Hall]. destruct (stale_tick k tok fails Hs Hne) as (c' & [-> | [-> | ->]]); [done..|].
  destruct (Z.leb_spec recheckFailLimit (fails + 1)); [done|]. apply IH; [done|lia|lia].
Qed.

(** The failures counted so far are those of the last ticks. *)
Lemma current_loop ks pre fails :
  Forall (λ k, stored id k (Some (Id_TokenId id)) ∧ ¬ expired id k) ks → Z.of_nat (length pre) = fails → Forall (unavailable_at id) pre →
  recheckLoop true id ks fails = true →
  ∃ a k1 k2 k3 b, pre ++ ks = a ++ k1 :: k2 :: k3 :: b ∧ Forall (unavailable_at id) [k1; k2; k3].
Proof.
  revert pre fails. induction ks as [|k ks IH]; intros pre fails Hall Hlen Hpre; simpl; [done|].
  apply Forall_cons in Hall as [[Hs He] Hall]. destruct (current_tick k fails Hs He) as (c' & [-> | [Hu ->]]).
  - intros Hr. destruct (IH [] 0 Hall eq_refl ltac:(constructor) Hr) as (a & k1 & k2 & k3 & b & E & Hb). simpl in E.
    exists (pre ++ k :: a), k1, k2, k3, b. split; [|done]. rewrite E, <- app_assoc. done.
  - assert (Forall (unavailable_at id) (pre ++ [k])) as Hpk by (apply Forall_app; by split; [|constructor]).
    destruct (Z.leb_spec recheckFailLimit (fails + 1)) as [Hlim|Hlim]; intros Hr.
    + unfold recheckFailLimit in Hlim. clear - Hlim Hlen Hpk.
      destruct pre as [|x pre] using rev_ind; [simpl in Hlen; lia|]. clear IHpre. rewrite length_app in Hlen. simpl in Hlen.
      destruct pre as [|y pre] using rev_ind; [simpl in Hlen; lia|]. clear IHpre. exists pre, y, x, k, ks.
      split; [by rewrite <- !app_assoc|]. rewrite !Forall_app, !Forall_singleton in Hpk. destruct Hpk as [[[_ ?] ?] ?]. by repeat constructor.
    + destruct (IH (pre ++ [k]) (fails + 1) Hall) as (a & k1 & k2 & k3 & b & E & Hb); [rewrite length_app; simpl; lia|done|done|].
      exists a, k1, k2, k3, b. split; [by rewrite <- E, <- app_assoc|done].
Qed.

(** A loop that did not kick goes on with a count below the limit. *)
Lemma recheck_app ks1 ks2 fails :
  recheckLoop true id ks1 fails = false → 0 ≤ fails < recheckFailLimit →
  ∃ f, 0 ≤ f < recheckFailLimit ∧ recheckLoop true id (ks1 ++ ks2) fails = recheckLoop true id ks2 f.
Proof.
  revert fails. induction ks1 as [|k ks1 IH]; intros fails; simpl; [eauto|].
  destruct (tokenDead _ _ _ _ _ fails _) as [[dead f] c'] eqn:E. destruct dead; [done|]. intros Hr Hf. apply IH; [done|].
  unfold tokenDead in E. rewrite native_id, String.eqb_refl in E. simpl in E. destruct (_ && _); [done|].
  destruct (Check_token _ _ _) as [[e|] c1]; [|injection E as <- <-; unfold recheckFailLimit; lia].
  destruct (Is e auth_ErrUnavailable); [|done]. injection E as E <- <-. lia.
Qed.

(** C34: a connection does not outlive its token. Once the token store holds another token for the user and platform of a native connection,
    or none, the connection is kicked within three rechecks, whatever fails; while the store holds the connection's own token and it
    has not expired, the connection is kicked only after three rechecks in a row that could not ask the store. *)
Theorem recheck_enforces_tokens ks :
  ((∃ ks1 ks2, ks = ks1 ++ ks2 ∧ (3 ≤ length ks2)%nat ∧ Forall (λ k, ∃ tok, stored id k tok ∧ tok ≠ Some (Id_TokenId id)) ks2 ∧
     recheckLoop true id ks1 0 = false) → recheckLoop true id ks 0 = true) ∧
  (Forall (λ k, stored id k (Some (Id_TokenId id)) ∧ ¬ expired id k) ks → recheckLoop true id ks 0 = true →
     ∃ a k1 k2 k3 b, ks = a ++ k1 :: k2 :: k3 :: b ∧ Forall (unavailable_at id) [k1; k2; k3]).
Proof.
  split.
  - intros (ks1 & ks2 & -> & Hlen & Hall & Hr). destruct (recheck_app ks1 ks2 0 Hr) as (f & Hf & ->); [unfold recheckFailLimit; lia|].
    apply stale_loop; [done|unfold recheckFailLimit in *; lia|lia].
  - intros Hall Hr. by apply (current_loop ks [] 0).
Qed.
End Recheck.

(** ** Concrete runs *)

(** An outage: every call of the cache fails. *)
#[local] Instance outage : Env := {| clock t := Z.of_nat t * Second; newV7 _ := ""; shortId _ := ""; fault _ := FailBefore "down" |}.

Definition superseded : Identity := mkIdentity alice RoleUser 5 "jti1" 3700000 SourceNative.

Definition outage_tick (t : Z) : @Tick (gmap string lentry * nat) := mkTick (at_ t) (at_ t) (∅, 0%nat).

(** The token is revoked and the store is down: the third recheck kicks, the second does not. *)
Lemma recheck_enforces_tokens_witness :
  recheckLoop true superseded [outage_tick 160; outage_tick 220] 0 = false ∧
  recheckLoop true superseded [outage_tick 160; outage_tick 220; outage_tick 280] 0 = true.
Proof.
  split; [vm_compute; reflexivity|].
  apply (recheck_enforces_tokens superseded eq_refl ltac:(unfold superseded, minInt64, maxInt64; simpl; lia)).
  exists [], [outage_tick 160; outage_tick 220; outage_tick 280]. split; [reflexivity|]. split; [simpl; lia|]. split; [|reflexivity].
  assert (∀ t, 0 < t → ∃ tok, stored superseded (outage_tick t) tok ∧ tok ≠ Some (Id_TokenId superseded)) as H.
  { intros t Ht. exists None. split; [|discriminate]. exists 0, ∅. split_and!; [intros t' u p _ _; reflexivity|simpl; unfold at_, Second; lia| |reflexivity].
    simpl. unfold at_, Second, zeroTime. lia. }
  constructor; [apply H; lia|]. constructor; [apply H; lia|]. constructor; [apply H; lia|]. constructor.
Defined.

(** Frames that all decode to one request. *)
#[local] Instance oneCodec : FrameCodec := {|
  unmarshalRequest := λ _, (mkWsRequest ReqSendMsg "op" "" "", None); unmarshalSub := λ _, Err (EOther "json");
  unmarshalMaxSeqs := λ _, Err (EOther "json"); unmarshalPull := λ _, Err (EOther "json"); unmarshalSend := λ _, Err (EOther "json");
  unmarshalRead := λ _, Err (EOther "json"); unmarshalGet := λ _, Err (EOther "json") |}.

#[local] Existing Instance countingLib.

(** Frames one after the other on an open connection. *)
Fixpoint admits (n : nat) (a : Admission) (vs : list (Verdict * Z)) : list (Verdict * Z) * Admission :=
  match n with
  | O => (vs, a)
  | S n => let '(v, a') := admitFrame false true (at_ 1) (at_ 1) superseded "{}" a in admits n a' ((v, at_ 1) :: vs)
  end.

Fixpoint admissible (n : nat) (a : Admission) (vs : list (Verdict * Z)) : bool :=
  match n with
  | O => true
  | S n => open_ vs && let '(v, a') := admitFrame false true (at_ 1) (at_ 1) superseded "{}" a in admissible n a' ((v, at_ 1) :: vs)
  end.

Lemma admits_lives a0 n vs a k :
  lives superseded a0 vs k a → admissible n a vs = true → lives superseded a0 (admits n a vs).1 k (admits n a vs).2.
Proof.
  revert vs a. induction n as [|n IH]; intros vs a Hl; cbn [admissible admits]; [done|]. intros [Ho Ha]%andb_true_iff.
  destruct (admitFrame false true (at_ 1) (at_ 1) superseded "{}" a) as [v a'] eqn:E. apply IH; [|done]. by eapply lives_frame.
Qed.

(** One handler may run: the first frame is dispatched, the next three are refused and the third of them closes the connection. *)
Definition burst := admits 4 (newAdmission 0 1) [].

Lemma burst_lives : lives superseded (newAdmission 0 1) burst.1 0 burst.2.
Proof. apply admits_lives; [apply lives_new|vm_compute; reflexivity]. Qed.

Lemma admission_bounded_witness : length burst.1 = 4%nat ∧ dispatched burst.1 = 1 ∧ ad_inflight burst.2 ≤ 1 ∧ streak burst.1 = 3.
Proof.
  destruct (admission_bounded superseded 0 1 _ _ _ burst_lives) as (H1 & H2 & _ & H4 & _).
  split_and!; [vm_compute; reflexivity|vm_compute; reflexivity|apply H2|].
  destruct (H4 (fail (mkWsRequest ReqSendMsg "op" "" "") ErrTooManyRequests) (at_ 1)) as (vs & _ & H); [left|exact H].
Defined.

(** * The socket of a connection and its read loop ([conn.go], [readLoop] of [client.go], [originChecker] of [gateway.go])

    What the adapter makes of a frame the WebSocket library read, the loop that admits the frames one after the other, and the closing
    control frame. The loop only ever makes the steps of [lives], so the bounds above hold of every connection it serves. *)

(** ** The adapter *)

Definition TextMessage : Z := 1.
Definition CloseGoingAway : Z := 1001.
Definition CloseUnsupportedData : Z := 1003.

(** What a read of the library gave: an error, or a message of a type. *)
Inductive SockRead := SockErr (e : error) | SockMessage (typ : Z) (data : string).

(** The data or an error, and the code of the close frame that was written, if any. *)
Definition ReadMessage (r : SockRead) : result string * option Z :=
  match r with
  | SockErr e => (Err e, None)
  | SockMessage typ data =>
      if negb (typ =? TextMessage) then (Err (EOther "text frames required"), Some CloseUnsupportedData) else (Ok data, None)
  end.

(** A host that sends no [Origin], or an origin that is allowed; no list allows all. *)
Definition originChecker (allowed : list string) (origin : string) : bool := (origin =? "")%string || (length allowed =? 0)%nat || in_list origin allowed.

(** The shutdown a node is in: whether its context is done, and its deadline. *)
Record ShutdownCtx := mkShutdownCtx { sx_done : bool; sx_deadline : option Z }.

Definition minTime (a b : Z) : Z := if a <? b then a else b.

(** [closeControl]: the close frame and until when it may be written; none when the adapter has no such frame or the shutdown is over. *)
Definition closeControl (supported : bool) (now : Z) (shutdown : option ShutdownCtx) : option (Z * Z) :=
  if negb supported then None
  else
    match shutdown with
    | None => Some (CloseGoingAway, now + Second)
    | Some s => if sx_done s then None else Some (CloseGoingAway, match sx_deadline s with Some d => minTime (now + Second) d | None => now + Second end)
    end.

(** ** The read loop *)

Section ReadLoop.
Context `{RL : RateLib} `{FC : FrameCodec}.

(** One turn: the handlers that ended before it, what was read, and the circumstances of [admitFrame]. *)
Record Turn := mkTurn { tn_finished : nat; tn_read : SockRead; tn_ended : bool; tn_begins : bool; tn_t1 : Z; tn_t2 : Z }.

Fixpoint finishes (k : nat) (a : Admission) : Admission :=
  match k with O => a | S k => if 0 <? ad_inflight a then finishes k (finish a) else a end.

(** The loop over the turns: whether it has returned, the verdicts, newest first, and the state. *)
Fixpoint readLoop (id : Identity) (ts : list Turn) (vs : list (Verdict * Z)) (a : Admission) : bool * list (Verdict * Z) * Admission :=
  match ts with
  | [] => (false, vs, a)
  | t :: ts =>
      let a := finishes (tn_finished t) a in
      match (ReadMessage (tn_read t)).1 with
      | Err _ => (true, vs, a)
      | Ok raw =>
          let '(v, a) := admitFrame (tn_ended t) (tn_begins t) (tn_t1 t) (tn_t2 t) id raw a in
          if goes_on v then readLoop id ts ((v, tn_t2 t) :: vs) a else (true, (v, tn_t2 t) :: vs, a)
      end
  end.

Lemma finishes_lives id a0 vs k : ∀ n a, lives id a0 vs n a → ∃ n', lives id a0 vs n' (finishes k a).
Proof.
  induction k as [|k IH]; intros n a H; simpl; [eauto|]. destruct (Z.ltb_spec 0 (ad_inflight a)); [|eauto]. apply (IH (S n)). by apply lives_finish.
Qed.

(** What the loop does is a life of the connection's admission. *)
Lemma readLoop_lives id a0 ts : ∀ vs n a b vs' a',
  lives id a0 vs n a → open_ vs = true → readLoop id ts vs a = (b, vs', a') →
  (∃ n', lives id a0 vs' n' a') ∧ (b = false → open_ vs' = true).
Proof.
  induction ts as [|t ts IH]; intros vs n a b vs' a' Hl Ho H; simpl in H; [injection H as <- <- <-; eauto|].
  destruct (finishes_lives _ _ _ (tn_finished t) _ _ Hl) as (n1 & H1). destruct (ReadMessage (tn_read t)).1 as [raw|e]; [|injection H as <- <- <-; eauto].
  destruct (admitFrame _ _ _ _ _ _ _) as [v a1] eqn:Ea. pose proof (lives_frame _ _ _ _ _ _ _ _ _ _ _ _ H1 Ho Ea) as H2. destruct (goes_on v) eqn:Eg.
  - apply (IH _ _ _ _ _ _ H2); [|done]. unfold open_ in *. simpl. by rewrite Eg, Ho.
  - injection H as <- <- <-. split; [eauto|done].
Qed.

(** A connection that keeps reading has had at most two refused frames in a row, and never more handlers than its limit; a frame that is
    not text ends it with a close frame of its own. *)
Lemma readLoop_bounded id framesPerSec inflightPerConn ts b vs a :
  readLoop id ts [] (newAdmission framesPerSec inflightPerConn) = (b, vs, a) →
  0 ≤ ad_inflight a ≤ Z.max inflightPerConn 1 ∧ (b = false → streak vs < overLimitCloseAt).
Proof.
  intros H. destruct (readLoop_lives _ _ _ _ _ _ _ _ _ (lives_new id (newAdmission framesPerSec inflightPerConn)) eq_refl H) as ((n & Hl) & Hb).
  apply lives_inv in Hl as [_ _ H3 _ H5 _ _]. split; [done|]. intros Hf. by apply H5, Hb.
Qed.

Lemma binary_frame_ends id t ts vs a typ data :
  tn_read t = SockMessage typ data → typ ≠ TextMessage →
  readLoop id (t :: ts) vs a = (true, vs, finishes (tn_finished t) a) ∧ (ReadMessage (tn_read t)).2 = Some CloseUnsupportedData.
Proof. intros E Ht. simpl. rewrite E. unfold ReadMessage. destruct (Z.eqb_spec typ TextMessage); [done|]. done. Qed.
End ReadLoop.

(** A close frame is never promised for later than a second, nor past the deadline of the shutdown. *)
Lemma closeControl_deadline supported now s code d :
  closeControl supported now s = Some (code, d) → code = CloseGoingAway ∧ d ≤ now + Second ∧ ∀ x dl, s = Some x → sx_deadline x = Some dl → d ≤ dl.
Proof.
  unfold closeControl, minTime. destruct supported; [|done]. destruct s as [x|]; simpl; [|intros [= <- <-]; split_and!; [done|lia|done]].
  destruct (sx_done x); [done|]. intros [= <- <-]. destruct (sx_deadline x) as [dl|] eqn:E; [destruct (Z.ltb_spec (now + Second) dl)|]; (split_and!; [done|lia|]); intros y dl' [= <-] E'; rewrite E in E'; simplify_eq; lia.
Qed.
